(* ===== verification/_CoqProject ===== *)
-Q . S2P
Prelude.v
JsString.v
JsNumber.v
JsIntSpec.v
JsPrintSpec.v
JsOrderSpec.v
JsRegex.v
JsValue.v
JsJson.v
JsArray.v
JsGroup.v
ExprTypes.v
ExprParser.v
ExprParserSpec.v
ExprSpelling.v
ExprGrammar.v
ExprQuoteSpec.v
ExprLexing.v
ExprWriting.v
ExprCompile.v
ExprCompileSpec.v
ExprRuntime.v
ExprRuntimeSpec.v
ExprInputsSpec.v
ExprIntSpec.v
ExprStructure.v
ExprDisplay.v
ExprDisplaySpec.v
ExprSplitSpec.v
BillingExpr.v
BillingExprSpec.v
ExprVisual.v
ExprVisualSpec.v
ExprPatching.v
TierMatch.v
ConditionDisplay.v
ConditionDisplaySpec.v
TaskExpr.v
TaskExprSpec.v
TaskWriteSpec.v
TaskRoundTrip.v
TierExpr.v
TierExprSpec.v
TaskDisplay.v
TaskDisplaySpec.v
TaskMatrixDisplay.v
TaskMatrixDisplaySpec.v
TaskPriceText.v
Currency.v
PricingModel.v
DynamicPrice.v
DynamicPriceSpec.v
Catalogue.v
CatalogueSpec.v
AuthSession.v
AuthSessionSpec.v
HttpClient.v
HttpClientSpec.v
PricingFormat.v
PricingSnapshots.v
PricingDraft.v
PricingDraftSpec.v
PricingRowSpec.v
PricingSyncSpec.v
PriceSync.v
PriceSyncSpec.v
PluginApi.v
PluginVidu.v
PluginViduSpec.v
PluginKling.v
PluginKlingSpec.v
ChatMessage.v
ChatMessageSpec.v
ChatStream.v
ChatStreamSpec.v
DashboardFlow.v
DashboardFlowSpec.v
DashboardViewSpec.v
FlowCharts.v
FlowChartsSpec.v
