(* ===== verification/Prelude.v ===== *)
(** * The billing, the task plugins, the playground and the flow diagram of new-api

    new-api is a gateway to language and video models.  This development models four
    parts of it that are written in TypeScript and JavaScript, with the language they run
    on:

    - The console ([web/src]) prices requests to models by billing expressions:
      [len < 200000 ? tier("base", p * 2 + c * 8) : tier("long", ...)], possibly multiplied
      by request rules [(hour("UTC") >= 9 ? 2 : 1)].  It parses, checks and evaluates them,
      shows them as price tables and texts, lets an administrator edit them in three
      editors, keeps them with the other prices of a model in drafts, takes over prices of
      upstream providers, and lists the models with their prices in a catalogue.
    - The task plugins ([plugins/tasks]) translate requests for videos to a provider and
      report the facts that are billed.
    - The playground of the console sends questions to models and shows answers as they
      are streamed; the login session and the HTTP client are below all of it.
    - The dashboard of the console shows where requests come from and go to as a Sankey
      diagram of users, groups, models and channels.

    ** Files and the sources they model

    Language (used by every file):
    - [Prelude]: results of code that throws, tactics, association lists (the own
      properties of an object or the entries of a [Map], in order), slices.
    - [JsString]: strings as lists of UTF-16 code units; [trim], [join],
      [includes], order, decimal digits.
    - [JsNumber]: numbers as IEEE binary64 data over the Standard Library's
      [SpecFloat]; [Math.*], [%], [Number(s)], [String(x)], all exact.
    - [JsIntSpec], [JsPrintSpec], [JsOrderSpec]: the rounding of [SpecFloat]
      on integers and in general; that a printed number reads back; the order of numbers.
    - [JsRegex]: a backtracking matcher with captures, and the language it matches.
    - [JsValue]: JavaScript values, JSON reading and quoting; the class [Host] is
      what the program asks of its host: [Intl] time zones, lower case beyond
      ASCII, the clock, the text of engine errors.  [JsJson]: objects in enumeration
      order, and that JSON text reads back.
    - [JsArray]: stable sorting with a comparator.  [JsGroup]: maps filled by a loop that
      totals by a key, and sums over their entries.

    Engine, [web/src/features/pricing/lib/billing-expression/]:
    - [ExprTypes] ([types.ts]): tables of variables and functions, syntax trees,
      diagnostics, the explicit-stack traversal, dependencies.
    - [ExprParser] ([parser.ts], class [BillingParser]): lexer and
      precedence-climbing parser, one function per method, the parser object as
      the state [pstate].
    - [ExprCompile] ([parser.ts], the rest): type check, request rules, fixed-price
      check, compilation, the bounded cache as a state passed along.
    - [ExprRuntime] ([runtime.ts]): request paths, printing of values, time zones,
      class [BillingRuntime] with its mutable fields as [rstate], the entry points.
    - [ExprStructure] ([structure.ts]): top-level splitting, outer parentheses.
    - [ExprDisplay] ([display.ts]): tiers of token and task expressions.
    - [ExprVisual] ([visual.ts]): documents of the visual editor, written back by
      patching the source.
    - [ConditionDisplay] ([condition-display.ts]): conditions in words.
    - [TaskDisplay] ([task-display.ts]): prices of a task per combination of facts and
      outcome of its time conditions.

    Clients, [web/src/features/pricing/lib/]:
    - [BillingExpr] ([billing-expr.ts]): registry of variables, shown tiers, request
      rules (parse, build, split off, combine).
    - [TierMatch] ([breakdown-tier-match.ts]): the settled row of a price table.
    - [TierExpr] ([tier-expr.ts]): tier editor and cost estimator.
    - [TaskExpr] ([task-expr.ts]): matrix editor of task prices and its preview.
    - [TaskMatrixDisplay] ([task-matrix-display.ts]): the price table of a task model.
    - [TaskPriceText] ([task-price-display.ts], [web/src/lib/localized-text.ts]): its texts.
    - [Currency] ([web/src/lib/currency.ts], the currency settings of
      [stores/system-config-store.ts]): amounts in the display currency.
    - [PricingModel] ([types.ts], [constants.ts] of [pricing/], [model-helpers.ts],
      [plugin-pricing.ts], [price.ts]): models, groups, providers, prices by ratio.
    - [DynamicPrice] ([dynamic-price.ts], [billing-mode.ts]): price entries and summaries
      of models billed by expressions.
    - [Catalogue] ([filters.ts]): the list of models, filtered and sorted.

    Prices of the settings pages ([features/model-pricing], [features/system-settings/models]):
    - [PricingFormat] ([pricing-format.ts], [currency.ts]): amounts in the editors.
    - [PricingSnapshots] ([model-pricing-snapshots.ts], [model-pricing-core.ts]): the rows
      of the price list, read from the stored options.
    - [PricingDraft] ([pricing.ts], [api.ts]): drafts of prices, how they are written to
      the options and which changes are sent.
    - [PriceSync] ([upstream-ratio-sync-helpers.ts], [upstream-price-adjustment.ts]):
      quotes of upstream providers, compared, described and converted.

    Task plugins:
    - [PluginApi] ([docs/plugin-api/v1.d.ts] and the helpers the plugins repeat): contexts,
      intents, request descriptors; a hook returns a value, throws, or does what the model
      leaves out.
    - [PluginVidu], [PluginKling] ([plugins/tasks/vidu], [plugins/tasks/kling]): all hooks.

    Playground ([features/playground]):
    - [ChatMessage] ([types.ts], [constants.ts], [lib/message/]): messages, reasoning tags,
      chunks, timing, edits.
    - [ChatStream] ([lib/streaming/], [hooks/use-stream-request.ts],
      [hooks/use-chat-handler.ts], [hooks/use-playground-conversation.ts]): the page as a
      state [chat] and [step], what one event does.

    Dashboard ([features/dashboard]):
    - [DashboardFlow] ([lib/flow.ts], the flow types of [types.ts]): rows, paths, filters,
      totals, masking, highlights, colours, filter options.  [DashboardFlowSpec] holds what
      the totals are, [DashboardViewSpec] the display limit and what
      masking does.
    - [FlowCharts] ([components/flow/flow-charts.tsx], [lib/flow-selection.ts]): the data of
      the chart, presses on it, and the controls as a state [flow_view] with [view_step].

    Session:
    - [AuthSession] ([stores/auth-store.ts], [lib/auth-session.ts], [lib/session-hint.ts],
      [lib/auth-session-sync.ts], the listener of [routes/__root.tsx], all under
      [web/src]): the session of a tab as a state [tab], and [step], what one event
      does: a call, the grant of the browser lock, an answer of the server, a timer,
      a message of another tab.
    - [HttpClient] ([lib/http-client.ts]): the life of a request beside that session, and
      the sharing of requests in flight.

    A file [XSpec] holds the properties of [X]; [ExprQuoteSpec], [ExprInputsSpec]
    and [ExprIntSpec] hold those of quoting, of the evaluator's inputs and of its
    integers, [ExprSpelling] what the parser keeps of the text it reads, [ExprGrammar] the
    declarative grammar the parser decides, [ExprLexing] and [ExprWriting] how written
    expressions are read, [ExprSplitSpec] the splitting of texts and
    trees without places,
    [ExprPatching] the order of patches, [TaskWriteSpec] and [TaskRoundTrip] that a
    generated task expression reads back, [PricingRowSpec] and [PricingSyncSpec] the rows
    and the take-over of prices.

    ** How code becomes definitions

    A function that may throw returns [result berr _]: a [BillingError] with its
    diagnostic, [EngineError] for a TypeError of the host, [OutOfFuel] for the model
    alone; a plugin hook returns [result plugin_error _].  Object fields that change are
    records passed along.  Nodes are compared
    by identity in the code and by value here; [parsed_nodes_distinct] shows that nodes of
    one tree differ in their spans, so the two agree.  Loops over strings and trees are
    structural or fuelled; C1, C3 and [describe_fuel_enough], [read_condition_fuel],
    [think_loop_spec] show that the fuel given (twice the size of a tree, the length of a
    text plus a constant, the size of a node) is enough.  Code that awaits is cut at each
    [await]: the place where a refresh or a request waits is part of the state, and what
    other code does in the meantime is a step between.  A state update of React is a
    datum that is applied at once or at the next rendering, as the event says.

    ** Theorems

    - Trees and parsing (C1, C3, C5, C33; [parsed_nodes_distinct]): the traversal is postorder within its
      depth limit; dependencies are exact; the parser always ends, decides the declarative
      grammar, and gives well-formed, correctly nested trees that spell the text they were
      read from.
    - Compilation (C7 to C9): the type check decides the declarative type system;
      what compilation returns; the cache is transparent and bounded.
    - Evaluation (C10 to C13, C28; [utc_fields_calendar]): no engine errors; what a success and a failure
      report; only declared dependencies are read; a fixed price comes from exactly one leaf on
      every way through the branches; calendar fields of UTC; integers are exact or refused.
    - Display against evaluation (C18, C26, C27, C29, C34, C39; [current_time_tiers],
      [shown_prices_kept]): the shown tiers are those evaluation selects, with their
      prices; the marked row is the settled one (C27 says which fallback is never marked);
      shown time intervals and zones are those of the evaluator; the rows of the task tables apply exactly to the requests they say.
    - Editors (C6, C21, C25, C31, C32; [normalizeCondition_idem]): the expression of the
      task editor reads back as its configuration; splitting off request rules undoes
      combining them; an unchanged visual document is written back as its source; the
      matrix keeps every price; the estimator counts every token once.
    - Stored prices (C2, C16, C17, C20, C30): a draft is written exactly and opens as
      itself, expressions and request rules included; the changes sent are those made;
      upstream prices are taken over literally and converted price by price.
    - Catalogue (C40; [merged_range_covers], [display_ratio_best], [getConfig_usable]):
      the list is exact and in order; the range of several providers covers each; the
      best group ratio is shown; amounts never divide by zero.
    - Task plugins (C22, C23): the duration and the resolution that are billed are those
      sent, within bounds, whatever the client puts in its metadata; the two theorems say
      where a mapping of the channel, a mode or a model in the metadata makes a
      difference.
    - Playground (C14, C19; [parse_thinks]): only the latest request acts; a streamed answer
      is put together from its pieces in every timing, whole if none of them starts over.
    - Dashboard (C4, C15, C38; [display_limit], [one_selected_reached],
      [toggle_keeps_columns]): the diagram conserves what it shows; masking covers every
      secret and changes nothing else; a press highlights exactly the paths through a node.
    - Session (C35 to C37; [no_verdict_without_answer]): the invariant of every reachable state; a superseded
      refresh has no effect in any interleaving; a refresh ends after at most sixteen
      of its events; nobody is taken for signed out without a verdict.
    - Requests (C24), in every interleaving with the session: at most one replay, after
      a sign-in and never of a single-use request; a call comes to an end.
    - Lemmas that show defects: [BillingExprSpec.time_range_reinterpreted],
      [rule_parse_throws], [AuthSessionSpec.lock_rejection_not_caught],
      [PricingRowSpec.inherited_name_refused], [PriceSyncSpec.rule_condition_unconverted],
      [PluginViduSpec.mapped_combination_unchecked],
      [PluginKlingSpec.metadata_mode_unbilled], [metadata_model_unbilled],
      [ChatStreamSpec.repeated_piece_lost], [partial_tag_kept],
      [DashboardViewSpec.masking_reorders].

    ** Parameters and hypotheses

    [Host], [ConditionDisplay.Locale] (i18next and [Intl] texts),
    [TaskExpr.Collation] ([localeCompare]), [Currency.NumberFormat]
    ([Intl.NumberFormat], [Math.pow]), [HttpClient.Headers] (axios), the classes of upper
    case beyond ASCII and of inherited members ([UpperCase], [UpperText], [Prototype]),
    [DashboardFlow.ChartScheme] (the colour schemes of the chart library),
    [PluginKling.PluginUtils] (clock and signature of the plugin host) and
    [ChatMessage.ChatTexts] (translations) are parameters; the witnesses use plain
    instances.  C40 assumes of the prices it orders that they are finite binary64 numbers,
    C22 and C23 that the driver gets the request body the decoder returned and, C23, a model
    name no object inherits, C22 one that names the second generation by its prefix,
    C2 a name no object inherits and a base expression that splitting tells from its rules,
    C4 that the rows hold whole amounts with a safe sum and ids without the unit 0 that
    separates the ends in the key of a link.

    ** Not modelled

    The stack limit of the host; the members an object inherits, where a table is indexed
    by a text the program itself chose; the query cache the session also empties; the
    storage of the playground; the pages and the other features of the console, which are
    user interface over HTTP calls; the other task plugins; the Go server. *)

From Stdlib Require Export String Ascii List ZArith.
From stdpp Require Export base tactics option list numbers.

(** ** Results

    The sources signal failure by throwing.  A function that may throw returns
    a [result]: [Err e] carries the thrown value.  The code that is modelled
    never resumes after a throw inside the component (the only [catch] blocks
    are at the entry points), so the state at the throw is not part of it. *)
Inductive result (E A : Type) : Type :=
| Ok (a : A)
| Err (e : E).
Arguments Ok {E A} a.
Arguments Err {E A} e.

Declare Scope billing_scope.
Delimit Scope billing_scope with billing.
Open Scope billing_scope.

(** Sequencing: a throw in [c] skips [k]. *)
Notation "'let?' p := c 'in' k" :=
  (match c with Ok p => k | Err err => Err err end)
  (at level 10, p pattern, c at level 100, k at level 200,
   format "'[v' 'let?'  p  :=  c  'in' '/' k ']'") : billing_scope.

(** Early return of [None]. *)
Notation "'let!' p := c 'in' k" :=
  (match c with Some p => k | None => None end)
  (at level 10, p pattern, c at level 100, k at level 200,
   format "'[v' 'let!'  p  :=  c  'in' '/' k ']'") : billing_scope.

Definition is_ok {E A} (r : result E A) : bool :=
  match r with Ok _ => true | Err _ => false end.

Definition ok_option {E A} (r : result E A) : option A :=
  match r with Ok a => Some a | Err _ => None end.

(** ** Tactics *)

(** Split every [match] on a [result] or [option] in a hypothesis that
    equates it with a success, keeping the branches that can succeed. *)
Ltac destr_match_in H :=
  match type of H with
  | context [match ?x with _ => _ end] =>
      match x with
      | context [match _ with _ => _ end] => fail 1
      | _ => destruct x eqn:?; try discriminate H; simplify_eq
      end
  end.

Ltac inv_ok H := repeat (destr_match_in H); simplify_eq/=.

(** Split the innermost [match] of the goal. *)
Ltac destr_match_goal :=
  match goal with
  | |- context [match ?x with _ => _ end] =>
      match x with
      | context [match _ with _ => _ end] => fail 1
      | _ => destruct x eqn:?
      end
  end.

Ltac destr_match :=
  match goal with
  | |- context [match ?x with _ => _ end] =>
      match x with
      | context [match _ with _ => _ end] => fail 1
      | _ => destruct x eqn:?
      end
  | H : context [match ?x with _ => _ end] |- _ =>
      match x with
      | context [match _ with _ => _ end] => fail 1
      | _ => destruct x eqn:?
      end
  end.

(** Turn the boolean connectives of the sources' guards into propositions. *)
Ltac bprop :=
  repeat match goal with
  | H : negb _ = true |- _ => apply negb_true_iff in H
  | H : negb _ = false |- _ => apply negb_false_iff in H
  | H : (_ && _)%bool = true |- _ => apply andb_true_iff in H as [? ?]
  | H : (_ || _)%bool = false |- _ => apply orb_false_iff in H as [? ?]
  | H : Nat.eqb _ _ = true |- _ => apply Nat.eqb_eq in H
  | H : Nat.eqb _ _ = false |- _ => apply Nat.eqb_neq in H
  | H : Nat.ltb _ _ = true |- _ => apply Nat.ltb_lt in H
  | H : Nat.ltb _ _ = false |- _ => apply Nat.ltb_ge in H
  | H : Nat.leb _ _ = true |- _ => apply Nat.leb_le in H
  | H : Nat.leb _ _ = false |- _ => apply Nat.leb_gt in H
  | H : Z.eqb _ _ = true |- _ => apply Z.eqb_eq in H
  | H : Z.eqb _ _ = false |- _ => apply Z.eqb_neq in H
  | H : Z.ltb _ _ = true |- _ => apply Z.ltb_lt in H
  | H : Z.ltb _ _ = false |- _ => apply Z.ltb_ge in H
  | H : Z.leb _ _ = true |- _ => apply Z.leb_le in H
  | H : Z.leb _ _ = false |- _ => apply Z.leb_gt in H
  | H : N.eqb _ _ = true |- _ => apply N.eqb_eq in H
  | H : N.eqb _ _ = false |- _ => apply N.eqb_neq in H
  | H : N.leb _ _ = true |- _ => apply N.leb_le in H
  | H : N.leb _ _ = false |- _ => apply N.leb_gt in H
  | H : N.ltb _ _ = true |- _ => apply N.ltb_lt in H
  | H : N.ltb _ _ = false |- _ => apply N.ltb_ge in H
  end.

(** ** Lists, as the sources use arrays *)

(** [Array.prototype.find] is stdpp-independent [List.find]; [findIndex]
    returns [None] where JavaScript returns [-1]. *)
Fixpoint find_index {A} (p : A -> bool) (l : list A) : option nat :=
  match l with
  | [] => None
  | x :: l' => if p x then Some 0 else S <$> find_index p l'
  end.

(** An association list: the own properties of an object or the entries of a
    [Map], in enumeration order. *)
Section assoc.
Context {K V : Type} (eqb : K -> K -> bool).

Fixpoint assoc_get (k : K) (l : list (K * V)) : option V :=
  match l with
  | [] => None
  | (k', v) :: l' => if eqb k k' then Some v else assoc_get k l'
  end.

Definition assoc_mem (k : K) (l : list (K * V)) : bool :=
  match assoc_get k l with Some _ => true | None => false end.

(** [obj\[k\] = v] and [map.set(k, v)]: an existing key keeps its place, a new
    one goes last. *)
Fixpoint assoc_set (k : K) (v : V) (l : list (K * V)) : list (K * V) :=
  match l with
  | [] => [(k, v)]
  | (k', v') :: l' =>
      if eqb k k' then (k', v) :: l' else (k', v') :: assoc_set k v l'
  end.

Hypothesis eqb_spec : forall a b, eqb a b = true <-> a = b.

Lemma assoc_get_set_eq k v l : assoc_get k (assoc_set k v l) = Some v.
Proof.
  induction l as [|[k' v'] l IH]; simpl.
  - destruct (eqb k k) eqn:E; [done|].
    assert (eqb k k = true) by (by apply eqb_spec). congruence.
  - destruct (eqb k k') eqn:E; simpl; rewrite E; done.
Qed.

Lemma assoc_get_set_ne k k' v l :
  k <> k' -> assoc_get k (assoc_set k' v l) = assoc_get k l.
Proof.
  intros Hne. induction l as [|[k2 v2] l IH]; simpl.
  - destruct (eqb k k') eqn:E; [|done]. by apply eqb_spec in E.
  - destruct (eqb k' k2) eqn:E2; simpl.
    + apply eqb_spec in E2 as ->.
      destruct (eqb k k2) eqn:E; [|done]. by apply eqb_spec in E.
    + by rewrite IH.
Qed.

Lemma assoc_set_fresh k v l :
  assoc_get k l = None -> assoc_set k v l = l ++ [(k, v)].
Proof.
  induction l as [|[k' v'] l IH]; simpl; [done|].
  destruct (eqb k k'); [done|]. intros H. by rewrite IH.
Qed.
End assoc.

Lemma assoc_get_map {K V W} (eqb : K -> K -> bool) (h : V -> W) k (m : list (K * V)) :
  assoc_get eqb k (map (fun e => (e.1, h e.2)) m) = h <$> assoc_get eqb k m.
Proof. induction m as [|[k' v'] m IH]; [done|]. simpl. by destruct (eqb k k'). Qed.

(** A set of strings or nodes as an insertion-ordered list without repeats. *)
Definition set_add {A} (eqb : A -> A -> bool) (x : A) (l : list A) : list A :=
  if existsb (eqb x) l then l else l ++ [x].

Lemma set_add_elem {A} (eqb : A -> A -> bool) x y l :
  (forall a b, eqb a b = true <-> a = b) ->
  In y (set_add eqb x l) <-> y = x \/ In y l.
Proof.
  intros Hs. unfold set_add. destruct (existsb (eqb x) l) eqn:E.
  - split; [by right|]. intros [->|?]; [|done].
    apply existsb_exists in E as (z & Hz & Hxz). by apply Hs in Hxz as ->.
  - rewrite in_app_iff. simpl. intuition congruence.
Qed.

Lemma existsb_false_iff {A} (p : A -> bool) l :
  existsb p l = false <-> forall x, In x l -> p x = false.
Proof.
  split.
  - intros H x Hx. destruct (p x) eqn:E; [|done].
    assert (existsb p l = true) by (apply existsb_exists; eauto). congruence.
  - intros H. destruct (existsb p l) eqn:E; [|done].
    apply existsb_exists in E as (x & Hx & E). rewrite H in E; done.
Qed.

(** Slices of a list. *)
Definition slice {A} (l : list A) (i j : nat) : list A := take (j - i) (drop i l).

Lemma slice_app {A} (l : list A) i j k :
  i <= j -> j <= k -> slice l i j ++ slice l j k = slice l i k.
Proof.
  intros. unfold slice.
  replace (drop j l) with (drop (j - i) (drop i l))
    by (rewrite drop_drop; f_equal; lia).
  replace (k - i) with ((j - i) + (k - j)) by lia.
  apply take_take_drop.
Qed.

Lemma slice_full {A} (l : list A) j : length l <= j -> slice l 0 j = l.
Proof. intros. unfold slice. rewrite drop_0, take_ge; [done|lia]. Qed.

Lemma length_slice {A} (l : list A) i j :
  i <= j -> j <= length l -> length (slice l i j) = j - i.
Proof. intros. unfold slice. rewrite length_take, length_drop. lia. Qed.

Lemma slice_nil {A} (l : list A) i : slice l i i = [].
Proof. unfold slice. by rewrite Nat.sub_diag. Qed.

Create HintDb billing discriminated.
#[export] Hint Resolve Nat.le_refl Nat.le_trans : billing.
