(* ===== verification/JsString.v ===== *)
(** * JavaScript strings

    A string is the list of its UTF-16 code units, as the language defines
    it: [s\[i\]] is one code unit, [s.length] their number, [<] compares them
    lexicographically.  The methods below are the ones the modelled sources
    call. *)

From S2P Require Import Prelude.

Abbreviation jsstr := (list N).

(** A literal of the source. *)
Definition ch (a : ascii) : N := N_of_ascii a.
Definition js (s : string) : jsstr := map N_of_ascii (list_ascii_of_string s).

#[global] Arguments js s : simpl never.
#[global] Arguments ch a : simpl never.

(** [===] on strings. *)
Fixpoint str_eqb (a b : jsstr) : bool :=
  match a, b with
  | [], [] => true
  | x :: a', y :: b' => N.eqb x y && str_eqb a' b'
  | _, _ => false
  end.

(** [<] on strings. *)
Fixpoint str_ltb (a b : jsstr) : bool :=
  match a, b with
  | [], [] => false
  | [], _ :: _ => true
  | _ :: _, [] => false
  | x :: a', y :: b' =>
      if N.ltb x y then true else if N.eqb x y then str_ltb a' b' else false
  end.

Definition str_leb (a b : jsstr) : bool := negb (str_ltb b a).

(** [Array.prototype.includes] on an array of strings. *)
Definition str_mem (s : jsstr) (l : list jsstr) : bool := existsb (str_eqb s) l.

(** ** Code unit classes *)

Definition in_range (lo hi c : N) : bool := N.leb lo c && N.leb c hi.
Definition is_digit (c : N) : bool := in_range 48 57 c.
Definition is_upper (c : N) : bool := in_range 65 90 c.
Definition is_lower (c : N) : bool := in_range 97 122 c.
Definition is_alpha (c : N) : bool := is_upper c || is_lower c.
(** The regular-expression class [\w]. *)
Definition is_word (c : N) : bool := is_alpha c || is_digit c || N.eqb c 95.
Definition is_hex (c : N) : bool :=
  is_digit c || in_range 65 70 c || in_range 97 102 c.

(** WhiteSpace and LineTerminator of ECMA-262: what [trim] removes and what
    the class [\s] matches. *)
Definition is_ws (c : N) : bool :=
  in_range 9 13 c || N.eqb c 32 || N.eqb c 160 || N.eqb c 5760
  || in_range 8192 8202 c || N.eqb c 8232 || N.eqb c 8233 || N.eqb c 8239
  || N.eqb c 8287 || N.eqb c 12288 || N.eqb c 65279.

(** ** Methods *)

Fixpoint trim_start (s : jsstr) : jsstr :=
  match s with
  | [] => []
  | c :: s' => if is_ws c then trim_start s' else s
  end.

Definition trim_end (s : jsstr) : jsstr := rev (trim_start (rev s)).

Definition trim (s : jsstr) : jsstr := trim_end (trim_start s).

(** [s.startsWith(p)] *)
Fixpoint starts_with (p s : jsstr) : bool :=
  match p, s with
  | [], _ => true
  | x :: p', y :: s' => N.eqb x y && starts_with p' s'
  | _ :: _, [] => false
  end.

Definition ends_with (p s : jsstr) : bool := starts_with (rev p) (rev s).

(** [s.includes(p)] *)
Fixpoint includes (p s : jsstr) : bool :=
  starts_with p s ||
  match s with
  | [] => false
  | _ :: s' => includes p s'
  end.

(** [parts.join(sep)] *)
Fixpoint join (sep : jsstr) (parts : list jsstr) : jsstr :=
  match parts with
  | [] => []
  | [p] => p
  | p :: ps => p ++ sep ++ join sep ps
  end.

(** [s.toLowerCase()] on the ASCII letters.  Full case mapping is Unicode
    data; [JsValue.Host] supplies it for strings with other letters. *)
Definition ascii_lower (c : N) : N := if is_upper c then (c + 32)%N else c.
Definition is_ascii (c : N) : bool := N.ltb c 128.

Definition truthy_str (s : jsstr) : bool := match s with [] => false | _ => true end.

(** Decimal digits of a natural number, most significant first. *)
Fixpoint digits_aux (fuel : nat) (z : Z) (acc : jsstr) : jsstr :=
  match fuel with
  | O => acc
  | S f =>
      let acc' := (48 + Z.to_N (z mod 10))%N :: acc in
      if (z / 10 =? 0)%Z then acc' else digits_aux f (z / 10) acc'
  end.
Definition digits_of_Z (z : Z) : jsstr := digits_aux (S (Z.to_nat (Z.log2 z))) z [].

Definition str_of_Z (z : Z) : jsstr :=
  if (z <? 0)%Z then 45%N :: digits_of_Z (- z) else digits_of_Z z.

Definition str_of_nat (n : nat) : jsstr := str_of_Z (Z.of_nat n).

(** Value of a run of decimal digits. *)
Definition digit_val (c : N) : Z := Z.of_N c - 48.
Definition Z_of_digits (s : jsstr) : Z :=
  fold_left (fun acc c => (acc * 10 + digit_val c)%Z) s 0%Z.

(** Value of a run of hexadecimal digits ([Number.parseInt(s, 16)]). *)
Definition hex_val (c : N) : N :=
  if is_digit c then (c - 48)%N
  else if in_range 65 70 c then (c - 55)%N
  else (c - 87)%N.
Definition N_of_hex (s : jsstr) : N :=
  fold_left (fun acc c => (acc * 16 + hex_val c)%N) s 0%N.

(** ** Lemmas *)

Lemma str_eqb_eq a b : str_eqb a b = true <-> a = b.
Proof.
  revert b. induction a as [|x a IH]; intros [|y b]; simpl; try (split; congruence).
  rewrite andb_true_iff, N.eqb_eq, IH. split; [intros [-> ->]|intros [=]]; done.
Qed.

Lemma str_eqb_refl a : str_eqb a a = true.
Proof. by apply str_eqb_eq. Qed.

Lemma str_eqb_neq a b : str_eqb a b = false <-> a <> b.
Proof.
  rewrite <- str_eqb_eq. destruct (str_eqb a b); split; congruence.
Qed.

Lemma str_eqb_sym a b : str_eqb a b = str_eqb b a.
Proof.
  destruct (str_eqb a b) eqn:E.
  - apply str_eqb_eq in E as ->. by rewrite str_eqb_refl.
  - symmetry. apply str_eqb_neq. apply str_eqb_neq in E. congruence.
Qed.

Lemma str_mem_In s l : str_mem s l = true <-> In s l.
Proof.
  unfold str_mem. rewrite existsb_exists. split.
  - intros (x & Hx & E). by apply str_eqb_eq in E as ->.
  - intros H. exists s. by rewrite str_eqb_refl.
Qed.

Lemma starts_with_app p s : starts_with p (p ++ s) = true.
Proof. induction p; simpl; [done|]. by rewrite N.eqb_refl. Qed.

Lemma starts_with_inv p s : starts_with p s = true -> exists t, s = p ++ t.
Proof.
  revert s. induction p as [|x p IH]; intros s; simpl; [eauto|].
  destruct s as [|y s]; [done|]. intros H. bprop. subst.
  destruct (IH s) as [t ->]; eauto.
Qed.

Lemma trim_start_suffix s : exists w, s = w ++ trim_start s /\ forallb is_ws w = true.
Proof.
  induction s as [|c s IH]; simpl; [by exists []|].
  destruct (is_ws c) eqn:E.
  - destruct IH as (w & Hs & Hw). exists (c :: w). split; simpl.
    + by rewrite <- Hs.
    + by rewrite E.
  - by exists [].
Qed.

Lemma trim_start_id s :
  match s with [] => true | c :: _ => negb (is_ws c) end = true -> trim_start s = s.
Proof. destruct s as [|c s]; simpl; [done|]. by intros ->%negb_true_iff. Qed.

Lemma trim_start_head s :
  match trim_start s with [] => True | c :: _ => is_ws c = false end.
Proof. induction s as [|c s IH]; simpl; [done|]. by destruct (is_ws c) eqn:E. Qed.

Lemma trim_start_idem s : trim_start (trim_start s) = trim_start s.
Proof.
  apply trim_start_id. pose proof (trim_start_head s) as H.
  destruct (trim_start s); [done|]. by rewrite H.
Qed.

(** A string with no white space at either end is its own [trim]. *)
Definition trimmed (s : jsstr) : bool :=
  match s with [] => true | c :: _ => negb (is_ws c) end &&
  match rev s with [] => true | c :: _ => negb (is_ws c) end.

Lemma trim_id s : trimmed s = true -> trim s = s.
Proof.
  unfold trimmed, trim, trim_end. intros [H1 H2]%andb_true_iff.
  rewrite (trim_start_id s H1), (trim_start_id (rev s) H2).
  apply rev_involutive.
Qed.

Lemma trim_end_suffix s : exists w, s = trim_end s ++ w /\ forallb is_ws w = true.
Proof.
  unfold trim_end. destruct (trim_start_suffix (rev s)) as (w & Hs & Hw).
  exists (rev w). split.
  - by rewrite <- rev_app_distr, <- Hs, rev_involutive.
  - apply forallb_forall. intros x Hx%in_rev. by eapply forallb_forall in Hw.
Qed.

(** [trim] removes white space only, at both ends only. *)
Lemma trim_decompose s : exists w1 w2,
  s = w1 ++ trim s ++ w2 /\ forallb is_ws w1 = true /\ forallb is_ws w2 = true.
Proof.
  destruct (trim_start_suffix s) as (w1 & Hs & H1).
  destruct (trim_end_suffix (trim_start s)) as (w2 & Hs2 & H2).
  exists w1, w2. unfold trim. by rewrite <- Hs2, <- Hs.
Qed.

Lemma trim_trimmed s : trimmed (trim s) = true.
Proof.
  unfold trimmed, trim, trim_end. rewrite rev_involutive. apply andb_true_iff. split.
  - destruct (trim_start_suffix (rev (trim_start s))) as (w & Hs & _).
    pose proof (trim_start_head s) as Hh.
    apply (f_equal (@rev N)) in Hs. rewrite rev_involutive, rev_app_distr in Hs.
    destruct (rev (trim_start (rev (trim_start s)))) as [|c t]; [done|].
    rewrite Hs in Hh. simpl in Hh. by rewrite Hh.
  - pose proof (trim_start_head (rev (trim_start s))) as Hh.
    destruct (trim_start (rev (trim_start s))); [done|]. by rewrite Hh.
Qed.

Lemma trim_idem s : trim (trim s) = trim s.
Proof. apply trim_id, trim_trimmed. Qed.

Lemma str_ltb_irrefl a : str_ltb a a = false.
Proof. induction a as [|x a IH]; simpl; [done|]. by rewrite N.ltb_irrefl, N.eqb_refl. Qed.

Lemma str_ltb_trans a b c : str_ltb a b = true -> str_ltb b c = true -> str_ltb a c = true.
Proof.
  revert b c. induction a as [|x a IH]; intros [|y b] [|z c]; simpl; try done.
  repeat match goal with
  | |- context [N.ltb ?a ?b] => destruct (N.ltb_spec a b)
  | |- context [N.eqb ?a ?b] => destruct (N.eqb_spec a b)
  end; try done; try lia. apply IH.
Qed.

Lemma str_ltb_total a b : str_ltb a b = false -> str_ltb b a = false -> a = b.
Proof.
  revert b. induction a as [|x a IH]; intros [|y b]; simpl; try done.
  repeat match goal with
  | |- context [N.ltb ?a ?b] => destruct (N.ltb_spec a b)
  | |- context [N.eqb ?a ?b] => destruct (N.eqb_spec a b)
  end; intros; subst; try done; try lia. f_equal. by apply IH.
Qed.
