(* ===== verification/JsNumber.v ===== *)
(** * JavaScript numbers

    A number is an IEEE 754 binary64 datum.  The arithmetic is the Standard
    Library's bit-exact specification [SpecFloat] at precision 53 and maximal
    exponent 1024, so every operation rounds as the language requires.  The
    conversions between numbers and strings ([Number(s)], [String(x)],
    [x.toExponential()]) are computed exactly over [Z]. *)

From Stdlib Require Import SpecFloat.
From S2P Require Import Prelude JsString.

Abbreviation num := spec_float.

Section ops.
Local Open Scope Z_scope.

Definition prec : Z := 53.
Definition emax : Z := 1024.

Definition n_add (a b : num) : num := SFadd prec emax a b.
Definition n_sub (a b : num) : num := SFsub prec emax a b.
Definition n_mul (a b : num) : num := SFmul prec emax a b.
Definition n_div (a b : num) : num := SFdiv prec emax a b.
Definition n_neg (a : num) : num := SFopp a.
Definition n_abs (a : num) : num := SFabs a.

(** [===], [<], [<=], [>], [>=] on numbers: false as soon as one is NaN. *)
Definition n_eqb (a b : num) : bool := SFeqb a b.
Definition n_ltb (a b : num) : bool := SFltb a b.
Definition n_leb (a b : num) : bool := SFleb a b.
Definition n_gtb (a b : num) : bool := SFltb b a.
Definition n_geb (a b : num) : bool := SFleb b a.

(** The number nearest to an integer. *)
Definition n_of_Z (z : Z) : num := binary_normalize prec emax z 0 false.
Definition n_of_nat (n : nat) : num := n_of_Z (Z.of_nat n).

Definition n_zero : num := S754_zero false.

(** [Number.isFinite] *)
Definition is_finite (x : num) : bool :=
  match x with S754_zero _ | S754_finite _ _ _ => true | _ => false end.

Definition is_nan (x : num) : bool := match x with S754_nan => true | _ => false end.

(** [Object.is(x, -0)] *)
Definition is_neg_zero (x : num) : bool :=
  match x with S754_zero true => true | _ => false end.

(** The integer a number denotes, if it is one. *)
Definition int_value (x : num) : option Z :=
  match x with
  | S754_zero _ => Some 0
  | S754_finite s m e =>
      let z := cond_Zopp s (Zpos m) in
      if 0 <=? e then Some (z * 2 ^ e)
      else if z mod 2 ^ (- e) =? 0 then Some (z / 2 ^ (- e)) else None
  | _ => None
  end.

(** [Number.isInteger] and [Number.isSafeInteger] *)
Definition is_integer (x : num) : bool :=
  match int_value x with Some _ => true | None => false end.

Definition max_safe : Z := 2 ^ 53 - 1.

Definition is_safe_integer (x : num) : bool :=
  match int_value x with
  | Some z => Z.abs z <=? max_safe
  | None => false
  end.

(** [Math.floor] and [Math.ceil] keep the sign of a zero result. *)
Definition n_floor (x : num) : num :=
  match x with
  | S754_finite s m e =>
      if 0 <=? e then x
      else let q := cond_Zopp s (Zpos m) / 2 ^ (- e) in
           if q =? 0 then S754_zero s else n_of_Z q
  | _ => x
  end.

Definition n_ceil (x : num) : num :=
  match x with
  | S754_finite s m e =>
      if 0 <=? e then x
      else let q := - (- cond_Zopp s (Zpos m) / 2 ^ (- e)) in
           if q =? 0 then S754_zero s else n_of_Z q
  | _ => x
  end.

(** [Math.min] and [Math.max] of two arguments: NaN if either is, and -0 is
    below +0. *)
Definition n_min (a b : num) : num :=
  match a, b with
  | S754_nan, _ | _, S754_nan => S754_nan
  | S754_zero s1, S754_zero s2 => S754_zero (s1 || s2)
  | _, _ => if n_ltb a b then a else b
  end.

Definition n_max (a b : num) : num :=
  match a, b with
  | S754_nan, _ | _, S754_nan => S754_nan
  | S754_zero s1, S754_zero s2 => S754_zero (s1 && s2)
  | _, _ => if n_ltb a b then b else a
  end.

(** [a % b]: the exact remainder of the truncated quotient, with the sign of
    the dividend. *)
Definition n_rem (a b : num) : num :=
  match a, b with
  | S754_nan, _ | _, S754_nan => S754_nan
  | S754_infinity _, _ => S754_nan
  | _, S754_zero _ => S754_nan
  | _, S754_infinity _ => a
  | S754_zero _, _ => a
  | S754_finite s1 m1 e1, S754_finite _ m2 e2 =>
      let e := Z.min e1 e2 in
      let r := (Zpos m1 * 2 ^ (e1 - e)) mod (Zpos m2 * 2 ^ (e2 - e)) in
      if r =? 0 then S754_zero s1
      else binary_normalize prec emax (cond_Zopp s1 r) e s1
  end.

(** ** Decimal input

    The number nearest to [m * 10 ^ e] ([m] non-negative).  Exponents far
    outside the range of binary64 are cut off before the power is built:
    [10 ^ 310] overflows and [10 ^ -400] underflows. *)
Definition n_of_decimal (m e : Z) : num :=
  if m =? 0 then n_zero
  else
    let mag := Z.of_nat (length (digits_of_Z m)) + e in
    if 310 <? mag then S754_infinity false
    else if mag <? - 400 then n_zero
    else if 0 <=? e then n_of_Z (m * 10 ^ e)
    else
      let '(mz, ez, lz) := SFdiv_core_binary prec emax m 0 (10 ^ (- e)) 0 in
      binary_round_aux prec emax false mz ez lz.

Fixpoint span_digits (s : jsstr) : jsstr * jsstr :=
  match s with
  | c :: s' =>
      if is_digit c then let '(d, r) := span_digits s' in (c :: d, r) else ([], s)
  | [] => ([], [])
  end.

(** The exponent part [\[eE\]\[+-\]?\d+]; [None] if what follows the mantissa
    is anything else. *)
Definition read_exponent (s : jsstr) : option Z :=
  match s with
  | [] => Some 0
  | c :: s1 =>
      if (N.eqb c 101 || N.eqb c 69)%bool then
        let '(sign, s2) :=
          match s1 with
          | d :: s2 => if N.eqb d 45 then (-1, s2)
                       else if N.eqb d 43 then (1, s2) else (1, s1)
          | [] => (1, s1)
          end in
        let '(ds, r) := span_digits s2 in
        match ds, r with
        | _ :: _, [] => Some (sign * Z_of_digits ds)
        | _, _ => None
        end
      else None
  end.

(** An unsigned decimal literal, as [StrUnsignedDecimalLiteral] without
    [Infinity]. *)
Definition read_decimal (s : jsstr) : option num :=
  let '(ip, r1) := span_digits s in
  let '(fp, r2) :=
    match r1 with
    | c :: r => if N.eqb c 46 then span_digits r else ([], r1)
    | [] => ([], r1)
    end in
  match ip ++ fp with
  | [] => None
  | ds =>
      match read_exponent r2 with
      | Some e => Some (n_of_decimal (Z_of_digits ds) (e - Z.of_nat (length fp)))
      | None => None
      end
  end.

Definition radix_digit (c : N) : option Z :=
  if is_digit c then Some (digit_val c)
  else if in_range 97 102 c then Some (Z.of_N c - 87)
  else if in_range 65 70 c then Some (Z.of_N c - 55)
  else None.

Fixpoint read_radix (base : Z) (acc : Z) (s : jsstr) : option Z :=
  match s with
  | [] => Some acc
  | c :: s' =>
      match radix_digit c with
      | Some d => if d <? base then read_radix base (acc * base + d) s' else None
      | None => None
      end
  end.

(** [Number(s)] *)
Definition number_of_string (raw : jsstr) : num :=
  let s := trim raw in
  match s with
  | [] => n_zero
  | c :: s1 =>
      let radix :=
        match s1 with
        | d :: _ :: _ =>
            if N.eqb c 48 then
              let low := ascii_lower d in
              if N.eqb low 120 then Some (read_radix 16 0 (tail s1))
              else if N.eqb low 111 then Some (read_radix 8 0 (tail s1))
              else if N.eqb low 98 then Some (read_radix 2 0 (tail s1))
              else None
            else None
        | _ => None
        end in
      match radix with
      | Some (Some z) => n_of_Z z
      | Some None => S754_nan
      | None =>
          let '(neg, body) :=
            if N.eqb c 45 then (true, s1) else if N.eqb c 43 then (false, s1)
            else (false, s) in
          let v :=
            if str_eqb body (js "Infinity") then S754_infinity false
            else match read_decimal body with Some x => x | None => S754_nan end in
          if neg then n_neg v else v
      end
  end.

(** ** Decimal output *)

(** Numerator and denominator of [m * 2 ^ e]. *)
Definition ratio (m : positive) (e : Z) : Z * Z :=
  if 0 <=? e then (Zpos m * 2 ^ e, 1) else (Zpos m, 2 ^ (- e)).

(** The [n] with [10 ^ (n - 1) <= num / den < 10 ^ n]. *)
Fixpoint leading_zeros (fuel : nat) (p q : Z) : Z :=
  match fuel with
  | O => 0
  | S f => if q <=? p * 10 then 0 else 1 + leading_zeros f (p * 10) q
  end.
Definition decimal_point (p q : Z) : Z :=
  if q <=? p then Z.of_nat (length (digits_of_Z (p / q)))
  else - leading_zeros 400 p q.

(** [s * 10 ^ j] without trailing zeros. *)
Fixpoint strip_zeros (fuel : nat) (s j : Z) : Z * Z :=
  match fuel with
  | O => (s, j)
  | S f => if (s mod 10 =? 0) then strip_zeros f (s / 10) (j + 1) else (s, j)
  end.

(** [p / (q * 10 ^ j)] as a fraction. *)
Definition scaled (p q j : Z) : Z * Z :=
  if 0 <=? j then (p, q * 10 ^ j) else (p * 10 ^ (- j), q).

(** The decimal [s * 10 ^ j] if it reads as [x]. *)
Definition reads_as (x : num) (s j : Z) : option (Z * Z) :=
  let '(s', j') := strip_zeros 20 s j in
  if n_eqb (n_of_decimal s' j') x then Some (s', j') else None.

(** The [k]-digit candidates around [p / q]: the truncation and its successor,
    nearest first. *)
Definition candidate (x : num) (p q n k : Z) : option (Z * Z) :=
  let '(p', q') := scaled p q (n - k) in
  let lo := p' / q' in
  let hi := lo + 1 in
  let lo_dist := 2 * (p' - lo * q') in
  let prefer_lo :=
    if lo_dist <? q' then true else if lo_dist =? q' then Z.even lo else false in
  let first := if prefer_lo then lo else hi in
  let second := if prefer_lo then hi else lo in
  match reads_as x first (n - k) with
  | Some r => Some r
  | None => reads_as x second (n - k)
  end.

(** Exact decimal expansion, the last resort of the search. *)
Definition exact_decimal (m : positive) (e : Z) : Z * Z :=
  if 0 <=? e then (Zpos m * 2 ^ e, 0) else (Zpos m * 5 ^ (- e), e).

Fixpoint shortest (fuel : nat) (x : num) (m : positive) (e p q n k : Z) : Z * Z :=
  match fuel with
  | O => exact_decimal m e
  | S f =>
      match candidate x p q n k with
      | Some r => r
      | None => shortest f x m e p q n (k + 1)
      end
  end.

(** The shortest decimal [(digits, n)] that reads back as the positive number
    [m * 2 ^ e]: the number is [0.digits * 10 ^ n]. *)
Definition shortest_digits (m : positive) (e : Z) : jsstr * Z :=
  let x := S754_finite false m e in
  let '(p, q) := ratio m e in
  let '(s, j) := shortest 17 x m e p q (decimal_point p q) 1 in
  let ds := digits_of_Z s in
  (ds, j + Z.of_nat (length ds)).

Definition zeros (n : Z) : jsstr := repeat 48%N (Z.to_nat n).

Definition exponent_text (e : Z) : jsstr :=
  (if e <? 0 then 45%N else 43%N) :: digits_of_Z (Z.abs e).

Definition mantissa_text (ds : jsstr) : jsstr :=
  match ds with
  | [] => []
  | [d] => [d]
  | d :: ds' => d :: 46%N :: ds'
  end.

Definition format_decimal (ds : jsstr) (n : Z) : jsstr :=
  let k := Z.of_nat (length ds) in
  if (k <=? n) && (n <=? 21) then ds ++ zeros (n - k)
  else if (0 <? n) && (n <=? 21) then
    take (Z.to_nat n) ds ++ 46%N :: drop (Z.to_nat n) ds
  else if (-6 <? n) && (n <=? 0) then 48%N :: 46%N :: zeros (- n) ++ ds
  else mantissa_text ds ++ 101%N :: exponent_text (n - 1).

(** [String(x)] *)
Definition string_of_number (x : num) : jsstr :=
  match x with
  | S754_nan => js "NaN"
  | S754_infinity s => (if s then js "-" else []) ++ js "Infinity"
  | S754_zero _ => js "0"
  | S754_finite s m e =>
      let '(ds, n) := shortest_digits m e in
      (if s then js "-" else []) ++ format_decimal ds n
  end.

(** [x.toExponential()] as the pair its callers split it into: the mantissa
    text and the exponent. *)
Definition to_exponential (x : num) : jsstr * Z :=
  match x with
  | S754_finite s m e =>
      let '(ds, n) := shortest_digits m e in
      ((if s then js "-" else []) ++ mantissa_text ds, n - 1)
  | _ => (js "0", 0)
  end.
End ops.

(** A datum that is a binary64 number: canonical mantissa and exponent. *)
Definition valid_num (x : num) : bool := valid_binary prec emax x.

Example string_of_tenth : string_of_number (number_of_string (js "0.1")) = js "0.1".
Proof. vm_compute. reflexivity. Qed.
Example string_of_sum :
  string_of_number (n_add (number_of_string (js "0.1")) (number_of_string (js "0.2")))
  = js "0.30000000000000004".
Proof. vm_compute. reflexivity. Qed.
Example string_of_large : string_of_number (number_of_string (js "1e23")) = js "1e+23".
Proof. vm_compute. reflexivity. Qed.
Example string_of_tiny : string_of_number (number_of_string (js " 5e-324 ")) = js "5e-324".
Proof. vm_compute. reflexivity. Qed.
