(* ===== verification/JsIntSpec.v ===== *)
(** * Integers among the JavaScript numbers

    The rounding of [SpecFloat] on integer values: a result in the range of the
    safe integers is exact, a result outside it rounds to a number outside it.
    In general a rounded number is a binary64 datum, and the exact value wherever there is
    one. *)

From Stdlib Require Import SpecFloat.
From S2P Require Import Prelude JsString JsNumber.

Local Open Scope Z_scope.

Abbreviation digits m := (Zpos (digits2_pos m)).

Lemma digits_bounds m : 2 ^ (digits m - 1) <= Zpos m < 2 ^ digits m.
Proof.
  induction m as [m IH|m IH|]; cbn [digits2_pos]; [| |done];
    rewrite Pos2Z.inj_succ, Z.pow_succ_r by lia;
    replace (Z.succ (digits m) - 1) with (Z.succ (digits m - 1)) by lia;
    rewrite Z.pow_succ_r by lia; lia.
Qed.

Lemma digits_unique m d : 2 ^ (d - 1) <= Zpos m < 2 ^ d -> digits m = d.
Proof.
  intros Hd. pose proof (digits_bounds m) as Hb.
  destruct (Z.lt_trichotomy (digits m) d) as [Hl|[|Hl]]; [|done|].
  - assert (2 ^ digits m <= 2 ^ (d - 1)) by (apply Z.pow_le_mono_r; lia). lia.
  - assert (2 ^ d <= 2 ^ (digits m - 1)) by (apply Z.pow_le_mono_r; lia). lia.
Qed.

Lemma digits_shift m p : Zpos (Pos.iter xO m p) = Zpos m * 2 ^ Zpos p.
Proof.
  induction p as [|p IH] using Pos.peano_ind; [simpl; lia|].
  rewrite Pos.iter_succ, Pos2Z.inj_succ, Z.pow_succ_r by lia. lia.
Qed.

(** A factor that is a power of two adds that many digits. *)
Lemma digits_mul_pow m k n : 0 <= n -> Zpos m = Zpos k * 2 ^ n -> digits m = digits k + n.
Proof.
  intros Hn Hm. pose proof (digits_bounds k) as Hb. apply digits_unique. rewrite Hm.
  assert (0 < 2 ^ n) by (apply Z.pow_pos_nonneg; lia).
  replace (digits k + n - 1) with (digits k - 1 + n) by lia. rewrite !Z.pow_add_r by lia.
  split; [apply Z.mul_le_mono_nonneg_r|apply Z.mul_lt_mono_pos_r]; lia.
Qed.

(** ** Shifting right *)

Lemma iter_pos_nat {A} (f : A -> A) p : forall x, SpecFloat.iter_pos f p x = Nat.iter (Pos.to_nat p) f x.
Proof.
  induction p as [p IH|p IH|]; intros x; cbn [SpecFloat.iter_pos].
  - rewrite !IH, Pos2Nat.inj_xI, Nat.iter_succ_r. simpl. by rewrite Nat.add_0_r, Nat.iter_add.
  - rewrite !IH, Pos2Nat.inj_xO. simpl. by rewrite Nat.add_0_r, Nat.iter_add.
  - done.
Qed.

Lemma shr_1_nonneg m r s :
  0 <= m -> shr_1 {| shr_m := m; shr_r := r; shr_s := s |} =
            {| shr_m := m / 2; shr_r := Z.odd m; shr_s := r || s |}.
Proof.
  intros Hm. destruct m as [|[p|p|]|p]; try lia; try done; unfold shr_1; f_equal.
  - apply (Z.div_unique _ _ _ 1); lia.
  - apply (Z.div_unique _ _ _ 0); lia.
Qed.

Lemma shr_iter n m r s : 0 <= m ->
  shr_m (Nat.iter n shr_1 {| shr_m := m; shr_r := r; shr_s := s |}) = m / 2 ^ Z.of_nat n.
Proof.
  intros Hm. revert m r s Hm. induction n as [|n IH]; intros m r s Hm; [by rewrite Z.div_1_r|].
  rewrite Nat.iter_succ_r, shr_1_nonneg, IH by (try apply Z.div_pos; lia).
  rewrite Nat2Z.inj_succ, Z.pow_succ_r, Z.div_div by lia. done.
Qed.

Lemma shr_iter_exact n m : 0 <= m ->
  Nat.iter n shr_1 {| shr_m := m * 2 ^ Z.of_nat n; shr_r := false; shr_s := false |} =
  {| shr_m := m; shr_r := false; shr_s := false |}.
Proof.
  intros Hm. induction n as [|n IH]; [by rewrite Z.mul_1_r|].
  rewrite Nat.iter_succ_r, shr_1_nonneg by lia.
  rewrite Nat2Z.inj_succ, Z.pow_succ_r by lia.
  replace (m * (2 * 2 ^ Z.of_nat n)) with (m * 2 ^ Z.of_nat n * 2) by lia.
  rewrite Z.div_mul by lia. replace (Z.odd _) with false; [done|].
  symmetry. rewrite Z.mul_comm. apply Z.odd_mul.
Qed.

(** ** Rounding a mantissa of at least 53 digits *)

Lemma fexp_normal d : -1074 <= d - 53 -> fexp prec emax d = d - 53.
Proof. unfold fexp, emin, prec, emax. lia. Qed.

(** No shift is needed for 53 digits. *)
Lemma shr_fexp_none m e : digits m = 53 -> -1074 <= e ->
  shr_fexp prec emax (Zpos m) e loc_Exact =
  ({| shr_m := Zpos m; shr_r := false; shr_s := false |}, e).
Proof.
  intros Hd He. unfold shr_fexp. cbn [Zdigits2]. rewrite Hd, fexp_normal by lia.
  by replace (53 + e - 53 - e) with 0 by lia.
Qed.

Lemma shr_record_of_loc_exact m l :
  exists r s, shr_record_of_loc m l = {| shr_m := m; shr_r := r; shr_s := s |}.
Proof. destruct l as [|[]]; simpl; eauto. Qed.

Lemma round_up_at_most m l : m <= round_nearest_even m l <= m + 1.
Proof. destruct l as [|[]]; simpl; try case_match; lia. Qed.

(** The end of the rounding: 53 digits, or [2 ^ 53] after rounding up. *)
Lemma round_end s q E : 2 ^ 52 <= q <= 2 ^ 53 -> -1074 <= E ->
  exists q' E',
    (let '(mrs, e) := shr_fexp prec emax q E loc_Exact in
     match shr_m mrs with
     | Z0 => S754_zero s
     | Zpos m => if e <=? emax - prec then S754_finite s m e else S754_infinity s
     | _ => S754_nan
     end) = (if E' <=? 971 then S754_finite s q' E' else S754_infinity s) /\
    digits q' = 53 /\ E <= E' <= E + 1 /\ (q < 2 ^ 53 -> E' = E /\ Zpos q' = q).
Proof.
  intros Hq HE. destruct q as [|q|q]; [lia| |lia].
  destruct (Z.eq_dec (Zpos q) (2 ^ 53)) as [Heq|Hne].
  - exists (2 ^ 52)%positive, (E + 1). injection Heq as ->.
    unfold shr_fexp. change (Zdigits2 (Zpos _)) with 54. rewrite fexp_normal by lia.
    replace (54 + E - 53 - E) with 1 by lia. split; [done|]. split; [done|]. split; lia.
  - exists q, E. rewrite shr_fexp_none by (try apply digits_unique; simpl; lia).
    split; [done|]. split; [by apply digits_unique; simpl; lia|]. split; [lia|]. done.
Qed.

Lemma round_shape s m e : 53 <= digits m -> -1074 <= digits m + e - 53 ->
  let n := digits m - 53 in
  exists q' E',
    binary_round_aux prec emax s (Zpos m) e loc_Exact =
      (if E' <=? 971 then S754_finite s q' E' else S754_infinity s) /\
    digits q' = 53 /\ e + n <= E' <= e + n + 1 /\
    (forall k, Zpos m = k * 2 ^ n -> E' = e + n /\ Zpos q' = k).
Proof.
  intros Hd He n. pose proof (digits_bounds m) as Hm. unfold binary_round_aux, shr_fexp at 1.
  cbn [Zdigits2 shr_record_of_loc]. rewrite fexp_normal by lia.
  replace (digits m + e - 53 - e) with n by lia.
  set (rec0 := {| shr_m := Zpos m; shr_r := false; shr_s := false |}).
  assert (Hs : shr rec0 e n = (Nat.iter (Z.to_nat n) shr_1 rec0, e + n)).
  { destruct n as [|p|p] eqn:En; [by rewrite Z.add_0_r| |lia]. cbn [shr].
    by rewrite iter_pos_nat, Z2Nat.inj_pos. }
  rewrite Hs.
  assert (Hq : shr_m (Nat.iter (Z.to_nat n) shr_1 rec0) = Zpos m / 2 ^ n).
  { unfold rec0. rewrite shr_iter by lia. by rewrite Z2Nat.id by lia. }
  assert (Hn : 0 < 2 ^ n) by (apply Z.pow_pos_nonneg; lia).
  assert (Hqb : 2 ^ 52 <= Zpos m / 2 ^ n < 2 ^ 53).
  { split; [apply Z.div_le_lower_bound|apply Z.div_lt_upper_bound]; try done;
      rewrite <- Z.pow_add_r by lia; [replace (n + 52) with (digits m - 1) by lia
      |replace (n + 53) with (digits m) by lia]; lia. }
  rewrite Hq.
  set (l := loc_of_shr_record _).
  pose proof (round_up_at_most (Zpos m / 2 ^ n) l) as Hr.
  destruct (round_end s (round_nearest_even (Zpos m / 2 ^ n) l) (e + n)) as (q' & E' & H1 & H2 & H3 & H4);
    [lia|lia|].
  exists q', E'. split; [exact H1|]. split; [done|]. split; [done|]. intros k Hk.
  assert (l = loc_Exact) as Hl.
  { assert (Hk' : Zpos m = k * 2 ^ Z.of_nat (Z.to_nat n)) by (rewrite Z2Nat.id by lia; exact Hk).
    unfold l, rec0. rewrite Hk', shr_iter_exact; [done|]. nia. }
  rewrite Hl in H4. cbn [round_nearest_even] in H4. rewrite Hk, Z.div_mul in H4 by lia.
  apply H4. rewrite Hk, Z.div_mul in Hqb by lia. lia.
Qed.

(** ** Integer values *)

(** The value of a finite number, scaled by [2 ^ 1074]. *)
Definition scaled_value (m : positive) (e : Z) : Z := Zpos m * 2 ^ (e + 1074).

Lemma canonical_cases m e :
  canonical_mantissa prec emax m e = true -> -1074 <= e /\ digits m <= 53 /\ (e = -1074 \/ digits m = 53).
Proof. unfold canonical_mantissa, fexp, emin, prec, emax. intros H%Z.eqb_eq. lia. Qed.

Lemma scaled_int m e z : -1074 <= e ->
  (if 0 <=? e then Some (Zpos m * 2 ^ e)
   else if Zpos m mod 2 ^ (- e) =? 0 then Some (Zpos m / 2 ^ (- e)) else None) = Some z <->
  scaled_value m e = z * 2 ^ 1074.
Proof.
  intros He. unfold scaled_value. destruct (Z.leb_spec 0 e) as [H0|H0].
  - rewrite Z.pow_add_r by lia. rewrite Z.mul_assoc.
    assert (0 < 2 ^ 1074) by (apply Z.pow_pos_nonneg; lia).
    split; [intros [= <-]; done|]. intros H1. f_equal. by apply Z.mul_reg_r in H1; [|lia].
  - assert (Hp : 2 ^ 1074 = 2 ^ (- e) * 2 ^ (e + 1074)) by (rewrite <- Z.pow_add_r by lia; f_equal; lia).
    assert (0 < 2 ^ (- e)) by (apply Z.pow_pos_nonneg; lia).
    assert (0 < 2 ^ (e + 1074)) by (apply Z.pow_pos_nonneg; lia).
    rewrite Hp, Z.mul_assoc. split.
    + destruct (Z.eqb_spec (Zpos m mod 2 ^ (- e)) 0) as [Hm|]; [|done]. intros [= <-].
      f_equal. rewrite Z.mul_comm. by apply Z_div_exact_full_2; [lia|].
    + intros Hz%Z.mul_reg_r; [|lia]. rewrite Hz, Z.mod_mul, Z.div_mul by lia. done.
Qed.

Lemma int_value_finite s m e z : -1074 <= e ->
  int_value (S754_finite s m e) = Some z <-> scaled_value m e = cond_Zopp s z * 2 ^ 1074.
Proof.
  intros He. rewrite <- scaled_int by done. cbn [int_value]. destruct s; cbn [cond_Zopp]; [|done].
  destruct (Z.leb_spec 0 e) as [H0|H0]; [split; intros [= H]; f_equal; lia|].
  assert (Hp : 2 ^ (- e) <> 0) by (apply Z.pow_nonzero; lia).
  assert (Hmod : (- Zpos m) mod 2 ^ (- e) = 0 <-> Zpos m mod 2 ^ (- e) = 0).
  { split; intros H; [rewrite <- (Z.opp_involutive (Zpos m))|]; by apply Z.mod_opp_l_z. }
  destruct (Z.eqb_spec (- Zpos m mod 2 ^ (- e)) 0) as [H|H].
  - apply Hmod in H as H'. rewrite H', Z.eqb_refl, Z.div_opp_l_z by done.
    split; intros [= H1]; f_equal; lia.
  - destruct (Z.eqb_spec (Zpos m mod 2 ^ (- e)) 0) as [H'|H']; [by apply Hmod in H'|].
    split; done.
Qed.

(** The number [x] is the integer [z]. *)
Definition int_num (x : num) (z : Z) : Prop := valid_num x = true /\ int_value x = Some z.

Lemma int_num_zero s : int_num (S754_zero s) 0.
Proof. done. Qed.

Lemma int_num_safe x z : int_num x z -> is_safe_integer x = (Z.abs z <=? max_safe).
Proof. intros [_ Hz]. unfold is_safe_integer. by rewrite Hz. Qed.

Lemma scaled_bounds m e : -1074 <= e ->
  2 ^ (digits m + e + 1073) <= scaled_value m e < 2 ^ (digits m + e + 1074).
Proof.
  intros He. unfold scaled_value. pose proof (digits_bounds m) as Hm.
  assert (0 < 2 ^ (e + 1074)) by (apply Z.pow_pos_nonneg; lia).
  replace (digits m + e + 1073) with (digits m - 1 + (e + 1074)) by lia.
  replace (digits m + e + 1074) with (digits m + (e + 1074)) by lia.
  rewrite (Z.pow_add_r 2 (digits m - 1)), (Z.pow_add_r 2 (digits m)) by lia.
  split; [apply Z.mul_le_mono_nonneg_r|apply Z.mul_lt_mono_pos_r]; lia.
Qed.

Lemma scaled_digits m e z : -1074 <= e -> scaled_value m e = z * 2 ^ 1074 -> 0 < z ->
  0 < digits m + e /\ (z < 2 ^ 53 -> digits m + e <= 53) /\ (2 ^ 53 <= z -> 54 <= digits m + e).
Proof.
  intros He Hv Hz. pose proof (scaled_bounds m e He) as Hb. rewrite Hv in Hb.
  assert (Hp : 0 < 2 ^ 1074) by (apply Z.pow_pos_nonneg; lia).
  assert (Hm : forall a b, 0 <= b -> 2 ^ a < 2 ^ b -> a < b).
  { intros a b H0 H. apply (Z.pow_lt_mono_r_iff 2); [lia|exact H0|exact H]. }
  split; [|split; intros H].
  - enough (1074 < digits m + e + 1074) by lia. apply Hm; [lia|]. nia.
  - enough (digits m + e + 1073 < 53 + 1074) by lia. apply Hm; [lia|].
    rewrite (Z.pow_add_r 2 53 1074) by lia. nia.
  - enough (53 + 1074 < digits m + e + 1074) by lia. apply Hm; [lia|].
    rewrite (Z.pow_add_r 2 53 1074) by lia. nia.
Qed.

(** The shape of a non-zero safe integer: 53 digits, an exponent in [-52 .. 0]. *)
Lemma int_num_shape x z : int_num x z -> z <> 0 -> Z.abs z <= max_safe ->
  exists m e, x = S754_finite (z <? 0) m e /\ digits m = 53 /\ -52 <= e <= 0 /\
    Zpos m = Z.abs z * 2 ^ (- e).
Proof.
  intros [Hv Hz] Hn Hs. destruct x as [s|s| |s m e]; try done.
  { by injection Hz as <-. }
  unfold valid_num, valid_binary, bounded in Hv. apply andb_true_iff in Hv as [Hc Hb].
  apply canonical_cases in Hc as (He & Hd53 & Hd). apply int_value_finite in Hz; [|done].
  assert (0 < scaled_value m e).
  { unfold scaled_value. apply Z.mul_pos_pos; [lia|apply Z.pow_pos_nonneg; lia]. }
  assert (Hp : 0 < 2 ^ 1074) by (apply Z.pow_pos_nonneg; lia).
  assert (s = (z <? 0) /\ cond_Zopp s z = Z.abs z) as [-> Ha].
  { destruct s; cbn [cond_Zopp] in *; destruct (Z.ltb_spec z 0); split; try done; nia. }
  rewrite Ha in Hz. destruct (scaled_digits m e _ He Hz) as (H1 & H2 & _); [lia|].
  unfold max_safe in Hs. exists m, e. split; [done|].
  assert (digits m = 53) by lia. split; [done|]. split; [lia|].
  apply scaled_int in Hz; [|done]. destruct (Z.leb_spec 0 e).
  - assert (e = 0) as -> by lia. injection Hz as Hz. simpl in *. lia.
  - destruct (Z.eqb_spec (Zpos m mod 2 ^ (- e)) 0) as [Hm|]; [|done]. injection Hz as <-.
    rewrite Z.mul_comm. by apply Z_div_exact_full_2; [apply Z.pow_nonzero; lia|].
Qed.

(** Rounding a mantissa whose value is the positive integer [z]. *)
Lemma round_int s m e z : 53 <= digits m -> -1074 <= e -> scaled_value m e = z * 2 ^ 1074 -> 0 < z ->
  (z <= max_safe -> int_num (binary_round_aux prec emax s (Zpos m) e loc_Exact) (cond_Zopp s z)) /\
  (max_safe < z -> is_safe_integer (binary_round_aux prec emax s (Zpos m) e loc_Exact) = false).
Proof.
  intros Hd He Hv Hz. destruct (scaled_digits m e z He Hv Hz) as (H0 & Hlo & Hhi).
  destruct (round_shape s m e Hd) as (q & E & -> & Hq & HE & Hex); [lia|].
  set (n := digits m - 53) in *. unfold max_safe. split; intros Hm.
  - specialize (Hlo ltac:(lia)).
    assert (Hdiv : exists k, Zpos m = k * 2 ^ n).
    { apply scaled_int in Hv; [|done]. destruct (Z.leb_spec 0 e) as [H|H].
      - exists (Zpos m). assert (n = 0) as -> by lia. simpl. lia.
      - destruct (Z.eqb_spec (Zpos m mod 2 ^ (- e)) 0) as [Hmod|]; [|done].
        apply Z_div_exact_full_2 in Hmod; [|apply Z.pow_nonzero; lia].
        exists (Zpos m / 2 ^ (- e) * 2 ^ (- e - n)).
        rewrite <- Z.mul_assoc, <- Z.pow_add_r by lia. replace (- e - n + n) with (- e) by lia. lia. }
    destruct Hdiv as [k Hdiv]. destruct (Hex k Hdiv) as [-> Hk].
    replace (e + n <=? 971) with true by lia. split.
    + unfold valid_num, valid_binary, bounded, canonical_mantissa. rewrite Hq, fexp_normal by lia.
      unfold emax, prec. lia.
    + apply int_value_finite; [lia|]. replace (cond_Zopp s (cond_Zopp s z)) with z by (destruct s; simpl; lia).
      rewrite <- Hv. unfold scaled_value. rewrite Hk, Hdiv, <- Z.mul_assoc, <- Z.pow_add_r by lia.
      do 2 f_equal. lia.
  - specialize (Hhi ltac:(lia)). destruct (E <=? 971) eqn:HE'; [|done].
    unfold is_safe_integer. cbn [int_value]. replace (0 <=? E) with true by lia.
    assert (2 ^ 52 <= Zpos q) by (pose proof (digits_bounds q) as Hb; rewrite Hq in Hb; simpl in Hb; lia).
    assert (2 ^ 1 <= 2 ^ E) by (apply Z.pow_le_mono_r; lia).
    apply Z.leb_gt. unfold max_safe. rewrite Z.abs_mul. destruct s; simpl cond_Zopp; nia.
Qed.

Lemma shl_align_value m e e' : e' <= e -> Zpos (fst (shl_align m e e')) = Zpos m * 2 ^ (e - e').
Proof.
  intros He. unfold shl_align. destruct (e' - e) as [|p|p] eqn:E; [|lia|].
  - replace (e - e') with 0 by lia. simpl. lia.
  - cbn [fst]. rewrite digits_shift. do 2 f_equal. lia.
Qed.

(** The exact result [z] of an operation is returned when it is safe; an unsafe
    one gives a number that is not a safe integer. *)
Definition rounds_to (x : num) (z : Z) : Prop :=
  (Z.abs z <= max_safe -> int_num x z) /\ (max_safe < Z.abs z -> is_safe_integer x = false).

Lemma binary_round_int s m e z : -1000 <= e -> scaled_value m e = z * 2 ^ 1074 -> 0 < z ->
  rounds_to (binary_round prec emax s m e) (cond_Zopp s z).
Proof.
  intros He Hv Hz. unfold rounds_to. replace (Z.abs (cond_Zopp s z)) with z by (destruct s; simpl; lia).
  unfold binary_round. destruct (scaled_digits m e z) as (H0 & _ & _); [lia|done|done|].
  rewrite fexp_normal by lia.
  destruct (Z.le_gt_cases 53 (digits m)) as [Hd|Hd].
  - unfold shl_align. replace (digits m + e - 53 - e) with (digits m - 53) by lia.
    destruct (digits m - 53) eqn:En; [| |lia]; apply round_int; done || lia.
  - pose proof (shl_align_value m e (digits m + e - 53)) as Ha.
    unfold shl_align in *. replace (digits m + e - 53 - e) with (digits m - 53) in * by lia.
    destruct (digits m - 53) as [| |p] eqn:En; [lia|lia|]. cbn [fst] in Ha. specialize (Ha ltac:(lia)).
    replace (e - (digits m + e - 53)) with (53 - digits m) in Ha by lia.
    pose proof (digits_bounds m) as Hm.
    assert (Hp : 0 < 2 ^ (53 - digits m)) by (apply Z.pow_pos_nonneg; lia).
    assert (Hdig : digits (Pos.iter xO m p) = 53).
    { apply digits_unique. rewrite Ha. split.
      - replace (53 - 1) with (digits m - 1 + (53 - digits m)) by lia.
        rewrite Z.pow_add_r by lia. apply Z.mul_le_mono_nonneg_r; lia.
      - replace 53 with (digits m + (53 - digits m)) at 2 by lia.
        rewrite Z.pow_add_r by lia. apply Z.mul_lt_mono_pos_r; lia. }
    apply round_int; [lia|lia| |done]. rewrite <- Hv. unfold scaled_value.
    rewrite Ha, <- Z.mul_assoc, <- Z.pow_add_r by lia. do 2 f_equal. lia.
Qed.

Lemma normalize_int m e z b : -1000 <= e <= 0 -> m = z * 2 ^ (- e) ->
  rounds_to (binary_normalize prec emax m e b) z.
Proof.
  intros He Hm. assert (Hp : 0 < 2 ^ (- e)) by (apply Z.pow_pos_nonneg; lia).
  assert (Hs : forall p y, Zpos p = y * 2 ^ (- e) -> scaled_value p e = y * 2 ^ 1074).
  { intros p y Hy. unfold scaled_value. rewrite Hy, <- Z.mul_assoc, <- Z.pow_add_r by lia. do 2 f_equal. lia. }
  destruct m as [|p|p]; cbn [binary_normalize].
  - assert (z = 0) as -> by nia. split; [done|unfold max_safe; lia].
  - apply (binary_round_int false p e z); [lia|by apply Hs|nia].
  - replace z with (cond_Zopp true (- z)) by (simpl; lia).
    apply binary_round_int; [lia|apply Hs; lia|nia].
Qed.

Lemma of_Z_int z : rounds_to (n_of_Z z) z.
Proof. apply normalize_int; [lia|]. simpl. lia. Qed.

Definition safe_num (x : num) (z : Z) : Prop := int_num x z /\ Z.abs z <= max_safe.

(** A safe integer over a common exponent. *)
Lemma safe_cases x z : safe_num x z ->
  (z = 0 /\ exists s, x = S754_zero s) \/
  (z <> 0 /\ exists s m e, x = S754_finite s m e /\ -52 <= e <= 0 /\ digits m = 53 /\
    cond_Zopp s (Zpos m) = z * 2 ^ (- e)).
Proof.
  intros [Hi Hs]. destruct (Z.eq_dec z 0) as [->|Hn].
  - left. split; [done|]. destruct Hi as [Hv Hz]. destruct x as [s|s| |s m e]; try done; [eauto|].
    exfalso. unfold valid_num, valid_binary, bounded in Hv. apply andb_true_iff in Hv as [Hc _].
    apply canonical_cases in Hc as [He _]. apply int_value_finite in Hz; [|done].
    assert (0 < scaled_value m e) by (unfold scaled_value; apply Z.mul_pos_pos; [lia|apply Z.pow_pos_nonneg; lia]).
    destruct s; simpl in Hz; lia.
  - right. split; [done|]. destruct (int_num_shape x z Hi Hn Hs) as (m & e & -> & Hd & He & Hm).
    exists (z <? 0), m, e. split; [done|]. split; [done|]. split; [done|].
    destruct (Z.ltb_spec z 0); cbn [cond_Zopp]; rewrite Hm; lia.
Qed.

Lemma align_safe s m e e' z : e' <= e -> e <= 0 -> cond_Zopp s (Zpos m) = z * 2 ^ (- e) ->
  cond_Zopp s (Zpos (fst (shl_align m e e'))) = z * 2 ^ (- e').
Proof.
  intros He H0 Hz. rewrite shl_align_value by done.
  replace (cond_Zopp s (Zpos m * 2 ^ (e - e'))) with (cond_Zopp s (Zpos m) * 2 ^ (e - e'))
    by (destruct s; simpl; lia).
  rewrite Hz, <- Z.mul_assoc, <- Z.pow_add_r by lia. do 2 f_equal. lia.
Qed.

Lemma rounds_safe x z : safe_num x z -> rounds_to x z.
Proof. intros [Hi Hs]. split; [done|lia]. Qed.

Lemma neg_safe x z : safe_num x z -> safe_num (n_neg x) (- z).
Proof.
  intros [[Hv Hz] Hs]. split; [|lia]. unfold n_neg. destruct x as [s|s| |s m e]; try done.
  - by injection Hz as <-.
  - split; [done|]. cbn [SFopp]. unfold valid_num, valid_binary, bounded in Hv.
    apply andb_true_iff in Hv as [Hc _]. apply canonical_cases in Hc as [He _].
    apply int_value_finite in Hz; [|done]. apply int_value_finite; [done|].
    rewrite Hz. destruct s; simpl; lia.
Qed.

Lemma add_safe x y a b : safe_num x a -> safe_num y b -> rounds_to (n_add x y) (a + b).
Proof.
  intros Hx Hy. pose proof Hx as Hx'. pose proof Hy as Hy'.
  apply safe_cases in Hx' as [[-> [s1 ->]]|(Ha & s1 & m1 & e1 & -> & He1 & _ & H1)];
    apply safe_cases in Hy' as [[-> [s2 ->]]|(Hb & s2 & m2 & e2 & -> & He2 & _ & H2)].
  - apply rounds_safe. unfold n_add. cbn [SFadd]. by destruct s1, s2.
  - by apply rounds_safe.
  - rewrite Z.add_0_r. by apply rounds_safe.
  - unfold n_add. cbn [SFadd]. apply normalize_int; [lia|].
    rewrite (align_safe s1 m1 e1 _ a), (align_safe s2 m2 e2 _ b) by (done || lia). lia.
Qed.

Lemma sub_safe x y a b : safe_num x a -> safe_num y b -> rounds_to (n_sub x y) (a - b).
Proof.
  intros Hx Hy. pose proof Hx as Hx'. pose proof Hy as Hy'.
  apply safe_cases in Hx' as [[-> [s1 ->]]|(Ha & s1 & m1 & e1 & -> & He1 & _ & H1)];
    apply safe_cases in Hy' as [[-> [s2 ->]]|(Hb & s2 & m2 & e2 & -> & He2 & _ & H2)].
  - apply rounds_safe. unfold n_sub. cbn [SFsub]. by destruct s1, s2.
  - apply rounds_safe. by apply neg_safe in Hy.
  - rewrite Z.sub_0_r. by apply rounds_safe.
  - unfold n_sub. cbn [SFsub]. apply normalize_int; [lia|].
    rewrite (align_safe s1 m1 e1 _ a), (align_safe s2 m2 e2 _ b) by (done || lia). lia.
Qed.

Lemma digits_mul_53 m1 m2 : digits m1 = 53 -> digits m2 = 53 -> 53 <= digits (m1 * m2).
Proof.
  intros H1 H2. pose proof (digits_bounds m1) as B1. pose proof (digits_bounds m2) as B2.
  pose proof (digits_bounds (m1 * m2)) as B. rewrite H1 in B1. rewrite H2 in B2.
  apply Z.lt_le_incl. apply (Z.pow_lt_mono_r_iff 2); [lia|lia|]. rewrite Pos2Z.inj_mul in B.
  change (2 ^ (53 - 1)) with 4503599627370496 in *. change (2 ^ 53) with 9007199254740992 in *. nia.
Qed.

Lemma mul_safe x y a b : safe_num x a -> safe_num y b -> rounds_to (n_mul x y) (a * b).
Proof.
  intros Hx Hy.
  apply safe_cases in Hx as [[-> [s1 ->]]|(Ha & s1 & m1 & e1 & -> & He1 & Hd1 & H1)];
    apply safe_cases in Hy as [[-> [s2 ->]]|(Hb & s2 & m2 & e2 & -> & He2 & Hd2 & H2)];
    rewrite ?Z.mul_0_r, ?Z.mul_0_l; try (apply rounds_safe; done).
  unfold n_mul. cbn [SFmul].
  assert (Hp1 : 0 < 2 ^ (- e1)) by (apply Z.pow_pos_nonneg; lia).
  assert (Hp2 : 0 < 2 ^ (- e2)) by (apply Z.pow_pos_nonneg; lia).
  assert (Hm1 : Zpos m1 = Z.abs a * 2 ^ (- e1) /\ s1 = (a <? 0)).
  { destruct s1; cbn [cond_Zopp] in H1; destruct (Z.ltb_spec a 0); split; try done; nia. }
  assert (Hm2 : Zpos m2 = Z.abs b * 2 ^ (- e2) /\ s2 = (b <? 0)).
  { destruct s2; cbn [cond_Zopp] in H2; destruct (Z.ltb_spec b 0); split; try done; nia. }
  destruct Hm1 as [Hm1 ->], Hm2 as [Hm2 ->].
  replace (a * b) with (cond_Zopp (xorb (a <? 0) (b <? 0)) (Z.abs a * Z.abs b)).
  2:{ destruct (Z.ltb_spec a 0), (Z.ltb_spec b 0); simpl; nia. }
  unfold rounds_to.
  replace (Z.abs (cond_Zopp _ _)) with (Z.abs a * Z.abs b).
  2:{ destruct (xorb _ _); simpl; nia. }
  apply round_int; [by apply digits_mul_53|lia| |nia].
  unfold scaled_value. rewrite Pos2Z.inj_mul, Hm1, Hm2.
  replace (Z.abs a * 2 ^ (- e1) * (Z.abs b * 2 ^ (- e2)) * 2 ^ (e1 + e2 + 1074))
    with (Z.abs a * Z.abs b * (2 ^ (- e1) * 2 ^ (- e2) * 2 ^ (e1 + e2 + 1074))) by lia.
  f_equal. rewrite <- !Z.pow_add_r by lia. f_equal. lia.
Qed.

(** The remainder of safe integers is exact and keeps the sign of the dividend. *)
Lemma rem_safe x y a b : safe_num x a -> safe_num y b -> b <> 0 -> safe_num (n_rem x y) (Z.rem a b).
Proof.
  intros Hx Hy Hb. pose proof Hx as [_ Hsa].
  assert (Hr : Z.abs (Z.rem a b) <= max_safe).
  { pose proof (Z.rem_le (Z.abs a) (Z.abs b)). rewrite <- Z.rem_abs in * by done. lia. }
  apply safe_cases in Hy as [[-> _]|(_ & s2 & m2 & e2 & -> & He2 & _ & H2)]; [done|].
  apply safe_cases in Hx as [[-> [s1 ->]]|(Ha & s1 & m1 & e1 & -> & He1 & _ & H1)];
    [by rewrite Z.rem_0_l|].
  cbn [n_rem]. set (e := Z.min e1 e2).
  assert (Hal : forall s m k z, k <= 0 -> e <= k -> cond_Zopp s (Zpos m) = z * 2 ^ (- k) ->
    Zpos m * 2 ^ (k - e) = Z.abs z * 2 ^ (- e)).
  { intros s m k z Hk Hek Hm. assert (0 < 2 ^ (- k)) by (apply Z.pow_pos_nonneg; lia).
    replace (Zpos m) with (Z.abs z * 2 ^ (- k)) by (destruct s; simpl in Hm; nia).
    rewrite <- Z.mul_assoc, <- Z.pow_add_r by lia. do 2 f_equal. lia. }
  rewrite (Hal s1 m1 e1 a), (Hal s2 m2 e2 b) by (done || lia).
  assert (Hp : 0 < 2 ^ (- e)) by (apply Z.pow_pos_nonneg; lia).
  rewrite Z.mul_mod_distr_r by lia.
  assert (Hrem : Z.rem a b = cond_Zopp s1 (Z.abs a mod Z.abs b)).
  { assert (s1 = (a <? 0)) as ->.
    { assert (0 < 2 ^ (- e1)) by (apply Z.pow_pos_nonneg; lia).
      destruct s1; simpl in H1; destruct (Z.ltb_spec a 0); try done; nia. }
    rewrite <- Z.rem_mod_nonneg by lia. destruct (Z.ltb_spec a 0); simpl.
    - rewrite (Z.abs_neq a) by lia. rewrite Z.rem_opp_l by lia.
      destruct (Z.abs_eq_or_opp b) as [->| ->]; [lia|]. rewrite Z.rem_opp_r by lia. lia.
    - rewrite (Z.abs_eq a) by lia. destruct (Z.abs_eq_or_opp b) as [->| ->]; [done|].
      by rewrite Z.rem_opp_r by lia. }
  destruct (Z.eqb_spec (Z.abs a mod Z.abs b * 2 ^ (- e)) 0) as [H0|H0].
  - assert (Z.abs a mod Z.abs b = 0) as H00 by nia. rewrite Hrem, H00. by destruct s1.
  - split; [|done]. eapply (normalize_int _ e); [lia| |done]. rewrite Hrem. destruct s1; simpl; lia.
Qed.

(** ** Comparison *)

Lemma compare_safe x y a b : safe_num x a -> safe_num y b -> SFcompare x y = Some (Z.compare a b).
Proof.
  intros Hx Hy.
  apply safe_cases in Hx as [[-> [s1 ->]]|(Ha & s1 & m1 & e1 & -> & He1 & Hd1 & H1)];
    apply safe_cases in Hy as [[-> [s2 ->]]|(Hb & s2 & m2 & e2 & -> & He2 & Hd2 & H2)]; [done| | |].
  - cbn [SFcompare]. assert (0 < 2 ^ (- e2)) by (apply Z.pow_pos_nonneg; lia).
    f_equal. symmetry. destruct s2; simpl in H2; [apply Z.compare_gt_iff|apply Z.compare_lt_iff]; nia.
  - cbn [SFcompare]. assert (0 < 2 ^ (- e1)) by (apply Z.pow_pos_nonneg; lia).
    f_equal. symmetry. destruct s1; simpl in H1; [apply Z.compare_lt_iff|apply Z.compare_gt_iff]; nia.
  - cbn [SFcompare]. f_equal.
    assert (Hp1 : 0 < 2 ^ (- e1)) by (apply Z.pow_pos_nonneg; lia).
    assert (Hp2 : 0 < 2 ^ (- e2)) by (apply Z.pow_pos_nonneg; lia).
    pose proof (digits_bounds m1) as B1. pose proof (digits_bounds m2) as B2.
    rewrite Hd1 in B1. rewrite Hd2 in B2.
    change (2 ^ (53 - 1)) with 4503599627370496 in *. change (2 ^ 53) with 9007199254740992 in *.
    assert (Hlt : e1 < e2 -> 2 * 2 ^ (- e2) <= 2 ^ (- e1)).
    { intros Hl. rewrite <- Z.pow_succ_r by lia. apply Z.pow_le_mono_r; lia. }
    assert (Hgt : e2 < e1 -> 2 * 2 ^ (- e1) <= 2 ^ (- e2)).
    { intros Hl. rewrite <- Z.pow_succ_r by lia. apply Z.pow_le_mono_r; lia. }
    destruct s1, s2; cbn [cond_Zopp] in H1, H2; symmetry.
    + destruct (Z.compare_spec e1 e2) as [->|Hl|Hl].
      * change (Pos.compare_cont Eq m1 m2) with (Pos.compare m1 m2).
        rewrite Pos2Z.inj_compare. rewrite <- Z.compare_antisym.
        destruct (Z.compare_spec (Zpos m2) (Zpos m1)); [apply Z.compare_eq_iff|apply Z.compare_lt_iff|apply Z.compare_gt_iff]; nia.
      * apply Z.compare_gt_iff. specialize (Hlt Hl). nia.
      * apply Z.compare_lt_iff. specialize (Hgt Hl). nia.
    + apply Z.compare_lt_iff. nia.
    + apply Z.compare_gt_iff. nia.
    + destruct (Z.compare_spec e1 e2) as [->|Hl|Hl].
      * change (Pos.compare_cont Eq m1 m2) with (Pos.compare m1 m2).
        rewrite Pos2Z.inj_compare.
        destruct (Z.compare_spec (Zpos m1) (Zpos m2)); [apply Z.compare_eq_iff|apply Z.compare_lt_iff|apply Z.compare_gt_iff]; nia.
      * apply Z.compare_lt_iff. specialize (Hlt Hl). nia.
      * apply Z.compare_gt_iff. specialize (Hgt Hl). nia.
Qed.

Lemma ltb_safe x y a b : safe_num x a -> safe_num y b -> n_ltb x y = (a <? b).
Proof. intros Hx Hy. unfold n_ltb, SFltb, Z.ltb. by rewrite (compare_safe x y a b Hx Hy). Qed.

Lemma leb_safe x y a b : safe_num x a -> safe_num y b -> n_leb x y = (a <=? b).
Proof. intros Hx Hy. unfold n_leb, SFleb, Z.leb. by rewrite (compare_safe x y a b Hx Hy). Qed.

Lemma eqb_safe x y a b : safe_num x a -> safe_num y b -> n_eqb x y = (a =? b).
Proof.
  intros Hx Hy. unfold n_eqb, SFeqb. rewrite (compare_safe x y a b Hx Hy), Z.eqb_compare.
  by destruct (a ?= b).
Qed.

Lemma safe_finite x z : safe_num x z -> is_finite x = true.
Proof. intros [[_ Hz] _]. by destruct x. Qed.

Lemma of_Z_safe z : Z.abs z <= max_safe -> safe_num (n_of_Z z) z.
Proof. intros Hz. split; [|done]. by apply of_Z_int. Qed.

Lemma max_safe_num x y a b : safe_num x a -> safe_num y b -> safe_num (n_max x y) (Z.max a b).
Proof.
  intros Hx Hy. pose proof (ltb_safe x y a b Hx Hy) as Hl. unfold n_max.
  assert (Hg : safe_num (if n_ltb x y then y else x) (Z.max a b)).
  { rewrite Hl. destruct (Z.ltb_spec a b); [rewrite Z.max_r|rewrite Z.max_l]; done || lia. }
  destruct Hx as [[_ Hx] _], Hy as [[_ Hy] _]. destruct x, y; try done;
    injection Hx as <-; by injection Hy as <-.
Qed.

Lemma min_safe_num x y a b : safe_num x a -> safe_num y b -> safe_num (n_min x y) (Z.min a b).
Proof.
  intros Hx Hy. pose proof (ltb_safe x y a b Hx Hy) as Hl. unfold n_min.
  assert (Hg : safe_num (if n_ltb x y then x else y) (Z.min a b)).
  { rewrite Hl. destruct (Z.ltb_spec a b); [rewrite Z.min_l|rewrite Z.min_r]; done || lia. }
  destruct Hx as [[_ Hx] _], Hy as [[_ Hy] _]. destruct x, y; try done;
    injection Hx as <-; by injection Hy as <-.
Qed.

Lemma n_eqb_comm x y : n_eqb x y = n_eqb y x.
Proof.
  unfold n_eqb, SFeqb. destruct x as [[]|[]| |[] m e], y as [[]|[]| |[] m' e']; try done; cbn [SFcompare];
    rewrite (Z.compare_antisym e' e); destruct (Z.compare e' e) eqn:E; try done; cbn [CompOpp];
    change (Pos.compare_cont Eq ?a ?b) with (Pos.compare a b);
    rewrite (Pos.compare_antisym m' m); by destruct (Pos.compare m' m).
Qed.

(** ** Rounding in general: a binary64 datum, and the exact value wherever there is one *)


Lemma pow2_pos n : 0 <= n -> 0 < 2 ^ n.
Proof. intros. apply Z.pow_pos_nonneg; lia. Qed.

Lemma fexp_max d : fexp prec emax d = Z.max (d - 53) (-1074).
Proof. done. Qed.

Lemma shr_count rec e n : 0 <= n -> shr rec e n = (Nat.iter (Z.to_nat n) shr_1 rec, e + n).
Proof.
  intros Hn. destruct n as [|p|p]; [by rewrite Z.add_0_r| |lia]. cbn [shr].
  by rewrite iter_pos_nat, Z2Nat.inj_pos.
Qed.

(** ** Exact values *)

(** A mantissa and exponent that denote the binary64 number [k * 2 ^ E] round to it. *)
Lemma round_exact s m e k E : bounded prec emax k E = true -> e <= E -> Zpos m = Zpos k * 2 ^ (E - e) ->
  binary_round_aux prec emax s (Zpos m) e loc_Exact = S754_finite s k E.
Proof.
  intros Hb He Hm. apply andb_true_iff in Hb as [Hc Hmax].
  pose proof (digits_mul_pow m k (E - e) ltac:(lia) Hm) as Hd.
  apply Z.eqb_eq in Hc as Hc'. unfold binary_round_aux, shr_fexp at 1. cbn [Zdigits2 shr_record_of_loc].
  rewrite Hd. replace (digits k + (E - e) + e) with (digits k + E) by lia. rewrite Hc'.
  rewrite shr_count by lia. replace (e + (E - e)) with E by lia.
  assert (Hm' : Zpos m = Zpos k * 2 ^ Z.of_nat (Z.to_nat (E - e))) by (by rewrite Z2Nat.id by lia).
  rewrite Hm', shr_iter_exact by lia. cbn [shr_m loc_of_shr_record round_nearest_even].
  unfold shr_fexp. cbn [Zdigits2 shr_record_of_loc]. rewrite Hc', Z.sub_diag. cbn [shr shr_m].
  by rewrite Hmax.
Qed.

Lemma normalize_exact k E z e b : bounded prec emax k E = true -> z = Zpos k * 2 ^ (E - e) -> e <= E ->
  binary_normalize prec emax z e b = S754_finite false k E.
Proof.
  intros Hb -> He. pose proof (pow2_pos (E - e) ltac:(lia)) as Hp.
  destruct (Zpos k * 2 ^ (E - e)) as [|m|m] eqn:Hm; [nia| |nia]. cbn [binary_normalize].
  apply andb_true_iff in Hb as Hb'. destruct Hb' as [Hc%Z.eqb_eq _].
  pose proof (digits_mul_pow m k (E - e) ltac:(lia) ltac:(lia)) as Hd.
  unfold binary_round. rewrite Hd. replace (digits k + (E - e) + e) with (digits k + E) by lia. rewrite Hc.
  unfold shl_align. destruct (E - e) as [|p|p] eqn:En; [| |lia]; apply round_exact; try done; lia || by rewrite En.
Qed.

(** ** Validity *)

Lemma shr_m_value m e l n : 0 <= n -> 0 <= m ->
  shr_m (fst (shr (shr_record_of_loc m l) e n)) = m / 2 ^ n.
Proof.
  intros Hn Hm. destruct (shr_record_of_loc_exact m l) as (r & s & ->).
  rewrite shr_count by done. cbn [fst]. rewrite shr_iter by done. by rewrite Z2Nat.id by done.
Qed.

Lemma digits_le m d : 0 <= d -> Zpos m < 2 ^ d -> digits m <= d.
Proof.
  intros Hd Hm. pose proof (digits_bounds m) as Hb.
  enough (digits m - 1 < d) by lia. apply (Z.pow_lt_mono_r_iff 2); lia.
Qed.

(** The rounding of a mantissa that has enough digits. *)
Lemma round_valid s m e l : e <= fexp prec emax (Zdigits2 m + e) -> 0 <= m ->
  valid_num (binary_round_aux prec emax s m e l) = true.
Proof.
  intros He Hm. unfold binary_round_aux, shr_fexp at 1.
  set (E := fexp prec emax (Zdigits2 m + e)) in *.
  pose proof (shr_m_value m e l (E - e) ltac:(lia) Hm) as Hq.
  assert (He' : snd (shr (shr_record_of_loc m l) e (E - e)) = E) by (rewrite shr_count by lia; cbn [snd]; lia).
  destruct (shr (shr_record_of_loc m l) e (E - e)) as [rec e']. cbn [fst snd] in *. subst e'. rewrite Hq.
  set (q := m / 2 ^ (E - e)) in *. set (q' := round_nearest_even q _).
  pose proof (pow2_pos (E - e) ltac:(lia)) as Hp.
  assert (Hq0 : 0 <= q) by (by apply Z.div_pos).
  assert (Hr : q <= q' <= q + 1) by apply round_up_at_most.
  assert (HE : -1074 <= E) by (subst E; rewrite fexp_max; lia).
  assert (Hub : q < 2 ^ 53 /\ (2 ^ 52 <= q \/ E = -1074)).
  { destruct m as [|m|m]; [| |lia].
    - subst q. rewrite Z.div_0_l by lia. split; [lia|]. right. subst E. cbn [Zdigits2] in *.
      rewrite fexp_max in *. lia.
    - cbn [Zdigits2] in *. pose proof (digits_bounds m) as Hb. split.
      + apply Z.div_lt_upper_bound; [lia|]. rewrite <- Z.pow_add_r by lia.
        apply Z.lt_le_trans with (2 ^ digits m); [lia|]. apply Z.pow_le_mono_r; [lia|].
        subst E. rewrite fexp_max. lia.
      + destruct (Z.eq_dec E (-1074)); [by right|left]. apply Z.div_le_lower_bound; [lia|].
        rewrite <- Z.pow_add_r by lia. replace (E - e + 52) with (digits m - 1); [lia|].
        subst E. rewrite fexp_max in *. lia. }
  destruct Hub as [Hub Hlow]. destruct (Z.le_gt_cases (2 ^ 52) q') as [Hbig|Hsmall].
  - destruct (round_end s q' E) as (q2 & E2 & -> & Hd & HE2 & _); [lia|done|].
    destruct (E2 <=? 971) eqn:Hle; [|done]. apply Z.leb_le in Hle.
    unfold valid_num, valid_binary, bounded, canonical_mantissa. rewrite Hd, fexp_max.
    unfold emax, prec. apply andb_true_iff. split; [apply Z.eqb_eq|apply Z.leb_le]; lia.
  - assert (E = -1074) as -> by lia. destruct q' as [|p|p] eqn:Hq'; [done| |lia].
    pose proof (digits_le p 52 ltac:(lia) Hsmall) as Hd.
    unfold shr_fexp. cbn [Zdigits2 shr_record_of_loc]. rewrite fexp_max.
    replace (Z.max (digits p + -1074 - 53) (-1074) - -1074) with 0 by lia. cbn [shr shr_m].
    change (-1074 <=? emax - prec) with true. cbn match.
    unfold valid_num, valid_binary, bounded, canonical_mantissa. rewrite fexp_max.
    apply andb_true_iff. split; [apply Z.eqb_eq; lia|done].
Qed.

Lemma normalize_valid z e b : valid_num (binary_normalize prec emax z e b) = true.
Proof.
  enough (H : forall s m, valid_num (binary_round prec emax s m e) = true) by (destruct z; [done|apply H|apply H]).
  intros s m. unfold binary_round. set (E := fexp prec emax (digits m + e)).
  destruct (Z.le_gt_cases e E) as [He|He].
  - unfold shl_align. destruct (E - e) as [|p|p] eqn:En; [| |lia]; apply round_valid; try lia;
      cbn [Zdigits2]; fold E; lia.
  - pose proof (shl_align_value m e E ltac:(lia)) as Ha. unfold shl_align in *.
    destruct (E - e) as [|p|p] eqn:En; [lia|lia|]. cbn [fst] in Ha. apply round_valid; [|lia].
    cbn [Zdigits2]. rewrite (digits_mul_pow _ m (e - E)) by (lia || exact Ha).
    replace (digits m + (e - E) + E) with (digits m + e) by lia. fold E. lia.
Qed.

Lemma n_of_Z_valid z : valid_num (n_of_Z z) = true.
Proof. apply normalize_valid. Qed.

(** ** Sums of safe integers *)

Lemma sum_safe xs : forall zs x z,
  Forall2 safe_num xs zs -> Forall (fun y => 0 <= y) zs -> safe_num x z -> 0 <= z ->
  z + fold_right Z.add 0 zs <= max_safe ->
  safe_num (fold_left n_add xs x) (z + fold_right Z.add 0 zs).
Proof.
  induction xs as [|y xs IH]; intros zs x z Hf Hn Hx Hz Hs; inversion Hf as [|? b ? zs' Hy Hf']; subst; simpl in *.
  { by rewrite Z.add_0_r. }
  inversion Hn as [|? ? Hb Hn']; subst.
  assert (Hrest : 0 <= fold_right Z.add 0 zs').
  { clear -Hn'. induction Hn'; simpl; lia. }
  rewrite Z.add_assoc. apply IH; [done|done| |lia|lia].
  split; [|lia]. apply (add_safe x y z b Hx Hy). lia.
Qed.
