(* ===== verification/JsPrintSpec.v ===== *)
(** * Printed numbers read back

    [Number(String(x))] is [x] for every binary64 number, and so is the number the
    JSON reader takes from that text.  The text is put in one shape, digits with a
    fraction and an exponent, which both readers take apart. *)

From Stdlib Require Import SpecFloat.
From S2P Require Import Prelude JsString JsNumber JsIntSpec.

Local Open Scope Z_scope.

Lemma pow10_pos n : 0 <= n -> 0 < 10 ^ n.
Proof. intros. apply Z.pow_pos_nonneg; lia. Qed.

Abbreviation len l := (Z.of_nat (length l)).

(** ** Decimal digits *)

Lemma Z_of_digits_app a b : Z_of_digits (a ++ b) = Z_of_digits a * 10 ^ len b + Z_of_digits b.
Proof.
  assert (Hfold : forall s z, fold_left (fun acc c => acc * 10 + digit_val c) s z =
                              z * 10 ^ len s + Z_of_digits s).
  { induction s as [|c s IH] using rev_ind; intros z; [cbn; lia|].
    unfold Z_of_digits. rewrite !fold_left_app, length_app, Nat2Z.inj_add, Z.pow_add_r by lia.
    cbn [fold_left]. rewrite IH. fold (Z_of_digits s). simpl (len [c]). lia. }
  unfold Z_of_digits at 1. rewrite fold_left_app. apply Hfold.
Qed.

Lemma Z_of_digits_cons c s : Z_of_digits (c :: s) = digit_val c * 10 ^ len s + Z_of_digits s.
Proof. apply (Z_of_digits_app [c]). Qed.

Lemma Z_of_digits_zeros n s : Z_of_digits (repeat 48%N n ++ s) = Z_of_digits s.
Proof. induction n as [|n IH]; [done|]. cbn [repeat app]. rewrite Z_of_digits_cons, IH. unfold digit_val. lia. Qed.

Lemma Z_of_digits_pad s n : Z_of_digits (s ++ repeat 48%N n) = Z_of_digits s * 10 ^ Z.of_nat n.
Proof.
  rewrite Z_of_digits_app, repeat_length. pose proof (Z_of_digits_zeros n []) as H.
  rewrite app_nil_r in H. rewrite H. cbn. lia.
Qed.

(** The digits of [z], most significant first. *)
Record digits_spec (z : Z) (ds : jsstr) : Prop := {
  ds_value : Z_of_digits ds = z;
  ds_digits : forallb is_digit ds = true;
  ds_length : 10 ^ (len ds - 1) <= z < 10 ^ len ds;
  ds_head : exists c ds', ds = c :: ds' /\ c <> 48%N;
}.

Lemma digit_char d : 0 <= d < 10 -> is_digit (48 + Z.to_N d) = true /\ digit_val (48 + Z.to_N d) = d.
Proof. unfold is_digit, in_range, digit_val. intros Hd. rewrite andb_true_iff, !N.leb_le. lia. Qed.

Lemma digits_aux_spec f : forall z acc, 0 < z < 2 ^ Z.of_nat f ->
  exists ds, digits_aux f z acc = ds ++ acc /\ digits_spec z ds.
Proof.
  induction f as [|f IH]; intros z acc Hz; [simpl in Hz; lia|]. cbn [digits_aux].
  assert (Hm : 0 <= z mod 10 < 10) by (apply Z.mod_pos_bound; lia).
  pose proof (Z.div_mod z 10 ltac:(lia)) as Hdiv. destruct (digit_char _ Hm) as [Hc Hv].
  destruct (Z.eqb_spec (z / 10) 0) as [H0|H0].
  - exists [(48 + Z.to_N (z mod 10))%N]. split; [done|].
    assert (z mod 10 = z) as Hzm by lia. split.
    + unfold Z_of_digits. cbn [fold_left]. lia.
    + simpl. by rewrite Hc.
    + simpl. lia.
    + eexists _, []. split; [done|]. rewrite Hzm. lia.
  - rewrite Nat2Z.inj_succ, Z.pow_succ_r in Hz by lia.
    destruct (IH (z / 10) ((48 + Z.to_N (z mod 10))%N :: acc)) as (ds & -> & [V D L H]).
    { pose proof (Z.div_pos z 10). split; [lia|]. apply Z.div_lt_upper_bound; lia. }
    exists (ds ++ [(48 + Z.to_N (z mod 10))%N]). split; [by rewrite <- app_assoc|]. split.
    + rewrite Z_of_digits_app, V. change (Z_of_digits [?c]) with (0 * 10 + digit_val c). simpl (len [_]). lia.
    + rewrite forallb_app, D. simpl. by rewrite Hc.
    + destruct H as (c & ds' & -> & _). rewrite length_app, length_cons in *.
      change (length [_]) with 1%nat.
      replace (Z.of_nat (S (length ds')) - 1) with (len ds') in L by lia.
      replace (Z.of_nat (S (length ds')) ) with (Z.succ (len ds')) in L by lia.
      replace (Z.of_nat (S (length ds') + 1) - 1) with (Z.succ (len ds')) by lia.
      replace (Z.of_nat (S (length ds') + 1)) with (Z.succ (Z.succ (len ds'))) by lia.
      rewrite !Z.pow_succ_r by lia. rewrite Z.pow_succ_r in L by lia. lia.
    + destruct H as (c & ds' & -> & Hne). by exists c, (ds' ++ [(48 + Z.to_N (z mod 10))%N]).
Qed.

Lemma digits_of_Z_spec z : 0 < z -> digits_spec z (digits_of_Z z).
Proof.
  intros Hz. unfold digits_of_Z.
  destruct (digits_aux_spec (S (Z.to_nat (Z.log2 z))) z []) as (ds & -> & Hds).
  - split; [done|]. rewrite Nat2Z.inj_succ, Z2Nat.id by apply Z.log2_nonneg. by apply Z.log2_spec.
  - by rewrite app_nil_r.
Qed.

Lemma digits_of_0 : digits_of_Z 0 = [48%N].
Proof. done. Qed.

Lemma digits_of_Z_digits z : 0 <= z ->
  forallb is_digit (digits_of_Z z) = true /\ Z_of_digits (digits_of_Z z) = z /\ digits_of_Z z <> [].
Proof.
  intros Hz. destruct (Z.eq_dec z 0) as [->|]; [done|].
  destruct (digits_of_Z_spec z ltac:(lia)) as [V D _ (c & ds & Hd & _)].
  split; [done|]. split; [done|]. by rewrite Hd.
Qed.

(** The number of digits is determined by the magnitude. *)
Lemma digits_length z n : 0 < z -> 10 ^ (n - 1) <= z < 10 ^ n -> 0 < n -> len (digits_of_Z z) = n.
Proof.
  intros Hz Hn H0. destruct (digits_of_Z_spec z Hz) as [_ _ L (c & ds & Hd & _)].
  assert (0 < len (digits_of_Z z)) by (rewrite Hd, length_cons; lia).
  destruct (Z.lt_trichotomy (len (digits_of_Z z)) n) as [Hl|[|Hl]]; [|done|].
  - assert (10 ^ len (digits_of_Z z) <= 10 ^ (n - 1)) by (apply Z.pow_le_mono_r; lia). lia.
  - assert (10 ^ n <= 10 ^ (len (digits_of_Z z) - 1)) by (apply Z.pow_le_mono_r; lia). lia.
Qed.

(** ** Decimal input *)

Lemma n_of_decimal_scale s j : 0 < s -> 0 <= j -> n_of_decimal (s * 10 ^ j) 0 = n_of_decimal s j.
Proof.
  intros Hs Hj. pose proof (pow10_pos j Hj) as Hp. unfold n_of_decimal.
  replace (s * 10 ^ j =? 0) with false by (symmetry; apply Z.eqb_neq; nia).
  replace (s =? 0) with false by (symmetry; apply Z.eqb_neq; lia).
  destruct (digits_of_Z_spec s Hs) as [_ _ L (c & ds & Hd & _)].
  assert (0 < len (digits_of_Z s)) by (rewrite Hd, length_cons; lia).
  rewrite (digits_length (s * 10 ^ j) (len (digits_of_Z s) + j)), Z.add_0_r; [|nia| |lia].
  - change (0 <=? 0) with true. cbn match. replace (0 <=? j) with true by (symmetry; by apply Z.leb_le).
    by rewrite Z.pow_0_r, Z.mul_1_r.
  - replace (len (digits_of_Z s) + j - 1) with (len (digits_of_Z s) - 1 + j) by lia.
    rewrite !Z.pow_add_r by lia. nia.
Qed.

(** The division the reader makes of a decimal fraction. *)
Lemma div_core_valid m d : 0 < m -> 0 < d ->
  let '(mz, ez, lz) := SFdiv_core_binary prec emax m 0 d 0 in
  valid_num (binary_round_aux prec emax false mz ez lz) = true.
Proof.
  intros Hm Hd. unfold SFdiv_core_binary. rewrite !Z.add_0_r, Z.sub_0_r.
  set (E := Z.min _ 0). set (m' := match 0 - E with Z0 => m | _ => _ end).
  assert (HE : E <= 0 /\ E <= fexp prec emax (Zdigits2 m - Zdigits2 d)) by lia.
  assert (Hm' : m' = m * 2 ^ (- E)).
  { subst m'. replace (0 - E) with (- E) by lia. destruct (- E) eqn:He; [lia| |lia].
    rewrite Z.shiftl_mul_pow2 by lia. done. }
  pose proof (pow2_pos (- E) ltac:(lia)) as Hp.
  destruct (Z.div_eucl m' d) as [q r] eqn:Hq.
  assert (q = m' / d) as -> by (unfold Z.div; by rewrite Hq).
  assert (Hq0 : 0 <= m' / d) by (apply Z.div_pos; nia). apply round_valid; [|done].
  assert (Hmono : forall a b, a <= b -> fexp prec emax a <= fexp prec emax b) by (intros; rewrite !fexp_max; lia).
  transitivity (fexp prec emax (Zdigits2 m - Zdigits2 d)); [apply HE|]. apply Hmono.
  destruct m as [|m|m]; [lia| |lia]. destruct d as [|d|d]; [lia| |lia]. cbn [Zdigits2].
  pose proof (digits_bounds m) as Bm. pose proof (digits_bounds d) as Bd.
  destruct (Z.le_gt_cases (digits m - digits d - E) 0) as [Hs|Hs].
  { destruct (m' / Zpos d) as [|x|x] eqn:Hx; cbn [Zdigits2]; lia. }
  assert (Hlow : 2 ^ (digits m - 1 - digits d - E) <= m' / Zpos d).
  { apply Z.div_le_lower_bound; [lia|]. rewrite Hm'.
    transitivity (2 ^ digits d * 2 ^ (digits m - 1 - digits d - E)).
    - apply Z.mul_le_mono_nonneg_r; [apply Z.pow_nonneg; lia|lia].
    - rewrite <- Z.pow_add_r by lia.
      replace (digits d + (digits m - 1 - digits d - E)) with (digits m - 1 + - E) by lia.
      rewrite Z.pow_add_r by lia. apply Z.mul_le_mono_nonneg_r; lia. }
  destruct (m' / Zpos d) as [|x|x] eqn:Hx; [|cbn [Zdigits2]|lia].
  { pose proof (pow2_pos (digits m - 1 - digits d - E)). lia. }
  pose proof (digits_bounds x) as Bx.
  enough (digits m - 1 - digits d - E < digits x) by lia.
  apply (Z.pow_lt_mono_r_iff 2); lia.
Qed.

Lemma n_of_decimal_valid m e : 0 <= m -> valid_num (n_of_decimal m e) = true.
Proof.
  intros Hm. unfold n_of_decimal. destruct (Z.eqb_spec m 0); [done|].
  destruct (_ <? _); [done|]. destruct (_ <? _); [done|].
  destruct (Z.leb_spec 0 e); [apply n_of_Z_valid|].
  pose proof (div_core_valid m (10 ^ (- e)) ltac:(lia) (pow10_pos (- e) ltac:(lia))) as Hv.
  destruct (SFdiv_core_binary _ _ _ _ _ _) as [[mz ez] lz]. exact Hv.
Qed.

(** ** The exact decimal expansion *)

Lemma new_location_0 n : new_location n 0 = loc_Exact.
Proof. unfold new_location, new_location_even, new_location_odd. by destruct (Z.even n). Qed.

(** Dividing [m * 5 ^ n] by [10 ^ n] gives [m / 2 ^ n] exactly. *)
Lemma div_core_exact m e : bounded prec emax m e = true -> e < 0 ->
  let '(mz, ez, lz) := SFdiv_core_binary prec emax (Zpos m * 5 ^ (- e)) 0 (10 ^ (- e)) 0 in
  binary_round_aux prec emax false mz ez lz = S754_finite false m e.
Proof.
  intros Hb He. apply andb_true_iff in Hb as Hb'. destruct Hb' as [Hc%Z.eqb_eq _].
  set (n := - e) in *. assert (H5 : 0 < 5 ^ n) by (apply Z.pow_pos_nonneg; lia).
  assert (H10 : 10 ^ n = 5 ^ n * 2 ^ n) by (by rewrite <- Z.pow_mul_l).
  pose proof (pow2_pos n ltac:(lia)) as H2.
  unfold SFdiv_core_binary. rewrite !Z.add_0_r, Z.sub_0_r.
  assert (HE : fexp prec emax (Zdigits2 (Zpos m * 5 ^ n) - Zdigits2 (10 ^ n)) <= e).
  { rewrite <- Hc. assert (Hmono : forall a b, a <= b -> fexp prec emax a <= fexp prec emax b)
      by (intros; rewrite !fexp_max; lia). apply Hmono.
    destruct (Zpos m * 5 ^ n) as [|a|a] eqn:Ha; [nia| |nia].
    destruct (10 ^ n) as [|d|d] eqn:Hd; [nia| |nia]. cbn [Zdigits2].
    pose proof (digits_bounds a) as Ba. pose proof (digits_bounds d) as Bd. pose proof (digits_bounds m) as Bm.
    enough (digits a - 1 + n < digits m + digits d) by lia.
    apply (Z.pow_lt_mono_r_iff 2); [lia|lia|]. rewrite (Z.pow_add_r 2 (digits a - 1)), (Z.pow_add_r 2 (digits m)) by lia.
    apply Z.le_lt_trans with (Zpos m * Zpos d).
    - rewrite H10, Z.mul_assoc, Ha. apply Z.mul_le_mono_nonneg_r; lia.
    - apply Z.mul_lt_mono_nonneg; lia. }
  set (E := Z.min _ 0). assert (HEe : E <= e /\ E <= 0) by lia.
  set (m' := match 0 - E with Z0 => _ | _ => _ end).
  assert (Hm' : m' = (Zpos m * 2 ^ (e - E)) * 10 ^ n).
  { assert (m' = Zpos m * 5 ^ n * 2 ^ (- E)) as ->.
    { subst m'. replace (0 - E) with (- E) by lia. destruct (- E) eqn:Heq; [lia| |lia].
      rewrite Z.shiftl_mul_pow2 by lia. done. }
    rewrite H10. replace (- E) with (n + (e - E)) by lia. rewrite Z.pow_add_r by lia. lia. }
  pose proof (Z_div_mod m' (10 ^ n) ltac:(nia)) as Hdm.
  assert (Hq : m' / 10 ^ n = Zpos m * 2 ^ (e - E)) by (rewrite Hm'; apply Z.div_mul; nia).
  assert (Hr : m' mod 10 ^ n = 0) by (rewrite Hm'; apply Z.mod_mul; nia).
  unfold Z.div in Hq. unfold Z.modulo in Hr. destruct (Z.div_eucl m' (10 ^ n)) as [q r]. subst q r.
  rewrite new_location_0. pose proof (pow2_pos (e - E) ltac:(lia)) as Hp.
  destruct (Zpos m * 2 ^ (e - E)) as [|a|a] eqn:Ha; [nia| |nia].
  apply round_exact; [done|lia|lia].
Qed.

Lemma bounded_range m e : bounded prec emax m e = true -> -1074 <= e <= 971 /\ Zpos m < 2 ^ 53.
Proof.
  intros [Hc Hle]%andb_true_iff. apply canonical_cases in Hc as (H1 & H2 & _).
  apply Z.leb_le in Hle. unfold emax, prec in Hle. split; [lia|].
  pose proof (digits_bounds m) as Hb. apply Z.lt_le_trans with (2 ^ digits m); [lia|].
  apply Z.pow_le_mono_r; lia.
Qed.

(** The magnitude of [z], and that [z * 10 ^ e] is in the range the reader computes. *)
Lemma magnitude z e lo hi : 0 < z -> 0 <= lo -> 0 <= hi -> 10 ^ lo <= z -> z < 10 ^ hi ->
  -400 <= lo + e -> hi + e <= 310 ->
  (310 <? len (digits_of_Z z) + e) = false /\ (len (digits_of_Z z) + e <? -400) = false.
Proof.
  intros Hz H0 H1 Hlo Hhi Hl Hh. destruct (digits_of_Z_spec z Hz) as [_ _ [L1 L2] (c & ds & Hd & _)].
  assert (0 < len (digits_of_Z z)) by (rewrite Hd, length_cons; lia). split; apply Z.ltb_ge.
  - enough (len (digits_of_Z z) - 1 < hi) by lia. apply (Z.pow_lt_mono_r_iff 10); lia.
  - enough (lo < len (digits_of_Z z)) by lia. apply (Z.pow_lt_mono_r_iff 10); lia.
Qed.

Lemma exact_decimal_reads m e : bounded prec emax m e = true ->
  let '(s, j) := exact_decimal m e in 0 < s /\ n_of_decimal s j = S754_finite false m e.
Proof.
  intros Hb. destruct (bounded_range m e Hb) as [He Hm]. unfold exact_decimal.
  destruct (Z.leb_spec 0 e) as [H0|H0].
  - pose proof (pow2_pos e H0) as Hp. split; [nia|]. unfold n_of_decimal.
    replace (Zpos m * 2 ^ e =? 0) with false by (symmetry; apply Z.eqb_neq; nia).
    destruct (magnitude (Zpos m * 2 ^ e) 0 0 309) as [-> ->]; try lia.
    { apply Z.lt_trans with (2 ^ 53 * 2 ^ e); [nia|]. rewrite <- Z.pow_add_r by lia.
      apply Z.le_lt_trans with (2 ^ 1024); [apply Z.pow_le_mono_r; lia|done]. }
    change (0 <=? 0) with true. cbn match. rewrite Z.pow_0_r, Z.mul_1_r. unfold n_of_Z.
    apply normalize_exact; [done| |lia]. by rewrite Z.sub_0_r.
  - assert (H5 : 0 < 5 ^ (- e)) by (apply Z.pow_pos_nonneg; lia). split; [nia|]. unfold n_of_decimal.
    replace (Zpos m * 5 ^ (- e) =? 0) with false by (symmetry; apply Z.eqb_neq; nia).
    assert (H10 : 10 ^ (- e) = 5 ^ (- e) * 2 ^ (- e)) by (by rewrite <- Z.pow_mul_l).
    destruct (magnitude (Zpos m * 5 ^ (- e)) e (Z.max 0 (- e - 400)) (- e + 20)) as [-> ->]; try lia.
    { apply Z.max_case_strong; intros; [nia|]. apply Z.le_trans with (5 ^ (- e)); [|nia].
      apply (Z.mul_le_mono_pos_r _ _ (10 ^ 400)); [done|]. rewrite <- Z.pow_add_r by lia.
      replace (- e - 400 + 400) with (- e) by lia. rewrite H10. apply Z.mul_le_mono_nonneg_l; [lia|].
      apply Z.le_trans with (2 ^ 1074); [apply Z.pow_le_mono_r; lia|].
      apply Z.leb_le. vm_compute. reflexivity. }
    { rewrite Z.pow_add_r, H10 by lia. pose proof (pow2_pos (- e) ltac:(lia)).
      assert (2 ^ 53 < 10 ^ 20) by done. nia. }
    replace (0 <=? e) with false by (symmetry; apply Z.leb_gt; lia).
    pose proof (div_core_exact m e Hb H0) as Hd.
    destruct (SFdiv_core_binary _ _ _ _ _ _) as [[mz ez] lz]. exact Hd.
Qed.

(** ** The shortest decimal *)

Lemma n_eqb_finite a s m e : n_eqb a (S754_finite s m e) = true -> a = S754_finite s m e.
Proof.
  unfold n_eqb, SFeqb, SFcompare. destruct a as [s'|[]| |s' m' e']; try done; [by destruct s|].
  destruct s', s; try done; destruct (Z.compare_spec e' e) as [->| |]; try done;
    change (Pos.compare_cont Eq m' m) with (Pos.compare m' m);
    destruct (Pos.compare_spec m' m) as [->| |]; done.
Qed.

Lemma strip_zeros_nonneg f : forall s j, 0 <= s -> 0 <= fst (strip_zeros f s j).
Proof.
  induction f as [|f IH]; intros s j Hs; cbn [strip_zeros]; [done|].
  destruct (_ =? _); [|done]. apply IH. apply Z.div_pos; lia.
Qed.

Lemma reads_as_some x s j r m e : x = S754_finite false m e -> 0 <= s -> reads_as x s j = Some r ->
  0 < fst r /\ n_of_decimal (fst r) (snd r) = x.
Proof.
  intros Hx Hs. unfold reads_as. pose proof (strip_zeros_nonneg 20 s j Hs) as Hn.
  destruct (strip_zeros 20 s j) as [s' j']. cbn [fst] in Hn.
  destruct (n_eqb _ x) eqn:E; [|done]. intros [= <-]. cbn [fst snd]. subst x.
  apply n_eqb_finite in E. split; [|done]. destruct (Z.eq_dec s' 0) as [->|]; [|lia]. done.
Qed.

Lemma shortest_reads f m e p q n : forall k, bounded prec emax m e = true -> 0 < p -> 0 < q ->
  let '(s, j) := shortest f (S754_finite false m e) m e p q n k in
  0 < s /\ n_of_decimal s j = S754_finite false m e.
Proof.
  induction f as [|f IH]; intros k Hb Hp Hq; cbn [shortest]; [by apply exact_decimal_reads|].
  destruct (candidate _ p q n k) as [r|] eqn:Hc; [|by apply IH].
  enough (Hr : 0 < fst r /\ n_of_decimal (fst r) (snd r) = S754_finite false m e) by (by destruct r).
  unfold candidate in Hc. destruct (scaled p q (n - k)) as [p' q'] eqn:Hsc.
  assert (Hlo : 0 <= p' / q').
  { unfold scaled in Hsc. destruct (Z.leb_spec 0 (n - k)); injection Hsc as <- <-.
    - pose proof (pow10_pos (n - k)). apply Z.div_pos; nia.
    - pose proof (pow10_pos (- (n - k))). apply Z.div_pos; nia. }
  set (pl := if _ <? q' then true else _) in Hc. destruct pl;
    (destruct (reads_as _ _ (n - k)) as [r'|] eqn:Hr in Hc;
      [injection Hc as ->; eapply reads_as_some in Hr; eauto; lia
      |eapply reads_as_some in Hc; eauto; lia]).
Qed.

Lemma shortest_digits_spec m e : bounded prec emax m e = true ->
  exists s j, shortest_digits m e = (digits_of_Z s, j + len (digits_of_Z s)) /\
    0 < s /\ n_of_decimal s j = S754_finite false m e.
Proof.
  intros Hb. unfold shortest_digits. destruct (ratio m e) as [p q] eqn:Hr.
  assert (0 < p /\ 0 < q) as [Hp Hq].
  { unfold ratio in Hr. destruct (Z.leb_spec 0 e); injection Hr as <- <-.
    - pose proof (pow2_pos e). split; nia.
    - pose proof (pow2_pos (- e)). split; lia. }
  pose proof (shortest_reads 17 m e p q (decimal_point p q) 1 Hb Hp Hq) as Hs.
  destruct (shortest _ _ _ _ _ _ _ _) as [s j]. by exists s, j.
Qed.

(** ** The shape of a printed number *)

(** A decimal text: integer part, fraction, exponent. *)
Definition decimal_text (ip fp : jsstr) (ex : option Z) : jsstr :=
  ip ++ match fp with [] => [] | _ => 46%N :: fp end
     ++ match ex with None => [] | Some e => 101%N :: exponent_text e end.

Record decimal_shape (ip fp : jsstr) : Prop := {
  shape_ip : forallb is_digit ip = true;
  shape_fp : forallb is_digit fp = true;
  shape_lead : ip = [48%N] \/ exists c t, ip = c :: t /\ c <> 48%N;
}.

Lemma zeros_digits n : forallb is_digit (zeros n) = true.
Proof. unfold zeros. by induction (Z.to_nat n). Qed.

Lemma forallb_take {A} (p : A -> bool) n l : forallb p l = true -> forallb p (take n l) = true.
Proof. intros H. rewrite <- (take_drop n l), forallb_app in H. by apply andb_true_iff in H as [? _]. Qed.

Lemma forallb_drop {A} (p : A -> bool) n l : forallb p l = true -> forallb p (drop n l) = true.
Proof. intros H. rewrite <- (take_drop n l), forallb_app in H. by apply andb_true_iff in H as [_ ?]. Qed.

Lemma format_shape s j : 0 < s ->
  exists ip fp ex,
    format_decimal (digits_of_Z s) (j + len (digits_of_Z s)) = decimal_text ip fp ex /\
    decimal_shape ip fp /\
    n_of_decimal (Z_of_digits (ip ++ fp)) (default 0 ex - len fp) = n_of_decimal s j.
Proof.
  intros Hs. destruct (digits_of_Z_spec s Hs) as [V D _ (c & t & Hd & Hc)].
  set (ds := digits_of_Z s) in *. set (n := j + len ds). unfold format_decimal, decimal_text.
  destruct ((len ds <=? n) && (n <=? 21)) eqn:E1; [|destruct ((0 <? n) && (n <=? 21)) eqn:E2;
    [|destruct ((-6 <? n) && (n <=? 0)) eqn:E3]].
  - apply andb_true_iff in E1 as [H1%Z.leb_le _].
    exists (ds ++ zeros (n - len ds)), [], None. split; [by rewrite !app_nil_r|]. split.
    + split; [by rewrite forallb_app, D, zeros_digits|done|]. right. exists c, (t ++ zeros (n - len ds)).
      by rewrite Hd.
    + unfold zeros. rewrite app_nil_r, Z_of_digits_pad, V, Z2Nat.id by lia. cbn [default length]. 
      replace (n - len ds) with j by lia. apply n_of_decimal_scale; lia.
  - apply andb_true_iff in E2 as [H0%Z.ltb_lt H21%Z.leb_le].
    assert (Hn : n < len ds) by (apply andb_false_iff in E1 as [?%Z.leb_gt|?%Z.leb_gt]; lia).
    exists (take (Z.to_nat n) ds), (drop (Z.to_nat n) ds), None.
    assert (Hl : length (drop (Z.to_nat n) ds) = (length ds - Z.to_nat n)%nat) by apply length_drop.
    split; [|split].
    + rewrite app_nil_r. destruct (drop (Z.to_nat n) ds); [change (length []) with 0%nat in Hl; lia|done].
    + split; [by apply forallb_take|by apply forallb_drop|]. right.
      rewrite Hd. destruct (Z.to_nat n) as [|k] eqn:Hk; [lia|]. by exists c, (take k t).
    + rewrite take_drop, V, Hl. cbn [default]. f_equal. lia.
  - apply andb_true_iff in E3 as [_ H0%Z.leb_le].
    exists [48%N], (zeros (- n) ++ ds), None. split; [|split].
    + rewrite app_nil_r. rewrite Hd. by destruct (zeros (- n)).
    + split; [done| |by left]. by rewrite forallb_app, zeros_digits, D.
    + cbn [app]. change (48%N :: zeros (- n) ++ ds) with (repeat 48%N 1 ++ zeros (- n) ++ ds).
      rewrite Z_of_digits_zeros. unfold zeros. rewrite Z_of_digits_zeros, V, length_app, repeat_length.
      cbn [default]. f_equal. lia.
  - exists [c], t, (Some (n - 1)). split; [|split].
    + unfold mantissa_text. rewrite Hd. by destruct t.
    + rewrite Hd in D. cbn [forallb] in D. apply andb_true_iff in D as [D1 D2].
      split; [by simpl; rewrite D1|done|]. right. by exists c, [].
    + cbn [app]. rewrite <- Hd, V. change (default 0 (Some (n - 1))) with (n - 1). f_equal. subst n. rewrite Hd, length_cons. lia.
Qed.

(** ** Reading the shape back *)

Definition no_digit_head (r : jsstr) : Prop :=
  match r with c :: _ => is_digit c = false | [] => True end.

Lemma span_digits_app a r : forallb is_digit a = true -> no_digit_head r -> span_digits (a ++ r) = (a, r).
Proof.
  intros Ha Hr. induction a as [|c a IH]; cbn [app].
  - destruct r as [|d r]; [done|]. cbn [span_digits]. simpl in Hr. by rewrite Hr.
  - cbn [forallb] in Ha. apply andb_true_iff in Ha as [Hc Ha]. cbn [span_digits].
    by rewrite Hc, (IH Ha).
Qed.

Lemma exponent_text_shape e : exists c ds,
  exponent_text e = c :: ds /\ (c = if e <? 0 then 45%N else 43%N) /\
  forallb is_digit ds = true /\ ds <> [] /\ Z_of_digits ds = Z.abs e.
Proof.
  unfold exponent_text. destruct (digits_of_Z_digits (Z.abs e) (Z.abs_nonneg e)) as (D & V & N).
  by eexists _, _.
Qed.

Lemma read_exponent_text e : read_exponent (101%N :: exponent_text e) = Some e.
Proof.
  destruct (exponent_text_shape e) as (c & ds & -> & -> & D & N & V).
  assert (Hs : span_digits ds = (ds, [])) by (rewrite <- (app_nil_r ds) at 1; by apply span_digits_app).
  cbn [read_exponent]. change (N.eqb 101 101 || N.eqb 101 69)%bool with true. cbn match.
  destruct (Z.ltb_spec e 0).
  - change (N.eqb 45 45) with true. cbn match. rewrite Hs. destruct ds; [done|]. rewrite V. f_equal. lia.
  - change (N.eqb 43 45) with false. change (N.eqb 43 43) with true. cbn match. rewrite Hs.
    destruct ds; [done|]. rewrite V. f_equal. lia.
Qed.

Lemma fraction_no_digit fp ex :
  no_digit_head (match fp with [] => [] | _ => 46%N :: fp end ++
                 match ex with None => [] | Some e => 101%N :: exponent_text e end).
Proof. by destruct fp, ex. Qed.

Lemma exponent_no_digit (ex : option Z) :
  no_digit_head (match ex with None => [] | Some e => 101%N :: exponent_text e end).
Proof. by destruct ex. Qed.

Lemma shape_nonempty ip fp : decimal_shape ip fp -> exists c t, ip = c :: t /\ is_digit c = true.
Proof.
  intros [D _ L]. destruct L as [->|(c & t & -> & _)]; [by exists 48%N, []|].
  cbn [forallb] in D. apply andb_true_iff in D as [Hc _]. by exists c, t.
Qed.

Lemma read_decimal_text ip fp ex : decimal_shape ip fp ->
  read_decimal (decimal_text ip fp ex) =
  Some (n_of_decimal (Z_of_digits (ip ++ fp)) (default 0 ex - len fp)).
Proof.
  intros Hs. destruct (shape_nonempty ip fp Hs) as (c & t & Hip & _). destruct Hs as [D F _].
  unfold read_decimal, decimal_text. rewrite span_digits_app by (done || apply fraction_no_digit).
  assert (He : read_exponent match ex with None => [] | Some e => 101%N :: exponent_text e end
               = Some (default 0 ex)) by (destruct ex; [apply read_exponent_text|done]).
  destruct fp as [|d fp]; cbn [app].
  - replace (match match ex with None => [] | Some e => _ end with [] => _ | _ => _ end)
      with (@nil N, match ex with None => [] | Some e => 101%N :: exponent_text e end) by (by destruct ex).
    rewrite He, app_nil_r, Hip. done.
  - change (N.eqb 46 46) with true. cbn match.
    change (d :: fp ++ ?r) with ((d :: fp) ++ r).
    rewrite span_digits_app by (done || apply exponent_no_digit).
    rewrite He, Hip. done.
Qed.

(** No character of the text is white space. *)
Definition plain_char (c : N) : bool := is_digit c || existsb (N.eqb c) [43; 45; 46; 101]%N.

Lemma plain_not_ws c : plain_char c = true -> is_ws c = false.
Proof.
  intros H. destruct (is_ws c) eqn:W; [|done]. exfalso.
  assert (Hall : forallb (fun n => negb (plain_char (N.of_nat n) && is_ws (N.of_nat n))) (seq 0 128) = true)
    by (vm_compute; reflexivity).
  assert (Hc : (c < 128)%N).
  { unfold plain_char, is_digit, in_range in H. cbn [existsb] in H.
    repeat (apply orb_true_iff in H as [H|H]); bprop; try lia; done. }
  rewrite forallb_forall in Hall. specialize (Hall (N.to_nat c)).
  rewrite N2Nat.id, H, W in Hall. assert (In (N.to_nat c) (seq 0 128)) by (apply in_seq; lia).
  by specialize (Hall H0).
Qed.

Lemma plain_trim s : forallb plain_char s = true -> trim s = s.
Proof.
  intros H. apply trim_id. unfold trimmed.
  assert (Hr : forallb plain_char (rev s) = true)
    by (rewrite forallb_forall in H |- *; intros x Hx; apply H; by apply in_rev).
  apply andb_true_iff. split; [destruct s as [|c s]|destruct (rev s) as [|c r]]; try done;
    cbn [forallb] in *; bprop; by rewrite plain_not_ws.
Qed.

Lemma digits_plain s : forallb is_digit s = true -> forallb plain_char s = true.
Proof. rewrite !forallb_forall. intros H x Hx. unfold plain_char. by rewrite H. Qed.

Lemma decimal_text_plain ip fp ex : decimal_shape ip fp -> forallb plain_char (decimal_text ip fp ex) = true.
Proof.
  intros [D F _]. unfold decimal_text. rewrite !forallb_app, digits_plain by done. cbn [andb].
  apply andb_true_iff. split.
  - destruct fp; [done|]. cbn [forallb]. change (plain_char 46) with true. by apply (digits_plain (_ :: _)).
  - destruct ex as [e|]; [|done]. destruct (exponent_text_shape e) as (c & ds & -> & -> & D' & _).
    cbn [forallb]. change (plain_char 101) with true. rewrite digits_plain by done.
    by destruct (e <? 0).
Qed.

(** The head of the text is a digit, and no radix prefix. *)
Lemma decimal_text_head ip fp ex : decimal_shape ip fp ->
  exists c t, decimal_text ip fp ex = c :: t /\ is_digit c = true /\
    (c = 48%N -> match t with [] => True | d :: _ => d = 46%N \/ d = 101%N end).
Proof.
  intros Hs. destruct (shape_nonempty ip fp Hs) as (c & t & Hip & Hc).
  exists c, (t ++ match fp with [] => [] | _ => 46%N :: fp end ++
                match ex with None => [] | Some e => 101%N :: exponent_text e end).
  unfold decimal_text. rewrite Hip. split; [done|]. split; [done|]. intros ->.
  destruct Hs as [_ _ [H|(c' & t' & H & Hne)]]; rewrite Hip in H; simplify_eq.
  destruct fp; [destruct ex; cbn; auto|cbn; auto].
Qed.

Lemma not_infinity c t : is_digit c = true -> str_eqb (c :: t) (js "Infinity") = false.
Proof.
  intros Hc. change (js "Infinity") with (73%N :: js "nfinity"). cbn [str_eqb].
  destruct (N.eqb_spec c 73) as [->|]; [done|]. done.
Qed.

Lemma number_of_decimal_text ip fp ex : decimal_shape ip fp ->
  number_of_string (decimal_text ip fp ex) =
    n_of_decimal (Z_of_digits (ip ++ fp)) (default 0 ex - len fp) /\
  number_of_string (45%N :: decimal_text ip fp ex) =
    n_neg (n_of_decimal (Z_of_digits (ip ++ fp)) (default 0 ex - len fp)).
Proof.
  intros Hs. pose proof (decimal_text_plain ip fp ex Hs) as Hp.
  pose proof (read_decimal_text ip fp ex Hs) as Hr.
  destruct (decimal_text_head ip fp ex Hs) as (c & t & Ht & Hc & Hz). rewrite Ht in *.
  pose proof (not_infinity c t Hc) as Hi. split; unfold number_of_string.
  - rewrite plain_trim by done.
    replace (match t with [] => None | d :: l => _ end) with (@None (option Z)).
    + replace (N.eqb c 45) with false by (symmetry; apply N.eqb_neq; intros ->; done).
      replace (N.eqb c 43) with false by (symmetry; apply N.eqb_neq; intros ->; done).
      by rewrite Hi, Hr.
    + destruct t as [|d [|d' t]]; try done. destruct (N.eqb_spec c 48) as [E|]; [|done].
      by destruct (Hz E) as [-> | ->].
  - rewrite plain_trim by (change (true && forallb plain_char (c :: t) = true); by rewrite Hp). change (N.eqb 45 48) with false.
    change (N.eqb 45 45) with true. destruct t as [|d t]; cbv beta iota zeta; by rewrite Hi, Hr.
Qed.

(** The text of a binary64 number is a decimal text after its sign. *)
Lemma string_of_finite s m e : valid_num (S754_finite s m e) = true ->
  exists ip fp ex, decimal_shape ip fp /\
    string_of_number (S754_finite s m e) = (if s then js "-" else []) ++ decimal_text ip fp ex /\
    n_of_decimal (Z_of_digits (ip ++ fp)) (default 0 ex - len fp) = S754_finite false m e.
Proof.
  intros Hv. destruct (shortest_digits_spec m e Hv) as (z & j & Hd & Hz & Hn).
  destruct (format_shape z j Hz) as (ip & fp & ex & Hf & Hs & Hval).
  exists ip, fp, ex. split; [done|]. cbn [string_of_number]. rewrite Hd, Hf. split; [done|].
  by rewrite Hval.
Qed.

(** [Number(String(x))] is [x]; the sign of a zero is not printed. *)
Lemma number_round_trip x : valid_num x = true ->
  number_of_string (string_of_number x) = if is_neg_zero x then n_zero else x.
Proof.
  intros Hv. destruct x as [[]|[]| |s m e]; [vm_compute; reflexivity..|].
  destruct (string_of_finite s m e Hv) as (ip & fp & ex & Hs & -> & Hn).
  destruct (number_of_decimal_text ip fp ex Hs) as [H1 H2].
  destruct s; [change (js "-") with [45%N]|]; cbn [app]; rewrite ?H1, ?H2, Hn; done.
Qed.

Lemma n_eqb_refl x : is_nan x = false -> n_eqb x x = true.
Proof.
  unfold n_eqb, SFeqb, SFcompare. destruct x as [|[]| |[] m e]; try done; intros _;
    rewrite Z.compare_refl; change (Pos.compare_cont Eq m m) with (Pos.compare m m);
    by rewrite Pos.compare_refl.
Qed.

(** Read numbers are binary64 numbers. *)
Lemma read_decimal_valid s x : read_decimal s = Some x -> valid_num x = true.
Proof.
  unfold read_decimal. destruct (span_digits s) as [ip r1] eqn:H1.
  assert (Hnn : forall ds, forallb is_digit ds = true -> 0 <= Z_of_digits ds).
  { induction ds as [|c ds IH] using rev_ind; intros Hd; [done|]. rewrite forallb_app in Hd.
    apply andb_true_iff in Hd as [Hd Hc]. specialize (IH Hd). rewrite Z_of_digits_app.
    cbn [forallb] in Hc. unfold is_digit, in_range in Hc. bprop.
    change (Z_of_digits [c]) with (0 * 10 + digit_val c). unfold digit_val. simpl (len [c]). lia. }
  assert (Hsp : forall s ds r, span_digits s = (ds, r) -> forallb is_digit ds = true).
  { clear. induction s as [|c s IH]; intros ds r; cbn [span_digits]; [by intros [= <- <-]|].
    destruct (is_digit c) eqn:E; [|by intros [= <- <-]]. destruct (span_digits s) as [d r'] eqn:H.
    intros [= <- <-]. cbn [forallb]. by rewrite E, (IH _ _ eq_refl). }
  set (fr := match r1 with [] => _ | _ => _ end).
  assert (Hf : forallb is_digit fr.1 = true).
  { subst fr. destruct r1 as [|c r]; [done|]. destruct (N.eqb c 46); [|done].
    destruct (span_digits r) eqn:H. by eapply Hsp. }
  destruct fr as [fp r2]. cbn [fst] in Hf.
  assert (Hall : forallb is_digit (ip ++ fp) = true) by (rewrite forallb_app, Hf, (Hsp _ _ _ H1); done).
  destruct (ip ++ fp) as [|c ds] eqn:Hds; [done|]. destruct (read_exponent r2); [|done].
  intros [= <-]. apply n_of_decimal_valid. by apply Hnn.
Qed.

Lemma n_neg_valid x : valid_num x = true -> valid_num (n_neg x) = true.
Proof. by destruct x. Qed.

Lemma number_of_string_valid s : valid_num (number_of_string s) = true.
Proof.
  unfold number_of_string. destruct (trim s) as [|c s1]; [done|].
  destruct (match s1 with [] => None | _ => _ end) as [[z|]|]; [apply n_of_Z_valid|done|].
  set (nb := if N.eqb c 45 then _ else _). destruct nb as [neg body].
  enough (H : valid_num (if str_eqb body (js "Infinity") then S754_infinity false
    else match read_decimal body with Some x => x | None => S754_nan end) = true)
    by (destruct neg; [by apply n_neg_valid|done]).
  destruct (str_eqb _ _); [done|]. destruct (read_decimal body) eqn:E; [|done]. by eapply read_decimal_valid.
Qed.
