(* ===== verification/JsOrderSpec.v ===== *)
(** * The order of JavaScript numbers

    Every finite number has an exact value, an integer multiple of [2 ^ -1074].  The
    comparison of numbers is that of their values, and the sign of a difference, and
    of a difference times one or minus one, tells which value is larger: comparators
    written as differences sort as intended. *)

From Stdlib Require Import SpecFloat.
From S2P Require Import Prelude JsNumber JsIntSpec.

Local Open Scope Z_scope.

(** A number that is finite and in canonical form. *)
Definition real (x : num) : Prop := is_finite x = true /\ valid_num x = true.

(** The value, scaled by [2 ^ 1074]. *)
Definition value (x : num) : Z :=
  match x with
  | S754_finite s m e => cond_Zopp s (scaled_value m e)
  | _ => 0
  end.

Lemma real_finite s m e :
  real (S754_finite s m e) -> canonical_mantissa prec emax m e = true.
Proof. intros [_ H]. unfold valid_num, valid_binary, bounded in H. by apply andb_true_iff in H as [? _]. Qed.

Lemma scaled_pos m e : -1074 <= e -> 0 < scaled_value m e.
Proof. intros. unfold scaled_value. apply Z.mul_pos_pos; [lia|]. apply Z.pow_pos_nonneg; lia. Qed.

(** ** Comparison *)

(** Of two canonical numbers the one with the larger exponent is larger. *)
Lemma scaled_lt m1 e1 m2 e2 :
  canonical_mantissa prec emax m1 e1 = true -> canonical_mantissa prec emax m2 e2 = true ->
  e1 < e2 -> scaled_value m1 e1 < scaled_value m2 e2.
Proof.
  intros (H1 & Hd1 & _)%canonical_cases (H2 & _ & [->|Hd2])%canonical_cases He; [lia|].
  unfold scaled_value. pose proof (digits_bounds m1) as [_ B1]. pose proof (digits_bounds m2) as [B2 _].
  rewrite Hd2 in B2. assert (2 ^ digits m1 <= 2 ^ 53) by (apply Z.pow_le_mono_r; lia).
  assert (Hp : 0 < 2 ^ (e1 + 1074)) by (apply Z.pow_pos_nonneg; lia).
  assert (Hs : 2 * 2 ^ (e1 + 1074) <= 2 ^ (e2 + 1074)).
  { rewrite <- Z.pow_succ_r by lia. apply Z.pow_le_mono_r; lia. }
  change (53 - 1) with 52 in B2. change (2 ^ 53) with (2 * 2 ^ 52) in *.
  apply Z.lt_le_trans with (2 * 2 ^ 52 * 2 ^ (e1 + 1074)); [apply Z.mul_lt_mono_pos_r; lia|].
  apply Z.le_trans with (2 ^ 52 * 2 ^ (e2 + 1074)); [nia|]. apply Z.mul_le_mono_nonneg_r; lia.
Qed.

Lemma compare_scaled m1 e1 m2 e2 :
  canonical_mantissa prec emax m1 e1 = true -> canonical_mantissa prec emax m2 e2 = true ->
  match Z.compare e1 e2 with
  | Lt => Lt
  | Gt => Gt
  | Eq => Pos.compare_cont Eq m1 m2
  end = Z.compare (scaled_value m1 e1) (scaled_value m2 e2).
Proof.
  intros H1 H2. destruct (Z.compare_spec e1 e2) as [->|He|He].
  - unfold scaled_value. rewrite Z.mul_comm, (Z.mul_comm (Zpos m2)).
    rewrite <- Zmult_compare_compat_l; [done|]. apply Z.lt_gt, Z.pow_pos_nonneg; [lia|].
    apply canonical_cases in H1. lia.
  - symmetry. apply Z.compare_lt_iff. by apply scaled_lt.
  - symmetry. apply Z.compare_gt_iff. by apply scaled_lt.
Qed.

Lemma compare_value x y : real x -> real y -> SFcompare x y = Some (Z.compare (value x) (value y)).
Proof.
  intros Hx Hy.
  destruct x as [s1|s1| |s1 m1 e1]; [|by destruct Hx..|];
    (destruct y as [s2|s2| |s2 m2 e2]; [|by destruct Hy..|]); cbn [SFcompare value].
  - done.
  - apply real_finite, canonical_cases in Hy as [Hy _]. pose proof (scaled_pos m2 e2 Hy).
    f_equal. symmetry. destruct s2; cbn [cond_Zopp]; [apply Z.compare_gt_iff|apply Z.compare_lt_iff]; lia.
  - apply real_finite, canonical_cases in Hx as [Hx _]. pose proof (scaled_pos m1 e1 Hx).
    f_equal. symmetry. destruct s1; cbn [cond_Zopp]; [apply Z.compare_lt_iff|apply Z.compare_gt_iff]; lia.
  - apply real_finite in Hx, Hy. f_equal. pose proof (compare_scaled m1 e1 m2 e2 Hx Hy) as Hc.
    apply canonical_cases in Hx as [Hx _], Hy as [Hy _].
    pose proof (scaled_pos m1 e1 Hx). pose proof (scaled_pos m2 e2 Hy).
    destruct s1, s2; cbn [cond_Zopp].
    + rewrite Z.compare_opp, (Z.compare_antisym (scaled_value m1 e1)), <- Hc.
      by destruct (e1 ?= e2).
    + symmetry. apply Z.compare_lt_iff. lia.
    + symmetry. apply Z.compare_gt_iff. lia.
    + done.
Qed.

Lemma ltb_value x y : real x -> real y -> n_ltb x y = (value x <? value y).
Proof.
  intros Hx Hy. unfold n_ltb, SFltb. rewrite compare_value by done. unfold Z.ltb.
  by destruct (value x ?= value y).
Qed.

Lemma leb_value x y : real x -> real y -> n_leb x y = (value x <=? value y).
Proof.
  intros Hx Hy. unfold n_leb, SFleb. rewrite compare_value by done. unfold Z.leb.
  by destruct (value x ?= value y).
Qed.

(** ** Differences *)

(** A rounded nonzero number keeps its sign, and is canonical or infinite. *)
Definition signed (s : bool) (x : num) : Prop :=
  (exists m e, x = S754_finite s m e /\ canonical_mantissa prec emax m e = true) \/ x = S754_infinity s.

Lemma canonical_intro m e :
  -1074 <= e -> digits m = 53 \/ e = -1074 /\ digits m <= 53 -> canonical_mantissa prec emax m e = true.
Proof. intros. unfold canonical_mantissa, fexp, emin, prec, emax. apply Z.eqb_eq. lia. Qed.

Lemma round_normal_signed s m e :
  53 <= digits m -> -1074 <= digits m + e - 53 ->
  signed s (binary_round_aux prec emax s (Zpos m) e loc_Exact).
Proof.
  intros Hd He. destruct (round_shape s m e Hd He) as (q & E & -> & Hq & HE & _).
  destruct (E <=? 971); [left|by right]. exists q, E. split; [done|].
  apply canonical_intro; [lia|by left].
Qed.

Lemma round_subnormal_signed s m :
  digits m <= 53 -> signed s (binary_round_aux prec emax s (Zpos m) (-1074) loc_Exact).
Proof.
  intros Hd. left. exists m, (-1074). split; [|apply canonical_intro; [lia|by right]].
  assert (Hs : shr_fexp prec emax (Zpos m) (-1074) loc_Exact =
    ({| shr_m := Zpos m; shr_r := false; shr_s := false |}, -1074)).
  { unfold shr_fexp. cbn [Zdigits2]. replace (fexp prec emax (digits m + -1074)) with (-1074)
      by (unfold fexp, emin, prec, emax; lia). done. }
  unfold binary_round_aux. rewrite Hs. cbn [shr_m loc_of_shr_record round_nearest_even].
  rewrite Hs. done.
Qed.

Lemma shl_align_cases m e e' :
  (e <= e' /\ shl_align m e e' = (m, e))
  \/ (e' < e /\ exists m', shl_align m e e' = (m', e') /\ Zpos m' = Zpos m * 2 ^ (e - e')).
Proof.
  unfold shl_align. destruct (e' - e) as [|p|p] eqn:E; [left; split; [lia|done]..|].
  right. split; [lia|]. eexists. split; [done|]. rewrite digits_shift. do 2 f_equal. lia.
Qed.

Lemma binary_round_signed s m e : -1074 <= e -> signed s (binary_round prec emax s m e).
Proof.
  intros He. unfold binary_round.
  assert (Hf : fexp prec emax (digits m + e) = Z.max (digits m + e - 53) (-1074)) by done.
  destruct (shl_align_cases m e (fexp prec emax (digits m + e))) as [[Hl ->]|(Hl & m' & -> & Hm)];
    rewrite Hf in *.
  - destruct (Z.le_gt_cases (-1074) (digits m + e - 53)).
    + apply round_normal_signed; lia.
    + replace e with (-1074) by lia. apply round_subnormal_signed. lia.
  - apply digits_mul_pow in Hm; [|lia].
    destruct (Z.le_gt_cases (-1074) (digits m + e - 53)).
    + apply round_normal_signed; lia.
    + replace (Z.max _ _) with (-1074) in * by lia. apply round_subnormal_signed. lia.
Qed.

(** The difference of two numbers has the sign of the difference of their values. *)
Definition has_sign (z : Z) (x : num) : Prop :=
  match z with
  | Z0 => exists s, x = S754_zero s
  | Zpos _ => signed false x
  | Zneg _ => signed true x
  end.

Lemma has_sign_scale z k x : 0 < k -> has_sign z x -> has_sign (z * k) x.
Proof. intros Hk. destruct z, k; done || lia. Qed.

Lemma normalize_sign z e b : -1074 <= e -> has_sign z (binary_normalize prec emax z e b).
Proof. intros He. destruct z; simpl; [eauto|by apply binary_round_signed..]. Qed.

Lemma finite_sign s m e :
  canonical_mantissa prec emax m e = true -> has_sign (cond_Zopp s (scaled_value m e)) (S754_finite s m e).
Proof.
  intros Hc. pose proof (scaled_pos m e) as Hp. destruct (canonical_cases _ _ Hc) as [He _].
  specialize (Hp He). destruct s; cbn [cond_Zopp]; destruct (scaled_value m e) eqn:E; try lia;
    left; eauto.
Qed.

Lemma sub_sign x y : real x -> real y -> has_sign (value x - value y) (n_sub x y).
Proof.
  intros Hx Hy. unfold n_sub.
  destruct x as [s1|s1| |s1 m1 e1]; [|by destruct Hx..|];
    (destruct y as [s2|s2| |s2 m2 e2]; [|by destruct Hy..|]); cbn [SFsub value].
  - destruct s1, s2; simpl; eauto.
  - apply real_finite in Hy. replace (0 - _) with (cond_Zopp (negb s2) (scaled_value m2 e2))
      by (destruct s2; cbn; lia). by apply finite_sign.
  - apply real_finite in Hx. rewrite Z.sub_0_r. by apply finite_sign.
  - apply real_finite, canonical_cases in Hx as [H1 _], Hy as [H2 _].
    set (ez := Z.min e1 e2).
    replace (cond_Zopp s1 (scaled_value m1 e1) - cond_Zopp s2 (scaled_value m2 e2))
      with ((cond_Zopp s1 (Zpos (fst (shl_align m1 e1 ez)))
             - cond_Zopp s2 (Zpos (fst (shl_align m2 e2 ez)))) * 2 ^ (ez + 1074)).
    { apply has_sign_scale; [apply Z.pow_pos_nonneg; lia|]. apply normalize_sign. lia. }
    rewrite !shl_align_value by lia. unfold scaled_value.
    replace (e1 + 1074) with (e1 - ez + (ez + 1074)) by lia.
    replace (e2 + 1074) with (e2 - ez + (ez + 1074)) by lia.
    rewrite (Z.pow_add_r 2 (e1 - ez)), (Z.pow_add_r 2 (e2 - ez)) by lia.
    destruct s1, s2; cbn [cond_Zopp]; ring.
Qed.

(** ** Comparators *)

(** Multiplying by one or minus one changes the sign at most. *)
Definition unit_sign (dir : bool) : num := n_of_Z (if dir then 1 else -1).

Lemma mul_unit dir s m e :
  canonical_mantissa prec emax m e = true ->
  signed (xorb (negb dir) s) (n_mul (unit_sign dir) (S754_finite s m e)).
Proof.
  intros Hc. destruct (canonical_cases _ _ Hc) as (He & Hd & Hk).
  assert (Hu : unit_sign dir = S754_finite (negb dir) (2 ^ 52)%positive (-52)) by (by destruct dir).
  rewrite Hu. unfold n_mul. cbn [SFmul]. set (m' := ((2 ^ 52) * m)%positive).
  assert (Hm : Zpos m' = Zpos m * 2 ^ 52) by (unfold m'; rewrite Pos2Z.inj_mul; lia).
  pose proof (digits_mul_pow m' m 52 ltac:(lia) Hm) as Hdm.
  destruct Hk as [->|Hk]; [|apply round_normal_signed; lia].
  left. exists m, (-1074). split; [|done].
  assert (Hs : shr_fexp prec emax (Zpos m') (-52 + -1074) loc_Exact =
    ({| shr_m := Zpos m; shr_r := false; shr_s := false |}, -1074)).
  { unfold shr_fexp. cbn [Zdigits2]. rewrite Hdm.
    replace (fexp prec emax (digits m + 52 + (-52 + -1074))) with (-1074)
      by (unfold fexp, emin, prec, emax; lia).
    change (-1074 - (-52 + -1074)) with 52. cbn [shr shr_record_of_loc]. rewrite iter_pos_nat, Hm.
    change (Zpos m * 2 ^ 52) with (Zpos m * 2 ^ Z.of_nat (Pos.to_nat 52)).
    by rewrite shr_iter_exact by lia. }
  assert (Hs' : shr_fexp prec emax (Zpos m) (-1074) loc_Exact =
    ({| shr_m := Zpos m; shr_r := false; shr_s := false |}, -1074)).
  { unfold shr_fexp. cbn [Zdigits2]. replace (fexp prec emax (digits m + -1074)) with (-1074)
      by (unfold fexp, emin, prec, emax; lia). done. }
  unfold binary_round_aux. rewrite Hs. cbn [shr_m loc_of_shr_record round_nearest_even].
  rewrite Hs'. done.
Qed.

Lemma mul_unit_sign (dir : bool) z x :
  has_sign z x -> has_sign (if dir then z else - z) (n_mul (unit_sign dir) x).
Proof.
  assert (Hs : forall s x, signed s x -> signed (xorb (negb dir) s) (n_mul (unit_sign dir) x)).
  { intros s y [(m & e & -> & Hc)| ->]; [by apply mul_unit|]. right. by destruct dir, s. }
  destruct z as [|p|p]; cbn [has_sign].
  - intros [s ->]. destruct dir; simpl; eexists; reflexivity.
  - intros H%Hs. by destruct dir.
  - intros H%Hs. by destruct dir.
Qed.

Lemma has_sign_gt z x : has_sign z x -> n_gtb x n_zero = (0 <? z).
Proof.
  destruct z; cbn [has_sign]; [by intros [[] ->]| |];
    intros [(m & e & -> & _)| ->]; done.
Qed.

(** A comparator [dir * (a - b)] is positive exactly when the value of [a] comes after
    that of [b] in its direction. *)
Lemma difference_gt (dir : bool) x y : real x -> real y ->
  n_gtb (n_mul (unit_sign dir) (n_sub x y)) n_zero
  = if dir then value y <? value x else value x <? value y.
Proof.
  intros Hx Hy. pose proof (sub_sign x y Hx Hy) as Hs.
  apply (mul_unit_sign dir), has_sign_gt in Hs. rewrite Hs.
  destruct dir; apply eq_true_iff_eq; rewrite !Z.ltb_lt; lia.
Qed.
