(* ===== verification/JsRegex.v ===== *)
(** * Regular expressions

    The modelled sources recognise literals, rules and labels with regular
    expressions.  [rmatch] is the backtracking matcher of ECMA-262 in
    continuation-passing style: alternatives in order, greedy quantifiers, an
    iteration of a star that consumes nothing is rejected, captures inside a
    star are reset at each iteration.  [rmatches] is the language a pattern
    denotes; the matcher is sound and complete for it. *)

From S2P Require Import Prelude JsString.

Inductive re : Type :=
| REps
| RChar (p : N -> bool)
| RCat (a b : re)
| RAlt (a b : re)
| RStar (a : re)
| RGroup (n : nat) (a : re)
| RBack (n : nat)
| REnd.

(** ** Derived forms *)
Definition RNone : re := RChar (fun _ => false).
Definition ROpt (a : re) : re := RAlt a REps.
Definition RPlus (a : re) : re := RCat a (RStar a).
Fixpoint RStr (s : jsstr) : re :=
  match s with [] => REps | c :: s' => RCat (RChar (N.eqb c)) (RStr s') end.
Definition RLit (s : string) : re := RStr (js s).
Fixpoint RSeq (l : list re) : re :=
  match l with [] => REps | [a] => a | a :: l' => RCat a (RSeq l') end.
Fixpoint ROr (l : list re) : re :=
  match l with [] => RNone | [a] => a | a :: l' => RAlt a (ROr l') end.
(** A class given by its members. *)
Definition RSet (s : string) : re := RChar (fun c => existsb (N.eqb c) (js s)).

(** ** Matching *)
Record mstate := MState { rest : jsstr; caps : list (nat * jsstr) }.

Fixpoint groups (r : re) : list nat :=
  match r with
  | RCat a b | RAlt a b => groups a ++ groups b
  | RStar a => groups a
  | RGroup n a => n :: groups a
  | _ => []
  end.

Definition reset_caps (ns : list nat) (st : mstate) : mstate :=
  MState (rest st)
    (filter (fun nc => negb (existsb (Nat.eqb nc.1) ns) = true) (caps st)).

Definition set_cap (n : nat) (from st : mstate) : mstate :=
  MState (rest st)
    ((n, take (length (rest from) - length (rest st)) (rest from)) :: caps st).

Definition get_cap (n : nat) (st : mstate) : option jsstr :=
  assoc_get Nat.eqb n (caps st).

(** The greedy star: [m] matches one iteration, [k] is what follows. *)
Definition star_loop (m : mstate -> (mstate -> option mstate) -> option mstate)
    (ns : list nat) (k : mstate -> option mstate) : nat -> mstate -> option mstate :=
  fix loop (fuel : nat) (st : mstate) {struct fuel} : option mstate :=
    match fuel with
    | O => k st
    | S f =>
        match
          m (reset_caps ns st)
            (fun st' =>
               if Nat.ltb (length (rest st')) (length (rest st))
               then loop f st' else None)
        with
        | Some x => Some x
        | None => k st
        end
    end.

Fixpoint rmatch (r : re) (st : mstate) (k : mstate -> option mstate) {struct r}
  : option mstate :=
  match r with
  | REps => k st
  | RChar p =>
      match rest st with
      | c :: s => if p c then k (MState s (caps st)) else None
      | [] => None
      end
  | RCat a b => rmatch a st (fun st' => rmatch b st' k)
  | RAlt a b =>
      match rmatch a st k with
      | Some x => Some x
      | None => rmatch b st k
      end
  | RStar a =>
      star_loop (rmatch a) (groups a) k (length (rest st)) st
  | RGroup n a => rmatch a st (fun st' => k (set_cap n st st'))
  | RBack n =>
      let s := default [] (get_cap n st) in
      if starts_with s (rest st) then k (MState (drop (length s) (rest st)) (caps st))
      else None
  | REnd => match rest st with [] => k st | _ :: _ => None end
  end.

(** A match of [/^r/] against [s]. *)
Definition re_exec (r : re) (s : jsstr) : option mstate :=
  rmatch r (MState s []) Some.

(** The text [/^r/] matched. *)
Definition re_prefix (r : re) (s : jsstr) : option jsstr :=
  match re_exec r s with
  | Some st => Some (take (length s - length (rest st)) s)
  | None => None
  end.

(** [/^r$/.test(s)] *)
Definition re_test (r : re) (s : jsstr) : bool :=
  match re_exec (RCat r REnd) s with Some _ => true | None => false end.

(** [s.replaceAll(/r/g, by)] for a pattern that matches no empty string. *)
Fixpoint re_replace_all (fuel : nat) (r : re) (by_ : jsstr) (s : jsstr) : jsstr :=
  match fuel, s with
  | O, _ => s
  | _, [] => []
  | S f, c :: s' =>
      match re_exec r s with
      | Some st => by_ ++ re_replace_all f r by_ (rest st)
      | None => c :: re_replace_all f r by_ s'
      end
  end.
Definition replace_all (r : re) (by_ s : jsstr) : jsstr :=
  re_replace_all (length s) r by_ s.

(** ** The language of a pattern *)
Inductive rmatches : re -> mstate -> mstate -> Prop :=
| m_eps st : rmatches REps st st
| m_char p c s cs : p c = true -> rmatches (RChar p) (MState (c :: s) cs) (MState s cs)
| m_cat a b st1 st2 st3 :
    rmatches a st1 st2 -> rmatches b st2 st3 -> rmatches (RCat a b) st1 st3
| m_alt_l a b st st' : rmatches a st st' -> rmatches (RAlt a b) st st'
| m_alt_r a b st st' : rmatches b st st' -> rmatches (RAlt a b) st st'
| m_star_nil a st : rmatches (RStar a) st st
| m_star_cons a st1 st2 st3 :
    rmatches a (reset_caps (groups a) st1) st2 ->
    length (rest st2) < length (rest st1) ->
    rmatches (RStar a) st2 st3 -> rmatches (RStar a) st1 st3
| m_group n a st st' : rmatches a st st' -> rmatches (RGroup n a) st (set_cap n st st')
| m_back n st s :
    s = default [] (get_cap n st) -> starts_with s (rest st) = true ->
    rmatches (RBack n) st (MState (drop (length s) (rest st)) (caps st))
| m_end cs : rmatches REnd (MState [] cs) (MState [] cs).

#[export] Hint Constructors rmatches : billing.

(** Soundness: a match of [r] followed by the continuation goes through a state
    the language of [r] reaches. *)
Lemma rmatch_sound r st k x :
  rmatch r st k = Some x -> exists st', rmatches r st st' /\ k st' = Some x.
Proof.
  revert st k x. induction r; intros st k x H; simpl in H.
  - eauto with billing.
  - destruct st as [[|c s] cs]; simpl in *; [done|].
    destruct (p c) eqn:E; [|done]. eauto with billing.
  - apply IHr1 in H as (st1 & H1 & H). apply IHr2 in H as (st2 & H2 & H).
    eauto with billing.
  - destruct (rmatch r1 st k) eqn:E; simplify_eq.
    + apply IHr1 in E as (? & ? & ?). eauto with billing.
    + apply IHr2 in H as (? & ? & ?). eauto with billing.
  - revert H. generalize (length (rest st)) as fuel. intros fuel.
    revert st. induction fuel as [|f IHf]; intros st H; simpl in H;
      [eauto with billing|].
    match type of H with match ?x with _ => _ end = _ => destruct x eqn:E end;
      [|eauto with billing].
    simplify_eq. apply IHr in E as (st1 & H1 & H2).
    destruct (Nat.ltb_spec (length (rest st1)) (length (rest st))); [|done].
    apply IHf in H2 as (st2 & H2 & H3). eauto with billing.
  - apply IHr in H as (st' & H1 & H2). eauto with billing.
  - destruct (starts_with _ _) eqn:E; [|done]. eexists; split; [|done]. by constructor.
  - destruct st as [[|] ?]; simpl in *; [|done]. eauto with billing.
Qed.

(** Matching only consumes: the remaining input is a suffix. *)
Lemma rmatches_suffix r st st' :
  rmatches r st st' -> exists w, rest st = w ++ rest st'.
Proof.
  induction 1 as [| | ????? _ [w1 H1] _ [w2 H2]| | | |????? [w1 H1] ?? [w2 H2]| | |];
    simpl in *; try (by exists []); try done.
  - by exists [c].
  - exists (w1 ++ w2). by rewrite H1, H2, app_assoc.
  - exists (w1 ++ w2). by rewrite H1, H2, app_assoc.
  - exists s. destruct (starts_with_inv _ _ H0) as [t ->]. by rewrite drop_app_length.
Qed.

Lemma rmatches_length r st st' :
  rmatches r st st' -> length (rest st') <= length (rest st).
Proof. intros [w ->]%rmatches_suffix. rewrite length_app. lia. Qed.

(** Completeness: if some match of [r] lets the continuation succeed, the
    matcher finds a match. *)
Lemma star_loop_complete a k st st' :
  (forall st st' k, rmatches a st st' -> is_Some (k st') -> is_Some (rmatch a st k)) ->
  rmatches (RStar a) st st' -> is_Some (k st') ->
  forall fuel, length (rest st) <= fuel ->
  is_Some (star_loop (rmatch a) (groups a) k fuel st).
Proof.
  intros IHa Hm Hk. remember (RStar a) as r eqn:Hr.
  induction Hm as [| | | | |a' st|a' st1 st2 st3 H1 IH1 Hlt H2 IH2| | |]; simplify_eq.
  - intros [|f] Hf; simpl; [done|]. destruct (rmatch a _ _); [by eexists|done].
  - intros [|f] Hf; simpl; [lia|].
    set (k' := fun st' : mstate => if Nat.ltb _ _ then _ else _).
    destruct (IHa _ _ k' H1) as [x ->]; [|by eexists].
    subst k'; simpl. apply Nat.ltb_lt in Hlt as E. rewrite E.
    apply IH2; try done. lia.
Qed.

Lemma rmatch_complete r st st' k :
  rmatches r st st' -> is_Some (k st') -> is_Some (rmatch r st k).
Proof.
  revert st st' k. induction r; intros st st' k H Hk.
  5: { simpl. eapply star_loop_complete; eauto. }
  all: inversion H; subst; simpl; eauto.
  - by match goal with E : p _ = true |- _ => rewrite E end.
  - match goal with H : rmatches r1 _ _ |- _ => destruct (IHr1 _ _ k H Hk) as [x ->] end.
    by eexists.
  - destruct (rmatch r1 st k); [by eexists|]. eauto.
  - by match goal with E : starts_with _ _ = true |- _ => rewrite E end.
Qed.

Lemma re_test_iff r s :
  re_test r s = true <-> exists cs, rmatches r (MState s []) (MState [] cs).
Proof.
  unfold re_test, re_exec. split.
  - destruct (rmatch _ _ _) eqn:E; [|done]. intros _.
    apply rmatch_sound in E as (st & H & _).
    inversion H as [| |? ? ? st2 ? H1 H2| | | | | | |]; subst.
    inversion H2; subst. eauto.
  - intros [cs H].
    destruct (rmatch_complete (RCat r REnd) (MState s []) (MState [] cs) Some) as [x ->];
      [|by eexists|done].
    eapply m_cat; [done|constructor].
Qed.

(** The text a match consumed is a prefix of the input. *)
Lemma re_prefix_split r s w :
  re_prefix r s = Some w -> exists t, s = w ++ t.
Proof.
  unfold re_prefix, re_exec. destruct (rmatch _ _ _) as [st|] eqn:E; [|done].
  intros [= <-]. by exists (drop (length s - length (rest st)) s); rewrite take_drop.
Qed.

(** ** Shortest match

    A lower bound on the length of a match, used to show that a scanner that
    matches a pattern makes progress. *)
Fixpoint min_len (r : re) : nat :=
  match r with
  | RChar _ => 1
  | RCat a b => min_len a + min_len b
  | RAlt a b => Nat.min (min_len a) (min_len b)
  | RGroup _ a => min_len a
  | _ => 0
  end.

Lemma rmatches_min_len r st st' :
  rmatches r st st' -> min_len r + length (rest st') <= length (rest st).
Proof.
  intros H. pose proof (rmatches_length _ _ _ H) as Hl.
  induction H; simpl in *; try lia.
  all: repeat match goal with
    | H : rmatches _ _ _ |- _ => apply rmatches_length in H
    end; lia.
Qed.

Lemma re_prefix_min_len r s w : re_prefix r s = Some w -> min_len r <= length w.
Proof.
  unfold re_prefix, re_exec. destruct (rmatch _ _ _) as [st|] eqn:E; [|done].
  intros [= <-]. apply rmatch_sound in E as (st' & H & [= ->]).
  apply rmatches_min_len in H. simpl in H. rewrite length_take. lia.
Qed.
