(* ===== verification/JsValue.v ===== *)
(** * JavaScript values and the host

    The values a request body, a usage record or an expression can hold, JSON
    text, and the parts of the browser the sources call but do not define. *)

From S2P Require Import Prelude JsString JsNumber.

(** Values of JSON shape, with [undefined].  An object is the list of its own
    enumerable properties in enumeration order. *)
Inductive jsval : Type :=
| VUndef
| VNull
| VBool (b : bool)
| VNum (x : num)
| VStr (s : jsstr)
| VArr (l : list jsval)
| VObj (o : list (jsstr * jsval)).

(** Induction through arrays and objects. *)
Lemma jsval_rect_members (P : jsval -> Prop) :
  P VUndef -> P VNull -> (forall b, P (VBool b)) -> (forall x, P (VNum x)) ->
  (forall s, P (VStr s)) ->
  (forall l, Forall P l -> P (VArr l)) ->
  (forall o, Forall (fun p => P p.2) o -> P (VObj o)) ->
  forall v, P v.
Proof.
  intros HU HN HB HX HS HA HO. fix IH 1.
  intros [| |b|x|s|l|o]; [exact HU|exact HN|apply HB|apply HX|apply HS| |].
  - apply HA. induction l as [|v l IHl]; constructor; [apply IH|exact IHl].
  - apply HO. induction o as [|[k v] o IHo]; constructor; [apply IH|exact IHo].
Qed.

Definition prop_get (k : jsstr) (o : list (jsstr * jsval)) : option jsval :=
  assoc_get str_eqb k o.

(** The array index a property name spells: those come first in enumeration, in
    ascending order. *)
Definition array_index (k : jsstr) : option Z :=
  match k with
  | [] => None
  | _ =>
      if forallb is_digit k then
        let z := Z_of_digits k in
        if (str_eqb (digits_of_Z z) k && (z <? 2 ^ 32 - 1)%Z)%bool then Some z else None
      else None
  end.

(** A new property [a] is enumerated before the property [b]. *)
Definition key_before (a b : jsstr) : bool :=
  match array_index a, array_index b with
  | Some x, Some y => (x <? y)%Z
  | Some _, None => true
  | None, _ => false
  end.

(** [o\[k\] = v]: an existing property keeps its place; a new one goes where the
    enumeration order has it. *)
Fixpoint prop_set {V} (k : jsstr) (v : V) (o : list (jsstr * V)) : list (jsstr * V) :=
  match o with
  | [] => [(k, v)]
  | (k', v') :: o' =>
      if str_eqb k k' then (k', v) :: o'
      else if key_before k k' then (k, v) :: o
      else (k', v') :: prop_set k v o'
  end.

(** [delete o\[k\]] *)
Definition prop_delete {V} (k : jsstr) (o : list (jsstr * V)) : list (jsstr * V) :=
  List.filter (fun p => negb (str_eqb k p.1)) o.

(** [a === b].  Two objects are never compared by the modelled code. *)
Definition strict_eqb (a b : jsval) : bool :=
  match a, b with
  | VUndef, VUndef | VNull, VNull => true
  | VBool x, VBool y => Bool.eqb x y
  | VNum x, VNum y => n_eqb x y
  | VStr x, VStr y => str_eqb x y
  | _, _ => false
  end.

(** [v == null] *)
Definition is_nullish (v : jsval) : bool :=
  match v with VUndef | VNull => true | _ => false end.

(** [typeof v === 'object'] of a value that is not null. *)
Definition is_object (v : jsval) : bool :=
  match v with VArr _ | VObj _ => true | _ => false end.

(** [Boolean(v)] *)
Definition truthy (v : jsval) : bool :=
  match v with
  | VUndef | VNull => false
  | VBool b => b
  | VNum x => negb (n_eqb x n_zero || is_nan x)
  | VStr s => truthy_str s
  | VArr _ | VObj _ => true
  end.

(** Whether a value converts to a string: an own property [toString] of a JSON object is
    no function, and the conversion throws. *)
Fixpoint converts (v : jsval) : bool :=
  match v with
  | VObj o => negb (existsb (fun p => str_eqb p.1 (js "toString")) o)
  | VArr l => forallb converts l
  | _ => true
  end.

(** ** The host

    [lower_unicode] is [toLowerCase] of a string that has a non-ASCII unit;
    [intl_zone z] is [None] when [new Intl.DateTimeFormat(_, {timeZone: z})]
    throws and the zone of [resolvedOptions()] otherwise; [intl_parts z t] is
    what [formatToParts] lists, as pairs of part type and value, for the
    options of [timeInBillingZone] at the instant [t] (milliseconds);
    [throw_message] is the message of the engine's own TypeError; [host_now] is
    the clock [new Date()] reads. *)
Class Host := {
  lower_unicode : jsstr -> jsstr;
  intl_zone : jsstr -> option jsstr;
  intl_parts : jsstr -> Z -> list (jsstr * jsstr);
  throw_message : jsstr;
  host_now : Z;
}.

Definition to_lower `{Host} (s : jsstr) : jsstr :=
  if forallb is_ascii s then map ascii_lower s else lower_unicode s.

(** A host with no time-zone database: every zone is refused. *)
Definition plain_host : Host := {|
  lower_unicode s := s;
  intl_zone _ := None;
  intl_parts _ _ := [];
  throw_message := js "TypeError";
  host_now := 0;
|}.

(** ** JSON text *)

Definition hex_digit (n : N) : N := if N.ltb n 10 then (48 + n)%N else (87 + n)%N.
Definition unicode_escape (c : N) : jsstr :=
  [92; 117; hex_digit (c / 4096 mod 16); hex_digit (c / 256 mod 16);
   hex_digit (c / 16 mod 16); hex_digit (c mod 16)]%N.

Definition is_high_surrogate (c : N) : bool := in_range 55296 56319 c.
Definition is_low_surrogate (c : N) : bool := in_range 56320 57343 c.

Definition quote_unit (c : N) : jsstr :=
  if N.eqb c 34 then [92; 34]%N
  else if N.eqb c 92 then [92; 92]%N
  else if N.eqb c 8 then [92; 98]%N
  else if N.eqb c 12 then [92; 102]%N
  else if N.eqb c 10 then [92; 110]%N
  else if N.eqb c 13 then [92; 114]%N
  else if N.eqb c 9 then [92; 116]%N
  else if N.ltb c 32 then unicode_escape c
  else [c].

(** A literal in which apostrophes stand for double quotes. *)
Definition jq (s : string) : jsstr := map (fun c => if N.eqb c 39 then 34%N else c) (js s).

Fixpoint quote_units (s : jsstr) : jsstr :=
  match s with
  | [] => []
  | c :: s' =>
      if is_high_surrogate c then
        match s' with
        | d :: s'' =>
            if is_low_surrogate d then c :: d :: quote_units s''
            else unicode_escape c ++ quote_units s'
        | [] => unicode_escape c
        end
      else if is_low_surrogate c then unicode_escape c ++ quote_units s'
      else quote_unit c ++ quote_units s'
  end.

(** [JSON.stringify(s)] of a string. *)
Definition json_quote (s : jsstr) : jsstr := 34%N :: quote_units s ++ [34%N].

(** [JSON.parse] *)
Definition json_ws (c : N) : bool := existsb (N.eqb c) [9; 10; 13; 32]%N.
Fixpoint skip_json_ws (s : jsstr) : jsstr :=
  match s with c :: s' => if json_ws c then skip_json_ws s' else s | [] => [] end.

Fixpoint json_string (fuel : nat) (s : jsstr) : option (jsstr * jsstr) :=
  match fuel with
  | O => None
  | S f =>
      match s with
      | [] => None
      | c :: s1 =>
          if N.eqb c 34 then Some ([], s1)
          else if N.ltb c 32 then None
          else if N.eqb c 92 then
            match s1 with
            | [] => None
            | e :: s2 =>
                if N.eqb e 117 then
                  let h := take 4 s2 in
                  if Nat.eqb (length h) 4 && forallb is_hex h then
                    let! (t, r) := json_string f (drop 4 s2) in
                    Some (N_of_hex h :: t, r)
                  else None
                else
                  let! u :=
                    assoc_get N.eqb e
                      [(34, 34); (92, 92); (47, 47); (98, 8); (102, 12);
                       (110, 10); (114, 13); (116, 9)]%N in
                  let! (t, r) := json_string f s2 in
                  Some (u :: t, r)
            end
          else
            let! (t, r) := json_string f s1 in
            Some (c :: t, r)
      end
  end.

(** The number grammar of JSON: no leading zero, digits on both sides of the
    point. *)
Definition json_fraction (s : jsstr) : option (jsstr * jsstr) :=
  match s with
  | c :: r =>
      if N.eqb c 46 then
        let '(f, r') := span_digits r in
        match f with [] => None | _ => Some (f, r') end
      else Some ([], s)
  | [] => Some ([], s)
  end.

Definition json_exponent (s : jsstr) : option (Z * jsstr) :=
  match s with
  | c :: r =>
      if N.eqb c 101 || N.eqb c 69 then
        let '(sg, r1) :=
          match r with
          | d :: r' => if N.eqb d 45 then ((-1)%Z, r')
                       else if N.eqb d 43 then (1%Z, r') else (1%Z, r)
          | [] => (1%Z, r)
          end in
        let '(ed, r2) := span_digits r1 in
        match ed with [] => None | _ => Some ((sg * Z_of_digits ed)%Z, r2) end
      else Some (0%Z, s)
  | [] => Some (0%Z, s)
  end.

Definition json_magnitude (s : jsstr) : option (num * jsstr) :=
  let '(ip, s2) := span_digits s in
  match ip with
  | [] => None
  | d :: ds =>
      if N.eqb d 48 && negb (Nat.eqb (length ds) 0) then None
      else
        let! (fp, s3) := json_fraction s2 in
        let! (e, s4) := json_exponent s3 in
        Some (n_of_decimal (Z_of_digits (ip ++ fp)) (e - Z.of_nat (length fp)), s4)
  end.

Definition json_number (s : jsstr) : option (num * jsstr) :=
  match s with
  | c :: s' =>
      if N.eqb c 45 then let! (v, r) := json_magnitude s' in Some (n_neg v, r)
      else json_magnitude s
  | [] => json_magnitude s
  end.

Fixpoint json_value (fuel : nat) (s : jsstr) : option (jsval * jsstr) :=
  match fuel with
  | O => None
  | S f =>
      let s := skip_json_ws s in
      if starts_with (js "null") s then Some (VNull, drop 4 s)
      else if starts_with (js "true") s then Some (VBool true, drop 4 s)
      else if starts_with (js "false") s then Some (VBool false, drop 5 s)
      else
        match s with
        | [] => None
        | c :: s1 =>
            if N.eqb c 34 then
              let! (t, r) := json_string (S (length s1)) s1 in
              Some (VStr t, r)
            else if N.eqb c 91 then json_array f s1 true []
            else if N.eqb c 123 then json_object f s1 true []
            else let! (x, r) := json_number s in Some (VNum x, r)
        end
  end
with json_array (fuel : nat) (s : jsstr) (first : bool) (acc : list jsval)
  : option (jsval * jsstr) :=
  match fuel with
  | O => None
  | S f =>
      match skip_json_ws s with
      | [] => None
      | c :: s1 =>
          if N.eqb c 93 && first then Some (VArr [], s1)
          else
            let! (v, r) := json_value f (c :: s1) in
            match skip_json_ws r with
            | d :: r' =>
                if N.eqb d 44 then json_array f r' false (acc ++ [v])
                else if N.eqb d 93 then Some (VArr (acc ++ [v]), r')
                else None
            | [] => None
            end
      end
  end
with json_object (fuel : nat) (s : jsstr) (first : bool) (acc : list (jsstr * jsval))
  : option (jsval * jsstr) :=
  match fuel with
  | O => None
  | S f =>
      match skip_json_ws s with
      | [] => None
      | c :: s1 =>
          if N.eqb c 125 && first then Some (VObj [], s1)
          else if N.eqb c 34 then
            let! (k, r) := json_string (S (length s1)) s1 in
            match skip_json_ws r with
            | d :: r1 =>
                if N.eqb d 58 then
                  let! (v, r2) := json_value f r1 in
                  let acc' := prop_set k v acc in
                  match skip_json_ws r2 with
                  | x :: r3 =>
                      if N.eqb x 44 then json_object f r3 false acc'
                      else if N.eqb x 125 then Some (VObj acc', r3)
                      else None
                  | [] => None
                  end
                else None
            | [] => None
            end
          else None
      end
  end.

(** [None] when [JSON.parse] throws.  Every call consumes a character, so the
    length bounds the recursion. *)
Definition json_parse (s : jsstr) : option jsval :=
  match json_value (S (2 * length s)) s with
  | Some (v, r) => match skip_json_ws r with [] => Some v | _ => None end
  | None => None
  end.

(** [String(v)] *)
Fixpoint string_of_value (v : jsval) : jsstr :=
  match v with
  | VUndef => js "undefined"
  | VNull => js "null"
  | VBool b => if b then js "true" else js "false"
  | VNum x => string_of_number x
  | VStr s => s
  | VArr l =>
      join (js ",")
        (map (fun x => match x with VUndef | VNull => [] | _ => string_of_value x end) l)
  | VObj _ => js "[object Object]"
  end.

Example json_parse_ex :
  json_parse (jq "{'a': [1, -2.5e1, 'x\ny', null], 'b':true}") =
  Some (VObj [(js "a", VArr [VNum (n_of_Z 1); VNum (n_of_Z (-25));
                             VStr (js "x" ++ [10%N] ++ js "y"); VNull]);
              (js "b", VBool true)]).
Proof. vm_compute. reflexivity. Qed.


(** [Number(v)]; an object is converted through its string. *)
Definition number_of_value (v : jsval) : num :=
  match v with
  | VUndef => SpecFloat.S754_nan
  | VNull => n_zero
  | VBool b => if b then n_of_Z 1 else n_zero
  | VNum x => x
  | VStr s => number_of_string s
  | VArr _ | VObj _ => number_of_string (string_of_value v)
  end.
