(* ===== verification/JsJson.v ===== *)
(** * JSON text

    [JSON.stringify] of a value, and that [JSON.parse] gives the value back: numbers
    by [JsPrintSpec], strings with their escapes, objects in enumeration order. *)

From Stdlib Require Import SpecFloat.
From S2P Require Import Prelude JsString JsNumber JsPrintSpec JsValue.

(** The text of a value inside an array: [undefined] and the numbers that are not
    finite are [null]. *)
Fixpoint json_text (v : jsval) : jsstr :=
  match v with
  | VUndef | VNull => js "null"
  | VBool b => if b then js "true" else js "false"
  | VNum x => if is_finite x then string_of_number x else js "null"
  | VStr s => json_quote s
  | VArr l => 91%N :: join (js ",") (map json_text l) ++ [93%N]
  | VObj o =>
      123%N :: join (js ",")
        (flat_map (fun p => match p.2 with
                            | VUndef => []
                            | _ => [json_quote p.1 ++ 58%N :: json_text p.2]
                            end) o) ++ [125%N]
  end.

(** [JSON.stringify(v)]; [None] is [undefined]. *)
Definition json_stringify (v : jsval) : option jsstr :=
  match v with VUndef => None | _ => Some (json_text v) end.

(** ** Objects *)

Section props.
Context {V : Type}.
Implicit Types (k : jsstr) (v : V) (o : list (jsstr * V)).

Lemma prop_get_set k k' v o :
  assoc_get str_eqb k (prop_set k' v o) = if str_eqb k k' then Some v else assoc_get str_eqb k o.
Proof.
  induction o as [|[k2 v2] o IH]; cbn [prop_set assoc_get]; [done|].
  destruct (str_eqb k' k2) eqn:E2; cbn [assoc_get].
  - apply str_eqb_eq in E2 as ->. by destruct (str_eqb k k2).
  - destruct (key_before k' k2); cbn [assoc_get]; [done|]. rewrite IH.
    destruct (str_eqb k k2) eqn:E; [|done]. apply str_eqb_eq in E as ->.
    by rewrite str_eqb_sym, E2.
Qed.

Lemma prop_get_delete k k' o :
  assoc_get str_eqb k (prop_delete k' o) = if str_eqb k k' then None else assoc_get str_eqb k o.
Proof.
  unfold prop_delete. induction o as [|[k2 v2] o IH]; cbn [List.filter assoc_get fst].
  { by destruct (str_eqb k k'). }
  destruct (str_eqb k' k2) eqn:E2; cbn [negb assoc_get].
  - rewrite IH. apply str_eqb_eq in E2 as ->. by destruct (str_eqb k k2).
  - rewrite IH. destruct (str_eqb k k2) eqn:E; [|done]. apply str_eqb_eq in E as ->.
    by rewrite str_eqb_sym, E2.
Qed.

(** Properties are listed once each, in enumeration order. *)
Fixpoint enumerated (l : list jsstr) : bool :=
  match l with
  | [] => true
  | k :: l' => forallb (fun k' => negb (str_eqb k k') && negb (key_before k' k)) l' && enumerated l'
  end.

Definition object_ok o : bool := enumerated (map fst o).

(** A property enumerated after all others is added at the end. *)
Lemma prop_set_last k v o :
  forallb (fun k' => negb (str_eqb k' k) && negb (key_before k k')) (map fst o) = true ->
  prop_set k v o = o ++ [(k, v)].
Proof.
  induction o as [|[k' v'] o IH]; cbn [prop_set map forallb fst]; [done|]. intros H.
  apply andb_true_iff in H as [[Hn%negb_true_iff Hb%negb_true_iff]%andb_true_iff H].
  rewrite str_eqb_sym, Hn, Hb. simpl. by rewrite IH.
Qed.

Lemma enumerated_app l k : enumerated (l ++ [k]) = true <->
  enumerated l = true /\ forallb (fun k' => negb (str_eqb k' k) && negb (key_before k k')) l = true.
Proof.
  induction l as [|k' l IH]; cbn [app enumerated forallb]; [done|].
  rewrite forallb_app. cbn [forallb]. rewrite !andb_true_iff, IH. tauto.
Qed.

Lemma prop_keys_set k v o k' : In k' (map fst (prop_set k v o)) <-> k' = k \/ In k' (map fst o).
Proof.
  induction o as [|[k2 v2] o IH]; cbn [prop_set map In fst]; [intuition|].
  destruct (str_eqb k k2) eqn:E; cbn [map In fst].
  - apply str_eqb_eq in E as ->. intuition.
  - destruct (key_before k k2); cbn [map In fst]; [intuition|]. rewrite IH. intuition.
Qed.

Lemma key_before_trans a b c : key_before a b = true -> key_before b c = true -> key_before a c = true.
Proof.
  unfold key_before. destruct (array_index a), (array_index b), (array_index c); try done.
  rewrite !Z.ltb_lt. lia.
Qed.

Lemma array_index_inj a b z : array_index a = Some z -> array_index b = Some z -> a = b.
Proof.
  assert (H : forall k, array_index k = Some z -> digits_of_Z z = k).
  { intros k Hk. unfold array_index in Hk. destruct k; [done|]. destruct (forallb _ _); [|done].
    destruct (str_eqb _ _ && _)%bool eqn:E; [|done]. injection Hk as <-. bprop. by apply str_eqb_eq. }
  intros Ha Hb. by rewrite <- (H a Ha), <- (H b Hb).
Qed.

(** Two properties are enumerated one way or the other, or in the order of insertion. *)
Lemma key_before_total a b c :
  key_before a b = true -> key_before c b = false -> str_eqb b c = false -> key_before a c = true.
Proof.
  unfold key_before. intros H1 H2 H3. destruct (array_index a) as [x|] eqn:Ea; [|done].
  destruct (array_index b) as [y|] eqn:Eb, (array_index c) as [z|] eqn:Ec; try done.
  apply Z.ltb_lt in H1. apply Z.ltb_ge in H2. apply Z.ltb_lt.
  destruct (Z.eq_dec y z) as [->|]; [|lia].
  by rewrite (array_index_inj b c z Eb Ec), str_eqb_refl in H3.
Qed.

Lemma object_ok_set k v o : object_ok o = true -> object_ok (prop_set k v o) = true.
Proof.
  unfold object_ok. induction o as [|[k2 v2] o IH]; cbn [prop_set map fst]; [done|].
  intros Ho. pose proof Ho as Ho'. cbn [enumerated] in Ho. apply andb_true_iff in Ho as [Hf Ho].
  rewrite forallb_forall in Hf.
  destruct (str_eqb k k2) eqn:E; [done|]. destruct (key_before k k2) eqn:B; cbn [map fst].
  - cbn [enumerated]. apply andb_true_iff. split; [|exact Ho'].
    apply forallb_forall. intros k' Hk'. apply andb_true_iff.
    assert (Hb : k' = k2 \/ key_before k k' = true).
    { destruct Hk' as [<-|Hk']; [by left|right]. specialize (Hf k' Hk'). bprop. by eapply key_before_total. }
    destruct Hb as [->|Hb].
    + rewrite E. split; [done|]. destruct (key_before k2 k) eqn:B2; [|done].
      pose proof (key_before_trans _ _ _ B B2) as Hi. unfold key_before in Hi.
      destruct (array_index k); [|done]. apply Z.ltb_lt in Hi. lia.
    + assert (Hirr : forall a, key_before a a = false).
      { intros a. unfold key_before. destruct (array_index a); [|done]. apply Z.ltb_irrefl. }
      split; apply negb_true_iff.
      * destruct (str_eqb k k') eqn:Ek; [|done]. apply str_eqb_eq in Ek as ->. by rewrite Hirr in Hb.
      * destruct (key_before k' k) eqn:B2; [|done].
        pose proof (key_before_trans _ _ _ Hb B2) as Hi. by rewrite Hirr in Hi.
  - cbn [enumerated]. apply andb_true_iff. split; [|by apply IH].
    apply forallb_forall. intros k' Hk'%prop_keys_set. destruct Hk' as [->|Hk']; [|by apply Hf].
    by rewrite str_eqb_sym, E, B.
Qed.

Lemma object_ok_delete k o : object_ok o = true -> object_ok (prop_delete k o) = true.
Proof.
  unfold object_ok, prop_delete. induction o as [|[k2 v2] o IH]; cbn [map List.filter fst]; [done|].
  cbn [enumerated]. rewrite andb_true_iff. intros [Hf Ho]. destruct (str_eqb k k2); cbn [negb map fst]; [by apply IH|].
  cbn [enumerated]. apply andb_true_iff. split; [|by apply IH]. rewrite forallb_forall in Hf |- *.
  intros k' Hk'. apply Hf. apply in_map_iff in Hk' as ([? ?] & <- & [Hk' _]%filter_In).
  by apply (in_map fst) in Hk'.
Qed.

Lemma assoc_get_none_keys k (o : list (jsstr * V)) : str_mem k (map fst o) = false -> assoc_get str_eqb k o = None.
Proof.
  unfold str_mem. induction o as [|[k' v] o IH]; cbn [map existsb assoc_get fst]; [done|].
  intros [-> H]%orb_false_iff. by apply IH.
Qed.

Lemma enumerated_fresh k (v : V) o : object_ok ((k, v) :: o) = true ->
  assoc_get str_eqb k o = None /\ object_ok o = true.
Proof.
  unfold object_ok. cbn [map enumerated fst]. intros [Hf Ho]%andb_true_iff. split; [|done].
  apply assoc_get_none_keys. unfold str_mem. apply existsb_false_iff. intros k' Hin.
  rewrite forallb_forall in Hf. specialize (Hf k' Hin). by bprop.
Qed.
End props.

(** ** Reading the text back *)

Definition number_stop (r : jsstr) : Prop :=
  match r with
  | c :: _ => is_digit c = false /\ existsb (N.eqb c) [46; 101; 69]%N = false
  | [] => True
  end.

Lemma number_stop_head r : number_stop r -> no_digit_head r.
Proof. destruct r; [done|]. by intros [? _]. Qed.

(** What follows the mantissa of a decimal text. *)
Definition exponent_part (ex : option Z) : jsstr :=
  match ex with None => [] | Some e => 101%N :: exponent_text e end.

Lemma exponent_part_head ex r : number_stop r -> no_digit_head (exponent_part ex ++ r).
Proof. destruct ex; [done|]. apply number_stop_head. Qed.

Lemma json_exponent_text ex r : number_stop r -> json_exponent (exponent_part ex ++ r) = Some (default 0%Z ex, r).
Proof.
  intros Hr. unfold json_exponent, exponent_part. destruct ex as [e|]; cbn [app].
  - change (N.eqb 101 101 || N.eqb 101 69)%bool with true. cbn match.
    destruct (exponent_text_shape e) as (x & ds & -> & -> & Dd & Nd & Vd). cbn [app].
    pose proof (span_digits_app ds r Dd (number_stop_head r Hr)) as Hsp.
    destruct (Z.ltb_spec e 0); [change (N.eqb 45 45) with true
      |change (N.eqb 43 45) with false; change (N.eqb 43 43) with true];
      cbn match; rewrite Hsp; (destruct ds; [done|]); rewrite Vd; do 2 f_equal; simpl; lia.
  - destruct r as [|x r]; [done|]. destruct Hr as [_ Hr]. cbn [existsb] in Hr. bprop.
    by replace (N.eqb x 101 || N.eqb x 69)%bool with false
      by (symmetry; apply orb_false_iff; by split; apply N.eqb_neq).
Qed.

Lemma json_fraction_text fp ex r : forallb is_digit fp = true -> number_stop r ->
  json_fraction (match fp with [] => [] | _ => 46%N :: fp end ++ exponent_part ex ++ r) =
  Some (fp, exponent_part ex ++ r).
Proof.
  intros F Hr. destruct fp as [|d fp]; cbn [app].
  - destruct (exponent_part ex ++ r) as [|x y] eqn:Ex; [done|]. cbn [json_fraction].
    replace (N.eqb x 46) with false; [done|]. symmetry. apply N.eqb_neq. intros ->.
    destruct ex; [done|]. cbn [exponent_part app] in Ex. subst r. by destruct Hr.
  - cbn [json_fraction]. change (N.eqb 46 46) with true. cbn match.
    change (d :: fp ++ ?s) with ((d :: fp) ++ s).
    by rewrite span_digits_app by (done || by apply exponent_part_head).
Qed.

Lemma json_magnitude_text ip fp ex r : decimal_shape ip fp -> number_stop r ->
  json_magnitude (decimal_text ip fp ex ++ r) =
  Some (n_of_decimal (Z_of_digits (ip ++ fp)) (default 0 ex - Z.of_nat (length fp))%Z, r).
Proof.
  intros Hs Hr. destruct (shape_nonempty ip fp Hs) as (c & t & Hip & _). destruct Hs as [D F L].
  unfold json_magnitude, decimal_text. fold (exponent_part ex). rewrite <- !app_assoc.
  rewrite span_digits_app; [|done|by destruct fp; [apply exponent_part_head|]].
  rewrite Hip at 1. cbn match. replace (N.eqb c 48 && negb (Nat.eqb (length t) 0))%bool with false.
  - by rewrite json_fraction_text, json_exponent_text.
  - symmetry. destruct L as [L|(c' & t' & L & Hne)]; rewrite Hip in L; simplify_eq; [done|].
    apply andb_false_iff. left. by apply N.eqb_neq.
Qed.

(** Numbers read back, whatever follows that is no part of a number. *)
Lemma json_number_text x r : valid_num x = true -> is_finite x = true -> number_stop r ->
  json_number (string_of_number x ++ r) = Some (if is_neg_zero x then n_zero else x, r).
Proof.
  intros Hv Hf Hr. destruct x as [s|s| |s m e]; try done.
  - change (string_of_number (S754_zero s)) with (decimal_text [48%N] [] None). unfold json_number.
    cbn [decimal_text app]. change (N.eqb 48 45) with false. cbn match.
    change (48%N :: r) with (decimal_text [48%N] [] None ++ r).
    rewrite json_magnitude_text; [by destruct s| |done]. by split; [..|left].
  - destruct (string_of_finite s m e Hv) as (ip & fp & ex & Hs & -> & Hn).
    pose proof (json_magnitude_text ip fp ex r Hs Hr) as Hm. rewrite Hn in Hm. unfold json_number.
    destruct s; [change (js "-") with [45%N]|]; cbn [app].
    + change (N.eqb 45 45) with true. cbn match. by rewrite Hm.
    + destruct (decimal_text_head ip fp ex Hs) as (c & t & Ht & Hc & _). rewrite Ht in *. cbn [app] in *.
      replace (N.eqb c 45) with false by (symmetry; apply N.eqb_neq; intros ->; done). done.
Qed.

(** ** Strings *)

Lemma hex_digit_spec n : (n < 16)%N -> is_hex (hex_digit n) = true /\ hex_val (hex_digit n) = n.
Proof.
  intros Hn. assert (Hall : forallb (fun i => is_hex (hex_digit (N.of_nat i)) &&
      N.eqb (hex_val (hex_digit (N.of_nat i))) (N.of_nat i)) (seq 0 16) = true) by (vm_compute; reflexivity).
  rewrite forallb_forall in Hall. specialize (Hall (N.to_nat n)). rewrite N2Nat.id in Hall.
  rewrite andb_true_iff, N.eqb_eq in Hall. apply Hall. apply in_seq. lia.
Qed.

Lemma json_string_escape f c t : (c < 65536)%N ->
  json_string (S f) (unicode_escape c ++ t) = let! (u, r) := json_string f t in Some (c :: u, r).
Proof.
  intros Hc. unfold unicode_escape. cbn [app json_string].
  change (N.eqb 92 34) with false. change (N.ltb 92 32) with false. change (N.eqb 92 92) with true.
  change (N.eqb 117 117) with true. cbn match.
  assert (Hlt : forall a, (a mod 16 < 16)%N) by (intros a; apply N.mod_lt; lia).
  destruct (hex_digit_spec _ (Hlt (c / 4096)%N)) as [X1 V1]. destruct (hex_digit_spec _ (Hlt (c / 256)%N)) as [X2 V2].
  destruct (hex_digit_spec _ (Hlt (c / 16)%N)) as [X3 V3]. destruct (hex_digit_spec _ (Hlt c)) as [X4 V4].
  cbn [firstn skipn length forallb]. rewrite X1, X2, X3, X4. change (Nat.eqb 4 4) with true. cbn [andb].
  replace (N_of_hex _) with c; [done|]. unfold N_of_hex. rewrite take_0. cbn [fold_left]. rewrite V1, V2, V3, V4.
  assert (c / 16 / 16 = c / 256 /\ c / 256 / 16 = c / 4096 /\ c / 4096 / 16 = 0)%N as (E1 & E2 & E3).
  { rewrite !N.Div0.div_div. change (16 * 16)%N with 256%N. change (256 * 16)%N with 4096%N.
    change (4096 * 16)%N with 65536%N. rewrite (N.div_small c 65536) by exact Hc. done. }
  pose proof (N.div_mod c 16 ltac:(lia)) as D0. pose proof (N.div_mod (c / 16) 16 ltac:(lia)) as D1.
  pose proof (N.div_mod (c / 256) 16 ltac:(lia)) as D2. pose proof (N.div_mod (c / 4096) 16 ltac:(lia)) as D3.
  rewrite E1 in D1. rewrite E2 in D2. rewrite E3 in D3.
  revert D0 D1 D2 D3. clear. generalize (c mod 16)%N, (c / 16 mod 16)%N, (c / 256 mod 16)%N, (c / 4096 mod 16)%N.
  generalize (c / 16)%N, (c / 256)%N, (c / 4096)%N. intros. lia.
Qed.

Lemma json_string_plain f c t : (32 <= c)%N -> c <> 34%N -> c <> 92%N ->
  json_string (S f) (c :: t) = let! (u, r) := json_string f t in Some (c :: u, r).
Proof.
  intros H1 H2 H3. cbn [json_string].
  replace (N.eqb c 34) with false by (symmetry; by apply N.eqb_neq).
  replace (N.ltb c 32) with false by (symmetry; by apply N.ltb_ge).
  by replace (N.eqb c 92) with false by (symmetry; by apply N.eqb_neq).
Qed.

(** Each unit of the text takes one step of the reader. *)
Lemma quote_unit_reads f c t : is_high_surrogate c = false -> is_low_surrogate c = false ->
  json_string (S f) (quote_unit c ++ t) = let! (u, r) := json_string f t in Some (c :: u, r).
Proof.
  intros _ _. unfold quote_unit.
  repeat match goal with |- context [N.eqb c ?k] => destruct (N.eqb_spec c k) as [->|]; [done|] end.
  destruct (N.ltb_spec c 32); [apply json_string_escape; lia|]. by apply json_string_plain.
Qed.

Lemma quote_unit_length c : 1 <= length (quote_unit c).
Proof. unfold quote_unit. repeat (case_match; simpl; try lia). Qed.

Lemma surrogate_plain c : (is_high_surrogate c || is_low_surrogate c)%bool = true ->
  (c < 65536)%N /\ (32 <= c)%N /\ c <> 34%N /\ c <> 92%N.
Proof.
  unfold is_high_surrogate, is_low_surrogate, in_range. intros H.
  apply orb_true_iff in H as [H|H]; bprop; lia.
Qed.

Lemma json_string_units n : forall s f r, length s <= n -> length (quote_units s) < f ->
  json_string f (quote_units s ++ 34%N :: r) = Some (s, r).
Proof.
  induction n as [|n IH]; intros [|c s] f r Hn Hf; try (simpl in Hn; lia);
    (destruct f as [|f]; [lia|]); [done|done|]. cbn [quote_units] in *. cbn [length] in Hn.
  destruct (is_high_surrogate c) eqn:Hh.
  - destruct (surrogate_plain c) as (H1 & H2 & H3 & H4); [by rewrite Hh|].
    destruct s as [|d s].
    { cbn [length] in Hf. rewrite json_string_escape by done. 
      destruct f as [|f]; [simpl in Hf; lia|]. done. }
    destruct (is_low_surrogate d) eqn:Hd.
    + destruct (surrogate_plain d) as (D1 & D2 & D3 & D4); [by rewrite Hd, orb_true_r|].
      cbn [app length] in *. rewrite json_string_plain by done. destruct f as [|f]; [lia|].
      rewrite json_string_plain by done. rewrite IH; [done|lia|lia].
    + rewrite length_app in Hf. rewrite <- app_assoc, json_string_escape, IH; [done|cbn [length] in *; lia| |done].
      cbn [unicode_escape length] in Hf. lia.
  - destruct (is_low_surrogate c) eqn:Hl.
    + destruct (surrogate_plain c) as (H1 & _); [by rewrite Hl, orb_true_r|].
      rewrite length_app in Hf. rewrite <- app_assoc, json_string_escape, IH; [done|lia| |done].
      cbn [unicode_escape length] in Hf. lia.
    + rewrite length_app in Hf. pose proof (quote_unit_length c).
      rewrite <- app_assoc, quote_unit_reads, IH; [done|lia|lia|done|done].
Qed.

(** A quoted string reads back. *)
Lemma json_string_quote s r : json_string (S (length (quote_units s ++ 34%N :: r))) (quote_units s ++ 34%N :: r) = Some (s, r).
Proof. apply (json_string_units (length s)); [done|]. rewrite length_app. lia. Qed.

(** ** Values *)

(** Decide the comparisons of a character with constants. *)
Ltac decide_chars :=
  repeat match goal with |- context [N.eqb ?c ?k] => destruct (N.eqb_spec c k); [exfalso; lia|] end.

(** The values that JSON text can carry: no [undefined], finite numbers, no minus
    zero, objects with their properties in enumeration order. *)
Fixpoint json_ok (v : jsval) : bool :=
  match v with
  | VUndef => false
  | VNull | VBool _ | VStr _ => true
  | VNum x => valid_num x && is_finite x && negb (is_neg_zero x)
  | VArr l => forallb json_ok l
  | VObj o => object_ok o && forallb (fun p => json_ok p.2) o
  end.

(** Fuel the reader needs. *)
Fixpoint json_need (v : jsval) : nat :=
  match v with
  | VArr l => 2 + list_sum (map (fun x => S (json_need x)) l)
  | VObj o => 2 + list_sum (map (fun p => S (json_need p.2)) o)
  | _ => 1
  end.

(** Characters that a value does not start with. *)
Definition value_head (c : N) : bool := negb (existsb (N.eqb c) [9; 10; 13; 32; 44; 93; 125]%N).

Lemma digit_value_head c : is_digit c = true -> value_head c = true.
Proof.
  unfold is_digit, in_range, value_head. intros H. bprop. cbn [existsb].
  decide_chars. done.
Qed.

Lemma number_text_head x : valid_num x = true -> is_finite x = true ->
  exists c t, string_of_number x = c :: t /\ (c = 45%N \/ is_digit c = true).
Proof.
  intros Hv Hf. destruct x as [s|s| |s m e]; try done; [by exists 48%N, []; auto|].
  destruct (string_of_finite s m e Hv) as (ip & fp & ex & Hs & -> & _).
  destruct (decimal_text_head ip fp ex Hs) as (c & t & -> & Hc & _).
  destruct s; [by exists 45%N, (c :: t); auto|by exists c, t; auto].
Qed.

Lemma json_text_head v : json_ok v = true -> exists c t, json_text v = c :: t /\ value_head c = true.
Proof.
  destruct v as [| |[]|x|s|l|o]; try done; cbn [json_ok json_text]; intros Hok; try by eexists _, _.
  apply andb_true_iff in Hok as [[Hv Hf]%andb_true_iff _]. rewrite Hf. destruct (number_text_head x) as (c & t & -> & Hc); [done|done|].
  exists c, t. split; [done|]. destruct Hc as [->|Hc]; [done|by apply digit_value_head].
Qed.

Lemma skip_value_head c t : value_head c = true -> skip_json_ws (c :: t) = c :: t.
Proof.
  unfold value_head. cbn [existsb]. intros H. bprop. cbn [skip_json_ws]. unfold json_ws. cbn [existsb].
  decide_chars. done.
Qed.

(** The reader on the text of [v], before anything that does not continue a number. *)
Definition reads_value (v : jsval) : Prop :=
  forall f r, json_need v <= f -> number_stop r -> json_value f (json_text v ++ r) = Some (v, r).

Lemma json_value_number f x r : valid_num x = true -> is_finite x = true -> is_neg_zero x = false ->
  number_stop r -> json_value (S f) (string_of_number x ++ r) = Some (VNum x, r).
Proof.
  intros Hv Hf Hn Hr. pose proof (json_number_text x r Hv Hf Hr) as Hj. rewrite Hn in Hj.
  destruct (number_text_head x Hv Hf) as (c & t & Ht & Hc). rewrite Ht in *. cbn [app] in *.
  assert (Hh : value_head c = true) by (destruct Hc as [->|Hc]; [done|by apply digit_value_head]).
  cbn [json_value]. rewrite skip_value_head by done.
  assert (Hne : forall k, (57 < k)%N \/ k = 34%N -> N.eqb c k = false).
  { intros k Hk. apply N.eqb_neq. intros ->. destruct Hc as [->|Hc]; [destruct Hk; lia|].
    unfold is_digit, in_range in Hc. bprop. lia. }
  change (js "null") with (110%N :: js "ull"). change (js "true") with (116%N :: js "rue").
  change (js "false") with (102%N :: js "alse"). cbn [starts_with].
  rewrite (N.eqb_sym 110), (N.eqb_sym 116), (N.eqb_sym 102), !Hne by (by auto || (left; lia)). cbn [andb].
  by rewrite Hj.
Qed.

Lemma join_app sep (x : jsstr) l r : l <> [] -> join sep (x :: l) ++ r = x ++ sep ++ join sep l ++ r.
Proof. destruct l; [done|]. intros _. cbn [join]. by rewrite <- !app_assoc. Qed.

Lemma json_array_text l : Forall reads_value l -> forallb json_ok l = true -> forall f first acc r,
  list_sum (map (fun x => S (json_need x)) l) < f -> l <> [] ->
  json_array f (join (js ",") (map json_text l) ++ 93%N :: r) first acc = Some (VArr (acc ++ l), r).
Proof.
  induction 1 as [|v l Hv _ IH]; [done|]. intros Hok f first acc r Hf _.
  cbn [forallb] in Hok. apply andb_true_iff in Hok as [Hokv Hok].
  unfold list_sum in Hf. cbn [map foldr] in Hf. destruct f as [|f]; [lia|].
  destruct (json_text_head v Hokv) as (c & t & Ht & Hc).
  assert (H93 : N.eqb c 93 = false) by (apply N.eqb_neq; intros ->; done).
  destruct l as [|w l].
  - cbn [map join]. cbn [json_array]. pose proof (Hv f (93%N :: r) ltac:(lia) ltac:(done)) as Hr.
    rewrite Ht in *. cbn [app] in *. rewrite skip_value_head by done. rewrite H93. cbn [andb].
    rewrite Hr. done.
  - cbn [map]. rewrite join_app by done. cbn [json_array].
    pose proof (Hv f (44%N :: join (js ",") (map json_text (w :: l)) ++ 93%N :: r) ltac:(lia) ltac:(done)) as Hr.
    change (js "," ++ ?x) with (44%N :: x). rewrite Ht in *. cbn [app] in *.
    rewrite skip_value_head by done. rewrite H93. cbn [andb]. cbn [map] in Hr. rewrite Hr.
    change (skip_json_ws (44%N :: ?x)) with (44%N :: x). change (N.eqb 44 44) with true. cbn match.
    specialize (IH Hok f false (acc ++ [v]) r). cbn [map] in IH. rewrite IH; [|unfold list_sum in *; cbn [map foldr] in *; lia|done].
    by rewrite <- app_assoc.
Qed.

Definition member_text (p : jsstr * jsval) : jsstr := json_quote p.1 ++ 58%N :: json_text p.2.

Lemma json_members o : forallb (fun p => json_ok p.2) o = true ->
  flat_map (fun p : jsstr * jsval => match p.2 with
                     | VUndef => []
                     | _ => [json_quote p.1 ++ 58%N :: json_text p.2]
                     end) o = map member_text o.
Proof.
  induction o as [|[k v] o IH]; cbn [forallb flat_map map snd fst]; [done|]. intros [Hv Ho]%andb_true_iff.
  rewrite IH by done. by destruct v.
Qed.

Lemma skip_ws_quote t : skip_json_ws (34%N :: t) = 34%N :: t.
Proof. done. Qed.

(** One member of an object. *)
Lemma json_object_member f first acc k v r :
  reads_value v -> json_ok v = true -> json_need v <= f -> number_stop r ->
  json_object (S f) (member_text (k, v) ++ r) first acc =
  match skip_json_ws r with
  | x :: r3 =>
      if N.eqb x 44 then json_object f r3 false (prop_set k v acc)
      else if N.eqb x 125 then Some (VObj (prop_set k v acc), r3)
      else None
  | [] => None
  end.
Proof.
  intros Hv Hok Hf Hr. unfold member_text, json_quote. cbn [fst snd].
  rewrite <- !app_assoc. cbn [app]. rewrite <- app_assoc. cbn [app]. cbn [json_object]. rewrite skip_ws_quote.
  change (N.eqb 34 125) with false. change (N.eqb 34 34) with true. cbn [andb]. cbn match.
  rewrite json_string_quote. change (skip_json_ws (58%N :: ?t)) with (58%N :: t). 
  change (N.eqb 58 58) with true. cbn match. by rewrite (Hv f r Hf Hr).
Qed.

Lemma json_object_text o : Forall (fun p => reads_value p.2) o -> forallb (fun p => json_ok p.2) o = true ->
  forall f first acc r, list_sum (map (fun p => S (json_need p.2)) o) < f -> o <> [] ->
  object_ok (acc ++ o) = true ->
  json_object f (join (js ",") (map member_text o) ++ 125%N :: r) first acc = Some (VObj (acc ++ o), r).
Proof.
  induction 1 as [|[k v] o Hv _ IH]; [done|]. intros Hok f first acc r Hf _ Ho.
  cbn [forallb snd] in Hok. apply andb_true_iff in Hok as [Hokv Hok].
  unfold list_sum in Hf. cbn [map foldr snd] in Hf, Hv. destruct f as [|f]; [lia|].
  assert (Hset : prop_set k v acc = acc ++ [(k, v)]).
  { apply prop_set_last. unfold object_ok in Ho. rewrite map_app in Ho. cbn [map fst] in Ho.
    rewrite (cons_middle k), app_assoc in Ho. 
    assert (H : forall a b, enumerated (a ++ b) = true -> enumerated a = true).
    { clear. induction a as [|x a IHa]; [done|]. intros b. cbn [app enumerated]. rewrite forallb_app.
      rewrite !andb_true_iff. intros [[H1 _] H2]. eauto. }
    apply H in Ho. by apply enumerated_app in Ho as [_ ?]. }
  destruct o as [|[k' v'] o].
  - cbn [map join]. rewrite json_object_member; [|done..|lia|done]. cbn. by rewrite Hset.
  - cbn [map]. rewrite join_app by done. rewrite json_object_member; [|done..|lia|done].
    change (skip_json_ws (js "," ++ ?x)) with (44%N :: x). cbv iota. change (N.eqb 44 44) with true. cbv iota.
    rewrite Hset. specialize (IH Hok f false (acc ++ [(k, v)]) r). cbn [map] in IH. rewrite IH.
    + by rewrite <- app_assoc.
    + unfold list_sum. cbn [map foldr snd] in *. lia.
    + done.
    + by rewrite <- app_assoc.
Qed.

Lemma json_reads v : json_ok v = true -> reads_value v.
Proof.
  induction v as [| | | | |l IH|o IH] using jsval_rect_members; intros Hok; try done;
    intros f r Hf Hr; (destruct f as [|f]; [cbn [json_need] in Hf; lia|]).
  - done.
  - by destruct b.
  - cbn [json_ok json_text] in *. apply andb_true_iff in Hok as [[Hv Hfin]%andb_true_iff Hz%negb_true_iff].
    rewrite Hfin. by apply json_value_number.
  - cbn [json_text]. unfold json_quote. cbn [app]. rewrite <- app_assoc. cbn [app json_value].
    rewrite skip_ws_quote. change (starts_with _ (34%N :: _)) with false. cbv iota.
    change (N.eqb 34 34) with true. cbv iota. by rewrite json_string_quote.
  - cbn [json_text json_need json_ok app] in *. rewrite <- app_assoc. cbn [app json_value].
    change (skip_json_ws (91%N :: ?t)) with (91%N :: t).
    change (starts_with _ (91%N :: _)) with false. cbv iota. change (N.eqb 91 34) with false.
    change (N.eqb 91 91) with true. cbv iota.
    assert (HF : Forall reads_value l).
    { rewrite List.Forall_forall in IH |- *. rewrite forallb_forall in Hok. auto. }
    destruct l as [|w l]; [by destruct f; [lia|]|]. rewrite json_array_text; [done|done|done|lia|done].
  - cbn [json_text json_need json_ok app] in *. apply andb_true_iff in Hok as [Ho Hok].
    rewrite json_members by done. rewrite <- app_assoc. cbn [app json_value].
    change (skip_json_ws (123%N :: ?t)) with (123%N :: t).
    change (starts_with _ (123%N :: _)) with false. cbv iota. change (N.eqb 123 34) with false.
    change (N.eqb 123 91) with false. change (N.eqb 123 123) with true. cbv iota.
    assert (HF : Forall (fun p => reads_value p.2) o).
    { rewrite List.Forall_forall in IH |- *. rewrite forallb_forall in Hok. auto. }
    destruct o as [|[k w] o]; [by destruct f; [lia|]|]. rewrite json_object_text; [done|done|done|lia|done|done].
Qed.

(** The fuel of [json_parse] is enough for its own text. *)
Lemma join_length sep (l : list jsstr) : l <> [] ->
  length (join sep l) + length sep = list_sum (map (fun x => length x + length sep) l).
Proof.
  induction l as [|x l IH]; [done|]. intros _. unfold list_sum in *. cbn [map foldr].
  destruct l as [|y l]; [cbn; lia|]. specialize (IH ltac:(done)). cbn [map foldr] in IH.
  change (join sep (x :: y :: l)) with (x ++ sep ++ join sep (y :: l)). rewrite !length_app.
  cbn [map foldr]. lia.
Qed.

Lemma list_sum_le {A} (g h : A -> nat) l : Forall (fun x => g x <= h x) l ->
  list_sum (map g l) <= list_sum (map h l).
Proof. induction 1; unfold list_sum in *; cbn [map foldr]; lia. Qed.

Lemma list_sum_double {A} (g : A -> nat) l : list_sum (map (fun x => 2 * g x) l) = 2 * list_sum (map g l).
Proof. induction l as [|x l IH]; unfold list_sum in *; cbn [map foldr]; lia. Qed.

Lemma json_need_bound v : json_ok v = true -> json_need v <= 2 * length (json_text v).
Proof.
  induction v as [| |b|x|s|l IH|o IH] using jsval_rect_members; intros Hok; try done;
    try (destruct (json_text_head _ Hok) as (c & t & -> & _); cbn [json_need length]; lia).
  - cbn [json_ok json_need json_text length] in *. rewrite length_app. cbn [length].
    destruct l as [|w l]; [cbn; lia|]. pose proof (join_length (js ",") (map json_text (w :: l)) ltac:(done)) as Hj.
    rewrite map_map in Hj. change (length (js ",")) with 1 in Hj.
    enough (list_sum (map (fun x => S (json_need x)) (w :: l)) <=
            list_sum (map (fun x => 2 * (length (json_text x) + 1)) (w :: l)))
      by (rewrite list_sum_double in *; lia).
    apply list_sum_le. rewrite List.Forall_forall in IH |- *. rewrite forallb_forall in Hok.
    intros x Hx. specialize (IH x Hx (Hok x Hx)). lia.
  - cbn [json_ok json_need json_text length] in *. apply andb_true_iff in Hok as [_ Hok].
    rewrite json_members by done. rewrite length_app. cbn [length].
    destruct o as [|w o]; [cbn; lia|].
    pose proof (join_length (js ",") (map member_text (w :: o)) ltac:(done)) as Hj.
    rewrite map_map in Hj. change (length (js ",")) with 1 in Hj.
    enough (list_sum (map (fun x => S (json_need x.2)) (w :: o)) <=
            list_sum (map (fun x => 2 * (length (member_text x) + 1)) (w :: o)))
      by (rewrite list_sum_double in *; lia).
    apply list_sum_le. rewrite List.Forall_forall in IH |- *. rewrite forallb_forall in Hok.
    intros x Hx. specialize (IH x Hx (Hok x Hx)). unfold member_text. rewrite length_app. cbn [length]. lia.
Qed.

(** [JSON.parse(JSON.stringify(v))] is [v]. *)
Lemma json_round_trip v : json_ok v = true -> json_parse (json_text v) = Some v.
Proof.
  intros Hok. unfold json_parse. pose proof (json_need_bound v Hok) as Hn.
  pose proof (json_reads v Hok (S (2 * length (json_text v))) [] ltac:(lia) I) as Hr.
  rewrite app_nil_r in Hr. by rewrite Hr.
Qed.

Example json_round_trip_ex :
  json_text (VObj [(js "10", VNum (n_of_Z 1)); (js "a", VArr [VNum (n_of_decimal 15 (-1)); VStr (js "x/" ++ [34; 10; 55296]%N)])])
  = jq "{'10':1,'a':[1.5,'x/\'\n\ud800']}".
Proof. vm_compute. reflexivity. Qed.
