(* ===== verification/JsArray.v ===== *)
(** * Sorting of arrays

    [Array.prototype.sort] with a comparator: a stable sort.  The comparator is given
    as [after a b], which tells whether its result is positive.  When [after] is
    consistent, every stable sort returns the same array; [array_sort] inserts the
    elements in turn. *)

From Stdlib Require Import Sorting.Sorted Sorting.Permutation.
From S2P Require Import Prelude.

Section sort.
Context {A : Type} (after : A -> A -> bool).

Fixpoint sort_insert (x : A) (l : list A) : list A :=
  match l with
  | [] => [x]
  | y :: l' => if after y x then x :: l else y :: sort_insert x l'
  end.

Definition array_sort (l : list A) : list A := fold_left (fun acc x => sort_insert x acc) l [].

(** ** Properties *)

Lemma sort_insert_perm x l : Permutation (sort_insert x l) (x :: l).
Proof.
  induction l as [|y l IH]; simpl; [done|]. destruct (after y x); [done|].
  rewrite IH. apply perm_swap.
Qed.

Lemma array_sort_perm l : Permutation (array_sort l) l.
Proof.
  unfold array_sort. enough (H : forall acc,
    Permutation (fold_left (fun acc x => sort_insert x acc) l acc) (l ++ acc)).
  { rewrite H. by rewrite app_nil_r. }
  induction l as [|x l IH]; simpl; intros acc; [done|].
  rewrite IH, sort_insert_perm. by rewrite <- Permutation_middle.
Qed.

(** The elements a consistent comparator is asked about. *)
Variable P : A -> Prop.
Hypothesis after_asym : forall a b, P a -> P b -> after a b = true -> after b a = false.
Hypothesis after_trans : forall a b c, P a -> P b -> P c ->
  after b a = false -> after c b = false -> after c a = false.

Abbreviation in_order := (fun a b => after a b = false).

Lemma sort_insert_sorted x l :
  P x -> Forall P l -> StronglySorted in_order l -> StronglySorted in_order (sort_insert x l).
Proof.
  intros Hx. induction l as [|y l IH]; intros Hl Hs; simpl.
  { repeat constructor. }
  inversion Hl as [|? ? Hy Hl']; subst. inversion Hs as [|? ? Hs' Hf]; subst.
  destruct (after y x) eqn:E.
  - constructor; [done|]. constructor; [by apply after_asym|].
    rewrite List.Forall_forall in Hf, Hl' |- *. intros z Hz. specialize (Hf z Hz). specialize (Hl' z Hz).
    destruct (after x z) eqn:Exz; [|done]. exfalso.
    assert (Hyx : after x y = false) by (by apply after_asym).
    assert (Hzx : after z x = false) by (by apply after_asym).
    specialize (after_trans x z y Hx Hl' Hy Hzx Hf). congruence.
  - constructor; [by apply IH|]. apply List.Forall_forall. intros z Hz.
    apply (Permutation_in _ (sort_insert_perm x l)) in Hz as [<-|Hz]; [done|].
    rewrite List.Forall_forall in Hf. by apply Hf.
Qed.

(** With a consistent comparator the array comes out in order. *)
Lemma array_sort_sorted l : Forall P l -> StronglySorted in_order (array_sort l).
Proof.
  intros Hl. unfold array_sort. enough (H : forall acc, Forall P acc -> StronglySorted in_order acc ->
    StronglySorted in_order (fold_left (fun acc x => sort_insert x acc) l acc)).
  { apply H; constructor. }
  induction l as [|x l IH]; simpl; intros acc Ha Hs; [done|].
  inversion Hl; subst. apply IH; [done| |by apply sort_insert_sorted].
  eapply Permutation_Forall; [symmetry; apply sort_insert_perm|]. by constructor.
Qed.
End sort.

(** A map that the comparator does not see commutes with sorting. *)
Lemma array_sort_map {A B} (after : A -> A -> bool) (after' : B -> B -> bool) (h : A -> B) l :
  (forall a b, after' (h a) (h b) = after a b) ->
  array_sort after' (map h l) = map h (array_sort after l).
Proof.
  intros Hh. unfold array_sort. change (@nil B) with (map h []). generalize (@nil A).
  induction l as [|x l IH]; intros acc; [done|]. cbn [map fold_left]. rewrite <- IH. f_equal.
  induction acc as [|y acc IHa]; [done|]. cbn [map sort_insert]. rewrite Hh.
  destruct (after y x); [done|]. by rewrite IHa.
Qed.
