(* ===== verification/JsGroup.v ===== *)
(** * Maps filled by a loop

    The sources total rows by a key: a loop reads the entry of the key, or a fresh one,
    updates it and puts it back.  [group] is such a loop; an entry is the fold of the
    elements with its key, the keys are distinct, and sums over the entries are sums over
    the elements. *)

From Stdlib Require Import Sorting.Permutation.
From S2P Require Import Prelude JsString.

Local Open Scope Z_scope.

(** ** Sums *)

Definition zsum {A} (f : A -> Z) (l : list A) : Z := fold_right (fun x a => f x + a) 0 l.

Section zsum.
Context {A : Type}.
Implicit Types (f g : A -> Z) (l : list A).

Lemma zsum_cons f x l : zsum f (x :: l) = f x + zsum f l.
Proof. done. Qed.

Lemma zsum_app f l l' : zsum f (l ++ l') = zsum f l + zsum f l'.
Proof. induction l; simpl; lia. Qed.

Lemma zsum_ext f g l : (forall x, In x l -> f x = g x) -> zsum f l = zsum g l.
Proof. induction l as [|x l IH]; simpl; intros H; [done|]. rewrite IH by eauto. rewrite H by eauto. done. Qed.

Lemma zsum_zero l : zsum (fun _ => 0) l = 0.
Proof. induction l; simpl; lia. Qed.

Lemma zsum_add f g l : zsum (fun x => f x + g x) l = zsum f l + zsum g l.
Proof. induction l; simpl; lia. Qed.

Lemma zsum_nonneg f l : (forall x, In x l -> 0 <= f x) -> 0 <= zsum f l.
Proof. induction l as [|x l IH]; simpl; intros H; [done|]. pose proof (H x (or_introl eq_refl)). specialize (IH (fun y Hy => H y (or_intror Hy))). lia. Qed.

Lemma zsum_perm f l l' : Permutation l l' -> zsum f l = zsum f l'.
Proof. induction 1; simpl; lia. Qed.

Lemma zsum_filter f (q : A -> bool) l :
  zsum f (List.filter q l) = zsum (fun x => if q x then f x else 0) l.
Proof. induction l as [|x l IH]; simpl; [done|]. destruct (q x); simpl; lia. Qed.

Lemma zsum_le f g l : (forall x, In x l -> f x <= g x) -> zsum f l <= zsum g l.
Proof. induction l as [|x l IH]; simpl; intros H; [done|]. pose proof (H x (or_introl eq_refl)). specialize (IH (fun y Hy => H y (or_intror Hy))). lia. Qed.
End zsum.

Lemma zsum_map {A B} (f : B -> Z) (h : A -> B) l : zsum f (map h l) = zsum (fun x => f (h x)) l.
Proof. induction l; simpl; lia. Qed.

Lemma zsum_flat_map {A B} (f : B -> Z) (h : A -> list B) l :
  zsum f (flat_map h l) = zsum (fun x => zsum f (h x)) l.
Proof. induction l as [|x l IH]; simpl; [done|]. rewrite zsum_app, IH. done. Qed.

Lemma zsum_swap {A B} (f : A -> B -> Z) l l' :
  zsum (fun x => zsum (f x) l') l = zsum (fun y => zsum (fun x => f x y) l) l'.
Proof.
  induction l as [|x l IH]; simpl; [by rewrite zsum_zero|]. rewrite IH, <- zsum_add. done.
Qed.

(** A key of a list without repeats is counted once. *)
Lemma zsum_one {K} (eqb : K -> K -> bool) (k : K) (z : Z) (ks : list K) :
  (forall a b, eqb a b = true <-> a = b) -> List.NoDup ks ->
  zsum (fun k' => if eqb k k' then z else 0) ks = if existsb (eqb k) ks then z else 0.
Proof.
  intros Hs. induction 1 as [|k' ks Hk _ IH]; simpl; [done|]. rewrite IH.
  destruct (eqb k k') eqn:E; simpl; [|done].
  apply Hs in E as <-. replace (existsb (eqb k) ks) with false; [lia|].
  symmetry. apply existsb_false_iff. intros y Hy. destruct (eqb k y) eqn:E; [|done].
  by apply Hs in E as <-.
Qed.

Lemma fold_left_map {A B C} (f : C -> B -> C) (h : A -> B) l :
  forall a, fold_left f (map h l) a = fold_left (fun a x => f a (h x)) l a.
Proof. induction l as [|x l IH]; intros a; [done|]. apply IH. Qed.

(** ** Grouping *)

Section group.
Context {E K V : Type} (eqb : K -> K -> bool) (key : E -> K) (init : E -> V) (upd : V -> E -> V).
Hypothesis eqb_spec : forall a b, eqb a b = true <-> a = b.

Definition group (l : list E) (m : list (K * V)) : list (K * V) :=
  fold_left (fun m e =>
      assoc_set eqb (key e) (upd (default (init e) (assoc_get eqb (key e) m)) e) m) l m.

(** The elements with a key. *)
Definition having (k : K) (l : list E) : list E := List.filter (fun e => eqb (key e) k) l.

Lemma group_app l l' m : group (l ++ l') m = group l' (group l m).
Proof. apply fold_left_app. Qed.

Lemma having_in k l e : In e (having k l) <-> In e l /\ key e = k.
Proof. unfold having. rewrite filter_In. by rewrite eqb_spec. Qed.

Lemma group_get k l : forall m,
  assoc_get eqb k (group l m) =
  match having k l with
  | [] => assoc_get eqb k m
  | e :: es => Some (fold_left upd (e :: es) (default (init e) (assoc_get eqb k m)))
  end.
Proof.
  induction l as [|e l IH]; intros m; [done|]. unfold group in *. cbn [fold_left]. rewrite IH.
  unfold having. cbn [List.filter]. fold (having k l). destruct (eqb (key e) k) eqn:Ek.
  - apply eqb_spec in Ek as <-. rewrite assoc_get_set_eq by done. by destruct (having (key e) l).
  - rewrite assoc_get_set_ne; [done|done|]. intros ->. by rewrite (proj2 (eqb_spec _ _) eq_refl) in Ek.
Qed.

Lemma assoc_set_map_fst k (v : V) m :
  map fst (assoc_set eqb k v m) = set_add eqb k (map fst m).
Proof.
  unfold set_add. induction m as [|[k' v'] m IH]; simpl; [done|].
  destruct (eqb k k'); simpl; [done|]. rewrite IH. by destruct (existsb (eqb k) (map fst m)).
Qed.

Lemma set_add_nodup k (l : list K) : List.NoDup l -> List.NoDup (set_add eqb k l).
Proof.
  intros H. unfold set_add. destruct (existsb (eqb k) l) eqn:Ek; [done|].
  apply List.NoDup_app; [done|repeat constructor; auto|]. intros x Hx [<-|[]].
  assert (existsb (eqb k) l = true) by (apply existsb_exists; exists k; by rewrite eqb_spec). congruence.
Qed.

Lemma group_nodup l m : List.NoDup (map fst m) -> List.NoDup (map fst (group l m)).
Proof.
  revert m. induction l as [|e l IH]; intros m H; [done|]. apply IH. rewrite assoc_set_map_fst.
  by apply set_add_nodup.
Qed.

Lemma group_key k l : In k (map fst (group l [])) <-> exists e, In e l /\ key e = k.
Proof.
  enough (H : forall m, In k (map fst (group l m)) <-> In k (map fst m) \/ exists e, In e l /\ key e = k).
  { rewrite H. simpl. intuition. }
  induction l as [|e l IH]; intros m; [simpl; naive_solver|].
  unfold group in *. cbn [fold_left]. rewrite IH, assoc_set_map_fst, set_add_elem by done. simpl. naive_solver.
Qed.

Lemma assoc_get_in k (v : V) m : List.NoDup (map fst m) -> In (k, v) m -> assoc_get eqb k m = Some v.
Proof.
  induction m as [|[k' v'] m IH]; simpl; [done|]. intros Hn [He|Hin].
  - simplify_eq. by rewrite (proj2 (eqb_spec k k) eq_refl).
  - inversion Hn as [|? ? Hk Hn']; subst. destruct (eqb k k') eqn:Ek; [|by apply IH].
    apply eqb_spec in Ek as <-. destruct Hk. apply in_map_iff. by exists (k, v).
Qed.

(** Every entry is the fold of the elements with its key. *)
Lemma group_entry k v l : In (k, v) (group l []) ->
  exists e es, having k l = e :: es /\ v = fold_left upd (e :: es) (init e).
Proof.
  intros H. apply assoc_get_in in H; [|apply group_nodup; constructor]. rewrite group_get in H.
  destruct (having k l) as [|e es] eqn:Eh; [done|]. exists e, es. split; [done|]. by injection H as <-.
Qed.

(** A sum over the entries, each the sum over its elements, is the sum over the elements. *)
Lemma group_zsum (f : V -> Z) (g : E -> Z) l :
  (forall k e es, having k l = e :: es -> f (fold_left upd (e :: es) (init e)) = zsum g (e :: es)) ->
  zsum f (map snd (group l [])) = zsum g l.
Proof.
  intros Hf. rewrite zsum_map. set (m := group l []).
  transitivity (zsum (fun k => zsum (fun e => if eqb (key e) k then g e else 0) l) (map fst m)).
  - rewrite zsum_map. apply zsum_ext. intros [k v] Hin. cbn [fst snd].
    destruct (group_entry k v l Hin) as (e & es & Hh & ->). rewrite (Hf k e es Hh), <- Hh.
    unfold having. by rewrite zsum_filter.
  - rewrite zsum_swap. apply zsum_ext. intros e He.
    rewrite zsum_one; [|done|apply group_nodup; constructor].
    replace (existsb _ _) with true; [done|]. symmetry. apply existsb_exists. exists (key e).
    split; [|by apply eqb_spec]. apply group_key. by exists e.
Qed.
End group.

(** A separator no part holds parts the text in one way. *)
Lemma split_at_separator (c : N) a b a' b' :
  ~ In c a -> ~ In c a' -> a ++ c :: b = a' ++ c :: b' -> a = a' /\ b = b'.
Proof.
  revert a'. induction a as [|x a IH]; intros [|x' a'] Ha Ha' He; simpl in *; simplify_eq; try tauto.
  destruct (IH a') as [-> ->]; tauto.
Qed.

(** Keys that tell apart what another function tells apart do not repeat either. *)
Lemma nodup_map_finer {A B C} (f : A -> B) (g : A -> C) l :
  (forall x y, In x l -> In y l -> g x = g y -> f x = f y) ->
  List.NoDup (map f l) -> List.NoDup (map g l).
Proof.
  induction l as [|x l IH]; simpl; intros Hfg Hn; [constructor|].
  inversion Hn as [|? ? Hx Hn']; subst. constructor; [|apply IH; eauto].
  intros (y & Hy & Hin)%in_map_iff. apply Hx, in_map_iff. exists y. eauto.
Qed.
