(* ===== verification/ExprTypes.v ===== *)
(** * Expression trees and their traversal

    Models [billing-expression/types.ts]: the syntax tree the parser builds,
    the diagnostics the engine throws, and the explicit-stack traversal every
    analysis of a tree goes through. *)

From S2P Require Import Prelude JsString JsNumber JsValue.

(** ** Tables *)
Definition TOKEN_VARIABLES : list jsstr :=
  map js ["p"; "c"; "len"; "cr"; "cc"; "cc1h"; "cc12h"; "img"; "img_cr"; "img_o"; "ai"; "ao"]%string.
Definition BILLING_VARIABLES : list jsstr := TOKEN_VARIABLES ++ [js "image_count"].
Definition TIME_FUNCTIONS : list jsstr :=
  map js ["hour"; "minute"; "weekday"; "month"; "day"]%string.
Definition BILLING_FUNCTIONS : list (jsstr * nat) :=
  map (fun p => (js p.1, p.2))
    [("tier", 2); ("fixed", 1); ("param", 1); ("header", 1); ("has", 2); ("u", 1);
     ("hour", 1); ("minute", 1); ("weekday", 1); ("month", 1); ("day", 1);
     ("min", 2); ("max", 2); ("abs", 1); ("ceil", 1); ("floor", 1)]%string.

Definition is_time_function (name : jsstr) : bool := str_mem name TIME_FUNCTIONS.

(** ** Syntax trees *)

(** [start] and [end] of a node: offsets in the source. *)
Record span := Span { start : nat; end_ : nat }.

(** [value: string | number | boolean | null] *)
Inductive literal : Type :=
| LNum (x : num)
| LStr (s : jsstr)
| LBool (b : bool)
| LNull.

Inductive expr : Type :=
| ELit (value : literal) (integer : bool) (sp : span)
| EVar (name : jsstr) (sp : span)
| ECall (name : jsstr) (args : list expr) (sp : span)
| EUnary (operator : jsstr) (operand : expr) (sp : span)
| EBinary (operator : jsstr) (left right : expr) (sp : span)
| ECond (condition yes no : expr) (sp : span).

Definition span_of (e : expr) : span :=
  match e with
  | ELit _ _ sp | EVar _ sp | ECall _ _ sp | EUnary _ _ sp
  | EBinary _ _ _ sp | ECond _ _ _ sp => sp
  end.
Definition estart (e : expr) : nat := start (span_of e).
Definition eend (e : expr) : nat := end_ (span_of e).

(** [{ ...node, start, end }] *)
Definition with_span (e : expr) (sp : span) : expr :=
  match e with
  | ELit v i _ => ELit v i sp
  | EVar n _ => EVar n sp
  | ECall n a _ => ECall n a sp
  | EUnary o x _ => EUnary o x sp
  | EBinary o l r _ => EBinary o l r sp
  | ECond c y n _ => ECond c y n sp
  end.

(** The children of a node, as [visitExpression] collects them. *)
Definition children (e : expr) : list expr :=
  match e with
  | ECall _ args _ => args
  | EUnary _ x _ => [x]
  | EBinary _ l r _ => [l; r]
  | ECond c y n _ => [c; y; n]
  | _ => []
  end.

Lemma expr_rect_children (P : expr -> Prop) :
  (forall e, (forall x, In x (children e) -> P x) -> P e) -> forall e, P e.
Proof.
  intros step. fix IH 1. intros e. apply step. destruct e; simpl.
  - intros x [].
  - intros x [].
  - induction args as [|a args IHa]; simpl; [intros x []|]. intros x [<-|H]; [apply IH|by apply IHa].
  - intros x [<-|[]]. apply IH.
  - intros x [<-|[<-|[]]]; apply IH.
  - intros x [<-|[<-|[<-|[]]]]; apply IH.
Qed.

(** ** Diagnostics *)
Inductive diag_code : Type :=
| Dsyntax | Dunsupported | Dmissing_context | Dtype | Dnumber | Dlimit.

Record diagnostic := Diag {
  code : diag_code;
  detail : jsstr;
  position : option nat;
}.

(** What a model function can throw: a [BillingExpressionError], the engine's
    own TypeError (reading a property of [undefined]), or the end of the fuel a
    loop was given, which is shown never to happen. *)
Inductive berr : Type :=
| BillingError (d : diagnostic)
| EngineError
| OutOfFuel.

Definition throw {A} (c : diag_code) (d : jsstr) (p : option nat) : result berr A :=
  Err (BillingError (Diag c d p)).

(** [ExpressionFailure] *)
Inductive failure_status : Type := Funsupported | Finvalid | Fmissing_context.
Record expression_failure := Failure {
  status : failure_status;
  diagnostic_of : diagnostic;
}.

Definition expressionFailure `{Host} (err : berr) : expression_failure :=
  let d :=
    match err with
    | BillingError d => d
    | EngineError | OutOfFuel => Diag Dsyntax throw_message None
    end in
  let st :=
    match code d with
    | Dunsupported | Dlimit => Funsupported
    | Dmissing_context => Fmissing_context
    | _ => Finvalid
    end in
  Failure st d.

(** ** Structural equality

    The sources compare nodes by identity.  Two nodes of one parsed tree are
    the same object exactly when they are equal as values, spans included
    ([ExprParserSpec.parsed_nodes_distinct]), so identity is modelled by [expr_eqb]. *)
Definition num_same (a b : num) : bool :=
  match a, b with
  | SpecFloat.S754_zero s, SpecFloat.S754_zero s' => Bool.eqb s s'
  | SpecFloat.S754_infinity s, SpecFloat.S754_infinity s' => Bool.eqb s s'
  | SpecFloat.S754_nan, SpecFloat.S754_nan => true
  | SpecFloat.S754_finite s m e, SpecFloat.S754_finite s' m' e' =>
      Bool.eqb s s' && Pos.eqb m m' && Z.eqb e e'
  | _, _ => false
  end.
Definition literal_eqb (a b : literal) : bool :=
  match a, b with
  | LNum x, LNum y => num_same x y
  | LStr x, LStr y => str_eqb x y
  | LBool x, LBool y => Bool.eqb x y
  | LNull, LNull => true
  | _, _ => false
  end.
Definition span_eqb (a b : span) : bool :=
  Nat.eqb (start a) (start b) && Nat.eqb (end_ a) (end_ b).

Fixpoint expr_eqb (a b : expr) {struct a} : bool :=
  match a, b with
  | ELit v i sp, ELit v' i' sp' => literal_eqb v v' && Bool.eqb i i' && span_eqb sp sp'
  | EVar n sp, EVar n' sp' => str_eqb n n' && span_eqb sp sp'
  | ECall n l sp, ECall n' l' sp' =>
      str_eqb n n' &&
      (fix go (l l' : list expr) : bool :=
         match l, l' with
         | [], [] => true
         | x :: l, y :: l' => expr_eqb x y && go l l'
         | _, _ => false
         end) l l' && span_eqb sp sp'
  | EUnary o x sp, EUnary o' x' sp' => str_eqb o o' && expr_eqb x x' && span_eqb sp sp'
  | EBinary o l r sp, EBinary o' l' r' sp' =>
      str_eqb o o' && expr_eqb l l' && expr_eqb r r' && span_eqb sp sp'
  | ECond c y n sp, ECond c' y' n' sp' =>
      expr_eqb c c' && expr_eqb y y' && expr_eqb n n' && span_eqb sp sp'
  | _, _ => false
  end.

(** ** Traversal *)

(** One stack entry: [{ node, visited, depth }]. *)
Record entry := Entry { node : expr; visited : bool; depth : Z }.

Section visit.
Context {S : Type} (visitor : S -> expr -> result berr S).

(** [for (const child of children.reverse()) stack.push(...)]; the top of the
    stack is the head of the list. *)
Definition push_children (d : Z) (cs : list expr) (stack : list entry) : list entry :=
  fold_left (fun st c => Entry c false (d + 1) :: st) (rev cs) stack.

Fixpoint visit_loop (fuel : nat) (stack : list entry) (s : S) : result berr S :=
  match stack with
  | [] => Ok s
  | en :: stack' =>
      match fuel with
      | O => Err OutOfFuel
      | Datatypes.S f =>
          if (256 <? depth en)%Z then throw Dlimit (js "expression depth") None
          else if visited en then
            let? s' := visitor s (node en) in
            visit_loop f stack' s'
          else
            visit_loop f
              (push_children (depth en) (children (node en))
                 (Entry (node en) true (depth en) :: stack')) s
      end
  end.

End visit.

(** Number of nodes; every node is popped twice. *)
Fixpoint expr_size (e : expr) : nat :=
  match e with
  | ELit _ _ _ | EVar _ _ => 1
  | ECall _ args _ => 1 + (fix go l := match l with [] => 0 | x :: l => expr_size x + go l end) args
  | EUnary _ x _ => 1 + expr_size x
  | EBinary _ l r _ => 1 + expr_size l + expr_size r
  | ECond c y n _ => 1 + expr_size c + expr_size y + expr_size n
  end.

Definition visitExpression {S} (e : expr) (visitor : S -> expr -> result berr S) (s : S)
  : result berr S :=
  visit_loop visitor (2 * expr_size e) [Entry e false 0] s.

(** [expressionDependencies]: the variables and functions that occur. *)
Definition deps : Type := list jsstr * list jsstr.

Definition deps_visitor (d : deps) (part : expr) : result berr deps :=
  match part with
  | EVar name _ => Ok (set_add str_eqb name d.1, d.2)
  | ECall name _ _ => Ok (d.1, set_add str_eqb name d.2)
  | _ => Ok d
  end.

Definition expressionDependencies (e : expr) : result berr deps :=
  visitExpression e deps_visitor ([], []).

(** ** Reference traversal

    The recursive left-to-right postorder walk the explicit stack implements. *)
Fixpoint foldM {E S A} (f : S -> A -> result E S) (l : list A) (s : S) : result E S :=
  match l with
  | [] => Ok s
  | x :: l' => let? s' := f s x in foldM f l' s'
  end.

Section reference.
Context {S : Type} (visitor : S -> expr -> result berr S).

Fixpoint visit_ref (d : Z) (s : S) (e : expr) {struct e} : result berr S :=
  if (256 <? d)%Z then throw Dlimit (js "expression depth") None
  else
    let? s' :=
      match e with
      | ECall _ args _ =>
          (fix go (l : list expr) (s : S) : result berr S :=
             match l with
             | [] => Ok s
             | x :: l' => let? s' := visit_ref (d + 1) s x in go l' s'
             end) args s
      | EUnary _ x _ => visit_ref (d + 1) s x
      | EBinary _ l r _ =>
          let? s1 := visit_ref (d + 1) s l in visit_ref (d + 1) s1 r
      | ECond c y n _ =>
          let? s1 := visit_ref (d + 1) s c in
          let? s2 := visit_ref (d + 1) s1 y in
          visit_ref (d + 1) s2 n
      | _ => Ok s
      end in
    visitor s' e.

Lemma visit_ref_unfold d s e :
  visit_ref d s e =
  if (256 <? d)%Z then throw Dlimit (js "expression depth") None
  else let? s' := foldM (visit_ref (d + 1)) (children e) s in visitor s' e.
Proof.
  destruct e as [v i sp|name sp|name args sp|op x sp|op l r sp|c y n' sp];
    simpl; try done; destruct (256 <? d)%Z; try done.
  - match goal with |- match ?a with _ => _ end = match ?b with _ => _ end =>
      enough (a = b) as -> by done end.
    revert s. induction args as [|a args IH]; intros s; simpl; [done|].
    destruct (visit_ref (d + 1) s a); [apply IH|done].
  - by destruct (visit_ref (d + 1) s x).
  - destruct (visit_ref (d + 1) s l) as [s1|]; [|done].
    by destruct (visit_ref (d + 1) s1 r).
  - destruct (visit_ref (d + 1) s c) as [s1|]; [|done].
    destruct (visit_ref (d + 1) s1 y) as [s2|]; [|done].
    by destruct (visit_ref (d + 1) s2 n').
Qed.

Lemma push_children_app d cs stack :
  push_children d cs stack = map (fun c => Entry c false (d + 1)) cs ++ stack.
Proof.
  unfold push_children. rewrite <- fold_left_rev_right, rev_involutive.
  induction cs; simpl; congruence.
Qed.

Fixpoint sizes (l : list expr) : nat :=
  match l with [] => 0 | x :: l' => expr_size x + sizes l' end.

Lemma expr_size_children e : expr_size e = 1 + sizes (children e).
Proof.
  destruct e; simpl; try lia. f_equal.
Qed.

Lemma visit_loop_entries d cs :
  (forall x, In x cs -> forall n stk s,
     visit_loop visitor (n + 2 * expr_size x) (Entry x false d :: stk) s =
     let? s' := visit_ref d s x in visit_loop visitor n stk s') ->
  forall n stk s,
  visit_loop visitor (n + 2 * sizes cs) (map (fun c => Entry c false d) cs ++ stk) s =
  let? s' := foldM (visit_ref d) cs s in visit_loop visitor n stk s'.
Proof.
  induction cs as [|x cs IH]; intros Hx n stk s; simpl.
  - by rewrite Nat.add_0_r.
  - replace (n + (expr_size x + sizes cs + (expr_size x + sizes cs + 0)))
      with ((n + 2 * sizes cs) + 2 * expr_size x) by lia.
    rewrite Hx by (by left). destruct (visit_ref d s x) as [s1|]; [|done].
    apply IH. intros y Hy. apply Hx. by right.
Qed.

Lemma visit_loop_ref e : forall d n stk s,
  visit_loop visitor (n + 2 * expr_size e) (Entry e false d :: stk) s =
  let? s' := visit_ref d s e in visit_loop visitor n stk s'.
Proof.
  induction e as [e IH] using expr_rect_children. intros d n stk s.
  rewrite visit_ref_unfold, expr_size_children.
  replace (n + 2 * (1 + sizes (children e)))
    with (Datatypes.S (Datatypes.S n + 2 * sizes (children e))) by lia.
  cbn [visit_loop depth visited node]. destruct (256 <? d)%Z eqn:Hd; [done|].
  rewrite push_children_app, visit_loop_entries by (intros; by apply IH).
  destruct (foldM (visit_ref (d + 1)) (children e) s) as [s1|]; [|done].
  cbn [visit_loop depth visited node]. rewrite Hd. done.
Qed.

(** The explicit-stack traversal is the recursive one; in particular its fuel
    is enough. *)
Lemma visitExpression_ref e s : visitExpression e visitor s = visit_ref 0 s e.
Proof.
  unfold visitExpression. rewrite <- (Nat.add_0_l (2 * expr_size e)), visit_loop_ref.
  by destruct (visit_ref 0 s e).
Qed.
End reference.

(** Nodes in postorder, and the height of a tree. *)
Fixpoint postorder (e : expr) : list expr :=
  match e with
  | ELit _ _ _ | EVar _ _ => [e]
  | ECall _ args _ =>
      (fix go l := match l with [] => [] | x :: l => postorder x ++ go l end) args ++ [e]
  | EUnary _ x _ => postorder x ++ [e]
  | EBinary _ l r _ => postorder l ++ postorder r ++ [e]
  | ECond c y n _ => postorder c ++ postorder y ++ postorder n ++ [e]
  end.

Fixpoint height (e : expr) : Z :=
  match e with
  | ELit _ _ _ | EVar _ _ => 0
  | ECall _ args _ =>
      (fix go l := match l with [] => 0 | x :: l => Z.max (1 + height x) (go l) end) args
  | EUnary _ x _ => 1 + height x
  | EBinary _ l r _ => Z.max (1 + height l) (1 + height r)
  | ECond c y n _ => Z.max (1 + height c) (Z.max (1 + height y) (1 + height n))
  end%Z.

Lemma postorder_children e :
  postorder e = flat_map postorder (children e) ++ [e].
Proof.
  destruct e; simpl; rewrite ?app_nil_r, <- ?app_assoc; try done.
Qed.

Definition max_height (l : list expr) : Z :=
  fold_right (fun x acc => Z.max (1 + height x) acc) 0%Z l.

Lemma height_children e : height e = max_height (children e).
Proof.
  assert (Hn : forall e, (0 <= height e)%Z).
  { intros x. induction x as [x IH] using expr_rect_children.
    destruct x as [v i sp|name sp|name args sp|op x sp|op l r sp|c y n' sp]; simpl in *; try lia.
    - induction args as [|a args IHa]; [lia|].
      assert (0 <= height a)%Z by (apply IH; by left). lia.
    - specialize (IH x (or_introl eq_refl)). lia.
    - specialize (IH l (or_introl eq_refl)). lia.
    - specialize (IH c (or_introl eq_refl)). lia. }
  destruct e as [v i sp|name sp|name args sp|op x sp|op l r sp|c y n' sp]; simpl; try done.
  - specialize (Hn x). lia.
  - pose proof (Hn l). pose proof (Hn r). lia.
  - pose proof (Hn c). pose proof (Hn y). pose proof (Hn n'). lia.
Qed.

Lemma height_nonneg e : (0 <= height e)%Z.
Proof. rewrite height_children. unfold max_height. induction (children e); simpl; lia. Qed.

Lemma foldM_app {E S A} (f : S -> A -> result E S) l1 l2 s :
  foldM f (l1 ++ l2) s = let? s' := foldM f l1 s in foldM f l2 s'.
Proof. revert s. induction l1; intros s; simpl; [done|]. destr_match_goal; auto. Qed.

Lemma max_height_le x cs : In x cs -> (1 + height x <= max_height cs)%Z.
Proof.
  unfold max_height. induction cs as [|y cs IH]; simpl; [done|]. intros [->|H]; [lia|].
  specialize (IH H). lia.
Qed.

Section visit_spec.
Context {S : Type} (visitor : S -> expr -> result berr S).

Lemma visit_ref_shallow e : forall d s, (d + height e <= 256)%Z ->
  visit_ref visitor d s e = foldM visitor (postorder e) s.
Proof.
  induction e as [e IH] using expr_rect_children. intros d s Hd.
  rewrite visit_ref_unfold, postorder_children, foldM_app. simpl.
  pose proof (height_nonneg e). destruct (Z.ltb_spec 256 d); [lia|].
  rewrite height_children in Hd.
  enough (foldM (visit_ref visitor (d + 1)) (children e) s =
          foldM visitor (flat_map postorder (children e)) s) as ->
    by (repeat destr_match_goal; done).
  assert (Hc : forall x, In x (children e) -> forall s,
    visit_ref visitor (d + 1) s x = foldM visitor (postorder x) s).
  { intros x Hx s'. apply IH; [done|]. apply max_height_le in Hx. lia. }
  clear IH Hd. revert s. induction (children e) as [|x cs IHc]; intros s; simpl; [done|].
  rewrite foldM_app, Hc by (by left). destr_match_goal; [|done].
  apply IHc. intros; apply Hc. by right.
Qed.

Lemma visit_ref_deep e : forall d s, (256 < d + height e)%Z ->
  is_ok (visit_ref visitor d s e) = false.
Proof.
  induction e as [e IH] using expr_rect_children. intros d s Hd.
  rewrite visit_ref_unfold. destruct (Z.ltb_spec 256 d); [done|].
  rewrite height_children in Hd.
  enough (is_ok (foldM (visit_ref visitor (d + 1)) (children e) s) = false)
    by (by destruct (foldM _ _ _)).
  assert (He : exists x, In x (children e) /\ (256 < d + 1 + height x)%Z).
  { clear IH. revert Hd. unfold max_height.
    induction (children e) as [|x cs IHc]; simpl; intros Hd; [lia|].
    destruct (Z.ltb_spec 256 (d + 1 + height x)); [eauto|].
    destruct IHc as (y & Hy & ?); [lia|]. eauto. }
  destruct He as (x & Hx & Hh).
  assert (Hc := IH x Hx). revert Hx. clear -Hc Hh. revert s.
  induction (children e) as [|y cs IHc]; intros s; simpl; [done|].
  intros [->|H].
  - specialize (Hc (d + 1)%Z s Hh). by destruct (visit_ref _ _ _ _).
  - destruct (visit_ref visitor (d + 1) s y); [by apply IHc|done].
Qed.
End visit_spec.

(** C1: [visitExpression], which keeps an explicit stack of visited and
    unvisited entries, runs the visitor on the nodes of the tree in
    left-to-right postorder whenever no node is deeper than 256, and fails on
    every deeper tree whatever the visitor.  Its loop always ends: the fuel of
    the model is enough. *)
Theorem visitExpression_postorder {S} (visitor : S -> expr -> result berr S) e s :
  if (height e <=? 256)%Z
  then visitExpression e visitor s = foldM visitor (postorder e) s
  else is_ok (visitExpression e visitor s) = false.
Proof.
  rewrite visitExpression_ref. destruct (Z.leb_spec (height e) 256).
  - apply visit_ref_shallow. lia.
  - apply visit_ref_deep. lia.
Qed.

(** ** Dependencies *)

Definition is_var (name : jsstr) (e : expr) : Prop :=
  match e with EVar n _ => n = name | _ => False end.
Definition is_call (name : jsstr) (e : expr) : Prop :=
  match e with ECall n _ _ => n = name | _ => False end.

Lemma deps_fold l : forall d, exists d',
  foldM deps_visitor l d = Ok d' /\
  (forall v, In v d'.1 <-> In v d.1 \/ exists e, In e l /\ is_var v e) /\
  (forall f, In f d'.2 <-> In f d.2 \/ exists e, In e l /\ is_call f e).
Proof.
  induction l as [|x l IH]; intros d; simpl.
  { exists d. split; [done|]. split; intros; split; auto; intros [?|(? & [] & _)]; auto. }
  assert (Hx : exists d1, deps_visitor d x = Ok d1 /\
    (forall v, In v d1.1 <-> In v d.1 \/ is_var v x) /\
    (forall f, In f d1.2 <-> In f d.2 \/ is_call f x)).
  { destruct x; simpl; eexists; split; try done; simpl;
      split; intros; rewrite ?(set_add_elem _ _ _ _ str_eqb_eq); intuition congruence. }
  destruct Hx as (d1 & -> & Hv1 & Hf1). destruct (IH d1) as (d' & -> & Hv & Hf).
  exists d'. split; [done|]. split; intros w.
  - rewrite Hv, Hv1. naive_solver.
  - rewrite Hf, Hf1. naive_solver.
Qed.

Lemma expressionDependencies_shallow e :
  (height e <= 256)%Z ->
  exists vs fs, expressionDependencies e = Ok (vs, fs) /\
    (forall v, In v vs <-> exists n, In n (postorder e) /\ is_var v n) /\
    (forall f, In f fs <-> exists n, In n (postorder e) /\ is_call f n).
Proof.
  intros Hh. unfold expressionDependencies. rewrite visitExpression_ref.
  rewrite visit_ref_shallow by lia.
  destruct (deps_fold (postorder e) ([], [])) as ([vs fs] & -> & Hv & Hf).
  exists vs, fs. split; [done|]. simpl in *. split; intros w; rewrite ?Hv, ?Hf; naive_solver.
Qed.

Lemma expressionDependencies_ok e vs fs :
  expressionDependencies e = Ok (vs, fs) ->
  (height e <= 256)%Z /\
  (forall f, In f fs <-> exists n, In n (postorder e) /\ is_call f n).
Proof.
  intros Hd. destruct (Z.leb_spec (height e) 256) as [Hh|Hh].
  - destruct (expressionDependencies_shallow e Hh) as (vs' & fs' & He & Hv & Hf).
    rewrite He in Hd. injection Hd as <- <-. done.
  - exfalso. unfold expressionDependencies in Hd. rewrite visitExpression_ref in Hd.
    assert (Hd' := visit_ref_deep deps_visitor e 0 ([], []) ltac:(lia)). by rewrite Hd in Hd'.
Qed.

(** [expressionDependencies] succeeds exactly on the trees no deeper than
    256, and then returns exactly the variables and the functions that occur
    somewhere in the tree. *)
Theorem expressionDependencies_exact e :
  match expressionDependencies e with
  | Ok (variables, functions) =>
      (height e <= 256)%Z /\
      (forall v, In v variables <-> exists n, In n (postorder e) /\ is_var v n) /\
      (forall f, In f functions <-> exists n, In n (postorder e) /\ is_call f n)
  | Err _ => (256 < height e)%Z
  end.
Proof.
  destruct (Z.leb_spec (height e) 256) as [Hh|Hh].
  - by destruct (expressionDependencies_shallow e Hh) as (vs & fs & -> & Hv & Hf).
  - unfold expressionDependencies. rewrite visitExpression_ref.
    assert (Hd := visit_ref_deep deps_visitor e 0 ([], []) ltac:(lia)).
    by destruct (visit_ref _ _ _ _) as [[? ?]|].
Qed.

(** ** Equality of nodes *)

Lemma num_same_eq a b : num_same a b = true <-> a = b.
Proof.
  destruct a, b; simpl; try (split; congruence).
  - rewrite Bool.eqb_true_iff. split; congruence.
  - rewrite Bool.eqb_true_iff. split; congruence.
  - rewrite !andb_true_iff, Bool.eqb_true_iff, Pos.eqb_eq, Z.eqb_eq.
    split; [intros [[-> ->] ->]|intros [=]]; done.
Qed.

Lemma literal_eqb_eq a b : literal_eqb a b = true <-> a = b.
Proof.
  destruct a, b; simpl; try (split; congruence).
  - rewrite num_same_eq. split; congruence.
  - rewrite str_eqb_eq. split; congruence.
  - rewrite Bool.eqb_true_iff. split; congruence.
Qed.

Lemma span_eqb_eq a b : span_eqb a b = true <-> a = b.
Proof.
  destruct a, b. unfold span_eqb. simpl. rewrite andb_true_iff, !Nat.eqb_eq.
  split; [intros [-> ->]|intros [=]]; done.
Qed.

Lemma expr_eqb_eq a b : expr_eqb a b = true <-> a = b.
Proof.
  revert b. induction a as [a IH] using expr_rect_children. intros b.
  destruct a as [v i sp|name sp|name args sp|op x sp|op l r sp|c y n sp], b; simpl in *;
    try (split; congruence); rewrite ?andb_true_iff, ?span_eqb_eq, ?literal_eqb_eq,
      ?Bool.eqb_true_iff, ?str_eqb_eq.
  - intuition congruence.
  - intuition congruence.
  - assert (Hl : forall l', (fix go (l l' : list expr) : bool :=
         match l, l' with
         | [], [] => true
         | x :: l, y :: l' => expr_eqb x y && go l l'
         | _, _ => false
         end) args l' = true <-> args = l').
    { induction args as [|a args IHa]; intros [|a' l']; try (split; congruence).
      rewrite andb_true_iff, IH by (by left). rewrite IHa by (intros; apply IH; by right).
      split; [intros [-> ->]|intros [=]]; done. }
    rewrite Hl. intuition congruence.
  - rewrite IH by auto. intuition congruence.
  - rewrite !IH by auto. intuition congruence.
  - rewrite !IH by auto. intuition congruence.
Qed.

Lemma expr_eqb_refl a : expr_eqb a a = true.
Proof. by apply expr_eqb_eq. Qed.
