(* ===== verification/ExprParser.v ===== *)
(** * The expression parser

    Models the class [BillingParser] of [billing-expression/parser.ts]: a lazy
    lexer and a precedence-climbing parser that share a cursor, a token count
    and a nesting depth. *)

From S2P Require Import Prelude JsString JsNumber JsRegex JsValue ExprTypes.

(** ** Lexemes *)
Inductive lex_kind : Type :=
| Knumber (value : num) (integer : bool)
| Kstring (value : jsstr)
| Ksymbol
| Kname
| Kend.

Record lexeme := Lexeme {
  kind : lex_kind;
  text : jsstr;
  lstart : nat;
  lend : nat;
}.

Definition PRECEDENCE : list (jsstr * Z) :=
  map (fun p => (js p.1, p.2))
    [("||", 1); ("&&", 2); ("==", 3); ("!=", 3); ("<", 4); ("<=", 4); (">", 4);
     (">=", 4); ("+", 5); ("-", 5); ("*", 6); ("/", 6); ("%", 6)]%string%Z.
Definition precedence (op : jsstr) : option Z := assoc_get str_eqb op PRECEDENCE.

(** ** The patterns of the lexer *)
Definition rdigit : re := RChar is_digit.
Definition rspace : re := RChar is_ws.

(** [/^\s*v(\d+):/] *)
Definition version_re : re :=
  RSeq [RStar rspace; RLit "v"; RGroup 1 (RPlus rdigit); RLit ":"].

(** The decimal literal: digits with an optional fraction, or a bare fraction,
    then an optional exponent. *)
Definition number_re : re :=
  RSeq [ROr [RSeq [RPlus rdigit; ROpt (RSeq [RLit "."; RStar rdigit])];
             RSeq [RLit "."; RPlus rdigit]];
        ROpt (RSeq [RSet "eE"; ROpt (RSet "+-"); RPlus rdigit])].

(** A letter or underscore, then word characters. *)
Definition name_re : re :=
  RCat (RChar (fun c => is_alpha c || N.eqb c 95)) (RStar (RChar is_word)).

Definition operator_re : re :=
  ROr [RLit "&&"; RLit "||"; RLit "=="; RLit "!="; RLit "<="; RLit ">=";
       RSet "+-*/%<>()!?:,"].

(** ** String literals *)
Definition escapes : list (N * N) :=
  [(ch "n", 10); (ch "r", 13); (ch "t", 9); (ch "b", 8); (ch "f", 12); (ch "v", 11);
   (92, 92); (34, 34); (39, 39); (ch "/", 47)]%N.

Definition unterminated {A} (start : nat) : result berr A :=
  throw Dsyntax (js "unterminated string") (Some start).
Definition bad_escape {A} (pos : nat) : result berr A :=
  throw Dunsupported (js "string escape") (Some pos).

(** The loop over the characters of a quoted string that began at [start]:
    [pos] is the cursor, [rest] the source from it, [value] what was read. *)
Fixpoint scan_string (quote : N) (start : nat) (rest : jsstr) (pos : nat) (value : jsstr)
  : result berr (jsstr * nat) :=
  match rest with
  | [] => unterminated start
  | c :: r1 =>
      if N.eqb c quote then Ok (value, S pos)
      else if N.eqb c 10 || N.eqb c 13 then unterminated start
      else if negb (N.eqb c 92) then scan_string quote start r1 (S pos) (value ++ [c])
      else
        match r1 with
        | [] => bad_escape (S pos)
        | e :: r2 =>
            match assoc_get N.eqb e escapes with
            | Some u => scan_string quote start r2 (2 + pos) (value ++ [u])
            | None =>
                if N.eqb e (ch "u") then
                  match r2 with
                  | h1 :: h2 :: h3 :: h4 :: r3 =>
                      if forallb is_hex [h1; h2; h3; h4]
                      then scan_string quote start r3 (6 + pos)
                             (value ++ [N_of_hex [h1; h2; h3; h4]])
                      else unterminated start
                  | _ => unterminated start
                  end
                else if N.eqb e (ch "x") then
                  match r2 with
                  | h1 :: h2 :: r3 =>
                      if forallb is_hex [h1; h2]
                      then scan_string quote start r3 (4 + pos)
                             (value ++ [N_of_hex [h1; h2]])
                      else unterminated start
                  | _ => unterminated start
                  end
                else bad_escape (S pos)
            end
        end
  end.

Fixpoint skip_ws (s : jsstr) (cursor : nat) : nat :=
  match s with
  | c :: s' => if is_ws c then skip_ws s' (S cursor) else cursor
  | [] => cursor
  end.

(** [!/[.eE]/.test(text)] *)
Definition integer_text (t : jsstr) : bool :=
  negb (existsb (fun c => existsb (N.eqb c) (js ".eE")) t).

(** ** Parser state *)
Record pstate := PState {
  cursor : nat;
  count : Z;
  pdepth : Z;
  current : lexeme;
}.

Section parser.
Variable source : jsstr.

(** [next()]: the lexeme at the cursor, the new cursor and the new count. *)
Definition next (cursor : nat) (count : Z) : result berr (lexeme * nat * Z) :=
  let count := (count + 1)%Z in
  if (10000 <? count)%Z then throw Dlimit (js "expression tokens") None
  else
    let start := skip_ws (drop cursor source) cursor in
    let rest := drop start source in
    match rest with
    | [] => Ok (Lexeme Kend [] start start, start, count)
    | c :: rest1 =>
        match re_prefix number_re rest with
        | Some t =>
            let value := number_of_string t in
            let integer := integer_text t in
            if negb (is_finite value) then throw Dnumber t (Some start)
            else if integer && negb (is_safe_integer value) then
              throw Dunsupported (js "integer precision") (Some start)
            else
              let e := start + length t in
              Ok (Lexeme (Knumber value integer) t start e, e, count)
        | None =>
            if N.eqb c 34 || N.eqb c 39 then
              let? (value, e) := scan_string c start rest1 (S start) [] in
              Ok (Lexeme (Kstring value) (slice source start e) start e, e, count)
            else
              match re_prefix name_re rest with
              | Some t =>
                  let e := start + length t in
                  Ok (Lexeme Kname t start e, e, count)
              | None =>
                  match re_prefix operator_re rest with
                  | Some t =>
                      let e := start + length t in
                      Ok (Lexeme Ksymbol t start e, e, count)
                  | None => throw Dunsupported [c] (Some start)
                  end
              end
        end
    end.

Definition take_token (st : pstate) : result berr (lexeme * pstate) :=
  let? (l, cur, cnt) := next (cursor st) (count st) in
  Ok (current st, PState cur cnt (pdepth st) l).

Definition is_token (t : jsstr) (st : pstate) : bool := str_eqb (text (current st)) t.

Definition expect (t : jsstr) (st : pstate) : result berr (lexeme * pstate) :=
  if negb (is_token t st)
  then throw Dsyntax (js "expected " ++ t) (Some (lstart (current st)))
  else take_token st.

Definition set_depth (d : Z) (st : pstate) : pstate :=
  PState (cursor st) (count st) d (current st).

Definition is_end (k : lex_kind) : bool := match k with Kend => true | _ => false end.

(** [expression(minimum)], its operator loop, [primary()] and its argument loop.
    Each consumes fuel; [ExprParserSpec.parse_terminates] shows it never runs out. *)
Fixpoint expression (fuel : nat) (minimum : Z) (st : pstate) {struct fuel}
  : result berr (expr * pstate) :=
  match fuel with
  | O => Err OutOfFuel
  | S f =>
      let d := (pdepth st + 1)%Z in
      if (128 <? d)%Z then throw Dlimit (js "expression depth") None
      else
        let? (lhs, st) := primary f (set_depth d st) in
        let? (lhs, st) := binary_loop f minimum lhs st in
        let? (lhs, st) :=
          if (minimum =? 0)%Z && is_token (js "?") st then
            let? (_, st) := take_token st in
            let? (yes, st) := expression f 0 st in
            let? (_, st) := expect (js ":") st in
            let? (no, st) := expression f 0 st in
            Ok (ECond lhs yes no (Span (estart lhs) (eend no)), st)
          else Ok (lhs, st) in
        Ok (lhs, set_depth (pdepth st - 1) st)
  end
with binary_loop (fuel : nat) (minimum : Z) (lhs : expr) (st : pstate) {struct fuel}
  : result berr (expr * pstate) :=
  match fuel with
  | O => Err OutOfFuel
  | S f =>
      match precedence (text (current st)) with
      | Some p =>
          if (minimum <=? p)%Z then
            let? (op, st) := take_token st in
            let? (rhs, st) := expression f (p + 1) st in
            binary_loop f minimum
              (EBinary (text op) lhs rhs (Span (estart lhs) (eend rhs))) st
          else Ok (lhs, st)
      | None => Ok (lhs, st)
      end
  end
with primary (fuel : nat) (st : pstate) {struct fuel} : result berr (expr * pstate) :=
  match fuel with
  | O => Err OutOfFuel
  | S f =>
      let? (token, st) := take_token st in
      let sp := Span (lstart token) (lend token) in
      match kind token with
      | Knumber v i => Ok (ELit (LNum v) i sp, st)
      | Kstring v => Ok (ELit (LStr v) false sp, st)
      | k =>
          if str_eqb (text token) (js "(") then
            let? (e, st) := expression f 0 st in
            let? (close, st) := expect (js ")") st in
            Ok (with_span e (Span (lstart token) (lend close)), st)
          else if str_mem (text token) [js "!"; js "+"; js "-"] then
            let? (operand, st) := expression f 7 st in
            Ok (EUnary (text token) operand (Span (lstart token) (eend operand)), st)
          else
            match k with
            | Kname =>
                if str_eqb (text token) (js "nil") then Ok (ELit LNull false sp, st)
                else if str_mem (text token) [js "true"; js "false"] then
                  Ok (ELit (LBool (str_eqb (text token) (js "true"))) false sp, st)
                else if negb (is_token (js "(") st) then
                  if negb (str_mem (text token) BILLING_VARIABLES) then
                    throw Dunsupported (text token) (Some (lstart token))
                  else Ok (EVar (text token) sp, st)
                else
                  match assoc_get str_eqb (text token) BILLING_FUNCTIONS with
                  | None => throw Dunsupported (text token) (Some (lstart token))
                  | Some arity =>
                      let? (_, st) := take_token st in
                      let? (args, st) := args_loop f st [] in
                      let? (close, st) := expect (js ")") st in
                      if negb (Nat.eqb (length args) arity) then
                        throw Dtype (text token) (Some (lstart token))
                      else
                        Ok (ECall (text token) args (Span (lstart token) (lend close)), st)
                  end
            | _ => throw Dsyntax (text token) (Some (lstart token))
            end
      end
  end
with args_loop (fuel : nat) (st : pstate) (args : list expr) {struct fuel}
  : result berr (list expr * pstate) :=
  match fuel with
  | O => Err OutOfFuel
  | S f =>
      if is_token (js ")") st then Ok (args, st)
      else
        let? (arg, st) := expression f 0 st in
        if negb (is_token (js ",") st) then Ok (args ++ [arg], st)
        else
          let? (_, st) := take_token st in
          args_loop f st (args ++ [arg])
  end.

Definition parse_fuel : nat := 3 * length source + 10.

(** [new BillingParser(source)] *)
Definition new_parser : result berr pstate :=
  if (65536 <? Z.of_nat (length source))%Z
  then throw Dlimit (js "expression length") None
  else
    let? cur :=
      match re_exec version_re source with
      | Some m =>
          let n := length source - length (rest m) in
          if negb (str_eqb (default [] (get_cap 1 m)) (js "1"))
          then throw Dunsupported (take n source) None
          else Ok n
      | None => Ok 0
      end in
    let? (l, cur, cnt) := next cur 0 in
    Ok (PState cur cnt 0 l).

(** [new BillingParser(source).parse()] *)
Definition parse : result berr expr :=
  let? st := new_parser in
  let? (e, st) := expression parse_fuel 0 st in
  if negb (is_end (kind (current st)))
  then throw Dunsupported (text (current st)) (Some (lstart (current st)))
  else Ok e.

End parser.

Example parse_ex1 :
  parse (js "v1: p * 2 + (c - 1) * 3") =
  Ok (EBinary (js "+")
        (EBinary (js "*") (EVar (js "p") (Span 4 5))
           (ELit (LNum (n_of_Z 2)) true (Span 8 9)) (Span 4 9))
        (EBinary (js "*")
           (EBinary (js "-") (EVar (js "c") (Span 13 14))
              (ELit (LNum (n_of_Z 1)) true (Span 17 18)) (Span 12 19))
           (ELit (LNum (n_of_Z 3)) true (Span 22 23)) (Span 12 23))
        (Span 4 23)).
Proof. vm_compute. reflexivity. Qed.
Example parse_ex2 :
  parse (jq "len > 1e3 ? tier('a', p) : u(p)") =
  Ok (ECond
        (EBinary (js ">") (EVar (js "len") (Span 0 3))
           (ELit (LNum (n_of_Z 1000)) false (Span 6 9)) (Span 0 9))
        (ECall (js "tier") [ELit (LStr (js "a")) false (Span 17 20); EVar (js "p") (Span 22 23)]
           (Span 12 24))
        (ECall (js "u") [EVar (js "p") (Span 29 30)] (Span 27 31)) (Span 0 31)).
Proof. vm_compute. reflexivity. Qed.
Example parse_ex3 :
  parse (js "p +") = throw Dsyntax [] (Some 3).
Proof. vm_compute. reflexivity. Qed.

(** ** The lexer makes progress *)

Lemma skip_ws_bounds s c : c <= skip_ws s c <= c + length s.
Proof.
  revert c. induction s as [|x s IH]; intros c; simpl; [lia|].
  destruct (is_ws x); [|lia]. specialize (IH (S c)). lia.
Qed.

Lemma scan_string_bounds n : forall q st rest pos v w e, length rest <= n ->
  scan_string q st rest pos v = Ok (w, e) -> pos < e <= pos + length rest.
Proof.
  induction n as [|n IH]; intros q st [|c r1] pos v w e Hn; simpl in *; try done; try lia.
  intros H. repeat (destr_match_in H; [|try discriminate H]); simplify_eq; try lia.
  all: repeat (destr_match_in H; simpl in *); simplify_eq; try discriminate H; try lia.
  all: apply IH in H; simpl in *; lia.
Qed.

Lemma scan_string_no_fuel n : forall q st rest pos v, length rest <= n ->
  scan_string q st rest pos v <> Err OutOfFuel.
Proof.
  induction n as [|n IH]; intros q st [|c r1] pos v Hn; simpl in *; try done; try lia.
  repeat (destr_match_goal; try done); simpl in *; apply IH; simpl in *; lia.
Qed.

(** What the parser relies on of a lexeme read between two cursors. *)
Record lex_ok (source : jsstr) (cur cur' : nat) (l : lexeme) : Prop := {
  lex_start : cur <= lstart l;
  lex_end : lend l = cur';
  lex_bound : cur' <= length source;
  lex_last : is_end (kind l) = true -> lstart l = length source /\ lend l = length source;
  lex_nonempty : is_end (kind l) = false -> lstart l < lend l;
  lex_end_text : is_end (kind l) = true -> text l = [];
  lex_number : forall v i, kind l = Knumber v i ->
    is_finite v = true /\ (i = true -> is_safe_integer v = true);
}.

Lemma re_prefix_length r s w : re_prefix r s = Some w -> length w <= length s.
Proof. intros [t ->]%re_prefix_split. rewrite length_app. lia. Qed.

Lemma next_ok source cur cnt l cur' cnt' :
  cur <= length source -> next source cur cnt = Ok (l, cur', cnt') ->
  lex_ok source cur cur' l.
Proof.
  intros Hc H. unfold next in H.
  pose proof (skip_ws_bounds (drop cur source) cur) as Hs.
  rewrite length_drop in Hs. destr_match_in H.
  set (st := skip_ws (drop cur source) cur) in *.
  assert (Hd : length (drop st source) = length source - st) by apply length_drop.
  destruct (drop st source) as [|c rest1] eqn:Hr; simpl in Hd.
  { simplify_eq. split; simpl; try done; try lia. }
  destruct (re_prefix number_re (c :: rest1)) as [t|] eqn:Hn.
  { pose proof (re_prefix_length _ _ _ Hn) as Hl. apply re_prefix_min_len in Hn.
    simpl in Hl, Hn. destr_match_in H. destr_match_in H. simplify_eq.
    split; simpl; try done; try lia. intros ? ? [= <- <-]. bprop. split; [done|].
    intros Hi. match goal with E : (_ && _)%bool = false |- _ => rewrite Hi in E; simpl in E;
      by apply negb_false_iff in E end. }
  clear Hn. destr_match_in H.
  { destruct (scan_string _ _ _ _ _) as [[v e]|] eqn:Hsc; [|done]. simplify_eq.
    apply (scan_string_bounds (length rest1)) in Hsc; [|done].
    split; simpl; try done; try lia. }
  destruct (re_prefix name_re (c :: rest1)) as [t|] eqn:Hn.
  { pose proof (re_prefix_length _ _ _ Hn) as Hl. apply re_prefix_min_len in Hn.
    simpl in Hl, Hn. simplify_eq. split; simpl; try done; try lia. }
  destruct (re_prefix operator_re (c :: rest1)) as [t|] eqn:Ho; [|done].
  pose proof (re_prefix_length _ _ _ Ho) as Hl. apply re_prefix_min_len in Ho.
  simpl in Hl, Ho. simplify_eq. split; simpl; try done; try lia.
Qed.

Lemma next_no_fuel source cur cnt : next source cur cnt <> Err OutOfFuel.
Proof.
  unfold next. destr_match_goal; [done|].
  destruct (drop _ source) as [|c rest1]; [done|].
  destruct (re_prefix number_re _); [repeat destr_match_goal; done|].
  destr_match_goal.
  - pose proof (scan_string_no_fuel (length rest1) c
      (skip_ws (drop cur source) cur) rest1 (S (skip_ws (drop cur source) cur)) [])
      as Hn. destruct (scan_string _ _ _ _ _) as [[]|]; [done|].
    intros [= ->]. by apply Hn.
  - repeat destr_match_goal; done.
Qed.
