(* ===== verification/ExprParserSpec.v ===== *)
(** * Correctness of the parser

    Every tree [BillingParser] builds is well formed: spans nest and never
    coincide, variables, functions, arities, operators and literals are the
    declared ones, and operands bind as the precedence table says.  The parser
    always terminates. *)

From S2P Require Import Prelude JsString JsNumber JsRegex JsValue ExprTypes ExprParser.

(** ** Well-formed trees *)

(** [cs] are disjoint, in order, within [lo, hi]. *)
Fixpoint ordered (lo hi : nat) (cs : list expr) : Prop :=
  match cs with
  | [] => lo <= hi
  | c :: cs' => lo <= estart c /\ estart c < eend c /\ ordered (eend c) hi cs'
  end.

Inductive spans_ok : expr -> Prop :=
| spans_ok_intro e :
    estart e < eend e ->
    ordered (estart e) (eend e) (children e) ->
    (forall x, In x (children e) -> spans_ok x) ->
    (forall x, In x (children e) -> span_of x <> span_of e) ->
    spans_ok e.

Definition node_wf (e : expr) : Prop :=
  match e with
  | ELit (LNum x) i _ => is_finite x = true /\ (i = true -> is_safe_integer x = true)
  | ELit _ i _ => i = false
  | EVar n _ => In n BILLING_VARIABLES
  | ECall n args _ => assoc_get str_eqb n BILLING_FUNCTIONS = Some (length args)
  | EUnary op _ _ => In op [js "!"; js "+"; js "-"]
  | EBinary op _ _ _ => is_Some (precedence op)
  | ECond _ _ _ _ => True
  end.

(** How tightly a node binds: an operator node that starts where its first
    operand starts is not parenthesised. *)
Definition level (e : expr) : Z :=
  match e with
  | EBinary op l _ _ =>
      if Nat.eqb (estart e) (estart l) then default 0%Z (precedence op) else 100
  | ECond c _ _ _ => if Nat.eqb (estart e) (estart c) then 0 else 100
  | _ => 100
  end.

Definition binds_ok (e : expr) : Prop :=
  match e with
  | EBinary op l r _ =>
      forall p, precedence op = Some p -> (p <= level l /\ p < level r)%Z
  | EUnary _ x _ => (7 <= level x)%Z
  | _ => True
  end.

Definition tree_wf (e : expr) : Prop :=
  spans_ok e /\ Forall node_wf (postorder e) /\ Forall binds_ok (postorder e).

(** ** Lists of children *)

Lemma ordered_weaken lo lo' hi hi' cs :
  lo' <= lo -> hi <= hi' -> ordered lo hi cs -> ordered lo' hi' cs.
Proof.
  revert lo lo'. induction cs as [|c cs IH]; intros lo lo' Hl Hh; simpl; [lia|].
  intros (? & ? & ?). split; [lia|]. split; [done|]. by eapply IH; [| |done].
Qed.

Lemma ordered_app lo hi cs c :
  ordered lo (estart c) cs -> estart c < eend c -> eend c <= hi ->
  ordered lo hi (cs ++ [c]).
Proof.
  revert lo. induction cs as [|d cs IH]; intros lo; simpl; intros H Hc Hh; [lia|].
  destruct H as (? & ? & ?). split; [done|]. split; [done|]. by apply IH.
Qed.

Lemma ordered_bounds lo hi cs x :
  ordered lo hi cs -> In x cs -> lo <= estart x /\ eend x <= hi.
Proof.
  revert lo. induction cs as [|c cs IH]; intros lo; simpl; [done|].
  intros (? & ? & Ho) [<-|Hx].
  - split; [done|]. clear IH. revert Ho. generalize (eend c).
    induction cs as [|d cs IHc]; intros n; simpl; [lia|].
    intros (? & ? & Ho). apply IHc in Ho. lia.
  - apply IH in Ho; [|done]. lia.
Qed.

(** Parenthesising a tree keeps it well formed. *)
Lemma children_with_span e sp : children (with_span e sp) = children e.
Proof. by destruct e. Qed.
Lemma span_with_span e sp : span_of (with_span e sp) = sp.
Proof. by destruct e. Qed.

Lemma spans_ok_with_span e s t :
  spans_ok e -> s < estart e -> eend e < t -> spans_ok (with_span e (Span s t)).
Proof.
  intros H Hs Ht. destruct H as [e Hse Ho Hc Hne]. constructor.
  - unfold estart, eend. rewrite span_with_span. simpl. lia.
  - unfold estart, eend. rewrite children_with_span, span_with_span. simpl.
    eapply ordered_weaken; [| |done]; lia.
  - intros x. rewrite children_with_span. apply Hc.
  - intros x. rewrite children_with_span, span_with_span. intros Hx E.
    eapply ordered_bounds in Ho as [Ho _]; [|done].
    unfold estart in *. rewrite E in Ho. simpl in Ho. lia.
Qed.

Lemma Forall_postorder_with_span (P : expr -> Prop) e sp :
  (P e -> P (with_span e sp)) ->
  Forall P (postorder e) -> Forall P (postorder (with_span e sp)).
Proof.
  intros Hp. rewrite !postorder_children, children_with_span, !Forall_app.
  intros [? Hl]. split; [done|]. inversion Hl; subst. constructor; [by apply Hp|constructor].
Qed.

Lemma Forall_postorder_node (P : expr -> Prop) e :
  (forall x, In x (children e) -> Forall P (postorder x)) -> P e ->
  Forall P (postorder e).
Proof.
  intros Hc He. rewrite postorder_children, Forall_app. split; [|by repeat constructor].
  induction (children e) as [|c cs IH]; simpl; [constructor|].
  rewrite Forall_app. split; [apply Hc; by left|]. apply IH. intros; apply Hc; by right.
Qed.

Lemma level_paren e s t : s < estart e -> spans_ok e -> level (with_span e (Span s t)) = 100%Z.
Proof.
  intros Hs H. destruct H as [e _ Ho _ _]. unfold level.
  destruct e; simpl in *; try done; unfold estart at 1; simpl;
    destruct (Nat.eqb_spec s (estart e1)) as [->|]; try done; lia.
Qed.

Lemma precedence_bounds op p : precedence op = Some p -> (1 <= p <= 6)%Z.
Proof.
  unfold precedence, PRECEDENCE. simpl.
  repeat (destruct (str_eqb op _); [intros [= <-]; lia|]). done.
Qed.

(** ** Nodes are identified by their spans *)

Lemma spans_ok_inside e n :
  spans_ok e -> In n (postorder e) ->
  estart e <= estart n /\ estart n < eend n /\ eend n <= eend e.
Proof.
  intros H. revert n. induction H as [e Hs Ho _ IH _].
  intros n. rewrite postorder_children, in_app_iff, in_flat_map.
  intros [(x & Hx & Hn)|[<-|[]]]; [|done].
  specialize (IH x Hx n Hn). eapply ordered_bounds in Ho; [|done]. lia.
Qed.

Lemma NoDup_flat_spans lo hi cs :
  ordered lo hi cs ->
  (forall x, In x cs -> NoDup (map span_of (postorder x)) /\ spans_ok x) ->
  NoDup (map span_of (flat_map postorder cs)).
Proof.
  revert lo. induction cs as [|c cs IH]; intros lo Ho Hc; simpl; [constructor|].
  destruct Ho as (_ & _ & Ho). rewrite map_app. apply list.NoDup_app. split; [|split].
  - apply Hc. by left.
  - intros sp. rewrite !list_elem_of_In, !in_map_iff.
    intros (n & <- & Hn) (m & Hm & Hin). apply in_flat_map in Hin as (d & Hd & Hin).
    apply (spans_ok_inside c) in Hn; [|apply Hc; by left].
    apply (spans_ok_inside d) in Hin; [|apply Hc; by right].
    eapply ordered_bounds in Ho; [|done].
    unfold estart, eend in *. rewrite Hm in Hin. lia.
  - eapply IH; [done|]. intros; apply Hc; by right.
Qed.

Lemma spans_ok_NoDup e : spans_ok e -> NoDup (map span_of (postorder e)).
Proof.
  intros H. induction H as [e Hs Ho Hc IH Hne].
  rewrite postorder_children, map_app. apply list.NoDup_app. split; [|split].
  - eapply NoDup_flat_spans; [done|]. intros x Hx. split; [by apply IH|by apply Hc].
  - intros sp. rewrite !list_elem_of_In. simpl. intros Hin [E|[]]. subst sp.
    apply in_map_iff in Hin as (n & En & Hn). apply in_flat_map in Hn as (x & Hx & Hn).
    apply (Hne x Hx).
    apply spans_ok_inside in Hn; [|by apply Hc]. eapply ordered_bounds in Ho; [|done].
    unfold estart, eend in *. rewrite En in Hn.
    destruct (span_of x), (span_of e); simpl in *. f_equal; lia.
  - apply NoDup_singleton.
Qed.

(** ** The parser state *)

Definition st_ok (source : jsstr) (st : pstate) : Prop :=
  exists c0, lex_ok source c0 (cursor st) (current st).

(** An upper bound on the lexemes still to read. *)
Definition remaining (source : jsstr) (st : pstate) : nat :=
  length source - cursor st + (if is_end (kind (current st)) then 0 else 1).

Definition next_below (min : Z) (st : pstate) : Prop :=
  forall p, precedence (text (current st)) = Some p -> (p < min)%Z.

Record step_ok (source : jsstr) (st st' : pstate) : Prop := {
  step_st : st_ok source st';
  step_depth : pdepth st' = pdepth st;
  step_rem : remaining source st' <= remaining source st;
}.

Lemma take_ok source st :
  st_ok source st ->
  match take_token source st with
  | Ok (tok, st') =>
      tok = current st /\ step_ok source st st' /\ lend tok <= lstart (current st') /\
      (is_end (kind tok) = false -> remaining source st' < remaining source st)
  | Err x => x <> OutOfFuel
  end.
Proof.
  intros [c0 H]. unfold take_token.
  destruct (next source (cursor st) (count st)) as [[[l cur] cnt]|x] eqn:E.
  - apply next_ok in E; [|by destruct H]. split; [done|].
    destruct H as [_ He Hb Hl _ _ _]. pose proof E as [Es Ee Eb El En _ _].
    assert (Hr : remaining source (PState cur cnt (pdepth st) l) <= length source - cursor st).
    { unfold remaining. simpl. destruct (is_end (kind l)) eqn:Ek; [lia|].
      specialize (En eq_refl). lia. }
    split; [|split].
    + split; [|done|].
      * eexists. apply E.
      * unfold remaining at 2. lia.
    + simpl. lia.
    + unfold remaining at 2. intros ->. lia.
  - intros ->. by eapply next_no_fuel.
Qed.

(** A lexeme with text is not the end of the input. *)
Lemma text_not_end source st :
  st_ok source st -> text (current st) <> [] -> is_end (kind (current st)) = false.
Proof.
  intros [c0 H] Ht. destruct (is_end _) eqn:E; [|done]. by apply (lex_end_text _ _ _ _ H) in E.
Qed.

Lemma token_not_end source t st :
  st_ok source st -> is_token t st = true -> t <> [] -> is_end (kind (current st)) = false.
Proof.
  intros Hst Ht Hne. apply (text_not_end source); [done|].
  apply str_eqb_eq in Ht. congruence.
Qed.

Lemma current_span source st :
  st_ok source st -> lstart (current st) <= lend (current st) <= length source.
Proof.
  intros [c0 [Hs He Hb Hl Hn _ _]]. destruct (is_end _) eqn:E.
  - destruct Hl; [done|]. lia.
  - specialize (Hn eq_refl). lia.
Qed.

Lemma step_trans source st1 st2 st3 :
  step_ok source st1 st2 -> step_ok source st2 st3 -> step_ok source st1 st3.
Proof. intros [] []. split; [done|congruence|lia]. Qed.

(** [take()] and [expect(t)] on a lexeme that is not the end. *)
Lemma take_some source st :
  st_ok source st -> is_end (kind (current st)) = false ->
  match take_token source st with
  | Ok (tok, st') =>
      tok = current st /\ step_ok source st st' /\ lend tok <= lstart (current st') /\
      lstart tok < lend tok /\ remaining source st' < remaining source st
  | Err x => x <> OutOfFuel
  end.
Proof.
  intros Hst Hne. pose proof (take_ok source st Hst) as H.
  destruct (take_token source st) as [[tok st']|]; [|done].
  destruct H as (-> & ? & ? & Hr). destruct Hst as [c0 Hl].
  pose proof (lex_nonempty _ _ _ _ Hl Hne). by split_and!; auto.
Qed.

Lemma expect_some source t st :
  st_ok source st -> t <> [] ->
  match expect source t st with
  | Ok (tok, st') =>
      tok = current st /\ step_ok source st st' /\ lend tok <= lstart (current st') /\
      lstart tok < lend tok /\ remaining source st' < remaining source st
  | Err x => x <> OutOfFuel
  end.
Proof.
  intros Hst Hne. unfold expect. destruct (is_token t st) eqn:E; [|done]. simpl.
  apply take_some; [done|]. by eapply token_not_end.
Qed.

(** ** Specifications of the four parsing functions *)

Definition expr_spec (source : jsstr) (f : nat) : Prop :=
  forall min st, st_ok source st -> (0 <= min <= 7)%Z ->
  match expression source f min st with
  | Ok (e, st') =>
      tree_wf e /\ step_ok source st st' /\ remaining source st' < remaining source st /\
      estart e = lstart (current st) /\ eend e <= lstart (current st') /\
      (min <= level e)%Z /\ next_below min st'
  | Err x => x = OutOfFuel -> f < 3 * remaining source st + 3
  end.

Definition primary_spec (source : jsstr) (f : nat) : Prop :=
  forall st, st_ok source st ->
  match primary source f st with
  | Ok (e, st') =>
      tree_wf e /\ step_ok source st st' /\ remaining source st' < remaining source st /\
      estart e = lstart (current st) /\ eend e <= lstart (current st') /\ level e = 100%Z
  | Err x => x = OutOfFuel -> f < 3 * remaining source st + 2
  end.

Definition loop_spec (source : jsstr) (f : nat) : Prop :=
  forall min lhs st, st_ok source st -> (0 <= min <= 7)%Z -> tree_wf lhs ->
  eend lhs <= lstart (current st) -> (min <= level lhs)%Z -> next_below (level lhs + 1) st ->
  match binary_loop source f min lhs st with
  | Ok (e, st') =>
      tree_wf e /\ step_ok source st st' /\
      estart e = estart lhs /\ eend e <= lstart (current st') /\
      (min <= level e)%Z /\ next_below min st'
  | Err x => x = OutOfFuel -> f < 3 * remaining source st + 2
  end.

Definition args_spec (source : jsstr) (f : nat) : Prop :=
  forall st args lo, st_ok source st -> ordered lo (lstart (current st)) args ->
  Forall tree_wf args ->
  match args_loop source f st args with
  | Ok (args', st') =>
      step_ok source st st' /\ ordered lo (lstart (current st')) args' /\ Forall tree_wf args'
  | Err x => x = OutOfFuel -> f < 3 * remaining source st + 4
  end.

(** ** The inductive steps *)

Lemma tree_wf_spans e : tree_wf e -> spans_ok e /\ estart e < eend e.
Proof. intros [H _]. split; [done|]. by inversion H. Qed.

Lemma tree_wf_node e :
  estart e < eend e -> ordered (estart e) (eend e) (children e) ->
  (forall x, In x (children e) -> tree_wf x /\ span_of x <> span_of e) ->
  node_wf e -> binds_ok e -> tree_wf e.
Proof.
  intros Hs Ho Hc Hn Hb. split; [|split].
  - constructor; [done|done| |]; intros x Hx; apply Hc in Hx as [[]]; done.
  - apply Forall_postorder_node; [|done]. intros x Hx. by apply Hc in Hx as [(_ & ? & _) _].
  - apply Forall_postorder_node; [|done]. intros x Hx. by apply Hc in Hx as [(_ & _ & ?) _].
Qed.

Lemma tree_wf_binary op lhs rhs p :
  tree_wf lhs -> tree_wf rhs -> precedence op = Some p ->
  eend lhs < estart rhs -> (p <= level lhs)%Z -> (p < level rhs)%Z ->
  tree_wf (EBinary op lhs rhs (Span (estart lhs) (eend rhs))).
Proof.
  intros Hl Hr Hp Hlr Hpl Hpr.
  destruct (tree_wf_spans _ Hl) as [_ ?], (tree_wf_spans _ Hr) as [_ ?].
  apply tree_wf_node; unfold estart, eend in *; simpl; unfold estart, eend.
  - lia.
  - lia.
  - intros x [<-|[<-|[]]]; (split; [done|]).
    + intros E; apply (f_equal end_) in E; simpl in E; lia.
    + intros E; apply (f_equal start) in E; simpl in E; lia.
  - rewrite Hp. by eexists.
  - intros q. rewrite Hp. intros [= <-]. done.
Qed.

Lemma tree_wf_cond c y n :
  tree_wf c -> tree_wf y -> tree_wf n -> eend c < estart y -> eend y < estart n ->
  tree_wf (ECond c y n (Span (estart c) (eend n))).
Proof.
  intros Hc Hy Hn ? ?.
  destruct (tree_wf_spans _ Hc) as [_ ?], (tree_wf_spans _ Hy) as [_ ?],
    (tree_wf_spans _ Hn) as [_ ?].
  apply tree_wf_node; unfold estart, eend in *; simpl; unfold estart, eend.
  - lia.
  - lia.
  - intros x [<-|[<-|[<-|[]]]]; (split; [done|]).
    + intros E; apply (f_equal end_) in E; simpl in E; lia.
    + intros E; apply (f_equal start) in E; simpl in E; lia.
    + intros E; apply (f_equal start) in E; simpl in E; lia.
  - done.
  - done.
Qed.

Lemma tree_wf_leaf e :
  children e = [] -> estart e < eend e -> node_wf e -> binds_ok e -> tree_wf e.
Proof.
  intros Hc Hs Hn Hb. apply tree_wf_node; rewrite ?Hc; simpl; try done. lia.
Qed.

Lemma tree_wf_paren e s t :
  tree_wf e -> s < estart e -> eend e < t -> tree_wf (with_span e (Span s t)).
Proof.
  intros (Hs & Hn & Hb) ? ?. split; [|split].
  - by apply spans_ok_with_span.
  - apply Forall_postorder_with_span; [|done]. by destruct e.
  - apply Forall_postorder_with_span; [|done]. by destruct e.
Qed.

Lemma loop_step source f :
  expr_spec source f -> loop_spec source f -> loop_spec source (S f).
Proof.
  intros IHe IHl min lhs st Hst Hmin Hl Hend Hlv Hnb. cbn [binary_loop].
  destruct (precedence (text (current st))) as [p|] eqn:Hp.
  2: { split_and!; try done. intros p. by rewrite Hp. }
  destruct (Z.leb_spec min p) as [Hmp|Hmp].
  2: { split_and!; try done. intros q. rewrite Hp. intros [= <-]. lia. }
  pose proof (precedence_bounds _ _ Hp) as Hb.
  assert (Hne : is_end (kind (current st)) = false).
  { apply (text_not_end source); [done|]. intros E. by rewrite E in Hp. }
  pose proof (take_some _ _ Hst Hne) as Ht.
  destruct (take_token source st) as [[op st1]|]; [|done].
  destruct Ht as (-> & Hs1 & Hle & Hlt & Hr1).
  pose proof (IHe (p + 1)%Z st1 (step_st _ _ _ Hs1) ltac:(lia)) as He.
  destruct (expression source f (p + 1) st1) as [[rhs st2]|]; [|intros ->; specialize (He eq_refl); lia].
  destruct He as (Hw2 & Hs2 & Hr2 & Hst2 & Hen2 & Hlv2 & Hnb2).
  assert (Hbin : tree_wf (EBinary (text (current st)) lhs rhs (Span (estart lhs) (eend rhs)))).
  { apply (tree_wf_binary _ _ _ p); try done; try lia.
    specialize (Hnb p Hp). lia. }
  assert (Hlev : level (EBinary (text (current st)) lhs rhs (Span (estart lhs) (eend rhs))) = p).
  { unfold level, estart. simpl. unfold estart. by rewrite Nat.eqb_refl, Hp. }
  specialize (IHl min _ st2 (step_st _ _ _ Hs2) Hmin Hbin Hen2).
  rewrite Hlev in IHl. specialize (IHl Hmp Hnb2).
  destruct (binary_loop source f min _ st2) as [[e st3]|].
  - destruct IHl as (? & Hs3 & ? & ? & ? & ?). split_and!; try done.
    eapply step_trans; [done|]. by eapply step_trans.
  - intros ->. specialize (IHl eq_refl). lia.
Qed.

Lemma args_step source f :
  expr_spec source f -> args_spec source f -> args_spec source (S f).
Proof.
  intros IHe IHa st args lo Hst Ho Hw. cbn [args_loop].
  destruct (is_token (js ")") st) eqn:Hc; [by split|].
  pose proof (IHe 0%Z st Hst ltac:(lia)) as He.
  destruct (expression source f 0 st) as [[arg st1]|];
    [|intros ->; specialize (He eq_refl); lia].
  destruct He as (Hw1 & Hs1 & Hr1 & Hst1 & Hen1 & _ & _).
  destruct (tree_wf_spans _ Hw1) as [_ Hlt].
  assert (Ho1 : ordered lo (lstart (current st1)) (args ++ [arg])).
  { apply ordered_app; [by rewrite Hst1|done|done]. }
  assert (Hw' : Forall tree_wf (args ++ [arg])).
  { apply Forall_app. split; [done|]. by constructor. }
  destruct (is_token (js ",") st1) eqn:Hcm; simpl; [|done].
  assert (Hne := token_not_end source (js ",") st1 (step_st _ _ _ Hs1) Hcm ltac:(done)).
  pose proof (take_some _ _ (step_st _ _ _ Hs1) Hne) as Ht.
  destruct (take_token source st1) as [[tok st2]|]; [|done].
  destruct Ht as (-> & Hs2 & Hle & Hlt2 & Hr2).
  specialize (IHa st2 (args ++ [arg]) lo (step_st _ _ _ Hs2)).
  assert (Ho2 : ordered lo (lstart (current st2)) (args ++ [arg])).
  { eapply ordered_weaken; [done| |done]. lia. }
  specialize (IHa Ho2 Hw').
  destruct (args_loop source f st2 (args ++ [arg])) as [[args' st3]|].
  - destruct IHa as (Hs3 & ? & ?). split_and!; try done.
    eapply step_trans; [done|]. by eapply step_trans.
  - intros ->. specialize (IHa eq_refl). lia.
Qed.

Lemma expr_step source f :
  expr_spec source f -> loop_spec source f -> primary_spec source f ->
  expr_spec source (S f).
Proof.
  intros IHe IHl IHp min st Hst Hmin. cbn [expression].
  destruct (128 <? pdepth st + 1)%Z; [done|].
  pose proof (IHp (set_depth (pdepth st + 1) st) Hst) as Hp.
  destruct (primary source f _) as [[lhs st1]|].
  2: { intros ->. specialize (Hp eq_refl). unfold remaining in *. simpl in *. lia. }
  destruct Hp as (Hw1 & Hs1 & Hr1 & Hst1 & Hen1 & Hlv1).
  change (remaining source (set_depth _ st)) with (remaining source st) in Hr1.
  assert (Hnb : next_below (level lhs + 1) st1).
  { intros p Hp. apply precedence_bounds in Hp. lia. }
  pose proof (IHl min lhs st1 (step_st _ _ _ Hs1) Hmin Hw1 Hen1 ltac:(lia) Hnb) as Hl.
  destruct (binary_loop source f min lhs st1) as [[e st2]|].
  2: { intros ->. specialize (Hl eq_refl). lia. }
  destruct Hl as (Hw2 & Hs2 & Hst2 & Hen2 & Hlv2 & Hnb2).
  destruct Hs1 as [Ho1 Hd1 Hq1], Hs2 as [Ho2 Hd2 Hq2]. simpl in Hst1, Hd1.
  destruct ((min =? 0)%Z && is_token (js "?") st2)%bool eqn:Hq.
  2: { split_and!; try done; try lia;
         [|change (remaining source st2 < remaining source st); lia].
       split; [done|simpl; lia|]. unfold remaining in *. simpl in *. lia. }
  apply andb_true_iff in Hq as [Hm0 Hq]. apply Z.eqb_eq in Hm0 as ->.
  assert (Hne := token_not_end source (js "?") st2 Ho2 Hq ltac:(done)).
  pose proof (take_some _ _ Ho2 Hne) as Ht.
  destruct (take_token source st2) as [[tok st3]|]; [|done].
  destruct Ht as (-> & [Ho3 Hd3 _] & Hle3 & Hlt3 & Hr3).
  pose proof (IHe 0%Z st3 Ho3 ltac:(lia)) as Hy.
  destruct (expression source f 0 st3) as [[yes st4]|]; [|intros ->; specialize (Hy eq_refl); lia].
  destruct Hy as (Hw4 & [Ho4 Hd4 _] & Hr4 & Hst4 & Hen4 & _ & _).
  pose proof (expect_some _ (js ":") _ Ho4 ltac:(done)) as Hx.
  destruct (expect source (js ":") st4) as [[tok5 st5]|]; [|done].
  destruct Hx as (-> & [Ho5 Hd5 _] & Hle5 & Hlt5 & Hr5).
  pose proof (IHe 0%Z st5 Ho5 ltac:(lia)) as Hn.
  destruct (expression source f 0 st5) as [[no st6]|]; [|intros ->; specialize (Hn eq_refl); lia].
  destruct Hn as (Hw6 & [Ho6 Hd6 _] & Hr6 & Hst6 & Hen6 & _ & Hnb6).
  split_and!.
  - apply tree_wf_cond; [done|done|done|lia|lia].
  - split; [done|simpl; lia|]. unfold remaining in *. simpl in *. lia.
  - unfold remaining in *. simpl in *. lia.
  - unfold estart at 1. simpl. congruence.
  - exact Hen6.
  - unfold level, estart. simpl. unfold estart. rewrite Nat.eqb_refl. lia.
  - exact Hnb6.
Qed.

(** What [primary] promises of a result [r] that started in state [st]. *)
Definition prim_post (source : jsstr) (f : nat) (st : pstate) (r : result berr (expr * pstate))
  : Prop :=
  match r with
  | Ok (e, st') =>
      tree_wf e /\ step_ok source st st' /\ remaining source st' < remaining source st /\
      estart e = lstart (current st) /\ eend e <= lstart (current st') /\ level e = 100%Z
  | Err x => x = OutOfFuel -> f < 3 * remaining source st + 2
  end.

Section primary_cases.
Context (source : jsstr) (f : nat) (IHe : expr_spec source f) (IHa : args_spec source f).
Context (st st1 : pstate) (Hs1 : step_ok source st st1).
Context (Hle1 : lend (current st) <= lstart (current st1)).
Context (Hlt1 : lstart (current st) < lend (current st)).
Context (Hr1 : remaining source st1 < remaining source st).

Lemma leaf_case e :
  children e = [] -> span_of e = Span (lstart (current st)) (lend (current st)) ->
  level e = 100%Z -> node_wf e -> binds_ok e -> prim_post source (S f) st (Ok (e, st1)).
Proof.
  intros Hc Hsp Hlv Hn Hb. unfold prim_post, estart, eend. rewrite Hsp. simpl.
  split; [|by eauto 10]. apply tree_wf_leaf; [exact Hc| |exact Hn|exact Hb].
  unfold estart, eend. rewrite Hsp. exact Hlt1.
Qed.

Lemma paren_case :
  prim_post source (S f) st
    (let? (e, st2) := expression source f 0 st1 in
     let? (close, st3) := expect source (js ")") st2 in
     Ok (with_span e (Span (lstart (current st)) (lend close)), st3)).
Proof.
  pose proof (IHe 0%Z st1 (step_st _ _ _ Hs1) ltac:(lia)) as He.
  destruct (expression source f 0 st1) as [[e st2]|];
    [|intros ->; specialize (He eq_refl); lia].
  destruct He as (Hw2 & Hs2 & Hr2 & Hst2 & Hen2 & _ & _).
  pose proof (expect_some _ (js ")") _ (step_st _ _ _ Hs2) ltac:(done)) as Hx.
  destruct (expect source (js ")") st2) as [[tok st3]|]; [|intros E; by destruct (Hx E)].
  destruct Hx as (-> & Hs3 & Hle3 & Hlt3 & Hr3). unfold prim_post, estart, eend.
  rewrite span_with_span. simpl. split; [apply tree_wf_paren; [exact Hw2|lia|lia]|].
  split; [eapply step_trans; [exact Hs1|eapply step_trans; [exact Hs2|exact Hs3]]|].
  split; [lia|]. split; [reflexivity|]. split; [lia|].
  apply level_paren; [lia|]. exact (proj1 (tree_wf_spans _ Hw2)).
Qed.

Lemma unary_case :
  In (text (current st)) [js "!"; js "+"; js "-"] ->
  prim_post source (S f) st
    (let? (operand, st2) := expression source f 7 st1 in
     Ok (EUnary (text (current st)) operand
           (Span (lstart (current st)) (eend operand)), st2)).
Proof.
  intros Hop. pose proof (IHe 7%Z st1 (step_st _ _ _ Hs1) ltac:(lia)) as He.
  destruct (expression source f 7 st1) as [[e st2]|];
    [|intros ->; specialize (He eq_refl); lia].
  destruct He as (Hw2 & Hs2 & Hr2 & Hst2 & Hen2 & Hlv2 & _).
  destruct (tree_wf_spans _ Hw2) as [_ Hlt2].
  unfold prim_post. split.
  - apply tree_wf_node; unfold estart, eend in *; simpl; unfold estart, eend.
    + lia.
    + lia.
    + intros x [<-|[]]. split; [exact Hw2|].
      intros E; apply (f_equal start) in E; simpl in E; lia.
    + exact Hop.
    + exact Hlv2.
  - split; [eapply step_trans; [exact Hs1|exact Hs2]|].
    split; [lia|]. split; [reflexivity|]. split; [exact Hen2|reflexivity].
Qed.

Lemma call_case arity :
  is_token (js "(") st1 = true ->
  assoc_get str_eqb (text (current st)) BILLING_FUNCTIONS = Some arity ->
  prim_post source (S f) st
    (let? (_, st2) := take_token source st1 in
     let? (args, st3) := args_loop source f st2 [] in
     let? (close, st4) := expect source (js ")") st3 in
     if negb (Nat.eqb (length args) arity) then
       throw Dtype (text (current st)) (Some (lstart (current st)))
     else
       Ok (ECall (text (current st)) args (Span (lstart (current st)) (lend close)), st4)).
Proof.
  intros Ht Hf.
  assert (Hne := token_not_end source (js "(") st1 (step_st _ _ _ Hs1) Ht ltac:(done)).
  pose proof (take_some _ _ (step_st _ _ _ Hs1) Hne) as Hk.
  destruct (take_token source st1) as [[tok st2]|]; [|intros E; by destruct (Hk E)].
  destruct Hk as (-> & Hs2 & Hle2 & Hlt2 & Hr2).
  pose proof (IHa st2 [] (lend (current st1)) (step_st _ _ _ Hs2)) as Ha.
  simpl in Ha. specialize (Ha Hle2 ltac:(constructor)).
  destruct (args_loop source f st2 []) as [[args st3]|];
    [|intros ->; specialize (Ha eq_refl); lia].
  destruct Ha as (Hs3 & Ho3 & Hw3).
  pose proof (expect_some _ (js ")") _ (step_st _ _ _ Hs3) ltac:(done)) as Hx.
  destruct (expect source (js ")") st3) as [[tok st4]|]; [|intros E; by destruct (Hx E)].
  destruct Hx as (-> & Hs4 & Hle4 & Hlt4 & Hr4).
  destruct (Nat.eqb_spec (length args) arity) as [Har|]; [|done]. simpl.
  split.
  - pose proof (current_span _ _ (step_st _ _ _ Hs3)).
    assert (Hin : forall x, In x args -> lend (current st1) <= estart x)
      by (intros x Hx'; exact (proj1 (ordered_bounds _ _ _ _ Ho3 Hx'))).
    assert (lend (current st1) <= lstart (current st3)).
    { pose proof (step_st _ _ _ Hs3) as [c3 [Hc3 _ _ _ _ _ _]].
      clear -Ho3. revert Ho3. generalize (lend (current st1)).
      induction args as [|a args IH]; intros n; simpl; [done|].
      intros (? & ? & Ho). apply IH in Ho. lia. }
    apply tree_wf_node; unfold estart, eend in *; simpl; unfold estart, eend.
    + lia.
    + eapply ordered_weaken; [| |exact Ho3]; lia.
    + intros x Hx. split; [exact (proj1 (List.Forall_forall _ _) Hw3 x Hx)|].
      intros E; apply (f_equal start) in E; simpl in E. specialize (Hin x Hx). lia.
    + exact (eq_trans Hf (f_equal Some (eq_sym Har))).
    + done.
  - split; [eapply step_trans; [exact Hs1|eapply step_trans; [exact Hs2|eapply step_trans;
      [exact Hs3|exact Hs4]]]|].
    destruct Hs3 as [_ _ Hq3].
    split; [lia|]. split; [reflexivity|]. split; [exact Hle4|reflexivity].
Qed.
End primary_cases.

Lemma primary_step source f :
  expr_spec source f -> args_spec source f -> primary_spec source (S f).
Proof.
  intros IHe IHa st Hst.
  enough (prim_post source (S f) st (primary source (S f) st)) as H by exact H.
  cbn [primary]. destruct (is_end (kind (current st))) eqn:Hend.
  { pose proof (take_ok _ _ Hst) as Ht.
    destruct (take_token source st) as [[tok st1]|]; [|intros E; by destruct (Ht E)].
    destruct Ht as (-> & _). destruct Hst as [c0 Hl].
    rewrite (lex_end_text _ _ _ _ Hl Hend). by destruct (kind (current st)). }
  assert (Hnum : forall v i, kind (current st) = Knumber v i ->
     is_finite v = true /\ (i = true -> is_safe_integer v = true)).
  { destruct Hst as [c0 Hl]. apply (lex_number _ _ _ _ Hl). }
  pose proof (take_some _ _ Hst Hend) as Ht.
  destruct (take_token source st) as [[tok st1]|]; [|intros E; by destruct (Ht E)].
  destruct Ht as (-> & Hs1 & Hle1 & Hlt1 & Hr1).
  destruct (kind (current st)) as [v i|v| | |] eqn:Hk; [| | | |done].
  { apply leaf_case; try assumption; try reflexivity; try exact I.
    exact (Hnum v i eq_refl). }
  { by apply leaf_case. }
  all: destruct (str_eqb (text (current st)) (js "(")); [by apply paren_case|].
  all: destruct (str_mem (text (current st)) _) eqn:Hu;
    [apply str_mem_In in Hu; by apply unary_case|].
  { done. }
  destruct (str_eqb (text (current st)) (js "nil")); [by apply leaf_case|].
  destruct (str_mem (text (current st)) [js "true"; js "false"]); [by apply leaf_case|].
  destruct (is_token (js "(") st1) eqn:Hp; cbn [negb].
  - destruct (assoc_get str_eqb (text (current st)) BILLING_FUNCTIONS) eqn:Hf; [|done].
    by apply call_case.
  - destruct (str_mem (text (current st)) BILLING_VARIABLES) eqn:Hv; cbn [negb]; [|done].
    apply str_mem_In in Hv. by apply leaf_case.
Qed.

Lemma parser_specs source f :
  expr_spec source f /\ loop_spec source f /\ primary_spec source f /\ args_spec source f.
Proof.
  induction f as [|f (IHe & IHl & IHp & IHa)].
  - split_and!; intros ?; intros; simpl; lia.
  - split; [by apply expr_step|]. split; [by apply loop_step|].
    split; [by apply primary_step|by apply args_step].
Qed.

(** ** The whole parser *)

Lemma new_parser_ok source :
  match new_parser source with
  | Ok st => st_ok source st /\ remaining source st <= length source + 1
  | Err x => x <> OutOfFuel
  end.
Proof.
  unfold new_parser. destruct (65536 <? _)%Z; [done|].
  assert (Hc : match (match re_exec version_re source with
      | Some m =>
          let n := length source - length (rest m) in
          if negb (str_eqb (default [] (get_cap 1 m)) (js "1"))
          then throw Dunsupported (take n source) None
          else Ok n
      | None => Ok 0
      end : result berr nat) with Ok c => c <= length source | Err x => x <> OutOfFuel end).
  { destruct (re_exec version_re source); [|lia]. cbn zeta.
    destruct (negb _); [done|lia]. }
  match goal with |- match match ?x with _ => _ end with _ => _ end => destruct x as [cur|] end;
    [|done].
  destruct (next source cur 0) as [[[l cur'] cnt]|] eqn:E;
    [|intros ->; by eapply next_no_fuel].
  apply next_ok in E; [|done]. split; [eexists; exact E|].
  unfold remaining. simpl. destruct (is_end _); lia.
Qed.

Lemma parse_ok source :
  match parse source with
  | Ok e => tree_wf e /\ eend e <= length source
  | Err x => x <> OutOfFuel
  end.
Proof.
  unfold parse. pose proof (new_parser_ok source) as Hn.
  destruct (new_parser source) as [st|]; [|done]. destruct Hn as [Hst Hr].
  destruct (parser_specs source (parse_fuel source)) as [He _].
  specialize (He 0%Z st Hst ltac:(lia)).
  destruct (expression source (parse_fuel source) 0 st) as [[e st']|].
  - destruct He as (Hw & Hs & _ & _ & Hend & _).
    destruct (negb _); [done|]. split; [done|].
    pose proof (current_span _ _ (step_st _ _ _ Hs)). lia.
  - intros ->. specialize (He eq_refl). unfold parse_fuel in He. lia.
Qed.

(** ** Only own diagnostics are thrown *)

(** A computation that never reads a property of [undefined]. *)
Definition no_engine {A} (r : result berr A) : Prop := r <> Err EngineError.

Lemma no_engine_bind {A B} (r : result berr A) (k : A -> result berr B) :
  no_engine r -> (forall a, r = Ok a -> no_engine (k a)) -> no_engine (let? a := r in k a).
Proof. destruct r; unfold no_engine; [eauto|congruence]. Qed.

Lemma scan_string_no_engine q st rest : forall pos v, no_engine (scan_string q st rest pos v).
Proof.
  induction rest as [rest IH] using (induction_ltof1 _ (@length N)). unfold ltof in IH.
  intros pos v. unfold no_engine in *. destruct rest as [|c rest]; [done|]. cbn [scan_string].
  repeat destr_match_goal; try done; subst; apply IH; simpl; lia.
Qed.

Lemma next_no_engine source cur cnt : no_engine (next source cur cnt).
Proof.
  unfold next, no_engine. cbn zeta. destruct (10000 <? _)%Z; [done|].
  destruct (drop _ source) as [|c r]; [done|]. destruct (re_prefix number_re _).
  { repeat destr_match_goal; done. }
  destruct (_ || _).
  - pose proof (scan_string_no_engine c (skip_ws (drop cur source) cur) r
      (S (skip_ws (drop cur source) cur)) []) as Hs.
    destruct (scan_string _ _ _ _ _) as [[? ?]|]; [done|]. unfold no_engine in Hs. congruence.
  - repeat destr_match_goal; done.
Qed.

Lemma take_no_engine source st : no_engine (take_token source st).
Proof.
  unfold take_token. pose proof (next_no_engine source (cursor st) (count st)).
  unfold no_engine in *. destruct (next _ _ _) as [[[? ?] ?]|]; congruence.
Qed.

Lemma expect_no_engine source t st : no_engine (expect source t st).
Proof. unfold expect. destruct (negb _); [done|apply take_no_engine]. Qed.

Lemma parser_no_engine source f :
  (forall m st, no_engine (expression source f m st)) /\
  (forall m l st, no_engine (binary_loop source f m l st)) /\
  (forall st, no_engine (primary source f st)) /\
  (forall st l, no_engine (args_loop source f st l)).
Proof.
  induction f as [|f (IHe & IHb & IHp & IHa)]; [split_and!; done|].
  pose proof (take_no_engine source) as Ht. pose proof (expect_no_engine source) as Hx.
  split; [|split; [|split]]; intros; cbn [expression binary_loop primary args_loop]; cbn zeta;
    repeat first
      [ apply no_engine_bind; [auto|intros [? ?] _]
      | done | apply IHe | apply IHb | apply IHp | apply IHa
      | match goal with
        | |- no_engine (if ?b then _ else _) => destruct b
        | |- no_engine (match ?x with _ => _ end) => destruct x as [] eqn:?
        end ].
Qed.

Lemma parse_no_engine source : no_engine (parse source).
Proof.
  unfold parse. apply no_engine_bind.
  - unfold new_parser. destruct (65536 <? _)%Z; [done|]. apply no_engine_bind.
    + destruct (re_exec _ _); [|done]. cbn zeta. by destruct (negb _).
    + intros n _. apply no_engine_bind; [apply next_no_engine|]. by intros [[? ?] ?].
  - intros st _. apply no_engine_bind; [apply parser_no_engine|]. intros [? ?] _.
    by destruct (negb _).
Qed.

(** A computation that succeeds or throws a diagnostic of the engine: it neither
    reads a property of [undefined] nor runs out of fuel. *)
Definition own {A} (r : result berr A) : Prop :=
  match r with Err EngineError | Err OutOfFuel => False | _ => True end.

Lemma own_bind {A B} (r : result berr A) (k : A -> result berr B) :
  own r -> (forall a, r = Ok a -> own (k a)) -> own (let? a := r in k a).
Proof. destruct r as [a|[]]; simpl; eauto. Qed.

Lemma parse_own source : own (parse source).
Proof.
  pose proof (parse_no_engine source) as He. pose proof (parse_ok source) as Hp.
  unfold no_engine in He. by destruct (parse source) as [|[]].
Qed.

(** C3: the parser terminates on every source, with a tree or with one of its own
    diagnostics: neither its loops nor its recursion exhaust the fuel
    [3 * length + 10] of the model, and it never reads a property of
    [undefined]. *)
Theorem parse_terminates source : own (parse source).
Proof. apply parse_own. Qed.

(** In a parsed tree every node covers a non-empty range of the source,
    children lie inside their parent in order and without overlap, and no two
    nodes have the same range.  Comparing nodes by value therefore agrees with
    the identity comparison of the source ([rule.node === node]). *)
Theorem parsed_nodes_distinct source :
  match parse source with
  | Ok e =>
      spans_ok e /\ eend e <= length source /\
      NoDup (map span_of (postorder e)) /\
      (forall n, In n (postorder e) ->
         estart e <= estart n /\ estart n < eend n /\ eend n <= eend e)
  | Err _ => True
  end.
Proof.
  pose proof (parse_ok source) as H. destruct (parse source) as [e|]; [|done].
  destruct H as [[Hs _] Hb]. split_and!; try done.
  - by apply spans_ok_NoDup.
  - intros n. by apply spans_ok_inside.
Qed.

(** Every node of a parsed tree is one the grammar declares: variables and
    functions come from the tables, calls have the declared arity, operators
    are known, and a numeric literal is finite and, when it is marked integer,
    a safe integer. *)
Theorem parsed_nodes_declared source :
  match parse source with
  | Ok e => Forall node_wf (postorder e)
  | Err _ => True
  end.
Proof. pose proof (parse_ok source) as H. destruct (parse source); [|done]. apply H. Qed.

(** Operators bind by the precedence table and associate to the left: the
    left operand of a binary node binds at least as tightly as the node, the
    right operand strictly more tightly, and a unary operator applies to a
    primary expression, parentheses counting as tightest. *)
Theorem parsed_precedence source :
  match parse source with
  | Ok e => Forall binds_ok (postorder e)
  | Err _ => True
  end.
Proof. pose proof (parse_ok source) as H. destruct (parse source); [|done]. apply H. Qed.
