(* ===== verification/ExprSpelling.v ===== *)
(** * What the text of a node says

    The lexemes of the source, brackets and commas aside, spell the tree the
    parser builds, node by node and in order.  Lexing is local: the text of a node
    alone has the lexemes the parser read there.  So the text of a node, cut out of
    the source, determines what the node says, which is what the displays that use
    such texts as keys rely on. *)

From S2P Require Import Prelude JsString JsNumber JsRegex JsValue ExprTypes ExprParser ExprParserSpec.

(** ** Matching is local

    A pattern without anchors, groups and back references that matches within
    the first part of its input matches the same in that part alone. *)
Fixpoint plain_re (r : re) : bool :=
  match r with
  | REps | RChar _ => true
  | RCat a b | RAlt a b => plain_re a && plain_re b
  | RStar a => plain_re a
  | RGroup _ _ | RBack _ | REnd => false
  end.

Section local.
Variable u : jsstr.

Definition extend (st : mstate) : mstate := MState (rest st ++ u) (caps st).

(** What matching [x ++ u] says about matching [x]. *)
Definition restricts (full part : option mstate) : Prop :=
  match full with
  | None => part = None
  | Some y => length u <= length (rest y) -> exists y', part = Some y' /\ y = extend y'
  end.

Definition consumes (k : mstate -> option mstate) : Prop :=
  forall st y, k st = Some y -> length (rest y) <= length (rest st).

Definition tracks (k1 k2 : mstate -> option mstate) : Prop :=
  forall st, restricts (k1 (extend st)) (k2 st).

Lemma rmatch_consumes r k : consumes k -> consumes (fun st => rmatch r st k).
Proof.
  intros Hk st y (st' & Hm & H)%rmatch_sound. apply rmatches_length in Hm. apply Hk in H. lia.
Qed.

Lemma rmatch_star_consumes a k f : consumes k -> consumes (star_loop (rmatch a) (groups a) k f).
Proof.
  intros Hk. induction f as [|f IH]; intros st y; simpl; [apply Hk|].
  destruct (rmatch a _ _) eqn:E; [|apply Hk]. intros [= <-].
  apply rmatch_sound in E as (st' & _ & E). cbv beta in E. destruct (Nat.ltb_spec (length (rest st')) (length (rest st))); [|done].
  apply IH in E. lia.
Qed.

Lemma restricts_alt f1 p1 f2 p2 :
  restricts f1 p1 -> restricts f2 p2 ->
  restricts (match f1 with Some x => Some x | None => f2 end)
            (match p1 with Some x => Some x | None => p2 end).
Proof.
  intros H1 H2. destruct f1 as [y|]; simpl in *; [|by rewrite H1].
  intros Hl. destruct (H1 Hl) as (y' & -> & ->). eauto.
Qed.

Lemma extend_reset ns st : reset_caps ns (extend st) = extend (reset_caps ns st).
Proof. done. Qed.

Lemma star_tracks a k1 k2 :
  (forall k1 k2, consumes k1 -> tracks k1 k2 -> tracks (fun st => rmatch a st k1) (fun st => rmatch a st k2)) ->
  consumes k1 -> tracks k1 k2 ->
  forall f1 f2 st, length (rest st ++ u) <= f1 -> length (rest st) <= f2 ->
  restricts (star_loop (rmatch a) (groups a) k1 f1 (extend st))
            (star_loop (rmatch a) (groups a) k2 f2 st).
Proof.
  intros IHa Hc Hk. induction f1 as [|f1 IH]; intros f2 st H1 H2; simpl.
  - rewrite length_app in H1. destruct f2; simpl; [apply Hk|].
    enough (rmatch a (reset_caps (groups a) st) (fun st' =>
      if Nat.ltb (length (rest st')) (length (rest st))
      then star_loop (rmatch a) (groups a) k2 f2 st' else None) = None) as -> by apply Hk.
    destruct (rmatch a _ _) eqn:E; [|done].
    apply rmatch_sound in E as (st' & _ & E). cbv beta in E.
    destruct (Nat.ltb_spec (length (rest st')) (length (rest st))); [lia|done].
  - destruct f2 as [|f2]; simpl.
    + destruct (rmatch a (reset_caps (groups a) (extend st)) _) as [y|] eqn:E; [|apply Hk].
      intros Hl. exfalso. apply rmatch_sound in E as (st' & _ & E). cbv beta in E.
      destruct (Nat.ltb_spec (length (rest st')) (length (rest st ++ u))); [|done].
      rewrite length_app in *. apply rmatch_star_consumes in E; [|done]. lia.
    + apply restricts_alt; [|apply Hk]. rewrite extend_reset. apply IHa.
      * intros st1 y. destruct (Nat.ltb _ _); [|done]. by apply rmatch_star_consumes.
      * intros st1. simpl. rewrite !length_app.
        destruct (Nat.ltb_spec (length (rest st1)) (length (rest st)));
          destruct (Nat.ltb_spec (length (rest st1) + length u) (length (rest st) + length u));
          try lia; [|done].
        apply IH; rewrite ?length_app in *; lia.
Qed.

Lemma rmatch_tracks r k1 k2 :
  plain_re r = true -> consumes k1 -> tracks k1 k2 ->
  tracks (fun st => rmatch r st k1) (fun st => rmatch r st k2).
Proof.
  revert k1 k2. induction r; simpl; intros k1 k2 Hr Hc Hk; bprop; try done.
  - intros [[|c x] cs]; simpl.
    + destruct u as [|c u'] eqn:Eu; simpl; [done|]. destruct (p c); [|done].
      destruct (k1 _) as [y|] eqn:E; [|done]. intros Hl. apply Hc in E. rewrite Eu in Hl. simpl in *. lia.
    + destruct (p c); [|done]. apply (Hk (MState x cs)).
  - intros st. simpl. apply (IHr1 (fun st' => rmatch r2 st' k1) (fun st' => rmatch r2 st' k2)); auto.
    by apply rmatch_consumes.
  - intros st. simpl. apply restricts_alt; [by apply IHr1|by apply IHr2].
  - intros st. simpl. apply star_tracks; auto.
Qed.
End local.

Lemma re_prefix_local r s k :
  plain_re r = true ->
  match re_prefix r s with
  | Some t => length t <= k -> re_prefix r (take k s) = Some t
  | None => re_prefix r (take k s) = None
  end.
Proof.
  intros Hr. unfold re_prefix, re_exec.
  assert (Hc : consumes Some) by (intros st y [= ->]; done).
  assert (Hk : tracks (drop k s) Some Some) by (intros st; simpl; eauto).
  pose proof (rmatch_tracks (drop k s) r Some Some Hr Hc Hk (MState (take k s) [])) as H.
  unfold extend in H. simpl in H. rewrite take_drop in H.
  destruct (rmatch r (MState s []) Some) as [y|] eqn:E; simpl in *; [|by rewrite H].
  apply rmatch_sound in E as (y1 & Hm & [= ->]). apply rmatches_suffix in Hm as [w Hw]. simpl in Hw.
  assert (Hlen := f_equal length Hw). rewrite length_app in Hlen.
  rewrite length_take. intros Ht. destruct H as (y' & -> & Hy).
  { rewrite length_drop. lia. }
  assert (Hl := f_equal (fun st => length (rest st)) Hy). simpl in Hl.
  rewrite length_app, length_drop in Hl. rewrite length_take, take_take. do 2 f_equal. lia.
Qed.

(** ** Lexemes without positions *)
Inductive token : Type :=
| TNum (value : num) (integer : bool)
| TStr (value : jsstr)
| TWord (text : jsstr).

Definition token_of (l : lexeme) : option token :=
  match kind l with
  | Knumber v i => Some (TNum v i)
  | Kstring v => Some (TStr v)
  | Kname | Ksymbol => Some (TWord (text l))
  | Kend => None
  end.

(** The first lexeme of a text and how much of it is consumed. *)
Definition lex (s : jsstr) : option (token * nat) :=
  match next s 0 0 with
  | Ok (l, e, _) => let! t := token_of l in Some (t, e)
  | Err _ => None
  end.

Lemma skip_ws_shift s c : skip_ws s c = c + skip_ws s 0.
Proof.
  revert c. induction s as [|x s IH]; intros c; simpl; [lia|].
  destruct (is_ws x); [|lia]. rewrite (IH (S c)), (IH 1). lia.
Qed.

Lemma scan_string_local n : forall q st st' rest pos pos' v w e k, length rest <= n ->
  scan_string q st rest pos v = Ok (w, e) -> e - pos <= k ->
  scan_string q st' (take k rest) pos' v = Ok (w, pos' + (e - pos)).
Proof.
  induction n as [|n IH]; intros q st st' [|c r1] pos pos' v w e k Hn H Hk; try done; simpl in Hn; [lia|].
  pose proof (scan_string_bounds _ _ _ _ _ _ _ _ (le_n _) H) as Hb. simpl in Hb.
  destruct k as [|k]; [lia|]. cbn [scan_string firstn] in H |- *.
  destruct (N.eqb c q); [injection H as <- <-; do 2 f_equal; lia|].
  destruct (N.eqb c 10 || N.eqb c 13)%bool; [done|].
  destruct (negb (N.eqb c 92)).
  { erewrite (IH _ _ st' r1) by (try done; lia).
    pose proof (scan_string_bounds _ _ _ _ _ _ _ _ (le_n _) H). do 2 f_equal. lia. }
  destruct r1 as [|x r2]; [done|]. simpl in Hn.
  destruct k as [|k]; [exfalso|cbn [firstn]].
  { repeat (destr_match_in H; simpl in *); simplify_eq; try discriminate H;
      apply (scan_string_bounds _ _ _ _ _ _ _ _ (le_n _)) in H; simpl in *; lia. }
  destruct (assoc_get N.eqb x escapes).
  { erewrite (IH _ _ st' r2) by (try done; lia).
    pose proof (scan_string_bounds _ _ _ _ _ _ _ _ (le_n _) H). do 2 f_equal. lia. }
  destruct (N.eqb x (ch "u")); [|destruct (N.eqb x (ch "x")); [|done]].
  - do 4 (destruct r2 as [|? r2]; [done|]).
    destruct (forallb is_hex _) eqn:Hx; [|done].
    pose proof (scan_string_bounds _ _ _ _ _ _ _ _ (le_n _) H).
    do 4 (destruct k as [|k]; [simpl in *; lia|]). cbn [firstn]. rewrite Hx.
    erewrite (IH _ _ st' r2) by (try done; simpl in *; lia). do 2 f_equal. lia.
  - do 2 (destruct r2 as [|? r2]; [done|]).
    destruct (forallb is_hex _) eqn:Hx; [|done].
    pose proof (scan_string_bounds _ _ _ _ _ _ _ _ (le_n _) H).
    do 2 (destruct k as [|k]; [simpl in *; lia|]). cbn [firstn]. rewrite Hx.
    erewrite (IH _ _ st' r2) by (try done; simpl in *; lia). do 2 f_equal. lia.
Qed.

Lemma skip_ws_take s k : skip_ws s 0 < k -> skip_ws (take k s) 0 = skip_ws s 0.
Proof.
  revert k. induction s as [|x s IH]; intros k H; simpl in *; [by destruct k|].
  destruct k as [|k]; [lia|]. simpl. destruct (is_ws x); [|done].
  rewrite skip_ws_shift in H |- *. rewrite (skip_ws_shift s). rewrite IH; lia.
Qed.

(** A lexeme read at a cursor, read at the start of a text cut out of the source. *)
Lemma next_local source c cnt l e cnt' t k :
  c <= length source -> next source c cnt = Ok (l, e, cnt') -> token_of l = Some t ->
  e - c <= k -> lex (take k (drop c source)) = Some (t, e - c) /\ c < e.
Proof.
  intros Hc H Ht Hk. pose proof (next_ok _ _ _ _ _ _ Hc H) as [Hs He Hb _ Hne _ _].
  assert (Hlt : lstart l < lend l).
  { apply Hne. unfold token_of in Ht. by destruct (kind l). }
  split; [|lia]. unfold lex, next in *.
  destruct (10000 <? cnt + 1)%Z; [done|]. change (10000 <? 0 + 1)%Z with false. cbv iota.
  rewrite skip_ws_shift in H. rewrite drop_0.
  set (s := drop c source) in *. set (j := skip_ws s 0) in *.
  assert (Hl : lstart l = c + j).
  { clear -H. cbv zeta in H. repeat (destr_match_in H; simplify_eq; try done). }
  rewrite (skip_ws_take s) by (fold j; lia). fold j. cbv zeta in H |- *.
  rewrite <- drop_drop in H. fold s in H. rewrite skipn_firstn_comm.
  set (r := drop j s) in *. set (m := k - j).
  destruct r as [|x r1] eqn:Er; [by simplify_eq|].
  destruct m as [|m0] eqn:Em; [lia|]. cbn [firstn].
  pose proof (re_prefix_local number_re (x :: r1) (S m0) eq_refl) as Hnum.
  cbn [firstn] in Hnum.
  destruct (re_prefix number_re (x :: r1)) as [w|].
  { destruct (negb (is_finite _)) eqn:Hf; [done|]. destruct (_ && _)%bool eqn:Hi; [done|].
    simplify_eq. simpl in *. rewrite Hnum by lia. rewrite Hf, Hi. unfold token_of. simpl.
    injection Ht as <-. do 2 f_equal. lia. }
  rewrite Hnum. clear Hnum.
  destruct (N.eqb x 34 || N.eqb x 39)%bool.
  { destruct (scan_string x (c + j) r1 (S (c + j)) []) as [[v e']|] eqn:Hsc; [|done].
    simplify_eq. simpl in *.
    erewrite scan_string_local by (try exact Hsc; try done; lia).
    unfold token_of. simpl.
    apply (scan_string_bounds _ _ _ _ _ _ _ _ (le_n _)) in Hsc. rewrite <- H in Ht. injection Ht as <-. do 2 f_equal. lia. }
  pose proof (re_prefix_local name_re (x :: r1) (S m0) eq_refl) as Hnam. cbn [firstn] in Hnam.
  destruct (re_prefix name_re (x :: r1)) as [w|].
  { simplify_eq. simpl in *. rewrite Hnam by lia. unfold token_of. simpl.
    injection Ht as <-. do 2 f_equal. lia. }
  rewrite Hnam. clear Hnam.
  pose proof (re_prefix_local operator_re (x :: r1) (S m0) eq_refl) as Hop. cbn [firstn] in Hop.
  destruct (re_prefix operator_re (x :: r1)) as [w|]; [|done].
  simplify_eq. simpl in *. rewrite Hop by lia. unfold token_of. simpl.
  injection Ht as <-. do 2 f_equal. lia.
Qed.

(** The lexemes of the source between two cursors. *)
Inductive lexes (source : jsstr) : nat -> nat -> list token -> Prop :=
| lexes_nil p : p <= length source -> lexes source p p []
| lexes_cons p n l r m t q ts :
    p <= length source -> next source p n = Ok (l, r, m) -> token_of l = Some t ->
    lexes source r q ts -> lexes source p q (t :: ts).

(** The lexemes of a text that ends with its last one. *)
Inductive lexed : jsstr -> list token -> Prop :=
| lexed_nil : lexed [] []
| lexed_cons s t n ts : lex s = Some (t, n) -> lexed (drop n s) ts -> lexed s (t :: ts).

Lemma lexed_det s ts1 ts2 : lexed s ts1 -> lexed s ts2 -> ts1 = ts2.
Proof.
  intros H. revert ts2. induction H as [|s t n ts Hl _ IH]; intros ts2 H2; inversion H2; subst; try done.
  rewrite Hl in *. simplify_eq. f_equal. auto.
Qed.

Lemma lexes_bounds source p q ts : lexes source p q ts -> p <= q <= length source.
Proof.
  induction 1 as [|p n l r m t q ts Hp Hn Ht _ IH]; [lia|].
  destruct (next_local _ _ _ _ _ _ _ (r - p) Hp Hn Ht ltac:(done)). lia.
Qed.

Lemma lexes_app source p q r ts1 ts2 :
  lexes source p q ts1 -> lexes source q r ts2 -> lexes source p r (ts1 ++ ts2).
Proof. induction 1; simpl; [done|]. intros. econstructor; eauto. Qed.

(** Lexing is local: a stretch of the source has its lexemes by itself. *)
Lemma lexes_lexed source p q ts : lexes source p q ts -> lexed (slice source p q) ts.
Proof.
  induction 1 as [p Hp|p n l r m t q ts Hp Hn Ht Hs IH]; [rewrite slice_nil; constructor|].
  pose proof (lexes_bounds _ _ _ _ Hs) as Hb.
  destruct (next_local _ _ _ _ _ _ _ (q - p) Hp Hn Ht ltac:(lia)) as [Hl Hlt].
  econstructor; [exact Hl|].
  replace (drop (r - p) (slice source p q)) with (slice source r q); [done|].
  unfold slice. rewrite skipn_firstn_comm, drop_drop. f_equal; [lia|f_equal; lia].
Qed.

(** ** The spelling of a tree *)
Definition bool_word (b : bool) : token := TWord (if b then js "true" else js "false").

Fixpoint spelling (e : expr) : list token :=
  match e with
  | ELit (LNum x) i _ => [TNum x i]
  | ELit (LStr s) _ _ => [TStr s]
  | ELit (LBool b) _ _ => [bool_word b]
  | ELit LNull _ _ => [TWord (js "nil")]
  | EVar name _ => [TWord name]
  | ECall name args _ => TWord name :: flat_map spelling args
  | EUnary op x _ => TWord op :: spelling x
  | EBinary op l r _ => spelling l ++ TWord op :: spelling r
  | ECond c y n _ => spelling c ++ TWord (js "?") :: spelling y ++ TWord (js ":") :: spelling n
  end.

Definition open_tok : token := TWord (js "(").
Definition close_tok : token := TWord (js ")").

(** Brackets and commas group; every other lexeme is part of a node. *)
Definition is_silent (t : token) : bool :=
  match t with TWord s => str_mem s [js "("; js ")"; js ","] | _ => false end.
Definition loud (ts : list token) : list token := List.filter (fun t => negb (is_silent t)) ts.

(** Brackets open at the end of a token list that starts with [d] of them. *)
Definition nest1 (t : token) (d : nat) : option nat :=
  match t with
  | TWord s =>
      if str_eqb s (js "(") then Some (S d)
      else if str_eqb s (js ")") then match d with O => None | S d' => Some d' end
      else Some d
  | _ => Some d
  end.
Fixpoint nest (ts : list token) (d : nat) : option nat :=
  match ts with
  | [] => Some d
  | t :: ts' => let! d' := nest1 t d in nest ts' d'
  end.
Definition balanced (ts : list token) : Prop := forall d, nest ts d = Some d.

Lemma nest_app a b d : nest (a ++ b) d = let! d' := nest a d in nest b d'.
Proof. revert d. induction a as [|t a IH]; intros d; simpl; [done|]. by destruct (nest1 t d). Qed.

Lemma balanced_app a b : balanced a -> balanced b -> balanced (a ++ b).
Proof. intros Ha Hb d. by rewrite nest_app, Ha. Qed.

Lemma balanced_paren a : balanced a -> balanced (open_tok :: a ++ [close_tok]).
Proof. intros Ha d. simpl. by rewrite nest_app, Ha. Qed.

Lemma balanced_single t : (forall d, nest1 t d = Some d) -> balanced [t].
Proof. intros H d. simpl. by rewrite H. Qed.

Lemma loud_app a b : loud (a ++ b) = loud a ++ loud b.
Proof. apply filter_app. Qed.

Lemma spelling_with_span e sp : spelling (with_span e sp) = spelling e.
Proof. by destruct e. Qed.

Lemma spelling_nonempty e : spelling e <> [].
Proof.
  destruct e as [[]| | | |? l ? ?|c ? ? ?]; simpl; try done; by destruct (spelling _).
Qed.

(** ** The parser reads what it builds *)
Section parser.
Variable source : jsstr.

(** The current lexeme of the parser was read at [c]. *)
Definition at_ (c : nat) (st : pstate) : Prop :=
  c <= length source /\ exists n m, next source c n = Ok (current st, cursor st, m).

(** The text between two cursors says [e]. *)
Definition spelled (p q : nat) (e : expr) : Prop :=
  exists ts, lexes source p q ts /\ loud ts = spelling e /\ balanced ts.

Definition node_spelled (e : expr) : Prop := spelled (estart e) (eend e) e.
Definition all_spelled (e : expr) : Prop := Forall node_spelled (postorder e).

Lemma next_restart c n l r m :
  c <= length source -> next source c n = Ok (l, r, m) -> next source (lstart l) n = Ok (l, r, m).
Proof.
  intros Hc H. unfold next in H.
  assert (Hs : lstart l = skip_ws (drop c source) c).
  { clear -H. cbv zeta in H. repeat (destr_match_in H; simplify_eq; try done). }
  unfold next. rewrite Hs.
  assert (Hi : skip_ws (drop (skip_ws (drop c source) c) source) (skip_ws (drop c source) c)
               = skip_ws (drop c source) c).
  { rewrite (skip_ws_shift (drop c source)). rewrite <- drop_drop.
    generalize (drop c source) as s. intros s. rewrite skip_ws_shift.
    enough (skip_ws (drop (skip_ws s 0) s) 0 = 0) by lia.
    induction s as [|x s IH]; simpl; [done|]. destruct (is_ws x) eqn:E; simpl; [|by rewrite E].
    by rewrite (skip_ws_shift s 1). }
  rewrite Hi. exact H.
Qed.

(** The next lexeme is consumed. *)
Lemma take_lexes c st tok st' :
  at_ c st -> take_token source st = Ok (tok, st') ->
  tok = current st /\ at_ (lend tok) st' /\
  (forall t, token_of tok = Some t -> lexes source c (lend tok) [t]).
Proof.
  intros [Hc (n & m & Hn)] H. unfold take_token in H. inv_ok H.
  pose proof (next_ok _ _ _ _ _ _ Hc Hn) as [_ He Hb _ _ _ _].
  split; [done|]. rewrite He. split; [by split; simpl; eauto|].
  intros t Ht. econstructor; eauto. by constructor.
Qed.

Lemma expect_lexes s c st tok st' :
  at_ c st -> expect source s st = Ok (tok, st') ->
  tok = current st /\ text tok = s /\ at_ (lend tok) st' /\
  (forall t, token_of tok = Some t -> lexes source c (lend tok) [t]).
Proof.
  intros Ha H. unfold expect in H. destruct (is_token s st) eqn:Ht; [|done].
  simpl in H. eapply take_lexes in H as (-> & H1 & H2); [|done].
  split_and!; try done. by apply str_eqb_eq.
Qed.

(** A lexeme whose text does not start like a number or a string is that word. *)
Definition word_start (s : jsstr) : bool :=
  match s with
  | c :: _ => negb (is_digit c || N.eqb 46 c || N.eqb c 34 || N.eqb c 39)
  | [] => false
  end.

Lemma number_start x r t :
  re_prefix number_re (x :: r) = Some t -> is_digit x = true \/ N.eqb 46 x = true.
Proof.
  destruct (is_digit x) eqn:Hd; [by left|]. destruct (N.eqb 46 x) eqn:Hp; [by right|].
  unfold re_prefix, re_exec, number_re, RPlus, rdigit. cbn [RSeq ROr rmatch rest caps].
  rewrite Hd. change (RLit ".") with (RCat (RChar (N.eqb 46)) REps). cbn [rmatch rest]. by rewrite Hp.
Qed.

Lemma prefix_head r x s t : re_prefix r (x :: s) = Some t -> t <> [] -> head t = Some x.
Proof. intros [w H]%re_prefix_split Hn. destruct t; [done|]. by injection H as <-. Qed.

Lemma word_token c st :
  at_ c st -> word_start (text (current st)) = true ->
  token_of (current st) = Some (TWord (text (current st))).
Proof.
  intros [Hc (n & m & Hn)] Hw. revert Hn Hw. generalize (current st) as l. intros l Hn Hw.
  unfold token_of. unfold next in Hn. cbv zeta in Hn.
  destr_match_in Hn. destruct (drop _ source) as [|x r] eqn:Er.
  { by simplify_eq. }
  destruct (re_prefix number_re (x :: r)) as [t|] eqn:Enum.
  { inv_ok Hn.
    destruct t as [|y t]; [done|]. pose proof (prefix_head _ _ _ _ Enum ltac:(done)) as [= ->].
    apply number_start in Enum. unfold word_start in Hw.
    by destruct Enum as [Hd|Hd]; rewrite Hd, ?orb_true_r in Hw. }
  destruct (N.eqb x 34 || N.eqb x 39)%bool eqn:Eq.
  { destruct (scan_string _ _ _ _ _) as [[v e]|]; [|done]. simplify_eq. exfalso. simpl in Hw.
    unfold slice in Hw. rewrite Er in Hw. destruct (_ - _); [done|]. simpl in Hw.
    apply negb_true_iff in Hw. by rewrite <- orb_assoc, Eq, orb_true_r in Hw. }
  by inv_ok Hn.
Qed.
(** ** Composition *)
Definition plain_word (s : jsstr) : bool := negb (str_mem s [js "("; js ")"; js ","]).

Lemma plain_word_lexeme s : plain_word s = true -> loud [TWord s] = [TWord s] /\ balanced [TWord s].
Proof.
  intros H. split.
  { unfold loud. cbn [List.filter is_silent]. unfold plain_word in H. by rewrite H. }
  apply balanced_single. intros d. unfold plain_word in H. apply negb_true_iff in H. simpl in H.
  bprop. simpl. by rewrite H, H0.
Qed.

Lemma table_word {V} (k : jsstr) (l : list (jsstr * V)) v (P : jsstr -> bool) :
  assoc_get str_eqb k l = Some v -> forallb P (map fst l) = true -> P k = true.
Proof.
  induction l as [|[k' v'] l IH]; simpl; [done|]. destruct (str_eqb k k') eqn:E.
  - apply str_eqb_eq in E as ->. intros _ [H _]%andb_true_iff. done.
  - intros H [_ Hl]%andb_true_iff. auto.
Qed.

Lemma listed_word (k : jsstr) l (P : jsstr -> bool) :
  str_mem k l = true -> forallb P l = true -> P k = true.
Proof. intros H%str_mem_In. rewrite forallb_forall. auto. Qed.

Definition operator_word (s : jsstr) : bool := word_start s && plain_word s.

Lemma precedence_word op p : precedence op = Some p -> operator_word op = true.
Proof. intros H. exact (table_word _ _ _ operator_word H eq_refl). Qed.

Lemma spelled_binary op l r sp p a b :
  spelled p a l -> lexes source a b [TWord op] -> plain_word op = true ->
  spelled b (end_ sp) r -> spelled p (end_ sp) (EBinary op l r sp).
Proof.
  intros (ts1 & H1 & L1 & B1) Ho Hw (ts2 & H2 & L2 & B2).
  destruct (plain_word_lexeme op Hw) as [Lo Bo]. exists (ts1 ++ [TWord op] ++ ts2). split_and!.
  - eapply lexes_app; [exact H1|]. by eapply lexes_app.
  - by rewrite !loud_app, L1, Lo, L2.
  - apply balanced_app; [done|]. by apply balanced_app.
Qed.

Lemma spelled_start c st q e : at_ c st -> spelled c q e -> spelled (lstart (current st)) q e.
Proof.
  intros [Hc (n & m & Hn)] (ts & H & L & B). exists ts. split; [|done].
  pose proof (next_ok _ _ _ _ _ _ Hc Hn) as [Hs He Hb Hl Hne _ _].
  assert (Hlen : lstart (current st) <= length source).
  { destruct (is_end (kind (current st))); [destruct Hl; lia|]. specialize (Hne eq_refl). lia. }
  inversion H as [|? n' l r m' t ? ts' ? Hn' Ht Hts]; subst.
  { exfalso. by apply (spelling_nonempty e). }
  assert (l = current st) as ->.
  { unfold next in Hn, Hn'. cbv zeta in Hn, Hn'.
    destruct (10000 <? n + 1)%Z; [done|]. destruct (10000 <? n' + 1)%Z; [done|].
    clear -Hn Hn'. repeat (destr_match_in Hn'; simplify_eq; try done). }
  econstructor; [exact Hlen| |exact Ht|exact Hts]. eapply next_restart; [exact Hc|exact Hn'].
Qed.
(** ** The four parsing functions *)
Definition reads (c : nat) (st : pstate) (e : expr) (st' : pstate) : Prop :=
  at_ (eend e) st' /\ spelled c (eend e) e /\ estart e = lstart (current st) /\ all_spelled e.

Definition spell_expr (f : nat) : Prop := forall min st c e st',
  at_ c st -> expression source f min st = Ok (e, st') -> reads c st e st'.
Definition spell_prim (f : nat) : Prop := forall st c e st',
  at_ c st -> primary source f st = Ok (e, st') -> reads c st e st'.
Definition spell_loop (f : nat) : Prop := forall min lhs st p e st',
  at_ (eend lhs) st -> spelled p (eend lhs) lhs -> all_spelled lhs ->
  binary_loop source f min lhs st = Ok (e, st') ->
  at_ (eend e) st' /\ spelled p (eend e) e /\ estart e = estart lhs /\ all_spelled e.
Definition spell_args (f : nat) : Prop := forall st args c args' st',
  at_ c st -> args_loop source f st args = Ok (args', st') ->
  exists new c' ts, args' = args ++ new /\ at_ c' st' /\ lexes source c c' ts /\
    loud ts = flat_map spelling new /\ balanced ts /\ Forall all_spelled new.

Lemma all_spelled_root e : all_spelled e -> node_spelled e.
Proof.
  intros H. unfold all_spelled in H. rewrite postorder_children in H.
  apply Forall_app in H as [_ H]. by inversion H.
Qed.

Lemma all_spelled_node e :
  (forall x, In x (children e) -> all_spelled x) -> node_spelled e -> all_spelled e.
Proof. intros Hc Hn. by apply Forall_postorder_node. Qed.

Lemma loop_spells f : spell_expr f -> spell_loop f -> spell_loop (S f).
Proof.
  intros IHe IHl min lhs st p e st' Ha Hs Hall H. cbn [binary_loop] in H.
  destruct (precedence (text (current st))) as [q|] eqn:Hp; [|by simplify_eq].
  destruct (min <=? q)%Z; [|by simplify_eq].
  pose proof (precedence_word _ _ Hp) as [Hw1 Hw2]%andb_true_iff.
  destruct (take_token source st) as [[op st1]|] eqn:Ht; [|done].
  eapply take_lexes in Ht as (-> & Ha1 & Hlex); [|exact Ha].
  specialize (Hlex _ (word_token _ _ Ha Hw1)).
  destruct (expression source f (q + 1) st1) as [[rhs st2]|] eqn:He; [|done].
  eapply IHe in He as (Ha2 & Hs2 & Hst2 & Hall2); [|exact Ha1].
  set (node := EBinary (text (current st)) lhs rhs (Span (estart lhs) (eend rhs))) in *.
  assert (Hsp : forall a, spelled a (eend lhs) lhs -> spelled a (eend rhs) node).
  { intros a Hsa. by eapply (spelled_binary _ _ _ (Span (estart lhs) (eend rhs))). }
  eapply IHl in H; [exact H|exact Ha2|by apply Hsp|].
  apply all_spelled_node; [intros x [<-|[<-|[]]]; done|].
  apply Hsp. exact (all_spelled_root lhs Hall).
Qed.

Lemma args_spells f : spell_expr f -> spell_args f -> spell_args (S f).
Proof.
  intros IHe IHa st args c args' st' Ha H. cbn [args_loop] in H.
  destruct (is_token (js ")") st).
  { simplify_eq. exists [], c, []. rewrite app_nil_r.
    split_and!; try done. constructor. apply Ha. }
  destruct (expression source f 0 st) as [[arg st1]|] eqn:He; [|done].
  eapply IHe in He as (Ha1 & (ts1 & L1 & S1 & B1) & _ & Hall1); [|exact Ha].
  destruct (is_token (js ",") st1) eqn:Hc; cbn [negb] in H.
  2: { simplify_eq. exists [arg], (eend arg), ts1. rewrite S1. simpl. rewrite app_nil_r.
       split_and!; try done. by constructor. }
  apply str_eqb_eq in Hc.
  destruct (take_token source st1) as [[tok st2]|] eqn:Ht; [|done].
  eapply take_lexes in Ht as (-> & Ha2 & Hlex); [|exact Ha1].
  assert (Hw : word_start (text (current st1)) = true) by by rewrite Hc.
  specialize (Hlex _ (word_token _ _ Ha1 Hw)). rewrite Hc in Hlex.
  eapply IHa in H as (new & c' & ts & -> & Ha3 & L3 & S3 & B3 & Hall3); [|exact Ha2].
  exists (arg :: new), c', (ts1 ++ [TWord (js ",")] ++ ts). rewrite <- app_assoc.
  split_and!; try done.
  - eapply lexes_app; [exact L1|]. by eapply lexes_app.
  - by rewrite !loud_app, S1, S3.
  - apply balanced_app; [done|]. apply balanced_app; [|done]. by apply balanced_single.
  - by constructor.
Qed.

Lemma spelled_cond cn y n sp p a b c d :
  spelled p a cn -> lexes source a b [TWord (js "?")] -> spelled b c y ->
  lexes source c d [TWord (js ":")] -> spelled d (end_ sp) n ->
  spelled p (end_ sp) (ECond cn y n sp).
Proof.
  intros (t1 & L1 & S1 & B1) H1 (t2 & L2 & S2 & B2) H2 (t3 & L3 & S3 & B3).
  exists (t1 ++ [TWord (js "?")] ++ t2 ++ [TWord (js ":")] ++ t3). split_and!.
  - repeat (eapply lexes_app; [eassumption|]). done.
  - by rewrite !loud_app, S1, S2, S3.
  - repeat (apply balanced_app; [first [assumption|by apply balanced_single]|]). done.
Qed.

Lemma expr_spells f : spell_expr f -> spell_loop f -> spell_prim f -> spell_expr (S f).
Proof.
  intros IHe IHl IHp min st c e st' Ha H. cbn [expression] in H.
  destruct (128 <? pdepth st + 1)%Z; [done|].
  destruct (primary source f _) as [[lhs st1]|] eqn:Hp; [|done].
  eapply IHp in Hp as (Ha1 & Hs1 & Hst1 & Hall1); [|exact Ha].
  destruct (binary_loop source f min lhs st1) as [[e2 st2]|] eqn:Hl; [|done].
  eapply IHl in Hl as (Ha2 & Hs2 & Hst2 & Hall2); [|exact Ha1|exact Hs1|exact Hall1].
  rewrite Hst1 in Hst2. simpl in Hst2.
  destruct ((min =? 0)%Z && is_token (js "?") st2)%bool eqn:Hq; [|by simplify_eq].
  apply andb_true_iff in Hq as [_ Hq]. apply str_eqb_eq in Hq.
  destruct (take_token source st2) as [[tok st3]|] eqn:Ht; [|done].
  eapply take_lexes in Ht as (-> & Ha3 & Hq1); [|exact Ha2].
  assert (Hw : word_start (text (current st2)) = true) by by rewrite Hq.
  specialize (Hq1 _ (word_token _ _ Ha2 Hw)). rewrite Hq in Hq1.
  destruct (expression source f 0 st3) as [[yes st4]|] eqn:Hy; [|done].
  eapply IHe in Hy as (Ha4 & Hs4 & _ & Hall4); [|exact Ha3].
  destruct (expect source (js ":") st4) as [[tok5 st5]|] eqn:Hx; [|done].
  eapply expect_lexes in Hx as (-> & Hc & Ha5 & Hq2); [|exact Ha4].
  assert (Hw5 : word_start (text (current st4)) = true) by by rewrite Hc.
  specialize (Hq2 _ (word_token _ _ Ha4 Hw5)). rewrite Hc in Hq2.
  destruct (expression source f 0 st5) as [[no st6]|] eqn:Hn; [|done].
  eapply IHe in Hn as (Ha6 & Hs6 & _ & Hall6); [|exact Ha5]. injection H as <- <-.
  assert (Hsp : forall a, spelled a (eend e2) e2 ->
    spelled a (eend no) (ECond e2 yes no (Span (estart e2) (eend no)))).
  { intros a Hsa. by eapply (spelled_cond _ _ _ (Span (estart e2) (eend no))). }
  split; [exact Ha6|]. split; [by apply Hsp|]. split; [exact Hst2|].
  apply all_spelled_node; [intros x [<-|[<-|[<-|[]]]]; done|].
  apply Hsp. exact (all_spelled_root e2 Hall2).
Qed.
Section primary.
Variables (f : nat) (c : nat) (st st1 : pstate).
Hypothesis Ha : at_ c st.
Hypothesis Ha1 : at_ (lend (current st)) st1.
Hypothesis Hlex : forall t, token_of (current st) = Some t -> lexes source c (lend (current st)) [t].

(** A node that the lexeme [current st] starts and that ends at [q]. *)
Lemma starts_spelled e q :
  estart e = lstart (current st) -> eend e = q ->
  (forall x, In x (children e) -> all_spelled x) ->
  spelled c q e -> forall st', at_ q st' -> reads c st e st'.
Proof.
  intros Hs <- Hc Hsp st' Ha'. split; [exact Ha'|]. split; [exact Hsp|]. split; [exact Hs|].
  apply all_spelled_node; [exact Hc|]. unfold node_spelled. rewrite Hs. by eapply spelled_start.
Qed.

Lemma leaf_spells e t :
  span_of e = Span (lstart (current st)) (lend (current st)) -> children e = [] ->
  token_of (current st) = Some t -> spelling e = [t] ->
  loud [t] = [t] -> balanced [t] -> reads c st e st1.
Proof.
  intros Hsp Hc Ht He Hl Hb.
  apply (starts_spelled e (lend (current st))); unfold estart, eend; rewrite ?Hsp; try done.
  - by rewrite Hc.
  - exists [t]. rewrite He. eauto.
Qed.

Lemma word_leaf_spells e s :
  kind (current st) = Kname -> text (current st) = s ->
  span_of e = Span (lstart (current st)) (lend (current st)) -> children e = [] ->
  spelling e = [TWord s] -> plain_word s = true -> reads c st e st1.
Proof.
  intros Hk Ht Hsp Hc He Hw. destruct (plain_word_lexeme s Hw).
  eapply leaf_spells; try done. unfold token_of. by rewrite Hk, Ht.
Qed.

Hypothesis IHe : spell_expr f.
Hypothesis IHa : spell_args f.

Lemma paren_spells e st' :
  text (current st) = js "(" ->
  (let? (e, st2) := expression source f 0 st1 in
   let? (close, st3) := expect source (js ")") st2 in
   Ok (with_span e (Span (lstart (current st)) (lend close)), st3)) = Ok (e, st') ->
  reads c st e st'.
Proof.
  intros Ht H. destruct (expression source f 0 st1) as [[e1 st2]|] eqn:He; [|done].
  eapply IHe in He as (Ha2 & (ts & L & S & B) & _ & Hall); [|exact Ha1].
  destruct (expect source (js ")") st2) as [[close st3]|] eqn:Hx; [|done].
  eapply expect_lexes in Hx as (-> & Hc & Ha3 & Hq); [|exact Ha2]. injection H as <- <-.
  assert (Hw : word_start (text (current st)) = true) by by rewrite Ht.
  assert (Hw2 : word_start (text (current st2)) = true) by by rewrite Hc.
  specialize (Hlex _ (word_token _ _ Ha Hw)). specialize (Hq _ (word_token _ _ Ha2 Hw2)).
  rewrite Ht in Hlex. rewrite Hc in Hq.
  eapply starts_spelled; unfold estart, eend; rewrite ?span_with_span; try done.
  - intros x. rewrite children_with_span. intros Hx.
    unfold all_spelled in Hall. rewrite postorder_children in Hall.
    apply Forall_app in Hall as [Hall _]. apply List.Forall_forall. intros n Hn.
    eapply List.Forall_forall in Hall; [exact Hall|]. apply in_flat_map. eauto.
  - exists (open_tok :: ts ++ [close_tok]). rewrite spelling_with_span. split_and!.
    + apply (lexes_app _ _ _ _ [_]) with (1 := Hlex). by eapply lexes_app.
    + change (open_tok :: ts ++ [close_tok]) with ([open_tok] ++ ts ++ [close_tok]).
      rewrite !loud_app, S. apply app_nil_r.
    + by apply balanced_paren.
Qed.

Lemma unary_spells e st' :
  str_mem (text (current st)) [js "!"; js "+"; js "-"] = true ->
  (let? (operand, st2) := expression source f 7 st1 in
   Ok (EUnary (text (current st)) operand
         (Span (lstart (current st)) (eend operand)), st2)) = Ok (e, st') ->
  reads c st e st'.
Proof.
  intros Ht H. destruct (expression source f 7 st1) as [[e1 st2]|] eqn:He; [|done].
  eapply IHe in He as (Ha2 & (ts & L & S & B) & _ & Hall); [|exact Ha1]. injection H as <- <-.
  pose proof (listed_word _ _ operator_word Ht eq_refl) as [Hw Hw2]%andb_true_iff.
  specialize (Hlex _ (word_token _ _ Ha Hw)). destruct (plain_word_lexeme _ Hw2) as [Lw Bw].
  eapply starts_spelled; try done.
  - by intros x [<-|[]].
  - exists ([TWord (text (current st))] ++ ts). split_and!.
    + by eapply lexes_app.
    + by rewrite loud_app, Lw, S.
    + by apply balanced_app.
Qed.

Lemma call_spells arity e st' :
  kind (current st) = Kname -> is_token (js "(") st1 = true ->
  assoc_get str_eqb (text (current st)) BILLING_FUNCTIONS = Some arity ->
  (let? (_, st2) := take_token source st1 in
   let? (args, st3) := args_loop source f st2 [] in
   let? (close, st4) := expect source (js ")") st3 in
   if negb (Nat.eqb (length args) arity) then
     throw Dtype (text (current st)) (Some (lstart (current st)))
   else
     Ok (ECall (text (current st)) args (Span (lstart (current st)) (lend close)), st4))
  = Ok (e, st') ->
  reads c st e st'.
Proof.
  intros Hk Ho Hf H. apply str_eqb_eq in Ho.
  destruct (take_token source st1) as [[tok st2]|] eqn:Ht; [|done].
  eapply take_lexes in Ht as (-> & Ha2 & Hq1); [|exact Ha1].
  destruct (args_loop source f st2 []) as [[args st3]|] eqn:Hg; [|done].
  eapply IHa in Hg as (new & c' & ts & -> & Ha3 & L & S & B & Hall); [|exact Ha2].
  destruct (expect source (js ")") st3) as [[close st4]|] eqn:Hx; [|done].
  eapply expect_lexes in Hx as (-> & Hc & Ha4 & Hq2); [|exact Ha3].
  destruct (negb _); [done|]. injection H as <- <-.
  assert (Hw1 : word_start (text (current st1)) = true) by by rewrite Ho.
  assert (Hw3 : word_start (text (current st3)) = true) by by rewrite Hc.
  specialize (Hq1 _ (word_token _ _ Ha1 Hw1)). specialize (Hq2 _ (word_token _ _ Ha3 Hw3)).
  rewrite Ho in Hq1. rewrite Hc in Hq2.
  assert (Hn : token_of (current st) = Some (TWord (text (current st)))).
  { unfold token_of. by rewrite Hk. }
  specialize (Hlex _ Hn).
  pose proof (table_word _ _ _ plain_word Hf eq_refl) as Hw.
  destruct (plain_word_lexeme _ Hw) as [Lw Bw].
  eapply starts_spelled; try done.
  - simpl. intros x Hx. rewrite List.Forall_forall in Hall. by apply Hall.
  - exists ([TWord (text (current st))] ++ (open_tok :: ts ++ [close_tok])). split_and!.
    + eapply lexes_app; [exact Hlex|]. apply (lexes_app _ _ _ _ [_]) with (1 := Hq1).
      by eapply lexes_app.
    + change (open_tok :: ts ++ [close_tok]) with ([open_tok] ++ ts ++ [close_tok]).
      rewrite !loud_app, Lw, S. simpl. by rewrite app_nil_r.
    + apply balanced_app; [done|by apply balanced_paren].
Qed.
End primary.

Lemma primary_spells f : spell_expr f -> spell_args f -> spell_prim (S f).
Proof.
  intros IHe IHa st c e st' Ha H. cbn [primary] in H.
  destruct (take_token source st) as [[tok st1]|] eqn:Ht; [|done].
  eapply take_lexes in Ht as (-> & Ha1 & Hlex); [|exact Ha].
  destruct (kind (current st)) as [v i|v| | |] eqn:Hk.
  1, 2: injection H as <- <-; eapply leaf_spells; try done; unfold token_of; by rewrite Hk.
  all: destruct (str_eqb (text (current st)) (js "(")) eqn:Hp;
    [apply str_eqb_eq in Hp; by eapply paren_spells|].
  all: destruct (str_mem (text (current st)) [js "!"; js "+"; js "-"]) eqn:Hu;
    [by eapply unary_spells|]; try done.
  destruct (str_eqb (text (current st)) (js "nil")) eqn:Hnil.
  { apply str_eqb_eq in Hnil. injection H as <- <-. by eapply word_leaf_spells. }
  destruct (str_mem (text (current st)) [js "true"; js "false"]) eqn:Hb.
  { injection H as <- <-. apply str_mem_In in Hb as [Hb|[Hb|[]]]; symmetry in Hb;
      (eapply word_leaf_spells; [done..|exact Hb|done|done|by rewrite Hb|done]). }
  destruct (is_token (js "(") st1) eqn:Ho; cbn [negb] in H.
  - destruct (assoc_get str_eqb (text (current st)) BILLING_FUNCTIONS) eqn:Hf; [|done].
    by eapply call_spells.
  - destruct (str_mem (text (current st)) BILLING_VARIABLES) eqn:Hv; cbn [negb] in H; [|done].
    injection H as <- <-. eapply word_leaf_spells; try done.
    exact (listed_word _ _ plain_word Hv eq_refl).
Qed.

Lemma parser_spells f : spell_expr f /\ spell_loop f /\ spell_prim f /\ spell_args f.
Proof.
  induction f as [|f (IHe & IHl & IHp & IHa)]; [by split_and!|].
  split; [by apply expr_spells|]. split; [by apply loop_spells|].
  split; [by apply primary_spells|by apply args_spells].
Qed.
End parser.

(** ** The whole source *)

(** Where the expression starts: after the version mark, if there is one. *)
Definition body_start (source : jsstr) : nat :=
  match re_exec version_re source with
  | Some m => length source - length (rest m)
  | None => 0
  end.

Lemma new_parser_at source st : new_parser source = Ok st -> at_ source (body_start source) st.
Proof.
  unfold new_parser, body_start. intros H. destruct (65536 <? _)%Z; [done|].
  destruct (re_exec version_re source) as [m|]; cbv zeta in H.
  - destruct (negb _); [done|].
    destruct (next source _ 0) as [[[l cur] cnt]|] eqn:E; [|done]. injection H as <-.
    split; [lia|]. eauto.
  - destruct (next source _ 0) as [[[l cur] cnt]|] eqn:E; [|done]. injection H as <-.
    split; [lia|]. eauto.
Qed.

Lemma skip_ws_all s c : length s <= skip_ws s c - c -> forallb is_ws s = true.
Proof.
  revert c. induction s as [|x s IH]; intros c; simpl; [done|].
  destruct (is_ws x); simpl; [|lia]. rewrite (skip_ws_shift s (S c)). intros H.
  apply (IH 0). lia.
Qed.

Lemma end_blank source c st :
  at_ source c st -> is_end (kind (current st)) = true -> forallb is_ws (drop c source) = true.
Proof.
  intros [Hc (n & m & Hn)] He. unfold next in Hn. cbv zeta in Hn. revert Hn He.
  generalize (current st) as l. intros l Hn He. destr_match_in Hn.
  destruct (drop (skip_ws _ _) source) as [|x r] eqn:Er; [|by inv_ok Hn].
  apply (skip_ws_all _ c). rewrite length_drop.
  assert (Hl := f_equal length Er). rewrite length_drop in Hl. simpl in Hl. lia.
Qed.

Lemma parse_spelled source e :
  parse source = Ok e ->
  spelled source (body_start source) (eend e) e /\ all_spelled source e /\
  forallb is_ws (drop (eend e) source) = true.
Proof.
  unfold parse. intros H. destruct (new_parser source) as [st|] eqn:Hn; [|done].
  apply new_parser_at in Hn.
  destruct (expression source _ 0 st) as [[e' st']|] eqn:He; [|done].
  destruct (is_end (kind (current st'))) eqn:Hend; [|done]. injection H as <-.
  eapply (proj1 (parser_spells source _)) in He as (Ha & Hs & _ & Hall); [|exact Hn].
  split; [done|]. split; [done|]. by eapply end_blank.
Qed.

(** The text of a node of a parsed tree, by itself. *)
Definition node_text (source : jsstr) (n : expr) : jsstr := slice source (estart n) (eend n).

Lemma node_text_lexed source e n :
  parse source = Ok e -> In n (postorder e) ->
  exists ts, lexed (node_text source n) ts /\ loud ts = spelling n /\ balanced ts.
Proof.
  intros (_ & Hall & _)%parse_spelled Hn. unfold all_spelled in Hall.
  rewrite List.Forall_forall in Hall. destruct (Hall _ Hn) as (ts & L & S & B).
  exists ts. split; [|done]. by apply lexes_lexed.
Qed.

(** C33: parsing is faithful to the text.  The lexemes of the source from the
    version mark on, brackets and commas left out, spell the tree in order, with
    brackets balanced and only white space after it; and the text of each node,
    cut out of the source and read by itself, spells that node. *)
Theorem parse_faithful source e :
  parse source = Ok e ->
  (exists ts, lexes source (body_start source) (eend e) ts /\
     loud ts = spelling e /\ balanced ts) /\
  forallb is_ws (drop (eend e) source) = true /\
  (forall n, In n (postorder e) ->
     exists ts, lexed (node_text source n) ts /\ loud ts = spelling n /\ balanced ts).
Proof.
  intros H. destruct (parse_spelled _ _ H) as (Hs & _ & Hb).
  split; [exact Hs|]. split; [exact Hb|]. intros n Hn. by eapply node_text_lexed.
Qed.

Definition spell_source : jsstr := jq "v1: (p + 1) * max(c, 2,)".

Lemma parse_faithful_witness :
  exists e, parse spell_source = Ok e /\
  exists ts, lexes spell_source (body_start spell_source) (eend e) ts /\
    loud ts = [TWord (js "p"); TWord (js "+"); TNum (n_of_Z 1) true; TWord (js "*");
               TWord (js "max"); TWord (js "c"); TNum (n_of_Z 2) true].
Proof.
  destruct (parse spell_source) as [e|] eqn:E; [|vm_compute in E; discriminate E].
  exists e. split; [reflexivity|].
  destruct (parse_faithful spell_source e E) as [(ts & L & S & _) _].
  exists ts. split; [exact L|]. rewrite S. vm_compute in E. injection E as <-.
  vm_compute. reflexivity.
Defined.

(** ** Lexemes before a closing bracket

    A pattern none of whose classes admits the character [x] matches a text the
    same when [x] and anything else follows. *)
Fixpoint avoids (x : N) (r : re) : bool :=
  match r with
  | REps => true
  | RChar p => negb (p x)
  | RCat a b | RAlt a b => avoids x a && avoids x b
  | RStar a => avoids x a
  | RGroup _ _ | RBack _ | REnd => false
  end.

Section before.
Variables (x : N) (v : jsstr).
Abbreviation ext := (extend (x :: v)).

Definition mirrors (k1 k2 : mstate -> option mstate) : Prop :=
  forall st, k1 (ext st) = ext <$> k2 st.

Lemma ext_shorter a b :
  Nat.ltb (length (rest (ext a))) (length (rest (ext b))) =
  Nat.ltb (length (rest a)) (length (rest b)).
Proof.
  unfold extend. simpl. rewrite !length_app.
  destruct (Nat.ltb_spec (length (rest a)) (length (rest b)));
    [apply Nat.ltb_lt|apply Nat.ltb_ge]; lia.
Qed.

Lemma star_mirrors a k1 k2 :
  (forall k1 k2, mirrors k1 k2 -> mirrors (fun st => rmatch a st k1) (fun st => rmatch a st k2)) ->
  mirrors k1 k2 ->
  forall f1 f2 st, length (rest (ext st)) <= f1 -> length (rest st) <= f2 ->
  star_loop (rmatch a) (groups a) k1 f1 (ext st) =
  ext <$> star_loop (rmatch a) (groups a) k2 f2 st.
Proof.
  intros IHa Hk. induction f1 as [|f1 IH]; intros f2 st H1 H2.
  { unfold extend in H1. simpl in H1. rewrite length_app in H1. simpl in H1. lia. }
  cbn [star_loop]. rewrite extend_reset.
  rewrite (IHa _ (fun st' => if Nat.ltb (length (rest st')) (length (rest st))
    then star_loop (rmatch a) (groups a) k2 (pred f2) st' else None)).
  2: { intros st'. rewrite ext_shorter.
       destruct (Nat.ltb_spec (length (rest st')) (length (rest st))); [|done].
       apply IH; unfold extend in *; simpl in *; rewrite ?length_app in *; simpl in *; lia. }
  destruct f2 as [|f2]; cbn [star_loop pred].
  - destruct (rmatch a _ _) as [y|] eqn:E; cbn [fmap option_fmap option_map]; [|apply Hk].
    apply rmatch_sound in E as (st' & _ & E). cbv beta in E.
    destruct (Nat.ltb_spec (length (rest st')) (length (rest st))); [lia|done].
  - destruct (rmatch a _ _) as [y|]; cbn [fmap option_fmap option_map]; [done|apply Hk].
Qed.

Lemma rmatch_mirrors r k1 k2 :
  avoids x r = true -> mirrors k1 k2 ->
  mirrors (fun st => rmatch r st k1) (fun st => rmatch r st k2).
Proof.
  revert k1 k2. induction r; simpl; intros k1 k2 Hr Hk; bprop; try done.
  - intros [[|c s] cs]; unfold extend; simpl; [by rewrite Hr|].
    destruct (p c); [|done]. apply (Hk (MState s cs)).
  - intros st. simpl. apply (IHr1 (fun st' => rmatch r2 st' k1) (fun st' => rmatch r2 st' k2)); auto.
  - intros st. simpl. rewrite (IHr1 k1 k2), (IHr2 k1 k2) by done. by destruct (rmatch r1 st k2).
  - intros st. simpl. by apply star_mirrors; auto.
Qed.

Lemma re_prefix_before r s : avoids x r = true -> re_prefix r (s ++ x :: v) = re_prefix r s.
Proof.
  intros Hr. unfold re_prefix, re_exec.
  pose proof (rmatch_mirrors r Some Some Hr ltac:(done) (MState s [])) as H.
  unfold extend at 1 in H. simpl in H. rewrite H.
  destruct (rmatch r (MState s []) Some) as [y|] eqn:E; [|done]. simpl.
  apply rmatch_sound in E as (y1 & Hm & [= ->]). apply rmatches_suffix in Hm as [w Hw]. simpl in Hw.
  assert (Hlen := f_equal length Hw). rewrite length_app in Hlen.
  rewrite !length_app. simpl. f_equal.
  rewrite take_app_le by lia. f_equal. lia.
Qed.
End before.

Lemma scan_string_before n u : forall q st rest pos v w e, length rest <= n ->
  scan_string q st rest pos v = Ok (w, e) -> scan_string q st (rest ++ u) pos v = Ok (w, e).
Proof.
  induction n as [|n IH]; intros q st [|c r1] pos v w e Hn H; try done; simpl in Hn; [lia|].
  cbn [app scan_string] in H |- *.
  destruct (N.eqb c q); [done|]. destruct (N.eqb c 10 || N.eqb c 13)%bool; [done|].
  destruct (negb (N.eqb c 92)); [apply IH; [lia|done]|].
  destruct r1 as [|y r2]; [done|]. cbn [app]. simpl in Hn.
  destruct (assoc_get N.eqb y escapes); [apply IH; [lia|done]|].
  destruct (N.eqb y (ch "u")); [|destruct (N.eqb y (ch "x")); [|done]].
  - do 4 (destruct r2 as [|? r2]; [done|]). cbn [app].
    destruct (forallb is_hex _); [|done]. apply IH; [simpl in *; lia|done].
  - do 2 (destruct r2 as [|? r2]; [done|]). cbn [app].
    destruct (forallb is_hex _); [|done]. apply IH; [simpl in *; lia|done].
Qed.

Lemma re_prefix_alt a b s :
  re_prefix (RAlt a b) s = match re_prefix a s with Some t => Some t | None => re_prefix b s end.
Proof. unfold re_prefix, re_exec. simpl. by destruct (rmatch a _ _). Qed.

Lemma re_prefix_char p y s : re_prefix (RChar p) (y :: s) = if p y then Some [y] else None.
Proof.
  unfold re_prefix, re_exec. cbn [rmatch rest caps]. destruct (p y); [|done]. cbn [rest length].
  by replace (S (length s) - length s) with 1 by lia.
Qed.

Lemma operator_before y s v :
  re_prefix operator_re (y :: s ++ 41%N :: v) = re_prefix operator_re (y :: s).
Proof.
  unfold operator_re. cbn [ROr]. rewrite !re_prefix_alt. unfold RSet. rewrite !re_prefix_char.
  by rewrite !(app_comm_cons s), !re_prefix_before.
Qed.

(** A lexeme of a text is the one read when a closing bracket follows the text. *)
Lemma lex_before s t n v : lex s = Some (t, n) -> lex (s ++ 41%N :: v) = Some (t, n).
Proof.
  unfold lex, next. change (10000 <? 0 + 1)%Z with false. cbv iota zeta. rewrite !drop_0.
  destruct (drop (skip_ws s 0) s) as [|x r] eqn:Er; [done|].
  assert (Hs : skip_ws (s ++ 41%N :: v) 0 = skip_ws s 0 /\
               drop (skip_ws s 0) (s ++ 41%N :: v) = (x :: r) ++ 41%N :: v).
  { revert Er. induction s as [|y s IH]; simpl; [done|]. destruct (is_ws y); [|by intros [= -> ->]].
    rewrite (skip_ws_shift s), (skip_ws_shift (s ++ _)). simpl. intros Hd.
    destruct (IH Hd) as [-> ->]. done. }
  destruct Hs as [-> ->]. cbn [app].
  rewrite (app_comm_cons r), (re_prefix_before 41 v number_re), (re_prefix_before 41 v name_re) by done.
  destruct (re_prefix number_re (x :: r)) as [w|]; [done|].
  destruct (N.eqb x 34 || N.eqb x 39)%bool.
  { destruct (scan_string x _ r _ []) as [[w e]|] eqn:E; [|done].
    by rewrite (scan_string_before (length r) (41%N :: v) _ _ _ _ _ _ _ (le_n _) E). }
  destruct (re_prefix name_re (x :: r)) as [w|]; [done|].
  cbn [app]. rewrite operator_before. by destruct (re_prefix operator_re (x :: r)).
Qed.

(** Lexing the front of a text. *)
Inductive lexed_to : jsstr -> list token -> jsstr -> Prop :=
| lexed_to_nil s : lexed_to s [] s
| lexed_to_cons s t n ts r :
    lex s = Some (t, n) -> lexed_to (drop n s) ts r -> lexed_to s (t :: ts) r.

Lemma lexed_to_app s ts1 r ts2 r' :
  lexed_to s ts1 r -> lexed_to r ts2 r' -> lexed_to s (ts1 ++ ts2) r'.
Proof. induction 1; simpl; [done|]. intros. econstructor; eauto. Qed.

Lemma lexed_to_end s ts : lexed_to s ts [] -> lexed s ts.
Proof.
  remember [] as r eqn:Hr. induction 1; subst; [constructor|]. econstructor; eauto.
Qed.

Lemma lex_length s t n : lex s = Some (t, n) -> n <= length s.
Proof.
  unfold lex. destruct (next s 0 0) as [[[l e] m]|] eqn:E; [|done].
  apply next_ok in E as [_ _ Hb _ _ _ _]; [|lia]. destruct (token_of l); [|done]. by intros [= <- <-].
Qed.

Lemma lexed_before s ts v : lexed s ts -> lexed_to (s ++ 41%N :: v) ts (41%N :: v).
Proof.
  induction 1 as [|s t n ts Hl _ IH]; [constructor|].
  econstructor; [by apply lex_before|]. rewrite drop_app_le by (by eapply lex_length). exact IH.
Qed.

Lemma lexed_one s t n r : lex s = Some (t, n) -> drop n s = r -> lexed_to s [t] r.
Proof. intros Hl <-. econstructor; [done|constructor]. Qed.

(** Operators at the front of a text. *)
Lemma lex_operator k x r w :
  forallb is_ws k = true -> is_ws x = false ->
  re_prefix number_re (x :: r) = None -> (N.eqb x 34 || N.eqb x 39)%bool = false ->
  re_prefix name_re (x :: r) = None -> re_prefix operator_re (x :: r) = Some w ->
  lex (k ++ x :: r) = Some (TWord w, length k + length w).
Proof.
  intros Hk Hx Hn Hq Hm Ho. unfold lex, next. change (10000 <? 0 + 1)%Z with false.
  cbv iota zeta. rewrite !drop_0.
  assert (Hs : skip_ws (k ++ x :: r) 0 = length k).
  { clear -Hk Hx. induction k as [|y k IH]; simpl; [by rewrite Hx|]. simpl in Hk.
    apply andb_true_iff in Hk as [-> Hk]. rewrite skip_ws_shift, IH by done. lia. }
  rewrite Hs, drop_app_length. by rewrite Hn, Hq, Hm, Ho.
Qed.

Lemma operator_single x r :
  (forall s, In s ["&&"; "||"; "=="; "!="; "<="; ">="]%string -> re_prefix (RLit s) (x :: r) = None) ->
  existsb (N.eqb x) (js "+-*/%<>()!?:,") = true ->
  re_prefix operator_re (x :: r) = Some [x].
Proof.
  intros Hl Hx. unfold operator_re. cbn [ROr]. rewrite !re_prefix_alt.
  rewrite !Hl by (simpl; tauto). unfold RSet. by rewrite re_prefix_char, Hx.
Qed.

Lemma re_prefix_pair a b r : re_prefix (RStr [a; b]) (a :: b :: r) = Some [a; b].
Proof.
  unfold re_prefix, re_exec. cbn [RStr rmatch rest caps]. rewrite !N.eqb_refl. cbn [rest length].
  by replace (S (S (length r)) - length r) with 2 by lia.
Qed.

Ltac single := apply (lex_operator []); try reflexivity; apply operator_single; [|reflexivity];
  intros s Hs; simpl in Hs; decompose [or] Hs; subst; done.

Lemma lex_open r : lex (40%N :: r) = Some (open_tok, 1).
Proof. single. Qed.
Lemma lex_close r : lex (41%N :: r) = Some (close_tok, 1).
Proof. single. Qed.
Lemma lex_space_open r : lex (32%N :: 40%N :: r) = Some (open_tok, 2).
Proof.
  apply (lex_operator [32%N] 40%N r [40%N]); try reflexivity.
  apply operator_single; [|reflexivity]. intros s Hs. simpl in Hs. decompose [or] Hs; subst; done.
Qed.
Lemma lex_bang r : lex (33%N :: 40%N :: r) = Some (TWord (js "!"), 1).
Proof. single. Qed.
Lemma lex_connective op r :
  op = js "&&" \/ op = js "||" -> lex (js " " ++ op ++ r) = Some (TWord op, 3).
Proof.
  intros [-> | ->].
  - apply (lex_operator [32%N] 38%N (38%N :: r) (js "&&")); try reflexivity.
    unfold operator_re. cbn [ROr]. rewrite re_prefix_alt.
    change (RLit "&&") with (RStr [38; 38]%N). by rewrite re_prefix_pair.
  - apply (lex_operator [32%N] 124%N (124%N :: r) (js "||")); try reflexivity.
    unfold operator_re. cbn [ROr]. rewrite !re_prefix_alt.
    change (RLit "||") with (RStr [124; 124]%N). by rewrite re_prefix_pair.
Qed.

(** The texts built around the text of a condition. *)
Lemma lexed_not s ts :
  lexed s ts -> lexed (js "!(" ++ s ++ js ")") (TWord (js "!") :: open_tok :: ts ++ [close_tok]).
Proof.
  intros H. apply lexed_to_end.
  econstructor; [apply lex_bang|]. econstructor; [apply lex_open|].
  eapply lexed_to_app; [by apply lexed_before|]. eapply lexed_one; [apply lex_close|done].
Qed.

Lemma lexed_join op a b ts us :
  op = js "&&" \/ op = js "||" -> lexed a ts -> lexed b us ->
  lexed (js "(" ++ a ++ js ") " ++ op ++ js " (" ++ b ++ js ")")
    (open_tok :: ts ++ close_tok :: TWord op :: open_tok :: us ++ [close_tok]).
Proof.
  intros Ho Ha Hb. apply lexed_to_end. econstructor; [apply lex_open|].
  eapply lexed_to_app; [by apply lexed_before|]. econstructor; [apply lex_close|].
  econstructor; [by apply lex_connective|].
  assert (Hd : drop 3 (drop 1 (41%N :: js " " ++ op ++ js " (" ++ b ++ js ")")) =
               js " (" ++ b ++ js ")") by (by destruct Ho as [-> | ->]).
  change (lexed_to (drop 3 (drop 1 (41%N :: js " " ++ op ++ js " (" ++ b ++ js ")")))
    (open_tok :: us ++ [close_tok]) []).
  rewrite Hd. econstructor; [apply lex_space_open|].
  eapply lexed_to_app; [by apply lexed_before|]. eapply lexed_one; [apply lex_close|done].
Qed.
