(* ===== verification/ExprGrammar.v ===== *)
(** * The grammar of billing expressions

    A declarative grammar over lexemes and their places, with precedence, right-nested
    conditionals, declared names and the nesting limit, and that the parser of
    [ExprParser] decides it: a source parses exactly when its lexemes derive a tree,
    and to that tree, positions included. *)

From S2P Require Import Prelude JsString JsNumber JsRegex JsValue ExprTypes ExprParser ExprParserSpec ExprSpelling.

Local Open Scope Z_scope.

(** ** The grammar *)

(** A lexeme and where it stands. *)
Abbreviation placed := (token * span)%type.

(** The word a list of lexemes starts with. *)
Definition next_word (ts : list placed) : option jsstr :=
  match ts with (TWord w, _) :: _ => Some w | _ => None end.

Definition word (s : string) : token := TWord (js s).

(** From the start of one span to the end of another. *)
Definition hull (a b : span) : span := Span (start a) (end_ b).

(** [derives_expr d min ts e rest]: inside [d] nested expressions, the lexemes [ts] start
    with an expression whose binary operators at the top bind at least as strongly as
    [min]; it is the tree [e], and [rest] follows. *)
Inductive derives_expr : Z -> Z -> list placed -> expr -> list placed -> Prop :=
| de_plain d min ts lhs ts1 e rest :
    d < 128 -> derives_prim (d + 1) ts lhs ts1 -> derives_loop (d + 1) min lhs ts1 e rest ->
    (min = 0 -> next_word rest <> Some (js "?")) -> derives_expr d min ts e rest
| de_cond d ts lhs ts1 c sp1 ts2 y sp2 ts3 n rest :
    d < 128 -> derives_prim (d + 1) ts lhs ts1 ->
    derives_loop (d + 1) 0 lhs ts1 c ((word "?", sp1) :: ts2) ->
    derives_expr (d + 1) 0 ts2 y ((word ":", sp2) :: ts3) ->
    derives_expr (d + 1) 0 ts3 n rest ->
    derives_expr d 0 ts (ECond c y n (hull (span_of c) (span_of n))) rest
(** Operators after a left operand. *)
with derives_loop : Z -> Z -> expr -> list placed -> expr -> list placed -> Prop :=
| dl_done d min lhs ts :
    (forall w p, next_word ts = Some w -> precedence w = Some p -> p < min) ->
    derives_loop d min lhs ts lhs ts
| dl_operator d min lhs op sp p ts rhs ts1 e rest :
    precedence op = Some p -> min <= p -> derives_expr d (p + 1) ts rhs ts1 ->
    derives_loop d min (EBinary op lhs rhs (hull (span_of lhs) (span_of rhs))) ts1 e rest ->
    derives_loop d min lhs ((TWord op, sp) :: ts) e rest
with derives_prim : Z -> list placed -> expr -> list placed -> Prop :=
| dp_number d x i sp rest : derives_prim d ((TNum x i, sp) :: rest) (ELit (LNum x) i sp) rest
| dp_string d s sp rest : derives_prim d ((TStr s, sp) :: rest) (ELit (LStr s) false sp) rest
| dp_paren d sp1 ts e sp2 rest :
    derives_expr d 0 ts e ((word ")", sp2) :: rest) ->
    derives_prim d ((word "(", sp1) :: ts) (with_span e (hull sp1 sp2)) rest
| dp_unary d op sp ts e rest :
    str_mem op [js "!"; js "+"; js "-"] = true -> derives_expr d 7 ts e rest ->
    derives_prim d ((TWord op, sp) :: ts) (EUnary op e (hull sp (span_of e))) rest
| dp_nil d sp rest : derives_prim d ((word "nil", sp) :: rest) (ELit LNull false sp) rest
| dp_bool d b sp rest : derives_prim d ((bool_word b, sp) :: rest) (ELit (LBool b) false sp) rest
| dp_variable d name sp rest :
    str_mem name BILLING_VARIABLES = true -> next_word rest <> Some (js "(") ->
    derives_prim d ((TWord name, sp) :: rest) (EVar name sp) rest
| dp_call d name sp1 sp2 ts args sp3 rest :
    assoc_get str_eqb name BILLING_FUNCTIONS = Some (length args) ->
    derives_args d ts args ((word ")", sp3) :: rest) ->
    derives_prim d ((TWord name, sp1) :: (word "(", sp2) :: ts) (ECall name args (hull sp1 sp3)) rest
(** Arguments up to the closing bracket; a comma may end them. *)
with derives_args : Z -> list placed -> list expr -> list placed -> Prop :=
| da_nil d sp rest : derives_args d ((word ")", sp) :: rest) [] ((word ")", sp) :: rest)
| da_last d ts e rest :
    derives_expr d 0 ts e rest -> next_word rest <> Some (js ",") -> derives_args d ts [e] rest
| da_more d ts e sp ts1 es rest :
    derives_expr d 0 ts e ((word ",", sp) :: ts1) -> derives_args d ts1 es rest ->
    derives_args d ts (e :: es) rest.

Scheme derives_expr_mut := Minimality for derives_expr Sort Prop
with derives_loop_mut := Minimality for derives_loop Sort Prop
with derives_prim_mut := Minimality for derives_prim Sort Prop
with derives_args_mut := Minimality for derives_args Sort Prop.
Combined Scheme derives_mutind from derives_expr_mut, derives_loop_mut, derives_prim_mut, derives_args_mut.

Create HintDb grammar.
#[export] Hint Constructors derives_expr derives_loop derives_prim derives_args : grammar.

(** ** The lexemes ahead of the parser *)
Section ahead.
Variable source : jsstr.

Definition lexed_at (st : pstate) : Prop := exists c, at_ source c st.

Definition place (l : lexeme) : span := Span (lstart l) (lend l).

Inductive ahead : pstate -> list placed -> Prop :=
| ahead_end st : lexed_at st -> is_end (kind (current st)) = true -> ahead st []
| ahead_more st t tok st' ts :
    lexed_at st -> token_of (current st) = Some t -> take_token source st = Ok (tok, st') ->
    ahead st' ts -> ahead st ((t, place (current st)) :: ts).

Lemma ahead_lexed st ts : ahead st ts -> lexed_at st.
Proof. by destruct 1. Qed.

Lemma lexed_depth d st : lexed_at st -> lexed_at (set_depth d st).
Proof. done. Qed.

Lemma take_depth d st tok st' :
  take_token source st = Ok (tok, st') -> take_token source (set_depth d st) = Ok (tok, set_depth d st').
Proof. unfold take_token. simpl. intros H. inv_ok H. done. Qed.

Lemma ahead_depth d st ts : ahead st ts -> ahead (set_depth d st) ts.
Proof.
  intros H. revert d. induction H as [st Hl He|st t tok st' ts Hl Ht Hk _ IH]; intros d.
  - by apply ahead_end.
  - eapply (ahead_more (set_depth d st)); [exact Hl|exact Ht|by apply take_depth|apply IH].
Qed.

Lemma take_lexed st tok st' :
  lexed_at st -> take_token source st = Ok (tok, st') -> tok = current st /\ lexed_at st' /\ pdepth st' = pdepth st.
Proof.
  intros [c Hc] H. pose proof H as Ht. eapply take_lexes in Ht as (-> & Ha & _); [|exact Hc].
  split; [done|]. split; [by eexists|]. unfold take_token in H. by inv_ok H.
Qed.

(** Words are recognised by their text. *)
Lemma lexed_word st : lexed_at st -> word_start (text (current st)) = true ->
  token_of (current st) = Some (TWord (text (current st))).
Proof. intros [c Hc]. by eapply word_token. Qed.

Lemma token_word l w : token_of l = Some (TWord w) -> text l = w.
Proof. unfold token_of. by destruct (kind l); intros [= <-]. Qed.

Lemma ahead_is_token st ts w : ahead st ts -> word_start w = true ->
  is_token w st = true <-> next_word ts = Some w.
Proof.
  intros H Hw. unfold is_token. split.
  - intros Ht%str_eqb_eq. subst w. pose proof (lexed_word st (ahead_lexed _ _ H) Hw) as Htok.
    destruct H as [st _ He|st t tok st' ts _ Ht' _ _].
    + unfold token_of in Htok. by destruct (kind (current st)).
    + rewrite Htok in Ht'. by injection Ht' as <-.
  - destruct H as [|st t tok st' ts _ Ht _ _]; [done|]. destruct t; simpl; try done.
    intros [= ->]. apply token_word in Ht as ->. apply str_eqb_refl.
Qed.

Lemma ahead_precedence st ts p : ahead st ts ->
  precedence (text (current st)) = Some p <-> exists w, next_word ts = Some w /\ precedence w = Some p.
Proof.
  intros H. split.
  - intros Hp. exists (text (current st)). split; [|done].
    apply (ahead_is_token st ts); [done| |apply str_eqb_refl].
    by apply precedence_word in Hp as [? _]%andb_true_iff.
  - intros (w & Hw & Hp). pose proof (precedence_word _ _ Hp) as [Hs _]%andb_true_iff.
    apply (ahead_is_token st ts w H Hs), str_eqb_eq in Hw. by rewrite Hw.
Qed.

(** ** What the parser accepts is derived *)

(** A run from [st] to [st'] that leaves the nesting as it was; whatever follows the
    final state, the lexemes ahead of the initial one satisfy [P] of it. *)
Definition derived (st st' : pstate) (P : list placed -> list placed -> Prop) : Prop :=
  lexed_at st' /\ pdepth st' = pdepth st /\
  forall rest, ahead st' rest -> exists ts, ahead st ts /\ P ts rest.

Definition sound_expr (f : nat) : Prop := forall min st e st',
  lexed_at st -> expression source f min st = Ok (e, st') ->
  derived st st' (fun ts rest => derives_expr (pdepth st) min ts e rest).
Definition sound_loop (f : nat) : Prop := forall min lhs st e st',
  lexed_at st -> binary_loop source f min lhs st = Ok (e, st') ->
  derived st st' (fun ts rest => derives_loop (pdepth st) min (lhs) ts e rest).
Definition sound_prim (f : nat) : Prop := forall st e st',
  lexed_at st -> primary source f st = Ok (e, st') ->
  derived st st' (fun ts rest => derives_prim (pdepth st) ts e rest).
Definition sound_args (f : nat) : Prop := forall st args args' st',
  lexed_at st -> args_loop source f st args = Ok (args', st') ->
  is_token (js ")") st' = true ->
  derived st st' (fun ts rest => exists new, args' = args ++ new /\
    derives_args (pdepth st) ts new rest).

Lemma take_ahead st tok st' t ts :
  lexed_at st -> take_token source st = Ok (tok, st') -> token_of tok = Some t ->
  ahead st' ts -> ahead st ((t, place tok) :: ts).
Proof.
  intros Hl Hk Ht Ha. pose proof (take_lexed _ _ _ Hl Hk) as (-> & _). by eapply ahead_more.
Qed.

(** [expect] of a word. *)
Lemma expect_ahead w st tok st' :
  lexed_at st -> word_start w = true -> expect source w st = Ok (tok, st') ->
  tok = current st /\ lexed_at st' /\ pdepth st' = pdepth st /\
  forall ts, ahead st' ts -> ahead st ((TWord w, place tok) :: ts).
Proof.
  intros Hl Hw H. unfold expect in H. destruct (is_token w st) eqn:E; [|done]. simpl in H.
  pose proof (take_lexed _ _ _ Hl H) as (-> & Hl' & Hd). split; [done|]. split; [done|]. split; [done|].
  intros ts. eapply take_ahead; [done|exact H|].
  apply str_eqb_eq in E. subst w. by apply lexed_word.
Qed.

Lemma take_word_ahead w st tok st' :
  lexed_at st -> word_start w = true -> text (current st) = w -> take_token source st = Ok (tok, st') ->
  lexed_at st' /\ pdepth st' = pdepth st /\ tok = current st /\
  forall ts, ahead st' ts -> ahead st ((TWord w, place tok) :: ts).
Proof.
  intros Hl Hw Ht H. pose proof (take_lexed _ _ _ Hl H) as (-> & _).
  destruct (expect_ahead w st (current st) st' Hl Hw) as (? & ? & ? & ?); [|done].
  unfold expect, is_token. by rewrite Ht, str_eqb_refl.
Qed.

Lemma loop_sound f : sound_expr f -> sound_loop f -> sound_loop (S f).
Proof.
  intros IHe IHl min lhs st e st' Hl H. cbn [binary_loop] in H.
  assert (Hdone : @Ok berr _ (lhs, st) = Ok (e, st') ->
    (forall p, precedence (text (current st)) = Some p -> p < min) ->
    derived st st' (fun ts rest => derives_loop (pdepth st) min (lhs) ts e rest)).
  { intros [= <- <-] Hp. split; [done|]. split; [done|]. intros rest Ha. exists rest. split; [done|].
    apply dl_done. intros w p Hw Hwp. apply Hp, (ahead_precedence st rest); eauto. }
  destruct (precedence (text (current st))) as [p|] eqn:Hp; [|by apply Hdone].
  destruct (Z.leb_spec min p); [|apply Hdone; [done|]; intros ? [= <-]; lia]. clear Hdone.
  destruct (take_token source st) as [[op st1]|] eqn:Ht; [|done].
  pose proof (precedence_word _ _ Hp) as [Hw _]%andb_true_iff.
  destruct (take_word_ahead _ _ _ _ Hl Hw eq_refl Ht) as (Hl1 & Hd1 & -> & Ha1).
  destruct (expression source f (p + 1) st1) as [[rhs st2]|] eqn:He; [|done].
  apply IHe in He as (Hl2 & Hd2 & Ha2); [|done].
  apply IHl in H as (Hl3 & Hd3 & Ha3); [|done].
  split; [done|]. split; [congruence|]. intros rest Hr.
  destruct (Ha3 rest Hr) as (ts2 & Hts2 & D2). destruct (Ha2 ts2 Hts2) as (ts1 & Hts1 & D1).
  eexists. split; [by apply Ha1|]. rewrite Hd2, Hd1 in D2. rewrite Hd1 in D1. eapply dl_operator; eauto.
Qed.

Lemma args_sound f : sound_expr f -> sound_args f -> sound_args (S f).
Proof.
  intros IHe IHa st args args' st' Hl H Hclose. cbn [args_loop] in H.
  destruct (is_token (js ")") st) eqn:Hc.
  { injection H as <- <-. split; [done|]. split; [done|]. intros rest Ha. exists rest. split; [done|].
    exists []. rewrite app_nil_r. split; [done|]. apply (ahead_is_token st rest) in Hc; [|done|done].
    destruct rest as [|[[]]]; simplify_eq/=. apply da_nil. }
  destruct (expression source f 0 st) as [[arg st1]|] eqn:He; [|done].
  apply IHe in He as (Hl1 & Hd1 & Ha1); [|done].
  destruct (is_token (js ",") st1) eqn:Hm; cbn [negb] in H.
  - destruct (take_token source st1) as [[tok st2]|] eqn:Ht; [|done].
    apply str_eqb_eq in Hm.
    destruct (take_word_ahead (js ",") _ _ _ Hl1 eq_refl Hm Ht) as (Hl2 & Hd2 & _ & Ha2).
    destruct (IHa _ _ _ _ Hl2 H Hclose) as (Hl3 & Hd3 & Ha3). split; [done|]. split; [congruence|].
    intros rest Hr. destruct (Ha3 rest Hr) as (ts2 & Hts2 & new & -> & D2).
    destruct (Ha1 _ (Ha2 _ Hts2)) as (ts1 & Hts1 & D1). exists ts1. split; [done|].
    exists (arg :: new). rewrite <- app_assoc. split; [done|]. rewrite Hd2, Hd1 in D2.
    eapply da_more; [exact D1|exact D2].
  - injection H as <- <-. split; [done|]. split; [done|]. intros rest Hr.
    destruct (Ha1 rest Hr) as (ts1 & Hts1 & D1). exists ts1. split; [done|].
    exists [arg]. split; [done|]. apply da_last; [exact D1|]. intros Hw.
    apply (ahead_is_token st1 rest) in Hw; [|done|done]. congruence.
Qed.

Lemma expr_sound f : sound_expr f -> sound_loop f -> sound_prim f -> sound_expr (S f).
Proof.
  intros IHe IHl IHp min st e st' Hl H. cbn [expression] in H.
  destruct (Z.ltb_spec 128 (pdepth st + 1)); [done|].
  destruct (primary source f _) as [[lhs st1]|] eqn:Hp; [|done].
  apply IHp in Hp as (Hl1 & Hd1 & Ha1); [|by apply lexed_depth]. cbn [pdepth set_depth] in Hd1, Ha1.
  destruct (binary_loop source f min lhs st1) as [[c st2]|] eqn:Hb; [|done].
  apply IHl in Hb as (Hl2 & Hd2 & Ha2); [|done]. rewrite Hd1 in Hd2, Ha2.
  assert (Hback : forall ts, ahead (set_depth (pdepth st + 1) st) ts -> ahead st ts).
  { intros ts Ha. apply (ahead_depth (pdepth st)) in Ha. by destruct st. }
  destruct ((min =? 0) && is_token (js "?") st2)%bool eqn:Hq.
  - apply andb_true_iff in Hq as [->%Z.eqb_eq Hq]. apply str_eqb_eq in Hq.
    destruct (take_token source st2) as [[tok st3]|] eqn:Ht; [|done].
    destruct (take_word_ahead (js "?") _ _ _ Hl2 eq_refl Hq Ht) as (Hl3 & Hd3 & _ & Ha3).
    destruct (expression source f 0 st3) as [[yes st4]|] eqn:Hy; [|done].
    apply IHe in Hy as (Hl4 & Hd4 & Ha4); [|done].
    destruct (expect source (js ":") st4) as [[tok5 st5]|] eqn:Hx; [|done].
    apply expect_ahead in Hx as (_ & Hl5 & Hd5 & Ha5); [|done|done].
    destruct (expression source f 0 st5) as [[no st6]|] eqn:Hn; [|done].
    apply IHe in Hn as (Hl6 & Hd6 & Ha6); [|done]. injection H as <- <-.
    rewrite Hd2 in Hd3. rewrite Hd3 in Hd4, Ha4. rewrite Hd4 in Hd5. rewrite Hd5 in Hd6, Ha6.
    split; [done|]. split; [simpl; lia|]. intros rest Hr.
    apply (ahead_depth (pdepth st6)) in Hr.
    assert (Hr6 : ahead st6 rest) by (by destruct st6). clear Hr.
    destruct (Ha6 _ Hr6) as (t5 & Ht5 & D6). destruct (Ha4 _ (Ha5 _ Ht5)) as (t3 & Ht3 & D4).
    destruct (Ha2 _ (Ha3 _ Ht3)) as (t1 & Ht1 & D2). destruct (Ha1 _ Ht1) as (t0 & Ht0 & D1).
    exists t0. split; [by apply Hback|]. eapply de_cond; [lia|exact D1|exact D2|exact D4|exact D6].
  - injection H as <- <-. split; [done|]. split; [simpl; lia|]. intros rest Hr.
    apply (ahead_depth (pdepth st2)) in Hr.
    assert (Hr2 : ahead st2 rest) by (by destruct st2). clear Hr.
    destruct (Ha2 _ Hr2) as (t1 & Ht1 & D2). destruct (Ha1 _ Ht1) as (t0 & Ht0 & D1).
    exists t0. split; [by apply Hback|]. eapply de_plain; [lia|exact D1|exact D2|].
    intros -> Hw. apply (ahead_is_token st2 rest) in Hw; [|done|done]. by rewrite Hw in Hq.
Qed.

(** A node made of the current lexeme alone. *)
Lemma leaf_derived st st1 t e :
  lexed_at st -> take_token source st = Ok (current st, st1) -> token_of (current st) = Some t ->
  (forall rest, ahead st1 rest -> derives_prim (pdepth st) ((t, place (current st)) :: rest) e rest) ->
  derived st st1 (fun ts rest => derives_prim (pdepth st) ts e rest).
Proof.
  intros Hl Hk Ht Hd. pose proof (take_lexed _ _ _ Hl Hk) as (_ & Hl1 & Hd1).
  split; [done|]. split; [done|]. intros rest Hr. eexists.
  split; [by eapply take_ahead|by apply Hd].
Qed.

Lemma call_sound f st st1 arity e st' : sound_args f ->
  lexed_at st -> take_token source st = Ok (current st, st1) -> kind (current st) = Kname ->
  is_token (js "(") st1 = true ->
  assoc_get str_eqb (text (current st)) BILLING_FUNCTIONS = Some arity ->
  (let? (_, st2) := take_token source st1 in
   let? (args, st3) := args_loop source f st2 [] in
   let? (close, st4) := expect source (js ")") st3 in
   if negb (Nat.eqb (length args) arity) then throw Dtype (text (current st)) (Some (lstart (current st)))
   else Ok (ECall (text (current st)) args (Span (lstart (current st)) (lend close)), st4)) = Ok (e, st') ->
  derived st st' (fun ts rest => derives_prim (pdepth st) ts e rest).
Proof.
  intros IHa Hl Hk Hn Ho Hf H. pose proof (take_lexed _ _ _ Hl Hk) as (_ & Hl1 & Hd1).
  destruct (take_token source st1) as [[tok st2]|] eqn:Ht; [|done]. apply str_eqb_eq in Ho.
  destruct (take_word_ahead (js "(") _ _ _ Hl1 eq_refl Ho Ht) as (Hl2 & Hd2 & _ & Ha2).
  destruct (args_loop source f st2 []) as [[args st3]|] eqn:Hg; [|done].
  destruct (expect source (js ")") st3) as [[close st4]|] eqn:Hx; [|done].
  assert (Hc : is_token (js ")") st3 = true) by (unfold expect in Hx; by destruct (is_token _ st3)).
  destruct (IHa _ _ _ _ Hl2 Hg Hc) as (Hl3 & Hd3 & Ha3).
  apply expect_ahead in Hx as (-> & Hl4 & Hd4 & Ha4); [|done|done].
  destruct (Nat.eqb_spec (length args) arity) as [Har|]; [|done]. injection H as <- <-.
  split; [done|]. split; [congruence|]. intros rest Hr.
  destruct (Ha3 _ (Ha4 _ Hr)) as (ts & Hts & new & -> & D).
  eexists. split.
  { eapply take_ahead; [done|exact Hk|unfold token_of; by rewrite Hn|by apply Ha2]. }
  rewrite Hd2, Hd1 in D.
  eapply (dp_call _ _ (place (current st)) _ ts new (place (current st3))); [|exact D]. by rewrite Hf, <- Har.
Qed.

Lemma paren_sound f st st1 e st' : sound_expr f ->
  lexed_at st -> take_token source st = Ok (current st, st1) -> text (current st) = js "(" ->
  (let? (e, st2) := expression source f 0 st1 in
   let? (close, st3) := expect source (js ")") st2 in
   Ok (with_span e (Span (lstart (current st)) (lend close)), st3)) = Ok (e, st') ->
  derived st st' (fun ts rest => derives_prim (pdepth st) ts e rest).
Proof.
  intros IHe Hl Ht Hp H.
  destruct (take_word_ahead (js "(") _ _ _ Hl eq_refl Hp Ht) as (Hl1 & Hd1 & _ & Ha1).
  destruct (expression source f 0 st1) as [[e1 st2]|] eqn:He; [|done].
  apply IHe in He as (Hl2 & Hd2 & Ha2); [|done].
  destruct (expect source (js ")") st2) as [[close st3]|] eqn:Hx; [|done].
  apply expect_ahead in Hx as (-> & Hl3 & Hd3 & Ha3); [|done|done]. injection H as <- <-.
  split; [done|]. split; [congruence|]. intros rest Hr.
  destruct (Ha2 _ (Ha3 _ Hr)) as (ts & Hts & D). eexists. split; [by apply Ha1|].
  apply (dp_paren _ (place (current st)) ts e1 (place (current st2))). by rewrite <- Hd1.
Qed.

Lemma unary_sound f st st1 e st' : sound_expr f ->
  lexed_at st -> take_token source st = Ok (current st, st1) ->
  str_mem (text (current st)) [js "!"; js "+"; js "-"] = true ->
  (let? (operand, st2) := expression source f 7 st1 in
   Ok (EUnary (text (current st)) operand (Span (lstart (current st)) (eend operand)), st2)) = Ok (e, st') ->
  derived st st' (fun ts rest => derives_prim (pdepth st) ts e rest).
Proof.
  intros IHe Hl Ht Hu H. pose proof (listed_word _ _ operator_word Hu eq_refl) as [Hw _]%andb_true_iff.
  destruct (take_word_ahead _ _ _ _ Hl Hw eq_refl Ht) as (Hl1 & Hd1 & _ & Ha1).
  destruct (expression source f 7 st1) as [[e1 st2]|] eqn:He; [|done].
  apply IHe in He as (Hl2 & Hd2 & Ha2); [|done]. injection H as <- <-.
  split; [done|]. split; [congruence|]. intros rest Hr. destruct (Ha2 _ Hr) as (ts & Hts & D).
  eexists. split; [by apply Ha1|]. apply (dp_unary _ _ (place (current st))); [done|]. by rewrite <- Hd1.
Qed.

Lemma primary_sound f : sound_expr f -> sound_args f -> sound_prim (S f).
Proof.
  intros IHe IHa st e st' Hl H. cbn [primary] in H.
  destruct (take_token source st) as [[tok st1]|] eqn:Ht; [|done].
  destruct (take_lexed _ _ _ Hl Ht) as (-> & Hl1 & Hd1).
  assert (Htw : forall k, kind (current st) = k -> k = Kname -> token_of (current st) = Some (TWord (text (current st))))
    by (unfold token_of; by intros ? -> ->).
  destruct (kind (current st)) as [v i|v| | |] eqn:Hk.
  1, 2: injection H as <- <-; eapply leaf_derived; [done|exact Ht|by unfold token_of; rewrite Hk|];
    intros rest _; constructor.
  all: destruct (str_eqb (text (current st)) (js "(")) eqn:Hp;
    [apply str_eqb_eq in Hp; by eapply paren_sound|].
  all: destruct (str_mem (text (current st)) [js "!"; js "+"; js "-"]) eqn:Hu; [by eapply unary_sound|]; try done.
  specialize (Htw Kname eq_refl eq_refl).
  destruct (str_eqb (text (current st)) (js "nil")) eqn:Hnil.
  { apply str_eqb_eq in Hnil. injection H as <- <-. eapply leaf_derived; [done|exact Ht|exact Htw|].
    intros rest _. rewrite Hnil. constructor. }
  destruct (str_mem (text (current st)) [js "true"; js "false"]) eqn:Hb.
  { injection H as <- <-. eapply leaf_derived; [done|exact Ht|exact Htw|]. intros rest _.
    apply str_mem_In in Hb as [Hb|[Hb|[]]]; rewrite <- Hb; [apply (dp_bool _ true)|apply (dp_bool _ false)]. }
  destruct (is_token (js "(") st1) eqn:Ho; cbn [negb] in H.
  - destruct (assoc_get str_eqb (text (current st)) BILLING_FUNCTIONS) eqn:Hf; [|done].
    by eapply call_sound.
  - destruct (str_mem (text (current st)) BILLING_VARIABLES) eqn:Hv; cbn [negb] in H; [|done].
    injection H as <- <-. eapply leaf_derived; [done|exact Ht|exact Htw|]. intros rest Hr.
    apply dp_variable; [done|]. intros Hw. apply (ahead_is_token st1 rest) in Hw; [|done|done]. congruence.
Qed.

Lemma parser_sound f : sound_expr f /\ sound_loop f /\ sound_prim f /\ sound_args f.
Proof.
  induction f as [|f (IHe & IHl & IHp & IHa)]; [by split_and!|].
  split; [by apply expr_sound|]. split; [by apply loop_sound|].
  split; [by apply primary_sound|by apply args_sound].
Qed.

(** ** More fuel changes nothing *)
Definition settled {A} (r r' : result berr A) : Prop := r <> Err OutOfFuel -> r' = r.

Lemma settled_bind {A B} (r r' : result berr A) (k k' : A -> result berr B) :
  settled r r' -> (forall a, settled (k a) (k' a)) -> settled (let? a := r in k a) (let? a := r' in k' a).
Proof.
  intros Hr Hk H. destruct r as [a|x].
  - rewrite (Hr ltac:(done)). by apply Hk.
  - rewrite (Hr ltac:(congruence)). done.
Qed.

Lemma settled_pair {A B C} (r r' : result berr (A * B)) (k k' : A -> B -> result berr C) :
  settled r r' -> (forall a b, settled (k a b) (k' a b)) ->
  settled (let? (a, b) := r in k a b) (let? (a, b) := r' in k' a b).
Proof.
  intros Hr Hk. apply (settled_bind r r' (fun p => let (a, b) := p in k a b) (fun p => let (a, b) := p in k' a b) Hr).
  intros [a b]. apply Hk.
Qed.

Lemma settled_refl {A} (r : result berr A) : settled r r.
Proof. done. Qed.
Hint Resolve settled_refl : core.

Lemma more_fuel f :
  (forall g min st, (f <= g)%nat -> settled (expression source f min st) (expression source g min st)) /\
  (forall g min lhs st, (f <= g)%nat -> settled (binary_loop source f min lhs st) (binary_loop source g min lhs st)) /\
  (forall g st, (f <= g)%nat -> settled (primary source f st) (primary source g st)) /\
  (forall g st args, (f <= g)%nat -> settled (args_loop source f st args) (args_loop source g st args)).
Proof.
  induction f as [|f (IHe & IHl & IHp & IHa)]; [split_and!; by intros * _ []|].
  split_and!; intros [|g]; intros * Hg; try lia; apply le_S_n in Hg.
  - cbn [expression]. cbv zeta. destruct (128 <? _); [done|].
    apply settled_pair; [by apply IHp|]. intros lhs st1. apply settled_pair; [by apply IHl|].
    intros c st2. apply settled_pair; [|done]. destruct (_ && _)%bool; [|done].
    apply settled_pair; [done|]. intros ? st3. apply settled_pair; [by apply IHe|]. intros y st4.
    apply settled_pair; [done|]. intros ? st5. apply settled_pair; [by apply IHe|done].
  - cbn [binary_loop]. destruct (precedence _); [|done]. destruct (_ <=? _); [|done].
    apply settled_pair; [done|]. intros op st1. apply settled_pair; [by apply IHe|]. intros rhs st2. by apply IHl.
  - cbn [primary]. apply settled_pair; [done|]. intros tok st1. destruct (kind tok); try done.
    all: destruct (str_eqb _ (js "(")); [apply settled_pair; [by apply IHe|done]|].
    all: destruct (str_mem _ [js "!"; js "+"; js "-"]); [apply settled_pair; [by apply IHe|done]|]; try done.
    destruct (str_eqb _ _); [done|]. destruct (str_mem _ _); [done|]. destruct (negb _); [done|].
    destruct (assoc_get _ _ _); [|done]. apply settled_pair; [done|]. intros ? st2.
    apply settled_pair; [by apply IHa|done].
  - cbn [args_loop]. destruct (is_token _ _); [done|]. apply settled_pair; [by apply IHe|]. intros a st1.
    destruct (negb _); [done|]. apply settled_pair; [done|]. intros ? st2. by apply IHa.
Qed.

(** ** What is derived the parser accepts *)

(** With enough fuel the run gives [e], with [rest] ahead. *)
Definition completes (F : nat -> result berr (expr * pstate)) (d : Z) (e : expr) (rest : list placed) : Prop :=
  exists f0 st', (forall f, (f0 <= f)%nat -> F f = Ok (e, st')) /\ ahead st' rest /\ pdepth st' = d.

Lemma ahead_take st t sp ts : ahead st ((t, sp) :: ts) ->
  exists st', take_token source st = Ok (current st, st') /\ token_of (current st) = Some t /\
    place (current st) = sp /\ ahead st' ts /\ pdepth st' = pdepth st.
Proof.
  intros H. inversion H as [|? ? tok st' ? Hl Ht Hk Ha]; subst.
  destruct (take_lexed _ _ _ Hl Hk) as (-> & _ & Hd). eauto 7.
Qed.

Lemma ahead_take_word st w sp ts : ahead st ((TWord w, sp) :: ts) ->
  exists st', take_token source st = Ok (current st, st') /\ text (current st) = w /\
    place (current st) = sp /\ ahead st' ts /\ pdepth st' = pdepth st.
Proof. intros (st' & H & Ht%token_word & Ha)%ahead_take. eauto. Qed.

Lemma ahead_expect st w sp ts : ahead st ((TWord w, sp) :: ts) ->
  exists st', expect source w st = Ok (current st, st') /\ place (current st) = sp /\
    ahead st' ts /\ pdepth st' = pdepth st.
Proof.
  intros (st' & H & Ht & Ha)%ahead_take_word. exists st'. split; [|done].
  unfold expect, is_token. by rewrite Ht, str_eqb_refl.
Qed.

Lemma ahead_not_token st ts w : ahead st ts -> word_start w = true -> next_word ts <> Some w ->
  is_token w st = false.
Proof.
  intros Ha Hw Hn. destruct (is_token w st) eqn:E; [|done]. exfalso. apply Hn.
  by apply (ahead_is_token st ts w Ha Hw).
Qed.

(** A word that starts with a letter is a name. *)
Lemma name_kind st w : lexed_at st -> token_of (current st) = Some (TWord w) ->
  (match w with c :: _ => is_alpha c || N.eqb c 95 | [] => false end)%bool = true ->
  kind (current st) = Kname /\ text (current st) = w.
Proof.
  intros [c [Hc (n & m & Hn)]] Ht Hw. pose proof (token_word _ _ Ht) as Htx. split; [|done].
  revert Hn Ht Htx. generalize (current st) as l. intros l Hn Ht Htx.
  unfold next in Hn. cbv zeta in Hn. destr_match_in Hn. destruct (drop _ source) as [|x r] eqn:Er; [by simplify_eq|].
  destruct (re_prefix number_re (x :: r)) as [t|]; [inv_ok Hn; done|].
  destruct (N.eqb x 34 || N.eqb x 39)%bool.
  { destruct (scan_string _ _ _ _ _) as [[v e]|]; [|done]. by simplify_eq. }
  destruct (re_prefix name_re (x :: r)) as [t|] eqn:Ename; [by simplify_eq|].
  destruct (re_prefix operator_re (x :: r)) as [t|] eqn:Eop; [|done]. simplify_eq. simpl in *.
  destruct t as [|y t]; [done|]. pose proof (prefix_head _ _ _ _ Eop ltac:(done)) as [= ->].
  exfalso. unfold re_prefix, re_exec in Ename.
  destruct (rmatch_complete name_re (MState (x :: r) []) (MState r []) Some) as [z E2].
  - eapply m_cat; [by apply m_char|apply m_star_nil].
  - by eexists.
  - by rewrite E2 in Ename.
Qed.

Definition complete_expr d min ts e rest : Prop := forall st, ahead st ts -> pdepth st = d ->
  completes (fun f => expression source f min st) d e rest.
Definition complete_loop d min lhs ts e rest : Prop := forall st, ahead st ts -> pdepth st = d ->
  completes (fun f => binary_loop source f min lhs st) d e rest.
Definition complete_prim d ts e rest : Prop := forall st, ahead st ts -> pdepth st = d ->
  completes (fun f => primary source f st) d e rest.
Definition complete_args d ts es rest : Prop := forall st args, ahead st ts -> pdepth st = d ->
  exists f0 st', (forall f, (f0 <= f)%nat -> args_loop source f st args = Ok (args ++ es, st')) /\
    ahead st' rest /\ pdepth st' = d.

(** Fuel given for a step: one unit for the step itself. *)
Local Ltac fuel_step f Hf := intros f Hf; destruct f as [|f]; [lia|].

Lemma plain_complete d min ts lhs ts1 e rest : d < 128 -> complete_prim (d + 1) ts lhs ts1 ->
  complete_loop (d + 1) min lhs ts1 e rest -> (min = 0 -> next_word rest <> Some (js "?")) ->
  complete_expr d min ts e rest.
Proof.
  intros Hd Hp Hl Hq st Ha Hst.
  destruct (Hp (set_depth (d + 1) st)) as (f1 & st1 & H1 & A1 & D1); [by apply ahead_depth|done|].
  destruct (Hl st1 A1 D1) as (f2 & st2 & H2 & A2 & D2).
  exists (S (f1 + f2)), (set_depth d st2). split; [|split; [by apply ahead_depth|done]].
  fuel_step f Hf. cbn [expression]. cbv zeta. rewrite Hst.
  destruct (Z.ltb_spec 128 (d + 1)); [lia|]. rewrite H1 by lia. rewrite H2 by lia.
  destruct ((min =? 0) && is_token (js "?") st2)%bool eqn:E.
  - apply andb_true_iff in E as [->%Z.eqb_eq E]. apply (ahead_is_token st2 rest) in E; [|done|done].
    by destruct Hq.
  - by rewrite D2, Z.add_simpl_r.
Qed.

Lemma cond_complete d ts lhs ts1 c sp1 ts2 y sp2 ts3 n rest : d < 128 -> complete_prim (d + 1) ts lhs ts1 ->
  complete_loop (d + 1) 0 lhs ts1 c ((word "?", sp1) :: ts2) ->
  complete_expr (d + 1) 0 ts2 y ((word ":", sp2) :: ts3) ->
  complete_expr (d + 1) 0 ts3 n rest ->
  complete_expr d 0 ts (ECond c y n (hull (span_of c) (span_of n))) rest.
Proof.
  intros Hd Hp Hl Hy Hn st Ha Hst.
  destruct (Hp (set_depth (d + 1) st)) as (f1 & st1 & H1 & A1 & D1); [by apply ahead_depth|done|].
  destruct (Hl st1 A1 D1) as (f2 & st2 & H2 & A2 & D2).
  pose proof (ahead_is_token st2 _ (js "?") A2 eq_refl) as [_ Hq]. specialize (Hq eq_refl).
  apply ahead_take_word in A2 as (st3 & H3 & _ & _ & A3 & D3). rewrite D2 in D3.
  destruct (Hy st3 A3 D3) as (f4 & st4 & H4 & A4 & D4).
  apply ahead_expect in A4 as (st5 & H5 & _ & A5 & D5). rewrite D4 in D5.
  destruct (Hn st5 A5 D5) as (f6 & st6 & H6 & A6 & D6).
  exists (S (f1 + f2 + f4 + f6)), (set_depth d st6). split; [|split; [by apply ahead_depth|done]].
  fuel_step f Hf. cbn [expression]. cbv zeta. rewrite Hst.
  destruct (Z.ltb_spec 128 (d + 1)); [lia|]. rewrite H1, H2 by lia. rewrite Hq. cbn [Z.eqb andb].
  rewrite H3, H4 by lia. rewrite H5, H6 by lia. by rewrite D6, Z.add_simpl_r.
Qed.

Lemma operator_complete d min lhs op sp p ts rhs ts1 e rest : precedence op = Some p -> min <= p ->
  complete_expr d (p + 1) ts rhs ts1 ->
  complete_loop d min (EBinary op lhs rhs (hull (span_of lhs) (span_of rhs))) ts1 e rest ->
  complete_loop d min lhs ((TWord op, sp) :: ts) e rest.
Proof.
  intros Hp Hm Hr Hl st Ha Hst.
  apply ahead_take_word in Ha as (st1 & H1 & T1 & _ & A1 & D1). rewrite Hst in D1.
  destruct (Hr st1 A1 D1) as (f2 & st2 & H2 & A2 & D2).
  destruct (Hl st2 A2 D2) as (f3 & st3 & H3 & A3 & D3).
  exists (S (f2 + f3)), st3. split; [|done]. fuel_step f Hf. cbn [binary_loop]. rewrite T1, Hp.
  destruct (Z.leb_spec min p); [|lia]. rewrite H1, H2 by lia. rewrite T1. apply H3. lia.
Qed.

(** A leaf: the lexeme alone decides. *)
Lemma leaf_complete d t sp rest e :
  (forall st st1 f, ahead st ((t, sp) :: rest) -> ahead st1 rest -> token_of (current st) = Some t ->
     place (current st) = sp -> take_token source st = Ok (current st, st1) ->
     primary source (S f) st = Ok (e, st1)) ->
  complete_prim d ((t, sp) :: rest) e rest.
Proof.
  intros H st Ha Hst. pose proof Ha as (st1 & H1 & T1 & P1 & A1 & D1)%ahead_take.
  exists 1%nat, st1. split; [|split; [done|congruence]]. fuel_step f Hf. by apply H.
Qed.

Definition is_ident (w : jsstr) : bool :=
  (match w with c :: _ => is_alpha c || N.eqb c 95 | [] => false end)
  && negb (str_eqb w (js "(")) && negb (str_mem w [js "!"; js "+"; js "-"]).
Definition is_reserved (w : jsstr) : bool := str_mem w [js "nil"; js "true"; js "false"].

(** How [primary] goes on after a name. *)
Lemma primary_name st st1 w sp ts f :
  ahead st ((TWord w, sp) :: ts) -> is_ident w = true -> take_token source st = Ok (current st, st1) ->
  primary source (S f) st =
  if str_eqb w (js "nil") then Ok (ELit LNull false sp, st1)
  else if str_mem w [js "true"; js "false"] then Ok (ELit (LBool (str_eqb w (js "true"))) false sp, st1)
  else if negb (is_token (js "(") st1) then
    if negb (str_mem w BILLING_VARIABLES) then throw Dunsupported w (Some (lstart (current st)))
    else Ok (EVar w sp, st1)
  else
    match assoc_get str_eqb w BILLING_FUNCTIONS with
    | None => throw Dunsupported w (Some (lstart (current st)))
    | Some arity =>
        let? (_, st2) := take_token source st1 in
        let? (args, st3) := args_loop source f st2 [] in
        let? (close, st4) := expect source (js ")") st3 in
        if negb (Nat.eqb (length args) arity) then throw Dtype w (Some (lstart (current st)))
        else Ok (ECall w args (hull sp (place close)), st4)
    end.
Proof.
  intros Ha [[Hn Hp]%andb_true_iff Hu]%andb_true_iff H1. apply negb_true_iff in Hp, Hu.
  pose proof (ahead_take _ _ _ _ Ha) as (_ & _ & Ht & <- & _).
  destruct (name_kind st w (ahead_lexed _ _ Ha) Ht Hn) as [Hk Htx].
  cbn [primary]. rewrite H1. cbv zeta. rewrite Hk, Htx, Hp, Hu. done.
Qed.

Definition is_name (w : jsstr) : bool := is_ident w && negb (is_reserved w).

Lemma name_cases w : is_name w = true ->
  is_ident w = true /\ str_eqb w (js "nil") = false /\ str_mem w [js "true"; js "false"] = false.
Proof.
  intros [Hi Hr]%andb_true_iff. split; [done|]. apply negb_true_iff in Hr. unfold is_reserved in Hr.
  cbn [str_mem existsb] in Hr. by apply orb_false_iff in Hr.
Qed.

Lemma variable_complete d name sp rest : str_mem name BILLING_VARIABLES = true ->
  next_word rest <> Some (js "(") -> complete_prim d ((TWord name, sp) :: rest) (EVar name sp) rest.
Proof.
  intros Hv Hn. destruct (name_cases _ (listed_word _ _ is_name Hv eq_refl)) as (Hi & Hnil & Hb).
  apply leaf_complete. intros st st1 f Ha A1 _ _ H1.
  rewrite (primary_name _ _ _ _ _ _ Ha Hi H1).
  by rewrite Hnil, Hb, (ahead_not_token st1 rest), Hv by done.
Qed.

Lemma call_complete d name sp1 sp2 ts args sp3 rest :
  assoc_get str_eqb name BILLING_FUNCTIONS = Some (length args) ->
  complete_args d ts args ((word ")", sp3) :: rest) ->
  complete_prim d ((TWord name, sp1) :: (word "(", sp2) :: ts) (ECall name args (hull sp1 sp3)) rest.
Proof.
  intros Hf Hargs st Ha Hst.
  destruct (name_cases _ (table_word _ _ _ is_name Hf eq_refl)) as (Hi & Hnil & Hb).
  pose proof Ha as (st1 & H1 & _ & _ & A1 & D1)%ahead_take_word. rewrite Hst in D1.
  pose proof (ahead_is_token st1 _ (js "(") A1 eq_refl) as [_ Ho]. specialize (Ho eq_refl).
  apply ahead_take_word in A1 as (st2 & H2 & _ & _ & A2 & D2). rewrite D1 in D2.
  destruct (Hargs st2 [] A2 D2) as (f3 & st3 & H3 & A3 & D3).
  apply ahead_expect in A3 as (st4 & H4 & P4 & A4 & D4). rewrite D3 in D4.
  exists (S f3), st4. split; [|done].
  fuel_step f Hf'. rewrite (primary_name _ _ _ _ _ _ Ha Hi H1).
  rewrite Hnil, Hb, Ho, Hf. cbn [negb]. rewrite H2, H3 by lia. cbn [app]. rewrite H4, P4.
  by rewrite Nat.eqb_refl.
Qed.

Lemma reserved_complete d w sp e rest :
  (w = js "nil" /\ e = ELit LNull false sp) \/ (exists b, TWord w = bool_word b /\ e = ELit (LBool b) false sp) ->
  complete_prim d ((TWord w, sp) :: rest) e rest.
Proof.
  intros H. assert (Hi : is_ident w = true).
  { destruct H as [[-> _]|([] & [= ->] & _)]; reflexivity. }
  apply leaf_complete. intros st st1 f Ha A1 _ _ H1. rewrite (primary_name _ _ _ _ _ _ Ha Hi H1).
  by destruct H as [[-> ->]|([] & [= ->] & ->)].
Qed.

Lemma paren_complete d sp1 ts e sp2 rest : complete_expr d 0 ts e ((word ")", sp2) :: rest) ->
  complete_prim d ((word "(", sp1) :: ts) (with_span e (hull sp1 sp2)) rest.
Proof.
  intros He st Ha Hst. pose proof Ha as (st1 & H1 & T1 & P1 & A1 & D1)%ahead_take. rewrite Hst in D1.
  destruct (He st1 A1 D1) as (f2 & st2 & H2 & A2 & D2).
  apply ahead_expect in A2 as (st3 & H3 & P3 & A3 & D3). rewrite D2 in D3.
  exists (S f2), st3. split; [|done]. fuel_step f Hf. cbn [primary]. rewrite H1. cbv zeta.
  pose proof (token_word _ _ T1) as Htx. unfold token_of in T1. rewrite <- P1, <- P3.
  destruct (kind (current st)); try discriminate T1; rewrite Htx; simpl; rewrite H2 by lia; by rewrite H3.
Qed.

Lemma unary_complete d op sp ts e rest : str_mem op [js "!"; js "+"; js "-"] = true ->
  complete_expr d 7 ts e rest ->
  complete_prim d ((TWord op, sp) :: ts) (EUnary op e (hull sp (span_of e))) rest.
Proof.
  intros Hop He st Ha Hst. pose proof Ha as (st1 & H1 & T1 & P1 & A1 & D1)%ahead_take. rewrite Hst in D1.
  destruct (He st1 A1 D1) as (f2 & st2 & H2 & A2 & D2).
  exists (S f2), st2. split; [|done]. fuel_step f Hf. cbn [primary]. rewrite H1. cbv zeta.
  pose proof (token_word _ _ T1) as Htx. unfold token_of in T1. rewrite <- P1.
  assert (Hno : str_eqb op (js "(") = false) by (by apply str_mem_In in Hop as [<-|[<-|[<-|[]]]]).
  destruct (kind (current st)); try discriminate T1; rewrite Htx, Hno, Hop, H2 by lia; done.
Qed.

(** No expression starts with a closing bracket. *)
Lemma expr_not_closing d min ts e rest : derives_expr d min ts e rest -> next_word ts <> Some (js ")").
Proof.
  assert (Hprim : forall d ts e rest, derives_prim d ts e rest -> next_word ts <> Some (js ")")).
  { intros d' ts' e' rest' H. destruct H as [| | |? op ? ? ? ? Hop _| |? b|? name ? ? Hv _|? name ? ? ? ? ? ? Hf _];
      try discriminate; try (destruct b; discriminate); intros [= ->]; done. }
  destruct 1; by eapply Hprim.
Qed.

Lemma args_last_complete d ts e rest : derives_expr d 0 ts e rest -> complete_expr d 0 ts e rest ->
  next_word rest <> Some (js ",") -> complete_args d ts [e] rest.
Proof.
  intros D He Hn st args Ha Hst. destruct (He st Ha Hst) as (f1 & st1 & H1 & A1 & D1).
  exists (S f1), st1. split; [|done]. fuel_step f Hf. cbn [args_loop].
  rewrite (ahead_not_token st ts) by (try done; by eapply expr_not_closing).
  rewrite H1 by lia. by rewrite (ahead_not_token st1 rest).
Qed.

Lemma args_more_complete d ts e sp ts1 es rest : derives_expr d 0 ts e ((word ",", sp) :: ts1) ->
  complete_expr d 0 ts e ((word ",", sp) :: ts1) -> complete_args d ts1 es rest ->
  complete_args d ts (e :: es) rest.
Proof.
  intros D He Hes st args Ha Hst. destruct (He st Ha Hst) as (f1 & st1 & H1 & A1 & D1).
  pose proof (proj2 (ahead_is_token st1 _ (js ",") A1 eq_refl) eq_refl) as Hc.
  apply ahead_take_word in A1 as (st2 & H2 & _ & _ & A2 & D2). rewrite D1 in D2.
  destruct (Hes st2 (args ++ [e]) A2 D2) as (f3 & st3 & H3 & A3 & D3).
  exists (S (f1 + f3)), st3. split; [|done]. fuel_step f Hf. cbn [args_loop].
  rewrite (ahead_not_token st ts) by (try done; by eapply expr_not_closing).
  rewrite H1 by lia. rewrite Hc. cbn [negb]. rewrite H2, H3 by lia. by rewrite <- app_assoc.
Qed.

Lemma parser_complete :
  (forall d min ts e rest, derives_expr d min ts e rest -> complete_expr d min ts e rest) /\
  (forall d min lhs ts e rest, derives_loop d min lhs ts e rest -> complete_loop d min lhs ts e rest) /\
  (forall d ts e rest, derives_prim d ts e rest -> complete_prim d ts e rest) /\
  (forall d ts es rest, derives_args d ts es rest -> complete_args d ts es rest).
Proof.
  apply derives_mutind; intros *.
  - intros ? _ ? _ ? ?. by eapply plain_complete.
  - intros ? _ ? _ ? _ ? _ ?. by eapply cond_complete.
  - intros Hp st Ha Hst. exists 1%nat, st. split; [|done]. fuel_step f Hf. cbn [binary_loop].
    destruct (precedence (text (current st))) as [p|] eqn:E; [|done].
    apply (ahead_precedence st ts) in E as (w & Hw & Hwp); [|done].
    destruct (Z.leb_spec min p); [|done]. specialize (Hp _ _ Hw Hwp). lia.
  - intros ? ? _ ? _ ?. by eapply operator_complete.
  - apply leaf_complete. intros st st1 f _ _ Ht <- H1.
    cbn [primary]. rewrite H1. unfold token_of in Ht. by destruct (kind (current st)); simplify_eq.
  - apply leaf_complete. intros st st1 f _ _ Ht <- H1.
    cbn [primary]. rewrite H1. unfold token_of in Ht. by destruct (kind (current st)); simplify_eq.
  - intros _ ?. by apply paren_complete.
  - intros ? _ ?. by apply unary_complete.
  - apply reserved_complete. by left.
  - apply reserved_complete. right. by exists b.
  - intros ? ?. by apply variable_complete.
  - intros ? _ ?. by apply call_complete.
  - intros st args Ha Hst. exists 1%nat, st. split; [|done]. fuel_step f Hf. cbn [args_loop].
    rewrite (proj2 (ahead_is_token st _ (js ")") Ha eq_refl) eq_refl). by rewrite app_nil_r.
  - intros ? ? ?. by apply args_last_complete.
  - intros ? ? _ ?. by eapply args_more_complete.
Qed.
End ahead.

(** ** Sources *)

(** The lexemes of a source that the parser can start on: short enough, of the first
    version, and with fewer lexemes than the limit. *)
Definition source_tokens (source : jsstr) (ts : list placed) : Prop :=
  exists st, new_parser source = Ok st /\ ahead source st ts.

Lemma new_parser_lexed source st : new_parser source = Ok st -> lexed_at source st /\ pdepth st = 0.
Proof.
  intros H. pose proof (new_parser_at _ _ H) as Ha. split; [by eexists|]. unfold new_parser in H.
  destruct (65536 <? _); [done|]. by inv_ok H.
Qed.

Lemma ahead_det source st ts us : ahead source st ts -> ahead source st us -> ts = us.
Proof.
  intros H. revert us. induction H as [st Hl He|st t tok st' ts Hl Ht Hk _ IH]; intros us Hu.
  - inversion Hu as [|? ? ? ? ? ? Ht]; [done|subst]. unfold token_of in Ht. by destruct (kind (current st)).
  - inversion Hu as [? ? He|? ? ? ? ? ? Ht' Hk' Hu']; subst.
    + unfold token_of in Ht. by destruct (kind (current st)).
    + rewrite Ht in Ht'. rewrite Hk in Hk'. simplify_eq. f_equal. by apply IH.
Qed.

Lemma source_tokens_det source ts us : source_tokens source ts -> source_tokens source us -> ts = us.
Proof.
  intros (st & Hn & Ha) (st' & Hn' & Ha'). rewrite Hn in Hn'. injection Hn' as <-. by eapply ahead_det.
Qed.

Lemma parse_derives source e : parse source = Ok e ->
  exists ts, source_tokens source ts /\ derives_expr 0 0 ts e [].
Proof.
  unfold parse. intros H. destruct (new_parser source) as [st|] eqn:Hn; [|done].
  destruct (new_parser_lexed _ _ Hn) as [Hl Hd].
  destruct (expression source _ 0 st) as [[e' st']|] eqn:He; [|done].
  destruct (is_end (kind (current st'))) eqn:Hend; [|done]. injection H as <-.
  apply (proj1 (parser_sound source _)) in He as (Hl' & _ & Ha); [|done].
  destruct (Ha [] (ahead_end _ _ Hl' Hend)) as (ts & Hts & D). rewrite Hd in D.
  exists ts. split; [by exists st|done].
Qed.

Lemma derives_parse source ts e : source_tokens source ts -> derives_expr 0 0 ts e [] -> parse source = Ok e.
Proof.
  intros (st & Hn & Ha) D. pose proof (new_parser_lexed _ _ Hn) as [_ Hd].
  destruct (proj1 (parser_complete source) _ _ _ _ _ D st Ha Hd) as (f0 & st' & Hf & Ha' & _).
  assert (Hfuel : expression source (parse_fuel source) 0 st <> Err OutOfFuel).
  { pose proof (new_parser_ok source) as Hok. rewrite Hn in Hok. destruct Hok as [Hst Hr].
    pose proof (proj1 (parser_specs source (parse_fuel source)) 0 st Hst ltac:(lia)) as Hs.
    intros Hx. rewrite Hx in Hs. specialize (Hs eq_refl). unfold parse_fuel in Hs. lia. }
  pose proof (proj1 (more_fuel source (parse_fuel source)) (parse_fuel source + f0)%nat 0 st ltac:(lia) Hfuel) as Hm.
  rewrite Hf in Hm by lia. unfold parse. rewrite Hn, <- Hm.
  inversion Ha' as [? _ He|]; subst. by rewrite He.
Qed.

(** ** Places do not matter *)
Definition no_span : span := Span 0 0.

Fixpoint strip (e : expr) : expr :=
  match e with
  | ELit l i _ => ELit l i no_span
  | EVar name _ => EVar name no_span
  | ECall name args _ => ECall name (map strip args) no_span
  | EUnary op x _ => EUnary op (strip x) no_span
  | EBinary op l r _ => EBinary op (strip l) (strip r) no_span
  | ECond c y n _ => ECond (strip c) (strip y) (strip n) no_span
  end.

Lemma strip_with_span e sp : strip (with_span e sp) = strip e.
Proof. by destruct e. Qed.

Lemma moved_word (ts us : list placed) : map fst ts = map fst us -> next_word ts = next_word us.
Proof. destruct ts as [|[t ?]], us as [|[u ?]]; cbn [map]; try done. by injection 1 as <-. Qed.

Lemma moved_cons t sp (ts us : list placed) : map fst ((t, sp) :: ts) = map fst us ->
  exists sp' us', us = (t, sp') :: us' /\ map fst ts = map fst us'.
Proof. destruct us as [|[t' sp'] us']; [done|]. intros [= -> H]. eauto. Qed.

(** The same lexemes at other places derive the same tree at other places. *)
Lemma derives_moved :
  (forall d min ts e rest, derives_expr d min ts e rest -> forall us, map fst ts = map fst us ->
     exists e' rest', derives_expr d min us e' rest' /\ strip e' = strip e /\ map fst rest = map fst rest') /\
  (forall d min lhs ts e rest, derives_loop d min lhs ts e rest -> forall us lhs', map fst ts = map fst us ->
     strip lhs' = strip lhs ->
     exists e' rest', derives_loop d min lhs' us e' rest' /\ strip e' = strip e /\ map fst rest = map fst rest') /\
  (forall d ts e rest, derives_prim d ts e rest -> forall us, map fst ts = map fst us ->
     exists e' rest', derives_prim d us e' rest' /\ strip e' = strip e /\ map fst rest = map fst rest') /\
  (forall d ts es rest, derives_args d ts es rest -> forall us, map fst ts = map fst us ->
     exists es' rest', derives_args d us es' rest' /\ map strip es' = map strip es /\ map fst rest = map fst rest').
Proof.
  apply derives_mutind.
  - intros * Hd _ IHp _ IHl Hq us Hus. destruct (IHp _ Hus) as (l' & r1 & D1 & S1 & M1).
    destruct (IHl _ l' M1 S1) as (e' & r2 & D2 & S2 & M2). exists e', r2. split; [|done].
    eapply de_plain; [done|exact D1|exact D2|]. by rewrite <- (moved_word _ _ M2).
  - intros * Hd _ IHp _ IHl _ IHy _ IHn us Hus. destruct (IHp _ Hus) as (l' & r1 & D1 & S1 & M1).
    destruct (IHl _ l' M1 S1) as (c' & r2 & D2 & S2 & M2). apply moved_cons in M2 as (sp1' & t2 & -> & M2).
    destruct (IHy _ M2) as (y' & r3 & D3 & S3 & M3). apply moved_cons in M3 as (sp2' & t3 & -> & M3).
    destruct (IHn _ M3) as (n' & r4 & D4 & S4 & M4).
    eexists _, r4. split; [by eapply de_cond|]. split; [cbn [strip]; congruence|done].
  - intros * Hp us lhs' Hus Hl. exists lhs', us. split; [|done]. apply dl_done.
    by rewrite <- (moved_word _ _ Hus).
  - intros * Hp Hm _ IHr _ IHl us lhs' Hus Hlhs. apply moved_cons in Hus as (sp' & us' & -> & Hus).
    destruct (IHr _ Hus) as (r' & t1 & D1 & S1 & M1).
    destruct (IHl t1 (EBinary op lhs' r' (hull (span_of lhs') (span_of r'))) M1) as (e' & t2 & D2 & S2 & M2).
    { cbn [strip]. congruence. }
    exists e', t2. split; [|done]. by eapply dl_operator.
  - intros * H. apply moved_cons in H as (sp' & us' & -> & M). eexists _, us'. split; [apply dp_number|done].
  - intros * H. apply moved_cons in H as (sp' & us' & -> & M). eexists _, us'. split; [apply dp_string|done].
  - intros * _ IH us H. apply moved_cons in H as (sp' & us' & -> & M). destruct (IH _ M) as (e' & r1 & D1 & S1 & M1).
    apply moved_cons in M1 as (sp2' & t2 & -> & M2). eexists _, t2. split; [by eapply dp_paren|].
    by rewrite !strip_with_span.
  - intros * Hop _ IH us (sp' & us' & -> & M)%moved_cons. destruct (IH _ M) as (e' & r1 & D1 & S1 & M1).
    eexists _, r1. split; [by eapply dp_unary|]. split; [cbn [strip]; congruence|done].
  - intros * H. apply moved_cons in H as (sp' & us' & -> & M). eexists _, us'. split; [apply dp_nil|done].
  - intros * H. apply moved_cons in H as (sp' & us' & -> & M). eexists _, us'. split; [apply dp_bool|done].
  - intros * Hv Hn us (sp' & us' & -> & M)%moved_cons. eexists _, us'.
    split; [apply dp_variable; [done|by rewrite <- (moved_word _ _ M)]|done].
  - intros * Hf _ IH us (sp' & us' & -> & M)%moved_cons. apply moved_cons in M as (sp2' & us2 & -> & M).
    destruct (IH _ M) as (es' & r1 & D1 & S1 & M1). apply moved_cons in M1 as (sp3' & t3 & -> & M3).
    eexists _, t3. split; [eapply dp_call; [|exact D1]|split; [cbn [strip]; congruence|done]].
    by rewrite Hf, <- (length_map strip args), <- S1, length_map.
  - intros * Hus. exists [], us. split; [|done]. apply moved_cons in Hus as (sp' & us' & -> & _). apply da_nil.
  - intros * _ IH Hn us Hus. destruct (IH _ Hus) as (e' & r1 & D1 & S1 & M1). exists [e'], r1.
    split; [apply da_last; [done|by rewrite <- (moved_word _ _ M1)]|]. split; [cbn [map]; congruence|done].
  - intros * _ IH _ IHs us Hus. destruct (IH _ Hus) as (e' & r1 & D1 & S1 & M1).
    apply moved_cons in M1 as (sp' & t1 & -> & M1). destruct (IHs _ M1) as (es' & r2 & D2 & S2 & M2).
    exists (e' :: es'), r2. split; [by eapply da_more|]. split; [cbn [map]; congruence|done].
Qed.

(** C5: the parser decides the grammar of billing expressions.  A source parses to a tree
    exactly when its lexemes, with their places, derive the tree under the precedence
    table, the declared names and arities and the nesting limit; and two sources with the
    same lexemes, however they are laid out, parse to the same tree up to places or are
    both refused. *)
Theorem parser_decides_grammar source :
  (forall e, parse source = Ok e <-> exists ts, source_tokens source ts /\ derives_expr 0 0 ts e []) /\
  (forall other ts us, source_tokens source ts -> source_tokens other us -> map fst ts = map fst us ->
     strip <$> ok_option (parse source) = strip <$> ok_option (parse other)).
Proof.
  split.
  { intros e. split; [apply parse_derives|]. intros (ts & Hts & D). by eapply derives_parse. }
  assert (Hmove : forall a b ts us, source_tokens a ts -> source_tokens b us -> map fst ts = map fst us ->
    forall e, parse a = Ok e -> exists e', parse b = Ok e' /\ strip e' = strip e).
  { intros a b ts us Ha Hb M e He. apply parse_derives in He as (ts' & Hts' & D).
    rewrite (source_tokens_det _ _ _ Hts' Ha) in D.
    destruct (proj1 derives_moved _ _ _ _ _ D us M) as (e' & [|] & D' & HS & M'); [|done].
    exists e'. split; [by eapply derives_parse|done]. }
  intros other ts us Ha Hb M. destruct (parse source) as [e|] eqn:E; destruct (parse other) as [e'|] eqn:E'; simpl; try done.
  - destruct (Hmove _ _ _ _ Ha Hb M e E) as (e2 & E2 & HS). rewrite E' in E2. injection E2 as <-. by rewrite HS.
  - destruct (Hmove _ _ _ _ Ha Hb M e E) as (e2 & E2 & _). by rewrite E' in E2.
  - destruct (Hmove _ _ _ _ Hb Ha (eq_sym M) e' E') as (e2 & E2 & _). by rewrite E in E2.
Qed.
