(* ===== verification/ExprQuoteSpec.v ===== *)
(** * Quoted text

    The editors write a string into an expression with [JSON.stringify]; the parser
    reads the same string back. *)

From S2P Require Import Prelude JsString JsNumber JsRegex JsValue ExprTypes ExprParser.


Lemma hex_val_digit n : (n < 16)%N -> hex_val (hex_digit n) = n /\ is_hex (hex_digit n) = true.
Proof.
  intros Hn.
  assert (Hall : forallb (fun i => N.eqb (hex_val (hex_digit i)) i && is_hex (hex_digit i))
    (map N.of_nat (seq 0 16)) = true) by done.
  rewrite forallb_forall in Hall. specialize (Hall n). bprop.
  assert (Hin : In n (map N.of_nat (seq 0 16))).
  { apply in_map_iff. exists (N.to_nat n). split; [lia|]. apply in_seq. lia. }
  apply Hall, andb_true_iff in Hin as [H1 H2]. by apply N.eqb_eq in H1.
Qed.

Lemma scan_unicode q st c r pos v :
  (c < 65536)%N -> q <> 92%N ->
  scan_string q st (unicode_escape c ++ r) pos v = scan_string q st r (6 + pos) (v ++ [c]).
Proof.
  intros Hc Hq. unfold unicode_escape. cbn [app scan_string].
  replace (N.eqb 92 q) with false by (symmetry; apply N.eqb_neq; congruence).
  change (N.eqb 92 10 || N.eqb 92 13) with false. change (negb (N.eqb 92 92)) with false.
  change (assoc_get N.eqb 117%N escapes) with (@None N). change (N.eqb 117 (ch "u")) with true.
  cbv iota.
  assert (Hd : forall k, (c / k mod 16 < 16)%N) by (intros k; apply N.mod_lt; done).
  destruct (hex_val_digit (c / 4096 mod 16) (Hd _)) as [H1 H1'].
  destruct (hex_val_digit (c / 256 mod 16) (Hd _)) as [H2 H2'].
  destruct (hex_val_digit (c / 16 mod 16) (Hd _)) as [H3 H3'].
  destruct (hex_val_digit (c mod 16)) as [H4 H4']; [by apply N.mod_lt|].
  cbn [forallb]. rewrite H1', H2', H3', H4'. cbn [andb].
  unfold N_of_hex. cbn [fold_left]. rewrite H1, H2, H3, H4.
  replace ((((0 * 16 + c / 4096 mod 16) * 16 + c / 256 mod 16) * 16 + c / 16 mod 16) * 16 + c mod 16)%N
    with c; [done|].
  replace (c / 4096)%N with (c / 16 / 16 / 16)%N by (rewrite !N.Div0.div_div; done).
  replace (c / 256)%N with (c / 16 / 16)%N by (rewrite !N.Div0.div_div; done).
  pose proof (N.div_mod' c 16) as E0. pose proof (N.div_mod' (c / 16) 16) as E1.
  pose proof (N.div_mod' (c / 16 / 16) 16) as E2.
  pose proof (N.div_mod' (c / 16 / 16 / 16) 16) as E3.
  pose proof (N.mod_lt c 16 ltac:(done)). pose proof (N.mod_lt (c / 16) 16 ltac:(done)).
  pose proof (N.mod_lt (c / 16 / 16) 16 ltac:(done)).
  pose proof (N.mod_lt (c / 16 / 16 / 16) 16 ltac:(done)).
  set (q3 := (c / 16 / 16 / 16)%N) in *. set (q2 := (c / 16 / 16)%N) in *. set (q1 := (c / 16)%N) in *.
  set (r0 := (c mod 16)%N) in *. set (r1 := (q1 mod 16)%N) in *. set (r2 := (q2 mod 16)%N) in *.
  set (r3 := (q3 mod 16)%N) in *. set (q4 := (q3 / 16)%N) in *. clearbody r0 r1 r2 r3 q4.
  clearbody q3. clearbody q2. clearbody q1. lia.
Qed.

Lemma scan_quote_unit st c r pos v :
  (c < 65536)%N ->
  scan_string 34 st (quote_unit c ++ r) pos v =
  scan_string 34 st r (length (quote_unit c) + pos) (v ++ [c]).
Proof.
  intros Hc. unfold quote_unit.
  destruct (N.eqb_spec c 34) as [->|H34]; [done|]. destruct (N.eqb_spec c 92) as [->|H92]; [done|].
  destruct (N.eqb_spec c 8) as [->|H8]; [done|]. destruct (N.eqb_spec c 12) as [->|H12]; [done|].
  destruct (N.eqb_spec c 10) as [->|H10]; [done|]. destruct (N.eqb_spec c 13) as [->|H13]; [done|].
  destruct (N.eqb_spec c 9) as [->|H9]; [done|]. destruct (N.ltb c 32); [by apply scan_unicode|].
  cbn [app scan_string length Nat.add].
  apply N.eqb_neq in H34, H92, H10, H13. by rewrite H34, H10, H13, H92.
Qed.

Lemma scan_quoted n : forall s st r pos v,
  length s <= n -> Forall (fun c => (c < 65536)%N) s ->
  scan_string 34 st (quote_units s ++ 34%N :: r) pos v =
  Ok (v ++ s, S (length (quote_units s) + pos)).
Proof.
  assert (Hsur : forall c, is_high_surrogate c = true \/ is_low_surrogate c = true ->
    forall st r pos v, scan_string 34 st (c :: r) pos v = scan_string 34 st r (S pos) (v ++ [c])).
  { intros c Hc st r pos v. cbn [scan_string].
    assert (Hr : (55296 <= c)%N).
    { unfold is_high_surrogate, is_low_surrogate, in_range in Hc.
      destruct Hc as [Hc|Hc]; bprop; lia. }
    replace (N.eqb c 34) with false by (symmetry; apply N.eqb_neq; lia).
    replace (N.eqb c 10) with false by (symmetry; apply N.eqb_neq; lia).
    replace (N.eqb c 13) with false by (symmetry; apply N.eqb_neq; lia).
    replace (N.eqb c 92) with false by (symmetry; apply N.eqb_neq; lia). done. }
  induction n as [|n IH]; intros s st r pos v Hn Hs.
  { destruct s; [|simpl in Hn; lia]. cbn. by rewrite app_nil_r. }
  destruct s as [|c s]; [cbn; by rewrite app_nil_r|]. inversion Hs as [|? ? Hc Hs']; subst.
  simpl in Hn. cbn [quote_units].
  assert (Hgo : forall s' pos' w, length s' <= n -> Forall (fun c => (c < 65536)%N) s' ->
    scan_string 34 st (quote_units s' ++ 34%N :: r) pos' w =
    Ok (w ++ s', S (length (quote_units s') + pos'))) by (intros; by apply IH).
  destruct (is_high_surrogate c) eqn:Eh.
  - destruct s as [|d s].
    + rewrite scan_unicode by done. cbn. done.
    + destruct (is_low_surrogate d) eqn:El.
      * inversion Hs'; subst. cbn [app]. rewrite !Hsur by auto. rewrite Hgo by (simpl in Hn; auto; lia).
        rewrite <- !app_assoc. cbn [app length]. do 3 f_equal. lia.
      * rewrite <- app_assoc, scan_unicode, Hgo by (auto; lia). rewrite <- app_assoc, length_app.
        cbn [app length unicode_escape]. do 3 f_equal. unfold unicode_escape. simpl. lia.
  - destruct (is_low_surrogate c) eqn:El.
    + rewrite <- app_assoc, scan_unicode, Hgo by (auto; lia). rewrite <- app_assoc, length_app.
      cbn [app]. do 3 f_equal. unfold unicode_escape. simpl. lia.
    + rewrite <- app_assoc, scan_quote_unit, Hgo by (auto; lia). rewrite <- app_assoc, length_app.
      cbn [app]. do 3 f_equal. lia.
Qed.

Lemma next_quoted s :
  Forall (fun c => (c < 65536)%N) s ->
  let src := json_quote s in
  next src 0 0 = Ok (Lexeme (Kstring s) src 0 (length src), length src, 1%Z).
Proof.
  intros Hs. unfold next. cbn zeta. change (10000 <? 0 + 1)%Z with false. cbv iota.
  change (skip_ws (drop 0 (json_quote s)) 0) with 0.
  change (drop 0 (json_quote s)) with (34%N :: quote_units s ++ [34%N]).
  change (re_prefix number_re (34%N :: quote_units s ++ [34%N])) with (@None jsstr).
  change (N.eqb 34 34 || N.eqb 34 39) with true. cbv iota.
  rewrite (scan_quoted (length s)) by done. cbn [app].
  assert (Hl : S (length (quote_units s) + 1) = length (json_quote s)).
  { unfold json_quote. simpl. rewrite length_app. simpl. lia. }
  rewrite Hl, slice_full by done. done.
Qed.

Lemma next_end src cnt : (cnt < 10000)%Z ->
  next src (length src) cnt = Ok (Lexeme Kend [] (length src) (length src), length src, (cnt + 1)%Z).
Proof.
  intros Hc. unfold next. cbn zeta. destruct (Z.ltb_spec 10000 (cnt + 1)); [lia|].
  rewrite drop_all. cbn [skip_ws]. by rewrite drop_all.
Qed.

(** quoting round trip: for every string of UTF-16 code units whose quoted form
    is within the source length limit, the text [JSON.stringify] produces, with
    its escapes of quotes, control characters and lone surrogates, parses to the
    literal with exactly that string. *)
Theorem quoted_text_parses s :
  Forall (fun c => (c < 65536)%N) s -> (Z.of_nat (length (json_quote s)) <= 65536)%Z ->
  parse (json_quote s) = Ok (ELit (LStr s) false (Span 0 (length (json_quote s)))).
Proof.
  intros Hs Hl. unfold parse, new_parser. destruct (Z.ltb_spec 65536 (Z.of_nat (length (json_quote s)))); [lia|].
  change (re_exec version_re (json_quote s)) with (@None mstate). cbv iota.
  rewrite (next_quoted s Hs). unfold parse_fuel.
  replace (3 * length (json_quote s) + 10) with (S (S (3 * length (json_quote s) + 8))) by lia.
  set (src := json_quote s) in *. cbn [expression].
  unfold set_depth, take_token. cbn [pdepth cursor count current primary].
  change (128 <? 0 + 1)%Z with false. cbv iota. unfold take_token. cbn [cursor count current pdepth].
  rewrite (next_end src 1) by done. cbn [kind current lstart lend binary_loop text].
  change (precedence []) with (@None Z). cbv iota. done.
Qed.

Lemma quoted_text_parses_witness :
  parse (json_quote [97; 34; 92; 10; 1; 55357; 56832; 56320]%N) =
  Ok (ELit (LStr [97; 34; 92; 10; 1; 55357; 56832; 56320]%N) false (Span 0 23)).
Proof.
  apply (quoted_text_parses [97; 34; 92; 10; 1; 55357; 56832; 56320]%N).
  - repeat constructor.
  - vm_compute. discriminate.
Defined.
