(* ===== verification/ExprLexing.v ===== *)
(** * Reading written text

    The editors write expressions by joining words, quoted texts and printed numbers.
    Here: how such a text is cut into lexemes, piece by piece, so that the tree a written
    text parses to follows from the grammar of [ExprGrammar]. *)

From S2P Require Import Prelude JsString JsNumber JsIntSpec JsPrintSpec JsRegex JsValue ExprTypes ExprParser ExprParserSpec ExprSpelling ExprGrammar ExprQuoteSpec.

(** ** One lexeme at the start of a text *)

(** The lexeme a text starts with and its length, white space aside. *)
Definition lex_head (s : jsstr) : option (token * nat) :=
  match s with
  | [] => None
  | c :: r =>
      if is_ws c then None else
      match re_prefix number_re s with
      | Some t =>
          let x := number_of_string t in
          let i := integer_text t in
          if negb (is_finite x) || i && negb (is_safe_integer x) then None
          else Some (TNum x i, length t)
      | None =>
          if N.eqb c 34 || N.eqb c 39 then
            match scan_string c 0 r 1 [] with Ok (v, e) => Some (TStr v, e) | Err _ => None end
          else
            match re_prefix name_re s with
            | Some t => Some (TWord t, length t)
            | None => let! t := re_prefix operator_re s in Some (TWord t, length t)
            end
      end
  end.

(** A text as the lexemes it is cut into. *)
Inductive scans : jsstr -> list token -> Prop :=
| scans_end : scans [] []
| scans_space c s ts : is_ws c = true -> scans s ts -> scans (c :: s) ts
| scans_lexeme s t n ts : lex_head s = Some (t, n) -> scans (drop n s) ts -> scans s (t :: ts).

Lemma scan_string_moved q st st' r pos pos' v w e :
  scan_string q st r pos v = Ok (w, e) -> scan_string q st' r pos' v = Ok (w, pos' + (e - pos)).
Proof.
  intros H. pose proof (scan_string_bounds _ _ _ _ _ _ _ _ (le_n _) H) as Hb.
  rewrite <- (firstn_all r). eapply scan_string_local; [apply le_n|exact H|lia].
Qed.

(** ** The parser reads these lexemes *)
Section reading.
Variable source : jsstr.

Lemma drop_head c x s : drop c source = x :: s -> drop (S c) source = s /\ c < length source.
Proof.
  intros H. split.
  - replace (S c) with (c + 1) by lia. by rewrite <- drop_drop, H.
  - assert (Hl := f_equal length H). rewrite length_drop in Hl. simpl in Hl. lia.
Qed.

Lemma next_space c cnt x s : drop c source = x :: s -> is_ws x = true ->
  next source c cnt = next source (S c) cnt.
Proof.
  intros Hd Hx. destruct (drop_head _ _ _ Hd) as [Hs _]. unfold next. rewrite Hd, Hs.
  cbn [skip_ws]. by rewrite Hx.
Qed.

Lemma next_scanned c cnt t n : (cnt < 10000)%Z -> lex_head (drop c source) = Some (t, n) ->
  exists l, next source c cnt = Ok (l, c + n, (cnt + 1)%Z) /\ token_of l = Some t.
Proof.
  intros Hc H. unfold next. destruct (Z.ltb_spec 10000 (cnt + 1)); [lia|]. cbv zeta.
  unfold lex_head in H. destruct (drop c source) as [|x r] eqn:Hd; [done|].
  cbn [skip_ws]. destruct (is_ws x); [done|]. rewrite Hd.
  destruct (re_prefix number_re (x :: r)) as [w|].
  { cbv zeta in H. destruct (negb (is_finite _)); [done|]. cbn [orb] in H.
    destruct (_ && _)%bool; [done|]. injection H as <- <-. eexists. split; [done|]. done. }
  destruct (N.eqb x 34 || N.eqb x 39)%bool.
  { destruct (scan_string x 0 r 1 []) as [[v e]|] eqn:E; [|done]. injection H as <- <-.
    pose proof (scan_string_bounds _ _ _ _ _ _ _ _ (le_n _) E) as Hb.
    rewrite (scan_string_moved _ _ c _ _ (S c) _ _ _ E).
    replace (S c + (e - 1)) with (c + e) by lia. eexists. split; [done|]. done. }
  destruct (re_prefix name_re (x :: r)) as [w|]; [injection H as <- <-; eexists; split; [done|done]|].
  destruct (re_prefix operator_re (x :: r)) as [w|]; [|done]. injection H as <- <-. eexists. split; [done|done].
Qed.

Lemma lex_head_length s t n : lex_head s = Some (t, n) -> 0 < n <= length s.
Proof.
  unfold lex_head. destruct s as [|x r]; [done|]. destruct (is_ws x); [done|]. intros H.
  destruct (re_prefix number_re (x :: r)) as [w|] eqn:E.
  { cbv zeta in H. destruct (_ || _)%bool; [done|]. injection H as <- <-.
    split; [apply re_prefix_min_len in E; simpl in E; lia|by apply re_prefix_length in E]. }
  destruct (N.eqb x 34 || N.eqb x 39)%bool.
  { destruct (scan_string x 0 r 1 []) as [[v e]|] eqn:Es; [|done]. injection H as <- <-.
    apply (scan_string_bounds _ _ _ _ _ _ _ _ (le_n _)) in Es. simpl. lia. }
  destruct (re_prefix name_re (x :: r)) as [w|] eqn:En.
  { injection H as <- <-. split; [apply re_prefix_min_len in En; simpl in En; lia|by apply re_prefix_length in En]. }
  destruct (re_prefix operator_re (x :: r)) as [w|] eqn:Eo; [|done]. injection H as <- <-.
  split; [apply re_prefix_min_len in Eo; simpl in Eo; lia|by apply re_prefix_length in Eo].
Qed.

Lemma scans_ahead s ts : scans s ts -> forall c cnt, drop c source = s -> c <= length source ->
  (cnt + Z.of_nat (length ts) < 10000)%Z ->
  exists l c' placed_ts, next source c cnt = Ok (l, c', (cnt + 1)%Z) /\ map fst placed_ts = ts /\
    forall d, ahead source (PState c' (cnt + 1) d l) placed_ts.
Proof.
  induction 1 as [|x s ts Hx Hs IH|s t n ts Hl Hs IH]; intros c cnt Hd Hc Hcnt.
  - exists (Lexeme Kend [] c c), c, []. assert (Hn : next source c cnt = Ok (Lexeme Kend [] c c, c, (cnt + 1)%Z)).
    { unfold next. cbn [length] in Hcnt. destruct (Z.ltb_spec 10000 (cnt + 1)); [lia|]. rewrite Hd. cbn [skip_ws]. by rewrite Hd. }
    split; [done|]. split; [done|]. intros d. apply ahead_end; [|done]. exists c. split; [done|]. cbn. eauto.
  - destruct (drop_head _ _ _ Hd) as [Hd' Hlt]. rewrite (next_space c cnt x s Hd Hx).
    destruct (IH (S c) cnt Hd') as (l & c' & lts & Hn & Hm & Ha); [lia|done|]. by exists l, c', lts.
  - cbn [length] in Hcnt. rewrite <- Hd in Hl.
    destruct (next_scanned c cnt t n ltac:(lia) Hl) as (l & Hn & Ht).
    apply lex_head_length in Hl as [Hn0 Hlen]. rewrite length_drop in Hlen.
    destruct (IH (c + n) (cnt + 1)%Z) as (l2 & c2 & lts & Hn2 & Hm & Ha).
    { by rewrite <- drop_drop, Hd. }
    { lia. }
    { lia. }
    exists l, (c + n), ((t, place l) :: lts). split; [done|]. split; [cbn [map fst]; by rewrite Hm|]. intros d.
    eapply (ahead_more _ (PState (c + n) (cnt + 1) d l)); [|exact Ht| |apply (Ha d)].
    + exists c. split; [done|]. cbn. eauto.
    + unfold take_token. cbn [cursor count current pdepth]. by rewrite Hn2.
Qed.
End reading.

(** A written text parses to what its lexemes derive. *)
Lemma written_parses source ts e :
  (Z.of_nat (length source) <= 65536)%Z -> re_exec version_re source = None ->
  scans source ts -> (Z.of_nat (length ts) < 10000)%Z ->
  derives_expr 0 0 (map (fun t => (t, no_span)) ts) e [] ->
  exists e', parse source = Ok e' /\ strip e' = strip e.
Proof.
  intros Hlen Hv Hs Hts D.
  destruct (scans_ahead source source ts Hs 0 0%Z (drop_0 _)) as (l & c & lts & Hn & Hm & Ha); [lia|lia|].
  assert (Htok : source_tokens source lts).
  { exists (PState c 1 0 l). split; [|apply Ha]. unfold new_parser.
    destruct (Z.ltb_spec 65536 (Z.of_nat (length source))); [lia|]. by rewrite Hv, Hn. }
  destruct (proj1 derives_moved _ _ _ _ _ D lts) as (e' & [|] & D' & HS & M'); [|exists e'|done].
  { rewrite Hm, map_map. apply map_id. }
  split; [by eapply derives_parse|done].
Qed.

(** ** Greedy matching *)

(** The text [u] is empty or starts with a character of the class. *)
Definition opens (follow : N -> bool) (u : jsstr) : bool :=
  match u with [] => true | c :: _ => follow c end.

Lemma star_loop_S m ns k f st : star_loop m ns k (S f) st =
  match m (reset_caps ns st) (fun st' =>
    if Nat.ltb (length (rest st')) (length (rest st)) then star_loop m ns k f st' else None) with
  | Some x => Some x
  | None => k st
  end.
Proof. done. Qed.

Lemma rmatch_char p c s cs k :
  rmatch (RChar p) (MState (c :: s) cs) k = if p c then k (MState s cs) else None.
Proof. done. Qed.

Lemma rmatch_cat a b st k : rmatch (RCat a b) st k = rmatch a st (fun st' => rmatch b st' k).
Proof. done. Qed.
Lemma rmatch_alt a b st k :
  rmatch (RAlt a b) st k = match rmatch a st k with Some x => Some x | None => rmatch b st k end.
Proof. done. Qed.
Lemma rmatch_char_end p cs k : rmatch (RChar p) (MState [] cs) k = None.
Proof. done. Qed.

Lemma star_greedy p ds : forall u cs k y fuel, forallb p ds = true -> opens (fun c => negb (p c)) u = true ->
  k (MState u cs) = Some y -> length ds <= fuel ->
  star_loop (rmatch (RChar p)) [] k fuel (MState (ds ++ u) cs) = Some y.
Proof.
  assert (Hreset : forall s cs, reset_caps [] (MState s cs) = MState s cs).
  { intros s cs. unfold reset_caps. cbn [rest caps]. f_equal.
    induction cs as [|nc cs IH]; [done|]. rewrite filter_cons_True by done. by rewrite IH. }
  induction ds as [|d ds IH]; intros u cs k y fuel Hd Hu Hk Hf.
  - cbn [app]. destruct fuel as [|fuel]; [done|]. rewrite star_loop_S, Hreset. cbn [rmatch rest caps].
    destruct u as [|c u]; [done|]. cbn [opens] in Hu. apply negb_true_iff in Hu. by rewrite Hu.
  - cbn [length] in Hf. destruct fuel as [|fuel]; [lia|]. cbn [forallb] in Hd. apply andb_true_iff in Hd as [Hd Hds].
    rewrite star_loop_S, Hreset. cbn [app]. rewrite rmatch_char, Hd. cbn [rest].
    replace (Nat.ltb (length (ds ++ u)) (length (d :: ds ++ u))) with true
      by (symmetry; apply Nat.ltb_lt; simpl; lia).
    by rewrite (IH u cs k y fuel Hds Hu Hk ltac:(lia)).
Qed.

Lemma rmatch_star p ds u cs k y : forallb p ds = true -> opens (fun c => negb (p c)) u = true ->
  k (MState u cs) = Some y -> rmatch (RStar (RChar p)) (MState (ds ++ u) cs) k = Some y.
Proof. intros. cbn [rmatch groups rest]. apply star_greedy; [done..|]. rewrite length_app. lia. Qed.

Lemma rmatch_plus p d ds u cs k y : forallb p (d :: ds) = true -> opens (fun c => negb (p c)) u = true ->
  k (MState u cs) = Some y -> rmatch (RPlus (RChar p)) (MState ((d :: ds) ++ u) cs) k = Some y.
Proof.
  intros [Hd Hds]%andb_true_iff Hu Hk. unfold RPlus. cbn [rmatch rest caps app]. rewrite Hd.
  by apply rmatch_star.
Qed.

Lemma prefix_of_match r s u : re_exec r (s ++ u) = Some (MState u []) -> re_prefix r (s ++ u) = Some s.
Proof.
  intros H. unfold re_prefix. rewrite H. cbn [rest]. rewrite length_app.
  replace (length s + length u - length u) with (length s) by lia. by rewrite take_app_length.
Qed.

(** Names. *)
Definition name_char (c : N) : bool := is_alpha c || N.eqb c 95.

Lemma prefix_name c w u : name_char c = true -> forallb is_word w = true ->
  opens (fun c => negb (is_word c)) u = true -> re_prefix name_re ((c :: w) ++ u) = Some (c :: w).
Proof.
  intros Hc Hw Hu. apply prefix_of_match. unfold re_exec, name_re. cbn [rmatch rest caps app].
  unfold name_char in Hc. rewrite Hc. by apply (rmatch_star is_word w u).
Qed.

(** ** Printed numbers *)

(** A character that cannot continue a number. *)
Definition ends_number (c : N) : bool :=
  negb (is_digit c || N.eqb c 46 || existsb (N.eqb c) (js "eE")).

Lemma ends_digits u : opens ends_number u = true -> opens (fun c => negb (is_digit c)) u = true.
Proof.
  destruct u as [|c u]; [done|]. cbn [opens]. unfold ends_number. rewrite !negb_true_iff. intros H.
  by apply orb_false_iff in H as [[? _]%orb_false_iff _].
Qed.

(** The exponent, if there is one. *)
Definition exponent_re : re := RSeq [RSet "eE"; ROpt (RSet "+-"); RPlus rdigit].

Lemma match_exponent ex u : opens ends_number u = true ->
  rmatch (ROpt exponent_re)
    (MState (match ex with None => [] | Some e => 101%N :: exponent_text e end ++ u) []) Some = Some (MState u []).
Proof.
  intros Hu. unfold ROpt. rewrite rmatch_alt. destruct ex as [e|].
  - destruct (exponent_text_shape e) as (c & [|d ds] & -> & Hc & D & N & _); [done|]. cbn [app].
    change exponent_re with (RCat (RSet "eE") (RCat (ROpt (RSet "+-")) (RPlus rdigit))).
    unfold ROpt, RSet. rewrite !rmatch_cat, rmatch_char. change (existsb (N.eqb 101) (js "eE")) with true.
    cbv beta iota. rewrite rmatch_cat, rmatch_alt, rmatch_char.
    replace (existsb (N.eqb c) (js "+-")) with true by (subst c; by destruct (e <? 0)%Z).
    unfold rdigit. change (d :: ds ++ u) with ((d :: ds) ++ u). rewrite (rmatch_plus is_digit d ds u [] Some (MState u [])); [done|done|by apply ends_digits|done].
  - cbn [app]. destruct u as [|c u]; [done|].
    cbn [opens] in Hu. unfold ends_number in Hu. apply negb_true_iff, orb_false_iff in Hu as [_ He].
    change exponent_re with (RCat (RSet "eE") (RCat (ROpt (RSet "+-")) (RPlus rdigit))).
    unfold RSet. rewrite rmatch_cat, rmatch_char, He. done.
Qed.

Lemma exponent_ends ex u : opens ends_number u = true ->
  opens (fun c => negb (is_digit c || N.eqb c 46)) (match ex with None => [] | Some e => 101%N :: exponent_text e end ++ u) = true.
Proof.
  intros Hu. destruct ex; [done|]. cbn [app]. destruct u as [|c u]; [done|]. cbn [opens] in *.
  unfold ends_number in Hu. apply negb_true_iff, orb_false_iff in Hu as [Hu _]. by rewrite Hu.
Qed.

Lemma opens_weaken (f g : N -> bool) u : (forall c, f c = true -> g c = true) -> opens f u = true -> opens g u = true.
Proof. intros H. destruct u; [done|apply H]. Qed.

Lemma prefix_decimal ip fp ex u : decimal_shape ip fp -> opens ends_number u = true ->
  re_prefix number_re (decimal_text ip fp ex ++ u) = Some (decimal_text ip fp ex).
Proof.
  intros Hs Hu. apply prefix_of_match. destruct (shape_nonempty ip fp Hs) as (c & t & Hip & _).
  destruct Hs as [Di Df _]. unfold decimal_text, re_exec. rewrite <- !app_assoc.
  set (tail := match ex with None => [] | Some e => 101%N :: exponent_text e end ++ u).
  pose proof (exponent_ends ex u Hu) as Ht. fold tail in Ht.
  pose proof (match_exponent ex u Hu) as Hx. fold tail in Hx.
  change number_re with (RCat (RAlt (RCat (RPlus rdigit) (ROpt (RCat (RLit ".") (RStar rdigit))))
    (RSeq [RLit "."; RPlus rdigit])) (ROpt exponent_re)).
  rewrite rmatch_cat, rmatch_alt, rmatch_cat. rewrite Hip in Di |- *. unfold rdigit.
  assert (Hd : opens (fun c => negb (is_digit c)) tail = true).
  { eapply opens_weaken; [|exact Ht]. intros x Hx'%negb_true_iff%orb_false_iff. by rewrite (proj1 Hx'). }
  rewrite (rmatch_plus is_digit c t _ [] _ (MState u [])); [done|done| |].
  - destruct fp as [|d fp]; [exact Hd|done].
  - cbv beta. unfold ROpt at 1. rewrite rmatch_alt, rmatch_cat. destruct fp as [|d fp].
    + cbn [app]. destruct tail as [|x tail]; [exact Hx|].
      cbn [opens] in Ht. apply negb_true_iff, orb_false_iff in Ht as [_ Hp].
      change (RLit ".") with (RCat (RChar (N.eqb 46)) REps). rewrite rmatch_cat, rmatch_char.
      rewrite N.eqb_sym, Hp. exact Hx.
    + change (RLit ".") with (RCat (RChar (N.eqb 46)) REps).
      change ((46%N :: d :: fp) ++ tail) with (46%N :: (d :: fp) ++ tail).
      rewrite rmatch_cat, rmatch_char. change (N.eqb 46 46) with true. cbv beta iota.
      change (rmatch REps ?st ?k) with (k st). cbv beta.
      rewrite (rmatch_star is_digit (d :: fp) tail [] _ (MState u [])); done.
Qed.

(** ** Pieces of text *)

(** [piece s ts follow]: before a text that is empty or starts with a character of
    [follow], the text [s] is read as the lexemes [ts]. *)
Definition piece (s : jsstr) (ts : list token) (follow : N -> bool) : Prop :=
  forall u us, opens follow u = true -> scans u us -> scans (s ++ u) (ts ++ us).

Definition anything (_ : N) : bool := true.

Lemma piece_app a b ts us f g : piece a ts f -> piece b us g ->
  (forall u, opens g u = true -> opens f (b ++ u) = true) -> piece (a ++ b) (ts ++ us) g.
Proof. intros Ha Hb Hf u ws Hu Hs. rewrite <- !app_assoc. apply Ha; [by apply Hf|by apply Hb]. Qed.

Lemma piece_cons a c b ts us (f g : N -> bool) : piece a ts f -> piece (c :: b) us g -> f c = true ->
  piece (a ++ c :: b) (ts ++ us) g.
Proof. intros Ha Hb Hf. by apply (piece_app a (c :: b) ts us f g). Qed.

Lemma piece_scans s ts f : piece s ts f -> scans s ts.
Proof. intros H. rewrite <- (app_nil_r s), <- (app_nil_r ts). apply H; [done|constructor]. Qed.

Lemma piece_weaken s ts (f g : N -> bool) : (forall c, g c = true -> f c = true) -> piece s ts f -> piece s ts g.
Proof. intros Hfg Hp u us Hu. apply Hp. by eapply opens_weaken. Qed.

Lemma piece_lexeme s t f : (forall u, opens f u = true -> lex_head (s ++ u) = Some (t, length s)) ->
  piece s [t] f.
Proof. intros H u us Hu Hs. eapply scans_lexeme; [by apply H|]. by rewrite drop_app_length. Qed.

Lemma piece_space f : piece [32%N] [] f.
Proof. intros u us _ Hs. by apply scans_space. Qed.

(** Signs. *)
Lemma no_number x r : is_digit x = false -> N.eqb 46 x = false -> re_prefix number_re (x :: r) = None.
Proof.
  intros Hd Hp. destruct (re_prefix number_re (x :: r)) eqn:E; [|done].
  apply number_start in E as [E|E]; congruence.
Qed.

Lemma no_name x r : name_char x = false -> re_prefix name_re (x :: r) = None.
Proof. intros H. unfold re_prefix, re_exec, name_re. rewrite rmatch_cat, rmatch_char. unfold name_char in H. by rewrite H. Qed.

Definition sign_char (c : N) : bool :=
  negb (is_ws c || is_digit c || N.eqb 46 c || N.eqb c 34 || N.eqb c 39 || name_char c).

Lemma lex_sign x r w : sign_char x = true -> re_prefix operator_re (x :: r) = Some w ->
  lex_head (x :: r) = Some (TWord w, length w).
Proof.
  unfold sign_char. intros H Ho. apply negb_true_iff in H. rewrite !orb_false_iff in H.
  destruct H as (((((Hw & Hd) & Hp) & H34) & H39) & Hn).
  unfold lex_head. by rewrite (no_number x r), (no_name x r), Hw, H34, H39, Ho.
Qed.

Lemma piece_sign c : existsb (N.eqb c) (js "+-*/%()?:,") = true -> piece [c] [TWord [c]] anything.
Proof.
  intros Hc. apply piece_lexeme. intros u _. cbn [app length].
  assert (Hin : In c (js "+-*/%()?:,")) by (apply existsb_exists in Hc as (x & Hx & ->%N.eqb_eq); done).
  apply lex_sign; [|apply operator_single].
  - by repeat (destruct Hin as [<-|Hin]; [done|]).
  - intros s Hs. simpl in Hs.
    by repeat (destruct Hin as [<-|Hin]; [by repeat (destruct Hs as [<-|Hs]; [done|])|]).
  - by repeat (destruct Hin as [<-|Hin]; [done|]).
Qed.

(** Operators of two characters. *)
Lemma prefix_two a b x y r :
  re_prefix (RStr [a; b]) (x :: y :: r) = if N.eqb a x && N.eqb b y then Some [x; y] else None.
Proof.
  unfold re_prefix, re_exec. cbn [RStr]. rewrite rmatch_cat, rmatch_char. destruct (N.eqb a x); [|done].
  rewrite rmatch_cat, rmatch_char. destruct (N.eqb b y); [|done]. cbn [rmatch rest length andb].
  by replace (S (S (length r)) - length r) with 2 by lia.
Qed.

Lemma piece_pair op : In op ["&&"; "||"; "=="; "!="; "<="; ">="]%string -> piece (js op) [word op] anything.
Proof.
  intros Hop. apply piece_lexeme. intros u _.
  assert (H : exists a b, js op = [a; b] /\ sign_char a = true /\ re_prefix operator_re (a :: b :: u) = Some [a; b]).
  { unfold operator_re. cbn [ROr]. unfold RLit.
    change (js "&&") with [38; 38]%N. change (js "||") with [124; 124]%N. change (js "==") with [61; 61]%N.
    change (js "!=") with [33; 61]%N. change (js "<=") with [60; 61]%N. change (js ">=") with [62; 61]%N.
    repeat (destruct Hop as [<-|Hop]; [eexists _, _; split; [reflexivity|]; split; [done|];
      rewrite !re_prefix_alt, !prefix_two; done|]). done. }
  destruct H as (a & b & Hab & Ha & Ho). unfold word. rewrite Hab. cbn [app]. by apply (lex_sign a (b :: u) [a; b] Ha).
Qed.

Definition ends_name (c : N) : bool := negb (is_word c).

Lemma piece_name c w : name_char c = true -> forallb is_word w = true -> piece (c :: w) [TWord (c :: w)] ends_name.
Proof.
  intros Hc Hw. apply piece_lexeme. intros u Hu. cbn [app]. unfold lex_head.
  assert (Hx : is_ws c = false /\ is_digit c = false /\ N.eqb 46 c = false /\ N.eqb c 34 = false /\ N.eqb c 39 = false).
  { unfold name_char, is_alpha, is_upper, is_lower, in_range in Hc. unfold is_ws, is_digit, in_range.
    assert (65 <= c <= 122)%N. { apply orb_true_iff in Hc as [[Hc|Hc]%orb_true_iff|Hc]; bprop; subst; lia. }
    repeat split; repeat (apply orb_false_iff; split); try (apply andb_false_iff; rewrite !N.leb_gt; lia);
      try (apply N.eqb_neq; lia). }
  destruct Hx as (-> & Hd & Hp & -> & ->). rewrite no_number by done. cbn [orb].
  by rewrite (prefix_name c w u Hc Hw Hu : re_prefix name_re (c :: w ++ u) = _).
Qed.

(** Quoted texts. *)
Lemma piece_quoted s : Forall (fun c => (c < 65536)%N) s -> piece (json_quote s) [TStr s] anything.
Proof.
  intros Hs. apply piece_lexeme. intros u _. unfold json_quote.
  change ((34%N :: quote_units s ++ [34%N]) ++ u) with (34%N :: (quote_units s ++ [34%N]) ++ u).
  rewrite <- app_assoc. unfold lex_head. change (is_ws 34) with false. rewrite no_number by done.
  change (N.eqb 34 34 || N.eqb 34 39)%bool with true. cbn [app].
  rewrite (scan_quoted (length s)) by done. cbn [app length]. rewrite length_app. cbn [length].
  f_equal; f_equal; lia.
Qed.

(** Printed numbers the parser takes: integers it can hold exactly. *)
Definition writable (x : num) : bool :=
  valid_num x && is_finite x && negb (n_ltb x n_zero) && negb (is_neg_zero x)
  && (negb (integer_text (string_of_number x)) || is_safe_integer x).

Lemma printed_shape x : writable x = true -> exists ip fp ex,
  decimal_shape ip fp /\ string_of_number x = decimal_text ip fp ex.
Proof.
  unfold writable. intros H. bprop.
  destruct x as [[]|[]| |[] m e]; try done.
  - exists [48%N], [], None. split; [split; [done|done|by left]|done].
  - match goal with Hv : valid_num _ = true |- _ => destruct (string_of_finite false m e Hv) as (ip & fp & ex & Hs & Ht & _) end.
    by exists ip, fp, ex.
Qed.

Lemma piece_number x : writable x = true ->
  piece (string_of_number x) [TNum x (integer_text (string_of_number x))] ends_number.
Proof.
  intros Hw. destruct (printed_shape x Hw) as (ip & fp & ex & Hs & Ht).
  unfold writable in Hw. rewrite !andb_true_iff in Hw. destruct Hw as ((((Hv & Hf) & _) & Hz%negb_true_iff) & Hor).
  apply piece_lexeme. intros u Hu.
  pose proof (number_round_trip x Hv) as Hrt. rewrite Hz in Hrt.
  destruct (decimal_text_head ip fp ex Hs) as (c & t & Hct & Hc & _).
  rewrite Ht in *. pose proof (prefix_decimal ip fp ex u Hs Hu) as Hp. rewrite Hct in *. cbn [app] in *.
  unfold lex_head. assert (Hws : is_ws c = false).
  { unfold is_digit, in_range in Hc. bprop. unfold is_ws, in_range.
    repeat (apply orb_false_iff; split); try (apply andb_false_iff; rewrite !N.leb_gt; lia); try (apply N.eqb_neq; lia). }
  rewrite Hws, Hp. cbv zeta. rewrite Hrt, Hf. cbn [negb orb]. apply orb_true_iff in Hor as [Hor|Hor].
  - apply negb_true_iff in Hor. by rewrite Hor.
  - rewrite Hor. cbn [negb]. by rewrite andb_false_r.
Qed.

(** ** Texts from pieces *)
Lemma piece_nil f : piece [] [] f.
Proof. by intros u us _ Hs. Qed.

Lemma space_then s ts f : piece s ts f -> piece (32%N :: s) ts f.
Proof.
  intros H. apply (piece_app [32%N] s [] ts anything f); [apply piece_space|done|]. intros u _. by destruct (s ++ u).
Qed.

Lemma sign_then c s ts f : existsb (N.eqb c) (js "+-*/%()?:,") = true -> piece s ts f ->
  piece (c :: s) (TWord [c] :: ts) f.
Proof.
  intros Hc H. apply (piece_app [c] s [TWord [c]] ts anything f); [by apply piece_sign|done|].
  intros u _. by destruct (s ++ u).
Qed.

Lemma pair_then op s ts f : In op ["&&"; "||"; "=="; "!="; "<="; ">="]%string -> piece s ts f ->
  piece (js op ++ s) (word op :: ts) f.
Proof.
  intros Hop H. apply (piece_app (js op) s [word op] ts anything f); [by apply piece_pair|done|].
  intros u _. by destruct (s ++ u).
Qed.

Lemma quoted_then q s ts f : Forall (fun c => (c < 65536)%N) q -> piece s ts f ->
  piece (json_quote q ++ s) (TStr q :: ts) f.
Proof.
  intros Hq H. apply (piece_app (json_quote q) s [TStr q] ts anything f); [by apply piece_quoted|done|].
  intros u _. by destruct (s ++ u).
Qed.

Lemma name_then c w x s ts f : name_char c = true -> forallb is_word w = true -> ends_name x = true ->
  piece (x :: s) ts f -> piece ((c :: w) ++ x :: s) (TWord (c :: w) :: ts) f.
Proof. intros Hc Hw Hx H. by apply (piece_cons (c :: w) x s [TWord (c :: w)] ts ends_name f); [apply piece_name| |]. Qed.

Lemma number_then n x s ts f : writable n = true -> ends_number x = true -> piece (x :: s) ts f ->
  piece (string_of_number n ++ x :: s) (TNum n (integer_text (string_of_number n)) :: ts) f.
Proof. intros Hn Hx H. by eapply (piece_cons (string_of_number n) x s [_] ts ends_number f); [apply piece_number| |]. Qed.

(** Parts joined by a separator that starts with a space. *)
Lemma piece_join sep t (f : N -> bool) parts tss : f 32%N = true -> piece (32%N :: sep) [t] anything ->
  Forall2 (fun s ts => piece s ts f) parts tss ->
  piece (join (32%N :: sep) parts) (match tss with [] => [] | ts :: tss' => ts ++ flat_map (cons t) tss' end) f.
Proof.
  intros Hf Hsep H. destruct H as [|s ts parts tss Hs H]; [apply piece_nil|].
  revert s ts Hs. induction H as [|s2 ts2 parts tss Hs2 H IH]; intros s ts Hs.
  - cbn [join flat_map]. by rewrite app_nil_r.
  - change (join (32%N :: sep) (s :: s2 :: parts)) with (s ++ 32%N :: (sep ++ join (32%N :: sep) (s2 :: parts))).
    cbn [flat_map]. apply (piece_cons s 32%N _ ts _ f f); [done| |done].
    apply (piece_app (32%N :: sep) _ [t] _ anything f); [done|by apply IH|]. intros u _.
    by destruct (join _ _ ++ u).
Qed.
