(* ===== verification/ExprWriting.v ===== *)
(** * Writing trees

    How the expressions the editors write are derived in the grammar: operands,
    left-associative sequences of an operator, calls and conditionals, each with the
    nesting it needs.  Trees carry no places here; [ExprLexing.written_parses] gives the
    tree the parser builds. *)

From S2P Require Import Prelude JsString JsNumber JsRegex JsValue ExprTypes ExprParser ExprParserSpec ExprSpelling ExprGrammar.

Local Open Scope Z_scope.

Definition unplaced (ts : list token) : list placed := map (fun t => (t, no_span)) ts.

Lemma unplaced_app a b : unplaced (a ++ b) = unplaced a ++ unplaced b.
Proof. apply map_app. Qed.

(** What may follow an operand whose own operators bind at least as strongly as [q]. *)
Definition follows (q : Z) (rest : list placed) : Prop :=
  next_word rest <> Some (js "(") /\
  forall w r, next_word rest = Some w -> precedence w = Some r -> r <= q.

(** [operand h q ts e]: with room for [h] nested expressions, the lexemes [ts] are read as
    [e] at the start of an expression, and its operators go on from there. *)
Definition operand (h q : Z) (ts : list token) (e : expr) : Prop :=
  0 <= h /\ span_of e = no_span /\
  forall d rest, d + h <= 128 -> follows q rest ->
  forall min e2 rest2, min <= q -> derives_loop d min e rest e2 rest2 ->
  exists lhs ts1, derives_prim d (unplaced ts ++ rest) lhs ts1 /\ derives_loop d min lhs ts1 e2 rest2.

(** What ends an expression read at [min]. *)
Definition stops (min : Z) (rest : list placed) : Prop :=
  next_word rest <> Some (js "(") /\
  (forall w r, next_word rest = Some w -> precedence w = Some r -> r < min) /\
  (min = 0 -> next_word rest <> Some (js "?")).

Definition whole (h min : Z) (ts : list token) (e : expr) : Prop :=
  0 <= h /\ span_of e = no_span /\
  forall d rest, d + h <= 128 -> stops min rest -> derives_expr d min (unplaced ts ++ rest) e rest.

Lemma operand_whole h q min ts e : min <= q -> operand h q ts e -> whole (h + 1) min ts e.
Proof.
  intros Hq (Hh & Hs & H). split; [lia|]. split; [done|]. intros d rest Hd (H1 & H2 & H3).
  destruct (H (d + 1) rest ltac:(lia)) with (min := min) (e2 := e) (rest2 := rest) as (lhs & ts1 & D1 & D2).
  - split; [done|]. intros w r Hw Hr. specialize (H2 w r Hw Hr). lia.
  - lia.
  - by apply dl_done.
  - eapply de_plain; [lia|exact D1|exact D2|done].
Qed.

Lemma operand_mono h h' q ts e : h <= h' -> operand h q ts e -> operand h' q ts e.
Proof. intros Hh (H0 & Hs & H). split; [lia|]. split; [done|]. intros d rest Hd. apply H. lia. Qed.

Lemma whole_mono h h' min ts e : h <= h' -> whole h min ts e -> whole h' min ts e.
Proof. intros Hh (H0 & Hs & H). split; [lia|]. split; [done|]. intros d rest Hd. apply H. lia. Qed.

(** Literals. *)
Lemma operand_prim h q ts e : 0 <= h -> span_of e = no_span ->
  (forall d rest, d + h <= 128 -> next_word rest <> Some (js "(") -> derives_prim d (unplaced ts ++ rest) e rest) ->
  operand h q ts e.
Proof.
  intros Hh Hs H. split; [done|]. split; [done|]. intros d rest Hd [Hf _] min e2 rest2 _ D.
  exists e, rest. split; [by apply H|done].
Qed.

Lemma operand_number q x i : operand 0 q [TNum x i] (ELit (LNum x) i no_span).
Proof. apply operand_prim; [done|done|]. intros. apply dp_number. Qed.

Lemma operand_string q s : operand 0 q [TStr s] (ELit (LStr s) false no_span).
Proof. apply operand_prim; [done|done|]. intros. apply dp_string. Qed.

Lemma operand_variable q name : str_mem name BILLING_VARIABLES = true ->
  operand 0 q [TWord name] (EVar name no_span).
Proof. intros Hv. apply operand_prim; [done|done|]. intros. by apply dp_variable. Qed.

(** Calls of one and of two arguments. *)
Lemma stops_word min w sp rest : precedence w = None -> w <> js "(" -> w <> js "?" -> stops min ((TWord w, sp) :: rest).
Proof.
  intros Hp H1 H2. split; [cbn; congruence|]. split; [|cbn; congruence].
  intros w' r [= <-]. congruence.
Qed.

Lemma operand_call1 h q name ts e : assoc_get str_eqb name BILLING_FUNCTIONS = Some 1%nat -> whole h 0 ts e ->
  operand h q (TWord name :: word "(" :: ts ++ [word ")"]) (ECall name [e] no_span).
Proof.
  intros Hf (H0 & Hs & H). apply operand_prim; [done|done|]. intros d rest Hd _.
  cbn [unplaced map app]. fold (unplaced (ts ++ [word ")"])). rewrite unplaced_app, <- app_assoc.
  apply (dp_call d name no_span no_span _ [e] no_span); [done|]. apply da_last; [|done].
  apply H; [done|]. by apply stops_word.
Qed.

Lemma operand_call2 h q name ts1 e1 ts2 e2 : assoc_get str_eqb name BILLING_FUNCTIONS = Some 2%nat ->
  whole h 0 ts1 e1 -> whole h 0 ts2 e2 ->
  operand h q (TWord name :: word "(" :: ts1 ++ word "," :: ts2 ++ [word ")"]) (ECall name [e1; e2] no_span).
Proof.
  intros Hf (H0 & Hs & H1) (_ & _ & H2). apply operand_prim; [done|done|]. intros d rest Hd _.
  cbn [unplaced map app]. fold (unplaced (ts1 ++ word "," :: ts2 ++ [word ")"])).
  rewrite unplaced_app. cbn [unplaced map]. fold (unplaced (ts2 ++ [word ")"])). rewrite unplaced_app, <- !app_assoc.
  cbn [app]. rewrite <- app_assoc.
  apply (dp_call d name no_span no_span _ [e1; e2] no_span); [done|].
  eapply da_more; [apply H1; [done|by apply stops_word]|]. apply da_last; [|done].
  apply H2; [done|]. by apply stops_word.
Qed.

(** A binary operator: its left operand binds at least as strongly, its right one more. *)
Lemma operand_binary h op p q ta a tb b : precedence op = Some p -> p <= q -> op <> js "(" ->
  operand h q ta a -> whole h (p + 1) tb b ->
  operand h p (ta ++ TWord op :: tb) (EBinary op a b no_span).
Proof.
  intros Hp Hq Ho (H0 & Hsa & Ha) (_ & Hsb & Hb). split; [done|]. split; [done|].
  intros d rest Hd [Hf1 Hf2] min e2 rest2 Hm D. rewrite unplaced_app, <- app_assoc.
  cbn [unplaced map app]. fold (unplaced tb). apply Ha; [done| |lia|].
  - split; [cbn; congruence|]. intros w r [= <-] Hr. rewrite Hp in Hr. injection Hr as <-. done.
  - eapply dl_operator; [exact Hp|done| |].
    + apply Hb; [done|]. pose proof (precedence_bounds _ _ Hp). split; [done|]. split; [|lia].
      intros w r Hw Hr. specialize (Hf2 w r Hw Hr). lia.
    + rewrite Hsa, Hsb. exact D.
Qed.

(** A sequence of operands of one operator, as [join] writes it. *)
Definition join_tokens (op : jsstr) (tss : list (list token)) : list token :=
  match tss with [] => [] | ts :: tss' => ts ++ flat_map (cons (TWord op)) tss' end.

Definition join_nodes (op : jsstr) (first : expr) (others : list expr) : expr :=
  fold_left (fun e x => EBinary op e x no_span) others first.

Lemma operand_sequence h op p q tss es : forall ta a, precedence op = Some p -> p <= q -> op <> js "(" ->
  operand h q ta a -> Forall2 (whole h (p + 1)) tss es ->
  operand h (match es with [] => q | _ => p end) (join_tokens op (ta :: tss)) (join_nodes op a es).
Proof.
  intros ta a Hp Hq Ho Ha Hi. revert q ta a Hq Ha. cbn [join_tokens].
  induction Hi as [|tb b tss es Hb _ IH]; intros q ta a Hq Ha; cbn [flat_map join_nodes fold_left].
  - by rewrite app_nil_r.
  - assert (H : operand h p (ta ++ TWord op :: tb) (EBinary op a b no_span)) by (by eapply operand_binary).
    specialize (IH p _ _ (Z.le_refl p) H). rewrite <- app_assoc in IH. cbn [app] in IH |- *.
    by destruct es.
Qed.

(** A conditional. *)
Lemma whole_cond h q tc c ty y tn n : 0 <= q -> operand h q tc c -> whole h 0 ty y -> whole h 0 tn n ->
  whole (h + 1) 0 (tc ++ word "?" :: ty ++ word ":" :: tn) (ECond c y n no_span).
Proof.
  intros Hq (H0 & Hsc & Hc) (_ & _ & Hy) (_ & Hsn & Hn). split; [lia|]. split; [done|].
  intros d rest Hd Hstop. rewrite unplaced_app, <- app_assoc. cbn [unplaced map app].
  fold (unplaced (ty ++ word ":" :: tn)). rewrite unplaced_app, <- app_assoc. cbn [unplaced map app]. fold (unplaced tn).
  set (tail := unplaced ty ++ (word ":", no_span) :: unplaced tn ++ rest).
  destruct (Hc (d + 1) ((word "?", no_span) :: tail) ltac:(lia)) with (min := 0) (e2 := c) (rest2 := (word "?", no_span) :: tail)
    as (lhs & ts1 & D1 & D2).
  - split; [done|]. by intros w r [= <-].
  - done.
  - apply dl_done. by intros w r [= <-].
  - replace no_span with (hull (span_of c) (span_of n)) at 2 by (by rewrite Hsc, Hsn).
    eapply de_cond; [lia|exact D1|exact D2| |].
    + apply Hy; [lia|]. by apply stops_word.
    + apply Hn; [lia|done].
Qed.
