(* ===== verification/ExprCompile.v ===== *)
(** * Compilation

    Models the rest of [billing-expression/parser.ts]: the static type check,
    the collection of request rules, the fixed-price tree check,
    [compileBillingExpression] and its bounded cache. *)

From S2P Require Import Prelude JsString JsNumber JsRegex JsValue ExprTypes ExprParser.

(** ** Static types *)
Inductive ty : Type := Tnumber | Tstring | Tboolean | Tnil | Tdynamic.

Definition ty_eqb (a b : ty) : bool :=
  match a, b with
  | Tnumber, Tnumber | Tstring, Tstring | Tboolean, Tboolean
  | Tnil, Tnil | Tdynamic, Tdynamic => true
  | _, _ => false
  end.
Definition ty_name (t : ty) : jsstr :=
  match t with
  | Tnumber => js "number" | Tstring => js "string" | Tboolean => js "boolean"
  | Tnil => js "nil" | Tdynamic => js "dynamic"
  end.

(** [types: Map<ExpressionNode, ExpressionType>] *)
Definition types_map : Type := list (expr * ty).
Definition types_get (m : types_map) (e : expr) : option ty := assoc_get expr_eqb e m.
Definition types_set (m : types_map) (e : expr) (t : ty) : types_map :=
  assoc_set expr_eqb e t m.

Definition requireType (m : types_map) (child : option expr) (expected : ty)
  : result berr unit :=
  match child with
  | None => Err EngineError
  | Some c =>
      match types_get m c with
      | Some t =>
          if negb (ty_eqb t expected) && negb (ty_eqb t Tdynamic)
          then throw Dtype (ty_name expected ++ js " operand") (Some (estart c))
          else Ok tt
      | None => throw Dtype (ty_name expected ++ js " operand") (Some (estart c))
      end
  end.

Definition opt_ty_eqb (a b : option ty) : bool :=
  match a, b with
  | Some x, Some y => ty_eqb x y
  | None, None => true
  | _, _ => false
  end.

Fixpoint require_all (m : types_map) (args : list expr) (t : ty) : result berr unit :=
  match args with
  | [] => Ok tt
  | a :: l => let? _ := requireType m (Some a) t in require_all m l t
  end.

Definition call_type (m : types_map) (name : jsstr) (args : list expr) : result berr ty :=
  let? _ :=
    if str_mem name ([js "param"; js "header"; js "u"] ++ TIME_FUNCTIONS)
    then requireType m (args !! 0) Tstring else Ok tt in
  if str_eqb name (js "header") then Ok Tstring
  else if str_eqb name (js "has") then
    let? _ := requireType m (args !! 1) Tstring in Ok Tboolean
  else if str_eqb name (js "tier") then
    let? _ := requireType m (args !! 0) Tstring in
    let? _ := requireType m (args !! 1) Tnumber in
    Ok Tnumber
  else if is_time_function name then Ok Tnumber
  else if str_mem name [js "fixed"; js "min"; js "max"; js "abs"; js "ceil"; js "floor"] then
    let? _ := require_all m args Tnumber in Ok Tnumber
  else Ok Tdynamic.

(** The visitor of [checkExpressionTypes]. *)
Definition type_visitor (m : types_map) (node : expr) : result berr types_map :=
  let? t :=
    match node with
    | ELit LNull _ _ => Ok Tnil
    | ELit (LNum _) _ _ => Ok Tnumber
    | ELit (LStr _) _ _ => Ok Tstring
    | ELit (LBool _) _ _ => Ok Tboolean
    | EVar _ _ => Ok Tnumber
    | EUnary op operand _ =>
        let t := if str_eqb op (js "!") then Tboolean else Tnumber in
        let? _ := requireType m (Some operand) t in Ok t
    | ECond c y n _ =>
        let? _ := requireType m (Some c) Tboolean in
        if opt_ty_eqb (types_get m y) (types_get m n)
        then Ok (default Tdynamic (types_get m y)) else Ok Tdynamic
    | EBinary op l r _ =>
        if str_mem op [js "&&"; js "||"] then
          let? _ := requireType m (Some l) Tboolean in
          let? _ := requireType m (Some r) Tboolean in
          Ok Tboolean
        else if str_mem op [js "=="; js "!="; js "<"; js "<="; js ">"; js ">="] then Ok Tboolean
        else if str_eqb op (js "+") && opt_ty_eqb (types_get m l) (Some Tstring)
                && opt_ty_eqb (types_get m r) (Some Tstring) then Ok Tstring
        else
          let? _ := requireType m (Some l) Tnumber in
          let? _ := requireType m (Some r) Tnumber in
          Ok Tnumber
    | ECall name args _ => call_type m name args
    end in
  Ok (types_set m node t).

Definition checkExpressionTypes (ast : expr) : result berr unit :=
  let? _ := visitExpression ast type_visitor [] in Ok tt.

(** ** Request rules *)
Record request_rule := Rule {
  rule_node : expr;
  rule_condition : expr;
  rule_multiplier : num;
  rule_cond : jsstr;
}.

Definition containsPricingMarker (e : expr) : result berr bool :=
  let? (_, functions) := expressionDependencies e in
  Ok (str_mem (js "tier") functions || str_mem (js "fixed") functions).

Definition RULE_PROBES : list jsstr := [js "param"; js "header"] ++ TIME_FUNCTIONS.

(** The visitor that records conditional nodes of the form
    [probe-condition ? number : 1]. *)
Definition rule_visitor (source : jsstr) (rules : list request_rule) (node : expr)
  : result berr (list request_rule) :=
  match node with
  | ECond c (ELit (LNum y) _ _) (ELit (LNum n) _ _) _ =>
      if n_eqb n (n_of_Z 1) then
        let? (_, calls) := expressionDependencies c in
        if existsb (fun name => str_mem name RULE_PROBES) calls
        then Ok (rules ++ [Rule node c y (slice source (estart c) (eend c))])
        else Ok rules
      else Ok rules
  | _ => Ok rules
  end.

Definition find_rule (rules : list request_rule) (e : expr) : option request_rule :=
  List.find (fun r => expr_eqb (rule_node r) e) rules.

Definition fixed_error (e : expr) : berr :=
  BillingError (Diag Dtype
    (js "Use tier(name, fixed(amount)) with a finite, non-negative numeric literal; combine pricing branches only with conditions and request multipliers.")
    (Some (estart e))).

Definition MILLION : num := n_of_Z 1000000.

(** The leaf test: [tier(name, fixed(amount))] or a tier with no marker in it. *)
Definition fixed_price (price : expr) : result berr bool :=
  match price with
  | ECall name args _ =>
      if str_eqb name (js "fixed") then
        match args !! 0 with
        | None => Err EngineError
        | Some (ELit (LNum x) _ _) => Ok (n_geb x n_zero && is_finite (n_mul x MILLION))
        | Some _ => Ok false
        end
      else let? m := containsPricingMarker price in Ok (negb m)
  | _ => let? m := containsPricingMarker price in Ok (negb m)
  end.

Definition fixed_leaf (e : expr) : result berr bool :=
  match e with
  | ECall name args _ =>
      if str_eqb name (js "tier") then
        match args !! 0 with
        | None => Err EngineError
        | Some label =>
            let? m := containsPricingMarker label in
            if m : bool then Ok false
            else match args !! 1 with
                 | None => Err EngineError
                 | Some price => fixed_price price
                 end
        end
      else Ok false
  | _ => Ok false
  end.

(** Whether a factor of a product may be dropped: the image count, or a request
    rule with a non-negative multiplier whose condition prices nothing. *)
Definition is_image_count (e : expr) : bool :=
  match e with EVar name _ => str_eqb name (js "image_count") | _ => false end.

Definition neutral_factor (rules : list request_rule) (factor : expr) : result berr bool :=
  if is_image_count factor then Ok true
  else
    match find_rule rules factor with
    | Some r =>
        if n_geb (rule_multiplier r) n_zero then
          let? m := containsPricingMarker (rule_condition r) in Ok (negb m)
        else Ok false
    | None => Ok false
    end.

Fixpoint validateFixedPricingTree (e : expr) (rules : list request_rule) : result berr unit :=
  let leaf :=
    let? ok := fixed_leaf e in
    if ok : bool then Ok tt else Err (fixed_error e) in
  match e with
  | ECond c y n _ =>
      let? m := containsPricingMarker c in
      if m then leaf
      else
        let? _ := validateFixedPricingTree y rules in
        validateFixedPricingTree n rules
  | EBinary op l r _ =>
      if str_eqb op (js "*") then
        let? nr := neutral_factor rules r in
        if nr then validateFixedPricingTree l rules
        else
          let? nl := neutral_factor rules l in
          if nl then validateFixedPricingTree r rules else leaf
      else leaf
  | _ => leaf
  end.

(** ** Compilation *)
Record compiled := Compiled {
  c_source : jsstr;
  c_ast : expr;
  c_variables : list jsstr;
  c_functions : list jsstr;
  c_rules : list request_rule;
}.

Definition compile_expr (source : jsstr) : result berr compiled :=
  let? ast := parse source in
  let? _ := checkExpressionTypes ast in
  let? (variables, functions) := expressionDependencies ast in
  let? rules := visitExpression ast (rule_visitor source) [] in
  let? _ :=
    if str_mem (js "fixed") functions then validateFixedPricingTree ast rules else Ok tt in
  Ok (Compiled source ast variables functions rules).

(** [CompilationResult] *)
Inductive compilation : Type :=
| Ready (c : compiled)
| NotReady (f : expression_failure).

Section with_host.
Context `{Host}.

(** The result of the [try] block of [compileBillingExpression]. *)
Definition compile_source (source : jsstr) : compilation :=
  match compile_expr source with
  | Ok c => Ready c
  | Err x => NotReady (expressionFailure x)
  end.

(** [compiledCache], in insertion order. *)
Definition cache : Type := list (jsstr * compilation).

Definition cache_evict (c : cache) : cache :=
  match c with
  | _ :: c' => if (128 <=? Z.of_nat (length c))%Z then c' else c
  | [] => c
  end.

Definition compile_cached (c : cache) (source : jsstr) : compilation * cache :=
  match assoc_get str_eqb source c with
  | Some r => (r, c)
  | None =>
      let r := compile_source source in
      (r, assoc_set str_eqb source r (cache_evict c))
  end.
End with_host.
