(* ===== verification/ExprCompileSpec.v ===== *)
(** * Correctness of compilation

    The static check decides a declarative type system, the request rules are
    exactly the conditional nodes of the documented shape, and the bounded cache
    is transparent. *)

From S2P Require Import Prelude JsString JsNumber JsRegex JsValue ExprTypes ExprParser ExprParserSpec ExprCompile.

(** ** The type system *)

(** A child of type [t] is accepted where [expected] is required. *)
Definition accepts (t expected : ty) : bool := ty_eqb t expected || ty_eqb t Tdynamic.

Definition all_accept (ts : list ty) (expected : ty) : bool :=
  forallb (fun t => accepts t expected) ts.

Definition arg_accepts (ts : list ty) (i : nat) (expected : ty) : bool :=
  match ts !! i with Some t => accepts t expected | None => false end.

Definition call_ty (name : jsstr) (ts : list ty) : option ty :=
  if str_mem name ([js "param"; js "header"; js "u"] ++ TIME_FUNCTIONS)
     && negb (arg_accepts ts 0 Tstring) then None
  else if str_eqb name (js "header") then Some Tstring
  else if str_eqb name (js "has") then
    if arg_accepts ts 1 Tstring then Some Tboolean else None
  else if str_eqb name (js "tier") then
    if arg_accepts ts 0 Tstring && arg_accepts ts 1 Tnumber then Some Tnumber else None
  else if is_time_function name then Some Tnumber
  else if str_mem name [js "fixed"; js "min"; js "max"; js "abs"; js "ceil"; js "floor"] then
    if all_accept ts Tnumber then Some Tnumber else None
  else Some Tdynamic.

(** The type of a node whose children have the types [ts]. *)
Definition node_ty (e : expr) (ts : list ty) : option ty :=
  match e, ts with
  | ELit LNull _ _, _ => Some Tnil
  | ELit (LNum _) _ _, _ => Some Tnumber
  | ELit (LStr _) _ _, _ => Some Tstring
  | ELit (LBool _) _ _, _ => Some Tboolean
  | EVar _ _, _ => Some Tnumber
  | EUnary op _ _, [t] =>
      let want := if str_eqb op (js "!") then Tboolean else Tnumber in
      if accepts t want then Some want else None
  | ECond _ _ _ _, [tc; ty_; tn] =>
      if accepts tc Tboolean
      then Some (if ty_eqb ty_ tn then ty_ else Tdynamic) else None
  | EBinary op _ _ _, [tl; tr] =>
      if str_mem op [js "&&"; js "||"] then
        if accepts tl Tboolean && accepts tr Tboolean then Some Tboolean else None
      else if str_mem op [js "=="; js "!="; js "<"; js "<="; js ">"; js ">="]
      then Some Tboolean
      else if str_eqb op (js "+") && ty_eqb tl Tstring && ty_eqb tr Tstring
      then Some Tstring
      else if accepts tl Tnumber && accepts tr Tnumber then Some Tnumber else None
  | ECall name _ _, _ => call_ty name ts
  | _, _ => None
  end.

Inductive has_type : expr -> ty -> Prop :=
| has_type_node e ts t :
    Forall2 has_type (children e) ts -> node_ty e ts = Some t -> has_type e t.

Lemma ty_eqb_eq a b : ty_eqb a b = true <-> a = b.
Proof. destruct a, b; simpl; split; congruence. Qed.

Lemma ty_eqb_refl a : ty_eqb a a = true.
Proof. by apply ty_eqb_eq. Qed.

Lemma has_type_det e t1 t2 : has_type e t1 -> has_type e t2 -> t1 = t2.
Proof.
  revert t1 t2. induction e as [e IH] using expr_rect_children. intros t1 t2 H1 H2.
  inversion H1 as [? ts1 ? F1 N1]; subst. inversion H2 as [? ts2 ? F2 N2]; subst.
  enough (ts1 = ts2) by congruence.
  clear N1 N2 H1 H2. revert ts1 ts2 F1 F2.
  induction (children e) as [|x cs IHc]; intros ts1 ts2 F1 F2; inversion F1; inversion F2;
    subst; [done|]. f_equal.
  - eapply IH; [by left|done|done].
  - eapply IHc; [|done|done]. intros; eapply IH; [by right|done|done].
Qed.

(** ** The visitor computes the type system *)

(** [types_get] for a child agrees with the type system. *)
Definition types_sound (m : types_map) : Prop :=
  forall n t, types_get m n = Some t -> has_type n t.

Lemma types_get_set_eq m e t : types_get (types_set m e t) e = Some t.
Proof. apply assoc_get_set_eq, expr_eqb_eq. Qed.
Lemma types_get_set_ne m e n t :
  n <> e -> types_get (types_set m e t) n = types_get m n.
Proof. apply assoc_get_set_ne, expr_eqb_eq. Qed.

Lemma requireType_spec m x t expected :
  types_get m x = Some t ->
  requireType m (Some x) expected =
  if accepts t expected then Ok tt
  else throw Dtype (ty_name expected ++ js " operand") (Some (estart x)).
Proof.
  intros H. unfold requireType, accepts. rewrite H.
  by destruct (ty_eqb t expected), (ty_eqb t Tdynamic).
Qed.

Definition lookups (m : types_map) (cs : list expr) (ts : list ty) : Prop :=
  Forall2 (fun x t => types_get m x = Some t) cs ts.

Lemma require_all_spec m cs ts expected :
  lookups m cs ts -> is_ok (require_all m cs expected) = all_accept ts expected.
Proof.
  induction 1 as [|x t cs ts Hx _ IH]; [done|]. cbn [require_all all_accept forallb].
  rewrite (requireType_spec _ _ _ _ Hx). destruct (accepts t expected); [|done].
  fold (all_accept ts expected). by rewrite <- IH.
Qed.

Lemma requireType_arg m cs ts i expected :
  lookups m cs ts -> is_ok (requireType m (cs !! i) expected) = arg_accepts ts i expected.
Proof.
  intros H. revert i. induction H as [|x t cs ts Hx _ IH]; intros [|i]; try done.
  - cbn [lookup list_lookup]. rewrite (requireType_spec _ _ _ _ Hx). unfold arg_accepts. simpl.
    by destruct (accepts t expected).
  - apply IH.
Qed.

Ltac is_ok_cases :=
  repeat match goal with
  | H : is_ok ?x = _ |- context [?x] => destruct x eqn:?; simpl in H
  end.

Lemma call_type_spec m name cs ts :
  lookups m cs ts ->
  ok_option (call_type m name cs) = call_ty name ts.
Proof.
  intros H. unfold call_type, call_ty.
  pose proof (fun i t => requireType_arg m cs ts i t H) as Ha.
  pose proof (require_all_spec m cs ts Tnumber H) as Hall.
  rewrite <- !Ha, <- Hall.
  destruct (str_mem name _); simpl.
  - destruct (requireType m (cs !! 0) Tstring); simpl; [|done].
    repeat (destruct (str_eqb name _); [try done; repeat destr_match_goal; done|]).
    repeat destr_match_goal; done.
  - repeat (destruct (str_eqb name _);
      [try done; repeat destr_match_goal; simpl in *; congruence|]).
    repeat destr_match_goal; simpl in *; congruence.
Qed.

Lemma type_visitor_spec m e ts :
  lookups m (children e) ts ->
  ok_option (type_visitor m e) = option_map (types_set m e) (node_ty e ts).
Proof.
  intros Hl. unfold type_visitor, node_ty.
  destruct e as [v i sp|name sp|name args sp|op x sp|op l r sp|c y n sp]; cbn [children] in Hl.
  - by destruct v.
  - done.
  - rewrite <- (call_type_spec m name args ts Hl). by destruct (call_type m name args).
  - inversion Hl as [|? t ? ? Hx Hnil]; subst. inversion Hnil; subst.
    rewrite (requireType_spec _ _ _ _ Hx). by destruct (accepts t _).
  - inversion Hl as [|? tl ? ? Hx H1]; subst. inversion H1 as [|? tr ? ? Hy Hnil]; subst.
    inversion Hnil; subst. rewrite !(requireType_spec _ _ _ _ Hx), !(requireType_spec _ _ _ _ Hy).
    rewrite Hx, Hy. cbn [opt_ty_eqb].
    repeat (match goal with |- context [if ?b then _ else _] => destruct b eqn:? end; simpl; try done).
  - inversion Hl as [|? tc ? ? Hc H1]; subst. inversion H1 as [|? ty_ ? ? Hy H2]; subst.
    inversion H2 as [|? tn ? ? Hn Hnil]; subst. inversion Hnil; subst.
    rewrite (requireType_spec _ _ _ _ Hc), Hy, Hn. cbn [opt_ty_eqb].
    destruct (accepts tc Tboolean); [|done]. by destruct (ty_eqb ty_ tn).
Qed.

(** [m'] knows at least what [m] knows. *)
Definition types_le (m m' : types_map) : Prop :=
  forall n t, types_get m n = Some t -> types_get m' n = Some t.

Lemma types_set_sound m e t :
  types_sound m -> has_type e t -> types_sound (types_set m e t) /\ types_le m (types_set m e t).
Proof.
  intros Hs Ht.
  assert (Hc : forall n, types_get (types_set m e t) n =
    if expr_eqb n e then Some t else types_get m n).
  { intros n. destruct (expr_eqb n e) eqn:E.
    - apply expr_eqb_eq in E as ->. apply types_get_set_eq.
    - apply types_get_set_ne. intros ->. by rewrite expr_eqb_refl in E. }
  split; intros n u; rewrite Hc; destruct (expr_eqb n e) eqn:E; auto.
  - apply expr_eqb_eq in E as ->. by intros [= <-].
  - apply expr_eqb_eq in E as ->. intros Hg. f_equal. eapply has_type_det; [done|]. by apply Hs.
Qed.

Definition visit_outcome (e : expr) (m : types_map) (r : result berr types_map) : Prop :=
  match r with
  | Ok m' => types_sound m' /\ types_le m m' /\ exists t, types_get m' e = Some t
  | Err _ => ~ exists t, has_type e t
  end.

Lemma visit_children_outcome cs :
  (forall x, In x cs -> forall m, types_sound m ->
     visit_outcome x m (foldM type_visitor (postorder x) m)) ->
  forall m, types_sound m ->
  match foldM type_visitor (flat_map postorder cs) m with
  | Ok m' => types_sound m' /\ types_le m m' /\ exists ts, lookups m' cs ts
  | Err _ => ~ exists ts, Forall2 has_type cs ts
  end.
Proof.
  induction cs as [|x cs IH]; intros Hx m Hm; simpl.
  { split; [done|]. split; [by intros ??|]. exists []. constructor. }
  rewrite foldM_app. pose proof (Hx x (or_introl eq_refl) m Hm) as Ho.
  destruct (foldM type_visitor (postorder x) m) as [m1|]; simpl in Ho.
  - destruct Ho as (Hs1 & Hle1 & t & Ht).
    specialize (IH (fun y Hy => Hx y (or_intror Hy)) m1 Hs1).
    destruct (foldM type_visitor _ m1) as [m2|].
    + destruct IH as (Hs2 & Hle2 & ts & Hts). split; [done|].
      split; [intros n u Hn; by apply Hle2, Hle1|]. exists (t :: ts). constructor; auto.
    + intros (ts & Hts). inversion Hts; subst. eauto.
  - intros (ts & Hts). inversion Hts; subst. eauto.
Qed.

Lemma lookups_typed m cs ts : types_sound m -> lookups m cs ts -> Forall2 has_type cs ts.
Proof. intros Hs. apply Forall2_impl. auto. Qed.

Lemma has_type_children e ts t :
  Forall2 has_type (children e) ts -> has_type e t -> node_ty e ts = Some t.
Proof.
  intros Hts He. inversion He as [? ts' ? F N]; subst.
  enough (ts = ts') as -> by done. clear N He. revert ts' F.
  induction Hts as [|x u cs ts Hx _ IH]; intros ts' F; inversion F; subst; [done|].
  f_equal; [by eapply has_type_det|auto].
Qed.

Lemma type_visitor_outcome e : forall m, types_sound m ->
  visit_outcome e m (foldM type_visitor (postorder e) m).
Proof.
  induction e as [e IH] using expr_rect_children. intros m Hm.
  rewrite postorder_children, foldM_app.
  pose proof (visit_children_outcome (children e) IH m Hm) as Hc.
  destruct (foldM type_visitor (flat_map postorder (children e)) m) as [m1|].
  - destruct Hc as (Hs1 & Hle1 & ts & Hts). pose proof (type_visitor_spec m1 e ts Hts) as Hv.
    apply (lookups_typed _ _ _ Hs1) in Hts as Htyped. cbn [foldM].
    destruct (type_visitor m1 e) as [m2|]; simpl in Hv |- *.
    + destruct (node_ty e ts) as [t|] eqn:En; [|done]. simpl in Hv. injection Hv as ->.
      destruct (types_set_sound m1 e t Hs1) as [Hs2 Hle2]; [by econstructor|].
      split; [done|]. split; [intros n u Hn; by apply Hle2, Hle1|].
      exists t. apply types_get_set_eq.
    + intros (t & Ht). rewrite (has_type_children e ts t Htyped Ht) in Hv. done.
  - intros (t & Ht). inversion Ht; subst. eauto.
Qed.

Lemma checkExpressionTypes_iff e :
  is_ok (checkExpressionTypes e) = true <->
  (height e <= 256)%Z /\ exists t, has_type e t.
Proof.
  unfold checkExpressionTypes. pose proof (@visitExpression_ref types_map) as Hr.
  rewrite Hr. destruct (Z.leb_spec (height e) 256) as [Hh|Hh].
  - rewrite visit_ref_shallow by lia.
    pose proof (type_visitor_outcome e [] ltac:(done)) as Ho.
    destruct (foldM type_visitor (postorder e) []) as [m|]; simpl in *.
    + destruct Ho as (Hs & _ & t & Ht). split; [|done]. intros _. split; [done|]. eauto.
    + split; [done|]. intros [_ Ht]. done.
  - pose proof (visit_ref_deep type_visitor e 0 [] ltac:(lia)) as Hd.
    destruct (visit_ref _ _ _ _); simpl in *; [done|]. split; [done|]. lia.
Qed.

(** C7: [checkExpressionTypes], a single pass that stores a type per node,
    decides the type system: it accepts a tree exactly when no node is deeper
    than 256 and the tree has a type. *)
Theorem checkExpressionTypes_decides e :
  is_ok (checkExpressionTypes e) = true <->
  (height e <= 256)%Z /\ exists t, has_type e t.
Proof. apply checkExpressionTypes_iff. Qed.

(** ** Only own diagnostics are thrown *)

Lemma visit_ref_own {S} (visitor : S -> expr -> result berr S) e :
  (forall n s, In n (postorder e) -> own (visitor s n)) ->
  forall d s, own (visit_ref visitor d s e).
Proof.
  induction e as [e IH] using expr_rect_children. intros Hv d s.
  rewrite visit_ref_unfold. destruct (256 <? d)%Z; [done|].
  rewrite postorder_children in Hv. apply own_bind.
  - assert (Hc : forall x, In x (children e) -> forall d s, own (visit_ref visitor d s x)).
    { intros x Hx. apply IH; [done|]. intros n s' Hn. apply Hv, in_app_iff. left.
      apply in_flat_map. eauto. }
    clear IH Hv. revert s. induction (children e) as [|x cs IHc]; intros s; simpl; [done|].
    apply own_bind; [apply Hc; by left|]. intros a _. apply IHc.
    intros y Hy. apply Hc. by right.
  - intros a _. apply Hv, in_app_iff. right. by left.
Qed.

Lemma deps_own e : own (expressionDependencies e).
Proof.
  unfold expressionDependencies. rewrite visitExpression_ref.
  apply visit_ref_own. by intros [].
Qed.

Lemma marker_own e : own (containsPricingMarker e).
Proof. apply own_bind; [apply deps_own|by intros [? ?]]. Qed.

Lemma requireType_own m x t : own (requireType m (Some x) t).
Proof. unfold requireType. by repeat destr_match_goal. Qed.

Lemma require_all_own m l t : own (require_all m l t).
Proof.
  induction l; [done|]. cbn [require_all].
  apply own_bind; [apply requireType_own|auto].
Qed.

(** A declared call has all the arguments its type rule reads. *)
Lemma call_arity name args sp :
  node_wf (ECall name args sp) ->
  (exists a rest, args = a :: rest) /\
  (str_mem name [js "has"; js "tier"; js "min"; js "max"] = true ->
   exists a b rest, args = a :: b :: rest).
Proof.
  cbn [node_wf]. destruct args as [|a [|b rest]]; cbn [length]; intros Hw.
  - exfalso. revert Hw. unfold BILLING_FUNCTIONS. cbn [map assoc_get].
    repeat (destruct (str_eqb name _); [done|]). done.
  - split; [eauto|]. intros Hm. exfalso. apply str_mem_In in Hm.
    destruct Hm as [<-|[<-|[<-|[<-|[]]]]]; done.
  - eauto 10.
Qed.

Lemma call_type_own m name args sp :
  node_wf (ECall name args sp) -> own (call_type m name args).
Proof.
  intros Hw. destruct (call_arity _ _ _ Hw) as [(a & rest & ->) H2].
  unfold call_type. apply own_bind.
  { destruct (str_mem name (_ ++ _)); [apply requireType_own|done]. }
  intros [] _. destruct (str_eqb name (js "header")); [done|].
  destruct (str_eqb name (js "has")) eqn:Eh.
  { destruct H2 as (a' & b & r & [= -> ->]); [cbn [str_mem existsb]; by rewrite Eh|].
    apply own_bind; [apply requireType_own|done]. }
  destruct (str_eqb name (js "tier")) eqn:Et.
  { destruct H2 as (a' & b & r & [= -> ->]); [cbn [str_mem existsb]; by rewrite Eh, Et|].
    apply own_bind; [apply requireType_own|]. intros _ _.
    apply own_bind; [apply requireType_own|done]. }
  destruct (is_time_function name); [done|]. destruct (str_mem name [js "fixed"; _; _; _; _; _]); [|done].
  apply own_bind; [apply require_all_own|done].
Qed.

Lemma type_visitor_own m e : node_wf e -> own (type_visitor m e).
Proof.
  intros Hw. unfold type_visitor. apply own_bind; [|done].
  destruct e as [[] i sp|name sp|name args sp|op x sp|op l r sp|c y n sp]; try done.
  - by eapply call_type_own.
  - apply own_bind; [apply requireType_own|done].
  - repeat first [done | apply requireType_own | apply own_bind; [|intros ? _]
      | match goal with |- own (if ?b then _ else _) => destruct b end ].
  - apply own_bind; [apply requireType_own|]. intros _ _. by destruct (opt_ty_eqb _ _).
Qed.

Lemma check_own e : Forall node_wf (postorder e) -> own (checkExpressionTypes e).
Proof.
  intros Hw. unfold checkExpressionTypes. rewrite visitExpression_ref.
  apply own_bind; [|done]. apply visit_ref_own. intros n s Hn.
  apply type_visitor_own. by eapply List.Forall_forall in Hn.
Qed.

(** ** Request rules *)

Definition is_probe_call (e : expr) : bool :=
  match e with ECall name _ _ => str_mem name RULE_PROBES | _ => false end.

(** The rule a node contributes: [condition ? multiplier : 1] where the condition
    reads the request or the time. *)
Definition rule_of (source : jsstr) (e : expr) : option request_rule :=
  match e with
  | ECond c (ELit (LNum y) _ _) (ELit (LNum n) _ _) _ =>
      if n_eqb n (n_of_Z 1) && existsb is_probe_call (postorder c)
      then Some (Rule e c y (slice source (estart c) (eend c))) else None
  | _ => None
  end.

Lemma height_postorder e n : In n (postorder e) -> (height n <= height e)%Z.
Proof.
  revert n. induction e as [e IH] using expr_rect_children. intros n.
  rewrite postorder_children, in_app_iff, in_flat_map. intros [(x & Hx & Hn)|[<-|[]]]; [|lia].
  specialize (IH x Hx n Hn). apply max_height_le in Hx. rewrite (height_children e). lia.
Qed.

Lemma deps_probe e :
  (height e <= 256)%Z ->
  exists d, expressionDependencies e = Ok d /\
    existsb (fun name => str_mem name RULE_PROBES) d.2 = existsb is_probe_call (postorder e).
Proof.
  intros Hh. pose proof (expressionDependencies_shallow e Hh) as (vs & fs & He & _ & Hf).
  exists (vs, fs). split; [done|]. apply eq_true_iff_eq. rewrite !existsb_exists. simpl.
  split.
  - intros (f & Hin & Hm). apply Hf in Hin as (n & Hn & Hc). exists n. split; [done|].
    destruct n; try done. simpl in *. by subst.
  - intros (n & Hn & Hc). destruct n as [| |name args sp| | |]; try done. exists name.
    split; [|done]. apply Hf. by exists (ECall name args sp).
Qed.

Lemma rule_visitor_spec source rules e :
  (height e <= 256)%Z ->
  rule_visitor source rules e =
  Ok (rules ++ match rule_of source e with Some r => [r] | None => [] end).
Proof.
  intros Hh. unfold rule_visitor, rule_of.
  destruct e as [| | | | |c y n sp]; rewrite ?app_nil_r; try done.
  destruct y as [[y| | |] iy spy| | | | |], n as [[n| | |] inn spn| | | | |];
    rewrite ?app_nil_r; try done.
  destruct (n_eqb n _); simpl; rewrite ?app_nil_r; [|done].
  destruct (deps_probe c) as ([vs fs] & -> & Hd); [cbn [height] in Hh; lia|]. simpl in Hd. rewrite Hd.
  destruct (existsb is_probe_call _); rewrite ?app_nil_r; done.
Qed.

Lemma rule_fold source l : forall rules,
  (forall n, In n l -> (height n <= 256)%Z) ->
  foldM (rule_visitor source) l rules = Ok (rules ++ omap (rule_of source) l).
Proof.
  induction l as [|e l IH]; intros rules Hl; cbn [foldM omap list_omap].
  { by rewrite app_nil_r. }
  rewrite rule_visitor_spec by (apply Hl; by left). rewrite IH by (intros; apply Hl; by right).
  rewrite <- app_assoc. by destruct (rule_of source e).
Qed.

Lemma rules_exact source e :
  (height e <= 256)%Z ->
  visitExpression e (rule_visitor source) [] = Ok (omap (rule_of source) (postorder e)).
Proof.
  intros Hh. rewrite visitExpression_ref, visit_ref_shallow, rule_fold; [done| |lia].
  intros n Hn. apply height_postorder in Hn. lia.
Qed.

(** ** The fixed-price check *)

Lemma fixed_leaf_own e : Forall node_wf (postorder e) -> own (fixed_leaf e).
Proof.
  intros Hw. destruct e as [| |name args sp| | |]; try done. unfold fixed_leaf.
  destruct (str_eqb name (js "tier")) eqn:Et; [|done].
  assert (Hn : node_wf (ECall name args sp)).
  { eapply List.Forall_forall in Hw; [done|]. rewrite postorder_children.
    apply in_app_iff. right. by left. }
  destruct (call_arity _ _ _ Hn) as [_ H2].
  destruct H2 as (a & b & rest & ->); [cbn [str_mem existsb]; by rewrite Et, orb_true_r|].
  cbn [lookup list_lookup]. apply own_bind; [apply marker_own|].
  intros [] _; [done|]. unfold fixed_price.
  assert (Hm : own (let? m := containsPricingMarker b in Ok (negb m))).
  { apply own_bind; [apply marker_own|done]. }
  destruct b as [| |fname fargs fsp| | |]; try exact Hm.
  destruct (str_eqb fname (js "fixed")); [|exact Hm].
  assert (Hb : node_wf (ECall fname fargs fsp)).
  { eapply List.Forall_forall in Hw; [done|]. rewrite postorder_children, in_app_iff, in_flat_map.
    left. exists (ECall fname fargs fsp). split; [right; by left|].
    rewrite postorder_children, in_app_iff. right. by left. }
  destruct (call_arity _ _ _ Hb) as [(x & xs & ->) _]. cbn [lookup list_lookup].
  by repeat destr_match_goal.
Qed.

Lemma neutral_factor_own rules e : own (neutral_factor rules e).
Proof.
  unfold neutral_factor. destruct (is_image_count e); [done|].
  destruct (find_rule rules e); [|done]. destruct (n_geb _ _); [|done].
  apply own_bind; [apply marker_own|done].
Qed.

Lemma validate_own rules e :
  Forall node_wf (postorder e) -> own (validateFixedPricingTree e rules).
Proof.
  induction e as [e IH] using expr_rect_children. intros Hw.
  assert (Hc : forall x, In x (children e) -> own (validateFixedPricingTree x rules)).
  { intros x Hx. apply IH; [done|]. rewrite postorder_children in Hw.
    apply Forall_app in Hw as [Hw _]. rewrite List.Forall_forall in Hw |- *.
    intros n Hn. apply Hw, in_flat_map. eauto. }
  assert (Hl : own (let? ok := fixed_leaf e in
    if ok : bool then Ok tt else Err (fixed_error e))).
  { apply own_bind; [by apply fixed_leaf_own|]. by intros [] _. }
  destruct e as [| | | |op l r sp|c y n sp]; try exact Hl; cbn [children] in Hc.
  - cbn [validateFixedPricingTree]. destruct (str_eqb op _); [|exact Hl].
    apply own_bind; [apply neutral_factor_own|]. intros [] _; [apply Hc; by left|].
    apply own_bind; [apply neutral_factor_own|].
    intros [] _; [apply Hc; right; by left|exact Hl].
  - cbn [validateFixedPricingTree]. apply own_bind; [apply marker_own|].
    intros [] _; [exact Hl|]. apply own_bind; [apply Hc; right; by left|].
    intros _ _. apply Hc. do 2 right. by left.
Qed.

(** ** Compilation *)

Definition compiled_ok (c : compiled) : Prop :=
  parse (c_source c) = Ok (c_ast c) /\
  (height (c_ast c) <= 256)%Z /\
  (exists t, has_type (c_ast c) t) /\
  (forall v, In v (c_variables c) <-> exists n, In n (postorder (c_ast c)) /\ is_var v n) /\
  (forall f, In f (c_functions c) <-> exists n, In n (postorder (c_ast c)) /\ is_call f n) /\
  c_rules c = omap (rule_of (c_source c)) (postorder (c_ast c)) /\
  (In (js "fixed") (c_functions c) -> validateFixedPricingTree (c_ast c) (c_rules c) = Ok tt).

Lemma compile_expr_ok source c :
  compile_expr source = Ok c -> c_source c = source /\ compiled_ok c.
Proof.
  unfold compile_expr. destruct (parse source) as [ast|] eqn:Hp; [|done].
  destruct (checkExpressionTypes ast) as [[]|] eqn:Hc; [|done].
  assert (Ht : is_ok (checkExpressionTypes ast) = true) by (by rewrite Hc).
  apply checkExpressionTypes_iff in Ht as [Hh Ht].
  destruct (expressionDependencies_shallow ast Hh) as (vs & fs & -> & Hv & Hf).
  rewrite (rules_exact source ast Hh). intros H.
  destruct (str_mem (js "fixed") fs) eqn:Hm.
  - destruct (validateFixedPricingTree _ _) as [[]|] eqn:Hval; [|done]. injection H as <-.
    by repeat split; simpl; auto; try apply Hv; try apply Hf.
  - injection H as <-. repeat split; simpl; auto; try apply Hv; try apply Hf.
    intros Hin. apply str_mem_In in Hin. congruence.
Qed.

Lemma compile_expr_own source : own (compile_expr source).
Proof.
  unfold compile_expr. pose proof (parse_ok source) as Hp.
  apply own_bind; [apply parse_own|]. intros ast E. rewrite E in Hp.
  destruct Hp as [[_ [Hw _]] _].
  apply own_bind; [by apply check_own|]. intros [] Hc.
  apply own_bind; [apply deps_own|]. intros [vs fs] _.
  apply own_bind.
  { assert (is_ok (checkExpressionTypes ast) = true) as [Hh _]%checkExpressionTypes_iff
      by (by rewrite Hc). by rewrite rules_exact. }
  intros rules _. apply own_bind; [|done].
  destruct (str_mem _ _); [by apply validate_own|done].
Qed.

(** C8: compiling a source either yields the parsed tree together with its type,
    exactly the variables and functions that occur in it, exactly the conditional
    nodes of the form [condition ? number : 1] whose condition reads the request
    or the time as its request rules, and an accepted fixed-price tree when
    [fixed] occurs, or throws one of the engine's own diagnostics: reading a
    missing argument and running out of fuel never happen. *)
Theorem compile_expr_spec source :
  match compile_expr source with
  | Ok c => c_source c = source /\ compiled_ok c
  | Err x => exists d, x = BillingError d
  end.
Proof.
  pose proof (compile_expr_own source) as Ho. pose proof (compile_expr_ok source) as Hok.
  destruct (compile_expr source) as [c|[d| |]]; [auto|eauto|done|done].
Qed.

(** ** The cache *)

Section cache.
Context `{Host}.

Definition cache_ok (c : cache) : Prop :=
  NoDup (map fst c) /\ length c <= 128 /\
  forall source r, In (source, r) c -> r = compile_source source.

Lemma compile_source_parse `{Host} source c :
  compile_source source = Ready c -> parse source = Ok (c_ast c).
Proof.
  unfold compile_source. destruct (compile_expr source) as [c'|] eqn:E; [|done]. intros [= <-].
  unfold compile_expr in E. by inv_ok E.
Qed.

Lemma assoc_get_In {V} (k : jsstr) (l : list (jsstr * V)) v :
  assoc_get str_eqb k l = Some v -> In (k, v) l.
Proof.
  induction l as [|[k' v'] l IH]; simpl; [done|]. destruct (str_eqb k k') eqn:E; [|auto].
  apply str_eqb_eq in E as ->. intros [= ->]. auto.
Qed.

Lemma assoc_get_None {V} (k : jsstr) (l : list (jsstr * V)) :
  assoc_get str_eqb k l = None -> ~ In k (map fst l).
Proof.
  induction l as [|[k' v'] l IH]; simpl; [auto|]. destruct (str_eqb k k') eqn:E; [done|].
  intros Hn [->|Hin]; [by rewrite str_eqb_refl in E|by apply IH].
Qed.

Lemma cache_evict_ok c : cache_ok c -> cache_ok (cache_evict c) /\ length (cache_evict c) < 128 /\
  incl (cache_evict c) c.
Proof.
  intros (Hd & Hl & Hc). unfold cache_evict. destruct c as [|p c]; [repeat split; simpl; auto; try lia; apply incl_refl|].
  destruct (Z.leb_spec 128 (Z.of_nat (length (p :: c)))) as [Hb|Hb].
  - split; [split; [|split]|split].
    + simpl in Hd. by inversion Hd.
    + simpl in Hl. lia.
    + intros s r Hin. apply Hc. by right.
    + simpl in Hl. lia.
    + apply incl_tl, incl_refl.
  - split; [done|]. split; [simpl in *; lia|apply incl_refl].
Qed.

Lemma compile_cached_ok c source :
  cache_ok c ->
  let '(r, c') := compile_cached c source in
  r = compile_source source /\ cache_ok c' /\ assoc_get str_eqb source c' = Some r.
Proof.
  intros Hc. unfold compile_cached. destruct (assoc_get str_eqb source c) as [r|] eqn:E.
  - split; [|done]. apply assoc_get_In in E. by apply Hc.
  - destruct (cache_evict_ok c Hc) as (He & Hl & Hi). cbn zeta.
    assert (Hn : ~ In source (map fst (cache_evict c))).
    { apply assoc_get_None in E. intros Hin. apply E. apply in_map_iff in Hin as (p & <- & Hp).
      apply in_map, Hi, Hp. }
    split; [done|]. split; [|by apply assoc_get_set_eq, str_eqb_eq].
    assert (Hg : assoc_get str_eqb source (cache_evict c) = None).
    { destruct (assoc_get str_eqb source (cache_evict c)) as [r|] eqn:Eg; [|done].
      apply assoc_get_In in Eg. exfalso. apply Hn, in_map_iff. by exists (source, r). }
    rewrite assoc_set_fresh by done.
    destruct He as (Hd & _ & Hs). split; [|split].
    + rewrite map_app. apply list.NoDup_app. split; [done|]. split; [|by repeat constructor; inversion 1].
      intros x Hx Hx'. simpl in Hx'. apply list_elem_of_In in Hx, Hx'. destruct Hx' as [<-|[]]. done.
    + rewrite length_app. simpl. lia.
    + intros s r [Hin|[[= <- <-]|[]]]%in_app_iff; auto.
Qed.

(** Compiling a sequence of sources through one cache. *)
Fixpoint compile_all (c : cache) (sources : list jsstr) : list compilation * cache :=
  match sources with
  | [] => ([], c)
  | s :: rest =>
      let '(r, c1) := compile_cached c s in
      let '(rs, c2) := compile_all c1 rest in
      (r :: rs, c2)
  end.

Lemma compile_all_ok sources : forall c, cache_ok c ->
  let '(rs, c') := compile_all c sources in
  rs = map compile_source sources /\ cache_ok c'.
Proof.
  induction sources as [|s rest IH]; intros c Hc; cbn [compile_all map]; [done|].
  pose proof (compile_cached_ok c s Hc) as Hs. destruct (compile_cached c s) as [r c1].
  destruct Hs as (-> & H1 & _). specialize (IH c1 H1).
  destruct (compile_all c1 rest) as [rs c2]. destruct IH as [-> H2]. done.
Qed.

(** C9: the compilation cache is transparent and bounded: whatever sequence of
    sources is compiled from the empty cache, each call returns what compiling
    that source afresh returns, and the cache never holds more than 128 entries
    nor two for one source. *)
Theorem cache_transparent sources :
  let '(rs, c) := compile_all [] sources in
  rs = map compile_source sources /\ length c <= 128 /\ NoDup (map fst c).
Proof.
  pose proof (compile_all_ok sources []) as Hall.
  destruct (compile_all [] sources) as [rs c].
  destruct Hall as (-> & Hd & Hl & _); [|done].
  split; [constructor|]. split; [simpl; lia|done].
Qed.
End cache.
