(* ===== verification/ExprRuntime.v ===== *)
(** * The evaluator

    Models [billing-expression/runtime.ts]: request paths, the textual form of
    request values, time zones, and the tree-walking evaluator with the state it
    records (matched tier, billing unit, fixed price, matched request rules). *)

From S2P Require Import Prelude JsString JsNumber JsRegex JsValue ExprTypes ExprParser ExprCompile.

(** ** Request paths *)

Definition path_reserved (c : N) : bool := existsb (N.eqb c) (js "*?[]()|@!").

(** The first loop of [readRequestPath]: split at unescaped dots. *)
Fixpoint split_path (path rest part : jsstr) (parts : list jsstr)
  : result berr (list jsstr) :=
  match rest with
  | [] => Ok (parts ++ [part])
  | c :: r1 =>
      if N.eqb c 92 then
        match r1 with
        | [] => throw Dunsupported path None
        | d :: r2 => split_path path r2 (part ++ [d]) parts
        end
      else if N.eqb c 46 then split_path path r1 [] (parts ++ [part])
      else if path_reserved c then throw Dunsupported path None
      else split_path path r1 (part ++ [c]) parts
  end.

(** [value\[index\]] of an array. *)
Definition array_get (l : list jsval) (z : Z) : jsval :=
  if ((0 <=? z) && (z <? Z.of_nat (length l)))%Z then default VUndef (l !! Z.to_nat z)
  else VUndef.

Definition nullish_to_null (v : jsval) : jsval := if is_nullish v then VNull else v.

(** The second loop: follow the keys. *)
Fixpoint walk_path (path : jsstr) (value : jsval) (parts : list jsstr) : result berr jsval :=
  match parts with
  | [] => Ok (nullish_to_null value)
  | key :: rest =>
      match value with
      | VArr l =>
          if str_eqb key (js "#") then
            match rest with
            | [] => Ok (VNum (n_of_nat (length l)))
            | _ => throw Dunsupported path None
            end
          else if negb (truthy_str key && forallb is_digit key) then Ok VNull
          else
            let index := number_of_string key in
            walk_path path
              (if is_safe_integer index
               then array_get l (default 0%Z (int_value index)) else VUndef) rest
      | VObj o =>
          match prop_get key o with
          | Some v => walk_path path v rest
          | None => Ok VNull
          end
      | _ => Ok VNull
      end
  end.

Definition readRequestPath (body : jsval) (rawPath : jsstr) : result berr jsval :=
  let path := trim rawPath in
  if negb (truthy_str path) then Ok VNull
  else
    let? parts := split_path path path [] [] in
    walk_path path body parts.

(** ** Request values as text *)

(** [sort((\[a\], \[b\]) => (a < b ? -1 : Number(a > b)))], a stable sort by key. *)
Fixpoint insert_by_key {A} (x : jsstr * A) (l : list (jsstr * A)) : list (jsstr * A) :=
  match l with
  | [] => [x]
  | y :: l' => if str_ltb x.1 y.1 then x :: l else y :: insert_by_key x l'
  end.
Definition sort_by_key {A} (l : list (jsstr * A)) : list (jsstr * A) :=
  fold_left (fun acc x => insert_by_key x acc) l [].

Definition pad2 (s : jsstr) : jsstr :=
  if Nat.ltb (length s) 2 then repeat 48%N (2 - length s) ++ s else s.

Fixpoint sequence {A} (l : list (result berr A)) : result berr (list A) :=
  match l with
  | [] => Ok []
  | r :: l' => let? a := r in let? rest := sequence l' in Ok (a :: rest)
  end.

Fixpoint billingString (value : jsval) (depth : Z) {struct value} : result berr jsstr :=
  if (128 <? depth)%Z then throw Dlimit (js "request value depth") None
  else
    match value with
    | VUndef | VNull => Ok (js "<nil>")
    | VArr l =>
        let? parts :=
          sequence
            ((fix go (l : list jsval) : list (result berr jsstr) :=
                match l with
                | [] => []
                | x :: l' => billingString x (depth + 1) :: go l'
                end) l) in
        Ok (js "[" ++ join (js " ") parts ++ js "]")
    | VObj o =>
        let? parts :=
          sequence
            (map (fun kr => let? s := kr.2 in Ok (kr.1 ++ js ":" ++ s))
               (sort_by_key
                  ((fix go (o : list (jsstr * jsval)) : list (jsstr * result berr jsstr) :=
                      match o with
                      | [] => []
                      | (k, x) :: o' => (k, billingString x (depth + 1)) :: go o'
                      end) o))) in
        Ok (js "map[" ++ join (js " ") parts ++ js "]")
    | VNum x =>
        if negb (is_finite x) then throw Dnumber (js "request number") None
        else if is_neg_zero x then Ok (js "-0")
        else
          let '(mantissa, e) := to_exponential x in
          if ((6 <=? e) || (e <? -4))%Z then
            Ok (mantissa ++ js "e" ++ (if (e <? 0)%Z then js "-" else js "+")
                  ++ pad2 (digits_of_Z (Z.abs e)))
          else Ok (string_of_number x)
    | VStr s => Ok s
    | VBool b => Ok (if b then js "true" else js "false")
    end.

(** ** Time zones *)

(** A [Date]: its time value in milliseconds, [None] when invalid. *)
Definition date : Type := option Z.

Record time_values := TimeValues {
  tv_hour : num; tv_minute : num; tv_weekday : num; tv_month : num; tv_day : num;
}.

Definition time_value (name : jsstr) (v : time_values) : num :=
  if str_eqb name (js "hour") then tv_hour v
  else if str_eqb name (js "minute") then tv_minute v
  else if str_eqb name (js "weekday") then tv_weekday v
  else if str_eqb name (js "month") then tv_month v
  else tv_day v.

(** Civil date of a day number counted from 1970-01-01. *)
Definition civil_from_days (days : Z) : Z * Z * Z :=
  (let z := days + 719468 in
   let era := z / 146097 in
   let doe := z mod 146097 in
   let yoe := (doe - doe / 1460 + doe / 36524 - doe / 146096) / 365 in
   let doy := doe - (365 * yoe + yoe / 4 - yoe / 100) in
   let mp := (5 * doy + 2) / 153 in
   let d := doy - (153 * mp + 2) / 5 + 1 in
   let m := if mp <? 10 then mp + 3 else mp - 9 in
   let y := yoe + era * 400 + (if m <=? 2 then 1 else 0) in
   (y, m, d))%Z.

(** [getUTCHours()], [getUTCMinutes()], [getUTCDay()], [getUTCMonth() + 1] and
    [getUTCDate()]. *)
Definition utc_fields (t : Z) : Z * Z * Z * Z * Z :=
  (let days := t / 86400000 in
   let '(_, m, d) := civil_from_days days in
   ((t / 3600000) mod 24, (t / 60000) mod 60, (days + 4) mod 7, m, d))%Z.

Definition utc_values (t : Z) : time_values :=
  let '(h, mi, w, mo, d) := utc_fields t in
  TimeValues (n_of_Z h) (n_of_Z mi) (n_of_Z w) (n_of_Z mo) (n_of_Z d).

(** The zone pattern: capitalised segments separated by slashes. *)
Definition zone_segment : re :=
  RCat (RChar is_upper)
    (RStar (RChar (fun c => is_alpha c || is_digit c || existsb (N.eqb c) (js "_+-")))).
Definition zone_re : re := RCat zone_segment (RStar (RCat (RLit "/") zone_segment)).

Definition WEEKDAYS : list jsstr :=
  map js ["Sun"; "Mon"; "Tue"; "Wed"; "Thu"; "Fri"; "Sat"]%string.

Section runtime.
Context `{Host}.

(** [Number(parts.k)], where a missing part is [undefined]. *)
Definition part_number (k : string) (parts : list (jsstr * jsstr)) : num :=
  match assoc_get str_eqb (js k) parts with
  | Some s => number_of_string s
  | None => SpecFloat.S754_nan
  end.

Definition part_weekday (parts : list (jsstr * jsstr)) : num :=
  match assoc_get str_eqb (js "weekday") parts with
  | Some s =>
      match find_index (str_eqb s) WEEKDAYS with
      | Some i => n_of_nat i
      | None => n_of_Z (-1)
      end
  | None => n_of_Z (-1)
  end.

Definition timeInBillingZone (now : date) (zone : jsstr) : result berr time_values :=
  match now with
  | None => throw Dtype (js "simulation time") None
  | Some t =>
      let timezone := if truthy_str (trim zone) then trim zone else js "UTC" in
      if str_eqb timezone (js "Local")
      then throw Dunsupported (js "server Local timezone") None
      else
        let formatter :=
          if re_test zone_re timezone then
            match intl_zone timezone with
            | Some resolved =>
                if str_eqb (to_lower resolved) (to_lower timezone)
                   && negb (str_eqb resolved timezone)
                then None else Some timezone
            | None => None
            end
          else None in
        match formatter with
        | None => Ok (utc_values t)
        | Some z =>
            let parts :=
              fold_left (fun acc p => assoc_set str_eqb p.1 p.2 acc) (intl_parts z t) [] in
            Ok (TimeValues (part_number "hour" parts) (part_number "minute" parts)
                  (part_weekday parts) (part_number "month" parts) (part_number "day" parts))
        end
  end.

(** ** Context and state *)

Record request := Request {
  body : jsval;
  headers : option (list (jsstr * jsval));
}.

Record context := Context {
  imageCount : option num;
  tokens : option (list (jsstr * jsval));
  ctx_request : option request;
  usage : option (list (jsstr * jsval));
  now : option date;
}.

(** [RuntimeValue] *)
Record rval := RVal { rv : jsval; rint : bool }.

Record rule_trace := Trace { t_cond : jsstr; t_multiplier : num; t_matched : bool }.

Inductive billing_unit : Type := Utoken | Urequest.

Record rstate := RState {
  r_rules : list rule_trace;
  r_tier : jsstr;
  r_unit : billing_unit;
  r_fixed : option num;
  r_times : list (jsstr * time_values);
  r_depth : Z;
}.

Definition set_r_depth (d : Z) (st : rstate) : rstate :=
  RState (r_rules st) (r_tier st) (r_unit st) (r_fixed st) (r_times st) d.
Definition set_r_tier (name : jsstr) (st : rstate) : rstate :=
  RState (r_rules st) name (r_unit st) (r_fixed st) (r_times st) (r_depth st).
Definition set_r_fixed (x : num) (st : rstate) : rstate :=
  RState (r_rules st) (r_tier st) Urequest (Some x) (r_times st) (r_depth st).
Definition set_r_times (z : jsstr) (v : time_values) (st : rstate) : rstate :=
  RState (r_rules st) (r_tier st) (r_unit st) (r_fixed st)
    (assoc_set str_eqb z v (r_times st)) (r_depth st).
Definition mark_rule (i : nat) (st : rstate) : rstate :=
  RState
    (alter (fun t => Trace (t_cond t) (t_multiplier t) true) i (r_rules st))
    (r_tier st) (r_unit st) (r_fixed st) (r_times st) (r_depth st).

(** The [headers] map of the constructor: trimmed, lower-cased names, empty
    names and values left out, the last of equal names kept. *)
Definition header_entry (acc : list (jsstr * jsstr)) (p : jsstr * jsval)
  : result berr (list (jsstr * jsstr)) :=
  match p.2 with
  | VStr raw =>
      let key := to_lower (trim p.1) in
      let value := trim raw in
      Ok (if truthy_str key && truthy_str value then assoc_set str_eqb key value acc else acc)
  | _ => throw Dtype (js "request header") None
  end.

Definition runtime_headers (ctx : context) : result berr (list (jsstr * jsstr)) :=
  foldM header_entry
    (default [] (match ctx_request ctx with Some r => headers r | None => None end)) [].

Definition initial_state (c : compiled) : rstate :=
  RState (map (fun r => Trace (rule_cond r) (rule_multiplier r) false) (c_rules c))
    [] Utoken None [] 0.

Definition literal_value (l : literal) : jsval :=
  match l with LNum x => VNum x | LStr s => VStr s | LBool b => VBool b | LNull => VNull end.

(** ** The evaluator *)

Definition plain (v : jsval) : rval := RVal v false.

(** The part of [binary] after both operands are evaluated. *)
Definition arith_op (op : jsstr) (x y : num) (i : bool) (e : expr) : result berr rval :=
  if str_eqb op (js "+") then Ok (RVal (VNum (n_add x y)) i)
  else if str_eqb op (js "-") then Ok (RVal (VNum (n_sub x y)) i)
  else if str_eqb op (js "*") then Ok (RVal (VNum (n_mul x y)) i)
  else if str_eqb op (js "/") then Ok (plain (VNum (n_div x y)))
  else if str_eqb op (js "%") then
    if negb i then throw Dtype (js "integer modulo") (Some (estart e))
    else Ok (RVal (VNum (n_rem x y)) true)
  else throw Dunsupported op (Some (estart e)).

(** [a < b], [a <= b], [a > b], [a >= b] on two numbers or two strings. *)
Definition compare_op (op : jsstr) (a b : jsval) : option bool :=
  match a, b with
  | VNum x, VNum y =>
      if str_eqb op (js "<") then Some (n_ltb x y)
      else if str_eqb op (js "<=") then Some (n_leb x y)
      else if str_eqb op (js ">") then Some (n_gtb x y)
      else if str_eqb op (js ">=") then Some (n_geb x y)
      else None
  | VStr x, VStr y =>
      if str_eqb op (js "<") then Some (str_ltb x y)
      else if str_eqb op (js "<=") then Some (str_leb x y)
      else if str_eqb op (js ">") then Some (str_ltb y x)
      else if str_eqb op (js ">=") then Some (str_leb y x)
      else None
  | _, _ => None
  end.

Definition is_null (v : jsval) : bool := match v with VNull => true | _ => false end.

Definition binary_op (op : jsstr) (l r : rval) (e : expr) : result berr rval :=
  let a := rv l in
  let b := rv r in
  if str_eqb op (js "==") || str_eqb op (js "!=") then
    if negb (is_null a) && negb (is_null b) && (is_object a || is_object b)
    then throw Dunsupported (js "object comparison") (Some (estart e))
    else
      let equal := strict_eqb a b in
      Ok (plain (VBool (if str_eqb op (js "==") then equal else negb equal)))
  else
    match a, b with
    | VStr x, VStr y =>
        if str_eqb op (js "+") then Ok (plain (VStr (x ++ y)))
        else match compare_op op a b with
             | Some v => Ok (plain (VBool v))
             | None => throw Dtype op (Some (estart e))
             end
    | VNum x, VNum y =>
        match compare_op op a b with
        | Some v => Ok (plain (VBool v))
        | None => arith_op op x y (rint l && rint r) e
        end
    | _, _ => throw Dtype op (Some (estart e))
    end.

(** The numeric functions of two and one arguments. *)
Definition numeric_function2 (name : jsstr) (x y : num) : num :=
  if str_eqb name (js "min") then n_min x y else n_max x y.
Definition numeric_function1 (name : jsstr) (x : num) : num :=
  if str_eqb name (js "abs") then n_abs x
  else if str_eqb name (js "floor") then n_floor x
  else n_ceil x.

(** The finiteness and safe-integer check [evaluate] makes on every number. *)
Definition check_value (e : expr) (v : rval) : result berr rval :=
  match rv v with
  | VNum x =>
      if negb (is_finite x) then throw Dnumber (js "non-finite result") (Some (estart e))
      else if rint v && negb (is_safe_integer x)
      then throw Dunsupported (js "integer precision") (Some (estart e))
      else Ok v
  | _ => Ok v
  end.

Section evaluator.
Variable c : compiled.
Variable ctx : context.
Variable hdrs : list (jsstr * jsstr).
Variable now_ : date.

Definition eval_variable (name : jsstr) (e : expr) : result berr rval :=
  if str_eqb name (js "image_count") then
    let value := default (n_of_Z 1) (imageCount ctx) in
    if negb (is_integer value) || n_ltb value (n_of_Z 1) || n_gtb value (n_of_Z 128)
    then throw Dnumber (js "image_count must be between 1 and 128") (Some (estart e))
    else Ok (plain (VNum value))
  else
    match match tokens ctx with Some t => prop_get name t | None => None end with
    | None | Some VUndef => throw Dmissing_context name (Some (estart e))
    | Some (VNum x) =>
        if n_ltb x n_zero then throw Dnumber name (Some (estart e))
        else Ok (plain (VNum x))
    | Some _ => throw Dnumber name (Some (estart e))
    end.

(** The time of a zone, read once per evaluation. *)
Definition eval_time (name zone : jsstr) (st : rstate) : result berr (rval * rstate) :=
  let z := trim zone in
  match assoc_get str_eqb z (r_times st) with
  | Some v => Ok (RVal (VNum (time_value name v)) true, st)
  | None =>
      let? v := timeInBillingZone now_ z in
      Ok (RVal (VNum (time_value name v)) true, set_r_times z v st)
  end.

Definition rule_index (e : expr) : option nat :=
  find_index (fun r => expr_eqb (rule_node r) e) (c_rules c).

Definition known_function (name : jsstr) : bool :=
  match assoc_get str_eqb name BILLING_FUNCTIONS with Some _ => true | None => false end.

(** The methods [boolean], [numeric] and [string] evaluate a child with [ev], the
    method [evaluate] itself. *)
Section methods.
Variable ev : expr -> rstate -> result berr (rval * rstate).

Definition boolean (e : expr) (st : rstate) : result berr (bool * rstate) :=
  let? (v, st) := ev e st in
  match rv v with
  | VBool b => Ok (b, st)
  | _ => throw Dtype (js "boolean condition") (Some (estart e))
  end.

Definition numeric (e : expr) (st : rstate) : result berr (num * bool * rstate) :=
  let? (v, st) := ev e st in
  match rv v with
  | VNum x => Ok (x, rint v, st)
  | _ => throw Dtype (js "numeric operand") (Some (estart e))
  end.

Definition string_arg (e : expr) (st : rstate) : result berr (jsstr * rstate) :=
  let? (v, st) := ev e st in
  match rv v with
  | VStr s => Ok (s, st)
  | _ => throw Dtype (js "string argument") (Some (estart e))
  end.

Definition binary (op : jsstr) (l r e : expr) (st : rstate) : result berr (rval * rstate) :=
  if str_eqb op (js "&&") then
    let? (a, st1) := boolean l st in
    if a then
      let? (b, st2) := boolean r st1 in
      Ok (plain (VBool b), st2)
    else Ok (plain (VBool false), st1)
  else if str_eqb op (js "||") then
    let? (a, st1) := boolean l st in
    if a then Ok (plain (VBool true), st1)
    else
      let? (b, st2) := boolean r st1 in
      Ok (plain (VBool b), st2)
  else
    let? (a, st1) := ev l st in
    let? (b, st2) := ev r st1 in
    let? v := binary_op op a b e in
    Ok (v, st2).

Definition call (name : jsstr) (args : list expr) (e : expr) (st : rstate)
  : result berr (rval * rstate) :=
  if negb (known_function name) then throw Dunsupported name None
  else
    match args with
    | [] => Err EngineError
    | a0 :: more =>
        if str_eqb name (js "fixed") then
          let? (amount, _, st1) := numeric a0 st in
          Ok (plain (VNum (n_mul amount MILLION)), set_r_fixed amount st1)
        else if str_eqb name (js "tier") then
          let? (label, st1) := string_arg a0 st in
          match more with
          | [] => Err EngineError
          | a1 :: _ =>
              let? (v, _, st2) := numeric a1 st1 in
              Ok (plain (VNum v), set_r_tier label st2)
          end
        else if str_eqb name (js "param") then
          let? (path, st1) := string_arg a0 st in
          match ctx_request ctx with
          | None => throw Dmissing_context (js "request body") (Some (estart e))
          | Some rq =>
              let? v := readRequestPath (body rq) path in
              Ok (plain v, st1)
          end
        else if str_eqb name (js "header") then
          let? (h, st1) := string_arg a0 st in
          match ctx_request ctx with
          | None => throw Dmissing_context (js "request headers") (Some (estart e))
          | Some _ =>
              Ok (plain (VStr (default [] (assoc_get str_eqb (to_lower (trim h)) hdrs))), st1)
          end
        else if str_eqb name (js "u") then
          let? (k, st1) := string_arg a0 st in
          match usage ctx with
          | None => throw Dmissing_context (js "task usage") (Some (estart e))
          | Some u => Ok (plain (default VNull (prop_get k u)), st1)
          end
        else if str_eqb name (js "has") then
          let? (src, st1) := ev a0 st in
          match more with
          | [] => Err EngineError
          | a1 :: _ =>
              let? (sub, st2) := string_arg a1 st1 in
              if is_nullish (rv src) || negb (truthy_str sub)
              then Ok (plain (VBool false), st2)
              else
                let? text := billingString (rv src) 0 in
                Ok (plain (VBool (includes sub text)), st2)
          end
        else if str_mem name [js "min"; js "max"] then
          let? (x, _, st1) := numeric a0 st in
          match more with
          | [] => Err EngineError
          | a1 :: _ =>
              let? (y, _, st2) := numeric a1 st1 in
              Ok (plain (VNum (numeric_function2 name x y)), st2)
          end
        else if str_mem name [js "abs"; js "floor"; js "ceil"] then
          let? (x, _, st1) := numeric a0 st in
          Ok (plain (VNum (numeric_function1 name x)), st1)
        else
          let? (zone, st1) := string_arg a0 st in
          eval_time name zone st1
    end.

Definition evaluateNode (e : expr) (st : rstate) : result berr (rval * rstate) :=
  match e with
  | ELit l i _ => Ok (RVal (literal_value l) i, st)
  | EVar name _ => let? v := eval_variable name e in Ok (v, st)
  | ECond cnd yes no _ =>
      let? (b, st1) := boolean cnd st in
      let st2 :=
        match rule_index e with
        | Some i => if b then mark_rule i st1 else st1
        | None => st1
        end in
      if b then ev yes st2 else ev no st2
  | EUnary op x _ =>
      if str_eqb op (js "!") then
        let? (b, st1) := boolean x st in
        Ok (plain (VBool (negb b)), st1)
      else
        let? (v, i, st1) := numeric x st in
        Ok (RVal (VNum (if str_eqb op (js "-") then n_neg v else v)) i, st1)
  | EBinary op l r _ => binary op l r e st
  | ECall name args _ => call name args e st
  end.
End methods.

Fixpoint evaluate (e : expr) (st0 : rstate) {struct e} : result berr (rval * rstate) :=
  let d := (r_depth st0 + 1)%Z in
  if (256 <? d)%Z then throw Dlimit (js "evaluation depth") None
  else
    let? (v, st') := evaluateNode evaluate e (set_r_depth d st0) in
    let? v' := check_value e v in
    Ok (v', set_r_depth (r_depth st' - 1) st').
End evaluator.

(** [this.now = context.now ?? new Date()] *)
Definition context_now (ctx : context) : date := default (Some host_now) (now ctx).

(** ** Entry points *)

Definition evaluateBillingCondition (c : compiled) (e : expr) (t : date) : option bool :=
  let ctx := Context None None None None (Some t) in
  match runtime_headers ctx with
  | Err _ => None
  | Ok hdrs =>
      match evaluate c ctx hdrs (context_now ctx) e (initial_state c) with
      | Ok (v, _) => match rv v with VBool b => Some b | _ => None end
      | Err _ => None
      end
  end.

Record evaluation := Evaluation {
  cost : num;
  billingUnit : billing_unit;
  fixedPrice : option num;
  ev_imageCount : option num;
  matchedTier : jsstr;
  requestRules : list rule_trace;
}.

Inductive eval_result : Type :=
| Success (v : evaluation)
| Failed (f : expression_failure).

Definition check_token (_ : unit) (p : jsstr * jsval) : result berr unit :=
  match p.2 with
  | VNum x =>
      if negb (is_finite x) || n_ltb x n_zero then throw Dnumber p.1 None else Ok tt
  | _ => throw Dnumber p.1 None
  end.

Definition run_compiled (c : compiled) (ctx : context) : result berr evaluation :=
  let? _ := foldM check_token (default [] (tokens ctx)) tt in
  let? hdrs := runtime_headers ctx in
  let? (v, st) := evaluate c ctx hdrs (context_now ctx) (c_ast c) (initial_state c) in
  match rv v with
  | VNum x =>
      if negb (is_finite x) || n_ltb x n_zero then throw Dnumber (js "billing result") None
      else
        Ok (Evaluation x (r_unit st) (r_fixed st)
              (if str_mem (js "image_count") (c_variables c)
               then Some (default (n_of_Z 1) (imageCount ctx)) else None)
              (r_tier st) (r_rules st))
  | _ => throw Dnumber (js "billing result") None
  end.

Definition evaluate_compilation (r : compilation) (ctx : context) : eval_result :=
  match r with
  | NotReady f => Failed f
  | Ready c =>
      match run_compiled c ctx with
      | Ok v => Success v
      | Err x => Failed (expressionFailure x)
      end
  end.

(** [evaluateBillingExpression(source, context)] *)
Definition evaluateBillingExpression (source : jsstr) (ctx : context) : eval_result :=
  evaluate_compilation (compile_source source) ctx.

End runtime.
