(* ===== verification/ExprRuntimeSpec.v ===== *)
(** * Correctness of evaluation

    How evaluation changes its state, what a successful evaluation reports, that
    it only throws the engine's own diagnostics, and that it reads nothing but
    the declared dependencies of the expression. *)

From S2P Require Import Prelude JsString JsNumber JsRegex JsValue ExprTypes ExprParser ExprParserSpec ExprCompile ExprCompileSpec ExprRuntime.

Section runtime_spec.
Context `{Host}.
Variable c : compiled.
Variable ctx : context.
Variable hdrs : list (jsstr * jsstr).
Variable now_ : date.

Abbreviation evaluate := (evaluate c ctx hdrs now_).
Abbreviation evaluateNode := (evaluateNode c ctx hdrs now_).

(** ** State changes *)

(** A reflexive and transitive relation on states that admits the updates the
    evaluator makes; pricing updates only where the functions of the
    expression allow them. *)
Record step_rel (allow : jsstr -> Prop) (R : rstate -> rstate -> Prop) : Prop := StepRel {
  rel_refl st : R st st;
  rel_trans st1 st2 st3 : R st1 st2 -> R st2 st3 -> R st1 st3;
  rel_times st z v : timeInBillingZone now_ z = Ok v -> R st (set_r_times z v st);
  rel_mark st i : R st (mark_rule i st);
  rel_fixed st x : allow (js "fixed") -> R st (set_r_fixed x st);
  rel_tier st s : allow (js "tier") -> R st (set_r_tier s st);
}.

Section node_rel.
Variable allow : jsstr -> Prop.
Variable R : rstate -> rstate -> Prop.
Hypothesis HR : step_rel allow R.
Variable ev : expr -> rstate -> result berr (rval * rstate).

Definition ev_rel (x : expr) : Prop :=
  forall st v st', ev x st = Ok (v, st') -> R st st'.

Lemma boolean_rel x st b st' : ev_rel x -> boolean ev x st = Ok (b, st') -> R st st'.
Proof. intros Hx Hb. unfold boolean in Hb. inv_ok Hb. by eapply Hx. Qed.
Lemma numeric_rel x st y i st' : ev_rel x -> numeric ev x st = Ok (y, i, st') -> R st st'.
Proof. intros Hx Hb. unfold numeric in Hb. inv_ok Hb. by eapply Hx. Qed.
Lemma string_rel x st s st' : ev_rel x -> string_arg ev x st = Ok (s, st') -> R st st'.
Proof. intros Hx Hb. unfold string_arg in Hb. inv_ok Hb. by eapply Hx. Qed.

Ltac rel_chain :=
  repeat match goal with
  | Hb : boolean ev _ _ = Ok _ |- _ => apply boolean_rel in Hb; [|by auto]
  | Hb : numeric ev _ _ = Ok _ |- _ => apply numeric_rel in Hb; [|by auto]
  | Hb : string_arg ev _ _ = Ok _ |- _ => apply string_rel in Hb; [|by auto]
  | Hb : ev ?x ?st = Ok _, Hx : ev_rel ?x |- _ => apply Hx in Hb
  end.

Lemma binary_rel op l r e st v st' :
  ev_rel l -> ev_rel r -> binary ev op l r e st = Ok (v, st') -> R st st'.
Proof.
  intros Hl Hr Hb. unfold binary in Hb.
  destruct (str_eqb op (js "&&")); [|destruct (str_eqb op (js "||"))]; inv_ok Hb; rel_chain;
    try done; eapply (rel_trans _ _ HR); done.
Qed.

Lemma eval_time_rel name zone st v st' :
  eval_time now_ name zone st = Ok (v, st') -> R st st'.
Proof.
  unfold eval_time. intros Ht. inv_ok Ht; [apply (rel_refl _ _ HR)|by apply (rel_times _ _ HR)].
Qed.

Lemma call_rel name args e st v st' :
  allow name -> (forall x, In x args -> ev_rel x) ->
  call ctx hdrs now_ ev name args e st = Ok (v, st') -> R st st'.
Proof.
  intros Ha Hargs Hc. unfold call in Hc. destruct (negb _); [done|].
  destruct args as [|a0 more]; [done|].
  assert (H0 : ev_rel a0) by (apply Hargs; by left).
  assert (H1 : forall a1 l, more = a1 :: l -> ev_rel a1)
    by (intros ? ? ->; apply Hargs; right; by left).
  pose proof (rel_trans _ _ HR) as Ht. pose proof (rel_fixed _ _ HR) as Hf.
  pose proof (rel_tier _ _ HR) as Htier.
  destruct (str_eqb name (js "fixed")) eqn:E1.
  { apply str_eqb_eq in E1. subst name. inv_ok Hc. rel_chain. eapply Ht; [done|]. by apply Hf. }
  destruct (str_eqb name (js "tier")) eqn:E2.
  { apply str_eqb_eq in E2. subst name. inv_ok Hc. specialize (H1 _ _ eq_refl). rel_chain.
    eapply Ht; [done|]. eapply Ht; [done|]. by apply Htier. }
  clear Hf Htier Hargs.
  repeat match type of Hc with
  | (if ?b then _ else _) = _ =>
      destruct b; [inv_ok Hc; try specialize (H1 _ _ eq_refl); rel_chain; eauto; fail|]
  end.
  inv_ok Hc. apply eval_time_rel in Hc. rel_chain. eauto.
Qed.

Lemma evaluateNode_rel e st v st' :
  (forall name, is_call name e -> allow name) ->
  (forall x, In x (children e) -> ev_rel x) ->
  evaluateNode ev e st = Ok (v, st') -> R st st'.
Proof.
  intros Ha Hx He. pose proof (rel_refl _ _ HR) as Hrefl. pose proof (rel_trans _ _ HR) as Ht.
  destruct e as [l i sp|name sp|name args sp|op x sp|op l r sp|cn y n sp];
    cbn [ExprRuntime.evaluateNode children] in *.
  - by injection He as <- <-.
  - by inv_ok He.
  - eapply call_rel; [by apply Ha|done|done].
  - assert (ev_rel x) by (apply Hx; by left).
    destruct (str_eqb op _); inv_ok He; rel_chain; done.
  - eapply binary_rel; [| |done]; apply Hx; [by left|right; by left].
  - assert (ev_rel cn) by (apply Hx; by left). assert (ev_rel y) by (apply Hx; right; by left).
    assert (ev_rel n) by (apply Hx; do 2 right; by left).
    destruct (boolean ev cn st) as [[b st1]|] eqn:Hb; [|done]. rel_chain.
    eapply Ht; [done|]. destruct b.
    + eapply Ht; [|eapply (_ : ev_rel y); exact He].
      destruct (rule_index _ _); [apply (rel_mark _ _ HR)|apply Hrefl].
    + eapply Ht; [|eapply (_ : ev_rel n); exact He]. destruct (rule_index _ _); apply Hrefl.
      Unshelve. all: done.
Qed.
End node_rel.

(** Only functions [allow] admits occur. *)
Definition only_calls (allow : jsstr -> Prop) (e : expr) : Prop :=
  forall n name, In n (postorder e) -> is_call name n -> allow name.

Lemma only_calls_child allow e x : only_calls allow e -> In x (children e) -> only_calls allow x.
Proof.
  intros Ho Hx n name Hn. apply Ho. rewrite postorder_children, in_app_iff, in_flat_map. eauto.
Qed.
Lemma only_calls_self allow e name : only_calls allow e -> is_call name e -> allow name.
Proof.
  intros Ho. apply Ho. rewrite postorder_children, in_app_iff. right. by left.
Qed.

Lemma evaluate_unfold e st0 :
  evaluate e st0 =
  if (256 <? r_depth st0 + 1)%Z then throw Dlimit (js "evaluation depth") None
  else
    let? (v, st') := evaluateNode evaluate e (set_r_depth (r_depth st0 + 1) st0) in
    let? v' := check_value e v in
    Ok (v', set_r_depth (r_depth st' - 1) st').
Proof. by destruct e. Qed.

Lemma evaluate_rel allow R e :
  step_rel allow R -> (forall st d, R st (set_r_depth d st)) -> only_calls allow e ->
  forall st v st', evaluate e st = Ok (v, st') -> R st st'.
Proof.
  intros HR Hd. induction e as [e IH] using expr_rect_children. intros Ho st v st' He.
  rewrite evaluate_unfold in He. destruct (256 <? _)%Z; [done|].
  destruct (evaluateNode _ _ _) as [[v1 st1]|] eqn:En; [|done]. inv_ok He.
  eapply (rel_trans _ _ HR); [apply Hd|]. eapply (rel_trans _ _ HR); [|apply Hd].
  eapply evaluateNode_rel; [done| | |exact En].
  - intros name. by apply only_calls_self.
  - intros x Hx st2 v2 st3. apply IH; [done|]. by eapply only_calls_child.
Qed.

Lemma evaluate_depth e st v st' : evaluate e st = Ok (v, st') -> r_depth st' = r_depth st.
Proof.
  revert st v st'. induction e as [e IH] using expr_rect_children. intros st v st' He.
  rewrite evaluate_unfold in He. destruct (256 <? _)%Z; [done|].
  destruct (evaluateNode _ _ _) as [[v1 st1]|] eqn:En; [|done]. inv_ok He.
  apply (evaluateNode_rel (fun _ => True) (fun s s' => r_depth s' = r_depth s)) in En.
  - simpl in En. lia.
  - split; simpl; congruence.
  - done.
  - intros x Hx st2 v2 st3. by apply IH.
Qed.

(** ** Errors *)

(** The only error of the depth limit. *)
Definition depth_error : berr := BillingError (Diag Dlimit (js "evaluation depth") None).

Section node_err.
Variable I : rstate -> Prop.
Variable P : berr -> Prop.
Hypothesis HI : step_rel (fun _ => True) (fun st st' => I st -> I st').
Hypothesis HP : forall k d p, BillingError (Diag k d p) <> depth_error -> P (BillingError (Diag k d p)).

(** A computation whose result satisfies [Q] and whose errors satisfy [P]. *)
Definition sat {A} (Q : A -> Prop) (r : result berr A) : Prop :=
  match r with Ok a => Q a | Err x => P x end.

Lemma sat_bind {A B} (Q : A -> Prop) (Q' : B -> Prop) r k :
  sat Q r -> (forall a, Q a -> sat Q' (k a)) -> sat Q' (let? a := r in k a).
Proof. destruct r; simpl; auto. Qed.

Lemma sat_throw {A} (Q : A -> Prop) k d p :
  (k <> Dlimit \/ d <> js "evaluation depth") -> sat Q (throw k d p).
Proof. intros Hk. apply HP. intros [= -> -> ->]. naive_solver. Qed.

Lemma sat_weaken {A} (Q Q' : A -> Prop) r : (forall a, Q a -> Q' a) -> sat Q r -> sat Q' r.
Proof. destruct r; simpl; auto. Qed.

Definition anything {A} (_ : A) : Prop := True.

Ltac own_throw := apply sat_throw; first [by left | by right].

Lemma split_path_sat path rest : forall part parts,
  sat anything (split_path path rest part parts).
Proof.
  induction rest as [rest IH] using (induction_ltof1 _ (@length N)). unfold ltof in IH.
  intros part parts. destruct rest as [|x rest]; [done|]. cbn [split_path].
  destruct (N.eqb x 92); [destruct rest; [own_throw|apply IH; simpl; lia]|].
  destruct (N.eqb x 46); [apply IH; simpl; lia|].
  destruct (path_reserved x); [own_throw|apply IH; simpl; lia].
Qed.

Lemma walk_path_sat path parts : forall v, sat anything (walk_path path v parts).
Proof.
  induction parts as [|k parts IH]; intros v; [done|]. cbn [walk_path].
  destruct v; try done.
  - destruct (str_eqb k _); [destruct parts; [done|own_throw]|].
    destruct (negb _); [done|apply IH].
  - destruct (prop_get k _); [apply IH|done].
Qed.

Lemma readRequestPath_sat b path : sat anything (readRequestPath b path).
Proof.
  unfold readRequestPath. cbn zeta. destruct (negb _); [done|].
  eapply sat_bind; [apply split_path_sat|]. intros parts _. apply walk_path_sat.
Qed.

Lemma timeInBillingZone_sat t z : sat anything (timeInBillingZone t z).
Proof.
  unfold timeInBillingZone. destruct t; [|own_throw]. cbn zeta.
  destruct (str_eqb _ (js "Local")); [own_throw|]. by repeat destr_match_goal.
Qed.

Lemma eval_variable_sat name e : sat anything (eval_variable ctx name e).
Proof.
  unfold eval_variable. destruct (str_eqb name _).
  - cbn zeta. destruct (_ || _ || _); [own_throw|done].
  - destruct (match tokens ctx with Some t => _ | None => _ end) as [[]|]; try own_throw.
    destruct (n_ltb _ _); [own_throw|done].
Qed.

Lemma binary_op_sat op l r e : sat anything (binary_op op l r e).
Proof.
  unfold binary_op, arith_op. cbn zeta.
  repeat match goal with
  | |- sat _ (if ?b then _ else _) => destruct b
  | |- sat _ (throw _ _ _) => own_throw
  | |- sat _ (match ?x with _ => _ end) => destruct x
  | _ => done
  end.
Qed.

Lemma check_value_sat e v : sat anything (check_value e v).
Proof.
  unfold check_value. destruct (rv v); try done.
  destruct (negb _); [own_throw|]. destruct (_ && _); [own_throw|done].
Qed.

Lemma sequence_sat {A} (l : list (result berr A)) :
  Forall (sat anything) l -> sat anything (sequence l).
Proof.
  induction 1 as [|r l Hr _ IH]; [done|]. cbn [sequence].
  eapply sat_bind; [done|]. intros a _. eapply sat_bind; [done|]. done.
Qed.

Lemma insert_by_key_Forall {A} (Q : jsstr * A -> Prop) x l :
  Q x -> Forall Q l -> Forall Q (insert_by_key x l).
Proof.
  intros Hx. induction 1 as [|y l Hy Hl IH]; simpl; [by repeat constructor|].
  destruct (str_ltb _ _); by repeat constructor.
Qed.

Lemma sort_by_key_Forall {A} (Q : jsstr * A -> Prop) l : Forall Q l -> Forall Q (sort_by_key l).
Proof.
  unfold sort_by_key. intros Hl.
  enough (forall acc, Forall Q acc -> Forall Q (fold_left (fun acc x => insert_by_key x acc) l acc))
    by (by auto).
  induction Hl as [|x l Hx _ IH]; intros acc Ha; simpl; [done|].
  apply IH. by apply insert_by_key_Forall.
Qed.

Lemma billingString_sat v : forall d, sat anything (billingString v d).
Proof.
  induction v as [| |b|x|s|l IH|o IH] using jsval_rect_members; intros d; cbn [billingString];
    (destruct (128 <? d)%Z; [own_throw|]); try done.
  - destruct (negb _); [own_throw|]. destruct (is_neg_zero x); [done|].
    destruct (to_exponential x). by destruct (_ || _)%Z.
  - eapply sat_bind; [apply sequence_sat|done].
    induction IH as [|v l Hv _ IHl]; constructor; [apply Hv|exact IHl].
  - eapply sat_bind; [apply sequence_sat|done]. apply Forall_map.
    eapply (List.Forall_impl (P := fun kr => sat anything kr.2)).
    + intros [k r] Hr. simpl in *. eapply sat_bind; [exact Hr|done].
    + apply sort_by_key_Forall.
      induction IH as [|[k v] o Hv _ IHo]; constructor; [apply Hv|exact IHo].
Qed.

Variable ev : expr -> rstate -> result berr (rval * rstate).

(** [ev] keeps the invariant on success and throws allowed errors. *)
Definition ev_sat (x : expr) : Prop :=
  forall st, I st -> sat (fun r => I r.2) (ev x st).

Lemma boolean_sat x st : ev_sat x -> I st -> sat (fun r => I r.2) (boolean ev x st).
Proof.
  intros Hx Hi. eapply sat_bind; [by apply Hx|]. intros [v st'] Hv. destruct (rv v); try own_throw. done.
Qed.
Lemma numeric_sat x st : ev_sat x -> I st -> sat (fun r => I r.2) (numeric ev x st).
Proof.
  intros Hx Hi. eapply sat_bind; [by apply Hx|]. intros [v st'] Hv. destruct (rv v); try own_throw. done.
Qed.
Lemma string_sat x st : ev_sat x -> I st -> sat (fun r => I r.2) (string_arg ev x st).
Proof.
  intros Hx Hi. eapply sat_bind; [by apply Hx|]. intros [v st'] Hv. destruct (rv v); try own_throw. done.
Qed.

Ltac sat_step :=
  match goal with
  | |- sat _ (throw _ _ _) => own_throw
  | |- sat _ (match boolean ev _ _ with _ => _ end) =>
      eapply sat_bind; [apply boolean_sat; auto|intros [? ?] ?]
  | |- sat _ (match numeric ev _ _ with _ => _ end) =>
      eapply sat_bind; [apply numeric_sat; auto|intros [[? ?] ?] ?]
  | |- sat _ (match string_arg ev _ _ with _ => _ end) =>
      eapply sat_bind; [apply string_sat; auto|intros [? ?] ?]
  | Hx : ev_sat ?x |- sat _ (match ev ?x _ with _ => _ end) =>
      eapply sat_bind; [apply Hx; auto|intros [? ?] ?]
  | Hx : ev_sat ?x |- sat _ (ev ?x _) => apply Hx
  | |- sat _ (match binary_op _ _ _ _ with _ => _ end) =>
      eapply sat_bind; [apply binary_op_sat|intros ? _]
  | |- sat _ (match readRequestPath _ _ with _ => _ end) =>
      eapply sat_bind; [apply readRequestPath_sat|intros ? _]
  | |- sat _ (match billingString _ _ with _ => _ end) =>
      eapply sat_bind; [apply billingString_sat|intros ? _]
  | |- sat _ (match eval_variable _ _ _ with _ => _ end) =>
      eapply sat_bind; [apply eval_variable_sat|intros ? _]
  | |- sat _ (match timeInBillingZone _ _ with _ => _ end) =>
      eapply sat_bind; [apply timeInBillingZone_sat|intros ? _]
  | |- sat _ (if ?b then _ else _) => destruct b
  | |- sat _ (Ok _) => done
  end.

Lemma binary_sat op l r e st :
  ev_sat l -> ev_sat r -> I st -> sat (fun x => I x.2) (binary ev op l r e st).
Proof. intros Hl Hr Hi. unfold binary. repeat sat_step. Qed.

Lemma call_sat name args e sp st :
  node_wf (ECall name args sp) -> (forall x, In x args -> ev_sat x) -> I st ->
  sat (fun x => I x.2) (call ctx hdrs now_ ev name args e st).
Proof.
  intros Hw Hx Hi. destruct (call_arity _ _ _ Hw) as [(a0 & more & ->) H2].
  pose proof (rel_fixed _ _ HI) as Hf. pose proof (rel_tier _ _ HI) as Ht.
  pose proof (rel_times _ _ HI) as Htm.
  assert (H0 : ev_sat a0) by (apply Hx; by left).
  assert (H1 : forall a1 l, more = a1 :: l -> ev_sat a1) by (intros ? ? ->; apply Hx; right; by left).
  clear Hx. unfold call. destruct (negb _); [own_throw|].
  assert (Hm : str_mem name [js "has"; js "tier"; js "min"; js "max"] = true ->
    exists a1 l, more = a1 :: l) by (intros (a & b & l & [= -> ->])%H2; eauto).
  clear H2 Hw. cbn [str_mem existsb] in Hm.
  destruct (str_eqb name (js "fixed")); [repeat sat_step; simpl; by apply Hf|].
  destruct (str_eqb name (js "tier")).
  { rewrite orb_true_r in Hm. destruct (Hm eq_refl) as (a1 & l & ->). specialize (H1 _ _ eq_refl).
    repeat sat_step. simpl. by apply Ht. }
  destruct (str_eqb name (js "param")).
  { sat_step. destruct (ctx_request ctx); repeat sat_step. }
  destruct (str_eqb name (js "header")).
  { sat_step. destruct (ctx_request ctx); repeat sat_step. }
  destruct (str_eqb name (js "u")).
  { sat_step. destruct (usage ctx); repeat sat_step. }
  destruct (str_eqb name (js "has")).
  { destruct (Hm eq_refl) as (a1 & l & ->). specialize (H1 _ _ eq_refl). repeat sat_step. }
  cbn [str_mem existsb].
  destruct (str_eqb name (js "min") || (str_eqb name (js "max") || false)).
  { destruct Hm as (a1 & l & ->); [by rewrite orb_true_r|].
    specialize (H1 _ _ eq_refl). repeat sat_step. }
  destruct (str_eqb name (js "abs") || _); [repeat sat_step|].
  sat_step. unfold eval_time. cbn zeta. destruct (assoc_get _ _ _); [repeat sat_step|].
  match goal with |- context [timeInBillingZone ?t ?z] =>
    pose proof (timeInBillingZone_sat t z) as Hz; destruct (timeInBillingZone t z) eqn:Ez end;
    [|exact Hz].
  repeat sat_step. simpl. by apply (Htm _ _ _ Ez).
Qed.

Lemma evaluateNode_sat e st :
  node_wf e -> (forall x, In x (children e) -> ev_sat x) -> I st ->
  sat (fun x => I x.2) (evaluateNode ev e st).
Proof.
  intros Hw Hx Hi.
  destruct e as [l i sp|name sp|name args sp|op x sp|op l r sp|cn y n sp];
    cbn [ExprRuntime.evaluateNode children] in *.
  - done.
  - repeat sat_step.
  - by eapply call_sat.
  - assert (ev_sat x) by (apply Hx; by left). repeat sat_step.
  - apply binary_sat; [apply Hx; by left|apply Hx; right; by left|done].
  - assert (ev_sat cn) by (apply Hx; by left). assert (ev_sat y) by (apply Hx; right; by left).
    assert (ev_sat n) by (apply Hx; do 2 right; by left). sat_step. cbn zeta.
    assert (Hm : forall i s, I s -> I (mark_rule i s)) by (intros; by apply (rel_mark _ _ HI)).
    destruct b; sat_step; destruct (rule_index _ _); auto.
Qed.
End node_err.

Lemma evaluate_sat I P e :
  step_rel (fun _ => True) (fun st st' => I st -> I st') ->
  (forall k d p, BillingError (Diag k d p) <> depth_error -> P (BillingError (Diag k d p))) ->
  Forall node_wf (postorder e) ->
  (forall st, I st -> I (set_r_depth (r_depth st + 1) st)) ->
  (forall st, I st -> I (set_r_depth (r_depth st - 1) st)) ->
  P depth_error ->
  forall st, I st -> sat P (fun x => I x.2) (evaluate e st).
Proof.
  intros HI HP Hw Hup Hdown Hd. induction e as [e IH] using expr_rect_children. intros st Hst.
  rewrite postorder_children in Hw. apply Forall_app in Hw as [Hc Hs]. inversion Hs; subst.
  rewrite evaluate_unfold. destruct (256 <? _)%Z; [exact Hd|].
  eapply sat_bind.
  - apply (evaluateNode_sat I P HI HP); [done| |by apply Hup]. intros x Hx st1 Hst1.
    apply IH; [done| |done]. rewrite List.Forall_forall in Hc |- *.
    intros n Hn. apply Hc, in_flat_map. eauto.
  - intros [v st'] Hv. eapply sat_bind; [by apply check_value_sat|]. intros v' _. simpl. auto.
Qed.

Lemma evaluate_own e st : Forall node_wf (postorder e) -> own (evaluate e st).
Proof.
  intros Hw.
  pose proof (evaluate_sat (fun _ => True) (fun x => exists d, x = BillingError d) e) as He.
  assert (Hs : sat (fun x => exists d, x = BillingError d) (fun _ => True) (evaluate e st)).
  { apply He; [by split|eauto|done|done|done|unfold depth_error; eauto|done]. }
  destruct (evaluate e st) as [|[]]; simpl in *; naive_solver.
Qed.

(** Every evaluated child runs one level deeper than its parent. *)
Lemma evaluate_shallow e : forall st,
  Forall node_wf (postorder e) -> (r_depth st + 1 + height e <= 256)%Z ->
  evaluate e st <> Err depth_error.
Proof.
  induction e as [e IH] using expr_rect_children. intros st Hw Hh.
  rewrite postorder_children in Hw. apply Forall_app in Hw as [Hc Hs]. inversion Hs; subst.
  rewrite evaluate_unfold. pose proof (height_nonneg e). destruct (Z.ltb_spec 256 (r_depth st + 1)); [lia|].
  set (d := (r_depth st + 1)%Z) in *.
  assert (Hn : sat (fun x => x <> depth_error) (fun x => r_depth x.2 = d)
            (evaluateNode evaluate e (set_r_depth d st))).
  { apply (evaluateNode_sat (fun s => r_depth s = d) (fun x => x <> depth_error)); [by split; simpl; auto|done|done| |done].
    intros x Hx st1 Hst1. destruct (evaluate x st1) as [[v st2]|err] eqn:Ex; simpl.
    - apply evaluate_depth in Ex. congruence.
    - intros ->. eapply IH; [exact Hx| | |exact Ex].
      + rewrite List.Forall_forall in Hc |- *. intros n Hin. apply Hc, in_flat_map. eauto.
      + apply max_height_le in Hx. rewrite (height_children e) in Hh. lia. }
  destruct (evaluateNode _ _ _) as [[v st1]|err]; simpl in Hn; [|congruence].
  pose proof (check_value_sat (fun x => x <> depth_error) ltac:(done) e v) as Hv.
  destruct (check_value e v); simpl in *; [done|congruence].
Qed.

End runtime_spec.

(** ** Whole evaluations *)

Lemma foldM_sat {S A} (f : S -> A -> result berr S) l s :
  (forall s a, own (f s a)) -> own (foldM f l s).
Proof.
  intros Hf. revert s. induction l as [|a l IH]; intros s; [done|]. cbn [foldM].
  apply own_bind; [apply Hf|auto].
Qed.

Section entry.
Context `{Host}.

Lemma compiled_nodes source cm :
  compile_expr source = Ok cm -> Forall node_wf (postorder (c_ast cm)).
Proof.
  intros Hc. apply compile_expr_ok in Hc as [<- [Hp _]].
  pose proof (parse_ok (c_source cm)) as Hw. rewrite Hp in Hw. apply Hw.
Qed.

Lemma run_compiled_own source cm ctx :
  compile_expr source = Ok cm -> own (run_compiled cm ctx).
Proof.
  intros Hc. unfold run_compiled. apply own_bind.
  { apply foldM_sat. intros [] [k v]. unfold check_token. simpl.
    destruct v; try done. by destruct (_ || _). }
  intros _ _. apply own_bind.
  { apply foldM_sat. intros acc [k v]. unfold header_entry. simpl. by destruct v. }
  intros hdrs _. apply own_bind; [by eapply evaluate_own, compiled_nodes|].
  intros [v st] _. destruct (rv v); try done. by destruct (_ || _).
Qed.

Lemma run_compiled_shallow source cm ctx :
  compile_expr source = Ok cm -> (height (c_ast cm) <= 255)%Z ->
  run_compiled cm ctx <> Err depth_error.
Proof.
  intros Hc Hh. unfold run_compiled.
  destruct (foldM check_token _ _) eqn:Et.
  2:{ intros [= ->]. revert Et. generalize (default [] (tokens ctx)). intros l.
      induction l as [|[k v] l IH]; [done|]. cbn [foldM]. unfold check_token at 1. simpl.
      destruct v; try done. by destruct (_ || _). }
  destruct (runtime_headers ctx) as [hdrs|] eqn:Eh.
  2:{ intros [= ->]. revert Eh. unfold runtime_headers.
      generalize (default [] (match ctx_request ctx with Some r => headers r | None => None end)),
        (@nil (jsstr * jsstr)).
      intros l. induction l as [|[k v] l IH]; intros acc; [done|]. cbn [foldM].
      unfold header_entry at 1. simpl. destruct v; try done. apply IH. }
  pose proof (evaluate_shallow cm ctx hdrs (context_now ctx) (c_ast cm) (initial_state cm)
    (compiled_nodes _ _ Hc) ltac:(simpl; lia)) as He.
  destruct (evaluate _ _ _ _ _ _) as [[v st]|]; [|congruence].
  destruct (rv v); try done. by destruct (_ || _).
Qed.

(** C10: evaluating a compiled expression in any context ends with a result or one
    of the engine's own diagnostics, never with an engine error, and an
    expression of height at most 255 never hits the evaluation depth limit. *)
Theorem evaluation_errors source ctx :
  match compile_expr source with
  | Ok cm =>
      own (run_compiled cm ctx) /\
      ((height (c_ast cm) <=? 255)%Z = true -> run_compiled cm ctx <> Err depth_error)
  | Err _ => True
  end.
Proof.
  destruct (compile_expr source) as [cm|] eqn:Hc; [|done].
  split; [by eapply run_compiled_own|]. intros Hh%Z.leb_le. by eapply run_compiled_shallow.
Qed.

(** What every state of an evaluation keeps: the identity of the traced rules, and
    the agreement of the billing unit with the fixed price. *)
Definition trace_id (t : rule_trace) : jsstr * num := (t_cond t, t_multiplier t).
Definition unit_ok (st : rstate) : Prop := r_unit st = Urequest <-> is_Some (r_fixed st).
Definition trace_rel (st st' : rstate) : Prop :=
  map trace_id (r_rules st') = map trace_id (r_rules st) /\
  (forall i t, r_rules st !! i = Some t -> t_matched t = true ->
     exists t', r_rules st' !! i = Some t' /\ t_matched t' = true) /\
  (unit_ok st -> unit_ok st').

Lemma trace_rel_same st st' :
  r_rules st' = r_rules st -> r_unit st' = r_unit st -> r_fixed st' = r_fixed st ->
  trace_rel st st'.
Proof.
  intros Hr Hu Hf. unfold trace_rel, unit_ok. rewrite Hr, Hu, Hf. eauto.
Qed.

Lemma map_alter_id {A B} (f : A -> B) (g : A -> A) i (l : list A) :
  (forall x, f (g x) = f x) -> map f (alter g i l) = map f l.
Proof.
  intros Hg. revert i. induction l as [|x l IH]; intros [|i]; simpl; [done|done|by rewrite Hg|].
  f_equal. apply IH.
Qed.

Lemma trace_step_rel now_ : step_rel now_ (fun _ => True) trace_rel.
Proof.
  split.
  - intros st. by apply trace_rel_same.
  - intros st1 st2 st3 (H1 & H2 & H3) (H4 & H5 & H6). split; [congruence|]. split; [|auto].
    intros i t Hi Ht. destruct (H2 i t Hi Ht) as (t' & Hi' & Ht'). eauto.
  - intros st z v _. by apply trace_rel_same.
  - intros st i. split; [|split; [|done]].
    + simpl. by apply map_alter_id.
    + intros j t Hj Ht. simpl. destruct (decide (i = j)) as [->|Hne].
      * rewrite list_lookup_alter_eq, Hj. simpl. eauto.
      * rewrite list_lookup_alter_ne by done. eauto.
  - intros st x _. split; [done|]. split; [eauto|]. intros _. unfold unit_ok. simpl. by split; eauto.
  - intros st x _. by apply trace_rel_same.
Qed.

Lemma check_value_num e v v' x :
  check_value e v = Ok v' -> rv v' = VNum x -> is_finite x = true.
Proof.
  unfold check_value. intros Hc Hx. inv_ok Hc; rewrite Hx in *; simplify_eq.
  by apply negb_false_iff.
Qed.

Lemma evaluate_trace cm ctx hdrs t e st v st' :
  evaluate cm ctx hdrs t e st = Ok (v, st') -> trace_rel st st'.
Proof.
  apply (evaluate_rel cm ctx hdrs t (fun _ => True)); [apply trace_step_rel| |done].
  intros s d. by apply trace_rel_same.
Qed.

Lemma run_compiled_ok cm ctx v :
  run_compiled cm ctx = Ok v ->
  is_finite (cost v) = true /\ n_ltb (cost v) n_zero = false /\
  (billingUnit v = Urequest <-> is_Some (fixedPrice v)) /\
  map trace_id (requestRules v) =
    map (fun r => (rule_cond r, rule_multiplier r)) (c_rules cm) /\
  (ev_imageCount v = if str_mem (js "image_count") (c_variables cm)
                     then Some (default (n_of_Z 1) (imageCount ctx)) else None).
Proof.
  unfold run_compiled. intros Hr. destruct (foldM check_token _ _); [|done].
  destruct (runtime_headers ctx) as [hdrs|]; [|done].
  destruct (evaluate _ _ _ _ _ _) as [[x st]|] eqn:He; [|done].
  apply evaluate_trace in He as (Hid & _ & Hunit).
  destruct (rv x); try done. destruct (_ || _) eqn:Eb; [done|]. injection Hr as <-. simpl.
  apply orb_false_iff in Eb as [Ef El]. apply negb_false_iff in Ef. repeat split; auto.
  - apply Hunit. split; [done|]. by intros [].
  - apply Hunit. split; [done|]. by intros [].
  - rewrite Hid. simpl. rewrite map_map. done.
Qed.

(** C11: a successful evaluation reports a finite, non-negative cost, a fixed
    price exactly when the billing unit is the request, one trace entry per
    request rule of the compiled expression in order with its condition text and
    multiplier, and the image count exactly when the expression reads it; a
    failure carries the diagnostic that was thrown, classified by its code. *)
Theorem evaluation_reports source ctx :
  match evaluateBillingExpression source ctx with
  | Success v =>
      is_finite (cost v) = true /\ n_ltb (cost v) n_zero = false /\
      (billingUnit v = Urequest <-> is_Some (fixedPrice v)) /\
      exists cm, compile_expr source = Ok cm /\
        map trace_id (requestRules v) =
          map (fun r => (rule_cond r, rule_multiplier r)) (c_rules cm) /\
        (ev_imageCount v = if str_mem (js "image_count") (c_variables cm)
                           then Some (default (n_of_Z 1) (imageCount ctx)) else None)
  | Failed f =>
      exists d, diagnostic_of f = d /\
        (compile_expr source = Err (BillingError d) \/
         exists cm, compile_expr source = Ok cm /\ run_compiled cm ctx = Err (BillingError d)) /\
        status f = match code d with
                   | Dunsupported | Dlimit => Funsupported
                   | Dmissing_context => Fmissing_context
                   | _ => Finvalid
                   end
  end.
Proof.
  unfold evaluateBillingExpression, compile_source, evaluate_compilation.
  pose proof (compile_expr_own source) as Ho.
  destruct (compile_expr source) as [cm|[d| |]] eqn:Hc; [|eauto|done|done].
  pose proof (run_compiled_own source cm ctx Hc) as Hr.
  destruct (run_compiled cm ctx) as [v|[d| |]] eqn:Er; [|simpl; eauto 10|done|done].
  destruct (run_compiled_ok cm ctx v Er) as (H1 & H2 & H3 & H4 & H5). eauto 10.
Qed.
End entry.

(** ** Evaluation reads only the dependencies *)

Section agreement.
Context `{Host}.
Variable c : compiled.
Variables ctx1 ctx2 : context.
Variables hdrs1 hdrs2 : list (jsstr * jsstr).
Variables now1 now2 : date.

Definition token_of (ctx : context) (name : jsstr) : option jsval :=
  match tokens ctx with Some t => prop_get name t | None => None end.

(** The two contexts agree on what a single node reads. *)
Definition agree_node (e : expr) : Prop :=
  match e with
  | EVar name _ =>
      if str_eqb name (js "image_count")
      then default (n_of_Z 1) (imageCount ctx1) = default (n_of_Z 1) (imageCount ctx2)
      else token_of ctx1 name = token_of ctx2 name
  | ECall name _ _ =>
      (str_eqb name (js "param") = true -> ctx_request ctx1 = ctx_request ctx2) /\
      (str_eqb name (js "header") = true ->
         (ctx_request ctx1 = None <-> ctx_request ctx2 = None) /\ hdrs1 = hdrs2) /\
      (str_eqb name (js "u") = true -> usage ctx1 = usage ctx2) /\
      (is_time_function name = true -> now1 = now2)
  | _ => True
  end.

Definition agree (e : expr) : Prop := Forall agree_node (postorder e).

Variables ev1 ev2 : expr -> rstate -> result berr (rval * rstate).

Definition ev_eq (x : expr) : Prop := forall st, ev1 x st = ev2 x st.

Lemma boolean_eq x st : ev_eq x -> boolean ev1 x st = boolean ev2 x st.
Proof. intros Hx. unfold boolean. by rewrite Hx. Qed.
Lemma numeric_eq x st : ev_eq x -> numeric ev1 x st = numeric ev2 x st.
Proof. intros Hx. unfold numeric. by rewrite Hx. Qed.
Lemma string_arg_eq x st : ev_eq x -> string_arg ev1 x st = string_arg ev2 x st.
Proof. intros Hx. unfold string_arg. by rewrite Hx. Qed.

Ltac ev_rewrite :=
  repeat match goal with
  | Hx : ev_eq ?x |- context [boolean ev1 ?x ?st] => rewrite (boolean_eq x st Hx)
  | Hx : ev_eq ?x |- context [numeric ev1 ?x ?st] => rewrite (numeric_eq x st Hx)
  | Hx : ev_eq ?x |- context [string_arg ev1 ?x ?st] => rewrite (string_arg_eq x st Hx)
  | Hx : ev_eq ?x |- context [ev1 ?x ?st] => rewrite (Hx st)
  | |- context [match boolean ev2 ?x ?st with _ => _ end] => destruct (boolean ev2 x st) as [[[] ?]|]
  | |- context [match numeric ev2 ?x ?st with _ => _ end] => destruct (numeric ev2 x st) as [[[? ?] ?]|]
  | |- context [match string_arg ev2 ?x ?st with _ => _ end] => destruct (string_arg ev2 x st) as [[? ?]|]
  | |- context [match ev2 ?x ?st with _ => _ end] => destruct (ev2 x st) as [[? ?]|]
  end; try done.

Lemma binary_eq op l r e st :
  ev_eq l -> ev_eq r -> binary ev1 op l r e st = binary ev2 op l r e st.
Proof.
  intros Hl Hr. unfold binary. destruct (str_eqb op _); [ev_rewrite|].
  destruct (str_eqb op _); ev_rewrite.
Qed.

Lemma time_function_last name :
  known_function name = true ->
  str_mem name (map js ["fixed"; "tier"; "param"; "header"; "u"; "has"; "min"; "max";
                        "abs"; "floor"; "ceil"]%string) = false ->
  is_time_function name = true.
Proof.
  unfold known_function, is_time_function, TIME_FUNCTIONS, BILLING_FUNCTIONS.
  cbn [map fst snd assoc_get str_mem existsb].
  repeat (destruct (str_eqb name _); cbn [orb]; try done).
Qed.

Lemma call_eq name args sp e st :
  agree_node (ECall name args sp) -> (forall x, In x args -> ev_eq x) ->
  call ctx1 hdrs1 now1 ev1 name args e st = call ctx2 hdrs2 now2 ev2 name args e st.
Proof.
  intros (Hp & Hh & Hu & Ht) Hx. unfold call.
  destruct (known_function name) eqn:Hk; [|done]. cbn [negb].
  destruct args as [|a0 more]; [done|].
  assert (H0 : ev_eq a0) by (apply Hx; by left).
  assert (H1 : forall a1 l, more = a1 :: l -> ev_eq a1) by (intros ? ? ->; apply Hx; right; by left).
  clear Hx. pose proof (time_function_last name Hk) as Htime. clear Hk.
  cbn [map str_mem existsb] in Htime.
  destruct (str_eqb name (js "fixed")); [ev_rewrite|].
  destruct (str_eqb name (js "tier")).
  { ev_rewrite. destruct more; [done|]. specialize (H1 _ _ eq_refl). ev_rewrite. }
  destruct (str_eqb name (js "param")); [rewrite (Hp eq_refl); ev_rewrite|].
  destruct (str_eqb name (js "header")).
  { destruct (Hh eq_refl) as [Hr ->]. ev_rewrite.
    destruct (ctx_request ctx1), (ctx_request ctx2); naive_solver. }
  destruct (str_eqb name (js "u")); [rewrite (Hu eq_refl); ev_rewrite|].
  destruct (str_eqb name (js "has")).
  { ev_rewrite. destruct more; [done|]. specialize (H1 _ _ eq_refl). ev_rewrite. }
  cbn [str_mem existsb]. cbn [orb] in Htime.
  destruct (str_eqb name (js "min")); cbn [orb] in *.
  { ev_rewrite. destruct more; [done|]. specialize (H1 _ _ eq_refl). ev_rewrite. }
  destruct (str_eqb name (js "max")); cbn [orb] in *.
  { ev_rewrite. destruct more; [done|]. specialize (H1 _ _ eq_refl). ev_rewrite. }
  destruct (str_eqb name (js "abs")); cbn [orb] in *; [ev_rewrite|].
  destruct (str_eqb name (js "floor")); cbn [orb] in *; [ev_rewrite|].
  destruct (str_eqb name (js "ceil")); cbn [orb] in *; [ev_rewrite|].
  rewrite (Ht (Htime eq_refl)). ev_rewrite.
Qed.

Lemma evaluateNode_eq e st :
  agree_node e -> (forall x, In x (children e) -> ev_eq x) ->
  evaluateNode c ctx1 hdrs1 now1 ev1 e st = evaluateNode c ctx2 hdrs2 now2 ev2 e st.
Proof.
  intros Ha Hx.
  destruct e as [l i sp|name sp|name args sp|op x sp|op l r sp|cn y n sp];
    cbn [evaluateNode children] in *.
  - done.
  - unfold eval_variable. cbn [agree_node] in Ha. destruct (str_eqb name _); [by rewrite Ha|].
    unfold token_of in Ha. by rewrite Ha.
  - by eapply call_eq.
  - assert (ev_eq x) by (apply Hx; by left). destruct (str_eqb op _); ev_rewrite.
  - apply binary_eq; apply Hx; [by left|right; by left].
  - assert (ev_eq cn) by (apply Hx; by left). assert (Hy : ev_eq y) by (apply Hx; right; by left).
    assert (Hn : ev_eq n) by (apply Hx; do 2 right; by left).
    rewrite boolean_eq by done. destruct (boolean ev2 cn st) as [[[] st1]|]; [apply Hy|apply Hn|done].
Qed.
End agreement.

(** C12: evaluation depends on the context only through the dependencies of the
    expression: two contexts that agree on the token counts and the image count
    it names, on the request if it calls [param], on the headers if it calls
    [header], on the usage if it calls [u], and on the time if it calls a time
    function, give the same value, the same state and the same error. *)
Theorem evaluate_depends `{Host} c ctx1 ctx2 hdrs1 hdrs2 now1 now2 e st :
  agree ctx1 ctx2 hdrs1 hdrs2 now1 now2 e ->
  evaluate c ctx1 hdrs1 now1 e st = evaluate c ctx2 hdrs2 now2 e st.
Proof.
  revert st. induction e as [e IH] using expr_rect_children. intros st Ha.
  unfold agree in Ha. rewrite postorder_children in Ha. apply Forall_app in Ha as [Hc Hs].
  inversion Hs; subst. rewrite !evaluate_unfold.
  rewrite (evaluateNode_eq c ctx1 ctx2 hdrs1 hdrs2 now1 now2
    (evaluate c ctx1 hdrs1 now1) (evaluate c ctx2 hdrs2 now2)); [done|done|].
  intros x Hx st1. apply IH; [done|]. unfold agree. rewrite List.Forall_forall in Hc |- *.
  intros n Hn. apply Hc, in_flat_map. eauto.
Qed.

(** Two contexts that differ in [c] and in the time, which [p * 2] does not read. *)
Definition sample_ctx (p : Z) (q : Z) (t : Z) : context :=
  Context None (Some [(js "p", VNum (n_of_Z p)); (js "c", VNum (n_of_Z q))]) None None
    (Some (Some t)).
Definition sample_expr : expr :=
  EBinary (js "*") (EVar (js "p") (Span 0 1)) (ELit (LNum (n_of_Z 2)) true (Span 4 5)) (Span 0 5).
Definition sample_compiled : compiled := Compiled (js "p * 2") sample_expr [js "p"] [] [].

Lemma evaluate_depends_witness :
  evaluate (H := plain_host) sample_compiled (sample_ctx 7 1 0) [] (Some 0%Z) sample_expr
    (initial_state sample_compiled) =
  evaluate (H := plain_host) sample_compiled (sample_ctx 7 99 5) [] (Some 5%Z) sample_expr
    (initial_state sample_compiled) /\
  rv <$> (fst <$> ok_option (evaluate (H := plain_host) sample_compiled (sample_ctx 7 1 0) []
     (Some 0%Z) sample_expr (initial_state sample_compiled))) = Some (VNum (n_of_Z 14)).
Proof.
  split; [|vm_compute; reflexivity].
  apply (evaluate_depends (H := plain_host)). repeat constructor.
Defined.

(** ** Fixed prices *)

Definition no_marker (name : jsstr) : Prop := name <> js "tier" /\ name <> js "fixed".

(** The part of the state that pricing calls change. *)
Definition price_same (st st' : rstate) : Prop :=
  r_tier st' = r_tier st /\ r_unit st' = r_unit st /\ r_fixed st' = r_fixed st.

Lemma price_same_trans st1 st2 st3 : price_same st1 st2 -> price_same st2 st3 -> price_same st1 st3.
Proof. unfold price_same. intros (? & ? & ?) (? & ? & ?). split_and!; congruence. Qed.

Lemma price_step_rel `{Host} now_ : step_rel now_ no_marker price_same.
Proof.
  split; try done.
  - apply price_same_trans.
  - intros st x [_ Hf]. by destruct Hf.
  - intros st x [Hf _]. by destruct Hf.
Qed.

Lemma no_marker_calls e : containsPricingMarker e = Ok false -> only_calls no_marker e.
Proof.
  unfold containsPricingMarker. intros Hm.
  destruct (expressionDependencies e) as [[vs fs]|] eqn:Ed; [|done].
  pose proof (expressionDependencies_ok e vs fs Ed) as [_ Hf].
  injection Hm as Hm. apply orb_false_iff in Hm as [Ht Hx].
  intros n name Hn Hc. split; intros ->.
  - enough (In (js "tier") fs) as Hin%str_mem_In by congruence. apply Hf. eauto.
  - enough (In (js "fixed") fs) as Hin%str_mem_In by congruence. apply Hf. eauto.
Qed.

Lemma postorder_self e : In e (postorder e).
Proof. rewrite postorder_children, in_app_iff. right. by left. Qed.
Lemma postorder_child e x n : In x (children e) -> In n (postorder x) -> In n (postorder e).
Proof. intros Hx Hn. rewrite postorder_children, in_app_iff, in_flat_map. eauto. Qed.

Lemma postorder_trans e n m : In n (postorder e) -> In m (postorder n) -> In m (postorder e).
Proof.
  revert n. induction e as [e IH] using expr_rect_children. intros n.
  rewrite (postorder_children e), in_app_iff, in_flat_map. intros [(x & Hx & Hn)|[<-|[]]] Hm.
  - rewrite in_app_iff, in_flat_map. left. exists x. split; [done|]. by eapply IH.
  - by rewrite <- postorder_children.
Qed.

Lemma wf_self e : Forall node_wf (postorder e) -> node_wf e.
Proof. rewrite List.Forall_forall. intros Hw. apply Hw, postorder_self. Qed.
Lemma wf_child e x :
  Forall node_wf (postorder e) -> In x (children e) -> Forall node_wf (postorder x).
Proof. rewrite !List.Forall_forall. intros Hw Hx n Hn. by eapply Hw, postorder_child. Qed.

Lemma flat_map_nil {A B} (f : A -> list B) l : (forall x, In x l -> f x = []) -> flat_map f l = [].
Proof.
  induction l as [|x l IH]; intros Hf; [done|]. simpl. rewrite (Hf x) by (by left).
  apply IH. intros y Hy. apply Hf. by right.
Qed.

(** The pricing calls, [tier] and [fixed], met in evaluation order by a run that
    goes into the first branch of a conditional expression when [went] holds of
    its condition, and into the second otherwise. *)
Fixpoint pricing_calls (went : expr -> bool) (e : expr) : list expr :=
  match e with
  | ECall name args _ =>
      flat_map (pricing_calls went) args ++
      (if str_eqb name (js "tier") || str_eqb name (js "fixed") then [e] else [])
  | EUnary _ x _ => pricing_calls went x
  | EBinary _ l r _ => pricing_calls went l ++ pricing_calls went r
  | ECond cn y n _ =>
      pricing_calls went cn ++ (if went cn then pricing_calls went y else pricing_calls went n)
  | _ => []
  end.

(** The pricing calls of one leaf [tier(label, price)] alone: the [fixed] call of
    its price, if that is what it is, then the leaf itself. *)
Definition leaf_calls (label price : expr) (sp : span) : list expr :=
  match price with
  | ECall name _ _ => if str_eqb name (js "fixed") then [price] else []
  | _ => []
  end ++ [ECall (js "tier") [label; price] sp].

(** A node reached from the root through operands and through the branches the
    conditions chose. *)
Inductive reached (chose : expr -> bool -> Prop) : expr -> expr -> Prop :=
| reached_here e : reached chose e e
| reached_operand op l r sp x e :
    In x [l; r] -> reached chose x e -> reached chose (EBinary op l r sp) e
| reached_branch cn y n sp (b : bool) e :
    chose cn b -> reached chose (if b then y else n) e -> reached chose (ECond cn y n sp) e.

Lemma no_marker_pricing went e : only_calls no_marker e -> pricing_calls went e = [].
Proof.
  induction e as [e IH] using expr_rect_children. intros Ho.
  assert (Hx : forall x, In x (children e) -> pricing_calls went x = []).
  { intros x Hin. apply IH; [done|]. by eapply only_calls_child. }
  destruct e as [| |name args sp|op x sp|op l r sp|cn y n sp];
    cbn [pricing_calls children] in *; auto using in_eq.
  - rewrite flat_map_nil by done. simpl.
    destruct (Ho (ECall name args sp) name) as [Ht Hf]; [apply postorder_self|done|].
    by apply str_eqb_neq in Ht as ->; apply str_eqb_neq in Hf as ->.
  - by rewrite !Hx by (simpl; auto).
  - rewrite !Hx by (simpl; auto). by destruct (went cn).
Qed.

Lemma marker_pricing went e : containsPricingMarker e = Ok false -> pricing_calls went e = [].
Proof. intros Hm%no_marker_calls. by apply no_marker_pricing. Qed.

Lemma fixed_leaf_calls went e :
  Forall node_wf (postorder e) -> fixed_leaf e = Ok true ->
  exists label price sp, e = ECall (js "tier") [label; price] sp /\
    pricing_calls went e = leaf_calls label price sp.
Proof.
  intros Hw Hl. destruct e as [| |name args sp| | |]; try done. cbn [fixed_leaf] in Hl.
  destruct (str_eqb name (js "tier")) eqn:En; [|done]. apply str_eqb_eq in En as ->.
  pose proof (wf_self _ Hw) as Hn. cbn [node_wf] in Hn.
  destruct args as [|label [|price [|]]]; try discriminate Hn.
  cbn [lookup list_lookup] in Hl. exists label, price, sp. split; [done|].
  destruct (containsPricingMarker label) as [[]|] eqn:Hm; try done.
  cbn [pricing_calls flat_map]. rewrite (marker_pricing went label Hm). unfold leaf_calls.
  change (str_eqb (js "tier") (js "tier") || _) with true. cbn [app]. rewrite app_nil_r. f_equal.
  assert (Hother : (let? m := containsPricingMarker price in Ok (negb m)) = Ok true ->
    pricing_calls went price = []).
  { intros Ho. apply marker_pricing. by destruct (containsPricingMarker price) as [[]|]. }
  destruct price as [| |fname fargs fsp| | |]; cbn [fixed_price] in Hl; auto.
  destruct (str_eqb fname (js "fixed")) eqn:Ef; [|by auto]. apply str_eqb_eq in Ef as ->.
  assert (Hp : node_wf (ECall (js "fixed") fargs fsp)).
  { apply wf_self. eapply wf_child; [exact Hw|]. right. by left. }
  cbn [node_wf] in Hp. destruct fargs as [|a [|]]; try discriminate Hp.
  cbn [lookup list_lookup] in Hl. by destruct a as [[]| | | | |].
Qed.

Section fixed.
Context `{Host}.
Variable c : compiled.
Variable ctx : context.
Variable hdrs : list (jsstr * jsstr).
Variable now_ : date.
Abbreviation evaluate := (evaluate c ctx hdrs now_).

Lemma evaluate_no_marker e st v st' :
  only_calls no_marker e -> evaluate e st = Ok (v, st') -> price_same st st'.
Proof.
  intros Ho. apply (evaluate_rel c ctx hdrs now_ no_marker); [apply price_step_rel|done|done].
Qed.

(** Evaluation priced the request by this leaf: the tier is the value of its label,
    and the unit and the fixed price follow its price expression. *)
Definition priced_by (leaf : expr) (st st' : rstate) : Prop :=
  exists label price rest sp s st1 st2,
    leaf = ECall (js "tier") (label :: price :: rest) sp /\
    string_arg evaluate label st1 = Ok (s, st2) /\ r_tier st' = s /\
    ((exists a i asp fsp more,
        price = ECall (js "fixed") (ELit (LNum a) i asp :: more) fsp /\
        n_geb a n_zero = true /\ r_unit st' = Urequest /\ r_fixed st' = Some a) \/
     (only_calls no_marker price /\ r_unit st' = r_unit st /\ r_fixed st' = r_fixed st)).

Lemma priced_by_shift leaf st st1 st2 st' :
  price_same st st1 -> price_same st2 st' -> priced_by leaf st1 st2 -> priced_by leaf st st'.
Proof.
  intros (_ & Hu & Hf) (Ht' & Hu' & Hf') (label & price & rest & sp & s & sa & sb & -> & Hs & Ht & Hp).
  exists label, price, rest, sp, s, sa, sb. split; [done|]. split; [done|]. split; [congruence|].
  destruct Hp as [(a & i & asp & fsp & more & Hp & Ha & Hx & Hy)|(Hp & Hx & Hy)].
  - left. exists a, i, asp, fsp, more. split; [done|]. split; [done|]. split; congruence.
  - right. split; [done|]. split; congruence.
Qed.

Lemma evaluate_inv e st v st' :
  evaluate e st = Ok (v, st') ->
  exists v1 st1, evaluateNode c ctx hdrs now_ evaluate e (set_r_depth (r_depth st + 1) st) = Ok (v1, st1) /\
    price_same st1 st' /\ check_value e v1 = Ok v.
Proof.
  rewrite evaluate_unfold. destruct (256 <? _)%Z; [done|].
  destruct (evaluateNode _ _ _ _ _ _ _) as [[v1 st1]|]; [|done].
  intros He. inv_ok He. eexists _, _. split; [done|]. done.
Qed.

Lemma numeric_inv x st n i st' :
  numeric evaluate x st = Ok (n, i, st') -> exists v, evaluate x st = Ok (v, st') /\ rv v = VNum n.
Proof. unfold numeric. intros Hn. inv_ok Hn. eauto. Qed.

Lemma fixed_call_inv a i asp more fsp st v st' :
  evaluate (ECall (js "fixed") (ELit (LNum a) i asp :: more) fsp) st = Ok (v, st') ->
  r_unit st' = Urequest /\ r_fixed st' = Some a /\ is_finite a = true.
Proof.
  intros He. apply evaluate_inv in He as (v1 & st1 & Hn & (Ht & Hu & Hf) & _).
  cbn [evaluateNode] in Hn. unfold call in Hn.
  change (negb (known_function (js "fixed"))) with false in Hn.
  change (str_eqb (js "fixed") (js "fixed")) with true in Hn. cbv iota in Hn.
  destruct (numeric _ _ _) as [[[amount ia] st2]|] eqn:Ha; [|done].
  apply numeric_inv in Ha as (va & Ha & Hva).
  apply evaluate_inv in Ha as (v2 & st3 & Hl & _ & Hc). cbn [evaluateNode] in Hl.
  injection Hl as <- <-. unfold check_value in Hc. cbn [rv literal_value] in Hc.
  destruct (is_finite a) eqn:Ea; cbn [negb] in Hc; [|done]. inv_ok Hc. done.
Qed.

Lemma tier_call_inv label price rest sp st v st' :
  evaluate (ECall (js "tier") (label :: price :: rest) sp) st = Ok (v, st') ->
  exists s st0 sta vp stb,
    price_same st st0 /\ string_arg evaluate label st0 = Ok (s, sta) /\
    evaluate price sta = Ok (vp, stb) /\
    r_tier st' = s /\ r_unit st' = r_unit stb /\ r_fixed st' = r_fixed stb.
Proof.
  intros He. apply evaluate_inv in He as (v1 & st1 & Hn & (Ht & Hu & Hf) & _).
  cbn [evaluateNode] in Hn. unfold call in Hn.
  change (negb (known_function (js "tier"))) with false in Hn.
  change (str_eqb (js "tier") (js "fixed")) with false in Hn.
  change (str_eqb (js "tier") (js "tier")) with true in Hn. cbv iota in Hn.
  destruct (string_arg evaluate label _) as [[s st2]|] eqn:Hs; [|done].
  destruct (numeric evaluate price st2) as [[[x ix] st3]|] eqn:Hx; [|done].
  injection Hn as <- <-. apply numeric_inv in Hx as (vx & Hx & _).
  eexists s, _, st2, vx, st3. split; [|split; [exact Hs|]]; done.
Qed.

Lemma fixed_leaf_priced e st v st' :
  fixed_leaf e = Ok true -> evaluate e st = Ok (v, st') -> priced_by e st st'.
Proof.
  intros Hl He. destruct e as [| |name args sp| | |]; try done. cbn [fixed_leaf] in Hl.
  destruct (str_eqb name (js "tier")) eqn:En; [|done]. apply str_eqb_eq in En as ->.
  destruct args as [|label [|price rest]]; [done| |]; cbn [lookup list_lookup] in Hl.
  { destruct (containsPricingMarker label) as [[]|]; done. }
  destruct (containsPricingMarker label) as [[]|] eqn:Hm; [done| |done].
  apply no_marker_calls in Hm.
  apply tier_call_inv in He as (s & st0 & st2 & vx & st3 & Hs0 & Hs & Hx & Ht & Hu & Hf).
  assert (Hlab : price_same st st2).
  { eapply price_same_trans; [exact Hs0|].
    unfold string_arg in Hs. destruct (evaluate label _) as [[vl stl]|] eqn:El; [|done].
    apply evaluate_no_marker in El; [|done]. inv_ok Hs. exact El. }
  exists label, price, rest, sp, s, st0, st2.
  split; [done|]. split; [done|]. split; [done|].
  assert (Hplain : containsPricingMarker price = Ok false ->
    only_calls no_marker price /\ r_unit st' = r_unit st /\ r_fixed st' = r_fixed st).
  { intros Hp%no_marker_calls. split; [done|]. destruct Hlab as (_ & Hu1 & Hf1).
    apply evaluate_no_marker in Hx as (_ & Hu2 & Hf2); [|done]. simpl in *. split; congruence. }
  assert (Hother : (let? m := containsPricingMarker price in Ok (negb m)) = Ok true ->
    containsPricingMarker price = Ok false).
  { destruct (containsPricingMarker price) as [[]|]; done. }
  destruct price as [| |fname fargs fsp| | |]; try (right; by auto).
  cbn [fixed_price] in Hl. destruct (str_eqb fname (js "fixed")) eqn:Ef; [|right; by auto].
  apply str_eqb_eq in Ef as ->. destruct fargs as [|a more]; [done|]. cbn [lookup list_lookup] in Hl.
  destruct a as [[a| | |] i asp| | | | |]; try done. injection Hl as Hl.
  apply andb_true_iff in Hl as [Hge _]. left. exists a, i, asp, fsp, more.
  apply fixed_call_inv in Hx as (Hu1 & Hf1 & _). simpl in *.
  split; [done|]. split; [done|]. split; congruence.
Qed.

(** The rules are those of conditional nodes with literal branches. *)
Definition rules_shaped (rules : list request_rule) : Prop :=
  forall r, In r rules -> exists source e, rule_of source e = Some r.

Lemma rule_of_calls source e r :
  rule_of source e = Some r -> only_calls no_marker (rule_condition r) ->
  only_calls no_marker (rule_node r).
Proof.
  unfold rule_of. intros Hr Ho.
  destruct e as [| | | | |cn y n sp]; try done.
  destruct y as [[y| | |] iy spy| | | | |]; try done.
  destruct n as [[n| | |] inn spn| | | | |]; try done.
  destruct (_ && _); [|done]. injection Hr as <-. simpl in *.
  intros m name. rewrite postorder_children, in_app_iff. cbn [children flat_map].
  rewrite !in_app_iff. intros [[Hm|[[<-|[]]|[[<-|[]]|[]]]]|[<-|[]]]; simpl; try done.
  by apply Ho.
Qed.

Lemma neutral_factor_calls rules e :
  rules_shaped rules -> neutral_factor rules e = Ok true -> only_calls no_marker e.
Proof.
  intros Hr. unfold neutral_factor. destruct (is_image_count e) eqn:Ei.
  { intros _. destruct e; try done. by intros m f [<-|[]]. }
  destruct (find_rule rules e) as [r|] eqn:Ef; [|done].
  apply find_some in Ef as [Hin Heq]. apply expr_eqb_eq in Heq as <-.
  destruct (n_geb _ _); [|done].
  destruct (containsPricingMarker (rule_condition r)) as [[]|] eqn:Hm; [done| |done].
  intros _. apply no_marker_calls in Hm. destruct (Hr r Hin) as (source & e' & Hro).
  by eapply rule_of_calls.
Qed.

Lemma validate_leaf e :
  (let? ok := fixed_leaf e in if ok : bool then Ok tt else Err (fixed_error e)) = Ok tt ->
  fixed_leaf e = Ok true.
Proof. destruct (fixed_leaf e) as [[]|]; done. Qed.

(** A condition came out so in the evaluation. *)
Definition came_out (cn : expr) (b : bool) : Prop :=
  exists st st', boolean evaluate cn st = Ok (b, st').

Definition priced (e : expr) (st st' : rstate) : Prop :=
  exists leaf, reached came_out e leaf /\ priced_by leaf st st'.

Lemma priced_child e x st st1 st2 st' :
  (forall leaf, reached came_out x leaf -> reached came_out e leaf) ->
  price_same st st1 -> price_same st2 st' -> priced x st1 st2 -> priced e st st'.
Proof.
  intros Hx Hs Hs' (leaf & Hin & Hp). exists leaf. split; [by apply Hx|].
  by eapply priced_by_shift.
Qed.

Lemma validated_priced rules e :
  rules_shaped rules ->
  forall st v st', validateFixedPricingTree e rules = Ok tt -> evaluate e st = Ok (v, st') ->
  priced e st st'.
Proof.
  intros Hr. induction e as [e IH] using expr_rect_children. intros st v st' Hv He.
  assert (Hleaf : (let? ok := fixed_leaf e in if ok : bool then Ok tt else Err (fixed_error e)) = Ok tt ->
    priced e st st').
  { intros Hl%validate_leaf. exists e. split; [constructor|]. by eapply fixed_leaf_priced. }
  destruct e as [l i sp|name sp|name args sp|op x sp|op l r sp|cn y n sp];
    cbn [validateFixedPricingTree] in Hv; auto.
  - destruct (str_eqb op (js "*")) eqn:Eo; [|auto]. apply str_eqb_eq in Eo as ->.
    apply evaluate_inv in He as (v1 & st1 & Hn & Hsame & _). cbn [evaluateNode] in Hn.
    unfold binary in Hn. change (str_eqb (js "*") (js "&&")) with false in Hn.
    change (str_eqb (js "*") (js "||")) with false in Hn. cbv iota in Hn.
    destruct (evaluate l _) as [[vl stl]|] eqn:El; [|done].
    destruct (evaluate r stl) as [[vr str]|] eqn:Er; [|done].
    destruct (binary_op _ _ _ _); [|done]. injection Hn as <- <-.
    destruct (neutral_factor rules r) as [[]|] eqn:Nr; [| |done].
    + apply (evaluate_no_marker r) in Er; [|by eapply neutral_factor_calls].
      assert (Hp : priced l _ stl) by (eapply IH; [by left|exact Hv|exact El]).
      eapply priced_child; [| | |exact Hp]; [intros leaf; apply reached_operand; by left|done|].
      eapply price_same_trans; [exact Er|exact Hsame].
    + destruct (neutral_factor rules l) as [[]|] eqn:Nl; [|auto|done].
      apply (evaluate_no_marker l) in El; [|by eapply neutral_factor_calls].
      assert (Hp : priced r stl str) by (eapply IH; [right; by left|exact Hv|exact Er]).
      eapply priced_child; [| | |exact Hp]; [|exact El|exact Hsame].
      intros leaf. apply reached_operand. right. by left.
  - destruct (containsPricingMarker cn) as [[]|] eqn:Hm; [by auto| |done].
    apply no_marker_calls in Hm.
    destruct (validateFixedPricingTree y rules) as [[]|] eqn:Hy; [|done].
    apply evaluate_inv in He as (v1 & st1 & Hn & Hsame & _). cbn [evaluateNode] in Hn.
    destruct (boolean evaluate cn _) as [[b stc]|] eqn:Eb; [|done].
    assert (Hout : came_out cn b) by (by eexists _, _). unfold boolean in Eb.
    destruct (evaluate cn _) as [[vc std]|] eqn:Ec; [|done].
    apply evaluate_no_marker in Ec; [|done].
    assert (std = stc) as -> by (destruct (rv vc); (discriminate Eb || by injection Eb)). clear Eb.
    set (st2 := match rule_index c _ with Some i => _ | None => _ end) in Hn.
    assert (Hs2 : price_same st st2).
    { eapply price_same_trans; [exact Ec|]. subst st2.
      destruct (rule_index _ _), b; done. }
    destruct b.
    + eapply priced_child; [by intros leaf; apply reached_branch|exact Hs2|exact Hsame|].
      eapply IH; [right; by left|done|exact Hn].
    + eapply priced_child; [by intros leaf; apply reached_branch|exact Hs2|exact Hsame|].
      eapply IH; [do 2 right; by left|done|exact Hn].
Qed.
End fixed.

Lemma leaf_of_calls went e : Forall node_wf (postorder e) ->
  (let? ok := fixed_leaf e in if ok : bool then Ok tt else Err (fixed_error e)) = Ok tt ->
  exists label price sp, reached (fun cn b => went cn = b) e (ECall (js "tier") [label; price] sp) /\
    pricing_calls went e = leaf_calls label price sp.
Proof.
  intros Hw Hl%validate_leaf. destruct (fixed_leaf_calls went e Hw Hl) as (label & price & sp & -> & Hp).
  exists label, price, sp. split; [constructor|exact Hp].
Qed.

(** Whichever branches a run goes into, the pricing calls of a validated tree are
    those of one leaf. *)
Lemma validated_calls went rules e :
  rules_shaped rules -> Forall node_wf (postorder e) -> validateFixedPricingTree e rules = Ok tt ->
  exists label price sp, reached (fun cn b => went cn = b) e (ECall (js "tier") [label; price] sp) /\
    pricing_calls went e = leaf_calls label price sp.
Proof.
  intros Hr. induction e as [e IH] using expr_rect_children. intros Hw Hv.
  assert (IHc : forall x, In x (children e) -> validateFixedPricingTree x rules = Ok tt ->
    exists label price sp, reached (fun cn b => went cn = b) x (ECall (js "tier") [label; price] sp) /\
      pricing_calls went x = leaf_calls label price sp).
  { intros x Hx. apply IH; [done|]. by eapply wf_child. }
  pose proof (leaf_of_calls went e Hw) as Hleaf.
  destruct e as [l i sp|name sp|name args sp|op x sp|op l r sp|cn y n sp];
    cbn [validateFixedPricingTree] in Hv; cbn [children] in IHc; auto.
  - destruct (str_eqb op (js "*")); [|by auto].
    destruct (neutral_factor rules r) as [[]|] eqn:Nr; [| |done].
    + destruct (IHc l) as (label & price & sp' & Hl & Hp); [by left|done|].
      exists label, price, sp'. cbn [pricing_calls].
      rewrite (no_marker_pricing went r), app_nil_r by (by eapply neutral_factor_calls).
      split; [|exact Hp]. eapply reached_operand; [by left|exact Hl].
    + destruct (neutral_factor rules l) as [[]|] eqn:Nl; [|by auto|done].
      destruct (IHc r) as (label & price & sp' & Hl & Hp); [right; by left|done|].
      exists label, price, sp'. cbn [pricing_calls].
      rewrite (no_marker_pricing went l) by (by eapply neutral_factor_calls).
      split; [|exact Hp]. eapply reached_operand; [right; by left|exact Hl].
  - destruct (containsPricingMarker cn) as [[]|] eqn:Hm; [by auto| |done].
    destruct (validateFixedPricingTree y rules) as [[]|] eqn:Hy; [|done].
    destruct (IHc (if went cn then y else n)) as (label & price & sp' & Hl & Hp);
      [destruct (went cn); simpl; auto|by destruct (went cn)|].
    exists label, price, sp'. cbn [pricing_calls]. rewrite (marker_pricing went cn Hm).
    split; [by apply reached_branch with (went cn)|]. by destruct (went cn).
Qed.

Lemma reached_postorder chose e leaf : reached chose e leaf -> In leaf (postorder e).
Proof.
  induction 1 as [e|op l r sp x e Hx _ IH|cn y n sp b e _ _ IH]; [apply postorder_self| |].
  - by eapply postorder_child.
  - eapply postorder_child; [|exact IH]. destruct b; simpl; auto.
Qed.

Lemma compiled_rules_shaped source cm : compile_expr source = Ok cm -> rules_shaped (c_rules cm).
Proof.
  intros Hc. apply compile_expr_ok in Hc as [_ (_ & _ & _ & _ & _ & -> & _)].
  intros r Hin. apply list_elem_of_In, list_elem_of_omap in Hin as (e & _ & He). eauto.
Qed.

(** The pricing of an evaluation by a leaf [tier(label, price)]: the leaf lies in
    the branches its conditions chose, the matched tier is the value of its
    label, and its price is a [fixed] literal, reported as the price per
    request, or an expression without [fixed], priced by tokens. *)
Definition priced_leaf `{Host} (cm : compiled) (ctx : context) (v : evaluation) : Prop :=
  exists hdrs label price sp,
    runtime_headers ctx = Ok hdrs /\
    reached (came_out cm ctx hdrs (context_now ctx)) (c_ast cm) (ECall (js "tier") [label; price] sp) /\
    (exists st st', string_arg (evaluate cm ctx hdrs (context_now ctx)) label st =
                    Ok (matchedTier v, st')) /\
    ((exists a i asp fsp,
        price = ECall (js "fixed") [ELit (LNum a) i asp] fsp /\
        n_geb a n_zero = true /\ billingUnit v = Urequest /\ fixedPrice v = Some a) \/
     (only_calls no_marker price /\ billingUnit v = Utoken /\ fixedPrice v = None)).

(** The pricing calls of a tree, whichever way a run goes through its conditional
    expressions, are those of exactly one leaf, which lies on that way. *)
Definition one_leaf (e : expr) : Prop :=
  forall went, exists label price sp,
    reached (fun cn b => went cn = b) e (ECall (js "tier") [label; price] sp) /\
    pricing_calls went e = leaf_calls label price sp.

(** C13: an expression that compiles and calls [fixed] prices a request by exactly
    one of its [tier] leaves. Whichever way a run goes through its conditional
    expressions, the [tier] and [fixed] calls it meets are one leaf
    [tier(label, price)] and, when that price is a [fixed] call, this call, and
    no other. When its evaluation succeeds, the leaf in the branches the
    conditions chose gives the matched tier, the value of its label, and the
    result is a fixed price per request equal to the non-negative literal of
    [fixed] when the leaf is [tier(label, fixed(amount))], and a token price
    otherwise. *)
Theorem fixed_price_by_leaf `{Host} source cm ctx v :
  compile_expr source = Ok cm -> In (js "fixed") (c_functions cm) ->
  run_compiled cm ctx = Ok v ->
  one_leaf (c_ast cm) /\ priced_leaf cm ctx v.
Proof.
  intros Hc Hf Hr. pose proof (compile_expr_ok source cm Hc) as [_ (_ & _ & _ & _ & _ & _ & Hv)].
  pose proof (compiled_rules_shaped source cm Hc) as Hsh.
  pose proof (compiled_nodes source cm Hc) as Hw.
  split; [intros went; eapply validated_calls; by auto|].
  unfold run_compiled in Hr. destruct (foldM check_token _ _); [|done].
  destruct (runtime_headers ctx) as [hdrs|] eqn:Eh; [|done].
  destruct (evaluate _ _ _ _ _ _) as [[x st]|] eqn:He; [|done].
  eapply validated_priced in He as (leaf & Hin & Hp); [|exact Hsh|by apply Hv].
  destruct Hp as (label & price & rest & sp & s & st1 & st2 & -> & Hs & Ht & Hp).
  destruct (rv x); try done. destruct (_ || _); [done|]. injection Hr as <-. simpl in *.
  assert (Hwl : Forall node_wf (postorder (ECall (js "tier") (label :: price :: rest) sp))).
  { rewrite List.Forall_forall in Hw |- *. intros n Hn.
    eapply Hw, postorder_trans; [by eapply reached_postorder|exact Hn]. }
  pose proof (wf_self _ Hwl) as Hn. destruct rest; [|discriminate Hn].
  exists hdrs, label, price, sp. split; [done|]. split; [done|]. split; [subst s; eauto|].
  destruct Hp as [(am & i & asp & fsp & more & -> & Hp)|Hp]; [|by right].
  apply wf_child with (x := ECall (js "fixed") (ELit (LNum am) i asp :: more) fsp) in Hwl;
    [|right; by left].
  pose proof (wf_self _ Hwl) as Hm. destruct more; [|discriminate Hm].
  left. exists am, i, asp, fsp. by split.
Qed.

Definition fixed_source : jsstr :=
  jq "len > 100 ? tier('big', fixed(2)) * (param('fast') == true ? 3 : 1) : tier('small', p * 2)".
Definition fixed_ctx : context :=
  Context None (Some [(js "len", VNum (n_of_Z 200))])
    (Some (Request (VObj [(js "fast", VBool true)]) None)) None None.

Lemma fixed_price_by_leaf_witness :
  match compile_expr fixed_source with
  | Ok cm =>
      match run_compiled (H := plain_host) cm fixed_ctx with
      | Ok v =>
          one_leaf (c_ast cm) /\ priced_leaf (H := plain_host) cm fixed_ctx v /\
          fixedPrice v = Some (n_of_Z 2) /\
          map (fun b => length (pricing_calls (fun _ => b) (c_ast cm))) [true; false] = [2; 1]
      | Err _ => False
      end
  | Err _ => False
  end.
Proof.
  destruct (compile_expr fixed_source) as [cm|] eqn:Hc; [|vm_compute in Hc; discriminate Hc].
  destruct (run_compiled (H := plain_host) cm fixed_ctx) as [v|] eqn:Hr.
  - apply and_assoc. split.
    + apply (fixed_price_by_leaf (H := plain_host) fixed_source cm fixed_ctx v Hc); [|exact Hr].
      vm_compute in Hc. injection Hc as <-. vm_compute. repeat (try (left; reflexivity); right).
    + vm_compute in Hc. injection Hc as <-. vm_compute in Hr. injection Hr as <-.
      split; vm_compute; reflexivity.
  - vm_compute in Hc. injection Hc as <-. vm_compute in Hr. discriminate Hr.
Defined.
