(* ===== verification/ExprInputsSpec.v ===== *)
(** * Request paths and calendar fields

    An escaped path reaches the member it names, and the UTC fields of an instant
    are those of its Gregorian date. *)

From S2P Require Import Prelude JsString JsNumber JsRegex JsValue ExprTypes ExprRuntime.

(** ** Paths *)

(** A key with the characters that have a meaning in a path escaped. *)
Definition escape_char (x : N) : jsstr :=
  if N.eqb x 92 || N.eqb x 46 || path_reserved x then [92%N; x] else [x].
Definition escape_key (k : jsstr) : jsstr := flat_map escape_char k.

(** The member of nested objects a list of keys leads to. *)
Fixpoint deep_get (v : jsval) (keys : list jsstr) : option jsval :=
  match keys with
  | [] => Some v
  | k :: ks =>
      match v with
      | VObj o => match prop_get k o with Some v' => deep_get v' ks | None => None end
      | _ => None
      end
  end.

Lemma split_path_escape path k : forall rest part parts,
  split_path path (escape_key k ++ rest) part parts = split_path path rest (part ++ k) parts.
Proof.
  induction k as [|x k IH]; intros rest part parts; cbn [escape_key flat_map app].
  { by rewrite app_nil_r. }
  rewrite <- app_assoc. unfold escape_char at 1.
  destruct (N.eqb x 92 || N.eqb x 46 || path_reserved x) eqn:E.
  - cbn [app split_path]. change (N.eqb 92 92) with true. cbv iota.
    fold (escape_key k). rewrite IH, <- app_assoc. done.
  - apply orb_false_iff in E as [[E1 E2]%orb_false_iff E3].
    cbn [app split_path]. rewrite E1, E2, E3. fold (escape_key k).
    by rewrite IH, <- app_assoc.
Qed.

Lemma split_path_join path keys : forall parts,
  keys <> [] ->
  split_path path (join (js ".") (map escape_key keys)) [] parts = Ok (parts ++ keys).
Proof.
  induction keys as [|k keys IH]; intros parts Hne; [done|].
  destruct keys as [|k2 keys].
  - cbn [map join]. rewrite <- (app_nil_r (escape_key k)), split_path_escape. done.
  - change (join (js ".") (map escape_key (k :: k2 :: keys)))
      with (escape_key k ++ js "." ++ join (js ".") (map escape_key (k2 :: keys))).
    rewrite split_path_escape. cbn [app js].
    change (js ".") with [46%N]. cbn [app split_path]. change (N.eqb 46 92) with false.
    change (N.eqb 46 46) with true. cbv iota. rewrite IH by done. by rewrite <- app_assoc.
Qed.

Lemma walk_deep path keys : forall v w,
  deep_get v keys = Some w -> walk_path path v keys = Ok (nullish_to_null w).
Proof.
  induction keys as [|k ks IH]; intros v w; cbn [deep_get walk_path].
  - by intros [= ->].
  - destruct v; try done. destruct (prop_get k o); [apply IH|done].
Qed.

(** For any keys, the path that joins them with dots, each special character
    escaped by a backslash, reads the member of nested objects the keys lead
    to, with [undefined] read as [null]. *)
Theorem readRequestPath_escaped body keys w :
  let path := join (js ".") (map escape_key keys) in
  path <> [] -> trimmed path = true -> deep_get body keys = Some w ->
  readRequestPath body path = Ok (nullish_to_null w).
Proof.
  intros path Hne Ht Hd. unfold readRequestPath. rewrite (trim_id path Ht).
  assert (Hk : keys <> []) by (intros ->; done).
  destruct path as [|x l] eqn:Ep; [done|]. cbn zeta. change (negb (truthy_str (x :: l))) with false.
  cbv iota. rewrite <- Ep. unfold path. rewrite split_path_join by done. by apply walk_deep.
Qed.

Lemma readRequestPath_escaped_witness :
  readRequestPath (VObj [(js "a.b", VObj [(js "c*", VNum (n_of_Z 5))])]) (js "a\.b.c\*") =
  Ok (VNum (n_of_Z 5)).
Proof.
  apply (readRequestPath_escaped
    (VObj [(js "a.b", VObj [(js "c*", VNum (n_of_Z 5))])]) [js "a.b"; js "c*"] (VNum (n_of_Z 5)));
    vm_compute; [discriminate|reflexivity|reflexivity].
Defined.

(** ** The Gregorian calendar *)

Open Scope Z_scope.

(** [lia] reasons about division by constants in this part. *)
Local Ltac Zify.zify_post_hook ::= Z.div_mod_to_equations.

Definition leap (y : Z) : bool :=
  (y mod 4 =? 0) && negb (y mod 100 =? 0) || (y mod 400 =? 0).
Definition month_length (y m : Z) : Z :=
  if m =? 2 then (if leap y then 29 else 28)
  else if (m =? 4) || (m =? 6) || (m =? 9) || (m =? 11) then 30 else 31.
(** Days of the months before month [m], and of the years before year [y]. *)
Definition days_before_month (y m : Z) : Z :=
  fold_left (fun acc k => if k <? m then acc + month_length y k else acc)
    [1; 2; 3; 4; 5; 6; 7; 8; 9; 10; 11; 12] 0.
Definition days_before_year (y : Z) : Z :=
  365 * (y - 1) + (y - 1) / 4 - (y - 1) / 100 + (y - 1) / 400.

(** Day number, from 1970-01-01, of a date. *)
Definition day_number (y m d : Z) : Z :=
  days_before_year y + days_before_month y m + (d - 1) - days_before_year 1970.

(** Numbers below [n]. *)
Definition all_below (p : Z -> bool) (n : nat) : bool :=
  forallb (fun k => p (Z.of_nat k)) (seq 0 n).

Lemma all_below_spec p n z : all_below p n = true -> 0 <= z < Z.of_nat n -> p z = true.
Proof.
  unfold all_below. rewrite forallb_forall. intros Hp Hz.
  rewrite <- (Z2Nat.id z) by lia. apply Hp, in_seq. lia.
Qed.

(** Year of the era: years start in March and are counted from March 1 of a year
    divisible by 400. *)
Definition era_days (doe : Z) : Z := doe - doe / 1460 + doe / 36524 - doe / 146096.
Definition year_start (y : Z) : Z := 365 * y + y / 4 - y / 100.
Definition year_end (y : Z) : Z := if y =? 399 then 146097 else year_start (y + 1).

Lemma era_days_mono a b : a <= b -> era_days a <= era_days b.
Proof.
  assert (Hs : forall x, era_days x <= era_days (x + 1)).
  { intros x. unfold era_days.
    replace (x / 146096) with (x / 36524 / 4) by (rewrite Z.div_div by lia; f_equal; lia).
    replace ((x + 1) / 146096) with ((x + 1) / 36524 / 4) by (rewrite Z.div_div by lia; f_equal; lia).
    assert ((x + 1) / 1460 <= x / 1460 + 1) by lia.
    assert (x / 36524 <= (x + 1) / 36524) by (apply Z.div_le_mono; lia).
    generalize dependent ((x + 1) / 36524). generalize (x / 36524). lia. }
  intros Hab. rewrite <- (Zplus_minus a b). assert (Hk : 0 <= b - a) by lia. revert Hk.
  generalize (b - a). apply natlike_ind; [by rewrite Z.add_0_r|].
  intros k _ IH. specialize (Hs (a + k)). rewrite <- Z.add_1_r, Z.add_assoc. lia.
Qed.

Lemma year_bounds_ok :
  all_below (fun y => (365 * y <=? era_days (year_start y)) &&
                      (era_days (year_end y - 1) <? 365 * (y + 1))) 400 = true.
Proof. vm_compute. reflexivity. Qed.

(** The month and the day within a year that starts in March. *)
Definition month_day (doy : Z) : Z * Z :=
  let mp := (5 * doy + 2) / 153 in
  (if mp <? 10 then mp + 3 else mp - 9, doy - (153 * mp + 2) / 5 + 1).

Lemma month_day_ok :
  all_below (fun doy =>
    let '(m, d) := month_day doy in
    (1 <=? d) && (1 <=? m) && (m <=? 12) &&
    (if m <=? 2
     then (31 * (m - 1) + (d - 1) =? doy - 306) &&
          (d <=? (if m =? 1 then 31 else if doy =? 365 then 29 else 28))
     else (days_before_month 1 m + (d - 1) =? doy + 59) && (d <=? month_length 1 m))) 366 = true.
Proof. vm_compute. reflexivity. Qed.

Lemma year_of_era doe :
  0 <= doe < 146097 ->
  let y := era_days doe / 365 in
  0 <= y < 400 /\ year_start y <= doe < year_end y.
Proof.
  intros Hd. cbn zeta. set (y := era_days doe / 365).
  assert (Hy : 365 * y <= era_days doe < 365 * (y + 1)).
  { unfold y. pose proof (Z.div_mod (era_days doe) 365 ltac:(lia)).
    pose proof (Z.mod_pos_bound (era_days doe) 365 ltac:(lia)). lia. }
  assert (H0 : 0 <= era_days doe) by (apply (era_days_mono 0); lia).
  assert (H1 : era_days doe <= 145999) by (apply (era_days_mono _ 146096); lia).
  assert (Hr : 0 <= y < 400) by lia. split; [done|].
  assert (Hb : forall z, 0 <= z < 400 ->
    365 * z <= era_days (year_start z) /\ era_days (year_end z - 1) < 365 * (z + 1)).
  { intros z Hz. pose proof (all_below_spec _ _ z year_bounds_ok ltac:(lia)) as Hc.
    cbv beta in Hc. bprop. lia. }
  split.
  - destruct (Z.eq_dec y 0) as [->|Hne]; [change (year_start 0) with 0; lia|].
    destruct (Z.lt_ge_cases doe (year_start y)); [|done]. destruct (Hb (y - 1)) as [_ Hb1]; [lia|].
    unfold year_end in Hb1. destruct (Z.eqb_spec (y - 1) 399); [lia|].
    rewrite Z.sub_add in Hb1. pose proof (era_days_mono doe (year_start y - 1)). lia.
  - unfold year_end. destruct (Z.eqb_spec y 399); [lia|].
    destruct (Z.lt_ge_cases doe (year_start (y + 1))); [done|].
    destruct (Hb (y + 1)) as [Hb1 _]; [lia|]. pose proof (era_days_mono (year_start (y + 1)) doe). lia.
Qed.

Lemma leap_step y : (if leap y then 1 else 0) =
  (y / 4 - (y - 1) / 4) - (y / 100 - (y - 1) / 100) + (y / 400 - (y - 1) / 400).
Proof.
  unfold leap. destruct (Z.eqb_spec (y mod 4) 0), (Z.eqb_spec (y mod 100) 0), (Z.eqb_spec (y mod 400) 0);
    cbn [negb andb orb]; lia.
Qed.

Lemma days_before_month_leap y m : 3 <= m <= 12 ->
  days_before_month y m = days_before_month 1 m + (if leap y then 1 else 0) /\
  month_length y m = month_length 1 m.
Proof.
  intros Hm. assert (m = 3 \/ m = 4 \/ m = 5 \/ m = 6 \/ m = 7 \/ m = 8 \/ m = 9 \/ m = 10 \/
    m = 11 \/ m = 12) as Hc by lia.
  unfold days_before_month, month_length. change (leap 1) with false.
  repeat destruct Hc as [->|Hc]; [..|subst m]; destruct (leap y); done.
Qed.

Lemma days_before_year_era y k : days_before_year (y + k * 400) = days_before_year y + k * 146097.
Proof. unfold days_before_year. lia. Qed.

Lemma leap_era y k : leap (y + k * 400) = leap y.
Proof.
  pose proof (leap_step (y + k * 400)) as H1. pose proof (leap_step y) as H2.
  destruct (leap (y + k * 400)), (leap y); lia.
Qed.

Lemma date_era y m d k :
  day_number (y + k * 400) m d = day_number y m d + k * 146097 /\
  month_length (y + k * 400) m = month_length y m.
Proof.
  assert (Hm : forall k', month_length (y + k * 400) k' = month_length y k').
  { intros k'. unfold month_length. by rewrite leap_era. }
  split; [|done]. unfold day_number. rewrite days_before_year_era.
  enough (days_before_month (y + k * 400) m = days_before_month y m) by lia.
  unfold days_before_month. generalize [1; 2; 3; 4; 5; 6; 7; 8; 9; 10; 11; 12], 0.
  intros l. induction l as [|x l IH]; intros acc; [done|]. cbn [fold_left]. by rewrite Hm, IH.
Qed.

(** A date of the era that starts at year 0. *)
Lemma civil_in_era y doy :
  0 <= y < 400 -> 0 <= doy -> year_start y + doy < year_end y ->
  let '(m, d) := month_day doy in
  let Y := y + (if m <=? 2 then 1 else 0) in
  1 <= m <= 12 /\ 1 <= d <= month_length Y m /\
  day_number Y m d = year_start y + doy - 719468.
Proof.
  intros Hy Hd He.
  assert (Hlen : doy < 365 + (if leap (y + 1) then 1 else 0)).
  { rewrite leap_step. unfold year_end, year_start in He. destruct (Z.eqb_spec y 399); [subst; lia|].
    rewrite Z.add_simpl_r. lia. }
  assert (Hlt : 0 <= doy < Z.of_nat 366) by (destruct (leap _); lia).
  pose proof (all_below_spec _ _ doy month_day_ok Hlt) as Hc. cbv beta in Hc.
  destruct (month_day doy) as [m d]. cbn zeta.
  assert (Hy0 : y / 400 = 0) by (apply Z.div_small; lia).
  assert (H1970 : days_before_year 1970 = 719162) by done.
  repeat (apply andb_true_iff in Hc as [Hc ?]). destruct (Z.leb_spec m 2) as [Hm|Hm].
  - assert (m = 1 \/ m = 2) as [-> | ->] by (bprop; lia); bprop;
      cbn [Z.eqb Pos.eqb] in *.
    + split; [lia|]. split; [change (month_length (y + 1) 1) with 31; lia|].
      unfold day_number. change (days_before_month (y + 1) 1) with 0. rewrite H1970.
      unfold days_before_year, year_start. rewrite Z.add_simpl_r. lia.
    + split; [lia|]. change (month_length (y + 1) 2) with (if leap (y + 1) then 29 else 28).
      split.
      * cbv iota in *. destruct (leap (y + 1)), (Z.eqb_spec doy 365); lia.
      * unfold day_number. change (days_before_month (y + 1) 2) with 31. rewrite H1970.
        unfold days_before_year, year_start. rewrite Z.add_simpl_r. lia.
  - bprop. destruct (days_before_month_leap y m) as [Hb Hl]; [lia|]. rewrite Z.add_0_r, Hl.
    split; [lia|]. split; [lia|]. unfold day_number. rewrite Hb, H1970, leap_step.
    unfold days_before_year, year_start. lia.
Qed.

Lemma civil_from_days_ok days :
  let '(y, m, d) := civil_from_days days in
  1 <= m <= 12 /\ 1 <= d <= month_length y m /\ day_number y m d = days.
Proof.
  unfold civil_from_days. set (z := days + 719468). cbn zeta.
  pose proof (Z.mod_pos_bound z 146097 ltac:(lia)) as Hb.
  fold (era_days (z mod 146097)). destruct (year_of_era _ Hb) as [Hy [Hs He]].
  set (y := era_days (z mod 146097) / 365) in *. fold (year_start y).
  set (doy := z mod 146097 - year_start y).
  assert (Hdoy : 0 <= doy /\ year_start y + doy < year_end y) by (unfold doy; split; [|rewrite Zplus_minus]; [apply Z.le_0_sub; exact Hs|exact He]).
  pose proof (civil_in_era y doy Hy (proj1 Hdoy) (proj2 Hdoy)) as Hc. unfold month_day in Hc. cbn zeta in Hc.
  destruct Hc as (Hm & Hd & Hn). split; [done|].
  match goal with |- context [month_length (y + ?a + ?b) _] =>
    replace (y + a + b) with (y + b + (z / 146097) * 400) by lia end.
  destruct (date_era (y + (if (if (5 * doy + 2) / 153 <? 10 then (5 * doy + 2) / 153 + 3
    else (5 * doy + 2) / 153 - 9) <=? 2 then 1 else 0))
    (if (5 * doy + 2) / 153 <? 10 then (5 * doy + 2) / 153 + 3 else (5 * doy + 2) / 153 - 9)
    (doy - (153 * ((5 * doy + 2) / 153) + 2) / 5 + 1) (z / 146097)) as [-> ->].
  split; [done|]. rewrite Hn. pose proof (Z.div_mod z 146097 ltac:(lia)). lia.
Qed.

(** For every instant, the UTC fields the engine falls back to are in range
    and are those of the Gregorian calendar: hours, minutes and weekday follow
    from the millisecond count, and month and day are the ones of the date
    whose day number is the instant's. *)
Theorem utc_fields_calendar t :
  let '(h, mi, w, mo, d) := utc_fields t in
  0 <= h < 24 /\ 0 <= mi < 60 /\ 0 <= w < 7 /\ 1 <= mo <= 12 /\
  exists y ms,
    1 <= d <= month_length y mo /\ 0 <= ms < 60000 /\
    t = ((day_number y mo d * 24 + h) * 60 + mi) * 60000 + ms /\
    w = (day_number y mo d + 4) mod 7.
Proof.
  unfold utc_fields. pose proof (civil_from_days_ok (t / 86400000)) as Hd. 
  destruct (civil_from_days (t / 86400000)) as [[y m] d]. destruct Hd as (Hm & Hd & Hn).
  split; [apply Z.mod_pos_bound; lia|]. split; [apply Z.mod_pos_bound; lia|].
  split; [apply Z.mod_pos_bound; lia|]. split; [lia|].
  exists y, (t mod 60000). split; [lia|]. split; [apply Z.mod_pos_bound; lia|].
  rewrite Hn. split; [|done].
  replace (t / 3600000) with (t / 60000 / 60) by (rewrite Z.div_div by lia; f_equal; lia).
  replace (t / 86400000) with (t / 60000 / 60 / 24)
    by (rewrite !Z.div_div by lia; f_equal; lia).
  pose proof (Z.div_mod t 60000 ltac:(lia)). pose proof (Z.div_mod (t / 60000) 60 ltac:(lia)).
  pose proof (Z.div_mod (t / 60000 / 60) 24 ltac:(lia)). lia.
Qed.
