(* ===== verification/ExprIntSpec.v ===== *)
(** * Integer arithmetic of the evaluator

    Numbers the evaluator knows to be integers are computed exactly: a result
    outside the safe integers is refused instead of rounded. *)

From S2P Require Import Prelude JsString JsNumber JsIntSpec JsValue ExprTypes ExprParser ExprCompile ExprRuntime ExprRuntimeSpec.

Local Open Scope Z_scope.

(** Integer expressions: integer literals, signs, [+], [-], [*] and [%]. *)
Definition INT_OPERATORS : list jsstr := map js ["+"; "-"; "*"; "%"]%string.

Fixpoint int_tree (e : expr) : bool :=
  match e with
  | ELit (LNum x) i _ => i && valid_num x && is_safe_integer x
  | EUnary op x _ => (str_eqb op (js "-") || str_eqb op (js "+")) && int_tree x
  | EBinary op l r _ => str_mem op INT_OPERATORS && int_tree l && int_tree r
  | _ => false
  end.

(** Arithmetic over [Z] in the range of the safe integers. *)
Definition in_safe_range (z : Z) : option Z := if Z.abs z <=? max_safe then Some z else None.

Definition exact_op (op : jsstr) (a b : Z) : option Z :=
  if str_eqb op (js "+") then in_safe_range (a + b)
  else if str_eqb op (js "-") then in_safe_range (a - b)
  else if str_eqb op (js "*") then in_safe_range (a * b)
  else if b =? 0 then None else Some (Z.rem a b).

Fixpoint exact_value (e : expr) : option Z :=
  match e with
  | ELit (LNum x) _ _ => int_value x
  | EUnary op x _ =>
      let! z := exact_value x in Some (if str_eqb op (js "-") then - z else z)
  | EBinary op l r _ =>
      let! a := exact_value l in
      let! b := exact_value r in
      exact_op op a b
  | _ => None
  end.

Definition int_val (x : num) : rval := RVal (VNum x) true.

Lemma check_safe e x z : safe_num x z -> check_value e (int_val x) = Ok (int_val x).
Proof.
  intros Hx. unfold check_value. cbn [rv int_val rint]. rewrite (safe_finite x z Hx).
  rewrite (int_num_safe x z (proj1 Hx)). cbn [negb andb].
  destruct Hx as [_ Hs]. apply Z.leb_le in Hs. by rewrite Hs.
Qed.

Lemma check_unsafe e x : is_safe_integer x = false -> exists err, check_value e (int_val x) = Err err.
Proof.
  intros Hx. unfold check_value. cbn [rv int_val rint]. rewrite Hx. cbn [negb andb].
  destruct (negb (is_finite x)); eauto.
Qed.

(** Rounding followed by the check is arithmetic in the safe range. *)
Lemma check_rounded e x z : rounds_to x z ->
  match in_safe_range z with
  | Some _ => check_value e (int_val x) = Ok (int_val x) /\ safe_num x z
  | None => exists err, check_value e (int_val x) = Err err
  end.
Proof.
  intros [Hs Hu]. unfold in_safe_range. destruct (Z.leb_spec (Z.abs z) max_safe).
  - assert (safe_num x z) by (split; [by apply Hs|done]). split; [by eapply check_safe|done].
  - apply check_unsafe. by apply Hu.
Qed.

Lemma int_op_exact op e x y a b :
  str_mem op INT_OPERATORS = true -> safe_num x a -> safe_num y b ->
  match exact_op op a b with
  | Some z => exists r, binary_op op (int_val x) (int_val y) e = Ok (int_val r) /\
                check_value e (int_val r) = Ok (int_val r) /\ safe_num r z
  | None => exists r err, binary_op op (int_val x) (int_val y) e = Ok (int_val r) /\
                check_value e (int_val r) = Err err
  end.
Proof.
  intros Hop Hx Hy. apply str_mem_In in Hop.
  assert (Hround : forall r z, rounds_to r z ->
    match in_safe_range z with
    | Some z' => exists r', @Ok berr rval (int_val r) = Ok (int_val r') /\
                   check_value e (int_val r') = Ok (int_val r') /\ safe_num r' z'
    | None => exists r' err, @Ok berr rval (int_val r) = Ok (int_val r') /\
                   check_value e (int_val r') = Err err
    end).
  { intros r z Hr. pose proof (check_rounded e r z Hr) as Hc. unfold in_safe_range in *.
    destruct (Z.abs z <=? max_safe); [destruct Hc; eauto|destruct Hc; eauto]. }
  destruct Hop as [<-|[<-|[<-|[<-|[]]]]].
  - apply (Hround (n_add x y)). by apply add_safe.
  - apply (Hround (n_sub x y)). by apply sub_safe.
  - apply (Hround (n_mul x y)). by apply mul_safe.
  - change (exact_op (js "%") a b) with (if b =? 0 then None else Some (Z.rem a b)).
    change (binary_op (js "%") (int_val x) (int_val y) e) with (@Ok berr rval (int_val (n_rem x y))).
    destruct (Z.eqb_spec b 0) as [->|Hb].
    + exists (n_rem x y). destruct (check_unsafe e (n_rem x y)) as [err Herr]; [|eauto].
      apply safe_cases in Hy as [[_ [s ->]]|[? _]]; [|done]. destruct Hx as [[_ Hx] _]. by destruct x.
    + exists (n_rem x y). split; [done|].
      assert (safe_num (n_rem x y) (Z.rem a b)) by by apply rem_safe.
      split; [by eapply check_safe|done].
Qed.

Section exact.
Context `{Host}.
Variable c : compiled.
Variable ctx : context.
Variable hdrs : list (jsstr * jsstr).
Variable now_ : date.

Abbreviation evaluate := (evaluate c ctx hdrs now_).

(** What evaluation of an integer expression with value [o] does. *)
Definition exactly (o : option Z) (st : rstate) (r : result berr (rval * rstate)) : Prop :=
  match o with
  | Some z => exists x st', r = Ok (int_val x, st') /\ safe_num x z /\ r_depth st' = r_depth st
  | None => exists err, r = Err err
  end.

Lemma evaluate_exactly e st v st1 o :
  r_depth st <= 255 ->
  evaluateNode c ctx hdrs now_ evaluate e (set_r_depth (r_depth st + 1) st) = Ok (v, st1) ->
  r_depth st1 = r_depth st + 1 ->
  match o with
  | Some z => exists x, v = int_val x /\ check_value e v = Ok v /\ safe_num x z
  | None => exists err, check_value e v = Err err
  end -> exactly o st (evaluate e st).
Proof.
  intros Hd Hn Hd1 Hc. rewrite evaluate_unfold. replace (256 <? r_depth st + 1) with false by lia.
  rewrite Hn. destruct o as [z|]; simpl.
  - destruct Hc as (x & -> & -> & Hx). eexists _, _. split; [done|]. split; [done|]. simpl. lia.
  - destruct Hc as [err ->]. eauto.
Qed.

Lemma evaluate_throws e st err :
  evaluateNode c ctx hdrs now_ evaluate e (set_r_depth (r_depth st + 1) st) = Err err ->
  exists err', evaluate e st = Err err'.
Proof.
  intros Hn. rewrite evaluate_unfold. destruct (256 <? r_depth st + 1); [by eexists|]. rewrite Hn. eauto.
Qed.

Lemma int_tree_exact e : forall st, int_tree e = true -> r_depth st + height e <= 255 ->
  0 <= r_depth st -> exactly (exact_value e) st (evaluate e st).
Proof.
  induction e as [l i sp|name sp|name args sp|op x IHx sp|op l IHl r IHr sp|cn IHc y IHy n IHn sp];
    intros st Ht Hd H0; try done.
  all: pose proof (fun e => height_nonneg e) as Hh.
  - destruct l as [x| | |]; try done. cbn [int_tree] in Ht. bprop. cbn [exact_value height] in *.
    unfold is_safe_integer in *. destruct (int_value x) as [z|] eqn:Hz; [|done].
    assert (Hx : safe_num x z) by (split; [done|by apply Z.leb_le]). subst i.
    eapply evaluate_exactly; [lia|done|done|]. exists x. split; [done|].
    split; [by eapply (check_safe _ x)|done].
  - cbn [int_tree exact_value height] in *. bprop. specialize (Hh x).
    specialize (IHx (set_r_depth (r_depth st + 1) st) ltac:(done) ltac:(simpl; lia) ltac:(simpl; lia)).
    assert (Hop : str_eqb op (js "!") = false).
    { match goal with H : _ || _ = true |- _ => apply orb_true_iff in H as [H|H] end;
        by match goal with H : str_eqb op _ = true |- _ => apply str_eqb_eq in H as -> end. }
    assert (Hn : evaluateNode c ctx hdrs now_ evaluate (EUnary op x sp) (set_r_depth (r_depth st + 1) st) =
      let? (v, i, st1) := numeric evaluate x (set_r_depth (r_depth st + 1) st) in
      Ok (RVal (VNum (if str_eqb op (js "-") then n_neg v else v)) i, st1)).
    { cbn [evaluateNode]. by rewrite Hop. }
    unfold numeric in Hn. destruct (exact_value x) as [z|].
    + destruct IHx as (v & st1 & He & Hv & Hst). rewrite He in Hn. cbn [rv int_val rint] in Hn.
      eapply (evaluate_exactly _ _ _ st1); [lia|exact Hn|exact Hst|]. eexists. split; [reflexivity|].
      assert (safe_num (if str_eqb op (js "-") then n_neg v else v) (if str_eqb op (js "-") then - z else z)).
      { destruct (str_eqb op (js "-")); [by apply neg_safe|done]. }
      split; [by eapply (check_safe _ (if str_eqb op (js "-") then n_neg v else v))|done].
    + destruct IHx as [err He]. rewrite He in Hn. by eapply evaluate_throws.
  - cbn [int_tree exact_value height] in *. bprop. specialize (Hh l).
    specialize (IHl (set_r_depth (r_depth st + 1) st) ltac:(done) ltac:(simpl; lia) ltac:(simpl; lia)).
    assert (Hn : evaluateNode c ctx hdrs now_ evaluate (EBinary op l r sp) (set_r_depth (r_depth st + 1) st) =
      let? (a, st1) := evaluate l (set_r_depth (r_depth st + 1) st) in
      let? (b, st2) := evaluate r st1 in
      let? v := binary_op op a b (EBinary op l r sp) in
      Ok (v, st2)).
    { cbn [evaluateNode]. unfold binary.
      match goal with H : str_mem op _ = true |- _ => apply str_mem_In in H as [<-|[<-|[<-|[<-|[]]]]] end; done. }
    destruct (exact_value l) as [a|]; [|destruct IHl as [err He]; rewrite He in Hn; by eapply evaluate_throws].
    destruct IHl as (x & st1 & He & Hx & Hst). rewrite He in Hn.
    specialize (IHr st1 ltac:(done) ltac:(rewrite Hst; simpl; lia) ltac:(rewrite Hst; simpl; lia)).
    destruct (exact_value r) as [b|]; [|destruct IHr as [err Her]; rewrite Her in Hn; by eapply evaluate_throws].
    destruct IHr as (y & st2 & Her & Hy & Hst2). rewrite Her in Hn.
    pose proof (int_op_exact op (EBinary op l r sp) x y a b ltac:(done) Hx Hy) as Hexact.
    destruct (exact_op op a b) as [z|].
    + destruct Hexact as (q & Hb & Hc & Hq). rewrite Hb in Hn.
      eapply evaluate_exactly; [lia|exact Hn|rewrite Hst2, Hst; done|]. eauto.
    + destruct Hexact as (q & err & Hb & Hc). rewrite Hb in Hn.
      eapply (evaluate_exactly _ _ _ _ None); [lia|exact Hn|rewrite Hst2, Hst; done|]. eauto.
Qed.

(** C28: integer arithmetic is exact or refused: an expression of integer
    literals, signs, [+], [-], [*] and [%] evaluates to the integer it denotes
    when every intermediate result is a safe integer and no remainder is by zero,
    and to an error otherwise; it never evaluates to a rounded integer. *)
Theorem integer_arithmetic_exact e st :
  int_tree e = true -> r_depth st = 0 -> height e <= 255 ->
  match exact_value e with
  | Some z => exists x st', evaluate e st = Ok (int_val x, st') /\ int_value x = Some z /\
                Z.abs z <= max_safe
  | None => exists err, evaluate e st = Err err
  end.
Proof.
  intros Ht Hd Hh. pose proof (int_tree_exact e st Ht ltac:(lia) ltac:(lia)) as He.
  destruct (exact_value e) as [z|]; [|exact He]. destruct He as (x & st' & He & [[_ Hx] Hz] & _). eauto.
Qed.
End exact.

(** [9007199254740991 * 2 % 7 - 3]: the product is refused; [123456789 * 1000 % 7 - 3] is exact. *)
Definition int_sample (s : string) : expr :=
  match parse (js s) with Ok e => e | Err _ => ELit LNull false (Span 0 0) end.

Lemma integer_arithmetic_exact_witness :
  exact_value (int_sample "123456789 * 1000 % 7 - 3") = Some 3 /\
  exact_value (int_sample "9007199254740991 * 2 % 7 - 3") = None /\
  (exists x st', evaluate (H := plain_host) sample_compiled (Context None None None None None) [] None
     (int_sample "123456789 * 1000 % 7 - 3") (initial_state sample_compiled) = Ok (int_val x, st') /\
     int_value x = Some 3 /\ Z.abs 3 <= max_safe) /\
  exists err, evaluate (H := plain_host) sample_compiled (Context None None None None None) [] None
     (int_sample "9007199254740991 * 2 % 7 - 3") (initial_state sample_compiled) = Err err.
Proof.
  assert (H1 : exact_value (int_sample "123456789 * 1000 % 7 - 3") = Some 3) by (vm_compute; reflexivity).
  assert (H2 : exact_value (int_sample "9007199254740991 * 2 % 7 - 3") = None) by (vm_compute; reflexivity).
  split; [exact H1|]. split; [exact H2|]. split.
  - pose proof (integer_arithmetic_exact (H := plain_host) sample_compiled (Context None None None None None)
      [] None (int_sample "123456789 * 1000 % 7 - 3") (initial_state sample_compiled)) as Hx.
    rewrite H1 in Hx. apply Hx; vm_compute; [reflexivity|reflexivity|discriminate].
  - pose proof (integer_arithmetic_exact (H := plain_host) sample_compiled (Context None None None None None)
      [] None (int_sample "9007199254740991 * 2 % 7 - 3") (initial_state sample_compiled)) as Hx.
    rewrite H2 in Hx. apply Hx; vm_compute; [reflexivity|reflexivity|discriminate].
Defined.
