(* ===== verification/ExprStructure.v ===== *)
(** * Structural helpers on source text

    Models [billing-expression/structure.ts]: splitting a source at an operator
    outside quotes and brackets, and removing outer parentheses.  Both work on
    text the parser may not accept. *)

From S2P Require Import Prelude JsString JsNumber JsValue.

(** ** Splitting *)

Definition is_quote (c : N) : bool := N.eqb c 34 || N.eqb c 39.
Definition is_open (c : N) : bool := N.eqb c 40 || N.eqb c 91 || N.eqb c 123.
Definition is_close (c : N) : bool := N.eqb c 41 || N.eqb c 93 || N.eqb c 125.

Definition next_depth (c : N) (depth : Z) : Z :=
  (depth + (if is_open c then 1 else 0) - (if is_close c then 1 else 0))%Z.

(** The loop of [splitExpressionAtTopLevel].  [cur] is the text since [start],
    [skip] the number of characters left of an operator just matched.  The
    result holds the untrimmed parts, [None] when a top-level [?] is met.  The
    operator is not empty: with an empty one the source loops for ever. *)
Fixpoint split_loop (operator rest cur : jsstr) (skip : nat) (depth : Z) (quote : option N)
  (parts : list jsstr) : option (list jsstr) :=
  match rest with
  | [] => Some (parts ++ [cur])
  | char :: r1 =>
      match skip with
      | S k => split_loop operator r1 cur k depth quote parts
      | O =>
          match quote with
          | Some q =>
              if N.eqb char 92 then
                match r1 with
                | [] => split_loop operator r1 (cur ++ [char]) 0 depth quote parts
                | escaped :: r2 =>
                    split_loop operator r2 (cur ++ [char; escaped]) 0 depth quote parts
                end
              else
                split_loop operator r1 (cur ++ [char]) 0 depth
                  (if N.eqb char q then None else quote) parts
          | None =>
              if is_quote char then
                split_loop operator r1 (cur ++ [char]) 0 depth (Some char) parts
              else
                let depth := next_depth char depth in
                if negb (Z.eqb depth 0) then
                  split_loop operator r1 (cur ++ [char]) 0 depth None parts
                else if N.eqb char 63 then None
                else if starts_with operator rest then
                  split_loop operator r1 [] (length operator - 1) depth None (parts ++ [cur])
                else split_loop operator r1 (cur ++ [char]) 0 depth None parts
          end
      end
  end.

Definition splitExpressionAtTopLevel (source operator : jsstr) : list jsstr :=
  match split_loop operator source [] 0 0 None [] with
  | None => [trim source]
  | Some pieces => List.filter truthy_str (map trim pieces)
  end.

(** ** Outer parentheses *)

(** The inner loop of [unwrapExpressionParens]: whether the bracket the first
    character opens is closed by the last one.  Without brackets the depth is
    zero after the first character. *)
Fixpoint closes_loop (rest : jsstr) (depth : Z) (quote : option N) : bool :=
  match rest with
  | [] => false
  | char :: r1 =>
      match quote with
      | Some q =>
          if N.eqb char 92 then
            match r1 with
            | [] => closes_loop r1 depth quote
            | _ :: r2 => closes_loop r2 depth quote
            end
          else closes_loop r1 depth (if N.eqb char q then None else quote)
      | None =>
          if is_quote char then closes_loop r1 depth (Some char)
          else
            let depth :=
              (depth + (if N.eqb char 40 then 1 else 0) - (if N.eqb char 41 then 1 else 0))%Z in
            if Z.eqb depth 0 then match r1 with [] => true | _ => false end
            else closes_loop r1 depth None
      end
  end.

Definition closesAtEnd (expression : jsstr) : bool := closes_loop expression 0 None.

(** [expression.slice(1, -1)] *)
Definition inner (s : jsstr) : jsstr := slice s 1 (length s - 1).

Fixpoint unwrap_loop (fuel : nat) (expression : jsstr) : jsstr :=
  match fuel with
  | O => expression
  | S f =>
      if starts_with (js "(") expression && ends_with (js ")") expression
         && closesAtEnd expression
      then unwrap_loop f (trim (inner expression))
      else expression
  end.

(** Every round drops two characters, so the length is fuel enough
    ([unwrap_enough]). *)
Definition unwrapExpressionParens (source : jsstr) : jsstr :=
  unwrap_loop (length source) (trim source).

Example split_ex :
  splitExpressionAtTopLevel (jq "a * (b * c) * 'x*y' ") (js "*") =
  [js "a"; js "(b * c)"; jq "'x*y'"].
Proof. reflexivity. Qed.
Example unwrap_ex : unwrapExpressionParens (js " ( (a)*(b) ) ") = js "(a)*(b)".
Proof. reflexivity. Qed.

(** ** Correctness of splitting *)

Lemma starts_with_drop p s : starts_with p s = true -> s = p ++ drop (length p) s.
Proof.
  intros (t & ->)%starts_with_inv. by rewrite drop_app_length.
Qed.

Lemma join_cons sep p ps : ps <> [] -> join sep (p :: ps) = p ++ sep ++ join sep ps.
Proof. destruct ps; done. Qed.

Definition fewer (n : nat) : Prop := forall operator rest cur skip depth quote parts pieces,
  length rest <= n -> operator <> [] -> skip <= length rest ->
  split_loop operator rest cur skip depth quote parts = Some pieces ->
  exists ps, ps <> [] /\ pieces = parts ++ ps /\ join operator ps = cur ++ drop skip rest.

Lemma split_loop_join n : fewer n.
Proof.
  induction n as [|n IH]; intros op rest cur skip depth quote parts pieces Hn Hop Hskip Hs.
  - destruct rest; [|simpl in Hn; lia]. simpl in Hskip. injection Hs as <-.
    exists [cur]. split; [done|]. split; [done|]. by rewrite drop_nil, app_nil_r.
  - destruct rest as [|x r1].
    { injection Hs as <-. exists [cur]. split; [done|]. split; [done|]. by rewrite drop_nil, app_nil_r. }
    simpl in Hn. cbn [split_loop] in Hs. destruct skip as [|k].
    2:{ simpl in Hskip. eapply IH in Hs; [|lia|done|lia]. exact Hs. }
    assert (Hone : forall d q, split_loop op r1 (cur ++ [x]) 0 d q parts = Some pieces ->
      exists ps, ps <> [] /\ pieces = parts ++ ps /\ join op ps = cur ++ x :: r1).
    { intros d q Hl. eapply IH in Hl as (ps & H0 & H1 & H2); [|lia|done|lia].
      exists ps. rewrite H2, <- app_assoc. done. }
    destruct quote as [q|].
    + destruct (N.eqb x 92); [|by apply Hone in Hs]. destruct r1 as [|y r2]; [by apply Hone in Hs|].
      eapply IH in Hs as (ps & H0 & H1 & H2); [|simpl in Hn; lia|done|lia].
      exists ps. rewrite H2, <- app_assoc. done.
    + destruct (is_quote x); [by apply Hone in Hs|]. cbn zeta in Hs.
      destruct (negb _); [by apply Hone in Hs|]. destruct (N.eqb x 63); [done|].
      destruct (starts_with op (x :: r1)) eqn:E; [|by apply Hone in Hs].
      apply starts_with_drop in E. destruct op as [|o op]; [done|].
      assert (Hlen : length (o :: op) <= S (length r1)).
      { apply (f_equal length) in E. rewrite length_app in E. simpl in *. lia. }
      simpl length in Hlen. eapply IH in Hs as (ps & H0 & H1 & H2); [|lia|done|simpl; lia].
      exists (cur :: ps). split; [done|]. split; [rewrite H1, <- app_assoc; done|].
      rewrite join_cons, H2 by done. rewrite app_nil_l. f_equal. symmetry.
      etransitivity; [exact E|]. simpl. by rewrite ?Nat.sub_0_r.
Qed.

(** Splitting at an operator loses nothing: either the source has a
    conditional at its top level and is returned whole, trimmed, or the result is
    the non-empty trimmed pieces of a decomposition of the source whose pieces,
    joined with the operator, are the source. *)
Theorem split_lossless source operator :
  operator <> [] ->
  splitExpressionAtTopLevel source operator = [trim source] \/
  exists pieces,
    join operator pieces = source /\
    splitExpressionAtTopLevel source operator = List.filter truthy_str (map trim pieces).
Proof.
  intros Hop. unfold splitExpressionAtTopLevel.
  destruct (split_loop operator source [] 0 0 None []) as [pieces|] eqn:E; [|by left].
  right. eapply (split_loop_join (length source)) in E as (ps & _ & -> & Hj); [|done|done|lia].
  exists ps. split; [exact Hj|done].
Qed.

Lemma split_lossless_witness :
  splitExpressionAtTopLevel (jq "p * 2 ? 1 : 0") (js "*") = [trim (jq "p * 2 ? 1 : 0")] \/
  exists pieces,
    join (js "*") pieces = jq "p * 2 ? 1 : 0" /\
    splitExpressionAtTopLevel (jq "p * 2 ? 1 : 0") (js "*") =
      List.filter truthy_str (map trim pieces).
Proof. apply split_lossless. vm_compute. discriminate. Defined.

(** ** Correctness of unwrapping *)

Definition unwrappable (s : jsstr) : bool :=
  starts_with (js "(") s && ends_with (js ")") s && closesAtEnd s.

(** [s] is [r] inside some number of parentheses and white space. *)
Inductive wraps (r : jsstr) : jsstr -> Prop :=
| wraps_trim s : trim s = r -> wraps r s
| wraps_paren s t : trim s = js "(" ++ t ++ js ")" -> wraps r t -> wraps r s.

Lemma trim_length s : length (trim s) <= length s.
Proof.
  destruct (trim_decompose s) as (a & b & E & _ & _). rewrite E at 2. rewrite !length_app. lia.
Qed.

Lemma closes_not_singleton s : unwrappable s = true -> 2 <= length s.
Proof.
  unfold unwrappable. intros [[Hs He]%andb_true_iff Hc]%andb_true_iff.
  destruct s as [|x [|y s]]; [done| |simpl; lia].
  unfold ends_with in He. change (js "(") with [40%N] in Hs.
  change (rev (js ")")) with [41%N] in He. change (rev [x]) with [x] in He.
  cbn [starts_with] in Hs, He.
  rewrite andb_true_r in Hs, He. apply N.eqb_eq in Hs, He. congruence.
Qed.

Lemma unwrappable_inner s : unwrappable s = true -> s = js "(" ++ inner s ++ js ")".
Proof.
  intros Hu. pose proof (closes_not_singleton s Hu) as Hl.
  unfold unwrappable in Hu. apply andb_true_iff in Hu as [[Hs He]%andb_true_iff _].
  apply starts_with_inv in Hs as (t & ->). unfold ends_with in He.
  apply starts_with_inv in He as (u & Hu). change (rev (js ")")) with (js ")") in Hu.
  apply (f_equal (@rev N)) in Hu. rewrite rev_involutive, rev_app_distr in Hu.
  change (rev (js ")")) with (js ")") in Hu. change (js "(") with [40%N] in *.
  destruct (rev u) as [|y v]; [discriminate Hu|]. cbn [app] in Hu.
  injection Hu as <- ->. unfold inner, slice. cbn [app length drop]. f_equal.
  rewrite length_app. change (length (js ")")) with 1.
  change (drop 1 (40%N :: v ++ js ")")) with (v ++ js ")").
  replace (S (length v + 1) - 1 - 1) with (length v) by lia. by rewrite drop_0, take_app_length.
Qed.

Lemma inner_length s : unwrappable s = true -> S (S (length (inner s))) = length s.
Proof.
  intros Hu. rewrite (unwrappable_inner s Hu) at 2. rewrite !length_app. simpl. lia.
Qed.

Lemma unwrap_loop_spec n : forall s,
  trim s = s -> length s <= n ->
  wraps (unwrap_loop n s) s /\ unwrappable (unwrap_loop n s) = false.
Proof.
  induction n as [|n IH]; intros s Ht Hn; cbn [unwrap_loop].
  - destruct s; [|simpl in Hn; lia]. split; [by constructor|done].
  - fold (unwrappable s). destruct (unwrappable s) eqn:Eu.
    + pose proof (inner_length s Eu). pose proof (trim_length (inner s)).
      destruct (IH (trim (inner s))) as [Hw Hu]; [apply trim_idem|lia|].
      split; [|done]. eapply wraps_paren; [rewrite Ht; by apply unwrappable_inner|].
      inversion Hw as [s' Hr|s' t Hr Hw']; subst.
      * constructor. by rewrite trim_idem in Hr.
      * eapply wraps_paren; [|done]. by rewrite trim_idem in Hr.
    + split; [by constructor|done].
Qed.

(** Removing the outer parentheses returns a text that stands in the source
    inside matching parentheses and white space only, and that has no outer
    parentheses left: the bracket its first character opens is not closed by its
    last one.  The loop always ends. *)
Theorem unwrap_complete source :
  wraps (unwrapExpressionParens source) source /\
  unwrappable (unwrapExpressionParens source) = false.
Proof.
  unfold unwrapExpressionParens.
  destruct (unwrap_loop_spec (length source) (trim source)) as [Hw Hu];
    [apply trim_idem|apply trim_length|].
  split; [|done]. inversion Hw as [s' Hr|s' t Hr Hw']; subst.
  - constructor. by rewrite trim_idem in Hr.
  - eapply wraps_paren; [|done]. by rewrite trim_idem in Hr.
Qed.
