(* ===== verification/ExprDisplay.v ===== *)
(** * Display adapters

    Models [billing-expression/display.ts]: reading an ordered chain of token
    tiers, time-dependent tiers, or task tiers off a compiled expression.  The
    adapters accept fewer shapes than the evaluator and return [None] for the
    rest.  Calls reach them parsed, so a declared call has its arguments
    ([ExprParserSpec.parsed_nodes_declared]); a call without them reads as [None]. *)

From S2P Require Import Prelude JsString JsNumber JsRegex JsValue ExprTypes ExprParser ExprCompile ExprRuntime.

(** ** Token tiers *)

Record token_condition := TokenCondition { tc_var : jsstr; tc_op : jsstr; tc_value : num }.

Record token_tier := TokenTier {
  tt_conditionText : option jsstr;
  tt_imageCount : bool;
  tt_billingUnit : option billing_unit;
  tt_fixedPrice : option num;
  tt_label : jsstr;
  tt_conditions : list token_condition;
  tt_prices : list (jsstr * num);
}.

Definition with_text (s : jsstr) (t : token_tier) : token_tier :=
  TokenTier (Some s) (tt_imageCount t) (tt_billingUnit t) (tt_fixedPrice t) (tt_label t)
    (tt_conditions t) (tt_prices t).
Definition with_image_count (t : token_tier) : token_tier :=
  TokenTier (tt_conditionText t) true (tt_billingUnit t) (tt_fixedPrice t) (tt_label t)
    (tt_conditions t) (tt_prices t).

Fixpoint flattenBinary (node : expr) (operator : jsstr) : list expr :=
  match node with
  | EBinary op l r _ =>
      if negb (str_eqb op operator) then [node]
      else flattenBinary l operator ++ flattenBinary r operator
  | _ => [node]
  end.

Definition COMPARISONS : list jsstr := [js "<"; js "<="; js ">"; js ">="].
Definition CONDITION_VARIABLES : list jsstr := [js "p"; js "c"; js "len"].

Definition token_condition_of (part : expr) : option token_condition :=
  match part with
  | EBinary op (EVar name _) (ELit (LNum x) _ _) _ =>
      if negb (str_mem op COMPARISONS) || negb (str_mem name CONDITION_VARIABLES)
         || n_ltb x n_zero
      then None else Some (TokenCondition name op x)
  | _ => None
  end.

Fixpoint collect {A B} (f : A -> option B) (l : list A) : option (list B) :=
  match l with
  | [] => Some []
  | x :: l' => let! y := f x in let! ys := collect f l' in Some (y :: ys)
  end.

Definition tokenConditions (node : expr) : option (list token_condition) :=
  collect token_condition_of (flattenBinary node (js "&&")).

Definition literal_is (x : num) (e : expr) : bool :=
  match e with ELit (LNum y) _ _ => n_eqb y x | _ => false end.

Definition nonnegativePriceLiteral (node : expr) : option num :=
  match node with
  | ELit (LNum x) _ _ => if n_geb x n_zero then Some x else None
  | EUnary op x _ =>
      if str_eqb op (js "-") && literal_is n_zero x then Some (n_neg n_zero) else None
  | _ => None
  end.

(** [max(0, len - ai)] or [max(len - ai, 0)]: the text part of an audio request. *)
Definition is_remainder (e : expr) : bool :=
  match e with
  | EBinary op (EVar a _) (EVar b _) _ =>
      str_eqb op (js "-") && str_eqb a (js "len") && str_eqb b (js "ai")
  | _ => false
  end.

Definition input_variable (input : expr) : option jsstr :=
  let other :=
    match input with
    | ECall name [a; b] _ =>
        if negb (str_eqb name (js "max")) then None
        else if literal_is n_zero a then (if is_remainder b then Some (js "p") else None)
        else if literal_is n_zero b then (if is_remainder a then Some (js "p") else None)
        else None
    | _ => None
    end in
  match input with
  | EVar name _ =>
      if negb (str_eqb name (js "len")) && negb (str_eqb name (js "image_count"))
      then Some name else None
  | _ => other
  end.

(** One term of the loop of [tokenTier]. *)
Definition token_term (prices : list (jsstr * num)) (term : expr)
  : option (list (jsstr * num)) :=
  match term with
  | EBinary op l r _ =>
      if negb (str_eqb op (js "*")) then None
      else
        let! (input, price) :=
          match nonnegativePriceLiteral r with
          | Some x => Some (l, x)
          | None => match nonnegativePriceLiteral l with Some x => Some (r, x) | None => None end
          end in
        let! variable := input_variable input in
        if assoc_mem str_eqb variable prices then None
        else Some (assoc_set str_eqb variable price prices)
  | _ => None
  end.

Fixpoint fold_option {A B} (f : B -> A -> option B) (l : list A) (b : B) : option B :=
  match l with
  | [] => Some b
  | x :: l' => let! b' := f b x in fold_option f l' b'
  end.

Definition fixed_amount (body : expr) : option num :=
  match body with
  | ECall name (ELit (LNum x) _ _ :: _) _ => if str_eqb name (js "fixed") then Some x else None
  | _ => None
  end.

Definition tokenTier (node : expr) (conditions : list token_condition) : option token_tier :=
  match node with
  | ECall name (ELit (LStr label) _ _ :: body :: _) _ =>
      if negb (str_eqb name (js "tier")) then None
      else
        match fixed_amount body with
        | Some x => Some (TokenTier None false (Some Urequest) (Some x) label conditions [])
        | None =>
            let! prices := fold_option token_term (flattenBinary body (js "+")) [] in
            match prices with
            | [] => None
            | _ => Some (TokenTier None false None None label conditions prices)
            end
        end
  | _ => None
  end.

(** [ai > 0] or [ao > 0] *)
Definition audio_test (part : expr) : option jsstr :=
  match part with
  | EBinary op (EVar name _) (ELit (LNum x) _ _) _ =>
      if str_eqb op (js ">") && (str_eqb name (js "ai") || str_eqb name (js "ao"))
         && n_eqb x n_zero
      then Some name else None
  | _ => None
  end.

Definition audio_condition (c : expr) : bool :=
  match c with
  | EBinary op l r _ =>
      str_eqb op (js "||") &&
      Nat.eqb (length (fold_left (fun acc part =>
        match audio_test part with Some n => set_add str_eqb n acc | None => acc end) [l; r] [])) 2
  | _ => false
  end.

Definition audio_tiers (node : expr) : option (list token_tier) :=
  match node with
  | ECond c yes no _ =>
      if audio_condition c then
        let! audio := tokenTier yes [] in
        let! text := tokenTier no [] in
        Some [with_text (js "Audio requests") audio; with_text (js "Text-only requests") text]
      else None
  | _ => None
  end.

Fixpoint chain_loop (remaining : expr) (tiers : list token_tier) : option (list token_tier) :=
  match remaining with
  | ECond c yes no _ =>
      let! conditions := tokenConditions c in
      let! tier := tokenTier yes conditions in
      chain_loop no (tiers ++ [tier])
  | _ => let! fallback := tokenTier remaining [] in Some (tiers ++ [fallback])
  end.

Fixpoint readTokenTierChain (node : expr) : option (list token_tier) :=
  match audio_tiers node with
  | Some tiers => Some tiers
  | None =>
      match node with
      | EBinary op l r _ =>
          if str_eqb op (js "*") && is_image_count l then
            option_map (map with_image_count) (readTokenTierChain r)
          else if str_eqb op (js "*") && is_image_count r then
            option_map (map with_image_count) (readTokenTierChain l)
          else chain_loop node []
      | _ => chain_loop node []
      end
  end.

(** ** Time-dependent tiers *)

Definition TIME_CONDITION_FUNCTIONS : list jsstr :=
  TIME_FUNCTIONS ++ [js "min"; js "max"; js "abs"; js "ceil"; js "floor"].

Definition isTimeCondition (node : expr) : result berr bool :=
  let? (variables, functions) := expressionDependencies node in
  Ok (match variables with [] => true | _ => false end
      && existsb is_time_function functions
      && forallb (fun name => str_mem name TIME_CONDITION_FUNCTIONS) functions).

(** [timeConditions]: the conditions on the way and the branch taken. *)
Abbreviation time_path := (list (expr * bool)).

Record time_tier := TimeTier { ti_tier : token_tier; ti_path : time_path }.

Definition path_text (source : jsstr) (p : expr * bool) : jsstr :=
  let text := slice source (estart p.1) (eend p.1) in
  if p.2 then js "(" ++ text ++ js ")" else js "!(" ++ text ++ js ")".

Definition condition_text (c : token_condition) : jsstr :=
  tc_var c ++ js " " ++ tc_op c ++ js " " ++ string_of_number (tc_value c).

Definition timed_tier (source : jsstr) (path : time_path) (t : token_tier) : time_tier :=
  TimeTier
    (with_text
       (join (js " && ")
          (join (js " && ") (map (path_text source) path)
             :: map condition_text (tt_conditions t))) t)
    path.

Fixpoint timeTierBranches (source : jsstr) (node : expr) (path : time_path)
  : result berr (option (list time_tier)) :=
  let leaf :=
    Ok (match readTokenTierChain node, path with
        | None, _ | _, [] => None
        | Some tiers, _ => Some (map (timed_tier source path) tiers)
        end) in
  match node with
  | ECond c y n _ =>
      let? timed := isTimeCondition c in
      if timed : bool then
        let? yes := timeTierBranches source y (path ++ [(c, true)]) in
        let? no := timeTierBranches source n (path ++ [(c, false)]) in
        Ok (match yes, no with
            | Some a, Some b => Some (a ++ b)
            | _, _ => None
            end)
      else leaf
  | _ => leaf
  end.

Definition opt_bool_eqb (a : option bool) (b : bool) : bool :=
  match a with Some x => Bool.eqb x b | None => false end.

Section display.
Context `{Host}.

Definition path_matches (c : compiled) (t : date) (path : time_path) : bool :=
  forallb (fun p => opt_bool_eqb (evaluateBillingCondition c p.1 t) p.2) path.

Definition readTimeTokenPricing (source : jsstr) (now : option date)
  : result berr (option (list time_tier * list time_tier)) :=
  match compile_source source with
  | NotReady _ => Ok None
  | Ready c =>
      let? branches := timeTierBranches (c_source c) (c_ast c) [] in
      Ok (match branches with
          | None => None
          | Some tiers =>
              Some (tiers,
                match now with
                | Some t => List.filter (fun x => path_matches c t (ti_path x)) tiers
                | None => []
                end)
          end)
  end.
End display.

(** ** Task tiers *)

Inductive usage_type : Type := UTnumber | UTboolean.

(** [string | Record<string, string>]: one text, or a text per language. *)
Inductive localized_text : Type :=
| PlainText (s : jsstr)
| TextPerLanguage (texts : list (jsstr * jsstr)).

(** [BillingUsageFieldSchema] *)
Record usage_field := UsageField {
  uf_type : option usage_type;
  uf_unit : option jsstr;
  uf_unitLabel : option localized_text;
  uf_enum : option (list jsstr);
  uf_enumLabels : list (jsstr * localized_text);
  uf_description : option localized_text;
}.

Abbreviation usage_schema := (list (jsstr * usage_field)).

(** [schema\[field\]] also finds the members every object inherits; none of them
    has a [type], a [unit] or an [enum]. *)
Definition OBJECT_MEMBERS : list jsstr :=
  map js ["constructor"; "__defineGetter__"; "__defineSetter__"; "hasOwnProperty";
          "__lookupGetter__"; "__lookupSetter__"; "isPrototypeOf"; "propertyIsEnumerable";
          "toString"; "valueOf"; "__proto__"; "toLocaleString"]%string.

Definition schema_get (schema : usage_schema) (field : jsstr) : option usage_field :=
  match assoc_get str_eqb field schema with
  | Some d => Some d
  | None => if str_mem field OBJECT_MEMBERS then Some (UsageField None None None None [] None) else None
  end.

Record task_condition := TaskCondition { kc_field : jsstr; kc_value : jsstr }.

Record task_tier := TaskTier {
  kt_conditionText : option jsstr;
  kt_label : jsstr;
  kt_conditions : list task_condition;
  kt_constant : num;
  kt_unitPrices : list (jsstr * num);
}.

(** [u("field")] *)
Definition usage_name (e : expr) : option jsstr :=
  match e with
  | ECall name (ELit (LStr field) _ _ :: _) _ =>
      if str_eqb name (js "u") then Some field else None
  | _ => None
  end.

Definition string_of_literal (l : literal) : jsstr :=
  match l with
  | LNum x => string_of_number x
  | LStr s => s
  | LBool b => if b then js "true" else js "false"
  | LNull => js "null"
  end.

(** One round of the loop of [taskConditions]: [None] when it returns [null]. *)
Definition task_condition_step (schema : usage_schema) (includeBoolean : bool)
  (acc : list task_condition * bool) (term : expr) : option (list task_condition * bool) :=
  match term with
  | EBinary op l (ELit value _ _) _ =>
      if negb (str_eqb op (js "==")) then None
      else
        let! field := usage_name l in
        match schema_get schema field with
        | None =>
            match value with
            | LBool true => Some (acc.1, false)
            | LBool false | LStr _ => Some acc
            | _ => None
            end
        | Some d =>
            let push := fun reachable =>
              Some (acc.1 ++ [TaskCondition field (string_of_literal value)], reachable) in
            match uf_type d with
            | Some UTboolean =>
                match value with
                | LBool _ => if includeBoolean then push acc.2 else None
                | _ => None
                end
            | _ =>
                match value, uf_enum d with
                | LStr v, Some values => push (acc.2 && str_mem v values)
                | _, _ => None
                end
            end
        end
  | _ => None
  end.

(** [Some (Some cs)]: conditions; [Some None]: unreachable; [None]: [null]. *)
Definition taskConditions (node : expr) (schema : usage_schema) (includeBoolean : bool)
  : option (option (list task_condition)) :=
  let! (conditions, reachable) :=
    fold_option (task_condition_step schema includeBoolean)
      (flattenBinary node (js "&&")) ([], true) in
  Some (if reachable : bool then Some conditions else None).

Record task_sum := TaskSum {
  ts_constant : num;
  ts_hasConstant : bool;
  ts_unitPrices : list (jsstr * num);
}.

(** [term / 1000000] gives the term and [true]. *)
Definition unscale (term : expr) : option (expr * bool) :=
  match term with
  | EBinary op l r _ =>
      if str_eqb op (js "/") then
        if literal_is (n_of_Z 1000000) r then Some (l, true) else None
      else Some (term, false)
  | _ => Some (term, false)
  end.

Definition task_term (schema : usage_schema) (acc : task_sum) (term : expr) : option task_sum :=
  match nonnegativePriceLiteral term with
  | Some x =>
      if ts_hasConstant acc then None else Some (TaskSum x true (ts_unitPrices acc))
  | None =>
      let! (term, scaled) := unscale term in
      match term with
      | EBinary op l r _ =>
          if negb (str_eqb op (js "*")) then None
          else
            let! field := usage_name l in
            let! price := nonnegativePriceLiteral r in
            match schema_get schema field with
            | None => Some acc
            | Some d =>
                match uf_type d, uf_unit d with
                | Some UTnumber, Some unit =>
                    if negb (truthy_str unit) || assoc_mem str_eqb field (ts_unitPrices acc)
                       || negb (Bool.eqb (str_eqb unit (js "token")) scaled)
                    then None
                    else Some (TaskSum (ts_constant acc) (ts_hasConstant acc)
                                 (assoc_set str_eqb field price (ts_unitPrices acc)))
                | _, _ => None
                end
            end
      | _ => None
      end
  end.

Definition taskTier (node : expr) (conditions : list task_condition) (schema : usage_schema)
  : option task_tier :=
  match node with
  | ECall name (ELit (LStr label) _ _ :: body :: _) _ =>
      if negb (str_eqb name (js "tier")) then None
      else
        let! sum := fold_option (task_term schema) (flattenBinary body (js "+"))
                      (TaskSum n_zero false []) in
        match ts_unitPrices sum with
        | [] => None
        | _ => Some (TaskTier None label conditions (ts_constant sum) (ts_unitPrices sum))
        end
  | _ => None
  end.

Definition condition_eqb (a b : task_condition) : bool :=
  str_eqb (kc_field a) (kc_field b) && str_eqb (kc_value a) (kc_value b).

(** An earlier tier whose conditions are all among [conditions] shadows them. *)
Definition shadowed (tiers : list task_tier) (conditions : list task_condition) : bool :=
  existsb (fun earlier =>
    forallb (fun condition => existsb (fun x => condition_eqb x condition) conditions)
      (kt_conditions earlier)) tiers.

Fixpoint task_chain_loop (schema : usage_schema) (includeBoolean : bool) (remaining : expr)
  (tiers : list task_tier) : option (list task_tier) :=
  match remaining with
  | ECond c yes no _ =>
      let! conditions := taskConditions c schema includeBoolean in
      match conditions with
      | Some cs =>
          if shadowed tiers cs then task_chain_loop schema includeBoolean no tiers
          else
            let! tier := taskTier yes cs schema in
            match cs with
            | [] => Some (tiers ++ [tier])
            | _ => task_chain_loop schema includeBoolean no (tiers ++ [tier])
            end
      | None => task_chain_loop schema includeBoolean no tiers
      end
  | _ => let! fallback := taskTier remaining [] schema in Some (tiers ++ [fallback])
  end.

Definition readTaskTierChain (node : expr) (schema : usage_schema) (includeBoolean : bool)
  : option (list task_tier) :=
  task_chain_loop schema includeBoolean node [].
