(* ===== verification/ExprDisplaySpec.v ===== *)
(** * Correctness of the display adapters

    The tiers read off an expression are the ones evaluation selects, the current
    time tiers are those of the branch the time conditions lead to, and a task
    chain has no shadowed tier. *)

From S2P Require Import Prelude JsString JsNumber JsRegex JsValue ExprTypes ExprParser ExprParserSpec ExprCompile ExprCompileSpec ExprRuntime ExprRuntimeSpec ExprDisplay.

Section token_chain.
Context `{Host}.
Variable c : compiled.
Variable ctx : context.
Variable hdrs : list (jsstr * jsstr).
Variable now_ : date.
Abbreviation evaluate := (evaluate c ctx hdrs now_).

(** ** Conditions *)

Definition token_compare (op name : jsstr) (x : num) : bool :=
  match token_of ctx name with
  | Some (VNum y) => default false (compare_op op (VNum y) (VNum x))
  | _ => false
  end.

Definition holds (cs : list token_condition) : bool :=
  forallb (fun k => token_compare (tc_op k) (tc_var k) (tc_value k)) cs.

Definition AUDIO : jsstr := js "Audio requests".

(** Whether a tier of a chain applies in the context. *)
Definition applies (t : token_tier) : bool :=
  match tt_conditionText t with
  | Some text =>
      if str_eqb text AUDIO
      then token_compare (js ">") (js "ai") n_zero || token_compare (js ">") (js "ao") n_zero
      else holds (tt_conditions t)
  | None => holds (tt_conditions t)
  end.

Lemma boolean_inv x st b st' :
  boolean evaluate x st = Ok (b, st') -> exists v, evaluate x st = Ok (v, st') /\ rv v = VBool b.
Proof. unfold boolean. intros Hn. inv_ok Hn. eauto. Qed.

Lemma check_value_bool e v v' b : check_value e v = Ok v' -> rv v' = VBool b -> rv v = VBool b.
Proof. unfold check_value. intros Hc Hb. inv_ok Hc; congruence. Qed.

Lemma check_value_same e v v' : check_value e v = Ok v' -> v' = v.
Proof. unfold check_value. intros Hc. by inv_ok Hc. Qed.

Lemma evaluate_literal l i sp st v st' :
  evaluate (ELit l i sp) st = Ok (v, st') -> rv v = literal_value l /\ price_same st st'.
Proof.
  intros (v1 & st1 & Hn & Hs & Hc)%evaluate_inv. injection Hn as <- <-.
  apply check_value_same in Hc as ->. done.
Qed.

Lemma evaluate_variable name sp st v st' :
  name <> js "image_count" -> evaluate (EVar name sp) st = Ok (v, st') ->
  exists x, token_of ctx name = Some (VNum x) /\ rv v = VNum x.
Proof.
  intros Hne (v1 & st1 & Hn & Hs & Hc)%evaluate_inv. apply check_value_same in Hc as ->.
  cbn [evaluateNode] in Hn. unfold eval_variable in Hn.
  apply str_eqb_neq in Hne. rewrite Hne in Hn. fold (token_of ctx name) in Hn.
  destruct (token_of ctx name) as [[| | |x| | |]|]; try done.
  destruct (n_ltb x n_zero); [done|]. injection Hn as <- <-. eauto.
Qed.

Lemma compare_eval op name nsp x i xsp sp st b st' :
  str_mem op COMPARISONS = true -> name <> js "image_count" ->
  boolean evaluate (EBinary op (EVar name nsp) (ELit (LNum x) i xsp) sp) st = Ok (b, st') ->
  b = token_compare op name x.
Proof.
  intros Hop Hne (v & He & Hv)%boolean_inv. apply evaluate_inv in He as (v1 & st1 & Hn & _ & Hc).
  apply check_value_same in Hc as ->. cbn [evaluateNode] in Hn. unfold binary in Hn.
  assert (Hx : str_eqb op (js "&&") = false /\ str_eqb op (js "||") = false /\
    str_eqb op (js "==") = false /\ str_eqb op (js "!=") = false /\
    forall y, compare_op op (VNum y) (VNum x) <> None).
  { apply str_mem_In in Hop. unfold COMPARISONS in Hop.
    destruct Hop as [<-|[<-|[<-|[<-|[]]]]]; (split_and!; [done..|intros y; done]). }
  destruct Hx as (H0 & H1 & H2 & H3 & H4). rewrite H0, H1 in Hn.
  destruct (evaluate (EVar _ _) _) as [[vl stl]|] eqn:El; [|done].
  apply evaluate_variable in El as (y & Ht & Hy); [|done].
  destruct (evaluate (ELit _ _ _) _) as [[vr str]|] eqn:Er; [|done].
  apply evaluate_literal in Er as [Hr _]. cbn [literal_value] in Hr.
  unfold binary_op in Hn. rewrite H2, H3, Hy, Hr in Hn. cbn [orb] in Hn.
  unfold token_compare. rewrite Ht. specialize (H4 y).
  destruct (compare_op op (VNum y) (VNum x)) as [r|]; [|done]. simpl.
  injection Hn as <- <-. simpl in Hv. congruence.
Qed.

Lemma collect_app {A B} (f : A -> option B) l1 l2 ys :
  collect f (l1 ++ l2) = Some ys ->
  exists y1 y2, collect f l1 = Some y1 /\ collect f l2 = Some y2 /\ ys = y1 ++ y2.
Proof.
  revert ys. induction l1 as [|x l1 IH]; intros ys Hc; simpl in *; [by exists [], ys|].
  destruct (f x) as [y|]; [|done]. destruct (collect f (l1 ++ l2)) as [zs|] eqn:E; [|done].
  injection Hc as <-. destruct (IH zs eq_refl) as (y1 & y2 & -> & -> & ->).
  by exists (y :: y1), y2.
Qed.

Lemma and_eval l r sp st b st' :
  boolean evaluate (EBinary (js "&&") l r sp) st = Ok (b, st') ->
  exists a st0 st1, boolean evaluate l st0 = Ok (a, st1) /\
    (if a : bool then exists st2, boolean evaluate r st1 = Ok (b, st2) else b = false).
Proof.
  intros (v & He & Hv)%boolean_inv. apply evaluate_inv in He as (v1 & st1 & Hn & _ & Hc).
  apply check_value_same in Hc as ->. cbn [evaluateNode] in Hn. unfold binary in Hn.
  change (str_eqb (js "&&") (js "&&")) with true in Hn. cbv iota in Hn.
  destruct (boolean _ l _) as [[a sta]|] eqn:El; [|done]. eexists a, _, sta. split; [exact El|].
  destruct a; [|injection Hn as <- <-; simpl in Hv; congruence].
  destruct (boolean _ r _) as [[b' stb]|] eqn:Er; [|done]. injection Hn as <- <-.
  simpl in Hv. injection Hv as <-. eauto.
Qed.

Lemma conditions_eval e : forall cs st b st',
  tokenConditions e = Some cs -> boolean evaluate e st = Ok (b, st') -> b = holds cs.
Proof.
  unfold tokenConditions.
  assert (Hleaf : forall e, flattenBinary e (js "&&") = [e] -> forall cs st b st',
    collect token_condition_of (flattenBinary e (js "&&")) = Some cs ->
    boolean evaluate e st = Ok (b, st') -> b = holds cs).
  { clear e. intros e -> cs st b st' Hc Hb. simpl in Hc.
    destruct (token_condition_of e) as [k|] eqn:Ek; [|done]. injection Hc as <-.
    destruct e as [| | | |op l r sp|]; try done. destruct l as [|name nsp| | | |]; try done.
    destruct r as [[x| | |] i xsp| | | | |]; try done. cbn [token_condition_of] in Ek.
    destruct (str_mem op COMPARISONS) eqn:Eo; [|done].
    destruct (str_mem name CONDITION_VARIABLES) eqn:En; [|done].
    destruct (n_ltb x n_zero); [done|]. injection Ek as <-. unfold holds. simpl.
    rewrite andb_true_r. eapply compare_eval; [done| |exact Hb].
    intros ->. discriminate En. }
  induction e as [v i sp|name sp|name args sp|op x IHx sp|op l IHl r IHr sp|cn IHc y IHy n IHn sp];
    try (by apply Hleaf).
  cbn [flattenBinary]. destruct (str_eqb op (js "&&")) eqn:Eo.
  2:{ intros cs st b st' Hcs. apply (Hleaf (EBinary op l r sp)); cbn [flattenBinary]; by rewrite Eo. }
  apply str_eqb_eq in Eo as ->. cbn [negb]. intros cs st b st' Hcs Hb.
  apply collect_app in Hcs as (c1 & c2 & H1 & H2 & ->).
  apply and_eval in Hb as (a & st0 & st1 & Ha & Hb). unfold holds. rewrite forallb_app.
  fold (holds c1) (holds c2). rewrite <- (IHl _ _ _ _ H1 Ha). destruct a; [|done].
  destruct Hb as (st2 & Hb). simpl. by eapply IHr.
Qed.

(** ** Tiers *)

(** Evaluation priced the request by the tier [t]. *)
Definition selected (t : token_tier) (st st' : rstate) : Prop :=
  r_tier st' = tt_label t /\
  match tt_fixedPrice t with
  | Some a => r_unit st' = Urequest /\ r_fixed st' = Some a /\ is_finite a = true
  | None => r_unit st' = r_unit st /\ r_fixed st' = r_fixed st
  end.

Lemma selected_shift t st st1 st2 st' :
  price_same st st1 -> price_same st2 st' -> selected t st1 st2 -> selected t st st'.
Proof.
  intros (_ & Hu & Hf) (Ht' & Hu' & Hf') [Hl Hp]. split; [congruence|].
  destruct (tt_fixedPrice t); [destruct Hp as (? & ? & ?)|destruct Hp]; repeat split; congruence.
Qed.

Definition is_leaf (e : expr) : bool :=
  match e with ELit _ _ _ | EVar _ _ => true | _ => false end.
Lemma only_calls_leaf allow e : is_leaf e = true -> only_calls allow e.
Proof. destruct e; try done; intros _ m f [<-|[]] []. Qed.
Lemma only_calls_node (allow : jsstr -> Prop) e :
  (forall name, is_call name e -> allow name) ->
  (forall x, In x (children e) -> only_calls allow x) -> only_calls allow e.
Proof.
  intros Hs Hc m name. rewrite postorder_children, in_app_iff, in_flat_map.
  intros [(x & Hx & Hm)|[<-|[]]]; [by apply (Hc x Hx m)|apply Hs].
Qed.
Lemma only_calls_binary (allow : jsstr -> Prop) op l r sp :
  only_calls allow l -> only_calls allow r -> only_calls allow (EBinary op l r sp).
Proof. intros Hl Hr. apply only_calls_node; [done|]. by intros x [<-|[<-|[]]]. Qed.

Lemma price_literal_calls allow e x : nonnegativePriceLiteral e = Some x -> only_calls allow e.
Proof.
  destruct e as [l i sp| | |op y sp| |]; try done.
  - intros _. by apply only_calls_leaf.
  - cbn [nonnegativePriceLiteral]. destruct (_ && _) eqn:E; [|done]. intros _.
    apply andb_true_iff in E as [_ E]. apply only_calls_node; [done|]. intros z [<-|[]].
    destruct y; try done. by apply only_calls_leaf.
Qed.

Lemma remainder_calls allow e : is_remainder e = true -> only_calls allow e.
Proof.
  destruct e as [| | | |op l r sp|]; try done. destruct l; try done. destruct r; try done.
  intros _. by apply only_calls_binary; apply only_calls_leaf.
Qed.

Lemma zero_calls allow e x : literal_is x e = true -> only_calls allow e.
Proof. destruct e as [| | | | |]; try done. intros _. by apply only_calls_leaf. Qed.

Lemma input_calls e x : input_variable e = Some x -> only_calls no_marker e.
Proof.
  destruct e as [|name sp|name args sp| | |]; try done.
  - intros _. by apply only_calls_leaf.
  - unfold input_variable. destruct args as [|a [|b [|]]]; try done.
    destruct (str_eqb name (js "max")) eqn:En; [|done]. apply str_eqb_eq in En as ->. cbn [negb].
    intros Hi. assert (only_calls no_marker a /\ only_calls no_marker b) as [Ha Hb].
    { destruct (literal_is n_zero a) eqn:Ea.
      - destruct (is_remainder b) eqn:Eb; [|done].
        split; [by eapply zero_calls|by apply remainder_calls].
      - destruct (literal_is n_zero b) eqn:Eb; [|done]. destruct (is_remainder a) eqn:Er; [|done].
        split; [by apply remainder_calls|by eapply zero_calls]. }
    apply only_calls_node; [intros name' <-; by split|]. by intros y [<-|[<-|[]]].
Qed.

Lemma token_term_calls prices e prices' :
  token_term prices e = Some prices' -> only_calls no_marker e.
Proof.
  destruct e as [| | | |op l r sp|]; try done. cbn [token_term].
  destruct (negb _); [done|]. destruct (nonnegativePriceLiteral r) as [x|] eqn:Er.
  - destruct (input_variable l) eqn:El; [|done]. intros _.
    apply only_calls_binary; [by eapply input_calls|by eapply price_literal_calls].
  - destruct (nonnegativePriceLiteral l) as [x|] eqn:El; [|done].
    destruct (input_variable r) eqn:Ei; [|done]. intros _.
    apply only_calls_binary; [by eapply price_literal_calls|by eapply input_calls].
Qed.

Lemma fold_option_each {A B} (P : A -> Prop) (f : B -> A -> option B) l :
  (forall b x b', f b x = Some b' -> P x) ->
  forall b b', fold_option f l b = Some b' -> Forall P l.
Proof.
  intros Hf. induction l as [|x l IH]; intros b b'; simpl; [constructor|].
  destruct (f b x) as [b1|] eqn:E; [|done]. intros Hl. constructor; eauto.
Qed.

Lemma flatten_calls allow op e :
  Forall (only_calls allow) (flattenBinary e op) -> only_calls allow e.
Proof.
  induction e as [v i sp|name sp|name args sp|o x IHx sp|o l IHl r IHr sp|cn IHc y IHy n IHn sp];
    cbn [flattenBinary]; try (by intros HF; inversion HF).
  destruct (negb _); [by intros HF; inversion HF|].
  intros [Hl Hr]%Forall_app. apply only_calls_binary; auto.
Qed.

Lemma tokenTier_plain node cs t :
  tokenTier node cs = Some t -> tt_conditions t = cs /\ tt_conditionText t = None.
Proof. unfold tokenTier. intros Ht. inv_ok Ht; done. Qed.

Lemma tier_eval node cs t st v st' :
  tokenTier node cs = Some t -> evaluate node st = Ok (v, st') ->
  selected t st st' /\ tt_conditions t = cs /\ tt_conditionText t = None.
Proof.
  intros Ht He. destruct node as [| |name args sp| | |]; try done.
  destruct args as [|label [|body rest]]; [done|destruct label as [[]| | | | |]; done|].
  destruct label as [[|label| |] li lsp| | | | |]; try done. cbn [tokenTier] in Ht.
  destruct (str_eqb name (js "tier")) eqn:En; [|done]. apply str_eqb_eq in En as ->. cbn [negb] in Ht.
  apply tier_call_inv in He as (s & st0 & sta & vp & stb & (_ & Hs0u & Hs0f) & Hs & Hp & Hl & Hu & Hf).
  assert (s = label /\ price_same st0 sta) as [-> (_ & Hau & Haf)].
  { unfold string_arg in Hs. destruct (evaluate (ELit _ _ _) _) as [[vl stl]|] eqn:El; [|done].
    apply evaluate_literal in El as [Hv Hps]. rewrite Hv in Hs. cbn [literal_value] in Hs.
    injection Hs as <- <-. done. }
  destruct (fixed_amount body) as [x|] eqn:Ex.
  - injection Ht as <-. simpl. split; [|done]. split; [done|]. simpl.
    destruct body as [| |fname fargs fsp| | |]; try done.
    destruct fargs as [|[[a| | |] i asp| | | | |] more]; try done. cbn [fixed_amount] in Ex.
    destruct (str_eqb fname (js "fixed")) eqn:Ef; [|done]. apply str_eqb_eq in Ef as ->.
    injection Ex as ->. apply fixed_call_inv in Hp as (H1 & H2 & H3). repeat split; congruence.
  - destruct (fold_option token_term _ _) as [prices|] eqn:Ep; [|done].
    destruct prices as [|pr prices]; [done|]. injection Ht as <-. split; [|done]. split; [done|]. simpl.
    eapply (fold_option_each (only_calls no_marker)) in Ep; [|apply token_term_calls].
    apply flatten_calls in Ep. apply evaluate_no_marker in Hp as (_ & H1 & H2); [|done].
    split; congruence.
Qed.

(** ** Chains *)

Definition chosen (tiers : list token_tier) (st st' : rstate) : Prop :=
  exists t, List.find applies tiers = Some t /\ selected t st st'.

(** A conditional runs its branch after its condition, which no tier changes. *)
Lemma conditional_inv cn y n sp st v st' :
  evaluate (ECond cn y n sp) st = Ok (v, st') ->
  exists st0 b st1 st2 v2 st3,
    price_same st st0 /\ boolean evaluate cn st0 = Ok (b, st1) /\ price_same st1 st2 /\
    evaluate (if b then y else n) st2 = Ok (v2, st3) /\ price_same st3 st'.
Proof.
  intros (v1 & st1 & Hn & Hs & _)%evaluate_inv. cbn [evaluateNode] in Hn.
  destruct (boolean _ cn _) as [[b stb]|] eqn:Eb; [|done].
  set (st2 := match rule_index c _ with Some i => _ | None => _ end) in Hn.
  eexists _, b, stb, st2, v1, st1. split; [|split; [exact Eb|]]; [done|].
  split; [subst st2; destruct (rule_index _ _), b; done|]. by destruct b.
Qed.

Lemma boolean_no_marker x st b st' :
  only_calls no_marker x -> boolean evaluate x st = Ok (b, st') -> price_same st st'.
Proof. intros Ho (v & He & _)%boolean_inv. by eapply evaluate_no_marker. Qed.

Lemma condition_calls e k : token_condition_of e = Some k -> only_calls no_marker e.
Proof.
  destruct e as [| | | |op l r sp|]; try done. destruct l; try done. destruct r as [[]| | | | |]; try done.
  intros _. by apply only_calls_binary; apply only_calls_leaf.
Qed.

Lemma collect_each {A B} (P : A -> Prop) (f : A -> option B) l ys :
  (forall x y, f x = Some y -> P x) -> collect f l = Some ys -> Forall P l.
Proof.
  intros Hf. revert ys. induction l as [|x l IH]; intros ys; simpl; [constructor|].
  destruct (f x) eqn:E; [|done]. destruct (collect f l); [|done]. intros _. constructor; eauto.
Qed.

Lemma conditions_calls e cs : tokenConditions e = Some cs -> only_calls no_marker e.
Proof.
  intros Hc. eapply flatten_calls, (collect_each _ token_condition_of); [apply condition_calls|exact Hc].
Qed.

Lemma find_skip {A} (p : A -> bool) x l : p x = false -> List.find p (x :: l) = List.find p l.
Proof. simpl. by intros ->. Qed.

Lemma find_here {A} (p : A -> bool) x l : p x = true -> List.find p (x :: l) = Some x.
Proof. simpl. by intros ->. Qed.

Lemma applies_plain t cs :
  tt_conditions t = cs -> tt_conditionText t = None -> applies t = holds cs.
Proof. unfold applies. by intros <- ->. Qed.

Lemma chain_loop_eval e : forall tiers all,
  chain_loop e tiers = Some all ->
  exists new, all = tiers ++ new /\
    forall st v st', evaluate e st = Ok (v, st') -> chosen new st st'.
Proof.
  assert (Hleaf : forall e tiers all,
    (let! fallback := tokenTier e [] in Some (tiers ++ [fallback])) = Some all ->
    exists new, all = tiers ++ new /\
      forall st v st', evaluate e st = Ok (v, st') -> chosen new st st').
  { clear e. intros e tiers all Ha. destruct (tokenTier e []) as [t|] eqn:Et; [|done].
    injection Ha as <-. exists [t]. split; [done|]. intros st v st' He.
    destruct (tier_eval _ _ _ _ _ _ Et He) as (Hs & Hc & Hx). exists t. split; [|done].
    apply find_here. by rewrite (applies_plain t [] Hc Hx). }
  induction e as [x i sp|name sp|name args sp|op x IHx sp|op l IHl r IHr sp|cn IHc y IHy n IHn sp];
    intros tiers all Ha; try (by apply Hleaf).
  cbn [chain_loop] in Ha. destruct (tokenConditions cn) as [cs|] eqn:Ec; [|done].
  destruct (tokenTier y cs) as [t|] eqn:Et; [|done].
  apply IHn in Ha as (new & -> & Hnew). exists (t :: new). split; [by rewrite <- app_assoc|].
  intros st v st' (st0 & b & st1 & st2 & v2 & st3 & Hs0 & Hb & Hs1 & He & Hs2)%conditional_inv.
  pose proof (conditions_eval cn cs st0 b st1 Ec Hb) as Hbool.
  apply boolean_no_marker in Hb; [|by eapply conditions_calls].
  assert (Hpre : price_same st st2).
  { eapply price_same_trans; [exact Hs0|].
    eapply price_same_trans; [exact Hb|exact Hs1]. }
  destruct b.
  - destruct (tier_eval _ _ _ _ _ _ Et He) as (Hs & Hc & Hx). exists t.
    split; [apply find_here; by rewrite (applies_plain t cs)|].
    by eapply selected_shift.
  - destruct (Hnew _ _ _ He) as (u & Hf & Hs). exists u. split; [|by eapply selected_shift].
    destruct (tokenTier_plain y cs t Et) as [Hc Hx].
    rewrite find_skip; [done|]. by rewrite (applies_plain t cs).
Qed.

Lemma or_eval l r sp st b st' :
  boolean evaluate (EBinary (js "||") l r sp) st = Ok (b, st') ->
  exists a st0 st1, boolean evaluate l st0 = Ok (a, st1) /\
    (if a : bool then b = true else exists st2, boolean evaluate r st1 = Ok (b, st2)).
Proof.
  intros (v & He & Hv)%boolean_inv. apply evaluate_inv in He as (v1 & st1 & Hn & _ & Hc).
  apply check_value_same in Hc as ->. cbn [evaluateNode] in Hn. unfold binary in Hn.
  change (str_eqb (js "||") (js "&&")) with false in Hn.
  change (str_eqb (js "||") (js "||")) with true in Hn. cbv iota in Hn.
  destruct (boolean _ l _) as [[a sta]|] eqn:El; [|done]. eexists a, _, sta. split; [exact El|].
  destruct a; [injection Hn as <- <-; simpl in Hv; congruence|].
  destruct (boolean _ r _) as [[b' stb]|] eqn:Er; [|done]. injection Hn as <- <-.
  simpl in Hv. injection Hv as <-. eauto.
Qed.

Lemma compare_zero name x :
  n_eqb x n_zero = true -> token_compare (js ">") name x = token_compare (js ">") name n_zero.
Proof.
  intros Hx. unfold token_compare. destruct (token_of ctx name) as [[| | |y| | |]|]; try done.
  destruct x as [s| | |[] m e]; try done. by destruct s, y as [| | |[] m e].
Qed.

Lemma audio_test_eval part name st b st' :
  audio_test part = Some name -> boolean evaluate part st = Ok (b, st') ->
  b = token_compare (js ">") name n_zero /\ (name = js "ai" \/ name = js "ao").
Proof.
  destruct part as [| | | |op l r sp|]; try done. destruct l as [|nm nsp| | | |]; try done.
  destruct r as [[x| | |] i xsp| | | | |]; try done. cbn [audio_test].
  destruct (str_eqb op (js ">")) eqn:Eo; [|done]. apply str_eqb_eq in Eo as ->. cbn [andb].
  destruct (_ || _) eqn:En; [|done]. cbn [andb].
  destruct (n_eqb x n_zero) eqn:Ex; [|done]. intros [= ->] Hb.
  assert (Hname : name = js "ai" \/ name = js "ao").
  { apply orb_true_iff in En as [En|En]; apply str_eqb_eq in En; auto. }
  split; [|done]. rewrite <- (compare_zero name x Ex). eapply compare_eval; [done| |exact Hb].
  destruct Hname as [-> | ->]; done.
Qed.

Lemma audio_eval cn st b st' :
  audio_condition cn = true -> boolean evaluate cn st = Ok (b, st') ->
  b = token_compare (js ">") (js "ai") n_zero || token_compare (js ">") (js "ao") n_zero.
Proof.
  destruct cn as [| | | |op l r sp|]; try done. cbn [audio_condition fold_left].
  destruct (str_eqb op (js "||")) eqn:Eo; [|done]. apply str_eqb_eq in Eo as ->. cbn [andb].
  destruct (audio_test l) as [n1|] eqn:E1, (audio_test r) as [n2|] eqn:E2; try done.
  intros Hl (a & st0 & st1 & Ha & Hb)%or_eval.
  destruct (audio_test_eval _ _ _ _ _ E1 Ha) as [Ha1 Hn1].
  assert (Hne : n1 <> n2).
  { intros ->. revert Hl. unfold set_add. simpl. by rewrite str_eqb_refl. }
  assert (Hn2 : n2 = js "ai" \/ n2 = js "ao").
  { clear -E2. destruct r as [| | | |op l r sp|]; try done. destruct l; try done.
    destruct r as [[]| | | | |]; try done. cbn [audio_test] in E2.
    destruct (_ && (_ || _) && _) eqn:E; [|done]. injection E2 as <-.
    apply andb_true_iff in E as [[_ E]%andb_true_iff _].
    apply orb_true_iff in E as [E|E]; apply str_eqb_eq in E; auto. }
  destruct a.
  - subst b. destruct Hn1 as [-> | ->]; rewrite <- Ha1; [done|]. by rewrite orb_true_r.
  - destruct Hb as (st2 & Hb). destruct (audio_test_eval _ _ _ _ _ E2 Hb) as [Hb2 _].
    destruct Hn1 as [-> | ->], Hn2 as [-> | ->]; try done; rewrite <- Ha1, <- Hb2; [done|].
    by rewrite orb_false_r.
Qed.

Lemma audio_test_calls part name : audio_test part = Some name -> only_calls no_marker part.
Proof.
  destruct part as [| | | |op l r sp|]; try done. destruct l; try done. destruct r as [[]| | | | |]; try done.
  intros _. by apply only_calls_binary; apply only_calls_leaf.
Qed.

Lemma audio_calls cn : audio_condition cn = true -> only_calls no_marker cn.
Proof.
  destruct cn as [| | | |op l r sp|]; try done. cbn [audio_condition fold_left].
  destruct (audio_test l) eqn:E1, (audio_test r) eqn:E2; try (by rewrite andb_false_r).
  intros _. by apply only_calls_binary; eapply audio_test_calls.
Qed.

Lemma audio_tiers_eval e tiers st v st' :
  audio_tiers e = Some tiers -> evaluate e st = Ok (v, st') -> chosen tiers st st'.
Proof.
  destruct e as [| | | | |cn y n sp]; try done. cbn [audio_tiers].
  destruct (audio_condition cn) eqn:Ea; [|done].
  destruct (tokenTier y []) as [a|] eqn:Ey; [|done]. destruct (tokenTier n []) as [t|] eqn:En; [|done].
  intros [= <-] (st0 & b & st1 & st2 & v2 & st3 & Hs0 & Hb & Hs1 & He & Hs2)%conditional_inv.
  pose proof (audio_eval _ _ _ _ Ea Hb) as Hbool.
  apply boolean_no_marker in Hb; [|by apply audio_calls].
  assert (Hpre : price_same st st2).
  { eapply price_same_trans; [exact Hs0|].
    eapply price_same_trans; [exact Hb|exact Hs1]. }
  assert (Happ : applies (with_text (js "Audio requests") a) = b) by (rewrite Hbool; done).
  destruct b.
  - destruct (tier_eval _ _ _ _ _ _ Ey He) as (Hs & _). eexists. split; [by apply find_here|].
    by eapply selected_shift in Hs.
  - destruct (tier_eval _ _ _ _ _ _ En He) as (Hs & Hc & _). eexists.
    split; [rewrite find_skip by done; apply find_here|by eapply selected_shift in Hs].
    unfold applies. simpl. change (str_eqb (js "Text-only requests") AUDIO) with false. by rewrite Hc.
Qed.

Lemma chosen_image tiers st st' : chosen tiers st st' -> chosen (map with_image_count tiers) st st'.
Proof.
  intros (t & Hf & Hs). exists (with_image_count t). split; [|exact Hs].
  induction tiers as [|u tiers IH]; [done|]. simpl in *.
  change (applies (with_image_count u)) with (applies u).
  destruct (applies u); [by injection Hf as ->|by apply IH].
Qed.

Lemma product_inv l r sp st v st' :
  evaluate (EBinary (js "*") l r sp) st = Ok (v, st') ->
  exists st0 vl st1 vr st2, price_same st st0 /\ evaluate l st0 = Ok (vl, st1) /\
    evaluate r st1 = Ok (vr, st2) /\ price_same st2 st'.
Proof.
  intros (v1 & st1 & Hn & Hsame & _)%evaluate_inv. cbn [evaluateNode] in Hn.
  unfold binary in Hn. change (str_eqb (js "*") (js "&&")) with false in Hn.
  change (str_eqb (js "*") (js "||")) with false in Hn. cbv iota in Hn.
  destruct (evaluate l _) as [[vl stl]|] eqn:El; [|done].
  destruct (evaluate r stl) as [[vr str]|] eqn:Er; [|done].
  destruct (binary_op _ _ _ _); [|done]. injection Hn as <- <-.
  eexists _, vl, stl, vr, str. split; [|split; [exact El|]]; done.
Qed.

Lemma chosen_shift tiers st st1 st2 st' :
  price_same st st1 -> price_same st2 st' -> chosen tiers st1 st2 -> chosen tiers st st'.
Proof. intros H1 H2 (t & Hf & Hs). exists t. split; [done|]. by eapply selected_shift. Qed.

Lemma image_count_calls e : is_image_count e = true -> only_calls no_marker e.
Proof. destruct e; try done. intros _. by apply only_calls_leaf. Qed.

Lemma chain_eval e tiers st v st' :
  readTokenTierChain e = Some tiers -> evaluate e st = Ok (v, st') -> chosen tiers st st'.
Proof.
  assert (Hloop : forall e tiers st v st', chain_loop e [] = Some tiers ->
    evaluate e st = Ok (v, st') -> chosen tiers st st').
  { intros x ts s w s' (new & -> & Hc)%chain_loop_eval He. simpl. by eapply Hc. }
  revert tiers st v st'.
  induction e as [x i sp|name sp|name args sp|op x IHx sp|op l IHl r IHr sp|cn IHc y IHy n IHn sp];
    intros tiers st v st' Hr He; cbn [readTokenTierChain audio_tiers] in Hr;
    try (by eapply Hloop).
  - destruct (str_eqb op (js "*")) eqn:Eo; cbn [andb] in Hr; [|by eapply Hloop].
    apply str_eqb_eq in Eo as ->. destruct (is_image_count l) eqn:Il; [|destruct (is_image_count r) eqn:Ir].
    + destruct (readTokenTierChain r) as [ts|]; [|done]. injection Hr as <-.
      apply product_inv in He as (st0 & vl & st1 & vr & st2 & Hs & El & Er & Hs').
      apply evaluate_no_marker in El; [|by apply image_count_calls].
      apply chosen_image. eapply chosen_shift; [|exact Hs'|by eapply IHr].
      eapply price_same_trans; [exact Hs|exact El].
    + destruct (readTokenTierChain l) as [ts|]; [|done]. injection Hr as <-.
      apply product_inv in He as (st0 & vl & st1 & vr & st2 & Hs & El & Er & Hs').
      apply evaluate_no_marker in Er; [|by apply image_count_calls].
      apply chosen_image. eapply chosen_shift; [exact Hs| |by eapply IHl].
      eapply price_same_trans; [exact Er|exact Hs'].
    + by eapply Hloop.
  - destruct (audio_tiers (ECond cn y n sp)) as [ts|] eqn:Ea.
    + cbn [audio_tiers] in Ea. rewrite Ea in Hr. injection Hr as <-.
      eapply audio_tiers_eval; [|exact He]. exact Ea.
    + cbn [audio_tiers] in Ea. rewrite Ea in Hr. by eapply Hloop.
Qed.

(** C18: a chain of token tiers read off an expression is the one evaluation
    follows: whenever evaluation succeeds, the first tier whose displayed
    conditions hold for the token counts of the context is the tier it matches,
    with that tier's label, and the result is a fixed price exactly when the
    displayed tier has one, which is then that price. *)
Theorem token_chain_selects e tiers st v st' :
  readTokenTierChain e = Some tiers -> evaluate e st = Ok (v, st') ->
  exists t, List.find applies tiers = Some t /\ r_tier st' = tt_label t /\
    match tt_fixedPrice t with
    | Some a => r_unit st' = Urequest /\ r_fixed st' = Some a
    | None => r_unit st' = r_unit st /\ r_fixed st' = r_fixed st
    end.
Proof.
  intros Hr He. destruct (chain_eval e tiers st v st' Hr He) as (t & Hf & Hl & Hs).
  exists t. split; [done|]. split; [done|]. by destruct (tt_fixedPrice t); [destruct Hs as (? & ? & _)|].
Qed.
End token_chain.

(** The chain [len < 100 ? ... : ...] at [len = 250]. *)
Definition chain_source : jsstr :=
  jq "len < 100 ? tier('short', p * 1) : len <= 300 ? tier('mid', fixed(7)) : tier('long', p * 2 + c * 3)".
Definition chain_ctx : context :=
  Context None (Some [(js "len", VNum (n_of_Z 250)); (js "p", VNum (n_of_Z 4))]) None None
    (Some (Some 0%Z)).

Lemma token_chain_selects_witness :
  match parse chain_source with
  | Ok e =>
      match readTokenTierChain e,
        evaluate (H := plain_host) sample_compiled chain_ctx [] None e (initial_state sample_compiled) with
      | Some tiers, Ok (v, st') =>
          length tiers = 3 /\ r_fixed st' = Some (n_of_Z 7) /\
          exists t, List.find (applies chain_ctx) tiers = Some t /\ r_tier st' = tt_label t /\
            match tt_fixedPrice t with
            | Some a => r_unit st' = Urequest /\ r_fixed st' = Some a
            | None => r_unit st' = Utoken /\ r_fixed st' = None
            end
      | _, _ => False
      end
  | Err _ => False
  end.
Proof.
  destruct (parse chain_source) as [e|] eqn:Hp; [|vm_compute in Hp; discriminate Hp].
  destruct (readTokenTierChain e) as [tiers|] eqn:Hr.
  2:{ vm_compute in Hp. injection Hp as <-. vm_compute in Hr. discriminate Hr. }
  destruct (evaluate (H := plain_host) sample_compiled chain_ctx [] None e
    (initial_state sample_compiled)) as [[v st']|] eqn:He.
  2:{ vm_compute in Hp. injection Hp as <-. vm_compute in He. discriminate He. }
  split; [|split].
  - vm_compute in Hp. injection Hp as <-. vm_compute in Hr. injection Hr as <-. reflexivity.
  - vm_compute in Hp. injection Hp as <-. vm_compute in He. injection He as <- <-. reflexivity.
  - exact (token_chain_selects (H := plain_host) sample_compiled chain_ctx [] None e tiers
      (initial_state sample_compiled) v st' Hr He).
Defined.

(** ** Time-dependent tiers *)

Section time_tiers.
Context `{Host}.
Variable c : compiled.
Variable t : date.

(** The branch the time conditions of a tree lead to, with the conditions passed;
    [None] when one of them has no value at that time. *)
Fixpoint time_leaf (node : expr) (path : time_path) : option (expr * time_path) :=
  match node with
  | ECond cn y n _ =>
      match isTimeCondition cn with
      | Ok true =>
          match evaluateBillingCondition c cn t with
          | Some true => time_leaf y (path ++ [(cn, true)])
          | Some false => time_leaf n (path ++ [(cn, false)])
          | None => None
          end
      | _ => Some (node, path)
      end
  | _ => Some (node, path)
  end.

Definition current (source : jsstr) (node : expr) (path : time_path) : list time_tier :=
  match time_leaf node path with
  | Some (leaf, p) => map (timed_tier source p) (default [] (readTokenTierChain leaf))
  | None => []
  end.

Lemma path_matches_app p q : path_matches c t (p ++ q) = path_matches c t p && path_matches c t q.
Proof. apply forallb_app. Qed.

Lemma filter_map_const {A B} (f : A -> B) (p : B -> bool) b l :
  (forall x, p (f x) = b) -> List.filter p (map f l) = if b then map f l else [].
Proof.
  intros Hp. induction l as [|x l IH]; simpl; [by destruct b|]. rewrite Hp, IH. by destruct b.
Qed.

Lemma branches_leaf source node path tiers :
  Ok (E := berr) (match readTokenTierChain node, path with
      | None, _ | _, [] => None
      | Some ts, _ => Some (map (timed_tier source path) ts)
      end) = Ok (Some tiers) ->
  List.filter (fun x => path_matches c t (ti_path x)) tiers =
  if path_matches c t path
  then map (timed_tier source path) (default [] (readTokenTierChain node)) else [].
Proof.
  destruct (readTokenTierChain node) as [ts|]; [|done]. destruct path as [|x path]; [done|].
  intros [= <-]. simpl default. by apply filter_map_const.
Qed.

Lemma branches_current source node : forall path tiers,
  timeTierBranches source node path = Ok (Some tiers) ->
  List.filter (fun x => path_matches c t (ti_path x)) tiers =
  if path_matches c t path then current source node path else [].
Proof.
  induction node as [x i sp|name sp|name args sp|op x IHx sp|op l IHl r IHr sp|cn IHc y IHy n IHn sp];
    intros path tiers Hb; cbn [timeTierBranches] in Hb; unfold current; cbn [time_leaf];
    try (by apply branches_leaf).
  destruct (isTimeCondition cn) as [[]|]; [|by apply branches_leaf|done].
  destruct (timeTierBranches source y _) as [[a|]|] eqn:Ey; [|by destruct (timeTierBranches source n _)|done].
  destruct (timeTierBranches source n _) as [[b|]|] eqn:En; [|done|done]. injection Hb as <-.
  apply IHy in Ey. apply IHn in En. rewrite List.filter_app, Ey, En, !path_matches_app.
  unfold path_matches at 2 4. simpl. rewrite !andb_true_r.
  destruct (path_matches c t path); cbn [andb]; [|done].
  destruct (evaluateBillingCondition c cn t) as [[]|]; cbn [opt_bool_eqb Bool.eqb].
  - by rewrite app_nil_r.
  - done.
  - done.
Qed.
End time_tiers.

(** The tiers shown as current at a time are exactly the tiers of the branch
    that the time conditions lead to at that time, in order; none are shown when
    a condition on the way has no value. *)
Theorem current_time_tiers `{Host} source t tiers now_tiers :
  readTimeTokenPricing source (Some t) = Ok (Some (tiers, now_tiers)) ->
  exists c, compile_expr source = Ok c /\ now_tiers = current c t (c_source c) (c_ast c) [].
Proof.
  unfold readTimeTokenPricing, compile_source. intros Hr.
  destruct (compile_expr source) as [c|]; [|done]. exists c. split; [done|].
  destruct (timeTierBranches _ _ _) as [[ts|]|] eqn:Eb; [|done|done]. injection Hr as <- <-.
  by apply (branches_current c t) in Eb.
Qed.

Definition time_source : jsstr :=
  jq "hour('UTC') >= 9 && hour('UTC') < 18 ? tier('peak', p * 4) : tier('off', p * 1)".

(** 10:30 UTC on 1970-01-01. *)
Lemma current_time_tiers_witness :
  match readTimeTokenPricing (H := plain_host) time_source (Some (Some 37800000%Z)) with
  | Ok (Some (tiers, now_tiers)) =>
      length tiers = 2 /\ map (fun x => tt_label (ti_tier x)) now_tiers = [js "peak"] /\
      exists c, compile_expr time_source = Ok c /\
        now_tiers = current (H := plain_host) c (Some 37800000%Z) (c_source c) (c_ast c) []
  | _ => False
  end.
Proof.
  destruct (readTimeTokenPricing (H := plain_host) time_source (Some (Some 37800000%Z)))
    as [[[tiers now_tiers]|]|] eqn:Hr; [|vm_compute in Hr; discriminate Hr|vm_compute in Hr; discriminate Hr].
  split; [|split].
  - vm_compute in Hr. injection Hr as <- <-. reflexivity.
  - vm_compute in Hr. injection Hr as <- <-. reflexivity.
  - exact (current_time_tiers (H := plain_host) time_source (Some 37800000%Z) tiers now_tiers Hr).
Defined.

(** ** Task tiers *)

Lemma task_loop_prefix schema ib e : forall tiers all,
  task_chain_loop schema ib e tiers = Some all -> exists new, all = tiers ++ new.
Proof.
  induction e as [x i sp|name sp|name args sp|op x IHx sp|op l IHl r IHr sp|cn IHc y IHy n IHn sp];
    intros tiers all Ha; cbn [task_chain_loop] in Ha;
    try (destruct (taskTier _ [] schema); [injection Ha as <-; eauto|done]).
  destruct (taskConditions cn schema ib) as [[ks|]|]; [|by apply IHn|done].
  destruct (shadowed tiers ks); [by apply IHn|].
  destruct (taskTier y ks schema) as [t|]; [|done].
  destruct ks; [injection Ha as <-; eauto|]. apply IHn in Ha as (new & ->).
  exists (t :: new). by rewrite <- app_assoc.
Qed.

(** The facts a task reports agree with the schema. *)
Definition usage_conforms (schema : usage_schema) (u : list (jsstr * jsval)) : Prop :=
  forall field d, schema_get schema field = Some d ->
    match uf_type d with
    | Some UTboolean => exists b, prop_get field u = Some (VBool b)
    | _ => forall values, uf_enum d = Some values ->
             exists s, prop_get field u = Some (VStr s) /\ In s values
    end.

(** Every fact the expression reads is declared. *)
Definition fields_declared (schema : usage_schema) (e : expr) : Prop :=
  forall n field, In n (postorder e) -> usage_name n = Some field ->
    schema_get schema field <> None.

Definition fact_is (u : list (jsstr * jsval)) (k : task_condition) : bool :=
  match prop_get (kc_field k) u with
  | Some (VStr s) => str_eqb s (kc_value k)
  | Some (VBool b) => str_eqb (if b then js "true" else js "false") (kc_value k)
  | _ => false
  end.
Definition facts_hold (u : list (jsstr * jsval)) (ks : list task_condition) : bool :=
  forallb (fact_is u) ks.

Section task_chain.
Context `{Host}.
Variable c : compiled.
Variable ctx : context.
Variable hdrs : list (jsstr * jsstr).
Variable now_ : date.
Variable schema : usage_schema.
Variable includeBoolean : bool.
Variable u : list (jsstr * jsval).
Hypothesis Hu : usage ctx = Some u.
Hypothesis Hconf : usage_conforms schema u.
Abbreviation evaluate := (evaluate c ctx hdrs now_).

Lemma fields_declared_child e x :
  fields_declared schema e -> In x (children e) -> fields_declared schema x.
Proof. intros Hd Hx n field Hn. apply Hd. by eapply postorder_child. Qed.

Lemma usage_eval l field st v st' :
  usage_name l = Some field -> evaluate l st = Ok (v, st') ->
  rv v = default VNull (prop_get field u).
Proof.
  destruct l as [| |name args sp| | |]; try done.
  destruct args as [|[[|f| |] i fsp| | | | |] rest]; try done. cbn [usage_name].
  destruct (str_eqb name (js "u")) eqn:En; [|done]. apply str_eqb_eq in En as ->. intros [= ->] He.
  apply evaluate_inv in He as (v1 & st1 & Hn & _ & Hc). apply check_value_same in Hc as ->.
  cbn [evaluateNode] in Hn. unfold call in Hn.
  change (negb (known_function (js "u"))) with false in Hn.
  change (str_eqb (js "u") (js "fixed")) with false in Hn.
  change (str_eqb (js "u") (js "tier")) with false in Hn.
  change (str_eqb (js "u") (js "param")) with false in Hn.
  change (str_eqb (js "u") (js "header")) with false in Hn.
  change (str_eqb (js "u") (js "u")) with true in Hn. cbv iota in Hn.
  destruct (string_arg _ _ _) as [[s sta]|] eqn:Hs; [|done]. rewrite Hu in Hn.
  injection Hn as <- <-. simpl. unfold string_arg in Hs.
  destruct (evaluate (ELit _ _ _) _) as [[vl stl]|] eqn:El; [|done].
  apply evaluate_literal in El as [Hv _]. rewrite Hv in Hs. by injection Hs as <- <-.
Qed.

Lemma equal_eval l value i lsp sp st b st' :
  boolean evaluate (EBinary (js "==") l (ELit value i lsp) sp) st = Ok (b, st') ->
  exists st0 vl st1, evaluate l st0 = Ok (vl, st1) /\ b = strict_eqb (rv vl) (literal_value value).
Proof.
  intros (v & He & Hv)%boolean_inv. apply evaluate_inv in He as (v1 & st1 & Hn & _ & Hc).
  apply check_value_same in Hc as ->. cbn [evaluateNode] in Hn. unfold binary in Hn.
  change (str_eqb (js "==") (js "&&")) with false in Hn.
  change (str_eqb (js "==") (js "||")) with false in Hn. cbv iota in Hn.
  destruct (evaluate l _) as [[vl stl]|] eqn:El; [|done].
  destruct (evaluate (ELit _ _ _) _) as [[vr str]|] eqn:Er; [|done].
  apply evaluate_literal in Er as [Hr _]. unfold binary_op in Hn.
  change (str_eqb (js "==") (js "==")) with true in Hn. cbn [orb] in Hn. rewrite Hr in Hn.
  destruct (_ && _ && _); [done|]. injection Hn as <- <-. simpl in Hv. injection Hv as <-. eauto.
Qed.

(** One condition of a task tier has the truth value of its fact, and an
    undeclared enum value is never reported. *)
Lemma task_step_eval acc acc' term st b st' :
  fields_declared schema term ->
  task_condition_step schema includeBoolean acc term = Some acc' ->
  boolean evaluate term st = Ok (b, st') ->
  exists k r, acc' = (acc.1 ++ [k], acc.2 && r) /\ b = fact_is u k /\ (r = false -> b = false).
Proof.
  intros Hd Hs Hb. destruct term as [| | | |op l r sp|]; try done.
  destruct r as [value i lsp| | | | |]; try done. cbn [task_condition_step] in Hs.
  destruct (str_eqb op (js "==")) eqn:Eo; [|done]. apply str_eqb_eq in Eo as ->. cbn [negb] in Hs.
  destruct (usage_name l) as [field|] eqn:El; [|done].
  apply equal_eval in Hb as (st0 & vl & st1 & Hl & ->). apply (usage_eval l field) in Hl; [|done].
  assert (Hg : schema_get schema field <> None).
  { apply (Hd l); [|done]. eapply postorder_child; [by left|apply postorder_self]. }
  destruct (schema_get schema field) as [d|] eqn:Eg; [|done].
  pose proof (Hconf field d Eg) as Hc. rewrite Hl.
  destruct (uf_type d) as [[]|].
  - destruct value as [|v| |], (uf_enum d) as [values|]; try done. injection Hs as <-.
    destruct (Hc values eq_refl) as (s & Hp & Hin). eexists _, (str_mem v values).
    split; [done|]. unfold fact_is. simpl. rewrite Hp. split; [done|]. simpl.
    intros Hm. apply str_eqb_neq. intros ->. apply str_mem_In in Hin. congruence.
  - destruct Hc as (x & Hp). destruct value as [| |v|]; try done.
    destruct includeBoolean; [|done]. injection Hs as <-. eexists _, true.
    rewrite andb_true_r. split; [done|]. unfold fact_is. simpl. rewrite Hp. by destruct x, v.
  - destruct value as [|v| |], (uf_enum d) as [values|]; try done. injection Hs as <-.
    destruct (Hc values eq_refl) as (s & Hp & Hin). eexists _, (str_mem v values).
    split; [done|]. unfold fact_is. simpl. rewrite Hp. split; [done|]. simpl.
    intros Hm. apply str_eqb_neq. intros ->. apply str_mem_In in Hin. congruence.
Qed.

Lemma fold_option_app {A B} (f : B -> A -> option B) l1 l2 b :
  fold_option f (l1 ++ l2) b = let! b' := fold_option f l1 b in fold_option f l2 b'.
Proof. revert b. induction l1; intros b; simpl; [done|]. destruct (f b a); auto. Qed.

(** The collected conditions, without evaluation. *)
Lemma task_step_shape acc acc' term :
  fields_declared schema term ->
  task_condition_step schema includeBoolean acc term = Some acc' ->
  exists k r, acc' = (acc.1 ++ [k], acc.2 && r).
Proof.
  intros Hd Hs. destruct term as [| | | |op l r sp|]; try done.
  destruct r as [value i lsp| | | | |]; try done. cbn [task_condition_step] in Hs.
  destruct (str_eqb op (js "==")); [|done]. cbn [negb] in Hs.
  destruct (usage_name l) as [field|] eqn:El; [|done].
  assert (Hg : schema_get schema field <> None).
  { apply (Hd l); [|done]. eapply postorder_child; [by left|apply postorder_self]. }
  destruct (schema_get schema field) as [d|]; [|done].
  destruct (uf_type d) as [[]|]; destruct value, (uf_enum d); try done; try (injection Hs as <-; eauto);
    destruct includeBoolean; try done; injection Hs as <-; eexists _, true; by rewrite andb_true_r.
Qed.

Definition task_outcome (acc acc' : list task_condition * bool) (b : bool) : Prop :=
  exists ks r, acc' = (acc.1 ++ ks, acc.2 && r) /\ b = facts_hold u ks /\ (r = false -> b = false).

Lemma task_fold_shape e : forall acc acc',
  fields_declared schema e ->
  fold_option (task_condition_step schema includeBoolean) (flattenBinary e (js "&&")) acc = Some acc' ->
  exists ks r, acc' = (acc.1 ++ ks, acc.2 && r).
Proof.
  assert (Hleaf : forall e acc acc', fields_declared schema e ->
    fold_option (task_condition_step schema includeBoolean) [e] acc = Some acc' ->
    exists ks r, acc' = (acc.1 ++ ks, acc.2 && r)).
  { intros e' acc acc' Hd Hf. simpl in Hf.
    destruct (task_condition_step _ _ acc e') as [a|] eqn:E; [|done]. injection Hf as <-.
    destruct (task_step_shape acc a e' Hd E) as (k & r & ->). eauto. }
  induction e as [x i sp|name sp|name args sp|op x IHx sp|op l IHl r IHr sp|cn IHc y IHy n IHn sp];
    intros acc acc' Hd; cbn [flattenBinary]; try (by apply Hleaf).
  destruct (negb _); [by apply Hleaf|]. rewrite fold_option_app.
  destruct (fold_option _ (flattenBinary l _) acc) as [a|] eqn:E; [|done]. intros Hr.
  apply IHl in E as (k1 & r1 & ->); [|eapply fields_declared_child; [exact Hd|by left]].
  apply IHr in Hr as (k2 & r2 & ->); [|eapply fields_declared_child; [exact Hd|right; by left]].
  exists (k1 ++ k2), (r1 && r2). simpl. by rewrite app_assoc, andb_assoc.
Qed.

Lemma task_fold_eval e : forall acc acc' st b st',
  fields_declared schema e ->
  fold_option (task_condition_step schema includeBoolean) (flattenBinary e (js "&&")) acc = Some acc' ->
  boolean evaluate e st = Ok (b, st') -> task_outcome acc acc' b.
Proof.
  assert (Hleaf : forall e acc acc' st b st', fields_declared schema e ->
    fold_option (task_condition_step schema includeBoolean) [e] acc = Some acc' ->
    boolean evaluate e st = Ok (b, st') -> task_outcome acc acc' b).
  { intros e' acc acc' st b st' Hd Hf Hb. simpl in Hf.
    destruct (task_condition_step _ _ acc e') as [a|] eqn:E; [|done]. injection Hf as <-.
    destruct (task_step_eval acc a e' st b st' Hd E Hb) as (k & r & -> & Hk & Hr).
    exists [k], r. split; [done|]. unfold facts_hold. simpl. by rewrite andb_true_r. }
  induction e as [x i sp|name sp|name args sp|op x IHx sp|op l IHl r IHr sp|cn IHc y IHy n IHn sp];
    intros acc acc' st b st' Hd; cbn [flattenBinary]; try (by apply Hleaf).
  destruct (str_eqb op (js "&&")) eqn:Eo; [|by apply Hleaf]. apply str_eqb_eq in Eo as ->.
  cbn [negb]. rewrite fold_option_app.
  destruct (fold_option _ (flattenBinary l _) acc) as [a|] eqn:E; [|done]. intros Hr Hb.
  assert (Hdl : fields_declared schema l) by (eapply fields_declared_child; [exact Hd|by left]).
  assert (Hdr : fields_declared schema r) by (eapply fields_declared_child; [exact Hd|right; by left]).
  apply and_eval in Hb as (x & st0 & st1 & Hx & Hb).
  apply (IHl acc a st0 x st1) in E as (k1 & r1 & -> & Hk1 & Hr1); [|done|done].
  destruct x.
  - destruct Hb as (st2 & Hb). apply (IHr _ _ _ _ _ Hdr Hr) in Hb as (k2 & r2 & -> & Hk2 & Hr2).
    exists (k1 ++ k2), (r1 && r2). simpl. rewrite app_assoc, andb_assoc. split; [done|].
    unfold facts_hold in *. rewrite forallb_app, <- Hk1, <- Hk2. split; [done|].
    destruct r1; [done|]. by specialize (Hr1 eq_refl).
  - subst b. destruct (task_fold_shape r _ _ Hdr Hr) as (k2 & r2 & ->).
    exists (k1 ++ k2), (r1 && r2). simpl. rewrite app_assoc, andb_assoc. split; [done|].
    unfold facts_hold in *. rewrite forallb_app, <- Hk1. done.
Qed.

Lemma taskConditions_eval e cs st b st' :
  fields_declared schema e -> taskConditions e schema includeBoolean = Some cs ->
  boolean evaluate e st = Ok (b, st') ->
  b = match cs with Some ks => facts_hold u ks | None => false end.
Proof.
  intros Hd Ht Hb. unfold taskConditions in Ht.
  destruct (fold_option _ _ _) as [[ks ok]|] eqn:E; [|done]. injection Ht as <-.
  destruct (task_fold_eval e _ _ st b st' Hd E Hb) as (k & r & [= -> ->] & Hk & Hr).
  simpl in *. destruct r; [done|auto].
Qed.

Definition task_applies (t : task_tier) : bool := facts_hold u (kt_conditions t).

Lemma taskTier_eval node cs t st v st' :
  taskTier node cs schema = Some t -> evaluate node st = Ok (v, st') ->
  r_tier st' = kt_label t.
Proof.
  intros Ht He. destruct node as [| |name args sp| | |]; try done.
  destruct args as [|label [|body rest]]; [done|destruct label as [[]| | | | |]; done|].
  destruct label as [[|label| |] li lsp| | | | |]; try done. cbn [taskTier] in Ht.
  destruct (str_eqb name (js "tier")) eqn:En; [|done]. apply str_eqb_eq in En as ->. cbn [negb] in Ht.
  destruct (fold_option _ _ _) as [sum|]; [|done]. destruct (ts_unitPrices sum); [done|].
  injection Ht as <-. simpl.
  apply tier_call_inv in He as (s & st0 & sta & vp & stb & _ & Hs & _ & -> & _).
  unfold string_arg in Hs. destruct (evaluate (ELit _ _ _) _) as [[vl stl]|] eqn:El; [|done].
  apply evaluate_literal in El as [Hv Hps]. rewrite Hv in Hs. by injection Hs as <- <-.
Qed.

Lemma taskTier_conditions node cs t : taskTier node cs schema = Some t -> kt_conditions t = cs.
Proof. unfold taskTier. intros Ht. by inv_ok Ht. Qed.

Lemma shadowed_false tiers cs :
  existsb task_applies tiers = false -> shadowed tiers cs = true -> facts_hold u cs = false.
Proof.
  intros Hn Hs. apply not_true_iff_false. intros Hh.
  apply existsb_exists in Hs as (t & Hin & Hsub).
  enough (existsb task_applies tiers = true) by congruence.
  apply existsb_exists. exists t. split; [done|]. unfold task_applies, facts_hold in *.
  rewrite forallb_forall in *. intros k Hk. specialize (Hsub k Hk).
  apply existsb_exists in Hsub as (k' & Hk' & He). specialize (Hh k' Hk').
  unfold condition_eqb in He. apply andb_true_iff in He as [Ef Ev].
  apply str_eqb_eq in Ef, Ev. unfold fact_is in *. by rewrite <- Ef, <- Ev.
Qed.

Lemma find_app_skip {A} (p : A -> bool) l1 l2 :
  existsb p l1 = false -> List.find p (l1 ++ l2) = List.find p l2.
Proof.
  induction l1 as [|x l1 IH]; [done|]. simpl. destruct (p x); [done|]. by apply IH.
Qed.

Lemma task_loop_eval e : forall tiers all st v st',
  fields_declared schema e ->
  task_chain_loop schema includeBoolean e tiers = Some all ->
  existsb task_applies tiers = false ->
  evaluate e st = Ok (v, st') ->
  exists t, List.find task_applies all = Some t /\ r_tier st' = kt_label t.
Proof.
  assert (Hleaf : forall e tiers all st v st',
    (let! fallback := taskTier e [] schema in Some (tiers ++ [fallback])) = Some all ->
    existsb task_applies tiers = false -> evaluate e st = Ok (v, st') ->
    exists t, List.find task_applies all = Some t /\ r_tier st' = kt_label t).
  { intros e' tiers all st v st' Ha Hn He. destruct (taskTier e' [] schema) as [t|] eqn:Et; [|done].
    injection Ha as <-. exists t. split; [|by eapply taskTier_eval].
    rewrite find_app_skip by done. apply find_here. unfold task_applies.
    by rewrite (taskTier_conditions _ _ _ Et). }
  induction e as [x i sp|name sp|name args sp|op x IHx sp|op l IHl r IHr sp|cn IHc y IHy n IHn sp];
    intros tiers all st v st' Hd Ha Hn He; try (by eapply Hleaf).
  cbn [task_chain_loop] in Ha.
  assert (Hdc : fields_declared schema cn) by (eapply fields_declared_child; [exact Hd|by left]).
  assert (Hdn : fields_declared schema n)
    by (eapply fields_declared_child; [exact Hd|do 2 right; by left]).
  destruct (taskConditions cn schema includeBoolean) as [cs|] eqn:Ec; [|done].
  apply conditional_inv in He as (st0 & b & st1 & st2 & v2 & st3 & _ & Hb & _ & He & (Ht3 & _ & _)).
  pose proof (taskConditions_eval cn cs st0 b st1 Hdc Ec Hb) as ->.
  rewrite Ht3. destruct cs as [ks|]; [|by eapply IHn].
  destruct (shadowed tiers ks) eqn:Es.
  { rewrite (shadowed_false tiers ks Hn Es) in He. by eapply IHn. }
  destruct (taskTier y ks schema) as [t|] eqn:Et; [|done].
  pose proof (taskTier_conditions _ _ _ Et) as Hks.
  assert (Hyes : facts_hold u ks = true -> r_tier st3 = kt_label t).
  { intros Hh. rewrite Hh in He. by eapply taskTier_eval. }
  destruct ks as [|k ks].
  - injection Ha as <-. exists t. split; [|by apply Hyes].
    rewrite find_app_skip by done. apply find_here. unfold task_applies. by rewrite Hks.
  - destruct (facts_hold u (k :: ks)) eqn:Eh.
    + exists t. split; [|by apply Hyes].
      destruct (task_loop_prefix _ _ _ _ _ Ha) as (new & ->). rewrite <- app_assoc, find_app_skip by done.
      apply find_here. unfold task_applies. by rewrite Hks.
    + eapply IHn; [done|exact Ha| |exact He]. rewrite existsb_app, Hn. simpl.
      unfold task_applies. rewrite Hks, Eh. done.
Qed.

(** For a task whose reported facts agree with the schema and an expression
    that reads declared facts only, evaluation matches the first task tier whose
    displayed conditions hold: the branches the chain leaves out, as unreachable
    or as shadowed by an earlier tier, are never taken. *)
Theorem task_chain_selects e tiers st v st' :
  readTaskTierChain e schema includeBoolean = Some tiers ->
  fields_declared schema e -> evaluate e st = Ok (v, st') ->
  exists t, List.find task_applies tiers = Some t /\ r_tier st' = kt_label t.
Proof. intros Hr Hd He. by eapply task_loop_eval. Qed.
End task_chain.

Definition task_source : jsstr :=
  jq "u('mode') == 'pro' ? tier('pro', u('n') * 2) : u('mode') == 'gone' ? tier('gone', u('n') * 9) : tier('std', u('n') * 1)".
Definition task_schema : usage_schema :=
  [(js "mode", UsageField None None None (Some [js "pro"; js "std"]) [] None);
   (js "n", UsageField (Some UTnumber) (Some (js "count")) None None [] None)].
Definition task_usage : list (jsstr * jsval) :=
  [(js "mode", VStr (js "std")); (js "n", VNum (n_of_Z 3))].
Definition task_ctx : context := Context None None None (Some task_usage) (Some (Some 0%Z)).

Lemma task_usage_conforms : usage_conforms task_schema task_usage.
Proof.
  intros field d Hd. unfold schema_get, task_schema in Hd. cbn [assoc_get] in Hd.
  destruct (str_eqb field (js "mode")) eqn:E1.
  { apply str_eqb_eq in E1 as ->. injection Hd as <-. simpl. intros values [= <-].
    eexists. split; [reflexivity|]. simpl. auto. }
  destruct (str_eqb field (js "n")) eqn:E2; [by injection Hd as <-|].
  destruct (str_mem field OBJECT_MEMBERS); [by injection Hd as <-|done].
Qed.

Lemma task_chain_selects_witness :
  match parse task_source with
  | Ok e =>
      match readTaskTierChain e task_schema false,
        evaluate (H := plain_host) sample_compiled task_ctx [] None e (initial_state sample_compiled) with
      | Some tiers, Ok (v, st') =>
          map kt_label tiers = [js "pro"; js "std"] /\
          exists t, List.find (task_applies task_usage) tiers = Some t /\ r_tier st' = kt_label t
      | _, _ => False
      end
  | Err _ => False
  end.
Proof.
  destruct (parse task_source) as [e|] eqn:Hp; [|vm_compute in Hp; discriminate Hp].
  destruct (readTaskTierChain e task_schema false) as [tiers|] eqn:Hr.
  2:{ vm_compute in Hp. injection Hp as <-. vm_compute in Hr. discriminate Hr. }
  destruct (evaluate (H := plain_host) sample_compiled task_ctx [] None e
    (initial_state sample_compiled)) as [[v st']|] eqn:He.
  2:{ vm_compute in Hp. injection Hp as <-. vm_compute in He. discriminate He. }
  split.
  - vm_compute in Hp. injection Hp as <-. vm_compute in Hr. injection Hr as <-. reflexivity.
  - refine (task_chain_selects (H := plain_host) sample_compiled task_ctx [] None task_schema false
      task_usage eq_refl task_usage_conforms e tiers (initial_state sample_compiled) v st' Hr _ He).
    vm_compute in Hp. injection Hp as <-. intros n field Hn Hu. vm_compute in Hn.
    repeat (destruct Hn as [<-|Hn]; [try discriminate Hu; injection Hu as <-; discriminate|]).
    destruct Hn.
Defined.
