(* ===== verification/ExprSplitSpec.v ===== *)
(** * Splitting follows the lexemes

    [splitExpressionAtTopLevel] works on characters; on a text that can be cut into
    lexemes it goes from lexeme to lexeme, the brackets among them counting the nesting.
    Before that: what a tree means does not depend on its places, so an expression the
    editors write compiles and displays as the tree they mean. *)

From S2P Require Import Prelude JsString JsNumber JsRegex JsValue ExprTypes ExprParser ExprParserSpec ExprSpelling ExprGrammar ExprLexing ExprCompile ExprCompileSpec ExprRuntime ExprStructure ExprDisplay.

(** ** Trees without places *)

Lemma children_strip e : children (strip e) = map strip (children e).
Proof. by destruct e. Qed.

Lemma strip_idem e : strip (strip e) = strip e.
Proof.
  induction e as [e IH] using expr_rect_children. destruct e as [| |name args sp|op x sp|op l r sp|c y n sp]; cbn [strip]; try done.
  - f_equal. rewrite map_map. apply map_ext_in. intros x Hx. by apply IH.
  - by rewrite IH by (by left).
  - by rewrite !IH by (simpl; auto).
  - by rewrite !IH by (simpl; auto).
Qed.

Lemma height_strip e : height (strip e) = height e.
Proof.
  induction e as [e IH] using expr_rect_children. rewrite !height_children, children_strip.
  unfold max_height. induction (children e) as [|x cs IHc]; [done|]. cbn [map fold_right].
  rewrite IH by (by left). f_equal. apply IHc. intros y Hy. apply IH. by right.
Qed.

Lemma node_ty_strip e ts : node_ty (strip e) ts = node_ty e ts.
Proof. by destruct e as [[]| | | | |]. Qed.

Lemma has_type_strip e t : has_type (strip e) t <-> has_type e t.
Proof.
  revert t. induction e as [e IH] using expr_rect_children. intros t.
  assert (Hc : forall ts, Forall2 has_type (children (strip e)) ts <-> Forall2 has_type (children e) ts).
  { rewrite children_strip. induction (children e) as [|x cs IHc]; intros ts; cbn [map].
    - split; intros H; inversion H; constructor.
    - split; intros H; inversion H; subst; constructor; try (by apply IH; [left|]);
        (apply IHc; [|done]; intros z Hz; apply IH; by right). }
  split; intros H; inversion H as [? ts ? F N]; subst; econstructor; try (by apply Hc).
  - by rewrite node_ty_strip in N.
  - by rewrite node_ty_strip.
Qed.

Lemma postorder_strip e : postorder (strip e) = map strip (postorder e).
Proof.
  induction e as [e IH] using expr_rect_children. rewrite !postorder_children, children_strip, map_app. cbn [map].
  f_equal. induction (children e) as [|x cs IHc]; [done|]. cbn [map flat_map].
  rewrite map_app, IH by (by left). f_equal. apply IHc. intros y Hy. apply IH. by right.
Qed.

Definition calls (name : jsstr) (e : expr) : bool :=
  match e with ECall n _ _ => str_eqb n name | _ => false end.

Lemma calls_strip name e : calls name (strip e) = calls name e.
Proof. by destruct e. Qed.

(** A parsed source whose tree means [e] compiles when [e] is typed, not too high, and
    without fixed prices. *)
Lemma compile_meant source e' e t :
  parse source = Ok e' -> strip e' = strip e -> has_type e t -> (height e <= 256)%Z ->
  existsb (calls (js "fixed")) (postorder e) = false ->
  exists c, compile_expr source = Ok c /\ c_ast c = e' /\ c_source c = source.
Proof.
  intros Hp Hs Ht Hh Hf. assert (Ht' : has_type e' t) by (by rewrite <- has_type_strip, Hs, has_type_strip).
  assert (Hh' : (height e' <= 256)%Z) by (by rewrite <- height_strip, Hs, height_strip).
  unfold compile_expr. rewrite Hp.
  destruct (checkExpressionTypes e') as [[]|] eqn:Hc.
  2: { assert (is_ok (checkExpressionTypes e') = true) as Hok by (apply checkExpressionTypes_iff; eauto). by rewrite Hc in Hok. }
  destruct (expressionDependencies_shallow e' Hh') as (vs & fs & -> & Hv & Hfs).
  rewrite (rules_exact source e' Hh'). destruct (str_mem (js "fixed") fs) eqn:Hm; [|by eexists].
  exfalso. apply str_mem_In, Hfs in Hm as (n & Hn & Hcall).
  assert (Hin : In (strip n) (map strip (postorder e))).
  { rewrite <- postorder_strip, <- Hs, postorder_strip. by apply in_map. }
  apply in_map_iff in Hin as (m & Hm & Hin).
  assert (calls (js "fixed") m = true).
  { rewrite <- calls_strip, Hm, calls_strip. destruct n; try done. cbn in Hcall. subst. cbn. apply str_eqb_refl. }
  assert (existsb (calls (js "fixed")) (postorder e) = true) by (apply existsb_exists; eauto). congruence.
Qed.

(** ** Displayed task tiers *)

Lemma flatten_strip op e : flattenBinary (strip e) op = map strip (flattenBinary e op).
Proof.
  induction e as [e IH] using expr_rect_children. destruct e as [| | | |o l r sp|]; try done.
  cbn [strip flattenBinary]. destruct (negb (str_eqb o op)); [done|].
  by rewrite map_app, !IH by (simpl; auto).
Qed.

Lemma usage_name_strip e : usage_name (strip e) = usage_name e.
Proof. destruct e as [| |name [|a args] sp| | |]; try done. by destruct a as [[]| | | | |]. Qed.

Lemma fold_option_map {A B C} (f : B -> A -> option B) (g : B -> C -> option B) (h : A -> C) l : forall b,
  (forall b a, g b (h a) = f b a) -> fold_option g (map h l) b = fold_option f l b.
Proof.
  induction l as [|a l IH]; intros b H; [done|]. cbn [map fold_option]. rewrite H.
  destruct (f b a); [by apply IH|done].
Qed.

Lemma taskConditions_strip e schema b : taskConditions (strip e) schema b = taskConditions e schema b.
Proof.
  unfold taskConditions. rewrite flatten_strip.
  rewrite (fold_option_map (task_condition_step schema b)); [done|]. intros acc x.
  destruct x as [| | | |op l r sp|]; try done. destruct r; try done. cbn [strip task_condition_step].
  by rewrite usage_name_strip.
Qed.

Lemma literal_is_strip x e : literal_is x (strip e) = literal_is x e.
Proof. by destruct e as [[]| | | | |]. Qed.

Lemma price_literal_strip e : nonnegativePriceLiteral (strip e) = nonnegativePriceLiteral e.
Proof. destruct e as [[]| | |op x sp| |]; try done. cbn [strip nonnegativePriceLiteral]. by rewrite literal_is_strip. Qed.

Lemma unscale_strip e : unscale (strip e) = (fun p => (strip p.1, p.2)) <$> unscale e.
Proof.
  destruct e as [| | | |op l r sp|]; try done. cbn [strip unscale]. rewrite literal_is_strip.
  destruct (str_eqb op (js "/")); [|done]. by destruct (literal_is _ r).
Qed.

Lemma task_term_strip schema acc e : task_term schema acc (strip e) = task_term schema acc e.
Proof.
  unfold task_term. rewrite price_literal_strip. destruct (nonnegativePriceLiteral e); [done|].
  rewrite unscale_strip. destruct (unscale e) as [[x scaled]|]; [|done]. cbn [fmap option_fmap option_map fst snd].
  destruct x as [| | | |op l r sp|]; try done. cbn [strip]. by rewrite usage_name_strip, price_literal_strip.
Qed.

Lemma taskTier_strip e cs schema : taskTier (strip e) cs schema = taskTier e cs schema.
Proof.
  destruct e as [| |name args sp| | |]; try done. destruct args as [|a args]; [done|].
  destruct a as [[]| | | | |], args as [|body args]; try done. cbn [strip map taskTier].
  rewrite flatten_strip, (fold_option_map (task_term schema)); [done|]. intros. apply task_term_strip.
Qed.

Lemma readTaskTierChain_strip e schema b : readTaskTierChain (strip e) schema b = readTaskTierChain e schema b.
Proof.
  unfold readTaskTierChain. generalize (@nil task_tier) as tiers.
  induction e as [e IH] using expr_rect_children. intros tiers.
  assert (Hleaf : (let! fallback := taskTier (strip e) [] schema in Some (tiers ++ [fallback])) =
                  (let! fallback := taskTier e [] schema in Some (tiers ++ [fallback]))) by (by rewrite taskTier_strip).
  destruct e as [| | | | |c y n sp]; try exact Hleaf. cbn [strip task_chain_loop].
  rewrite taskConditions_strip. destruct (taskConditions c schema b) as [[cs|]|]; [|by apply IH; simpl; auto|done].
  rewrite taskTier_strip. destruct (shadowed tiers cs); [by apply IH; simpl; auto|].
  destruct (taskTier y cs schema); [|done]. destruct cs; [done|]. by apply IH; simpl; auto.
Qed.

Local Open Scope Z_scope.

(** ** The characters of a match *)
Fixpoint classes_in (p : N -> bool) (r : re) : Prop :=
  match r with
  | RChar q => forall c, q c = true -> p c = true
  | RCat a b | RAlt a b => classes_in p a /\ classes_in p b
  | RStar a => classes_in p a
  | REps => True
  | RGroup _ _ | RBack _ | REnd => False
  end.

Lemma rmatches_chars p r st st' : classes_in p r -> rmatches r st st' ->
  exists w, rest st = w ++ rest st' /\ forallb p w = true.
Proof.
  intros Hc H. induction H; cbn [classes_in] in Hc; try done.
  - by exists [].
  - exists [c]. cbn. by rewrite Hc.
  - destruct Hc as [Ha Hb]. destruct (IHrmatches1 Ha) as (w1 & E1 & F1), (IHrmatches2 Hb) as (w2 & E2 & F2).
    exists (w1 ++ w2). rewrite E1, E2, <- app_assoc, forallb_app, F1, F2. done.
  - apply IHrmatches, Hc.
  - apply IHrmatches, Hc.
  - by exists [].
  - destruct (IHrmatches1 Hc) as (w1 & E1 & F1), (IHrmatches2 Hc) as (w2 & E2 & F2).
    exists (w1 ++ w2). cbn [reset_caps rest] in E1. rewrite E1, E2, <- app_assoc, forallb_app, F1, F2. done.
Qed.

Lemma prefix_chars p r s t : classes_in p r -> re_prefix r s = Some t -> forallb p t = true.
Proof.
  intros Hc. unfold re_prefix, re_exec. destruct (rmatch r (MState s []) Some) as [y|] eqn:E; [|done].
  apply rmatch_sound in E as (y1 & Hm & [= ->]).
  destruct (rmatches_chars p r _ _ Hc Hm) as (w & Hw & Hf). cbn [rest] in Hw. intros [= <-].
  rewrite Hw, length_app, Nat.add_sub, take_app_length. done.
Qed.

(** ** One lexeme *)

(** A character the loop passes without looking. *)
Definition plain_unit (c : N) : bool :=
  negb (is_quote c || is_open c || is_close c || N.eqb c 63 || N.eqb c 42).

Lemma split_plain w : forall u cur d parts, forallb plain_unit w = true ->
  split_loop (js "*") (w ++ u) cur 0 d None parts = split_loop (js "*") u (cur ++ w) 0 d None parts.
Proof.
  induction w as [|c w IH]; intros u cur d parts H; [by rewrite app_nil_r|].
  cbn [forallb] in H. apply andb_true_iff in H as [Hc Hw]. unfold plain_unit in Hc. apply negb_true_iff in Hc.
  rewrite !orb_false_iff in Hc. destruct Hc as ((((Hq & Ho) & Hcl) & H63) & H42). cbn [app split_loop].
  rewrite Hq. unfold next_depth. rewrite Ho, Hcl. replace (d + 0 - 0) with d by lia.
  destruct (negb (Z.eqb d 0)); [by rewrite IH, <- app_assoc|]. rewrite H63.
  change (js "*") with [42%N]. cbn [starts_with]. rewrite N.eqb_sym, H42. cbn [andb].
  change [42%N] with (js "*"). by rewrite IH, <- app_assoc.
Qed.

(** Within quotes. *)
Lemma split_quoted_unit q c r cur d parts : N.eqb c 92 = false -> N.eqb c q = false ->
  split_loop (js "*") (c :: r) cur 0 d (Some q) parts = split_loop (js "*") r (cur ++ [c]) 0 d (Some q) parts.
Proof. intros H1 H2. cbn [split_loop]. by rewrite H1, H2. Qed.

Lemma split_quoted_hex q hs r d parts : (q = 34 \/ q = 39)%N -> forallb is_hex hs = true -> forall cur,
  split_loop (js "*") (hs ++ r) cur 0 d (Some q) parts = split_loop (js "*") r (cur ++ hs) 0 d (Some q) parts.
Proof.
  intros Hq. induction hs as [|h hs IH]; intros Hh cur; [by rewrite app_nil_r|].
  cbn [forallb] in Hh. apply andb_true_iff in Hh as [Hh Hhs]. cbn [app].
  assert (Hx : (48 <= h)%N /\ h <> 92%N).
  { unfold is_hex, is_digit, in_range in Hh. apply orb_true_iff in Hh as [[Hh|Hh]%orb_true_iff|Hh]; bprop; lia. }
  rewrite split_quoted_unit by (apply N.eqb_neq; lia). by rewrite IH, <- app_assoc.
Qed.

Lemma split_escape q c r cur d parts :
  split_loop (js "*") (92%N :: c :: r) cur 0 d (Some q) parts = split_loop (js "*") r (cur ++ [92%N; c]) 0 d (Some q) parts.
Proof. done. Qed.

Lemma split_string n q st d parts : (q = 34 \/ q = 39)%N -> forall r pos v w e, (length r <= n)%nat ->
  scan_string q st r pos v = Ok (w, e) -> exists t r', r = t ++ r' /\ e = (pos + length t)%nat /\
    forall cur, split_loop (js "*") r cur 0 d (Some q) parts = split_loop (js "*") r' (cur ++ t) 0 d None parts.
Proof.
  intros Hq. induction n as [|n IH]; intros [|c r1] pos v w e Hn H; try done; simpl in Hn; [lia|].
  cbn [scan_string] in H. destruct (N.eqb c q) eqn:Ec.
  { injection H as <- <-. exists [c], r1. split; [done|]. split; [simpl; lia|]. intros cur. cbn [split_loop].
    apply N.eqb_eq in Ec as ->. replace (N.eqb q 92) with false by (by destruct Hq as [-> | ->]). by rewrite N.eqb_refl. }
  destruct (N.eqb c 10 || N.eqb c 13)%bool; [done|]. destruct (N.eqb c 92) eqn:E92; cbn [negb] in H.
  2: { apply IH in H as (t & r' & -> & -> & Hs); [|lia]. exists (c :: t), r'. split; [done|]. split; [simpl; lia|].
       intros cur. cbn [app]. by rewrite split_quoted_unit, Hs, <- app_assoc. }
  apply N.eqb_eq in E92 as ->. destruct r1 as [|x r2]; [done|]. simpl in Hn.
  assert (Hgo : forall (hs r3 : jsstr) k v', r2 = hs ++ r3 -> k = (2 + length hs)%nat -> forallb is_hex hs = true ->
    scan_string q st r3 (k + pos) v' = Ok (w, e) -> exists t r', 92%N :: x :: r2 = t ++ r' /\ e = (pos + length t)%nat /\
    forall cur, split_loop (js "*") (92%N :: x :: r2) cur 0 d (Some q) parts = split_loop (js "*") r' (cur ++ t) 0 d None parts).
  { intros hs r3 k v' -> -> Hh Hscan. rewrite length_app in Hn. apply IH in Hscan as (t & r' & -> & -> & Hs); [|lia].
    exists (92%N :: x :: hs ++ t), r'. cbn [app]. rewrite <- app_assoc. split; [done|].
    split; [cbn [length]; rewrite length_app; lia|]. intros cur. rewrite split_escape, split_quoted_hex, Hs by done.
    by rewrite <- !app_assoc. }
  destruct (assoc_get N.eqb x escapes) as [u|]; [by eapply (Hgo [] r2)|].
  destruct (N.eqb x (ch "u")).
  { destruct r2 as [|h1 [|h2 [|h3 [|h4 r3]]]]; try done. destruct (forallb is_hex [h1; h2; h3; h4]) eqn:Hh; [|done].
    by eapply (Hgo [h1; h2; h3; h4] r3). }
  destruct (N.eqb x (ch "x")); [|done]. destruct r2 as [|h1 [|h2 r3]]; try done.
  destruct (forallb is_hex [h1; h2]) eqn:Hh; [|done]. by eapply (Hgo [h1; h2] r3).
Qed.

(** ** Lexeme by lexeme *)

(** The nesting after a lexeme. *)
Definition depth_after (t : token) (d : Z) : Z :=
  match t with
  | TWord w => if str_eqb w (js "(") then d + 1 else if str_eqb w (js ")") then d - 1 else d
  | _ => d
  end.

(** No top-level [*] before the end or a top-level [?]. *)
Fixpoint single_factor (ts : list token) (d : Z) : bool :=
  match ts with
  | [] => true
  | t :: ts' =>
      let d' := depth_after t d in
      if (d' =? 0) && match t with TWord w => str_eqb w (js "?") | _ => false end then true
      else if (d' =? 0) && match t with TWord w => str_eqb w (js "*") | _ => false end then false
      else single_factor ts' d'
  end.

(** The text of a lexeme is passed, up to its effect on the nesting. *)
Definition passes (t : token) (s : jsstr) (n : nat) (d : Z) : Prop :=
  forall cur, split_loop (js "*") s cur 0 d None [] =
    (if (depth_after t d =? 0) && match t with TWord w => str_eqb w (js "?") | _ => false end then None
     else if (depth_after t d =? 0) && match t with TWord w => str_eqb w (js "*") | _ => false end then
       split_loop (js "*") (drop n s) [] 0 (depth_after t d) None [cur]
     else split_loop (js "*") (drop n s) (cur ++ take n s) 0 (depth_after t d) None []).

Lemma prefix_str w : forall s t, re_prefix (RStr w) s = Some t -> t = w.
Proof.
  intros s t H. unfold re_prefix, re_exec in H.
  enough (Hm : forall w s cs k y, rmatch (RStr w) (MState s cs) k = Some y ->
    exists u, s = w ++ u /\ k (MState u cs) = Some y).
  { destruct (rmatch (RStr w) (MState s []) Some) as [y|] eqn:E; [|done].
    apply Hm in E as (u & -> & [= <-]). injection H as <-. cbn [rest].
    by rewrite length_app, Nat.add_sub, take_app_length. }
  clear. induction w as [|c w IH]; intros s cs k y H; cbn [RStr] in H; [by exists s|].
  rewrite rmatch_cat in H. destruct s as [|x s]; [done|]. rewrite rmatch_char in H.
  destruct (N.eqb_spec c x) as [->|]; [|done]. apply IH in H as (u & -> & Hk). by exists u.
Qed.

Lemma prefix_set p s w : re_prefix (RChar p) s = Some w -> exists c, w = [c] /\ p c = true.
Proof.
  destruct s as [|c s]; [done|]. rewrite re_prefix_char. destruct (p c) eqn:E; [|done]. intros [= <-]. eauto.
Qed.

Lemma operator_cases s w : re_prefix operator_re s = Some w ->
  In w (map js ["&&"; "||"; "=="; "!="; "<="; ">="]%string) \/ exists c, w = [c] /\ In c (js "+-*/%<>()!?:,").
Proof.
  assert (Hlit : forall op, In (js op) (map js ["&&"; "||"; "=="; "!="; "<="; ">="]%string) ->
    forall t, re_prefix (RLit op) s = Some t -> In t (map js ["&&"; "||"; "=="; "!="; "<="; ">="]%string))
    by (by intros op Hop t ->%prefix_str).
  unfold operator_re. cbn [ROr]. rewrite !re_prefix_alt. intros H.
  do 6 (match type of H with (match re_prefix (RLit ?op) s with _ => _ end) = _ =>
    destruct (re_prefix (RLit op) s) eqn:?; [injection H as <-; left; eapply (Hlit op); [simpl; tauto|done]|] end).
  right. apply prefix_set in H as (c & -> & Hc). apply existsb_exists in Hc as (x & Hx & ->%N.eqb_eq). eauto.
Qed.

Lemma digit_plain c : is_digit c = true -> plain_unit c = true.
Proof.
  unfold is_digit, in_range, plain_unit, is_quote, is_open, is_close. intros H. bprop.
  apply negb_true_iff. repeat (apply orb_false_iff; split); apply N.eqb_neq; lia.
Qed.

Lemma word_plain c : is_word c = true -> plain_unit c = true.
Proof.
  unfold is_word, is_alpha, is_upper, is_lower, is_digit, in_range, plain_unit, is_quote, is_open, is_close. intros H.
  assert (48 <= c <= 57 \/ 65 <= c <= 90 \/ c = 95 \/ 97 <= c <= 122)%N.
  { apply orb_true_iff in H as [[[H|H]%orb_true_iff|H]%orb_true_iff|H]; bprop; subst; lia. }
  apply negb_true_iff. repeat (apply orb_false_iff; split); apply N.eqb_neq; lia.
Qed.

Lemma set_plain (s : string) : forallb plain_unit (js s) = true ->
  forall c, existsb (N.eqb c) (js s) = true -> plain_unit c = true.
Proof. rewrite forallb_forall. intros H c (x & Hx & ->%N.eqb_eq)%existsb_exists. by apply H. Qed.

Lemma number_plain s t : re_prefix number_re s = Some t -> forallb plain_unit t = true.
Proof.
  apply prefix_chars. pose proof digit_plain as Hd.
  assert (H46 : classes_in plain_unit (RLit ".")) by (split; [by intros c <-%N.eqb_eq|done]).
  pose proof (set_plain "eE" eq_refl) as He. pose proof (set_plain "+-" eq_refl) as Hs.
  unfold number_re, ROpt, RPlus, rdigit, RSet. cbn [RSeq ROr classes_in]. repeat split; try done; apply H46.
Qed.

Lemma name_plain s t : re_prefix name_re s = Some t -> forallb plain_unit t = true.
Proof.
  apply prefix_chars. cbn [name_re classes_in]. split; [|exact word_plain].
  intros c Hc. apply word_plain. unfold is_word. apply orb_true_iff in Hc as [-> | ->]; [done|apply orb_true_r].
Qed.

Lemma plain_passes s t w : (forall d, depth_after t d = d) ->
  match t with TWord w => negb (str_eqb w (js "?") || str_eqb w (js "*")) | _ => true end = true ->
  take (length w) s = w -> forallb plain_unit w = true -> forall d, passes t s (length w) d.
Proof.
  intros Hd Ht Hw Hp d cur. rewrite Hd.
  assert (Hq : match t with TWord w => str_eqb w (js "?") | _ => false end = false /\
               match t with TWord w => str_eqb w (js "*") | _ => false end = false).
  { destruct t; try done. by apply negb_true_iff, orb_false_iff in Ht. }
  destruct Hq as [-> ->]. rewrite !andb_false_r. rewrite <- (take_drop (length w) s) at 1. rewrite Hw.
  by rewrite split_plain.
Qed.

Lemma prefix_take r s w : re_prefix r s = Some w -> take (length w) s = w.
Proof. intros [u ->]%re_prefix_split. apply take_app_length. Qed.

Lemma plain_word_passes s w d : forallb plain_unit w = true -> take (length w) s = w ->
  passes (TWord w) s (length w) d.
Proof.
  intros Hp Hw. assert (Hne : forall x, forallb plain_unit (js x) = false -> str_eqb w (js x) = false).
  { intros x Hx. apply str_eqb_neq. intros ->. congruence. }
  apply plain_passes; [| |done|done].
  - intros d'. cbn [depth_after]. by rewrite (Hne "("%string), (Hne ")"%string).
  - by rewrite (Hne "?"%string), (Hne "*"%string).
Qed.

(** The brackets, [?] and [*]. *)
Lemma sign_passes c r d : In c (js "+-*/%<>()!?:,") -> passes (TWord [c]) (c :: r) 1 d.
Proof.
  intros Hin. destruct (plain_unit c) eqn:Hp.
  { apply (plain_word_passes (c :: r) [c]); [by cbn; rewrite Hp|done]. }
  assert (Hc : c = 40%N \/ c = 41%N \/ c = 63%N \/ c = 42%N).
  { repeat (destruct Hin as [<-|Hin]; [first [discriminate Hp|auto]|]). done. }
  intros cur. destruct Hc as [-> |[-> |[-> | ->]]].
  - change (depth_after (TWord [40%N]) d) with (d + 1). change (str_eqb [40%N] (js "?")) with false.
    change (str_eqb [40%N] (js "*")) with false. rewrite !andb_false_r. cbn [split_loop]. unfold next_depth.
    cbn [is_quote is_open is_close N.eqb Pos.eqb orb]. replace (d + 1 - 0) with (d + 1) by lia. by destruct (d + 1 =? 0).
  - change (depth_after (TWord [41%N]) d) with (d - 1). change (str_eqb [41%N] (js "?")) with false.
    change (str_eqb [41%N] (js "*")) with false. rewrite !andb_false_r. cbn [split_loop]. unfold next_depth.
    cbn [is_quote is_open is_close N.eqb Pos.eqb orb]. replace (d + 0 - 1) with (d - 1) by lia. by destruct (d - 1 =? 0).
  - change (depth_after (TWord [63%N]) d) with d. change (str_eqb [63%N] (js "?")) with true.
    change (str_eqb [63%N] (js "*")) with false. rewrite !andb_true_r, !andb_false_r. cbn [split_loop]. unfold next_depth.
    cbn [is_quote is_open is_close N.eqb Pos.eqb orb]. replace (d + 0 - 0) with d by lia. by destruct (d =? 0).
  - change (depth_after (TWord [42%N]) d) with d. change (str_eqb [42%N] (js "?")) with false.
    change (str_eqb [42%N] (js "*")) with true. rewrite !andb_true_r, !andb_false_r. cbn [split_loop]. unfold next_depth.
    cbn [is_quote is_open is_close N.eqb Pos.eqb orb]. replace (d + 0 - 0) with d by lia. by destruct (d =? 0).
Qed.

Lemma lexeme_passes s t n d : lex_head s = Some (t, n) -> passes t s n d.
Proof.
  unfold lex_head. destruct s as [|x r]; [done|]. destruct (is_ws x); [done|].
  destruct (re_prefix number_re (x :: r)) as [w|] eqn:En.
  { cbv zeta. destruct (_ || _)%bool; [done|]. intros [= <- <-].
    apply plain_passes; [done|done|by eapply prefix_take|by eapply number_plain]. }
  destruct (N.eqb x 34 || N.eqb x 39)%bool eqn:Eq.
  { destruct (scan_string x 0 r 1 []) as [[v e]|] eqn:Es; [|done]. intros [= <- <-] cur.
    assert (Hx : (x = 34 \/ x = 39)%N) by (apply orb_true_iff in Eq as [?%N.eqb_eq|?%N.eqb_eq]; auto).
    destruct (split_string (length r) x 0 d [] Hx r 1 [] v e (le_n _) Es) as (t & r' & -> & -> & Hs).
    cbn [depth_after]. rewrite !andb_false_r. cbn [split_loop]. unfold is_quote. rewrite Eq, Hs.
    cbn [Nat.add drop skipn firstn take]. by rewrite drop_app_length, take_app_length, <- app_assoc. }
  destruct (re_prefix name_re (x :: r)) as [w|] eqn:Ew.
  { intros [= <- <-]. apply plain_word_passes; [by eapply name_plain|by eapply prefix_take]. }
  destruct (re_prefix operator_re (x :: r)) as [w|] eqn:Eo; [|done]. intros [= <- <-].
  pose proof (prefix_take _ _ _ Eo) as Hw. destruct (operator_cases _ _ Eo) as [Hop|(c & -> & Hc)].
  - apply plain_word_passes; [|done]. by repeat (destruct Hop as [<-|Hop]; [done|]).
  - cbn in Hw. injection Hw as ->. by apply sign_passes.
Qed.

(** A text of one factor stays in one part. *)
Lemma split_single s ts : scans s ts -> forall d cur, single_factor ts d = true ->
  match split_loop (js "*") s cur 0 d None [] with None => True | Some parts => length parts = 1%nat end.
Proof.
  induction 1 as [|c s ts Hc Hs IH|s t n ts Hl Hs IH]; intros d cur Hf.
  - done.
  - assert (Hp : plain_unit c = true).
    { unfold is_ws, in_range in Hc. unfold plain_unit, is_quote, is_open, is_close. apply negb_true_iff.
      assert (c <= 32 \/ 160 <= c)%N.
      { repeat (apply orb_true_iff in Hc as [Hc|Hc]); bprop; subst; lia. }
      assert (c <> 34 /\ c <> 39 /\ c <> 40 /\ c <> 41 /\ c <> 42 /\ c <> 63 /\ c <> 91 /\ c <> 93 /\ c <> 123 /\ c <> 125)%N by lia.
      repeat (apply orb_false_iff; split); apply N.eqb_neq; lia. }
    change (c :: s) with ([c] ++ s). rewrite split_plain by (by cbn; rewrite Hp). by apply IH.
  - rewrite (lexeme_passes _ _ _ d Hl cur). cbn [single_factor] in Hf.
    destruct (_ && match t with TWord w => str_eqb w (js "?") | _ => _ end)%bool; [done|].
    destruct (_ && match t with TWord w => str_eqb w (js "*") | _ => _ end)%bool; [done|]. by apply IH.
Qed.

Lemma split_one_part s ts : scans s ts -> single_factor ts 0 = true ->
  (length (splitExpressionAtTopLevel s (js "*")) <= 1)%nat.
Proof.
  intros Hs Hf. pose proof (split_single s ts Hs 0 [] Hf) as H. unfold splitExpressionAtTopLevel.
  destruct (split_loop (js "*") s [] 0 0 None []) as [parts|]; [|done].
  destruct parts as [|p [|]]; try done. cbn. destruct (truthy_str _); simpl; lia.
Qed.
