(* ===== verification/BillingExpr.v ===== *)
(** * Billing expression utilities

    Models [lib/billing-expr.ts]: the variable registry, the tiers shown for an
    expression, tier labels, the request rules an expression is multiplied with
    (parsing, building, splitting off and combining), and the values the editor
    starts from. *)

From S2P Require Import Prelude JsString JsNumber JsRegex JsValue ExprTypes ExprParser ExprCompile ExprRuntime ExprStructure ExprDisplay.

(** ** Variable registry *)

Inductive billing_side : Type := SideInput | SideOutput | SideCondition.

Record billing_var := BillingVar {
  bv_key : jsstr;
  bv_field : option jsstr;
  bv_tierField : option jsstr;
  bv_label : jsstr;
  bv_shortLabel : jsstr;
  bv_side : billing_side;
  bv_isBase : bool;
  bv_isConditionOnly : bool;
  bv_group : option jsstr;
}.

Definition price_var (key field tierField label short : string) (side : billing_side)
  (base : bool) (group : option string) : billing_var :=
  BillingVar (js key) (Some (js field)) (Some (js tierField)) (js label) (js short) side base false
    (option_map js group).

Definition BILLING_VARS : list billing_var :=
  [ price_var "p" "inputPrice" "input_unit_cost" "Input price" "Input" SideInput true None;
    price_var "c" "outputPrice" "output_unit_cost" "Completion price" "Output" SideOutput true None;
    BillingVar (js "len") None None (js "Input length") (js "Length") SideCondition false true None;
    price_var "cr" "cacheReadPrice" "cache_read_unit_cost" "Cache read price" "Cache Read"
      SideInput false (Some "cache"%string);
    price_var "cc" "cacheCreatePrice" "cache_create_unit_cost" "Cache create price" "Cache Write"
      SideInput false (Some "cache"%string);
    price_var "img_cr" "imageCachePrice" "image_cache_unit_cost" "Image cache input price"
      "Image Cache" SideInput false (Some "cache"%string);
    price_var "cc1h" "cacheCreate1hPrice" "cache_create_1h_unit_cost" "Cache create (1h) price"
      "Cache Write (1h)" SideInput false (Some "cache"%string);
    price_var "cc12h" "cacheCreate12hPrice" "cache_create_12h_unit_cost"
      "Cache create (12h) price" "Cache Write (12h)" SideInput false (Some "cache"%string);
    price_var "img" "imagePrice" "image_unit_cost" "Image input price" "Image In"
      SideInput false (Some "media"%string);
    price_var "img_o" "imageOutputPrice" "image_output_unit_cost" "Image output price"
      "Image Out" SideOutput false (Some "media"%string);
    price_var "ai" "audioInputPrice" "audio_input_unit_cost" "Audio input price" "Audio In"
      SideInput false (Some "media"%string);
    price_var "ao" "audioOutputPrice" "audio_output_unit_cost" "Audio output price" "Audio Out"
      SideOutput false (Some "media"%string) ].

Definition BILLING_PRICING_VARS : list billing_var :=
  List.filter (fun v => negb (bv_isConditionOnly v)) BILLING_VARS.
Definition BILLING_CONDITION_VARS : list jsstr :=
  map bv_key (List.filter (fun v => bv_isBase v || bv_isConditionOnly v) BILLING_VARS).
Definition BILLING_VAR_KEY_TO_FIELD : list (jsstr * jsstr) :=
  map (fun v => (bv_key v, default (js "null") (bv_field v))) BILLING_PRICING_VARS.
Definition BILLING_EXTRA_VARS : list billing_var :=
  List.filter (fun v => negb (bv_isBase v) && negb (bv_isConditionOnly v)) BILLING_VARS.
Definition BILLING_CACHE_VAR_MAP : list (jsstr * jsstr) :=
  map (fun v => (default (js "null") (bv_tierField v), bv_key v)) BILLING_EXTRA_VARS.

Definition CLAUDE_CACHE_CREATION_1H_MULTIPLIER : num := n_div (n_of_Z 6) (number_of_string (js "3.75")).
Definition OPENAI_CACHE_CREATION_12H_MULTIPLIER : num := n_of_Z 2.

(** ** Constants of request rules *)
Definition SOURCE_PARAM : jsstr := js "param".
Definition SOURCE_HEADER : jsstr := js "header".
Definition SOURCE_TIME : jsstr := js "time".
Definition MATCH_EQ : jsstr := js "eq".
Definition MATCH_CONTAINS : jsstr := js "contains".
Definition MATCH_GT : jsstr := js "gt".
Definition MATCH_GTE : jsstr := js "gte".
Definition MATCH_LT : jsstr := js "lt".
Definition MATCH_LTE : jsstr := js "lte".
Definition MATCH_EXISTS : jsstr := js "exists".
Definition MATCH_RANGE : jsstr := js "range".
Definition TIME_FUNCS : list jsstr := map js ["hour"; "minute"; "weekday"; "month"; "day"]%string.

(** [value] and [label] of each offered zone. *)
Definition COMMON_TIMEZONES : list (jsstr * jsstr) :=
  map (fun p => (js p.1, js p.2))
    [("Asia/Shanghai", "UTC+8 Shanghai (Asia/Shanghai)"); ("UTC", "UTC");
     ("America/New_York", "UTC-5 New York (America/New_York)");
     ("America/Los_Angeles", "UTC-8 Los Angeles (America/Los_Angeles)");
     ("America/Chicago", "UTC-6 Chicago (America/Chicago)");
     ("Europe/London", "UTC+0 London (Europe/London)");
     ("Europe/Berlin", "UTC+1 Berlin (Europe/Berlin)");
     ("Asia/Tokyo", "UTC+9 Tokyo (Asia/Tokyo)");
     ("Asia/Singapore", "UTC+8 Singapore (Asia/Singapore)");
     ("Asia/Seoul", "UTC+9 Seoul (Asia/Seoul)");
     ("Australia/Sydney", "UTC+10 Sydney (Australia/Sydney)")]%string.

Definition re_digits : re := RPlus (RChar is_digit).
Definition re_exponent : re :=
  ROpt (RSeq [RSet "eE"; ROpt (RSet "+-"); re_digits]).
(** [/^-?(?:\d+\.?\d*|\.\d+)(?:[eE][+-]?\d+)?$/] *)
Definition NUMERIC_LITERAL_REGEX : re :=
  RSeq [ROpt (RLit "-");
        ROr [RSeq [re_digits; ROpt (RLit "."); RStar (RChar is_digit)]; RSeq [RLit "."; re_digits]];
        re_exponent].

Inductive ph_source : Type := Sparam | Sheader.

Inductive request_condition : Type :=
| ParamHeaderCondition (source : ph_source) (path mode value : jsstr)
| TimeCondition (timeFunc timezone mode value rangeStart rangeEnd : jsstr).

Record request_rule_group := RuleGroup {
  g_conditions : list request_condition;
  g_multiplier : jsstr;
  g_conditionText : option jsstr;
  g_matched : option bool;
}.

(** ** Tiers *)

(** [ParsedTier]; [pt_fields] holds the price fields. *)
Record parsed_tier := ParsedTier {
  pt_label : jsstr;
  pt_imageCount : bool;
  pt_conditions : list token_condition;
  pt_fixed : option (option num);
  pt_conditionText : option jsstr;
  pt_fields : list (jsstr * num);
}.

Definition mapTokenTier (tier : token_tier) : parsed_tier :=
  ParsedTier (tt_label tier) (tt_imageCount tier) (tt_conditions tier)
    (match tt_billingUnit tier with
     | Some Urequest => Some (tt_fixedPrice tier)
     | _ => None
     end)
    (match tt_conditionText tier with
     | Some t => if truthy_str t then Some t else None
     | None => None
     end)
    (fold_left (fun acc kp =>
       assoc_set str_eqb
         (default (js "undefined") (assoc_get str_eqb kp.1 BILLING_VAR_KEY_TO_FIELD)) kp.2 acc)
       (tt_prices tier) []).

Section with_host.
Context `{Host}.

Definition parseTiersFromExpr (exprStr : jsstr) : result berr (list parsed_tier) :=
  if negb (truthy_str exprStr) then Ok []
  else
    match compile_source exprStr with
    | NotReady _ => Ok []
    | Ready c =>
        match readTokenTierChain (c_ast c) with
        | Some canonical => Ok (map mapTokenTier canonical)
        | None =>
            let? timed := readTimeTokenPricing exprStr None in
            Ok (match timed with
                | Some (tiers, _) => map (fun x => mapTokenTier (ti_tier x)) tiers
                | None => []
                end)
        end
    end.

Definition getCurrentTimePricingTiers (exprStr : jsstr) (now : date)
  : result berr (option (list parsed_tier)) :=
  let? timed := readTimeTokenPricing exprStr (Some now) in
  Ok (match timed with
      | Some (_, currentTiers) => Some (map (fun x => mapTokenTier (ti_tier x)) currentTiers)
      | None => None
      end).

(** The comparison signs of a label, half and full width. *)
Definition less_re : re :=
  ROr [RCat (RLit "<") (ROpt (RChar (fun c => N.eqb c 61 || N.eqb c 65309)));
       RChar (N.eqb 8804);
       RCat (RChar (N.eqb 65308)) (ROpt (RChar (fun c => N.eqb c 61 || N.eqb c 65309)))].
Definition greater_re : re :=
  ROr [RCat (RLit ">") (ROpt (RChar (fun c => N.eqb c 61 || N.eqb c 65309)));
       RChar (N.eqb 8805);
       RCat (RChar (N.eqb 65310)) (ROpt (RChar (fun c => N.eqb c 61 || N.eqb c 65309)))].

Definition normalizeTierLabel (label : option jsstr) : jsstr :=
  match label with
  | None => []
  | Some l =>
      if negb (truthy_str l) then []
      else
        to_lower
          (replace_all (RPlus (RChar is_ws)) []
             (replace_all greater_re (js ">") (replace_all less_re (js "<") l)))
  end.
End with_host.

(** ** Parsing request rules *)

Definition splitTopLevelMultiply (expr : jsstr) : list jsstr := splitExpressionAtTopLevel expr (js "*").
Definition splitTopLevelAnd (expr : jsstr) : list jsstr := splitExpressionAtTopLevel expr (js "&&").

Definition is_numeric_text (text : jsstr) : bool := re_test NUMERIC_LITERAL_REGEX text.

(** [null], also for the text [null], is [None]. *)
Definition parseExprLiteral (raw : jsstr) : option jsval :=
  let text := trim raw in
  if str_eqb text (js "true") || str_eqb text (js "false") then Some (VStr text)
  else if is_numeric_text text then Some (VStr text)
  else
    match json_parse text with
    | Some VNull | None => None
    | Some v => Some v
    end.

Definition TIME_FUNC_RANGES : list (jsstr * (Z * Z)) :=
  [(js "hour", (0, 23)); (js "minute", (0, 59)); (js "weekday", (0, 6)); (js "month", (1, 12));
   (js "day", (1, 31))]%Z.

Definition isTimeValueInRange (timeFunc text : jsstr) : bool :=
  if negb (is_numeric_text text) then false
  else
    let value := number_of_string text in
    if negb (is_integer value) then false
    else
      match assoc_get str_eqb timeFunc TIME_FUNC_RANGES with
      | Some (lo, hi) => n_geb value (n_of_Z lo) && n_leb value (n_of_Z hi)
      | None => false
      end.

(** Parts of the patterns of rules. *)
Definition re_time_func : re := RGroup 1 (ROr (map RStr TIME_FUNCS)).
Definition re_not_quote : re := RPlus (RChar (fun c => negb (N.eqb c 34))).
Definition re_number : re := RPlus (RChar (fun c => is_digit c || existsb (N.eqb c) (js ".eE+-"))).
Definition re_quoted (n : nat) : re := RSeq [RStr (jq "('"); RGroup n re_not_quote; RStr (jq "')")].

Definition time_range_re : re :=
  RSeq [re_time_func; re_quoted 2; RLit " >= "; RGroup 3 re_number; RLit " ";
        ROr [RLit "&&"; RLit "||"]; RLit " "; RBack 1; RStr (jq "('"); RBack 2; RStr (jq "')");
        RLit " < "; RGroup 4 re_number].
Definition time_scalar_re : re :=
  RSeq [re_time_func; re_quoted 2; RLit " "; RGroup 3 (ROr [RLit "=="; RLit ">="; RLit "<"]);
        RLit " "; RGroup 4 re_number].

(** [s.match(/^r$/)] *)
Definition full_match (r : re) (s : jsstr) : option mstate := re_exec (RCat r REnd) s.
Definition cap (n : nat) (m : mstate) : jsstr := default [] (get_cap n m).

Definition time_range_match (expr : jsstr) : option mstate :=
  match full_match time_range_re expr with
  | Some m => Some m
  | None => full_match (RSeq [RLit "("; time_range_re; RLit ")"]) expr
  end.

Definition time_mode (op : jsstr) : jsstr :=
  if str_eqb op (js ">=") then MATCH_GTE else if str_eqb op (js "<") then MATCH_LT else MATCH_EQ.

Definition tryParseTimeCondition (expr : jsstr) : option request_condition :=
  match time_range_match expr with
  | Some m =>
      if negb (isTimeValueInRange (cap 1 m) (cap 3 m)) || negb (isTimeValueInRange (cap 1 m) (cap 4 m))
      then None
      else Some (TimeCondition (cap 1 m) (cap 2 m) MATCH_RANGE [] (cap 3 m) (cap 4 m))
  | None =>
      let! m := full_match time_scalar_re expr in
      if negb (isTimeValueInRange (cap 1 m) (cap 4 m)) then None
      else Some (TimeCondition (cap 1 m) (cap 2 m) (time_mode (cap 3 m)) (cap 4 m) [] [])
  end.

(** A JSON string literal, [.] excluding line terminators. *)
Definition not_newline (c : N) : bool := negb (existsb (N.eqb c) [10; 13; 8232; 8233]%N).
Definition re_json_string : re :=
  RSeq [RChar (N.eqb 34);
        RStar (RAlt (RChar (fun c => negb (N.eqb c 34) && negb (N.eqb c 92)))
                 (RCat (RChar (N.eqb 92)) (RChar not_newline)));
        RChar (N.eqb 34)].

Definition header_exists_re : re := RSeq [RLit "header"; re_quoted 1; RStr (jq " != ''")].
Definition param_exists_re : re := RSeq [RLit "param"; re_quoted 1; RLit " != nil"].
Definition header_contains_re : re :=
  RSeq [RLit "has(header"; re_quoted 1; RLit ", "; RGroup 2 re_json_string; RLit ")"].
Definition param_contains_re : re :=
  RSeq [RLit "param"; re_quoted 1; RLit " != nil && has(param"; re_quoted 2; RLit ", ";
        RGroup 3 re_json_string; RLit ")"].
Definition param_compare_re : re :=
  RSeq [RLit "param"; re_quoted 1; RLit " != nil && param"; re_quoted 2; RLit " ";
        RGroup 3 (ROr [RLit ">"; RLit ">="; RLit "<"; RLit "<="]); RLit " "; RGroup 4 re_number].
Definition equals_re : re :=
  RSeq [RGroup 1 (ROr [RLit "param"; RLit "header"]); re_quoted 2; RLit " == ";
        RGroup 3 (RPlus (RChar not_newline))].

Definition compare_mode (op : jsstr) : jsstr :=
  if str_eqb op (js ">") then MATCH_GT else if str_eqb op (js ">=") then MATCH_GTE
  else if str_eqb op (js "<") then MATCH_LT else MATCH_LTE.

(** [JSON.parse(m\[i\])]; a text JSON refuses throws. *)
Definition parse_json_or_throw (s : jsstr) : result berr jsstr :=
  match json_parse s with Some v => Ok (string_of_value v) | None => Err EngineError end.

Definition tryParseRequestCondition (expr : jsstr) : result berr (option request_condition) :=
  match tryParseTimeCondition expr with
  | Some tc => Ok (Some tc)
  | None =>
  match full_match header_exists_re expr with
  | Some m => Ok (Some (ParamHeaderCondition Sheader (cap 1 m) MATCH_EXISTS []))
  | None =>
  match full_match param_exists_re expr with
  | Some m => Ok (Some (ParamHeaderCondition Sparam (cap 1 m) MATCH_EXISTS []))
  | None =>
  match full_match header_contains_re expr with
  | Some m =>
      let? v := parse_json_or_throw (cap 2 m) in
      Ok (Some (ParamHeaderCondition Sheader (cap 1 m) MATCH_CONTAINS v))
  | None =>
  let contains :=
    match full_match param_contains_re expr with
    | Some m => if str_eqb (cap 1 m) (cap 2 m) then Some m else None
    | None => None
    end in
  match contains with
  | Some m =>
      let? v := parse_json_or_throw (cap 3 m) in
      Ok (Some (ParamHeaderCondition Sparam (cap 1 m) MATCH_CONTAINS v))
  | None =>
  let compare :=
    match full_match param_compare_re expr with
    | Some m => if str_eqb (cap 1 m) (cap 2 m) then Some m else None
    | None => None
    end in
  match compare with
  | Some m => Ok (Some (ParamHeaderCondition Sparam (cap 1 m) (compare_mode (cap 3 m)) (cap 4 m)))
  | None =>
  match full_match equals_re expr with
  | Some m =>
      Ok (match parseExprLiteral (cap 3 m) with
          | None => None
          | Some v =>
              Some (ParamHeaderCondition
                (if str_eqb (cap 1 m) (js "header") then Sheader else Sparam)
                (cap 2 m) MATCH_EQ (string_of_value v))
          end)
  | None => Ok None
  end end end end end end end.

Definition tryParseTimeRangePair (lower upper : jsstr) : option request_condition :=
  let! a := tryParseTimeCondition lower in
  let! b := tryParseTimeCondition upper in
  match a, b with
  | TimeCondition f1 z1 m1 v1 _ _, TimeCondition f2 z2 m2 v2 _ _ =>
      if negb (str_eqb f1 f2) || negb (str_eqb z1 z2) then None
      else if negb (str_eqb m1 MATCH_GTE) || negb (str_eqb m2 MATCH_LT) then None
      else Some (TimeCondition f1 z1 MATCH_RANGE [] v1 v2)
  | _, _ => None
  end.

(** The loop of [tryParseRequestConditions]. *)
Fixpoint conditions_loop (andParts : list jsstr) (conditions : list request_condition)
  : result berr (option (list request_condition)) :=
  match andParts with
  | [] => Ok (match conditions with [] => None | _ => Some conditions end)
  | raw :: rest =>
      let part := trim raw in
      let single :=
        let? condition := tryParseRequestCondition part in
        match condition with
        | None => Ok None
        | Some cnd => conditions_loop rest (conditions ++ [cnd])
        end in
      match rest with
      | raw2 :: rest2 =>
          if truthy_str (trim raw2) then
            match tryParseTimeRangePair part (trim raw2) with
            | Some merged => conditions_loop rest2 (conditions ++ [merged])
            | None => single
            end
          else single
      | [] => single
      end
  end.

Definition tryParseRequestConditions (conditionStr : jsstr)
  : result berr (option (list request_condition)) :=
  match tryParseTimeCondition (trim conditionStr) with
  | Some whole => Ok (Some [whole])
  | None => conditions_loop (splitTopLevelAnd conditionStr) []
  end.

(** [/^\((.+) \? ([\d.eE+-]+) : 1\)$/s] *)
Definition factor_re : re :=
  RSeq [RLit "("; RGroup 1 (RPlus (RChar (fun _ => true))); RLit " ? "; RGroup 2 re_number;
        RLit " : 1)"].

Definition tryParseRuleGroupFactor (part : jsstr) : result berr (option request_rule_group) :=
  match full_match factor_re part with
  | None => Ok None
  | Some m =>
      let? conditions := tryParseRequestConditions (cap 1 m) in
      Ok (match conditions with
          | None => None
          | Some cs => Some (RuleGroup cs (cap 2 m) None None)
          end)
  end.

Definition group_of_trace (rule : rule_trace) : result berr request_rule_group :=
  let conditionText := trim (t_cond rule) in
  let? conditions := tryParseRequestConditions conditionText in
  Ok (RuleGroup (default [] conditions) (string_of_number (t_multiplier rule))
        (Some conditionText) (Some (t_matched rule))).

Definition requestRuleGroupsFromTrace (requestRules : list rule_trace)
  : result berr (list request_rule_group) :=
  sequence (map group_of_trace requestRules).

Fixpoint factors_loop (parts : list jsstr) (groups : list request_rule_group)
  : result berr (option (list request_rule_group)) :=
  match parts with
  | [] => Ok (Some groups)
  | part :: rest =>
      let? group := tryParseRuleGroupFactor part in
      match group with
      | None => Ok None
      | Some g => factors_loop rest (groups ++ [g])
      end
  end.

Definition tryParseRequestRuleExpr (expr : jsstr) : result berr (option (list request_rule_group)) :=
  let trimmed := trim expr in
  if negb (truthy_str trimmed) then Ok (Some [])
  else factors_loop (splitTopLevelMultiply trimmed) [].

(** ** Splitting off and combining request rules *)

Definition unwrapOuterParens (expr : jsstr) : jsstr := unwrapExpressionParens expr.

Section split.
Context `{Host}.

(** The compiled part is itself a request rule. *)
Definition traced (part : jsstr) : bool :=
  match compile_source part with
  | Ready c => existsb (fun r => expr_eqb (rule_node r) (c_ast c)) (c_rules c)
  | NotReady _ => false
  end.

Definition is_rule_part (part : jsstr) : result berr bool :=
  let? parsed := tryParseRequestRuleExpr part in
  Ok (match parsed with Some (_ :: _) => true | _ => false end || traced part).

(** The rule parts and the base parts, each in order. *)
Fixpoint partition_parts (parts : list jsstr) (ruleParts baseParts : list jsstr)
  : result berr (list jsstr * list jsstr) :=
  match parts with
  | [] => Ok (ruleParts, baseParts)
  | part :: rest =>
      let? rule := is_rule_part part in
      if rule : bool then partition_parts rest (ruleParts ++ [part]) baseParts
      else partition_parts rest ruleParts (baseParts ++ [part])
  end.

(** The result: [billingExpr] and [requestRuleExpr]. *)
Definition splitBillingExprAndRequestRules (expr : jsstr) : result berr (jsstr * jsstr) :=
  let trimmed := trim expr in
  if negb (truthy_str trimmed) then Ok ([], [])
  else
    let parts := splitTopLevelMultiply trimmed in
    if Nat.leb (length parts) 1 then Ok (trimmed, [])
    else
      let? (ruleParts, baseParts) := partition_parts parts [] [] in
      let quantityParts :=
        List.filter (fun part => str_eqb (unwrapOuterParens part) (js "image_count")) baseParts in
      if Nat.eqb (length ruleParts) 0
         || negb (Nat.eqb (length baseParts - length quantityParts) 1)
      then Ok (trimmed, [])
      else Ok (join (js " * ") (map unwrapOuterParens baseParts), join (js " * ") ruleParts).

Definition parseTaskTiersFromExpr (exprStr : jsstr) (schema : option usage_schema)
  (includeBooleanConditions : bool) : result berr (list task_tier) :=
  match schema with
  | None | Some [] => Ok []
  | Some sch =>
      if negb (truthy_str exprStr) then Ok []
      else
        let? (billingExpr, _) := splitBillingExprAndRequestRules exprStr in
        match compile_source billingExpr with
        | NotReady _ => Ok []
        | Ready c => Ok (default [] (readTaskTierChain (c_ast c) sch includeBooleanConditions))
        end
  end.
End split.

Definition combineBillingExpr (baseExpr requestRuleExpr : jsstr) : jsstr :=
  let base := trim baseExpr in
  let rules := trim requestRuleExpr in
  if negb (truthy_str base) then []
  else if negb (truthy_str rules) then base
  else js "(" ++ base ++ js ") * " ++ rules.

(** ** The editor *)

Definition createEmptyCondition : request_condition := ParamHeaderCondition Sparam [] MATCH_EQ [].
Definition createEmptyTimeCondition : request_condition :=
  TimeCondition (js "hour") (js "Asia/Shanghai") MATCH_GTE [] [] [].
Definition createEmptyRuleGroup : request_rule_group :=
  RuleGroup [createEmptyCondition] [] None None.
Definition createEmptyTimeRuleGroup : request_rule_group :=
  RuleGroup [createEmptyTimeCondition] [] None None.

(** The [value]s and [labelKey]s of the match options of a source. *)
Definition option_ (value : jsstr) (labelKey : string) : jsstr * jsstr := (value, js labelKey).

Definition getRequestRuleMatchOptions (source : jsstr) : list (jsstr * jsstr) :=
  if str_eqb source SOURCE_TIME then
    [option_ MATCH_EQ "Equals"; option_ MATCH_GTE "Greater than or equal";
     option_ MATCH_LT "Less than"; option_ MATCH_RANGE "Overnight range"]
  else
    let base := [option_ MATCH_EQ "Equals"; option_ MATCH_CONTAINS "Contains";
                 option_ MATCH_EXISTS "Exists"] in
    if str_eqb source SOURCE_HEADER then base
    else base ++ [option_ MATCH_GT "Greater than"; option_ MATCH_GTE "Greater than or equal";
                  option_ MATCH_LT "Less than"; option_ MATCH_LTE "Less than or equal"].

(** [Partial<RequestCondition>]: the fields of both kinds, each possibly absent. *)
Record partial_condition := PartialCondition {
  pc_source : option jsstr;
  pc_timeFunc : option jsstr;
  pc_timezone : option jsstr;
  pc_mode : option jsstr;
  pc_value : option jsstr;
  pc_rangeStart : option jsstr;
  pc_rangeEnd : option jsstr;
  pc_path : option jsstr;
}.

Definition no_condition : partial_condition :=
  PartialCondition None None None None None None None None.

Definition ph_name (s : ph_source) : jsstr :=
  match s with Sparam => SOURCE_PARAM | Sheader => SOURCE_HEADER end.

Definition to_partial (c : request_condition) : partial_condition :=
  match c with
  | ParamHeaderCondition s path mode value =>
      PartialCondition (Some (ph_name s)) None None (Some mode) (Some value) None None (Some path)
  | TimeCondition f z mode value rs re_ =>
      PartialCondition (Some SOURCE_TIME) (Some f) (Some z) (Some mode) (Some value) (Some rs)
        (Some re_) None
  end.

(** [x || fallback] on an optional string. *)
Definition or_default (x : option jsstr) (fallback : jsstr) : jsstr :=
  match x with Some s => if truthy_str s then s else fallback | None => fallback end.

Definition isTimeFunc (value : jsstr) : bool := str_mem value TIME_FUNCS.

Definition known_mode (source : jsstr) (mode : option jsstr) (fallback : jsstr) : jsstr :=
  match mode with
  | Some m =>
      if existsb (fun o => str_eqb o.1 m) (getRequestRuleMatchOptions source) then m else fallback
  | None => fallback
  end.

Definition normalizeCondition (cond : option partial_condition) : request_condition :=
  let c := default no_condition cond in
  let from s := match pc_source c with Some x => str_eqb x s | None => false end in
  if from SOURCE_TIME then
    TimeCondition
      (match pc_timeFunc c with
       | Some f => if isTimeFunc f then f else js "hour"
       | None => js "hour"
       end)
      (or_default (pc_timezone c) (js "Asia/Shanghai"))
      (known_mode SOURCE_TIME (pc_mode c) MATCH_GTE)
      (default [] (pc_value c)) (default [] (pc_rangeStart c)) (default [] (pc_rangeEnd c))
  else
    let source := if from SOURCE_HEADER then Sheader else Sparam in
    ParamHeaderCondition source (or_default (pc_path c) [])
      (known_mode (ph_name source) (pc_mode c) MATCH_EQ) (default [] (pc_value c)).

(** ** Building expressions *)

Definition buildExprLiteral (mode value : jsstr) : jsstr :=
  let text := trim value in
  if str_eqb mode MATCH_CONTAINS then json_quote text
  else if str_eqb text (js "true") || str_eqb text (js "false") then text
  else if is_numeric_text text then text
  else json_quote text.

Definition time_operator (mode : jsstr) : jsstr :=
  if str_eqb mode MATCH_GTE then js ">=" else if str_eqb mode MATCH_LT then js "<" else js "==".

Definition buildTimeConditionExpr (cond : request_condition) : jsstr :=
  match normalizeCondition (Some (to_partial cond)) with
  | TimeCondition timeFunc timezone mode value rangeStart rangeEnd =>
      let fn := timeFunc ++ js "(" ++ json_quote timezone ++ js ")" in
      if str_eqb mode MATCH_RANGE then
        let s := trim rangeStart in
        let e := trim rangeEnd in
        if negb (isTimeValueInRange timeFunc s) || negb (isTimeValueInRange timeFunc e) then []
        else if n_gtb (number_of_string s) (number_of_string e)
        then fn ++ js " >= " ++ s ++ js " || " ++ fn ++ js " < " ++ e
        else fn ++ js " >= " ++ s ++ js " && " ++ fn ++ js " < " ++ e
      else
        let v := trim value in
        if negb (isTimeValueInRange timeFunc v) then []
        else fn ++ js " " ++ time_operator mode ++ js " " ++ v
  | ParamHeaderCondition _ _ _ _ => []
  end.

Definition compare_operator (mode : jsstr) : option jsstr :=
  if str_eqb mode MATCH_GT then Some (js ">") else if str_eqb mode MATCH_GTE then Some (js ">=")
  else if str_eqb mode MATCH_LT then Some (js "<") else if str_eqb mode MATCH_LTE then Some (js "<=")
  else None.

Definition buildParamHeaderExpr (cond : request_condition) : jsstr :=
  match normalizeCondition (Some (to_partial cond)) with
  | ParamHeaderCondition source rawPath mode value =>
      let path := trim rawPath in
      if negb (truthy_str path) then []
      else
        let sourceExpr := ph_name source ++ js "(" ++ json_quote path ++ js ")" in
        if str_eqb mode MATCH_EXISTS then
          match source with
          | Sheader => sourceExpr ++ jq " != ''"
          | Sparam => sourceExpr ++ js " != nil"
          end
        else if str_eqb mode MATCH_CONTAINS then
          let has := js "has(" ++ sourceExpr ++ js ", " ++ buildExprLiteral mode value ++ js ")" in
          match source with
          | Sheader => has
          | Sparam => sourceExpr ++ js " != nil && " ++ has
          end
        else
          match compare_operator mode with
          | Some op =>
              let numText := trim value in
              if negb (is_numeric_text numText) then []
              else sourceExpr ++ js " != nil && " ++ sourceExpr ++ js " " ++ op ++ js " " ++ numText
          | None => sourceExpr ++ js " == " ++ buildExprLiteral mode value
          end
  | TimeCondition _ _ _ _ _ _ => []
  end.

Definition buildRequestConditionExpr (cond : request_condition) : jsstr :=
  match cond with
  | TimeCondition _ _ _ _ _ _ => buildTimeConditionExpr cond
  | ParamHeaderCondition _ _ _ _ => buildParamHeaderExpr cond
  end.

Definition buildRuleGroupFactor (group : request_rule_group) : jsstr :=
  let multiplier := trim (g_multiplier group) in
  if negb (is_numeric_text multiplier) then []
  else
    let condExprs := List.filter truthy_str (map buildRequestConditionExpr (g_conditions group)) in
    match condExprs with
    | [] => []
    | _ =>
        let combined :=
          match condExprs with
          | [one] => one
          | _ =>
              join (js " && ")
                (map (fun e => if includes (js " || ") e then js "(" ++ e ++ js ")" else e) condExprs)
          end in
        js "(" ++ combined ++ js " ? " ++ multiplier ++ js " : 1)"
    end.

Definition buildRequestRuleExpr (groups : list request_rule_group) : jsstr :=
  join (js " * ") (List.filter truthy_str (map buildRuleGroupFactor groups)).

Example rule_roundtrip_ex :
  let groups :=
    [RuleGroup [TimeCondition (js "hour") (js "Asia/Shanghai") MATCH_RANGE [] (js "21") (js "6");
                ParamHeaderCondition Sparam (js "service_tier") MATCH_EQ (js "fast")] (js "2.5") None None;
     RuleGroup [ParamHeaderCondition Sheader (js "x-beta") MATCH_CONTAINS (js "a\b")] (js "0.5") None None] in
  tryParseRequestRuleExpr (buildRequestRuleExpr groups) = Ok (Some groups).
Proof. vm_compute. reflexivity. Qed.
