(* ===== verification/BillingExprSpec.v ===== *)
(** * Correctness of the billing expression utilities

    Splitting request rules off an expression inverts combining them; the shown
    fields keep every price of a tier; normalising a condition of the editor is
    idempotent. *)

From S2P Require Import Prelude JsString JsNumber JsRegex JsValue ExprTypes ExprParser ExprParserSpec ExprCompile ExprCompileSpec ExprRuntime ExprRuntimeSpec ExprStructure ExprDisplay ExprDisplaySpec BillingExpr.

(** ** Combining and splitting *)

(** The text closes every bracket and quote it opens and stays inside the brackets
    around it: scanned from depth [depth], it never reaches depth zero.  The
    result is the state after it. *)
Fixpoint inside (text : jsstr) (depth : Z) (quote : option N) : option (Z * option N) :=
  match text with
  | [] => Some (depth, quote)
  | char :: r1 =>
      match quote with
      | Some q =>
          if N.eqb char 92 then
            match r1 with [] => None | _ :: r2 => inside r2 depth quote end
          else inside r1 depth (if N.eqb char q then None else quote)
      | None =>
          if is_quote char then inside r1 depth (Some char)
          else
            let depth := next_depth char depth in
            if Z.eqb depth 0 then None else inside r1 depth None
      end
  end.

Definition balanced (text : jsstr) : bool :=
  match inside text 1 None with Some (1%Z, None) => true | _ => false end.

Lemma inside_split n op rest : forall text depth quote cur parts d q,
  length text <= n -> inside text depth quote = Some (d, q) ->
  split_loop op (text ++ rest) cur 0 depth quote parts =
  split_loop op rest (cur ++ text) 0 d q parts.
Proof.
  induction n as [|n IH]; intros text depth quote cur parts d q Hn Hi.
  - destruct text; [|simpl in Hn; lia]. injection Hi as -> ->. by rewrite app_nil_r.
  - destruct text as [|x r1].
    { injection Hi as -> ->. by rewrite app_nil_r. }
    cbn [app split_loop]. cbn [inside] in Hi. simpl in Hn.
    assert (Happ : forall r, (cur ++ [x]) ++ r = cur ++ x :: r) by (intros; by rewrite <- app_assoc).
    destruct quote as [qc|].
    + destruct (N.eqb x 92).
      * destruct r1 as [|y r2]; [done|]. cbn [app]. simpl in Hn.
        rewrite (IH r2 depth (Some qc) _ parts d q); [|lia|exact Hi]. by rewrite <- app_assoc.
      * rewrite (IH r1 depth _ _ parts d q); [|lia|exact Hi]. by rewrite Happ.
    + destruct (is_quote x).
      { rewrite (IH r1 depth _ _ parts d q); [|lia|exact Hi]. by rewrite Happ. }
      cbn zeta in *. destruct (Z.eqb (next_depth x depth) 0); [done|]. cbn [negb].
      rewrite (IH r1 _ _ _ parts d q); [|lia|exact Hi]. by rewrite Happ.
Qed.

(** Text before the first split point goes to the first piece. *)
Lemma split_prefix n op w : forall rest cur skip depth quote parts,
  length rest <= n ->
  split_loop op rest (w ++ cur) skip depth quote parts =
  match split_loop op rest cur skip depth quote [] with
  | Some (p :: ps) => Some (parts ++ (w ++ p) :: ps)
  | _ => None
  end /\
  split_loop op rest cur skip depth quote parts =
  match split_loop op rest cur skip depth quote [] with
  | Some ps => Some (parts ++ ps)
  | None => None
  end.
Proof.
  induction n as [|n IH]; intros rest cur skip depth quote parts Hn.
  { destruct rest; [done|simpl in Hn; lia]. }
  destruct rest as [|x r1]; [done|]. simpl in Hn. cbn [split_loop].
  assert (Hgo : forall cur' w' skip d q parts, (w ++ cur) ++ w' = w ++ cur' -> 
    split_loop op r1 ((w ++ cur) ++ w') skip d q parts =
    match split_loop op r1 cur' skip d q [] with
    | Some (p :: ps) => Some (parts ++ (w ++ p) :: ps)
    | _ => None
    end).
  { intros cur' w' sk d q ps ->. by apply IH; lia. }
  destruct skip as [|k]; [|by apply IH; lia].
  assert (Hx : (w ++ cur) ++ [x] = w ++ (cur ++ [x])) by (by rewrite <- app_assoc).
  destruct quote as [qc|].
  - destruct (N.eqb x 92); [|rewrite (Hgo _ _ _ _ _ _ Hx); split; [done|by apply IH; lia]].
    destruct r1 as [|y r2]; [by cbn [split_loop]; rewrite Hx|]. simpl in Hn.
    rewrite <- app_assoc. by apply IH; lia.
  - destruct (is_quote x); [rewrite (Hgo _ _ _ _ _ _ Hx); split; [done|by apply IH; lia]|].
    cbn zeta. destruct (negb _); [rewrite (Hgo _ _ _ _ _ _ Hx); split; [done|by apply IH; lia]|].
    destruct (N.eqb x 63); [done|].
    destruct (starts_with op (x :: r1)); [|rewrite (Hgo _ _ _ _ _ _ Hx); split; [done|by apply IH; lia]].
    destruct (IH r1 [] (length op - 1) (next_depth x depth) None (parts ++ [w ++ cur]) ltac:(lia)) as [_ H1].
    destruct (IH r1 [] (length op - 1) (next_depth x depth) None (parts ++ [cur]) ltac:(lia)) as [_ H2].
    destruct (IH r1 [] (length op - 1) (next_depth x depth) None ([] ++ [cur]) ltac:(lia)) as [_ H3].
    rewrite H1, H2, H3. destruct (split_loop op r1 [] (length op - 1) (next_depth x depth) None []); [|done].
    by rewrite <- !app_assoc.
Qed.

Lemma trim_space_left s : trim (32%N :: s) = trim s.
Proof. reflexivity. Qed.

Lemma trim_end_space s : trim_end (s ++ [32%N]) = trim_end s.
Proof. unfold trim_end. by rewrite rev_app_distr. Qed.

Definition parens (s : jsstr) : jsstr := js "(" ++ s ++ js ")".

Lemma parens_trimmed s : trimmed (parens s) = true.
Proof. unfold trimmed, parens. rewrite !rev_app_distr. reflexivity. Qed.

Lemma trim_parens_space s : trim (parens s ++ [32%N]) = parens s.
Proof.
  rewrite <- (trim_id (parens s) (parens_trimmed s)) at 2. unfold trim.
  change (parens s ++ [32%N]) with (40%N :: (s ++ js ")") ++ [32%N]).
  change (trim_start (40%N :: (s ++ js ")") ++ [32%N])) with (parens s ++ [32%N]).
  change (trim_start (parens s)) with (parens s). apply trim_end_space.
Qed.

Lemma split_combined base rules p ps :
  balanced base = true -> split_loop (js "*") rules [] 0 0 None [] = Some (p :: ps) ->
  splitTopLevelMultiply (parens base ++ js " * " ++ rules) =
  parens base :: splitTopLevelMultiply rules.
Proof.
  unfold balanced. intros Hb Hr.
  destruct (inside base 1 None) as [[d q]|] eqn:Hi; [|done].
  assert (d = 1%Z /\ q = None) as [-> ->].
  { destruct d as [|[]|], q; try done. }
  unfold splitTopLevelMultiply, splitExpressionAtTopLevel. rewrite Hr.
  assert (Hs : split_loop (js "*") (parens base ++ js " * " ++ rules) [] 0 0 None [] =
    Some ((parens base ++ [32%N]) :: (32%N :: p) :: ps)).
  { unfold parens. rewrite <- app_assoc.
    change (split_loop (js "*") (js "(" ++ (base ++ js ")") ++ js " * " ++ rules) [] 0 0 None [])
      with (split_loop (js "*") ((base ++ js ")") ++ js " * " ++ rules) [40%N] 0 1 None []).
    rewrite <- app_assoc. rewrite (inside_split (length base) _ _ base 1 None _ _ 1%Z None) by done.
    change (split_loop (js "*") (js ")" ++ js " * " ++ rules) ([40%N] ++ base) 0 1 None [])
      with (split_loop (js "*") rules [32%N] 0 0 None [((([40%N] ++ base) ++ [41%N]) ++ [32%N])]).
    destruct (split_prefix (length rules) (js "*") [32%N] rules [] 0 0 None
      [((([40%N] ++ base) ++ [41%N]) ++ [32%N])] ltac:(lia)) as [H1 _].
    change ([32%N] ++ []) with [32%N] in H1. rewrite H1, Hr. cbn [app].
    done. }
  rewrite Hs. cbn [map]. rewrite trim_parens_space, trim_space_left. reflexivity.
Qed.

Lemma unwrap_parens base :
  trim base = base -> closesAtEnd (parens base) = true -> unwrappable base = false ->
  unwrapExpressionParens (parens base) = base.
Proof.
  intros Ht Hc Hu. unfold unwrapExpressionParens.
  rewrite (trim_id (parens base) (parens_trimmed base)).
  assert (Hw : unwrappable (parens base) = true).
  { unfold unwrappable. rewrite Hc, andb_true_r. unfold parens, ends_with.
    rewrite !rev_app_distr. reflexivity. }
  assert (Hin : inner (parens base) = base).
  { pose proof (unwrappable_inner _ Hw) as E. unfold parens in E at 1.
    change (js "(") with [40%N] in E. change (js ")") with [41%N] in E.
    injection E as E. apply app_inj_tail in E as [E _]. symmetry. exact E. }
  destruct (length (parens base)) as [|k] eqn:El; [discriminate El|]. cbn [unwrap_loop].
  fold (unwrappable (parens base)). rewrite Hw, Hin, Ht.
  destruct k; cbn [unwrap_loop]; [done|]. fold (unwrappable base). by rewrite Hu.
Qed.

Lemma combined_trimmed base rules :
  rules <> [] -> trim rules = rules -> trim (parens base ++ js " * " ++ rules) = parens base ++ js " * " ++ rules.
Proof.
  intros Hne Ht. apply trim_id. pose proof (trim_trimmed rules) as Hr. rewrite Ht in Hr.
  unfold trimmed in *. apply andb_true_iff in Hr as [_ Hr]. apply andb_true_iff. split; [done|].
  rewrite !rev_app_distr. destruct (rev rules) as [|x l] eqn:E; [|exact Hr].
  apply (f_equal (@rev N)) in E. by rewrite rev_involutive in E.
Qed.

Section combine.
Context `{Host}.

Lemma partition_rules parts : forall ruleParts baseParts,
  Forall (fun p => is_rule_part p = Ok true) parts ->
  partition_parts parts ruleParts baseParts = Ok (ruleParts ++ parts, baseParts).
Proof.
  induction parts as [|p ps IH]; intros rp bp Hf; cbn [partition_parts]; [by rewrite app_nil_r|].
  inversion Hf as [|? ? Hp Hps]; subst. rewrite Hp, IH by done. by rewrite <- app_assoc.
Qed.

Lemma partition_base part rest ruleParts baseParts :
  is_rule_part part = Ok false ->
  partition_parts (part :: rest) ruleParts baseParts =
  partition_parts rest ruleParts (baseParts ++ [part]).
Proof. intros Hp. cbn [partition_parts]. by rewrite Hp. Qed.

(** A base and rules that combining keeps apart: the base is trimmed, not
    parenthesised, balanced and no rule, and the rules split into request-rule
    factors. *)
Record combinable (base rules : jsstr) : Prop := {
  co_nonempty : base <> [];
  co_trimmed : trim base = base;
  co_count : base <> js "image_count";
  co_balanced : balanced base = true;
  co_closed : closesAtEnd (parens base) = true;
  co_bare : unwrappable base = false;
  co_no_rule : is_rule_part (parens base) = Ok false;
  co_rules_trimmed : trim rules = rules;
  co_split : exists p ps, split_loop (js "*") rules [] 0 0 None [] = Some (p :: ps);
  co_factors : splitTopLevelMultiply rules <> [];
  co_join : join (js " * ") (splitTopLevelMultiply rules) = rules;
  co_rules : Forall (fun x => is_rule_part x = Ok true) (splitTopLevelMultiply rules);
}.

Lemma combinable_split base rules : combinable base rules ->
  splitBillingExprAndRequestRules (combineBillingExpr base rules) = Ok (base, rules).
Proof.
  intros [Hb Htb Hi Hbal Hcl Hu Hnr Htr (p & ps & Hs) Hne Hj Hf].
  assert (Hrne : rules <> []).
  { intros ->. rewrite <- Hj in Hne. by destruct (splitTopLevelMultiply []) as [|[] []]. }
  unfold combineBillingExpr. rewrite Htb, Htr. cbn zeta.
  destruct base as [|b0 base0] eqn:Eb; [done|]. rewrite <- Eb in *.
  replace (negb (truthy_str base)) with false by (by rewrite Eb).
  destruct rules as [|r0 rules0] eqn:Er; [done|]. rewrite <- Er in *.
  replace (negb (truthy_str rules)) with false by (by rewrite Er). cbv iota.
  change (js "(" ++ base ++ js ") * " ++ rules) with (js "(" ++ base ++ js ")" ++ js " * " ++ rules).
  replace (js "(" ++ base ++ js ")" ++ js " * " ++ rules) with (parens base ++ js " * " ++ rules)
    by (unfold parens; by rewrite <- !app_assoc).
  unfold splitBillingExprAndRequestRules. rewrite combined_trimmed by done. cbn zeta.
  change (negb (truthy_str (parens base ++ js " * " ++ rules))) with false. cbv iota.
  rewrite (split_combined base rules p ps Hbal Hs).
  destruct (splitTopLevelMultiply rules) as [|x xs] eqn:Ex; [done|].
  change (Nat.leb (length (parens base :: x :: xs)) 1) with false. cbv iota.
  rewrite (partition_base _ _ _ _ Hnr).
  rewrite (partition_rules (x :: xs)) by done. cbn [app List.filter map length].
  unfold unwrapOuterParens. rewrite (unwrap_parens base) by done.
  destruct (str_eqb base (js "image_count")) eqn:Ei; [by apply str_eqb_eq in Ei|].
  cbn [length Nat.sub Nat.eqb negb orb]. by rewrite <- Hj.
Qed.

(** Rules that splitting gets back from what combining made of them: combinable
    ones, or none, with a base that is a single factor or has no rule among its
    factors. *)
Definition separable (base rules : jsstr) : Prop :=
  combinable base rules \/
  (base <> [] /\ rules = [] /\
   (length (splitTopLevelMultiply base) <= 1 \/
    Forall (fun x => is_rule_part x = Ok false) (splitTopLevelMultiply base)))%nat.

Lemma partition_bases parts : forall baseParts,
  Forall (fun p => is_rule_part p = Ok false) parts ->
  partition_parts parts [] baseParts = Ok ([], baseParts ++ parts).
Proof.
  induction parts as [|p ps IH]; intros bp Hf; [by rewrite app_nil_r|].
  inversion Hf as [|? ? Hp Hps]; subst. rewrite partition_base, IH by done. by rewrite <- app_assoc.
Qed.

Lemma separable_split base rules : separable (trim base) (trim rules) ->
  splitBillingExprAndRequestRules (combineBillingExpr base rules) = Ok (trim base, trim rules).
Proof.
  assert (Hc : combineBillingExpr base rules = combineBillingExpr (trim base) (trim rules))
    by (unfold combineBillingExpr; by rewrite !trim_idem).
  rewrite Hc. intros [Hs|(Hb & -> & Hp)]; [by apply combinable_split|].
  unfold combineBillingExpr. rewrite trim_idem. destruct (trim base) as [|b0 base0] eqn:Eb; [done|].
  rewrite <- Eb in *. replace (negb (truthy_str (trim base))) with false by (by rewrite Eb).
  change (negb (truthy_str (trim []))) with true. cbv iota. unfold splitBillingExprAndRequestRules.
  rewrite trim_idem. replace (negb (truthy_str (trim base))) with false by (by rewrite Eb). cbv iota.
  destruct (Nat.leb_spec (length (splitTopLevelMultiply (trim base))) 1) as [|Hl]; [done|].
  destruct Hp as [Hp|Hp]; [lia|]. by rewrite partition_bases.
Qed.

(** C21: splitting inverts combining: for a base that is trimmed, not
    parenthesised, balanced and no rule, and rules that split into request-rule
    factors, splitting the combined expression returns the base and the rules. *)
Theorem split_combine base rules p ps :
  base <> [] -> trim base = base -> base <> js "image_count" ->
  balanced base = true -> closesAtEnd (parens base) = true -> unwrappable base = false ->
  is_rule_part (parens base) = Ok false ->
  trim rules = rules ->
  split_loop (js "*") rules [] 0 0 None [] = Some (p :: ps) ->
  splitTopLevelMultiply rules <> [] ->
  join (js " * ") (splitTopLevelMultiply rules) = rules ->
  Forall (fun x => is_rule_part x = Ok true) (splitTopLevelMultiply rules) ->
  splitBillingExprAndRequestRules (combineBillingExpr base rules) = Ok (base, rules).
Proof. intros. apply combinable_split. by split; eauto. Qed.
End combine.

Definition combine_base : jsstr := jq "tier('base', p * 2 + c * 8)".
Definition combine_rules : jsstr :=
  jq "(hour('UTC') >= 9 ? 2 : 1) * (header('x-fast') != '' ? 1.5 : 1)".

Lemma split_combine_witness :
  splitBillingExprAndRequestRules (H := plain_host) (combineBillingExpr combine_base combine_rules) =
  Ok (combine_base, combine_rules).
Proof.
  assert (Hs : exists p ps, split_loop (js "*") combine_rules [] 0 0 None [] = Some (p :: ps)).
  { eexists _, _. vm_compute. reflexivity. }
  destruct Hs as (p & ps & Hs).
  apply (split_combine (H := plain_host) combine_base combine_rules p ps).
  - discriminate.
  - vm_compute. reflexivity.
  - discriminate.
  - vm_compute. reflexivity.
  - vm_compute. reflexivity.
  - vm_compute. reflexivity.
  - vm_compute. reflexivity.
  - vm_compute. reflexivity.
  - exact Hs.
  - vm_compute. discriminate.
  - vm_compute. reflexivity.
  - replace (splitTopLevelMultiply combine_rules)
      with [jq "(hour('UTC') >= 9 ? 2 : 1)"; jq "(header('x-fast') != '' ? 1.5 : 1)"]
      by (vm_compute; reflexivity).
    repeat constructor; vm_compute; reflexivity.
Defined.

(** ** Shown prices *)

Lemma key_to_field_inj v w f :
  assoc_get str_eqb v BILLING_VAR_KEY_TO_FIELD = Some f ->
  assoc_get str_eqb w BILLING_VAR_KEY_TO_FIELD = Some f -> v = w.
Proof.
  intros Hv%assoc_get_In Hw%assoc_get_In. revert Hv Hw.
  assert (Hn : NoDup (map snd BILLING_VAR_KEY_TO_FIELD)).
  { apply (bool_decide_unpack _). vm_compute. exact I. }
  revert Hn. generalize BILLING_VAR_KEY_TO_FIELD. intros l.
  induction l as [|[k g] l IH]; [done|]. cbn [map snd]. intros [Hg Hn]%list.NoDup_cons Hv Hw.
  destruct Hv as [[= -> ->]|Hv], Hw as [[= ->]|Hw].
  - done.
  - exfalso. apply Hg, list_elem_of_In, in_map_iff. by exists (w, f).
  - subst g. exfalso. apply Hg, list_elem_of_In, in_map_iff. by exists (v, f).
  - by apply IH.
Qed.

Lemma tokenTier_prices_wf t :
  NoDup (map fst (tt_prices t)) ->
  (forall v x, In (v, x) (tt_prices t) -> exists f, assoc_get str_eqb v BILLING_VAR_KEY_TO_FIELD = Some f) ->
  forall v x, In (v, x) (tt_prices t) ->
  exists f, assoc_get str_eqb v BILLING_VAR_KEY_TO_FIELD = Some f /\
    assoc_get str_eqb f (pt_fields (mapTokenTier t)) = Some x.
Proof.
  intros Hn Hd v x Hin. destruct (Hd v x Hin) as (f & Hf). exists f. split; [done|].
  cbn [mapTokenTier pt_fields].
  assert (Hkeep : forall (l acc : list (jsstr * num)) (y : num), (forall w z, In (w, z) l -> w <> v /\
      exists g, assoc_get str_eqb w BILLING_VAR_KEY_TO_FIELD = Some g) ->
    assoc_get str_eqb f acc = Some y ->
    assoc_get str_eqb f (fold_left (fun acc kp => assoc_set str_eqb
      (default (js "undefined") (assoc_get str_eqb kp.1 BILLING_VAR_KEY_TO_FIELD)) kp.2 acc) l acc) = Some y).
  { induction l as [|[w z] l IH]; intros acc y Hl Ha; [done|]. cbn [fold_left].
    apply IH; [intros w' z' Hw; apply (Hl w' z'); by right|]. cbn [fst snd].
    destruct (Hl w z (or_introl eq_refl)) as [Hne (g & Hg)]. rewrite Hg.
    change (default (js "undefined") (Some g)) with g.
    rewrite assoc_get_set_ne; [done|apply str_eqb_eq|].
    intros <-. apply Hne. by eapply key_to_field_inj. }
  revert Hn Hd Hin. generalize (@nil (jsstr * num)). induction (tt_prices t) as [|[w z] l IH];
    intros acc Hn Hd Hin; [done|]. cbn [map fst] in Hn. apply list.NoDup_cons in Hn as [Hw Hn].
  cbn [fold_left]. destruct Hin as [[= -> ->]|Hin].
  - apply Hkeep.
    + intros w' z' Hin. split; [|apply (Hd w' z'); by right]. intros ->. apply Hw.
      apply list_elem_of_In, in_map_iff. by exists (v, z').
    + cbn [fst snd]. rewrite Hf. by apply assoc_get_set_eq, str_eqb_eq.
  - apply IH; [done| |done]. intros w' z' Hin'. apply (Hd w' z'). by right.
Qed.

(** The prices of a tier: distinct variables, each with a price field. *)
Definition prices_ok (ps : list (jsstr * num)) : Prop :=
  NoDup (map fst ps) /\
  forall v x, In (v, x) ps -> exists f, assoc_get str_eqb v BILLING_VAR_KEY_TO_FIELD = Some f.

Lemma variable_has_field v :
  In v BILLING_VARIABLES -> v <> js "len" -> v <> js "image_count" ->
  exists f, assoc_get str_eqb v BILLING_VAR_KEY_TO_FIELD = Some f.
Proof.
  intros Hv Hl Hi. unfold BILLING_VARIABLES, TOKEN_VARIABLES in Hv. cbn [map app In] in Hv.
  repeat match type of Hv with _ \/ _ => destruct Hv as [<-|Hv] end; try done; by eexists.
Qed.

Lemma input_variable_field e v :
  node_wf e -> input_variable e = Some v ->
  exists f, assoc_get str_eqb v BILLING_VAR_KEY_TO_FIELD = Some f.
Proof.
  intros Hw Hi. destruct e as [|name sp|name args sp| | |]; try done; unfold input_variable in Hi.
  - destruct (str_eqb name (js "len")) eqn:E1, (str_eqb name (js "image_count")) eqn:E2; try done.
    injection Hi as <-. apply variable_has_field; [done|by apply str_eqb_neq|by apply str_eqb_neq].
  - assert (v = js "p") as -> by (inv_ok Hi; done). by eexists.
Qed.

Lemma token_term_prices ps e ps' :
  Forall node_wf (postorder e) -> prices_ok ps -> token_term ps e = Some ps' -> prices_ok ps'.
Proof.
  intros Hw [Hn Hd] Ht. destruct e as [| | | |op l r sp|]; try done. cbn [token_term] in Ht.
  assert (Hl : node_wf l /\ node_wf r).
  { rewrite List.Forall_forall in Hw. split; apply Hw; cbn [postorder]; rewrite !in_app_iff;
      [left|right; left]; apply postorder_self. }
  destruct (negb _); [done|].
  match type of Ht with match ?x with _ => _ end = _ => destruct x as [[input price]|] eqn:Ep end; [|done].
  assert (Hi : node_wf input) by (inv_ok Ep; apply Hl).
  destruct (input_variable input) as [v|] eqn:Ev; [|done].
  destruct (assoc_mem str_eqb v ps) eqn:Em; [done|]. injection Ht as <-.
  assert (Hg : assoc_get str_eqb v ps = None) by (unfold assoc_mem in Em; by destruct (assoc_get str_eqb v ps)).
  rewrite assoc_set_fresh by done. split.
  - rewrite map_app. apply list.NoDup_app. split; [done|]. split; [|by apply list.NoDup_singleton].
    intros x Hx Hx'. simpl in Hx'. apply list_elem_of_In in Hx, Hx'. destruct Hx' as [<-|[]].
    by apply assoc_get_None in Hg.
  - intros w y [Hin|[[= <- <-]|[]]]%in_app_iff; [by eapply Hd|by eapply input_variable_field].
Qed.

Lemma fold_option_inv {A B} (P : A -> Prop) (Q : B -> Prop) (f : B -> A -> option B) l :
  (forall b x b', P x -> Q b -> f b x = Some b' -> Q b') ->
  Forall P l -> forall b b', Q b -> fold_option f l b = Some b' -> Q b'.
Proof.
  intros Hf. induction 1 as [|x l Hx _ IH]; intros b b' Hb; simpl; [by intros [= <-]|].
  destruct (f b x) as [b1|] eqn:E; [|done]. apply IH. by eapply Hf.
Qed.

Lemma flatten_wf op e :
  Forall node_wf (postorder e) -> Forall (fun x => Forall node_wf (postorder x)) (flattenBinary e op).
Proof.
  induction e as [v i sp|name sp|name args sp|o x IHx sp|o l IHl r IHr sp|cn IHc y IHy n IHn sp];
    intros Hw; cbn [flattenBinary]; try (by apply Forall_singleton).
  destruct (negb _); [by apply Forall_singleton|]. cbn [postorder] in Hw.
  apply Forall_app in Hw as [Hl [Hr _]%Forall_app]. apply Forall_app. auto.
Qed.

Lemma tokenTier_prices node cs t :
  Forall node_wf (postorder node) -> tokenTier node cs = Some t -> prices_ok (tt_prices t).
Proof.
  intros Hw Ht. assert (Hnil : prices_ok []) by (split; [constructor|done]).
  destruct node as [| |name args sp| | |]; try done.
  destruct args as [|label [|body rest]]; [done|destruct label as [[]| | | | |]; done|].
  destruct label as [[|label| |] li lsp| | | | |]; try done. cbn [tokenTier] in Ht.
  destruct (negb _); [done|]. destruct (fixed_amount body); [by injection Ht as <-|].
  destruct (fold_option _ _ _) as [prices|] eqn:Ep; [|done].
  assert (prices_ok prices).
  { eapply (fold_option_inv _ _ _ _ token_term_prices); [|exact Hnil|exact Ep].
    apply flatten_wf. rewrite List.Forall_forall in Hw |- *. intros n Hn. apply Hw.
    eapply postorder_child; [right; left; reflexivity|done]. }
  destruct prices; [done|]. by injection Ht as <-.
Qed.

Lemma child_wf e x : Forall node_wf (postorder e) -> In x (children e) -> Forall node_wf (postorder x).
Proof.
  rewrite !List.Forall_forall. intros Hw Hx n Hn. apply Hw. by eapply postorder_child.
Qed.

Definition tiers_ok (ts : list token_tier) : Prop := Forall (fun t => prices_ok (tt_prices t)) ts.

Lemma chain_loop_prices e : forall tiers all,
  Forall node_wf (postorder e) -> tiers_ok tiers -> chain_loop e tiers = Some all -> tiers_ok all.
Proof.
  assert (Hleaf : forall e tiers all, Forall node_wf (postorder e) -> tiers_ok tiers ->
    (let! fallback := tokenTier e [] in Some (tiers ++ [fallback])) = Some all -> tiers_ok all).
  { intros e' tiers all Hw Ht Ha. destruct (tokenTier e' []) as [t|] eqn:E; [|done].
    injection Ha as <-. apply Forall_app. split; [done|]. apply Forall_singleton.
    by eapply tokenTier_prices. }
  induction e as [v i sp|name sp|name args sp|o x IHx sp|o l IHl r IHr sp|cn IHc y IHy n IHn sp];
    intros tiers all Hw Ht Ha; try (by eapply Hleaf). cbn [chain_loop] in Ha.
  destruct (tokenConditions cn); [|done]. destruct (tokenTier y _) as [t|] eqn:Et; [|done].
  eapply IHn; [| |exact Ha].
  - eapply child_wf; [exact Hw|]. do 2 right. by left.
  - apply Forall_app. split; [done|]. apply Forall_singleton. eapply tokenTier_prices; [|exact Et].
    eapply child_wf; [exact Hw|]. right. by left.
Qed.

Lemma chain_prices e tiers :
  Forall node_wf (postorder e) -> readTokenTierChain e = Some tiers -> tiers_ok tiers.
Proof.
  assert (Hloop : forall e tiers, Forall node_wf (postorder e) ->
    chain_loop e [] = Some tiers -> tiers_ok tiers).
  { intros e' ts Hw Hc. eapply chain_loop_prices; [done|constructor|done]. }
  assert (Himg : forall ts, tiers_ok ts -> tiers_ok (map with_image_count ts)).
  { intros ts Ht. by apply Forall_map. }
  revert tiers.
  induction e as [v i sp|name sp|name args sp|o x IHx sp|o l IHl r IHr sp|cn IHc y IHy n IHn sp];
    intros tiers Hw Hr; cbn [readTokenTierChain audio_tiers] in Hr; try (by apply Hloop in Hr).
  - destruct (str_eqb o _); cbn [andb] in Hr; [|by apply Hloop in Hr].
    destruct (is_image_count l); [|destruct (is_image_count r)]; [| |by apply Hloop in Hr].
    + destruct (readTokenTierChain r) as [ts|]; [|done]. injection Hr as <-. apply Himg, IHr; [|done].
      eapply child_wf; [exact Hw|]. right. by left.
    + destruct (readTokenTierChain l) as [ts|]; [|done]. injection Hr as <-. apply Himg, IHl; [|done].
      eapply child_wf; [exact Hw|]. by left.
  - destruct (audio_condition cn); [|by apply Hloop in Hr].
    destruct (tokenTier y []) as [a|] eqn:Ey; [|by apply Hloop in Hr].
    destruct (tokenTier n []) as [t|] eqn:En; [|by apply Hloop in Hr]. injection Hr as <-.
    repeat apply Forall_cons; try apply Forall_nil.
    + apply (tokenTier_prices y [] a); [|exact Ey]. eapply child_wf; [exact Hw|]. right. by left.
    + apply (tokenTier_prices n [] t); [|exact En]. eapply child_wf; [exact Hw|]. do 2 right. by left.
Qed.

(** Showing a tier keeps every price: for each tier read off a parsed
    expression, each price variable has a field of its own in the shown tier, and
    that field holds its price. *)
Theorem shown_prices_kept source e tiers t v x :
  parse source = Ok e -> readTokenTierChain e = Some tiers -> In t tiers ->
  In (v, x) (tt_prices t) ->
  exists f, assoc_get str_eqb v BILLING_VAR_KEY_TO_FIELD = Some f /\
    assoc_get str_eqb f (pt_fields (mapTokenTier t)) = Some x.
Proof.
  intros Hp Hr Ht Hin. pose proof (parse_ok source) as Hw. rewrite Hp in Hw.
  destruct Hw as [[_ [Hw _]] _]. pose proof (chain_prices e tiers Hw Hr) as Hok.
  eapply List.Forall_forall in Hok as [Hn Hd]; [|exact Ht]. by apply tokenTier_prices_wf.
Qed.

Definition shown_source : jsstr := jq "tier('base', p * 2 + c * 8 + cr * 0.5)".

Lemma shown_prices_kept_witness :
  match parse shown_source with
  | Ok e =>
      match readTokenTierChain e with
      | Some [t] =>
          exists f, assoc_get str_eqb (js "c") BILLING_VAR_KEY_TO_FIELD = Some f /\
            assoc_get str_eqb f (pt_fields (mapTokenTier t)) = Some (n_of_Z 8)
      | _ => False
      end
  | Err _ => False
  end.
Proof.
  destruct (parse shown_source) as [e|] eqn:Hp; [|vm_compute in Hp; discriminate Hp].
  destruct (readTokenTierChain e) as [[|t [|]]|] eqn:Hr;
    try (vm_compute in Hp; injection Hp as <-; vm_compute in Hr; discriminate Hr).
  apply (shown_prices_kept shown_source e [t] t (js "c") (n_of_Z 8) Hp Hr); [by left|].
  vm_compute in Hp. injection Hp as <-. vm_compute in Hr. injection Hr as <-. vm_compute. auto.
Defined.

(** ** Conditions of the editor *)

Lemma known_mode_idem source mode fallback :
  existsb (fun o => str_eqb o.1 fallback) (getRequestRuleMatchOptions source) = true ->
  known_mode source (Some (known_mode source mode fallback)) fallback = known_mode source mode fallback.
Proof.
  intros Hf. unfold known_mode. destruct mode as [m|]; [|by rewrite Hf].
  destruct (existsb (fun o => str_eqb o.1 m) _) eqn:E; [by rewrite E|by rewrite Hf].
Qed.

Lemma or_default_idem x d : or_default (Some (or_default x d)) d = or_default x d.
Proof. destruct x as [[|]|]; simpl; by destruct d. Qed.

(** A normalised condition offers one of its source's match modes, and a time
    condition a known time function and a zone. *)
Definition condition_ok (c : request_condition) : Prop :=
  match c with
  | ParamHeaderCondition s _ mode _ =>
      existsb (fun o => str_eqb o.1 mode) (getRequestRuleMatchOptions (ph_name s)) = true
  | TimeCondition f z mode _ _ _ =>
      In f TIME_FUNCS /\ z <> [] /\
      existsb (fun o => str_eqb o.1 mode) (getRequestRuleMatchOptions SOURCE_TIME) = true
  end.

Lemma known_mode_ok source mode fallback :
  existsb (fun o => str_eqb o.1 fallback) (getRequestRuleMatchOptions source) = true ->
  existsb (fun o => str_eqb o.1 (known_mode source mode fallback)) (getRequestRuleMatchOptions source) = true.
Proof.
  intros Hf. unfold known_mode. destruct mode as [m|]; [|done].
  by destruct (existsb (fun o => str_eqb o.1 m) _) eqn:E.
Qed.

(** Normalising a condition, whatever fields it lacks or mistypes, yields one
    whose mode its source offers and whose time function and zone are known, and
    normalising it again changes nothing. *)
Theorem normalizeCondition_idem cond :
  condition_ok (normalizeCondition cond) /\
  normalizeCondition (Some (to_partial (normalizeCondition cond))) = normalizeCondition cond.
Proof.
  unfold normalizeCondition. cbn zeta. set (c := default no_condition cond).
  destruct (match pc_source c with Some x => str_eqb x SOURCE_TIME | None => false end) eqn:Es.
  - split.
    + split; [|split].
      * destruct (pc_timeFunc c) as [f|]; [|by left].
        unfold isTimeFunc. destruct (str_mem f TIME_FUNCS) eqn:E; [by apply str_mem_In|by left].
      * by destruct (pc_timezone c) as [[|]|].
      * by apply known_mode_ok.
    + cbn -[known_mode or_default isTimeFunc getRequestRuleMatchOptions]. f_equal.
      * destruct (pc_timeFunc c) as [f|]; [|done]. destruct (isTimeFunc f) eqn:E; [by rewrite E|done].
      * apply or_default_idem.
      * by apply known_mode_idem.
  - destruct (match pc_source c with Some x => str_eqb x SOURCE_HEADER | None => false end);
      (split; [by apply known_mode_ok|]); cbn -[known_mode or_default getRequestRuleMatchOptions]; f_equal;
      try apply or_default_idem; by apply known_mode_idem.
Qed.

(** ** What the rule editor does not keep *)

Definition cost_at (source : jsstr) (t : Z) : option num :=
  match evaluateBillingExpression (H := plain_host) source
          (Context None None None None (Some (Some t))) with
  | Success v => Some (cost v)
  | Failed _ => None
  end.

(** A rule that never applies, written with [&&]: no hour is at least 22 and below
    6.  The rule parser reads it as the range 22 to 6 and the builder writes that
    range with [||], so saving the rule unchanged doubles the price at 23:00. *)
Lemma time_range_reinterpreted :
  let source := jq "(hour('UTC') >= 22 && hour('UTC') < 6 ? 2 : 1)" in
  match tryParseRequestRuleExpr source with
  | Ok (Some groups) =>
      buildRequestRuleExpr groups = jq "(hour('UTC') >= 22 || hour('UTC') < 6 ? 2 : 1)" /\
      cost_at source 82800000 = Some (n_of_Z 1) /\
      cost_at (buildRequestRuleExpr groups) 82800000 = Some (n_of_Z 2)
  | _ => False
  end.
Proof. vm_compute. auto. Qed.

(** A rule the engine compiles, whose string the rule parser hands to [JSON.parse],
    which refuses the escape and throws out of [tryParseRequestRuleExpr]. *)
Lemma rule_parse_throws :
  let source := jq "(has(header('a'), '\x41') ? 2 : 1)" in
  is_ok (compile_expr source) = true /\ tryParseRequestRuleExpr source = Err EngineError.
Proof. vm_compute. auto. Qed.
