(* ===== verification/ExprVisual.v ===== *)
(** * The visual editor's documents

    Models [billing-expression/visual.ts]: reading a compiled expression into a tree
    of branches, conditions and priced tiers, and writing the tree back, reusing the
    source text of everything that was not edited. *)

From S2P Require Import Prelude JsString JsNumber JsRegex JsValue ExprTypes ExprParser ExprCompile ExprRuntime ExprDisplay.

(** ** Documents *)

Inductive visual_condition : Type :=
| VComparison (id : jsstr) (origin : option expr) (probe timezone operator value : jsstr)
| VAll (id : jsstr) (origin : option expr) (children : list visual_condition)
| VAny (id : jsstr) (origin : option expr) (children : list visual_condition)
| VNot (id : jsstr) (origin : option expr) (child : visual_condition).

Record visual_price := VisualPrice {
  vp_variable : jsstr;
  vp_value : jsstr;
  vp_origin : option expr;
}.

Inductive visual_pricing : Type :=
| VTier (id : jsstr) (origin : option expr) (label : jsstr) (prices : list visual_price)
    (billingUnit : billing_unit) (fixedPrice : jsstr)
| VBranch (id : jsstr) (origin : option expr) (condition : visual_condition)
    (yes no : visual_pricing).

Record visual_document := VisualDocument {
  vd_source : jsstr;
  vd_root : visual_pricing;
  vd_imageCount : bool;
}.

Record visual_issue := Issue { issue_id : jsstr; issue_message : jsstr }.

Inductive serialization : Type :=
| Serialized (source : jsstr)
| Issues (issues : list visual_issue).

Definition condition_origin (c : visual_condition) : option expr :=
  match c with
  | VComparison _ o _ _ _ _ | VAll _ o _ | VAny _ o _ | VNot _ o _ => o
  end.
Definition pricing_id (p : visual_pricing) : jsstr :=
  match p with VTier i _ _ _ _ _ | VBranch i _ _ _ _ => i end.
Definition pricing_origin (p : visual_pricing) : option expr :=
  match p with VTier _ o _ _ _ _ | VBranch _ o _ _ _ => o end.

Definition VISUAL_COMPARISONS : list jsstr :=
  [js "<"; js "<="; js ">"; js ">="; js "=="; js "!="].
Definition TIME_DOMAINS : list (jsstr * (Z * Z)) :=
  [(js "hour", (0, 23)); (js "minute", (0, 59)); (js "weekday", (0, 6)); (js "month", (1, 12));
   (js "day", (1, 31))]%Z.

(** [visualNodeId] increments the module's counter. *)
Definition visualNodeId (nextId : nat) : jsstr * nat :=
  (js "draft-" ++ str_of_nat (S nextId), S nextId).
Definition createEmptyVisualCondition (nextId : nat) : visual_condition * nat :=
  let '(id, n) := visualNodeId nextId in
  (VComparison id None (js "hour") (js "Asia/Shanghai") (js ">=") [], n).

(** ** Reading *)

Definition node_id (prefix : string) (node : expr) : jsstr :=
  js prefix ++ str_of_nat (estart node) ++ js "-" ++ str_of_nat (eend node).

(** The probe of a comparison: a token count, or a time function and its zone. *)
Definition read_probe (e : expr) : option (jsstr * jsstr) :=
  match e with
  | EVar name _ => if str_mem name CONDITION_VARIABLES then Some (name, []) else None
  | ECall name (ELit (LStr zone) _ _ :: _) _ =>
      if is_time_function name then Some (name, zone) else None
  | _ => None
  end.

(** The fuel bounds the height; [ExprVisualSpec.read_condition_fuel] shows the node's size is enough. *)
Fixpoint read_condition (fuel : nat) (node : expr) : option visual_condition :=
  match fuel with
  | O => None
  | S f =>
      let id := node_id "condition-" node in
      match node with
      | EUnary op x _ =>
          if str_eqb op (js "!") then
            let! child := read_condition f x in Some (VNot id (Some node) child)
          else None
      | EBinary op l r _ =>
          if str_mem op [js "&&"; js "||"] then
            let! children := collect (read_condition f) (flattenBinary node op) in
            Some (if str_eqb op (js "&&") then VAll id (Some node) children
                  else VAny id (Some node) children)
          else if negb (str_mem op VISUAL_COMPARISONS) then None
          else
            match r with
            | ELit (LNum x) _ _ =>
                let! (probe, timezone) := read_probe l in
                Some (VComparison id (Some node) probe timezone op (string_of_number x))
            | _ => None
            end
      | _ => None
      end
  end.

Definition readVisualCondition (node : expr) : option visual_condition :=
  read_condition (expr_size node) node.

(** One term of a tier: [variable * price]. *)
Definition read_price (prices : list visual_price) (term : expr) : option (list visual_price) :=
  match term with
  | EBinary op (EVar variable _) (ELit (LNum x) _ _) _ =>
      if negb (str_eqb op (js "*")) || str_eqb variable (js "len")
         || str_eqb variable (js "image_count") || n_ltb x n_zero
      then None
      else if existsb (fun p => str_eqb (vp_variable p) variable) prices then None
      else Some (prices ++ [VisualPrice variable (string_of_number x) (Some term)])
  | _ => None
  end.

Definition fixed_literal (body : expr) : option literal :=
  match body with
  | ECall name (ELit v _ _ :: _) _ => if str_eqb name (js "fixed") then Some v else None
  | _ => None
  end.

Fixpoint readVisualPricing (node : expr) : option visual_pricing :=
  let id := node_id "pricing-" node in
  match node with
  | ECond c y n _ =>
      let! condition := readVisualCondition c in
      let! yes := readVisualPricing y in
      let! no := readVisualPricing n in
      Some (VBranch id (Some node) condition yes no)
  | ECall name (ELit (LStr label) _ _ :: body :: _) _ =>
      if negb (str_eqb name (js "tier")) then None
      else
        match fixed_literal body with
        | Some v => Some (VTier id (Some node) label [] Urequest (string_of_literal v))
        | None =>
            let! prices := fold_option read_price (flattenBinary body (js "+")) [] in
            Some (VTier id (Some node) label prices Utoken [])
        end
  | _ => None
  end.

Definition imageCountPricingRoot (node : expr) : option expr :=
  match node with
  | EBinary op l r _ =>
      if negb (str_eqb op (js "*")) then None
      else if is_image_count r then Some l
      else if is_image_count l then Some r
      else None
  | _ => None
  end.

(** ** Writing *)

Abbreviation patch := (expr * jsstr)%type.

(** [sort((a, b) => b.node.start - a.node.start)], stable. *)
Fixpoint insert_patch (p : patch) (l : list patch) : list patch :=
  match l with
  | [] => [p]
  | q :: l' => if Nat.ltb (estart q.1) (estart p.1) then p :: l else q :: insert_patch p l'
  end.
Definition sort_patches (l : list patch) : list patch :=
  fold_left (fun acc p => insert_patch p acc) l [].

(** The patched nodes are descendants of [origin]. *)
Definition apply_patch (origin : expr) (result : jsstr) (p : patch) : jsstr :=
  take (estart p.1 - estart origin) result ++ p.2 ++ drop (eend p.1 - estart origin) result.

Definition patchSource (source : jsstr) (origin : expr) (patches : list patch) : jsstr :=
  fold_left (apply_patch origin) (sort_patches patches) (slice source (estart origin) (eend origin)).

Definition parseNonNegativeNumber (value : jsstr) : option num :=
  if negb (re_test number_re (trim value)) then None
  else
    let number := number_of_string value in
    if is_finite number && n_geb number n_zero then Some number else None.

(** [value === literal.value] *)
Definition value_is (value : option num) (e : expr) : bool :=
  match value, e with
  | Some x, ELit (LNum y) _ _ => n_eqb x y
  | None, ELit LNull _ _ => true
  | _, _ => false
  end.
Definition is_literal (e : expr) : bool := match e with ELit _ _ _ => true | _ => false end.
Definition source_of (source : jsstr) (e : expr) : jsstr := slice source (estart e) (eend e).

Definition same_origin (o : option expr) (e : expr) : bool :=
  match o with Some x => expr_eqb x e | None => false end.

Fixpoint same_origins (os : list (option expr)) (es : list expr) : bool :=
  match os, es with
  | [], [] => true
  | o :: os', e :: es' => same_origin o e && same_origins os' es'
  | _, _ => false
  end.

Definition parenthesised (s : jsstr) : jsstr := js "(" ++ s ++ js ")".

(** The text of a group: its source with the children patched in when the children
    are still those of its origin, a new parenthesised group otherwise. *)
Definition write_group (source : jsstr) (origin : option expr) (operator : jsstr)
  (origins : list (option expr)) (children : list jsstr) : jsstr :=
  let fresh :=
    parenthesised (join (js " " ++ operator ++ js " ") (map parenthesised children)) in
  match origin with
  | Some (EBinary op l r sp) =>
      let original := flattenBinary (EBinary op l r sp) operator in
      if str_eqb op operator && same_origins origins original
      then patchSource source (EBinary op l r sp) (combine original children)
      else fresh
  | _ => fresh
  end.

Section writing.
Context `{Host}.

Definition value_valid (probe operator : jsstr) (value : option num) : bool :=
  match value with
  | None => false
  | Some v =>
      match (if is_time_function probe then assoc_get str_eqb probe TIME_DOMAINS else None) with
      | Some (lo, hi) =>
          is_integer v && n_geb v (n_of_Z lo)
          && n_leb v (n_of_Z (hi + if str_eqb operator (js "<") then 1 else 0))
      | None => true
      end
  end.

Definition original_zone (origin : option expr) : option literal :=
  match origin with
  | Some (EBinary _ (ECall _ (ELit v _ _ :: _) _) _ _) => Some v
  | _ => None
  end.

Definition zone_kept (timezone : jsstr) (origin : option expr) : bool :=
  match original_zone origin with Some (LStr z) => str_eqb timezone z | _ => false end.

(** Whether [Intl] accepts the zone. *)
Definition zone_valid (timezone : jsstr) : bool :=
  truthy_str (trim timezone) &&
  match intl_zone (trim timezone) with Some _ => true | None => false end.

Definition write_comparison (source id : jsstr) (origin : option expr)
  (probe timezone operator value : jsstr) : jsstr * list visual_issue :=
  let number := parseNonNegativeNumber value in
  let value_issues :=
    if value_valid probe operator number then []
    else [Issue id (js "Enter a valid condition value.")] in
  let isTime := is_time_function probe in
  let zone_issues :=
    if isTime && negb (zone_kept timezone origin) && negb (zone_valid timezone)
    then [Issue id (js "Choose a valid IANA timezone.")] else [] in
  let probe_text :=
    if isTime then probe ++ js "(" ++ json_quote timezone ++ js ")" else probe in
  let fresh := js "(" ++ probe_text ++ js " " ++ operator ++ js " " ++ value ++ js ")" in
  let text :=
    match origin with
    | Some (EBinary op l r sp) =>
        if str_eqb op operator then
          let kept :=
            match l with
            | EVar name _ => str_eqb name probe
            | ECall name (ELit (LStr z) _ _ :: _) _ => str_eqb name probe && str_eqb z timezone
            | _ => false
            end in
          patchSource source (EBinary op l r sp)
            [(l, if kept then source_of source l else probe_text);
             (r, if value_is number r then source_of source r else value)]
        else fresh
    | _ => fresh
    end in
  (text, value_issues ++ zone_issues).

Definition group_issue (id : jsstr) (children : list visual_condition) : list visual_issue :=
  match children with
  | [] => [Issue id (js "Add at least one condition to this group.")]
  | _ => []
  end.

Fixpoint writeVisualCondition (source : jsstr) (node : visual_condition)
  : jsstr * list visual_issue :=
  match node with
  | VNot _ origin child =>
      let '(text, issues) := writeVisualCondition source child in
      (match origin with
       | Some (EUnary op operand sp) =>
           if same_origin (condition_origin child) operand
           then patchSource source (EUnary op operand sp) [(operand, text)]
           else js "!(" ++ text ++ js ")"
       | _ => js "!(" ++ text ++ js ")"
       end, issues)
  | VAll id origin children =>
      let written := map (writeVisualCondition source) children in
      (write_group source origin (js "&&") (map condition_origin children) (map fst written),
       group_issue id children ++ flat_map snd written)
  | VAny id origin children =>
      let written := map (writeVisualCondition source) children in
      (write_group source origin (js "||") (map condition_origin children) (map fst written),
       group_issue id children ++ flat_map snd written)
  | VComparison id origin probe timezone operator value =>
      write_comparison source id origin probe timezone operator value
  end.

Definition visualConditionExpression (node : visual_condition) (source : jsstr) : option jsstr :=
  let '(expression, issues) := writeVisualCondition source node in
  match issues with [] => Some expression | _ => None end.

Definition label_text (source : jsstr) (e : expr) (label : jsstr) : jsstr :=
  match e with
  | ELit (LStr l) _ _ => if str_eqb l label then source_of source e else json_quote label
  | _ => json_quote label
  end.

Definition write_fixed_tier (source id : jsstr) (origin : option expr) (label fixedPrice : jsstr)
  : jsstr * list visual_issue :=
  let value := parseNonNegativeNumber fixedPrice in
  let issues :=
    match value with
    | Some v =>
        if is_finite (n_mul v MILLION) then []
        else [Issue (id ++ js ":fixed") (js "Enter a finite, non-negative price.")]
    | None => [Issue (id ++ js ":fixed") (js "Enter a finite, non-negative price.")]
    end in
  let fresh_price := js "fixed(" ++ fixedPrice ++ js ")" in
  let text :=
    match origin with
    | Some (ECall name (label_node :: price :: rest) sp) =>
        if str_eqb name (js "tier") then
          let price_text :=
            match price with
            | ECall pname (ELit v i asp :: _) _ =>
                if str_eqb pname (js "fixed") then
                  let amount := ELit v i asp in
                  patchSource source price
                    [(amount, if value_is value amount then source_of source amount else fixedPrice)]
                else fresh_price
            | _ => fresh_price
            end in
          patchSource source (ECall name (label_node :: price :: rest) sp)
            [(label_node, label_text source label_node label); (price, price_text)]
        else js "tier(" ++ json_quote label ++ js ", " ++ fresh_price ++ js ")"
    | _ => js "tier(" ++ json_quote label ++ js ", " ++ fresh_price ++ js ")"
    end in
  (text, issues).

(** One price of a token tier: its term, the patch of its value, its issues. *)
Definition write_price (source id : jsstr) (price : visual_price)
  : jsstr * list patch * list visual_issue :=
  let value := parseNonNegativeNumber (vp_value price) in
  let issues :=
    match value with
    | Some _ => []
    | None => [Issue (id ++ js ":" ++ vp_variable price) (js "Enter a finite, non-negative price.")]
    end in
  match vp_origin price with
  | Some (EBinary op l r sp) =>
      if is_literal r then
        let text := if value_is value r then source_of source r else vp_value price in
        (patchSource source (EBinary op l r sp) [(r, text)], [(r, text)], issues)
      else (vp_variable price ++ js " * " ++ vp_value price, [], issues)
  | _ => (vp_variable price ++ js " * " ++ vp_value price, [], issues)
  end.

Definition write_token_tier (source id : jsstr) (origin : option expr) (label : jsstr)
  (prices : list visual_price) : jsstr * list visual_issue :=
  let written := map (write_price source id) prices in
  let terms := join (js " + ") (map (fun w => w.1.1) written) in
  let issues :=
    match prices with
    | [] => [Issue id (js "Include at least one price variable.")]
    | _ => []
    end ++ flat_map snd written in
  let fresh := js "tier(" ++ json_quote label ++ js ", " ++ terms ++ js ")" in
  let text :=
    match origin with
    | Some (ECall name (label_node :: body :: rest) sp) =>
        if str_eqb name (js "tier") then
          let label_patch := (label_node, label_text source label_node label) in
          if same_origins (map vp_origin prices) (flattenBinary body (js "+"))
          then patchSource source (ECall name (label_node :: body :: rest) sp)
                 (label_patch :: flat_map (fun w => w.1.2) written)
          else patchSource source (ECall name (label_node :: body :: rest) sp)
                 [label_patch; (body, terms)]
        else fresh
    | _ => fresh
    end in
  (text, issues).

Fixpoint writeVisualPricing (source : jsstr) (node : visual_pricing) : jsstr * list visual_issue :=
  match node with
  | VBranch _ origin condition yes no =>
      let '(c, ci) := writeVisualCondition source condition in
      let '(y, yi) := writeVisualPricing source yes in
      let '(n, ni) := writeVisualPricing source no in
      (match origin with
       | Some (ECond oc oy on sp) =>
           patchSource source (ECond oc oy on sp) [(oc, c); (oy, y); (on, n)]
       | _ => js "(" ++ c ++ js ") ? (" ++ y ++ js ") : (" ++ n ++ js ")"
       end, ci ++ yi ++ ni)
  | VTier id origin label prices Urequest fixedPrice =>
      write_fixed_tier source id origin label fixedPrice
  | VTier id origin label prices Utoken _ => write_token_tier source id origin label prices
  end.

(** A branch that did not come from a conditional needs parentheses as a factor. *)
Definition is_new_branch (root : visual_pricing) : bool :=
  match root with
  | VBranch _ (Some (ECond _ _ _ _)) _ _ _ => false
  | VBranch _ _ _ _ _ => true
  | VTier _ _ _ _ _ _ => false
  end.

Definition lossy (root : visual_pricing) : serialization :=
  Issues [Issue (pricing_id root)
    (js "This expression cannot be edited visually without losing information.")].

Definition serializeVisualBillingDocument (document : visual_document) : serialization :=
  let root := vd_root document in
  let source := vd_source document in
  let '(text, issues) := writeVisualPricing source root in
  let body := if vd_imageCount document && is_new_branch root then parenthesised text else text in
  match issues with
  | _ :: _ => Issues issues
  | [] =>
      match compile_source source with
      | NotReady _ => lossy root
      | Ready original =>
          match (if vd_imageCount document then imageCountPricingRoot (c_ast original)
                 else Some (c_ast original)) with
          | None => lossy root
          | Some pricingOrigin =>
              let result :=
                take (estart pricingOrigin) source ++ body ++ drop (eend pricingOrigin) source in
              match compile_source result with
              | Ready _ => Serialized result
              | NotReady _ => Issues [Issue (pricing_id root) (js "Enter a valid condition value.")]
              end
          end
      end
  end.

Definition parseVisualBillingDocument (source : jsstr) : option visual_document :=
  match compile_source source with
  | NotReady _ => None
  | Ready compiled =>
      let image := imageCountPricingRoot (c_ast compiled) in
      let pricing := default (c_ast compiled) image in
      let! root := readVisualPricing pricing in
      let document :=
        VisualDocument source root (match image with Some _ => true | None => false end) in
      match serializeVisualBillingDocument document with
      | Serialized _ => Some document
      | Issues _ => None
      end
  end.
End writing.
