(* ===== verification/ExprVisualSpec.v ===== *)
(** * The visual editor loses nothing

    A document read from an expression and not edited is written back as the very
    source it came from. *)

From S2P Require Import Prelude JsString JsNumber JsPrintSpec JsRegex JsValue ExprTypes ExprParser ExprParserSpec ExprSpelling ExprCompile ExprCompileSpec ExprRuntime ExprRuntimeSpec ExprDisplay ExprVisual.

(** ** Identity patches *)

Lemma take_slice {A} (l : list A) o a e :
  o <= a -> a <= e -> take (a - o) (slice l o e) = slice l o a.
Proof. intros H1 H2. unfold slice. rewrite take_take. f_equal. lia. Qed.

Lemma drop_slice {A} (l : list A) o b e :
  o <= b -> drop (b - o) (slice l o e) = slice l b e.
Proof.
  intros Hb. unfold slice. rewrite skipn_firstn_comm, drop_drop. f_equal; [lia|]. f_equal. lia.
Qed.

Definition within (o n : expr) : Prop := estart o <= estart n /\ estart n <= eend n /\ eend n <= eend o.

(** A patch that puts back what the source has. *)
Definition same_patch (source : jsstr) (o : expr) (p : patch) : Prop :=
  within o p.1 /\ p.2 = source_of source p.1.

Lemma apply_same_patch source o p :
  same_patch source o p -> apply_patch o (source_of source o) p = source_of source o.
Proof.
  intros ((H1 & H2 & H3) & Ht). unfold apply_patch, source_of in *. rewrite Ht.
  rewrite take_slice by lia. rewrite drop_slice by lia.
  rewrite slice_app by lia. by rewrite slice_app by lia.
Qed.

Lemma insert_patch_Forall (P : patch -> Prop) p l : P p -> Forall P l -> Forall P (insert_patch p l).
Proof.
  intros Hp. induction 1 as [|q l Hq Hl IH]; simpl; [by repeat constructor|].
  destruct (Nat.ltb _ _); by repeat constructor.
Qed.

Lemma patchSource_same source o patches :
  Forall (same_patch source o) patches -> patchSource source o patches = source_of source o.
Proof.
  intros Hp. unfold patchSource. fold (source_of source o).
  assert (Hs : Forall (same_patch source o) (sort_patches patches)).
  { unfold sort_patches. enough (forall acc, Forall (same_patch source o) acc ->
      Forall (same_patch source o) (fold_left (fun acc p => insert_patch p acc) patches acc)) by (by auto).
    induction Hp as [|p l Hp _ IH]; intros acc Ha; simpl; [done|]. apply IH. by apply insert_patch_Forall. }
  induction Hs as [|p l Hp' _ IH]; simpl; [done|]. by rewrite apply_same_patch.
Qed.

(** ** The fuel of reading *)

Lemma flatten_size op e x : In x (flattenBinary e op) -> expr_size x <= expr_size e.
Proof.
  induction e as [v i sp|name sp|name args sp|o y IHy sp|o l IHl r IHr sp|cn IHc y IHy n IHn sp];
    cbn [flattenBinary]; try (by intros [<-|[]]).
  destruct (negb _); [by intros [<-|[]]|].
  intros [Hx|Hx]%in_app_iff; [apply IHl in Hx|apply IHr in Hx]; simpl; lia.
Qed.

Lemma collect_ext {A B} (f g : A -> option B) l :
  (forall x, In x l -> f x = g x) -> collect f l = collect g l.
Proof.
  induction l as [|x l IH]; intros Hx; simpl; [done|].
  rewrite Hx by (by left). rewrite IH by (intros; apply Hx; by right). done.
Qed.

(** Any fuel of at least the node's size reads the same condition. *)
Lemma read_condition_fuel f : forall g node,
  expr_size node <= f -> expr_size node <= g -> read_condition f node = read_condition g node.
Proof.
  induction f as [|f IH]; intros g node Hf Hg.
  { rewrite expr_size_children in Hf. lia. }
  destruct g as [|g]; [rewrite expr_size_children in Hg; lia|].
  destruct node as [| | |op x sp|op l r sp|]; try done; cbn [read_condition]; simpl in Hf, Hg.
  - by rewrite (IH g x) by lia.
  - destruct (str_mem op [js "&&"; js "||"]); [|done].
    rewrite (collect_ext (read_condition f) (read_condition g)); [done|]. intros x Hx.
    assert (expr_size x <= expr_size l + expr_size r).
    { cbn [flattenBinary] in Hx. rewrite str_eqb_refl in Hx. cbn [negb] in Hx.
      apply in_app_iff in Hx as [Hx|Hx]; apply flatten_size in Hx; lia. }
    apply IH; lia.
Qed.

(** ** Reading keeps origins *)

Lemma spans_within e n : spans_ok e -> In n (postorder e) -> within e n.
Proof. intros Hs Hn. apply spans_ok_inside in Hn; [|done]. unfold within. lia. Qed.

Lemma flatten_postorder op e x : In x (flattenBinary e op) -> In x (postorder e).
Proof.
  induction e as [v i sp|name sp|name args sp|o y IHy sp|o l IHl r IHr sp|cn IHc y IHy n IHn sp];
    cbn [flattenBinary]; try (by intros [<-|[]]; apply postorder_self).
  destruct (negb _); [by intros [<-|[]]; apply postorder_self|].
  intros [Hx|Hx]%in_app_iff; [apply IHl in Hx|apply IHr in Hx];
    (eapply postorder_child; [|exact Hx]); [by left|right; by left].
Qed.

Lemma spans_ok_sub e n : spans_ok e -> In n (postorder e) -> spans_ok n.
Proof.
  revert n. induction e as [e IH] using expr_rect_children. intros n Hs.
  rewrite postorder_children, in_app_iff, in_flat_map. intros [(x & Hx & Hn)|[<-|[]]]; [|done].
  inversion Hs; subst. eapply IH; eauto.
Qed.

(** ECMA-262: a printed number reads back as the same number. *)
Definition reads_back (n : expr) : bool :=
  match n with
  | ELit (LNum x) _ _ => n_eqb (number_of_string (string_of_number x)) x
  | _ => true
  end.
Definition prints_back (n : expr) : Prop := reads_back n = true.

Lemma parse_printed x n i sp :
  prints_back (ELit (LNum x) i sp) ->
  parseNonNegativeNumber (string_of_number x) = Some n ->
  value_is (Some n) (ELit (LNum x) i sp) = true.
Proof.
  unfold parseNonNegativeNumber. intros Hp Hn. inv_ok Hn. done.
Qed.

(** What every node of the tree satisfies. *)
Definition node_ok (e : expr) : Prop := spans_ok e /\ Forall prints_back (postorder e).

Lemma node_ok_sub e n : node_ok e -> In n (postorder e) -> node_ok n.
Proof.
  intros [Hs Hp] Hn. split; [by eapply spans_ok_sub|].
  rewrite List.Forall_forall in Hp |- *. intros m Hm. apply Hp. by eapply postorder_trans.
Qed.

Lemma node_ok_child e x : node_ok e -> In x (children e) -> node_ok x.
Proof. intros Hn Hx. eapply node_ok_sub; [exact Hn|]. eapply postorder_child; [exact Hx|apply postorder_self]. Qed.

Lemma node_ok_within e n : node_ok e -> In n (postorder e) -> within e n.
Proof. intros [Hs _]. by apply spans_within. Qed.

Lemma child_within e x : node_ok e -> In x (children e) -> within e x.
Proof.
  intros Hn Hx. apply node_ok_within; [done|]. eapply postorder_child; [exact Hx|apply postorder_self].
Qed.

Lemma self_prints e : node_ok e -> prints_back e.
Proof. intros [_ Hp]. eapply List.Forall_forall in Hp; [exact Hp|apply postorder_self]. Qed.

Section lossless.
Context `{Host}.
Variable source : jsstr.

(** The text written is the source of [node], unless an issue was reported. *)
Definition writes_back (node : expr) (written : jsstr * list visual_issue) : Prop :=
  written.2 = [] -> written.1 = source_of source node.

Lemma same_origins_some es : same_origins (map Some es) es = true.
Proof. induction es; simpl; [done|]. by rewrite expr_eqb_refl. Qed.

Lemma read_origin f node c : read_condition f node = Some c -> condition_origin c = Some node.
Proof.
  destruct f as [|f]; [done|]. cbn [read_condition]. intros Hr.
  destruct node as [| | |op x sp|op l r sp|]; try done.
  - destruct (str_eqb op _); [|done]. destruct (read_condition f x); [|done]. by injection Hr as <-.
  - destruct (str_mem op [_; _]).
    + destruct (collect _ _); [|done]. injection Hr as <-. by destruct (str_eqb op _).
    + destruct (negb _); [done|]. destruct r as [[]| | | | |]; try done.
      destruct (read_probe l) as [[? ?]|]; [|done]. by injection Hr as <-.
Qed.

Lemma collect_origins f es cs :
  collect (read_condition f) es = Some cs -> map condition_origin cs = map Some es.
Proof.
  revert cs. induction es as [|e es IH]; intros cs; simpl; [by intros [= <-]|].
  destruct (read_condition f e) as [c|] eqn:Ec; [|done].
  destruct (collect _ es) as [cs'|]; [|done]. intros [= <-]. simpl.
  by rewrite (read_origin _ _ _ Ec), IH.
Qed.

Lemma write_group_back op l r sp cs f :
  let node := EBinary op l r sp in
  node_ok node ->
  collect (read_condition f) (flattenBinary node op) = Some cs ->
  (forall x c, In x (flattenBinary node op) -> read_condition f x = Some c ->
     writes_back x (writeVisualCondition source c)) ->
  flat_map snd (map (writeVisualCondition source) cs) = [] ->
  write_group source (Some node) op (map condition_origin cs)
    (map fst (map (writeVisualCondition source) cs)) = source_of source node.
Proof.
  intros node Hok Hc Hw Hi. subst node. cbn [write_group].
  rewrite (collect_origins _ _ _ Hc), str_eqb_refl, same_origins_some. cbn [andb].
  apply patchSource_same.
  assert (Hall : Forall (fun x => within (EBinary op l r sp) x) (flattenBinary (EBinary op l r sp) op)).
  { apply List.Forall_forall. intros x Hx. apply node_ok_within; [done|]. by eapply flatten_postorder. }
  revert cs Hc Hw Hi Hall. generalize (flattenBinary (EBinary op l r sp) op) as es.
  induction es as [|e es IH]; intros cs Hc Hw Hi Hall; simpl in Hc; [injection Hc as <-; constructor|].
  destruct (read_condition f e) as [c|] eqn:Ec; [|done].
  destruct (collect _ es) as [cs'|] eqn:Ecs; [|done]. injection Hc as <-.
  cbn [map flat_map] in Hi. apply app_eq_nil in Hi as [Hi1 Hi2]. inversion Hall; subst.
  cbn [map combine]. constructor.
  - split; [done|]. apply (Hw e c); [by left|done|done].
  - apply IH; [done| |done|done]. intros x c' Hx. apply Hw. by right.
Qed.

Lemma write_comparison_back id op l r sp probe timezone x i xsp :
  r = ELit (LNum x) i xsp ->
  let node := EBinary op l r sp in
  node_ok node -> read_probe l = Some (probe, timezone) ->
  writes_back node
    (write_comparison source id (Some node) probe timezone op (string_of_number x)).
Proof.
  intros -> node Hok Hp. subst node. unfold writes_back, write_comparison. cbn [fst snd].
  intros Hi. apply app_eq_nil in Hi as [Hi _].
  destruct (parseNonNegativeNumber (string_of_number x)) as [n|] eqn:En; [|done].
  rewrite str_eqb_refl. apply patchSource_same.
  repeat apply Forall_cons; try apply Forall_nil.
  - split; [apply child_within; [done|by left]|]. cbn [fst snd].
    replace (match l with
             | EVar name _ => str_eqb name probe
             | ECall name (ELit (LStr z) _ _ :: _) _ => str_eqb name probe && str_eqb z timezone
             | _ => false
             end) with true; [done|].
    destruct l as [|name nsp|name args nsp| | |]; try done; cbn [read_probe] in Hp.
    + destruct (str_mem name _); [|done]. injection Hp as -> _. by rewrite str_eqb_refl.
    + destruct args as [|[[|z| |] zi zsp| | | | |] rest]; try done.
      destruct (is_time_function name); [|done]. injection Hp as -> ->. by rewrite !str_eqb_refl.
  - split; [apply child_within; [done|right; by left]|]. cbn [fst snd].
    rewrite (parse_printed x n i xsp); [done| |done].
    apply self_prints. eapply node_ok_child; [exact Hok|right; by left].
Qed.

Lemma write_condition_back f : forall node c,
  node_ok node -> read_condition f node = Some c -> writes_back node (writeVisualCondition source c).
Proof.
  induction f as [|f IH]; intros node c Hok Hr; [done|]. cbn [read_condition] in Hr.
  destruct node as [| | |op x sp|op l r sp|]; try done.
  - destruct (str_eqb op (js "!")); [|done]. destruct (read_condition f x) as [child|] eqn:Ex; [|done].
    injection Hr as <-. assert (Hx : node_ok x) by (eapply node_ok_child; [exact Hok|by left]).
    pose proof (IH x child Hx Ex) as Hw. cbn [writeVisualCondition].
    destruct (writeVisualCondition source child) as [text issues]. intros Hi. cbn [fst snd] in *.
    rewrite (read_origin _ _ _ Ex). cbn [same_origin]. rewrite expr_eqb_refl.
    apply patchSource_same. apply Forall_singleton.
    split; [apply child_within; [done|by left]|]. by apply Hw.
  - destruct (str_mem op [js "&&"; js "||"]) eqn:Em.
    + destruct (collect _ _) as [cs|] eqn:Ec; [|done].
      assert (Hw : forall x c', In x (flattenBinary (EBinary op l r sp) op) ->
        read_condition f x = Some c' -> writes_back x (writeVisualCondition source c')).
      { intros x c' Hx. apply IH. eapply node_ok_sub; [exact Hok|]. by eapply flatten_postorder. }
      apply str_mem_In in Em. destruct Em as [<-|[<-|[]]].
      * change (str_eqb (js "&&") (js "&&")) with true in Hr. injection Hr as <-.
        cbn [writeVisualCondition]. intros Hi. cbn [fst snd] in *.
        apply app_eq_nil in Hi as [_ Hi]. by eapply write_group_back.
      * change (str_eqb (js "||") (js "&&")) with false in Hr. injection Hr as <-.
        cbn [writeVisualCondition]. intros Hi. cbn [fst snd] in *.
        apply app_eq_nil in Hi as [_ Hi]. by eapply write_group_back.
    + destruct (negb _); [done|]. destruct r as [[x| | |] i xsp| | | | |]; try done.
      destruct (read_probe l) as [[probe timezone]|] eqn:Ep; [|done]. injection Hr as <-.
      cbn [writeVisualCondition]. by eapply write_comparison_back.
Qed.

(** ** Tiers *)

Lemma label_back e label :
  match e with ELit (LStr l) _ _ => l = label | _ => False end ->
  label_text source e label = source_of source e.
Proof.
  destruct e as [[|l| |] i sp| | | | |]; try done. intros ->. simpl. by rewrite str_eqb_refl.
Qed.

(** The prices read so far stand for the terms [es]. *)
Definition prices_of (ps : list visual_price) (es : list expr) : Prop :=
  Forall2 (fun p e => exists v vsp x i xsp sp,
    e = EBinary (js "*") (EVar v vsp) (ELit (LNum x) i xsp) sp /\
    p = VisualPrice v (string_of_number x) (Some e)) ps es.

Lemma read_prices es : forall ps seen ps',
  prices_of ps seen -> fold_option read_price es ps = Some ps' -> prices_of ps' (seen ++ es).
Proof.
  induction es as [|e es IH]; intros ps seen ps' Hp; simpl; [by intros [= <-]; rewrite app_nil_r|].
  destruct (read_price ps e) as [ps1|] eqn:Er; [|done]. intros Hf.
  replace (seen ++ e :: es) with ((seen ++ [e]) ++ es) by (by rewrite <- app_assoc).
  eapply IH; [|exact Hf]. destruct e as [| | | |op l r sp|]; try done.
  destruct l as [|v vsp| | | |]; try done. destruct r as [[x| | |] i xsp| | | | |]; try done.
  cbn [read_price] in Er. destruct (str_eqb op (js "*")) eqn:Eo; [|done].
  apply str_eqb_eq in Eo as ->. destruct (_ || _); [done|]. destruct (existsb _ _); [done|].
  injection Er as <-. apply Forall2_app; [done|]. repeat constructor. by eexists _, _, _, _, _, _.
Qed.

Lemma prices_origins ps es : prices_of ps es -> map vp_origin ps = map Some es.
Proof.
  induction 1 as [|p e ps es Hp _ IH]; [done|]. simpl. rewrite IH.
  by destruct Hp as (v & vsp & x & i & xsp & sp & -> & ->).
Qed.

Lemma write_prices_back id o ps es :
  prices_of ps es -> node_ok o -> (forall e, In e es -> In e (postorder o)) ->
  flat_map snd (map (write_price source id) ps) = [] ->
  Forall (same_patch source o) (flat_map (fun w => w.1.2) (map (write_price source id) ps)).
Proof.
  intros Hp Hok. induction Hp as [|p e ps es Hpe _ IH]; intros Hes Hi; [constructor|].
  destruct Hpe as (v & vsp & x & i & xsp & sp & -> & ->).
  cbn [map flat_map] in *. unfold write_price in *. cbn [vp_value vp_origin vp_variable is_literal] in *.
  apply app_eq_nil in Hi as [Hi1 Hi2].
  set (e := EBinary (js "*") (EVar v vsp) (ELit (LNum x) i xsp) sp) in *.
  assert (He : In e (postorder o)) by (apply Hes; by left).
  assert (Hlit : In (ELit (LNum x) i xsp) (postorder o)).
  { eapply postorder_trans; [exact He|]. eapply postorder_child; [right; left; reflexivity|apply postorder_self]. }
  apply Forall_app. split; [|apply IH; [|exact Hi2]; intros e' He'; apply Hes; by right].
  destruct (parseNonNegativeNumber (string_of_number x)) as [n|] eqn:En; [|done].
  apply Forall_singleton. split; [by apply node_ok_within|]. cbn [fst snd].
  rewrite (parse_printed x n i xsp); [done| |done]. apply self_prints. by eapply node_ok_sub.
Qed.

Lemma write_token_tier_back id label_node body rest sp label ps :
  let node := ECall (js "tier") (label_node :: body :: rest) sp in
  node_ok node ->
  match label_node with ELit (LStr l) _ _ => l = label | _ => False end ->
  fold_option read_price (flattenBinary body (js "+")) [] = Some ps ->
  writes_back node (write_token_tier source id (Some node) label ps).
Proof.
  intros node Hok Hl Hp. subst node. unfold writes_back, write_token_tier. cbn [fst snd].
  intros Hi. apply app_eq_nil in Hi as [_ Hi].
  apply (read_prices _ [] []) in Hp; [|constructor]. cbn [app] in Hp.
  rewrite (prices_origins _ _ Hp), same_origins_some.
  change (str_eqb (js "tier") (js "tier")) with true. cbv iota. apply patchSource_same.
  constructor.
  - split; [apply child_within; [done|by left]|]. by apply label_back.
  - eapply write_prices_back; [exact Hp|done| |exact Hi]. intros e He.
    eapply postorder_child; [right; left; reflexivity|]. by eapply flatten_postorder.
Qed.

Lemma write_fixed_tier_back id label_node body rest sp label v :
  let node := ECall (js "tier") (label_node :: body :: rest) sp in
  node_ok node ->
  match label_node with ELit (LStr l) _ _ => l = label | _ => False end ->
  fixed_literal body = Some v -> (exists x, v = LNum x) ->
  writes_back node (write_fixed_tier source id (Some node) label (string_of_literal v)).
Proof.
  intros node Hok Hl Hf (x & ->). subst node. unfold writes_back, write_fixed_tier. cbn [fst snd string_of_literal].
  destruct (parseNonNegativeNumber (string_of_number x)) as [n|] eqn:En; [|done]. intros _.
  change (str_eqb (js "tier") (js "tier")) with true. cbv iota.
  destruct body as [| |fname fargs fsp| | |]; try done.
  destruct fargs as [|[w i asp| | | | |] more]; try done. cbn [fixed_literal] in Hf.
  destruct (str_eqb fname (js "fixed")); [|done]. injection Hf as ->.
  set (body := ECall fname (ELit (LNum x) i asp :: more) fsp) in *.
  assert (Hb : node_ok body) by (eapply node_ok_child; [exact Hok|right; by left]).
  assert (Ha : node_ok (ELit (LNum x) i asp)) by (eapply node_ok_child; [exact Hb|by left]).
  rewrite (parse_printed x n i asp); [|by apply self_prints|done].
  rewrite (patchSource_same source body [(ELit (LNum x) i asp, source_of source (ELit (LNum x) i asp))])
    by (apply Forall_singleton; split; [apply child_within; [done|by left]|done]).
  apply patchSource_same. repeat apply Forall_cons; try apply Forall_nil.
  - split; [apply child_within; [done|by left]|]. by apply label_back.
  - split; [apply child_within; [done|right; by left]|done].
Qed.

Definition typed (e : expr) : Prop := exists t, has_type e t.

Lemma typed_child e x : typed e -> In x (children e) -> typed x.
Proof.
  intros (t & Ht) Hx. inversion Ht as [? ts ? HF _]; subst. clear Ht.
  revert Hx. induction HF as [|y u ys us Hy _ IH]; [done|]. intros [<-|Hx]; [by exists u|by apply IH].
Qed.

Lemma fixed_is_number body v : typed body -> fixed_literal body = Some v -> exists x, v = LNum x.
Proof.
  intros (t & Ht) Hf. destruct body as [| |fname fargs fsp| | |]; try done.
  destruct fargs as [|[w i asp| | | | |] more]; try done. cbn [fixed_literal] in Hf.
  destruct (str_eqb fname (js "fixed")) eqn:Ef; [|done]. apply str_eqb_eq in Ef as ->. injection Hf as ->.
  inversion Ht as [? ts ? HF HN]; subst. inversion HF as [|? u ? us Hu _]; subst.
  inversion Hu as [? ts' ? HF' HN']; subst. cbn [node_ty] in HN.
  change (call_ty (js "fixed") (u :: us))
    with (if all_accept (u :: us) Tnumber then Some Tnumber else None) in HN.
  cbn [all_accept forallb] in HN. destruct v; [by eexists|..]; injection HN' as <-; discriminate HN.
Qed.

Lemma write_pricing_back node p :
  node_ok node -> typed node -> readVisualPricing node = Some p ->
  writes_back node (writeVisualPricing source p).
Proof.
  revert p. induction node as [node IH] using expr_rect_children. intros p Hok Hty Hr.
  destruct node as [| |name args sp| | |cn y n sp]; try done.
  - destruct args as [|label_node [|body rest]]; [done|destruct label_node as [[]| | | | |]; done|].
    destruct label_node as [[|label| |] li lsp| | | | |]; try done. cbn [readVisualPricing] in Hr.
    destruct (str_eqb name (js "tier")) eqn:En; [|done]. apply str_eqb_eq in En as ->. cbn [negb] in Hr.
    destruct (fixed_literal body) as [v|] eqn:Ef.
    + injection Hr as <-. cbn [writeVisualPricing]. apply write_fixed_tier_back; try done.
      eapply fixed_is_number; [|exact Ef]. eapply typed_child; [exact Hty|right; by left].
    + destruct (fold_option _ _ _) as [ps|] eqn:Ep; [|done]. injection Hr as <-.
      cbn [writeVisualPricing]. by apply write_token_tier_back.
  - cbn [readVisualPricing] in Hr. destruct (readVisualCondition cn) as [vc|] eqn:Ec; [|done].
    destruct (readVisualPricing y) as [vy|] eqn:Ey; [|done].
    destruct (readVisualPricing n) as [vn|] eqn:En; [|done]. injection Hr as <-.
    assert (Hcc : In cn [cn; y; n]) by (by left). assert (Hcy : In y [cn; y; n]) by (right; by left).
    assert (Hcn : In n [cn; y; n]) by (do 2 right; by left).
    assert (Hw1 : writes_back cn (writeVisualCondition source vc)).
    { eapply write_condition_back; [|exact Ec]. by eapply node_ok_child. }
    assert (Hw2 : writes_back y (writeVisualPricing source vy)).
    { apply IH; [done|by eapply node_ok_child|by eapply typed_child|done]. }
    assert (Hw3 : writes_back n (writeVisualPricing source vn)).
    { apply IH; [done|by eapply node_ok_child|by eapply typed_child|done]. }
    cbn [writeVisualPricing]. destruct (writeVisualCondition source vc) as [tc ic].
    destruct (writeVisualPricing source vy) as [ty_ iy]. destruct (writeVisualPricing source vn) as [tn inn].
    intros Hi. cbn [fst snd] in *. apply app_eq_nil in Hi as [Hi1 Hi]. apply app_eq_nil in Hi as [Hi2 Hi3].
    apply patchSource_same. repeat apply Forall_cons; try apply Forall_nil; cbn [fst snd];
      (split; [by apply child_within|]); [by apply Hw1|by apply Hw2|by apply Hw3].
Qed.

Lemma read_pricing_branch node p : readVisualPricing node = Some p -> is_new_branch p = false.
Proof.
  destruct node as [| |name args sp| | |cn y n sp]; try done; cbn [readVisualPricing]; intros Hr.
  - inv_ok Hr; done.
  - destruct (readVisualCondition cn); [|done]. destruct (readVisualPricing y); [|done].
    destruct (readVisualPricing n); [|done]. by injection Hr as <-.
Qed.
End lossless.

Lemma splice_back {A} (l : list A) a b :
  a <= b -> b <= length l -> take a l ++ slice l a b ++ drop b l = l.
Proof.
  intros Hab Hb. replace (take a l) with (slice l 0 a) by (unfold slice; by rewrite Nat.sub_0_r, drop_0).
  replace (drop b l) with (slice l b (length l)).
  - rewrite slice_app by lia. rewrite slice_app by lia. by apply slice_full.
  - unfold slice. apply take_ge. rewrite length_drop. lia.
Qed.

(** The numbers of a text are finite binary64 numbers. *)
Lemma lex_number s x i n : lex s = Some (TNum x i, n) -> valid_num x = true /\ is_finite x = true.
Proof.
  unfold lex, next. intros H. repeat (destr_match_in H; try discriminate).
  all: simplify_eq; unfold ExprSpelling.token_of in *; simplify_eq/=; bprop; split; [apply number_of_string_valid|done].
Qed.

Lemma lexed_number s ts x i : lexed s ts -> In (TNum x i) ts -> valid_num x = true /\ is_finite x = true.
Proof.
  induction 1 as [|s t n ts Hl _ IH]; [done|]. intros [->|Hin]; [by eapply lex_number|by apply IH].
Qed.

(** The number literals of a parsed expression print back. *)
Lemma literals_print_back source e : parse source = Ok e -> Forall prints_back (postorder e).
Proof.
  intros Hp. apply List.Forall_forall. intros n Hn. unfold prints_back.
  destruct (node_text_lexed source e n Hp Hn) as (ts & Hl & Hs & _).
  destruct n as [[x| | |] i sp| | | | |]; try done. cbn [spelling reads_back] in *.
  destruct (lexed_number _ ts x i Hl) as [Hv Hf].
  { assert (H : In (TNum x i) (loud ts)) by (rewrite Hs; by left). by apply filter_In in H as [? _]. }
  rewrite number_round_trip by done. destruct x as [[]|[]| |s m ex]; try done. by apply n_eqb_refl.
Qed.

Lemma image_root_child e p : imageCountPricingRoot e = Some p -> In p (children e).
Proof.
  destruct e as [| | | |op l r sp|]; try done. cbn [imageCountPricingRoot].
  destruct (negb _); [done|]. destruct (is_image_count r); [by intros [= ->]; left|].
  destruct (is_image_count l); [|done]. intros [= ->]. right. by left.
Qed.

(** C25: the visual editor is lossless: a document the editor opens and does not
    change is written back as exactly the source it was read from, white space,
    number notation, quoting and price order included. *)
Theorem visual_lossless `{Host} source document :
  parseVisualBillingDocument source = Some document ->
  serializeVisualBillingDocument document = Serialized source.
Proof.
  intros Hp. unfold parseVisualBillingDocument in Hp.
  unfold compile_source in Hp. destruct (compile_expr source) as [cm|] eqn:Hc; [|done].
  pose proof (compile_expr_ok source cm Hc) as [Hsrc (Hparse & _ & Hty & _)].
  rewrite Hsrc in Hparse. pose proof (parse_ok source) as Hw. rewrite Hparse in Hw.
  destruct Hw as [[Hspans _] Hend]. pose proof (literals_print_back source _ Hparse) as Hlit.
  set (image := imageCountPricingRoot (c_ast cm)) in *.
  set (pricing := default (c_ast cm) image) in *.
  assert (Hin : pricing = c_ast cm \/ In pricing (children (c_ast cm))).
  { subst pricing. destruct image as [q|] eqn:Ei; [|by left]. right. by apply image_root_child. }
  assert (Hok : node_ok (c_ast cm)) by (by split).
  assert (Hokp : node_ok pricing) by (destruct Hin as [->|Hin]; [done|by eapply node_ok_child]).
  assert (Htyp : typed pricing) by (destruct Hin as [->|Hin]; [exact Hty|eapply typed_child; [exact Hty|done]]).
  assert (Hwithin : within (c_ast cm) pricing).
  { destruct Hin as [->|Hin]; [|by apply child_within]. apply node_ok_within; [done|apply postorder_self]. }
  destruct (readVisualPricing pricing) as [root|] eqn:Hread; [|done].
  pose proof (write_pricing_back source pricing root Hokp Htyp Hread) as Hback.
  set (doc := VisualDocument source root _) in Hp.
  destruct (serializeVisualBillingDocument doc) as [s|] eqn:Hs; [|done]. injection Hp as <-.
  rewrite Hs. f_equal. unfold serializeVisualBillingDocument, doc in Hs. cbn [vd_root vd_source vd_imageCount] in Hs.
  unfold writes_back in Hback. destruct (writeVisualPricing source root) as [text issues].
  rewrite (read_pricing_branch _ _ Hread), andb_false_r in Hs.
  destruct issues as [|]; [|done]. specialize (Hback eq_refl). cbn [fst] in Hback. subst text.
  unfold compile_source in Hs at 1. rewrite Hc in Hs. fold image in Hs.
  assert (Hroot : (if match image with Some _ => true | None => false end then image
    else Some (c_ast cm)) = Some pricing) by (subst pricing; by destruct image).
  rewrite Hroot in Hs. unfold source_of in Hs. destruct Hwithin as (Hw1 & Hw2 & Hw3).
  rewrite splice_back in Hs by lia. unfold compile_source in Hs. rewrite Hc in Hs.
  by injection Hs as <-.
Qed.

Definition visual_source : jsstr :=
  jq " v1: (len  <= 2.00e2 && !( hour('UTC')>=9 )) ? tier('a',p*1.50 + c * .5) : tier('b', fixed( 07.0 ))".

Lemma visual_lossless_witness :
  match parseVisualBillingDocument (H := plain_host) visual_source with
  | Some document => serializeVisualBillingDocument (H := plain_host) document = Serialized visual_source
  | None => False
  end.
Proof.
  destruct (parseVisualBillingDocument (H := plain_host) visual_source) as [document|] eqn:Hp.
  - apply (visual_lossless (H := plain_host) visual_source document). exact Hp.
  - vm_compute in Hp. discriminate Hp.
Defined.
