(* ===== verification/ExprPatching.v ===== *)
(** * Patching a text at ranges

    Replacing ranges of a text from the last to the first gives the text with the
    replaced ranges and everything between them kept. *)

From S2P Require Import Prelude JsString JsNumber JsRegex JsValue ExprTypes ExprParser ExprParserSpec ExprCompile ExprCompileSpec ExprDisplay ExprVisual ExprVisualSpec.

(** The source from [a] to [b] with the ranges of [ps] replaced. *)
Fixpoint patched (source : jsstr) (a b : nat) (ps : list patch) : jsstr :=
  match ps with
  | [] => slice source a b
  | p :: ps' => slice source a (estart p.1) ++ p.2 ++ patched source (eend p.1) b ps'
  end.

Lemma ordered_le es : forall a b, ordered a b es -> a <= b.
Proof.
  induction es as [|e es IH]; intros a b H; [exact H|]. destruct H as (H1 & H2 & H3).
  apply IH in H3. lia.
Qed.

Lemma ordered_widen es : forall a a' b b', ordered a b es -> a' <= a -> b <= b' -> ordered a' b' es.
Proof.
  induction es as [|e es IH]; intros a a' b b' H Ha Hb; cbn [ordered] in *; [lia|].
  destruct H as (H1 & H2 & H3). split; [lia|]. split; [done|]. by eapply IH.
Qed.

Lemma ordered_append es es' : forall a b c, ordered a b es -> ordered b c es' -> ordered a c (es ++ es').
Proof.
  induction es as [|e es IH]; intros a b c H H'; cbn [ordered app] in *; [by eapply ordered_widen|].
  destruct H as (H1 & H2 & H3). split; [done|]. split; [done|]. by eapply IH.
Qed.

Lemma ordered_nonempty e es a b : ordered a b (e :: es) -> Forall (fun x => estart e <= estart x) es.
Proof.
  intros (_ & H2 & H3). revert H2 H3. generalize (eend e) as m. generalize (estart e) as s. clear a.
  induction es as [|x es IH]; intros s m Hm H; [constructor|]. destruct H as (H1 & Hx & H3).
  constructor; [lia|]. eapply IH; [|exact H3]. lia.
Qed.

(** ** Sorted from the last *)

Lemma insert_last p l : Forall (fun q : patch => estart p.1 <= estart q.1) l -> insert_patch p l = l ++ [p].
Proof.
  induction 1 as [|q l Hq _ IH]; [done|]. cbn [insert_patch app].
  replace (Nat.ltb (estart q.1) (estart p.1)) with false by (symmetry; apply Nat.ltb_ge; lia). by rewrite IH.
Qed.

(** Patches from the last to the first stay as they are. *)
Lemma sort_descending ps a b : ordered a b (map fst ps) -> sort_patches (rev ps) = rev ps.
Proof.
  unfold sort_patches. rewrite <- fold_left_rev_right, rev_involutive. revert a.
  induction ps as [|p ps IH]; intros a H; [done|]. cbn [fold_right rev]. cbn [map] in H.
  pose proof (ordered_nonempty _ _ _ _ H) as Hn. destruct H as (_ & _ & H). rewrite (IH _ H).
  apply insert_last. apply Forall_rev. rewrite Forall_map in Hn. exact Hn.
Qed.

Lemma insert_first p l : Forall (fun q : patch => estart q.1 < estart p.1) l -> insert_patch p l = p :: l.
Proof. destruct 1 as [|q l Hq _]; [done|]. cbn [insert_patch]. apply Nat.ltb_lt in Hq. by rewrite Hq. Qed.

Lemma ordered_snoc ps p : forall a b, ordered a b (map fst (ps ++ [p])) ->
  ordered a (estart p.1) (map fst ps) /\ Forall (fun q : patch => estart q.1 < estart p.1) ps.
Proof.
  induction ps as [|q ps IH]; intros a b H; cbn [map app ordered] in *; [split; [lia|constructor]|].
  destruct H as (H1 & H2 & H3). destruct (IH _ _ H3) as [H4 H5]. pose proof (ordered_le _ _ _ H4).
  split; [done|]. constructor; [lia|done].
Qed.

(** Patches from the first to the last are reversed. *)
Lemma sort_ascending ps : forall a b, ordered a b (map fst ps) -> sort_patches ps = rev ps.
Proof.
  unfold sort_patches. induction ps as [|p ps IH] using rev_ind; intros a b H; [done|].
  destruct (ordered_snoc _ _ _ _ H) as [H1 H2]. rewrite fold_left_app, rev_app_distr. cbn [fold_left rev app].
  rewrite (IH _ _ H1). apply insert_first. by apply Forall_rev.
Qed.

(** ** Applied from the last *)

Lemma patched_from source ps : forall a a' b, a <= a' -> ordered a' b (map fst ps) ->
  slice source a a' ++ patched source a' b ps = patched source a b ps.
Proof.
  destruct ps as [|p ps]; intros a a' b Ha H; cbn [patched map ordered] in *; [by apply slice_app|].
  destruct H as (H1 & _). rewrite app_assoc, slice_app by lia. done.
Qed.

Lemma take_patched source ps : forall a b n, a <= n -> b <= length source -> ordered n b (map fst ps) ->
  take (n - a) (patched source a b ps) = slice source a n.
Proof.
  intros a b n Ha Hb H. rewrite <- (patched_from source ps a n b Ha H).
  pose proof (ordered_le _ _ _ H). rewrite <- (length_slice source a n) by lia. apply take_app_length.
Qed.

Lemma drop_patched source ps : forall a b n, a <= n -> b <= length source -> ordered n b (map fst ps) ->
  drop (n - a) (patched source a b ps) = patched source n b ps.
Proof.
  intros a b n Ha Hb H. rewrite <- (patched_from source ps a n b Ha H).
  pose proof (ordered_le _ _ _ H). rewrite <- (length_slice source a n) by lia. apply drop_app_length.
Qed.

(** One patch in front of those already made. *)
Lemma patch_step source ps p a b : a <= estart p.1 -> b <= length source -> ordered a b (p.1 :: map fst ps) ->
  take (estart p.1 - a) (patched source a b ps) ++ p.2 ++ drop (eend p.1 - a) (patched source a b ps)
    = patched source a b (p :: ps).
Proof.
  intros Ha Hb (H1 & H2 & H3). cbn [patched]. rewrite take_patched, drop_patched; [done|lia|done|done|lia|done|].
  eapply ordered_widen; [exact H3|lia|lia].
Qed.

Lemma patches_applied source o ps : eend o <= length source -> ordered (estart o) (eend o) (map fst ps) ->
  fold_left (apply_patch o) (rev ps) (slice source (estart o) (eend o)) = patched source (estart o) (eend o) ps.
Proof.
  intros Hb. rewrite <- fold_left_rev_right, rev_involutive. intros H.
  enough (Hgo : forall a, estart o <= a -> ordered a (eend o) (map fst ps) ->
    fold_right (fun y x => apply_patch o x y) (slice source (estart o) (eend o)) ps = patched source (estart o) (eend o) ps)
    by (by apply (Hgo (estart o))).
  clear H. induction ps as [|p ps IH]; intros a Ha H; [done|]. cbn [fold_right]. cbn [map] in H.
  pose proof H as (H1 & H2 & H3). rewrite (IH (eend p.1)); [|lia|exact H3]. unfold apply_patch.
  apply patch_step; [lia|done|]. by eapply ordered_widen.
Qed.

(** [patchSource] on patches from left to right. *)
Lemma patchSource_patched source o ps : eend o <= length source -> ordered (estart o) (eend o) (map fst ps) ->
  patchSource source o ps = patched source (estart o) (eend o) ps.
Proof. intros Hb H. unfold patchSource. rewrite (sort_ascending _ _ _ H). by apply patches_applied. Qed.

(** A patch with the text it replaces changes nothing. *)
Lemma patched_same source n ps a b : ordered a b (n :: map fst ps) ->
  patched source a b ((n, source_of source n) :: ps) = patched source a b ps.
Proof.
  intros (H1 & H2 & H3). cbn [patched fst snd]. unfold source_of. rewrite patched_from by (by lia || done).
  apply patched_from; [done|]. eapply ordered_widen; [exact H3|lia|done].
Qed.

(** A patch whose text is its range patched. *)
Lemma patched_until source ps m b : m <= b -> forall a, ordered a m (map fst ps) ->
  patched source a m ps ++ slice source m b = patched source a b ps.
Proof.
  intros Hm. induction ps as [|p ps IH]; intros a H; cbn [patched map ordered] in *; [by apply slice_app|].
  destruct H as (H1 & H2 & H3). by rewrite <- !app_assoc, IH.
Qed.

Lemma patched_nested source n ps a b : a <= estart n -> estart n < eend n -> eend n <= b ->
  ordered (estart n) (eend n) (map fst ps) ->
  patched source a b [(n, patched source (estart n) (eend n) ps)] = patched source a b ps.
Proof.
  intros H1 H2 H3 H. cbn [patched fst snd]. rewrite app_assoc, patched_from by done.
  apply patched_until; [done|]. by eapply ordered_widen.
Qed.

(** ** Ranges of parsed trees *)

Lemma flatten_ordered op e : spans_ok e -> ordered (estart e) (eend e) (flattenBinary e op).
Proof.
  induction e as [e IH] using expr_rect_children. intros Hs.
  assert (Hself : ordered (estart e) (eend e) [e]) by (inversion Hs; cbn [ordered]; lia).
  destruct e as [| | | |o l r sp|]; try exact Hself. cbn [flattenBinary].
  destruct (negb (str_eqb o op)); [exact Hself|]. inversion Hs as [? _ Ho Hc _]; subst.
  cbn [children ordered] in Ho. destruct Ho as (H1 & H2 & H3 & H4 & H5).
  assert (Hl : ordered (estart l) (eend l) (flattenBinary l op)) by (apply IH; [simpl; auto|apply Hc; simpl; auto]).
  assert (Hr : ordered (estart r) (eend r) (flattenBinary r op)) by (apply IH; [simpl; auto|apply Hc; simpl; auto]).
  eapply ordered_append; [eapply ordered_widen; [exact Hl|lia|apply Nat.le_refl]|].
  eapply ordered_widen; [exact Hr|lia|lia].
Qed.

(** One node inside each range. *)
Lemma ordered_inside es ns : Forall2 (fun e n => within e n /\ estart n < eend n) es ns ->
  forall a b, ordered a b es -> ordered a b ns.
Proof.
  induction 1 as [|e n es ns ((H1 & _ & H3) & H4) _ IH]; intros a b Ho; [done|]. cbn [ordered] in *.
  destruct Ho as (Ha & He & Ho). split; [lia|]. split; [done|]. apply IH. by eapply ordered_widen; [|exact H3|].
Qed.
