(* ===== verification/TierMatch.v ===== *)
(** * The settled row of a price table

    Models [lib/breakdown-tier-match.ts]: which row of the table of tiers the log
    detail marks as the one a request was settled with.  The main result ties
    the table, read off the expression, to the evaluation of the expression; that of
    task models is in [TaskMatrixDisplaySpec]. *)

From S2P Require Import Prelude JsString JsNumber JsRegex JsValue ExprTypes ExprParser ExprCompile ExprRuntime ExprStructure ExprDisplay ExprDisplaySpec BillingExpr.

(** [BreakdownMatchTier]; only a [ParsedTaskTier] has [unitPrices]. *)
Inductive match_tier : Type :=
| TokenRow (t : parsed_tier)
| TaskRow (t : task_tier).

Definition row_label (tier : match_tier) : jsstr :=
  match tier with TokenRow t => pt_label t | TaskRow t => kt_label t end.

(** [String(facts\[field\])] for a member every object inherits. *)
Definition inherited_text (field : jsstr) : option jsstr :=
  if negb (str_mem field OBJECT_MEMBERS) then None
  else if str_eqb field (js "__proto__") then Some (js "[object Object]")
  else
    Some (js "function "
          ++ (if str_eqb field (js "constructor") then js "Object" else field)
          ++ js "() { [native code] }").

(** [String(facts\[field\])], [None] where the fact is [undefined]. *)
Definition fact_text (facts : list (jsstr * jsval)) (field : jsstr) : option jsstr :=
  match assoc_get str_eqb field facts with
  | Some VUndef => None
  | Some v => Some (string_of_value v)
  | None => inherited_text field
  end.

Definition text_is (a : option jsstr) (b : jsstr) : bool :=
  match a with Some x => str_eqb x b | None => false end.

(** [!tier.conditionText] *)
Definition no_condition_text (t : task_tier) : bool :=
  match kt_conditionText t with Some s => negb (truthy_str s) | None => true end.

Section matching.
Context `{Host}.

Definition tierMatchesNormalizedLabel (tier : match_tier) (label : jsstr) : bool :=
  truthy_str label && str_eqb (normalizeTierLabel (Some (row_label tier))) label.

(** The first guard: a token row of another unit or another fixed price. *)
Definition unit_differs (tier : match_tier) (billingUnit : option billing_unit)
  (fixedPrice : option num) : bool :=
  match tier, billingUnit with
  | TokenRow t, Some Utoken => match pt_fixed t with Some _ => true | None => false end
  | TokenRow t, Some Urequest =>
      match pt_fixed t with
      | None => true
      | Some own =>
          match fixedPrice with
          | None => false
          | Some x => match own with Some y => negb (n_eqb y x) | None => true end
          end
      end
  | _, _ => false
  end.

(** A task row among several with the label: its conditions, read in the facts. *)
Definition shared_label_hit (t : task_tier) (usageFacts : option (list (jsstr * jsval))) : bool :=
  no_condition_text t &&
  match usageFacts with
  | None => false
  | Some facts =>
      Nat.ltb 0 (length (kt_conditions t)) &&
      forallb (fun c =>
        str_eqb (default (js "undefined") (fact_text facts (kc_field c))) (kc_value c))
        (kt_conditions t)
  end.

(** No row has the label: the facts decide. *)
Definition facts_hit (tier : match_tier) (usageFacts : option (list (jsstr * jsval))) : bool :=
  match usageFacts, tier with
  | None, _ => false
  | Some facts, TaskRow t =>
      Nat.ltb 0 (length (kt_conditions t)) && no_condition_text t &&
      forallb (fun c => text_is (fact_text facts (kc_field c)) (kc_value c)) (kt_conditions t)
  | Some facts, TokenRow _ => false
  end.

Definition isBreakdownTierMatched (tier : match_tier) (tiers : list match_tier)
  (matchedTierLabel : option jsstr) (usageFacts : option (list (jsstr * jsval)))
  (billingUnit : option billing_unit) (fixedPrice : option num) : bool :=
  if unit_differs tier billingUnit fixedPrice then false
  else
    let label := normalizeTierLabel matchedTierLabel in
    if tierMatchesNormalizedLabel tier label then
      match tier with
      | TaskRow t =>
          if Nat.ltb 1 (length (List.filter (fun x => tierMatchesNormalizedLabel x label) tiers))
          then shared_label_hit t usageFacts
          else true
      | TokenRow _ => true
      end
    else if existsb (fun x => tierMatchesNormalizedLabel x label) tiers then false
    else facts_hit tier usageFacts.
End matching.

(** ** The table against the evaluation *)

(** Among elements with distinct keys, a predicate that holds of [x] and only of
    elements with the key of [x] selects [x]. *)
Lemma filter_single {A B} (f : A -> B) (p : A -> bool) x l :
  List.NoDup (map f l) -> In x l -> p x = true ->
  (forall y, In y l -> p y = true -> f y = f x) -> List.filter p l = [x].
Proof.
  intros Hd Hx Hpx Hp. apply in_split in Hx as (l1 & l2 & ->).
  rewrite map_app in Hd. cbn [map] in Hd. apply NoDup_remove_2 in Hd.
  assert (Hout : forall y, In y l1 \/ In y l2 -> p y = false).
  { intros y Hy. apply not_true_is_false. intros Hpy. apply Hd.
    rewrite <- (Hp y) by (try done; apply in_app_iff; simpl; tauto).
    rewrite <- map_app. apply in_map, in_app_iff, Hy. }
  assert (Hnil : forall l, (forall y, In y l -> p y = false) -> List.filter p l = []).
  { intros l Hl. destruct (List.filter p l) as [|y l'] eqn:E; [done|].
    assert (Hy : In y (List.filter p l)) by (rewrite E; by left).
    apply filter_In in Hy as [Hy Hpy]. by rewrite Hl in Hpy. }
  rewrite List.filter_app. cbn [List.filter]. rewrite Hpx, !Hnil by auto. done.
Qed.

Lemma n_eqb_self x : is_finite x = true -> n_eqb x x = true.
Proof.
  unfold n_eqb, SpecFloat.SFeqb. destruct x as [s|[]| |[] m e]; try done; intros _;
    unfold SpecFloat.SFcompare; by rewrite Z.compare_refl, Pos.compare_cont_refl.
Qed.

(** A displayed tier has a price per request exactly when its unit is the request. *)
Definition tier_unit_ok (t : token_tier) : Prop :=
  match tt_fixedPrice t with
  | Some a => tt_billingUnit t = Some Urequest
  | None => tt_billingUnit t = None
  end.

Lemma tokenTier_unit e cs t : tokenTier e cs = Some t -> tier_unit_ok t.
Proof. unfold tokenTier. intros Ht. by inv_ok Ht. Qed.

Lemma chain_loop_unit e : forall tiers all,
  Forall tier_unit_ok tiers -> chain_loop e tiers = Some all -> Forall tier_unit_ok all.
Proof.
  induction e as [x i sp|name sp|name args sp|op x IHx sp|op l IHl r IHr sp|cn IHc y IHy n IHn sp];
    intros tiers all Hf Ha; cbn [chain_loop] in Ha;
    try (destruct (tokenTier _ []) as [t|] eqn:Et; [|done]; injection Ha as <-;
         apply Forall_app; split; [done|]; repeat constructor; by eapply tokenTier_unit).
  destruct (tokenConditions cn) as [cs|]; [|done].
  destruct (tokenTier y cs) as [t|] eqn:Et; [|done].
  eapply IHn; [|exact Ha]. apply Forall_app; split; [done|]. repeat constructor. by eapply tokenTier_unit.
Qed.

Lemma audio_unit e tiers : audio_tiers e = Some tiers -> Forall tier_unit_ok tiers.
Proof.
  destruct e; try done. cbn [audio_tiers]. intros Ha. inv_ok Ha.
  apply tokenTier_unit in Heqo, Heqo0. by repeat constructor.
Qed.

Lemma chain_unit e : forall tiers, readTokenTierChain e = Some tiers -> Forall tier_unit_ok tiers.
Proof.
  assert (Hi : forall l, Forall tier_unit_ok l -> Forall tier_unit_ok (map with_image_count l)).
  { intros l Hl. apply Forall_map. eapply List.Forall_impl; [|exact Hl]. done. }
  induction e as [x i sp|name sp|name args sp|op x IHx sp|op l IHl r IHr sp|cn IHc y IHy n IHn sp];
    intros tiers Hr;
    try (by eapply chain_loop_unit, Hr).
  - cbn [readTokenTierChain audio_tiers] in Hr. repeat case_match; simplify_eq; try (by eapply chain_loop_unit, Hr).
    + destruct (readTokenTierChain r) eqn:E; simplify_eq/=. eauto.
    + destruct (readTokenTierChain l) eqn:E; simplify_eq/=. eauto.
  - cbn [readTokenTierChain] in Hr. destruct (audio_tiers _) eqn:Ea; simplify_eq; [by eapply audio_unit|].
    by eapply chain_loop_unit, Hr.
Qed.

Section settlement.
Context `{Host}.

(** The rows of the token table, with the arguments the detail view passes. *)
Definition token_rows (tiers : list token_tier) : list match_tier :=
  map (fun t => TokenRow (mapTokenTier t)) tiers.
Definition row_key (row : match_tier) : jsstr := normalizeTierLabel (Some (row_label row)).

Lemma carries_iff row label :
  label <> [] -> tierMatchesNormalizedLabel row label = true <-> row_key row = label.
Proof.
  intros Hn. unfold tierMatchesNormalizedLabel, row_key. destruct label; [done|].
  cbn [truthy_str andb]. apply str_eqb_eq.
Qed.

(** Once a row carries the label, only rows carrying it are marked. *)
Lemma marked_carries row rows label facts unit price :
  normalizeTierLabel label <> [] ->
  (exists r, In r rows /\ row_key r = normalizeTierLabel label) ->
  isBreakdownTierMatched row rows label facts unit price = true ->
  row_key row = normalizeTierLabel label /\ unit_differs row unit price = false.
Proof.
  intros Hn (r & Hin & Hr). unfold isBreakdownTierMatched.
  destruct (unit_differs row unit price); [done|]. intros Hm. split; [|done].
  destruct (tierMatchesNormalizedLabel row _) eqn:Ec; [by apply carries_iff|].
  rewrite (proj2 (existsb_exists _ rows)) in Hm; [done|].
  exists r. split; [done|]. by apply carries_iff.
Qed.

Lemma token_row_marked t rows label facts unit price :
  normalizeTierLabel label <> [] -> row_key (TokenRow t) = normalizeTierLabel label ->
  unit_differs (TokenRow t) unit price = false ->
  isBreakdownTierMatched (TokenRow t) rows label facts unit price = true.
Proof.
  intros Hn Hk Hu. unfold isBreakdownTierMatched. by rewrite Hu, (proj2 (carries_iff _ _ Hn) Hk).
Qed.

(** The unit and fixed price of the settlement fit the row evaluation selected. *)
Lemma selected_unit t st st' :
  tier_unit_ok t -> selected t st st' -> r_unit st = Utoken ->
  unit_differs (TokenRow (mapTokenTier t)) (Some (r_unit st')) (r_fixed st') = false.
Proof.
  unfold tier_unit_ok, selected, unit_differs, mapTokenTier. cbn [pt_fixed].
  destruct (tt_fixedPrice t) as [a|].
  - intros -> (_ & -> & -> & Ha) _. by rewrite n_eqb_self.
  - intros -> (_ & -> & _) ->. done.
Qed.

Lemma evaluated_chain source cm ctx v :
  compile_expr source = Ok cm -> evaluateBillingExpression source ctx = Success v ->
  exists hdrs x st, evaluate cm ctx hdrs (context_now ctx) (c_ast cm) (initial_state cm) = Ok (x, st) /\
    matchedTier v = r_tier st /\ billingUnit v = r_unit st /\ fixedPrice v = r_fixed st.
Proof.
  intros Hc. unfold evaluateBillingExpression, compile_source, evaluate_compilation. rewrite Hc.
  destruct (run_compiled cm ctx) as [w|] eqn:Hr; [|done]. intros [= ->]. unfold run_compiled in Hr.
  destruct (foldM check_token _ _); [|done]. destruct (runtime_headers ctx) as [hdrs|]; [|done].
  destruct (evaluate _ _ _ _ _ _) as [[x st]|] eqn:He; [|done].
  destruct (rv x); try done. destruct (_ || _); [done|]. injection Hr as <-. eauto 10.
Qed.

(** C26: a request settled by a displayed chain of token tiers has its row marked
    in the price table: the first row whose conditions hold for its tokens; every
    marked row carries the settled label and agrees with the settled unit, and when
    the labels of the table differ it is the only marked row. *)
Theorem settled_row_marked source cm tiers ctx v facts :
  compile_expr source = Ok cm -> readTokenTierChain (c_ast cm) = Some tiers ->
  evaluateBillingExpression source ctx = Success v ->
  normalizeTierLabel (Some (matchedTier v)) <> [] ->
  let marked row :=
    isBreakdownTierMatched row (token_rows tiers) (Some (matchedTier v)) facts
      (Some (billingUnit v)) (fixedPrice v) in
  parseTiersFromExpr source = Ok (map mapTokenTier tiers) /\
  exists t, List.find (applies ctx) tiers = Some t /\ marked (TokenRow (mapTokenTier t)) = true /\
    (forall row, In row (token_rows tiers) -> marked row = true ->
       row_key row = row_key (TokenRow (mapTokenTier t)) /\
       unit_differs row (Some (billingUnit v)) (fixedPrice v) = false) /\
    (List.NoDup (map row_key (token_rows tiers)) ->
       List.filter marked (token_rows tiers) = [TokenRow (mapTokenTier t)]).
Proof.
  intros Hc Hr He Hn marked. split.
  { unfold parseTiersFromExpr, compile_source. rewrite Hc, Hr. destruct source; [|done].
    vm_compute in Hc. discriminate Hc. }
  destruct (evaluated_chain source cm ctx v Hc He) as (hdrs & x & st & Hev & Hl & Hu & Hf).
  destruct (chain_eval cm ctx hdrs (context_now ctx) _ _ _ _ _ Hr Hev) as (t & Ht & Hs).
  assert (Hin : In (TokenRow (mapTokenTier t)) (token_rows tiers)).
  { apply (in_map (fun t => TokenRow (mapTokenTier t))). by eapply find_some. }
  assert (Hk : row_key (TokenRow (mapTokenTier t)) = normalizeTierLabel (Some (matchedTier v))).
  { unfold row_key. simpl. by rewrite Hl, (proj1 Hs). }
  assert (Hm : marked (TokenRow (mapTokenTier t)) = true).
  { apply token_row_marked; [done|done|]. rewrite Hu, Hf. eapply selected_unit; [|exact Hs|done].
    apply chain_unit in Hr. rewrite List.Forall_forall in Hr. apply Hr. by eapply find_some. }
  assert (Hall : forall row, marked row = true ->
    row_key row = row_key (TokenRow (mapTokenTier t)) /\
    unit_differs row (Some (billingUnit v)) (fixedPrice v) = false).
  { intros row Hrow. rewrite Hk. eapply marked_carries; [done|eauto|exact Hrow]. }
  exists t. split; [done|]. split; [done|]. split; [auto|]. intros Hd.
  apply (filter_single row_key); [done|done|done|]. intros y _ Hy. by apply Hall.
Qed.

(** Facts that hold read as the texts of the conditions. *)
Lemma fact_is_text u c : fact_is u c = true -> fact_text u (kc_field c) = Some (kc_value c).
Proof.
  unfold fact_is, fact_text, prop_get.
  destruct (assoc_get _ _ _) as [[]|]; try done; intros Hv%str_eqb_eq; simpl; congruence.
Qed.

Lemma taskTier_plain e cs schema t : taskTier e cs schema = Some t -> kt_conditionText t = None.
Proof. unfold taskTier. intros Ht. by inv_ok Ht. Qed.

Lemma task_loop_plain schema ib e : forall tiers all,
  Forall (fun t => kt_conditionText t = None) tiers -> task_chain_loop schema ib e tiers = Some all ->
  Forall (fun t => kt_conditionText t = None) all.
Proof.
  induction e as [x i sp|name sp|name args sp|op x IHx sp|op l IHl r IHr sp|cn IHc y IHy n IHn sp];
    intros tiers all Hf Ha; cbn [task_chain_loop] in Ha;
    try (destruct (taskTier _ [] schema) as [t|] eqn:Et; [|done]; injection Ha as <-;
         apply taskTier_plain in Et; apply Forall_app; split; [done|]; by constructor).
  destruct (taskConditions cn schema ib) as [[ks|]|]; [|eauto|done].
  destruct (shadowed tiers ks); [eauto|].
  destruct (taskTier y ks schema) as [t|] eqn:Et; [|done]. apply taskTier_plain in Et.
  assert (Forall (fun t => kt_conditionText t = None) (tiers ++ [t])).
  { apply Forall_app. split; [done|]. by constructor. }
  destruct ks; [by injection Ha as <-|eauto].
Qed.

Lemma shared_hit_applies u t :
  kt_conditionText t = None -> kt_conditions t <> [] -> task_applies u t = true ->
  shared_label_hit t (Some u) = true.
Proof.
  intros Ht Hc Ha. unfold shared_label_hit, no_condition_text. rewrite Ht. cbn [andb].
  apply andb_true_iff. split; [by destruct (kt_conditions t)|].
  apply forallb_forall. intros c Hin. unfold task_applies, facts_hold in Ha.
  rewrite forallb_forall in Ha. rewrite (fact_is_text u c (Ha c Hin)). apply str_eqb_refl.
Qed.

(** A row marked by the facts, where they report its conditions as texts. *)
Lemma shared_hit_inv u t :
  (forall c, In c (kt_conditions t) -> fact_text u (kc_field c) = Some (kc_value c) -> fact_is u c = true) ->
  (forall c, In c (kt_conditions t) -> fact_text u (kc_field c) <> None) ->
  shared_label_hit t (Some u) = true -> kt_conditions t <> [] /\ task_applies u t = true.
Proof.
  intros Hback Hknown. unfold shared_label_hit.
  intros (_ & [Hlen Hall]%andb_true_iff)%andb_true_iff. split.
  { intros E. by rewrite E in Hlen. }
  unfold task_applies, facts_hold. rewrite forallb_forall in *. intros c Hc. apply Hback; [done|].
  specialize (Hall c Hc). specialize (Hknown c Hc).
  destruct (fact_text u (kc_field c)) as [s|]; [|done]. by apply str_eqb_eq in Hall as <-.
Qed.

(** The settled row is marked unless it has no conditions and shares its label; a row
    marked with it has its label, and conditions that hold. *)
Lemma task_row_marked tiers t label u unit price :
  normalizeTierLabel label <> [] -> In t tiers -> row_key (TaskRow t) = normalizeTierLabel label ->
  kt_conditionText t = None -> task_applies u t = true ->
  let rows := map TaskRow tiers in
  isBreakdownTierMatched (TaskRow t) rows label (Some u) unit price = true <->
  (kt_conditions t = [] ->
     length (List.filter (fun r => str_eqb (row_key r) (normalizeTierLabel label)) rows) = 1%nat).
Proof.
  intros Hn Hin Hk Ht Ha rows. unfold isBreakdownTierMatched. cbn [unit_differs].
  rewrite (proj2 (carries_iff _ _ Hn) Hk).
  assert (Hf : List.filter (fun x => tierMatchesNormalizedLabel x (normalizeTierLabel label)) rows
    = List.filter (fun r => str_eqb (row_key r) (normalizeTierLabel label)) rows).
  { apply filter_ext. intros r. apply eq_true_iff_eq. by rewrite carries_iff, str_eqb_eq. }
  rewrite Hf. set (carrying := List.filter _ rows).
  assert (Hc : In (TaskRow t) carrying).
  { apply filter_In. split; [by apply in_map|]. by apply str_eqb_eq. }
  destruct carrying as [|r [|r' l]]; [done|done|]. cbn [length Nat.ltb Nat.leb]. split.
  - unfold shared_label_hit. intros Hh E. by rewrite E, andb_false_r in Hh.
  - intros Hx. apply shared_hit_applies; [done| |done]. intros E. by specialize (Hx E).
Qed.

Lemma marked_task_row tiers t t' label u unit price :
  normalizeTierLabel label <> [] -> In t tiers -> row_key (TaskRow t) = normalizeTierLabel label ->
  task_applies u t = true -> In t' tiers ->
  (forall c, In c (kt_conditions t') -> fact_text u (kc_field c) = Some (kc_value c) -> fact_is u c = true) ->
  (forall c, In c (kt_conditions t') -> fact_text u (kc_field c) <> None) ->
  isBreakdownTierMatched (TaskRow t') (map TaskRow tiers) label (Some u) unit price = true ->
  row_key (TaskRow t') = row_key (TaskRow t) /\ task_applies u t' = true.
Proof.
  intros Hn Hin Hk Ha Hin' Hback Hknown Hm.
  assert (Hk' : row_key (TaskRow t') = normalizeTierLabel label).
  { eapply marked_carries; [done| |exact Hm]. exists (TaskRow t). split; [by apply in_map|done]. }
  split; [congruence|]. unfold isBreakdownTierMatched in Hm. cbn [unit_differs] in Hm.
  rewrite (proj2 (carries_iff _ _ Hn) Hk') in Hm.
  destruct (Nat.ltb 1 _) eqn:E; [by apply shared_hit_inv|].
  set (carrying := List.filter _ (map TaskRow tiers)) in *.
  assert (Hboth : forall x, In x tiers -> row_key (TaskRow x) = normalizeTierLabel label -> In (TaskRow x) carrying).
  { intros x Hx Hkx. apply filter_In. split; [by apply in_map|]. by apply carries_iff. }
  pose proof (Hboth t Hin Hk) as H1. pose proof (Hboth t' Hin' Hk') as H2.
  destruct carrying as [|r [|]]; [done| |done]. destruct H1 as [->|[]], H2 as [[= ->]|[]]. done.
Qed.
End settlement.

(** The chain [len < 100 ? ... ] of three tiers, settled by its second. *)
Lemma settled_row_marked_witness :
  match compile_expr chain_source with
  | Ok cm =>
      match readTokenTierChain (c_ast cm), evaluateBillingExpression (H := plain_host) chain_source chain_ctx with
      | Some tiers, Success v =>
          matchedTier v = js "mid" /\
          exists t, List.find (applies chain_ctx) tiers = Some t /\
            isBreakdownTierMatched (H := plain_host) (TokenRow (mapTokenTier t)) (token_rows tiers)
              (Some (matchedTier v)) None (Some (billingUnit v)) (fixedPrice v) = true
      | _, _ => False
      end
  | Err _ => False
  end.
Proof.
  destruct (compile_expr chain_source) as [cm|] eqn:Hc; [|vm_compute in Hc; discriminate Hc].
  destruct (readTokenTierChain (c_ast cm)) as [tiers|] eqn:Hr.
  2:{ vm_compute in Hc. injection Hc as <-. vm_compute in Hr. discriminate Hr. }
  destruct (evaluateBillingExpression chain_source chain_ctx) as [v|f] eqn:He.
  2:{ vm_compute in He. discriminate He. }
  assert (Hm : matchedTier v = js "mid").
  { vm_compute in He. injection He as <-. reflexivity. }
  split; [exact Hm|].
  destruct (settled_row_marked (H := plain_host) chain_source cm tiers chain_ctx v None Hc Hr He)
    as (_ & t & Ht & Hmk & _).
  { rewrite Hm. vm_compute. discriminate. }
  exists t. split; [exact Ht|exact Hmk].
Defined.
