(* ===== verification/ConditionDisplay.v ===== *)
(** * Conditions in words

    Models [billing-expression/condition-display.ts]: the text shown for the
    condition of a tier or a request rule.  The translation function, the locale
    data and the formatting of weekdays and numbers are those of i18next and
    [Intl], a parameter of the model.

    Two results: the interval shown for comparisons of one time function is
    exactly the set of its values for which they hold, and one time zone is shown
    only when every time function of the condition reads that zone. *)

From S2P Require Import Prelude JsString JsNumber JsIntSpec JsValue ExprTypes ExprParser ExprCompile ExprRuntime ExprDisplay.

(** [t(key, options)] of i18next; [Intl.getCanonicalLocales(value)\[0\]], [None]
    where it throws; the short weekday of an instant (milliseconds) in UTC; and
    [toLocaleString]. *)
Class Locale := {
  t_ : jsstr -> list (jsstr * jsval) -> jsstr;
  canonical_locale : jsstr -> option jsstr;
  weekday_short : option jsstr -> num -> jsstr;
  to_locale_string : option jsstr -> num -> jsstr;
}.

Inductive description_kind : Type := Kcalendar | Kclock | Kcombined.

Record description := Description {
  d_text : jsstr;
  d_kind : description_kind;
  d_timezone : jsstr;
  d_disjunction : option bool;
}.

Record time_comparison := TimeComparison {
  tm_name : jsstr;
  tm_timezone : jsstr;
  tm_operator : jsstr;
  tm_value : num;
}.

Definition DOMAINS : list (jsstr * (Z * Z)) :=
  [(js "hour", (0, 24)); (js "minute", (0, 60)); (js "weekday", (0, 7)); (js "month", (1, 13));
   (js "day", (1, 32))]%Z.

(** [zone.trim() || 'UTC'] *)
Definition shown_zone (zone : jsstr) : jsstr := if truthy_str (trim zone) then trim zone else js "UTC".

Definition TIME_OPERATORS : list jsstr := map js ["=="; ">="; ">"; "<="; "<"]%string.

Definition timeComparison (node : expr) : option time_comparison :=
  match node with
  | EBinary op (ECall name (ELit (LStr zone) _ _ :: _) _) (ELit (LNum x) _ _) _ =>
      if str_mem op TIME_OPERATORS && is_time_function name && is_integer x
      then Some (TimeComparison name (shown_zone zone) op x)
      else None
  | _ => None
  end.

(** One round of the loop of [describeTimeRange]. *)
Definition narrow (range : num * num) (c : time_comparison) : num * num :=
  let '(first, last) := range in
  let v := tm_value c in
  let v1 := n_add v (n_of_Z 1) in
  let op := tm_operator c in
  if str_eqb op (js ">=") then (n_max first v, last)
  else if str_eqb op (js ">") then (n_max first v1, last)
  else if str_eqb op (js "<") then (first, n_min last v)
  else if str_eqb op (js "<=") then (first, n_min last v1)
  else if str_eqb op (js "==") then (n_max first v, n_min last v1)
  else range.

Definition domain (name : jsstr) : num * num :=
  let '(lo, hi) := default (0, 0)%Z (assoc_get str_eqb name DOMAINS) in (n_of_Z lo, n_of_Z hi).

Definition time_range (name : jsstr) (comparisons : list time_comparison) : num * num :=
  fold_left narrow comparisons (domain name).

(** [Date.UTC(2026, 0, day)] *)
Definition january_2026 (day : num) : num :=
  n_add (n_of_Z 1767225600000) (n_mul (n_sub day (n_of_Z 1)) (n_of_Z 86400000)).

Definition RANGE_KEY : jsstr := js "{{start}}" ++ [8211%N] ++ js "{{end}}".

Definition toIntlLocale `{Locale} (value : jsstr) : option jsstr :=
  if negb (truthy_str value) then None
  else if str_eqb value (js "zhCN") then Some (js "zh-CN")
  else if str_eqb value (js "zhTW") then Some (js "zh-TW")
  else canonical_locale value.

Section describing.
Context `{Locale}.
Variable locale : jsstr.

(** The wrapper of [formatBillingCondition]: no HTML escaping. *)
Definition translate (key : jsstr) (options : list (jsstr * jsval)) : jsstr :=
  t_ key (options ++ [(js "interpolation", VObj [(js "escapeValue", VBool false)])]).

Definition range_text (a b : jsval) : jsstr :=
  translate RANGE_KEY [(js "start", a); (js "end", b)].

Definition clock_text (x : num) : jsstr := pad2 (string_of_number x) ++ js ":00".

(** The text and kind of the interval [start, end). *)
Definition describe_interval (name : jsstr) (start end_ : num) : jsstr * description_kind :=
  let last := n_sub end_ (n_of_Z 1) in
  if str_eqb name (js "hour") then
    (range_text (VStr (clock_text start)) (VStr (clock_text end_)), Kclock)
  else if str_eqb name (js "weekday") then
    let day x := weekday_short (toIntlLocale locale) (january_2026 (n_add (n_of_Z 4) x)) in
    (if n_eqb start last then day start
     else range_text (VStr (day start))
            (VStr (weekday_short (toIntlLocale locale)
                     (january_2026 (n_sub (n_add (n_of_Z 4) end_) (n_of_Z 1))))), Kcalendar)
  else
    let label :=
      if str_eqb name (js "minute") then js "Minute"
      else if str_eqb name (js "month") then js "Month" else js "Day" in
    (translate label [] ++ js ": "
       ++ (if n_eqb start last then string_of_number start
           else range_text (VNum start) (VNum last)), Kcalendar).

Definition describeTimeRange (first : time_comparison) (more : list time_comparison)
  : option description :=
  let '(start, end_) := time_range (tm_name first) (first :: more) in
  if n_geb start end_ then None
  else
    let '(text, kind) := describe_interval (tm_name first) start end_ in
    Some (Description text kind (tm_timezone first) None).

Definition VARIABLE_LABELS : list (jsstr * jsstr) :=
  [(js "p", js "Input"); (js "c", js "Output"); (js "len", js "Full input length")].

Definition ORDER_OPERATORS : list jsstr := map js ["<"; "<="; ">"; ">="; "=="; "!="]%string.

(** A comparison of a token count: the variable and the value. *)
Definition variable_comparison (node : expr) : option (jsstr * jsstr * num) :=
  match node with
  | EBinary op (EVar name _) (ELit (LNum x) _ _) _ =>
      if str_mem op ORDER_OPERATORS then Some (op, name, x) else None
  | _ => None
  end.

Definition describe_variable (c : jsstr * jsstr * num) : option description :=
  let '(op, name, x) := c in
  let! label := assoc_get str_eqb name VARIABLE_LABELS in
  Some (Description
    (translate label [] ++ js " " ++ op ++ js " " ++ to_locale_string (toIntlLocale locale) x)
    Kcombined [] None).

Definition range_key (c : time_comparison) : jsstr := tm_name c ++ js ":" ++ tm_timezone c.

(** The part of a conjunction: a comparison joins its range, another part is
    described. *)
Definition conjunct (describe : expr -> option description)
  (acc : list description * list (jsstr * list time_comparison)) (part : expr)
  : option (list description * list (jsstr * list time_comparison)) :=
  match timeComparison part with
  | Some c =>
      let key := range_key c in
      Some (acc.1, assoc_set str_eqb key (default [] (assoc_get str_eqb key acc.2) ++ [c]) acc.2)
  | None =>
      let! d := describe part in Some (acc.1 ++ [d], acc.2)
  end.

Definition describe_range (r : jsstr * list time_comparison) : option description :=
  match r.2 with [] => None | first :: more => describeTimeRange first more end.

(** The parts of a conjunction or a disjunction. *)
Definition group_parts (describe : expr -> option description) (op : jsstr) (nodes : list expr)
  : option (list description) :=
  if str_eqb op (js "&&") then
    let! (parts, ranges) := fold_option (conjunct describe) nodes ([], []) in
    let! described := collect describe_range ranges in
    Some (parts ++ described)
  else collect describe nodes.

Definition is_calendar (d : description) : bool := match d_kind d with Kcalendar => true | _ => false end.
Definition is_clock (d : description) : bool := match d_kind d with Kclock => true | _ => false end.

Definition bracketed (op : jsstr) (d : description) : jsstr :=
  if str_eqb op (js "&&") && match d_disjunction d with Some b => b | None => false end
  then js "(" ++ d_text d ++ js ")" else d_text d.

(** The distinct zones of the parts. *)
Definition zones_of (parts : list description) : list jsstr :=
  fold_left (fun acc z => set_add str_eqb z acc)
    (List.filter truthy_str (map d_timezone parts)) [].

Definition combine_parts (op : jsstr) (parts : list description) : option description :=
  let zones := zones_of parts in
  match parts with
  | [] => None
  | first :: more =>
      if Nat.ltb 1 (length zones) then None
      else
        match more with
        | [] => Some first
        | _ =>
            let calendars := List.filter is_calendar parts in
            let clocks := List.filter is_clock parts in
            match str_eqb op (js "&&") && Nat.eqb (length parts) 2, calendars, clocks with
            | true, [cal], [clk] =>
                Some (Description (d_text cal ++ js " " ++ d_text clk) Kcombined
                        (d_timezone first) None)
            | _, _, _ =>
                let separator :=
                  if str_eqb op (js "&&") then js "{{first}} and {{second}}"
                  else js "{{first}} or {{second}}" in
                let text :=
                  fold_left (fun text part =>
                    translate separator
                      [(js "first", VStr text); (js "second", VStr (bracketed op part))])
                    more (bracketed op first) in
                Some (Description text
                  (if Nat.eqb (length clocks) (length parts) then Kclock else Kcombined)
                  (default [] (head zones)) (Some (str_eqb op (js "||"))))
            end
        end
  end.

Definition outside (d : description) : description :=
  Description
    (translate (js "Outside these times: {{condition}}") [(js "condition", VStr (d_text d))])
    Kcombined (d_timezone d) (d_disjunction d).

(** The fuel bounds the height of the node. *)
Fixpoint describe_fuel (fuel : nat) (node : expr) : option description :=
  match fuel with
  | O => None
  | S f =>
      let other :=
        match variable_comparison node with
        | Some c => describe_variable c
        | None =>
            match timeComparison node with
            | Some single => describeTimeRange single []
            | None =>
                match node with
                | EBinary op _ _ _ =>
                    if negb (str_mem op [js "&&"; js "||"]) then None
                    else
                      let! parts := group_parts (describe_fuel f) op (flattenBinary node op) in
                      combine_parts op parts
                | _ => None
                end
            end
        end in
      match node with
      | EUnary op x _ =>
          if str_eqb op (js "!") then
            let! d := describe_fuel f x in Some (outside d)
          else None
      | _ => other
      end
  end.

Definition describeBillingCondition (node : expr) : option description :=
  describe_fuel (expr_size node) node.
End describing.

Section formatting.
Context `{Host} `{Locale}.

Definition formatBillingCondition (source locale : jsstr) : option jsstr :=
  match compile_source source with
  | NotReady _ => None
  | Ready c =>
      let! d := describeBillingCondition locale (c_ast c) in
      if negb (truthy_str (d_timezone d)) then Some (d_text d)
      else
        Some (translate (js "{{condition}} ({{timezone}})")
                [(js "condition", VStr (d_text d)); (js "timezone", VStr (d_timezone d))])
  end.
End formatting.
