(* ===== verification/ConditionDisplaySpec.v ===== *)
(** * Properties of condition texts *)

From S2P Require Import Prelude JsString JsNumber JsIntSpec JsValue ExprTypes ExprParser ExprParserSpec ExprCompile ExprRuntime ExprRuntimeSpec ExprDisplay ExprDisplaySpec ExprVisualSpec ConditionDisplay.

Local Open Scope Z_scope.

(** ** Intervals *)

(** The evaluator's comparison of the value [v] of the time function. *)
Definition comparison_holds (v : num) (c : time_comparison) : bool :=
  match binary_op (tm_operator c) (RVal (VNum v) true) (RVal (VNum (tm_value c)) true)
          (ELit LNull false (Span 0 0)) with
  | Ok r => match rv r with VBool b => b | _ => false end
  | Err _ => false
  end.

(** A comparison with an integer literal, as the conditions have it. *)
Definition plain_comparison (c : time_comparison) : Prop :=
  (exists node, timeComparison node = Some c) /\
  exists z, int_num (tm_value c) z /\ Z.abs z < max_safe.

Lemma timeComparison_inv node c : timeComparison node = Some c ->
  exists zone i sp1 more sp2 j sp3 sp,
    node = EBinary (tm_operator c)
             (ECall (tm_name c) (ELit (LStr zone) i sp1 :: more) sp2) (ELit (LNum (tm_value c)) j sp3) sp /\
    str_mem (tm_operator c) TIME_OPERATORS = true /\ is_time_function (tm_name c) = true /\
    tm_timezone c = shown_zone zone.
Proof.
  destruct node as [| | | |op l r sp|]; try done. destruct l as [| |name args sp2| | |]; try done.
  destruct args as [|[[]| | | | |] more]; try done. destruct r as [[]| | | | |]; try done.
  cbn [timeComparison]. destruct (str_mem op TIME_OPERATORS) eqn:Ho; [|done].
  destruct (is_time_function name) eqn:Ht; [|done]. cbn [andb]. destruct (is_integer _); [|done].
  intros [= <-]. eauto 20.
Qed.

Lemma comparison_operator node c : timeComparison node = Some c -> In (tm_operator c) TIME_OPERATORS.
Proof.
  intros Hn. destruct (timeComparison_inv node c Hn) as (zone & i & sp1 & more & sp2 & j & sp3 & sp & -> & Ho & _).
  by apply str_mem_In.
Qed.

Lemma narrow_exact first last a b c v w :
  safe_num first a -> safe_num last b -> plain_comparison c -> safe_num v w ->
  let '(first', last') := narrow (first, last) c in
  exists a' b', safe_num first' a' /\ safe_num last' b' /\ a <= a' /\ b' <= b /\
    (a' <= w < b' <-> (a <= w < b /\ comparison_holds v c = true)).
Proof.
  intros Ha Hb [[node Hn] (z & Hz & Hs)] Hv. apply comparison_operator in Hn.
  destruct c as [name zone op x]. cbn [tm_operator tm_value] in *.
  assert (Hx : safe_num x z) by (split; [done|lia]).
  assert (Hx1 : safe_num (n_add x (n_of_Z 1)) (z + 1)).
  { split; [|lia]. apply (add_safe x (n_of_Z 1) z 1 Hx); [|lia]. by apply of_Z_safe. }
  pose proof (max_safe_num first x a z Ha Hx) as H1.
  pose proof (max_safe_num first _ a _ Ha Hx1) as H2.
  pose proof (min_safe_num last x b z Hb Hx) as H3.
  pose proof (min_safe_num last _ b _ Hb Hx1) as H4.
  unfold narrow, comparison_holds. cbn [tm_operator tm_value].
  destruct Hn as [<-|[<-|[<-|[<-|[<-|[]]]]]].
  - change (binary_op _ _ _ _) with (@Ok berr rval (plain (VBool (n_eqb v x)))).
    rewrite (eqb_safe v x w z Hv Hx). eexists _, _. split; [exact H1|]. split; [exact H4|].
    split; [lia|]. split; [lia|]. simpl. lia.
  - change (binary_op _ _ _ _) with (@Ok berr rval (plain (VBool (n_leb x v)))).
    rewrite (leb_safe x v z w Hx Hv). eexists _, _. split; [exact H1|]. split; [exact Hb|].
    split; [lia|]. split; [lia|]. simpl. lia.
  - change (binary_op _ _ _ _) with (@Ok berr rval (plain (VBool (n_ltb x v)))).
    rewrite (ltb_safe x v z w Hx Hv). eexists _, _. split; [exact H2|]. split; [exact Hb|].
    split; [lia|]. split; [lia|]. simpl. lia.
  - change (binary_op _ _ _ _) with (@Ok berr rval (plain (VBool (n_leb v x)))).
    rewrite (leb_safe v x w z Hv Hx). eexists _, _. split; [exact Ha|]. split; [exact H4|].
    split; [lia|]. split; [lia|]. simpl. lia.
  - change (binary_op _ _ _ _) with (@Ok berr rval (plain (VBool (n_ltb v x)))).
    rewrite (ltb_safe v x w z Hv Hx). eexists _, _. split; [exact Ha|]. split; [exact H3|].
    split; [lia|]. split; [lia|]. simpl. lia.
Qed.

(** Narrowing by all comparisons; the bounds do not depend on the value. *)
Lemma time_range_exact comparisons : forall first last a b,
  safe_num first a -> safe_num last b -> Forall plain_comparison comparisons ->
  let '(start, end_) := fold_left narrow comparisons (first, last) in
  exists a' b', safe_num start a' /\ safe_num end_ b' /\ a <= a' /\ b' <= b /\
    forall v w, safe_num v w ->
      (a' <= w < b' <-> (a <= w < b /\ forallb (comparison_holds v) comparisons = true)).
Proof.
  induction comparisons as [|c cs IH]; intros first last a b Ha Hb Hf.
  { simpl. exists a, b. do 4 (split; [done || lia|]). intros v w _. simpl. tauto. }
  inversion Hf as [|? ? Hc Hf']; subst. clear Hf. rename Hf' into Hf. cbn [fold_left].
  destruct (narrow (first, last) c) as [f1 l1] eqn:En.
  assert (Hstep : exists a1 b1, safe_num f1 a1 /\ safe_num l1 b1 /\ a <= a1 /\ b1 <= b /\
    forall v w, safe_num v w -> (a1 <= w < b1 <-> (a <= w < b /\ comparison_holds v c = true))).
  { pose proof (narrow_exact first last a b c first a Ha Hb Hc Ha) as H0. rewrite En in H0.
    destruct H0 as (a1 & b1 & H1 & H2 & H3 & H4 & _). exists a1, b1. do 4 (split; [done|]).
    intros v w Hv. pose proof (narrow_exact first last a b c v w Ha Hb Hc Hv) as H5. rewrite En in H5.
    destruct H5 as (a2 & b2 & H6 & H7 & _ & _ & H8).
    assert (a2 = a1) as -> by (destruct H1 as [[_ E1] _], H6 as [[_ E2] _]; congruence).
    assert (b2 = b1) as -> by (destruct H2 as [[_ E1] _], H7 as [[_ E2] _]; congruence). done. }
  destruct Hstep as (a1 & b1 & H1 & H2 & H3 & H4 & H5).
  specialize (IH f1 l1 a1 b1 H1 H2 Hf). destruct (fold_left narrow cs (f1, l1)) as [start end_].
  destruct IH as (a' & b' & I1 & I2 & I3 & I4 & I5). exists a', b'. do 4 (split; [done || lia|]).
  intros v w Hv. rewrite (I5 v w Hv), (H5 v w Hv). cbn [forallb]. rewrite andb_true_iff. tauto.
Qed.

Lemma domain_bounds name lo hi : assoc_get str_eqb name DOMAINS = Some (lo, hi) ->
  0 <= lo /\ lo < hi /\ hi <= 60 /\ domain name = (n_of_Z lo, n_of_Z hi).
Proof.
  intros Hd. unfold domain. rewrite Hd. unfold DOMAINS in Hd. cbn [assoc_get] in Hd.
  repeat (destruct (str_eqb name _); [injection Hd as <- <-; split_and!; done || lia|]). done.
Qed.

Section interval.
Context `{Locale}.
Variable locale : jsstr.

(** C29: the interval shown for comparisons of a time function is exact: no
    interval is shown just when no value of the function satisfies all of them,
    and otherwise the text is that of an interval [start, end) within the
    function's domain such that a value of the domain lies in it just when the
    evaluator finds every comparison true of it. *)
Theorem described_range_exact first more lo hi :
  assoc_get str_eqb (tm_name first) DOMAINS = Some (lo, hi) ->
  Forall plain_comparison (first :: more) ->
  let satisfied w := forallb (comparison_holds (n_of_Z w)) (first :: more) = true in
  match describeTimeRange locale first more with
  | None => forall w, lo <= w < hi -> ~ satisfied w
  | Some d =>
      exists start end_ a b,
        (d_text d, d_kind d) = describe_interval locale (tm_name first) start end_ /\
        d_timezone d = tm_timezone first /\
        int_value start = Some a /\ int_value end_ = Some b /\ lo <= a < b /\ b <= hi /\
        forall w, lo <= w < hi -> (satisfied w <-> a <= w < b)
  end.
Proof.
  intros Hd Hf satisfied. destruct (domain_bounds _ _ _ Hd) as (H0 & H1 & H2 & Hdom).
  assert (Hw : forall w, 0 <= w <= 60 -> safe_num (n_of_Z w) w).
  { intros w Hw. apply of_Z_safe. unfold max_safe. lia. }
  unfold describeTimeRange, time_range. rewrite Hdom.
  pose proof (time_range_exact (first :: more) (n_of_Z lo) (n_of_Z hi) lo hi
    (Hw lo ltac:(lia)) (Hw hi ltac:(lia)) Hf) as Hr.
  destruct (fold_left narrow _ _) as [start end_].
  destruct Hr as (a & b & Ha & Hb & Hla & Hbh & Hex).
  assert (Hge : n_leb end_ start = (b <=? a)) by by apply leb_safe.
  replace (n_geb start end_) with (b <=? a) by (symmetry; exact Hge).
  destruct (Z.leb_spec b a).
  - intros w Hlw Hs. pose proof (Hex (n_of_Z w) w (Hw w ltac:(lia))) as He.
    assert (a <= w < b) by (apply He; split; [done|exact Hs]). lia.
  - destruct (describe_interval locale (tm_name first) start end_) as [text kind] eqn:Et. simpl.
    exists start, end_, a, b. split; [done|]. split; [done|].
    split; [apply Ha|]. split; [apply Hb|]. split; [lia|]. split; [lia|].
    intros w Hlw. pose proof (Hex (n_of_Z w) w (Hw w ltac:(lia))) as He. unfold satisfied. tauto.
Qed.
End interval.

(** ** Zones *)

(** The calls of a described condition read the zone [tz]. *)
Definition reads_zone (tz : jsstr) (n : expr) : Prop :=
  match n with
  | ECall name args _ =>
      is_time_function name = true /\
      exists zone i sp, args = [ELit (LStr zone) i sp] /\ shown_zone zone = tz
  | _ => True
  end.
Definition zoned (tz : jsstr) (e : expr) : Prop := forall n, In n (postorder e) -> reads_zone tz n.

Lemma shown_zone_nonempty zone : shown_zone zone <> [].
Proof. unfold shown_zone. by destruct (trim zone). Qed.

(** A condition of no zone has no calls. *)
Lemma zoned_weaken tz tz' e : tz = [] \/ tz = tz' -> zoned tz e -> zoned tz' e.
Proof.
  intros [->|<-] Hz; [|done]. intros n Hn. specialize (Hz n Hn). destruct n; try done.
  destruct Hz as (_ & zone & i & sp' & _ & Hs). by apply shown_zone_nonempty in Hs.
Qed.

Lemma comparison_zoned node c :
  Forall node_wf (postorder node) -> timeComparison node = Some c -> zoned (tm_timezone c) node.
Proof.
  intros Hw Hc. destruct (timeComparison_inv node c Hc) as (zone & i & sp1 & more & sp2 & j & sp3 & sp & -> & _ & Ht & Hz).
  assert (more = []) as ->.
  { rewrite List.Forall_forall in Hw.
    specialize (Hw (ECall (tm_name c) (ELit (LStr zone) i sp1 :: more) sp2)).
    assert (Hin : In (ECall (tm_name c) (ELit (LStr zone) i sp1 :: more) sp2)
      (postorder (EBinary (tm_operator c) (ECall (tm_name c) (ELit (LStr zone) i sp1 :: more) sp2)
         (ELit (LNum (tm_value c)) j sp3) sp))).
    { eapply postorder_child; [by left|]. apply postorder_self. }
    specialize (Hw Hin). cbn [node_wf] in Hw. apply str_mem_In in Ht.
    destruct Ht as [Ht|[Ht|[Ht|[Ht|[Ht|[]]]]]]; rewrite <- Ht in Hw; injection Hw as Hw;
      by destruct more. }
  intros n. rewrite postorder_children. cbn [children flat_map].
  rewrite (postorder_children (ECall _ _ _)). simpl. intros [<-|[<-|[<-|[<-|[]]]]]; try done.
  split; [done|]. eauto 10.
Qed.

Lemma flatten_cover op e n :
  In n (postorder e) -> (exists x, In x (flattenBinary e op) /\ In n (postorder x)) \/
  (exists o l r sp, n = EBinary o l r sp).
Proof.
  induction e as [v i sp|name sp|name args sp|o y IHy sp|o l IHl r IHr sp|cn IHc y IHy m IHm sp];
    intros Hn; try (left; eexists; split; [by left|exact Hn]).
  cbn [flattenBinary]. destruct (negb _); [left; eexists; split; [by left|exact Hn]|].
  rewrite postorder_children in Hn. cbn [children flat_map] in Hn. rewrite app_nil_r in Hn.
  apply in_app_iff in Hn as [[Hn|Hn]%in_app_iff|[<-|[]]]; [| |right; eauto].
  - destruct (IHl Hn) as [(x & Hx & Hx')|]; [|by right]. left. exists x. rewrite in_app_iff. auto.
  - destruct (IHr Hn) as [(x & Hx & Hx')|]; [|by right]. left. exists x. rewrite in_app_iff. auto.
Qed.

Lemma zoned_group tz op e :
  (forall x, In x (flattenBinary e op) -> zoned tz x) -> zoned tz e.
Proof.
  intros Hx n Hn. destruct (flatten_cover op e n Hn) as [(x & Hin & Hnx)|(o & l & r & sp & ->)]; [|done].
  by apply (Hx x Hin).
Qed.

(** A description that names a clock time or a calendar day names a zone. *)
Definition kind_zoned (d : description) : Prop := d_kind d <> Kcombined -> d_timezone d <> [].

Lemma zones_of_In parts z :
  In z (zones_of parts) <-> z <> [] /\ exists p, In p parts /\ d_timezone p = z.
Proof.
  unfold zones_of.
  assert (Hf : forall l acc, In z (fold_left (fun acc z => set_add str_eqb z acc) l acc) <-> In z l \/ In z acc).
  { induction l as [|y l IH]; intros acc; simpl; [tauto|].
    rewrite IH, set_add_elem by apply str_eqb_eq. intuition congruence. }
  rewrite Hf, filter_In, in_map_iff. destruct z; simpl; split.
  - intros [[_ ?]|[]]; done.
  - by intros [? _].
  - intros [[(p & Hp & Hin) _]|[]]. eauto.
  - intros [_ (p & Hin & Hp)]. left. eauto.
Qed.

Lemma single_zone parts p :
  Nat.ltb 1 (length (zones_of parts)) = false -> In p parts -> d_timezone p <> [] ->
  zones_of parts = [d_timezone p].
Proof.
  intros Hl Hp Hn. assert (Hin : In (d_timezone p) (zones_of parts)) by (apply zones_of_In; eauto).
  apply Nat.ltb_ge in Hl. destruct (zones_of parts) as [|z [|z' zs]]; simpl in *; [done| |lia].
  by destruct Hin as [->|[]].
Qed.

Lemma filter_all_length {A} (f : A -> bool) l :
  length (List.filter f l) = length l -> forall x, In x l -> f x = true.
Proof.
  induction l as [|y l IH]; [done|]. simpl. pose proof (List.filter_length_le f l) as Hle.
  destruct (f y) eqn:Ey; simpl; intros Hl x [->|Hx]; try done; try (exfalso; lia).
  apply IH; [lia|done].
Qed.

Section zones.
Context `{Locale}.
Variable locale : jsstr.

Lemma combine_parts_zone op parts d :
  Forall kind_zoned parts -> combine_parts op parts = Some d ->
  kind_zoned d /\ forall p, In p parts -> d_timezone p = [] \/ d_timezone p = d_timezone d.
Proof.
  intros Hk. unfold combine_parts. destruct parts as [|first more]; [done|].
  destruct (Nat.ltb 1 (length (zones_of (first :: more)))) eqn:Hz; [done|].
  pose proof (single_zone (first :: more)) as Hs. specialize (fun p => Hs p Hz).
  destruct more as [|second more].
  { intros [= <-]. inversion Hk; subst. split; [done|]. intros p [<-|[]]. by right. }
  assert (Hgen : forall text b clocks, List.filter is_clock (first :: second :: more) = clocks ->
    let d := Description text
      (if Nat.eqb (length clocks) (length (first :: second :: more))
       then Kclock else Kcombined)
      (default [] (head (zones_of (first :: second :: more)))) b in
    kind_zoned d /\ forall p, In p (first :: second :: more) -> d_timezone p = [] \/ d_timezone p = d_timezone d).
  { intros text b clocks <-. split.
    - unfold kind_zoned. cbn [d_kind d_timezone].
      destruct (Nat.eqb _ _) eqn:El; [|done]. intros _. apply Nat.eqb_eq in El.
      pose proof (filter_all_length _ _ El first (or_introl eq_refl)) as Hc. inversion Hk as [|? ? Hf _]; subst.
      assert (Hn : d_timezone first <> []) by (apply Hf; unfold is_clock in Hc; by destruct (d_kind first)).
      by rewrite (Hs first (or_introl eq_refl) Hn).
    - intros p Hp. cbn [d_timezone]. destruct (d_timezone p) as [|x z] eqn:Ep; [by left|].
      right. rewrite (Hs p Hp) by (by rewrite Ep). by rewrite Ep. }
  destruct (_ && _) eqn:E2; [|intros [= <-]; by apply Hgen].
  destruct (List.filter is_calendar _) as [|cal [|]] eqn:Ec; try (intros [= <-]; by apply Hgen).
  destruct (List.filter is_clock (first :: second :: more)) as [|clk [|]] eqn:Ek.
  1: { intros [= <-]. exact (Hgen _ _ [] eq_refl). }
  2: { intros [= <-]. exact (Hgen _ _ _ eq_refl). }
  intros [= <-]. split; [by unfold kind_zoned|]. cbn [d_timezone].
  assert (more = []) as -> by (apply andb_true_iff in E2 as [_ E2]; by destruct more).
  inversion Hk as [|? ? Hf Hk']; subst. inversion Hk' as [|? ? Hsd _]; subst.
  assert (Hkinds : d_kind first <> Kcombined /\ d_kind second <> Kcombined).
  { unfold is_calendar, is_clock in Ec, Ek. simpl in Ec, Ek. destruct (d_kind first), (d_kind second); simplify_eq; by split. }
  destruct Hkinds as [K1 K2]. intros p [<-|[<-|[]]]; right; [done|].
  assert (Hz1 := Hs first (or_introl eq_refl) (Hf K1)).
  assert (Hz2 := Hs second (or_intror (or_introl eq_refl)) (Hsd K2)). congruence.
Qed.

Lemma range_described c more d :
  describeTimeRange locale c more = Some d -> d_timezone d = tm_timezone c.
Proof.
  unfold describeTimeRange. destruct (time_range _ _). destruct (n_geb _ _); [done|].
  destruct (describe_interval _ _ _ _). by intros [= <-].
Qed.

Lemma range_key_inj c c' :
  is_time_function (tm_name c) = true -> is_time_function (tm_name c') = true ->
  range_key c = range_key c' -> tm_timezone c = tm_timezone c'.
Proof.
  unfold range_key. intros H1 H2. apply str_mem_In in H1, H2.
  destruct H1 as [<-|[<-|[<-|[<-|[<-|[]]]]]], H2 as [<-|[<-|[<-|[<-|[<-|[]]]]]]; by intros [= ->].
Qed.

(** What the loop over the parts of a conjunction keeps: every part is described
    or in a range, and a range holds comparisons with its key. *)
Definition range_ok (r : jsstr * list time_comparison) : Prop :=
  Forall (fun c => is_time_function (tm_name c) = true /\ tm_timezone c <> [] /\ range_key c = r.1) r.2.
Definition accounted (parts : list description) (ranges : list (jsstr * list time_comparison)) (x : expr) : Prop :=
  (exists d, In d parts /\ zoned (d_timezone d) x) \/
  (exists r c, In r ranges /\ In c r.2 /\ zoned (tm_timezone c) x).

Lemma accounted_set parts k cs cs' ranges x :
  assoc_get str_eqb k ranges = Some cs \/ (assoc_get str_eqb k ranges = None /\ cs = []) ->
  (forall c, In c cs -> In c cs') ->
  accounted parts ranges x -> accounted parts (assoc_set str_eqb k cs' ranges) x.
Proof.
  intros Hg Hsub [Hd|(r & c & Hr & Hc & Hz)]; [by left|]. right.
  induction ranges as [|[k' v'] ranges IH]; [done|]. cbn [assoc_set assoc_get] in *.
  destruct (str_eqb k k') eqn:E.
  - destruct Hg as [[= ->]|[? _]]; [|done]. destruct Hr as [<-|Hr].
    + exists (k', cs'), c. split; [by left|]. split; [by apply Hsub|done].
    + exists r, c. split; [by right|done].
  - destruct Hr as [<-|Hr]; [exists (k', v'), c; split; [by left|done]|].
    destruct (IH Hg Hr) as (r1 & c1 & ? & ?). exists r1, c1. split; [by right|done].
Qed.

Lemma assoc_set_own k (v : list time_comparison) ranges : In (k, v) (assoc_set str_eqb k v ranges).
Proof.
  induction ranges as [|[k' v'] ranges IH]; simpl; [by left|].
  destruct (str_eqb k k') eqn:E; [apply str_eqb_eq in E as ->; by left|by right].
Qed.

Lemma assoc_set_Forall (P : jsstr * list time_comparison -> Prop) k v ranges :
  P (k, v) -> Forall P ranges -> Forall P (assoc_set str_eqb k v ranges).
Proof.
  intros Hv Hf. induction Hf as [|[k' v'] l Hp Hl IH]; simpl; [by repeat constructor|].
  destruct (str_eqb k k') eqn:E; constructor; try done. by apply str_eqb_eq in E as ->.
Qed.

Lemma range_get_In k (ranges : list (jsstr * list time_comparison)) v :
  assoc_get str_eqb k ranges = Some v -> In (k, v) ranges.
Proof.
  induction ranges as [|[k' v'] l IH]; simpl; [done|].
  destruct (str_eqb k k') eqn:E; [apply str_eqb_eq in E as ->; intros [= ->]; by left|].
  intros Hg. right. by apply IH.
Qed.

(** What is known of a described part. *)
Definition described_ok (x : expr) (d : description) : Prop := zoned (d_timezone d) x /\ kind_zoned d.

Lemma conjunct_ok (describe : expr -> option description) nodes : forall parts ranges parts' ranges',
  (forall x d, In x nodes -> describe x = Some d -> described_ok x d) ->
  Forall (fun x => Forall node_wf (postorder x)) nodes ->
  Forall kind_zoned parts -> Forall range_ok ranges ->
  fold_option (conjunct describe) nodes (parts, ranges) = Some (parts', ranges') ->
  Forall kind_zoned parts' /\ Forall range_ok ranges' /\
  (forall x, accounted parts ranges x -> accounted parts' ranges' x) /\
  forall x, In x nodes -> accounted parts' ranges' x.
Proof.
  induction nodes as [|x nodes IH]; intros parts ranges parts' ranges' Hd Hw Hp Hr Hf.
  { injection Hf as <- <-. split_and!; [done|done|done|]. by intros x []. }
  inversion Hw as [|? ? Hwx Hw']; subst. cbn [fold_option] in Hf.
  destruct (conjunct describe (parts, ranges) x) as [[p1 r1]|] eqn:Ec; [|done].
  assert (Hstep : Forall kind_zoned p1 /\ Forall range_ok r1 /\
    (forall y, accounted parts ranges y -> accounted p1 r1 y) /\ accounted p1 r1 x).
  { unfold conjunct in Ec. destruct (timeComparison x) as [c|] eqn:Et.
    - destruct (timeComparison_inv x c Et) as (zone & _ & _ & _ & _ & _ & _ & _ & _ & _ & Htf & Htz).
      cbn [fst snd] in Ec. injection Ec as <- <-.
      set (cs := default [] (assoc_get str_eqb (range_key c) ranges)).
      assert (Hcs : assoc_get str_eqb (range_key c) ranges = Some cs \/
        (assoc_get str_eqb (range_key c) ranges = None /\ cs = [])).
      { unfold cs. destruct (assoc_get _ _ _); [by left|by right]. }
      split_and!; [done| | |].
      + apply assoc_set_Forall; [|done]. unfold range_ok. cbn [fst snd]. apply Forall_app. split.
        * destruct Hcs as [Hg|[_ ->]]; [|constructor]. apply range_get_In in Hg.
          rewrite List.Forall_forall in Hr. by apply (Hr _ Hg).
        * repeat constructor; [done|rewrite Htz; apply shown_zone_nonempty].
      + intros y. apply accounted_set with (cs := cs); [done|]. intros c' Hc'. apply in_app_iff. by left.
      + right. exists (range_key c, cs ++ [c]), c. split; [apply assoc_set_own|].
        split; [apply in_app_iff; right; by left|]. by apply comparison_zoned.
    - destruct (describe x) as [d|] eqn:Ed; [|done]. cbn [fst snd] in Ec. injection Ec as <- <-.
      destruct (Hd x d (or_introl eq_refl) Ed) as [Hz Hk].
      split_and!; [apply Forall_app; split; [done|by repeat constructor]|done| |].
      + intros y [(d' & Hin & Hz')|Hy]; [left|by right]. exists d'. rewrite in_app_iff. auto.
      + left. exists d. rewrite in_app_iff. split; [right; by left|done]. }
  destruct Hstep as (H1 & H2 & H3 & H4).
  destruct (IH p1 r1 parts' ranges') as (I1 & I2 & I3 & I4); try done.
  { intros y d Hy. apply Hd. by right. }
  split_and!; [done|done|auto|]. intros y [<-|Hy]; [by apply I3|by apply I4].
Qed.

Lemma collect_In {A B} (f : A -> option B) l ys :
  collect f l = Some ys -> (forall x, In x l -> exists y, f x = Some y /\ In y ys) /\
  (forall y, In y ys -> exists x, In x l /\ f x = Some y).
Proof.
  revert ys. induction l as [|a l IH]; intros ys Hc; cbn [collect] in Hc.
  { injection Hc as <-. split; intros ? []. }
  destruct (f a) as [b|] eqn:Ea; [|done]. destruct (collect f l) as [bs|]; [|done]. injection Hc as <-.
  destruct (IH bs eq_refl) as [I1 I2]. split.
  - intros x [<-|Hx]; [exists b; split; [done|by left]|].
    destruct (I1 x Hx) as (y & ? & ?). exists y. split; [done|by right].
  - intros y [<-|Hy]; [exists a; split; [by left|done]|].
    destruct (I2 y Hy) as (x & ? & ?). exists x. split; [by right|done].
Qed.

Lemma group_parts_ok (describe : expr -> option description) op nodes parts :
  (forall x d, In x nodes -> describe x = Some d -> described_ok x d) ->
  Forall (fun x => Forall node_wf (postorder x)) nodes ->
  group_parts locale describe op nodes = Some parts ->
  Forall kind_zoned parts /\ forall x, In x nodes -> exists d, In d parts /\ zoned (d_timezone d) x.
Proof.
  intros Hd Hw. unfold group_parts. destruct (str_eqb op (js "&&")).
  - destruct (fold_option _ _ _) as [[ps rs]|] eqn:Ef; [|done].
    destruct (collect (describe_range locale) rs) as [ds|] eqn:Ec; [|done]. intros [= <-].
    apply conjunct_ok in Ef as (Hp & Hr & _ & Hacc); [|done|done|done|done].
    apply collect_In in Ec as [C1 C2]. rewrite List.Forall_forall in Hr.
    assert (Hrange : forall r d, In r rs -> describe_range locale r = Some d ->
      d_timezone d <> [] /\ forall c, In c r.2 -> tm_timezone c = d_timezone d).
    { intros r d Hin Hdr. specialize (Hr r Hin). unfold range_ok in Hr. unfold describe_range in Hdr.
      destruct r as [k [|c0 more]]; [done|]. cbn [snd fst] in *. apply range_described in Hdr as Hz.
      rewrite List.Forall_forall in Hr. destruct (Hr c0 (or_introl eq_refl)) as (T0 & N0 & K0).
      rewrite Hz. split; [done|]. intros c Hc. destruct (Hr c Hc) as (T1 & _ & K1).
      apply range_key_inj; [done|done|congruence]. }
    split.
    + apply Forall_app. split; [done|]. apply List.Forall_forall. intros d Hdin.
      destruct (C2 d Hdin) as (r & Hin & Hdr). intros _. by apply (Hrange r d).
    + intros x Hx. destruct (Hacc x Hx) as [(d & Hin & Hz)|(r & c & Hin & Hc & Hz)].
      * exists d. rewrite in_app_iff. auto.
      * destruct (C1 r Hin) as (d & Hdr & Hdin). exists d. rewrite in_app_iff. split; [auto|].
        destruct (Hrange r d Hin Hdr) as [_ Heq]. by rewrite <- (Heq c Hc).
  - intros [C1 C2]%collect_In. split.
    + apply List.Forall_forall. intros d Hdin. destruct (C2 d Hdin) as (x & Hin & Hdx).
      by apply (Hd x d).
    + intros x Hx. destruct (C1 x Hx) as (d & Hdx & Hdin). exists d. split; [done|]. by apply (Hd x d).
Qed.

Lemma describe_ok f : forall node d,
  Forall node_wf (postorder node) -> describe_fuel locale f node = Some d -> described_ok node d.
Proof.
  induction f as [|f IH]; intros node d Hw Hd; [done|]. cbn [describe_fuel] in Hd.
  assert (Hsub : forall x, In x (postorder node) -> Forall node_wf (postorder x)).
  { intros x Hx. apply List.Forall_forall. intros n Hn. rewrite List.Forall_forall in Hw.
    apply Hw. by eapply postorder_trans. }
  assert (Hvar : forall c, variable_comparison node = Some c -> describe_variable locale c = Some d ->
    described_ok node d).
  { intros [[op name] x] Hv Hdv. unfold describe_variable in Hdv.
    destruct (assoc_get _ _ _); [|done]. injection Hdv as <-. split; [|by unfold kind_zoned].
    destruct node as [| | | |o el er sp|]; try done. destruct el; try done. destruct er as [[]| | | | |]; try done.
    intros n. simpl. by intros [<-|[<-|[<-|[]]]]. }
  assert (Htime : forall c, timeComparison node = Some c -> describeTimeRange locale c [] = Some d ->
    described_ok node d).
  { intros c Hc Hdr. apply range_described in Hdr. split; [rewrite Hdr; by apply comparison_zoned|].
    intros _. rewrite Hdr. destruct (timeComparison_inv node c Hc) as (zone & _ & _ & _ & _ & _ & _ & _ & _ & _ & _ & ->).
    apply shown_zone_nonempty. }
  destruct node as [v i sp|name sp|name args sp|op x sp|op l r sp|cn y n sp]; try done.
  - destruct (str_eqb op (js "!")); [|done]. destruct (describe_fuel locale f x) as [d0|] eqn:Ex; [|done].
    injection Hd as <-. assert (Hx : In x (postorder (EUnary op x sp))).
    { eapply postorder_child; [by left|apply postorder_self]. }
    destruct (IH x d0 (Hsub x Hx) Ex) as [Hz _]. split; [|by unfold kind_zoned]. cbn [d_timezone outside].
    intros n. rewrite postorder_children. simpl. rewrite app_nil_r, in_app_iff. intros [Hn|[<-|[]]]; [by apply Hz|done].
  - destruct (variable_comparison _) as [c|] eqn:Ev; [by eapply Hvar|].
    destruct (timeComparison (EBinary op l r sp)) as [c|] eqn:Et; [by eapply Htime|].
    destruct (negb _); [done|]. destruct (group_parts _ _ _ _) as [parts|] eqn:Eg; [|done].
    destruct (group_parts_ok _ _ _ _ (fun x d Hx => IH x d (Hsub x (flatten_postorder _ _ _ Hx)))
      (proj2 (List.Forall_forall _ _) (fun x Hx => Hsub x (flatten_postorder _ _ _ Hx))) Eg) as [Hk Hc].
    destruct (combine_parts_zone op parts d Hk Hd) as [Hkd Hz]. split; [|done].
    apply (zoned_group _ op). intros x Hx. destruct (Hc x Hx) as (p & Hp & Hzp).
    eapply zoned_weaken; [by apply Hz|exact Hzp].
Qed.
End zones.

(** The time zone shown with a condition is the one it is evaluated in:
    every function call of a condition that is described is a time function of a
    literal zone, and that zone (UTC when blank) is the one shown. *)
Theorem described_zone `{Host} `{Locale} source locale cm d :
  compile_source source = Ready cm ->
  describeBillingCondition locale (c_ast cm) = Some d ->
  forall n, In n (postorder (c_ast cm)) -> reads_zone (d_timezone d) n.
Proof.
  unfold compile_source. destruct (compile_expr source) as [c|] eqn:Hc; [|done]. intros [= ->] Hd.
  apply (describe_ok locale _ _ _ (compiled_nodes source cm Hc) Hd).
Qed.

(** ** The fuel of describing *)

Lemma conjunct_fold_ext (f g : expr -> option description) nodes : forall acc,
  (forall x, In x nodes -> f x = g x) ->
  fold_option (conjunct f) nodes acc = fold_option (conjunct g) nodes acc.
Proof.
  induction nodes as [|x nodes IH]; intros acc Hx; [done|]. cbn [fold_option].
  unfold conjunct at 1 3. rewrite (Hx x) by (by left).
  destruct (timeComparison x); [|destruct (g x); [|done]]; apply IH; intros y Hy; apply Hx; by right.
Qed.

Lemma group_parts_ext `{Locale} locale (f g : expr -> option description) op nodes :
  (forall x, In x nodes -> f x = g x) -> group_parts locale f op nodes = group_parts locale g op nodes.
Proof.
  intros Hx. unfold group_parts. rewrite (conjunct_fold_ext f g) by done.
  by rewrite (collect_ext f g).
Qed.

(** Any fuel of at least the node's size gives the same description. *)
Lemma describe_fuel_enough `{Locale} locale f : forall g node, (expr_size node <= f)%nat -> (expr_size node <= g)%nat ->
  describe_fuel locale f node = describe_fuel locale g node.
Proof.
  induction f as [|f IH]; intros g node Hf Hg.
  { rewrite expr_size_children in Hf. lia. }
  destruct g as [|g]; [rewrite expr_size_children in Hg; lia|].
  destruct node as [| | |op x sp|op l r sp|]; try done; cbn [describe_fuel]; simpl in Hf, Hg.
  - by rewrite (IH g x) by lia.
  - destruct (variable_comparison _); [done|]. destruct (timeComparison _); [done|].
    destruct (negb (str_mem op [js "&&"; js "||"])) eqn:Eo; [done|].
    rewrite (group_parts_ext locale (describe_fuel locale f) (describe_fuel locale g)); [done|]. intros x Hx.
    assert (expr_size x <= expr_size l + expr_size r)%nat.
    { cbn [flattenBinary] in Hx. rewrite str_eqb_refl in Hx. cbn [negb] in Hx.
      apply in_app_iff in Hx as [Hx|Hx]; apply flatten_size in Hx; lia. }
    apply IH; lia.
Qed.

(** ** Witnesses *)

(** A locale that shows the keys themselves. *)
Definition plain_locale : Locale := {|
  t_ key options := key ++ flat_map (fun o => js " " ++ string_of_value o.2) (take (length options - 1) options);
  canonical_locale l := Some l;
  weekday_short _ ms := js "day@" ++ string_of_number ms;
  to_locale_string _ x := string_of_number x;
|}.

Definition office_from : time_comparison := TimeComparison (js "hour") (js "UTC") (js ">=") (n_of_Z 9).
Definition office_to : time_comparison := TimeComparison (js "hour") (js "UTC") (js "<") (n_of_Z 18).

Lemma plain_hour op x z :
  In (js op) TIME_OPERATORS -> is_integer x = true -> int_num x z -> Z.abs z < max_safe ->
  plain_comparison (TimeComparison (js "hour") (js "UTC") (js op) x).
Proof.
  intros Ho Hi Hx Hz. split; [|eauto].
  exists (EBinary (js op) (ECall (js "hour") [ELit (LStr (js "UTC")) false (Span 0 0)] (Span 0 0))
            (ELit (LNum x) true (Span 0 0)) (Span 0 0)).
  cbn [timeComparison]. rewrite Hi. replace (str_mem (js op) TIME_OPERATORS) with true; [done|].
  symmetry. by apply str_mem_In.
Qed.

Lemma described_range_exact_witness :
  match describeTimeRange (H := plain_locale) (js "en") office_from [office_to] with
  | None => False
  | Some d =>
      d_text d = RANGE_KEY ++ js " 09:00 18:00" /\
      exists start end_ a b,
        (d_text d, d_kind d) = describe_interval (H := plain_locale) (js "en") (js "hour") start end_ /\
        d_timezone d = js "UTC" /\
        int_value start = Some a /\ int_value end_ = Some b /\ 0 <= a < b /\ b <= 24 /\
        forall w, 0 <= w < 24 ->
          (forallb (comparison_holds (n_of_Z w)) [office_from; office_to] = true <-> a <= w < b)
  end.
Proof.
  assert (Hf : Forall plain_comparison [office_from; office_to]).
  { constructor; [|constructor; [|constructor]].
    - apply (plain_hour ">=" (n_of_Z 9) 9); [simpl; tauto|reflexivity|split; reflexivity|reflexivity].
    - apply (plain_hour "<" (n_of_Z 18) 18); [simpl; tauto|reflexivity|split; reflexivity|reflexivity]. }
  pose proof (described_range_exact (H := plain_locale) (js "en") office_from [office_to] 0 24
    eq_refl Hf) as Hx.
  destruct (describeTimeRange (H := plain_locale) (js "en") office_from [office_to]) as [d|] eqn:Hd.
  2:{ vm_compute in Hd. discriminate Hd. }
  split; [|exact Hx]. vm_compute in Hd. injection Hd as <-. reflexivity.
Defined.

Definition zone_source : jsstr :=
  jq "(hour('Asia/Tokyo') >= 22 || hour(' Asia/Tokyo ') < 6) && weekday('Asia/Tokyo') == 1 && len > 1000".

Lemma described_zone_witness :
  match compile_source (H := plain_host) zone_source with
  | Ready cm =>
      match describeBillingCondition (H := plain_locale) (js "en") (c_ast cm) with
      | Some d =>
          d_timezone d = js "Asia/Tokyo" /\
          forall n, In n (postorder (c_ast cm)) -> reads_zone (d_timezone d) n
      | None => False
      end
  | NotReady _ => False
  end.
Proof.
  destruct (compile_source (H := plain_host) zone_source) as [cm|] eqn:Hc; [|vm_compute in Hc; discriminate Hc].
  destruct (describeBillingCondition (H := plain_locale) (js "en") (c_ast cm)) as [d|] eqn:Hd.
  2:{ vm_compute in Hc. injection Hc as <-. vm_compute in Hd. discriminate Hd. }
  split.
  - vm_compute in Hc. injection Hc as <-. vm_compute in Hd. injection Hd as <-. reflexivity.
  - exact (described_zone (H := plain_host) (H0 := plain_locale) zone_source (js "en") cm d Hc Hd).
Defined.
