(* ===== verification/TaskExpr.v ===== *)
(** * Task pricing editor

    Models [lib/task-expr.ts]: the visual configuration of task tiers, the matrix
    of prices per combination of enumerated facts, the expressions generated from
    them and the preview.

    An object is the list of its own properties in enumeration order; field names
    are taken not to be array indices, which JavaScript would enumerate first.
    [localeCompare] is the host's collation, a parameter. *)

From S2P Require Import Prelude JsString JsNumber JsRegex JsValue ExprTypes ExprParser ExprCompile ExprRuntime ExprStructure ExprDisplay BillingExpr.

(** [locale_leb a b]: [a.localeCompare(b) <= 0]. *)
Class Collation := { locale_leb : jsstr -> jsstr -> bool }.

(** [entries.sort((\[a\], \[b\]) => a.localeCompare(b))], a stable sort. *)
Fixpoint insert_field {Col : Collation} {A} (x : jsstr * A) (l : list (jsstr * A)) : list (jsstr * A) :=
  match l with
  | [] => [x]
  | y :: l' => if locale_leb y.1 x.1 then y :: insert_field x l' else x :: l
  end.
Definition sort_fields {Col : Collation} {A} (l : list (jsstr * A)) : list (jsstr * A) :=
  fold_left (fun acc x => insert_field x acc) l [].

Definition TASK_TOKEN_PRICE_SCALE : num := n_of_Z 1000000.

Record task_visual_tier := TaskVisualTier {
  vt_label : jsstr;
  vt_conditions : list task_condition;
  vt_constant : num;
  vt_unitPrices : list (jsstr * num);
}.

(** [TaskVisualConfig] is its [tiers], [TaskMatrixConfig] its [rows]. *)
Record task_matrix_row := TaskMatrixRow {
  mr_combination : list (jsstr * jsstr);
  mr_constant : num;
  mr_unitPrices : list (jsstr * num);
}.

Inductive preview_part : Type :=
| PartConstant (amount : num)
| PartUsage (field : jsstr) (amount quantity unitPrice : num).

Record task_preview := TaskPreview {
  pv_tier : task_visual_tier;
  pv_total : num;
  pv_parts : list preview_part;
}.

(** [BillingUsageExample] *)
Record usage_example := UsageExample { ex_label : jsstr; ex_facts : list (jsstr * jsval) }.

Section editor.
Context {Col : Collation}.

Definition is_priced (d : usage_field) : bool :=
  match uf_type d, uf_unit d with Some UTnumber, Some u => truthy_str u | _, _ => false end.
Definition is_enumerated (d : usage_field) : bool :=
  match uf_enum d with Some (_ :: _) => true | _ => false end.

Definition getTaskNumberFields (schema : option usage_schema) : list (jsstr * usage_field) :=
  match schema with
  | None => []
  | Some s => sort_fields (List.filter (fun entry => is_priced entry.2) s)
  end.

Definition getTaskEnumFields (schema : option usage_schema) : list (jsstr * usage_field) :=
  match schema with
  | None => []
  | Some s => sort_fields (List.filter (fun entry => is_enumerated entry.2) s)
  end.

(** One round of the loop of [getTaskEnumCombinations]. *)
Definition extend_combinations (combinations : list (list (jsstr * jsstr)))
  (entry : jsstr * usage_field) : list (list (jsstr * jsstr)) :=
  flat_map (fun combination =>
    map (fun value => assoc_set str_eqb entry.1 value combination) (default [] (uf_enum entry.2)))
    combinations.

Definition getTaskEnumCombinations (schema : option usage_schema) : list (list (jsstr * jsstr)) :=
  fold_left extend_combinations (getTaskEnumFields schema) [[]].

(** [Object.fromEntries(fields.map((\[field\]) => \[field, f field\]))] *)
Definition price_object (fields : list (jsstr * usage_field)) (f : jsstr -> num) : list (jsstr * num) :=
  fold_left (fun acc entry => assoc_set str_eqb entry.1 (f entry.1) acc) fields [].

Definition createDefaultTaskVisualConfig (schema : usage_schema) : list task_visual_tier :=
  [TaskVisualTier (js "base") [] n_zero
     (price_object (getTaskNumberFields (Some schema)) (fun _ => n_zero))].

Definition createDefaultTaskMatrixConfig (schema : usage_schema) : list task_matrix_row :=
  let unitPrices := price_object (getTaskNumberFields (Some schema)) (fun _ => n_zero) in
  map (fun combination => TaskMatrixRow combination n_zero unitPrices)
    (getTaskEnumCombinations (Some schema)).

(** The middle dot that joins the values of a row. *)
Definition taskMatrixRowLabel (combination : list (jsstr * jsstr)) : jsstr :=
  match map snd (sort_fields combination) with
  | [] => js "base"
  | values => join [183%N] values
  end.

(** [prices\[field\] ?? 0] *)
Definition price_or_zero (prices : list (jsstr * num)) (field : jsstr) : num :=
  default n_zero (assoc_get str_eqb field prices).

(** [a\[field\] === b\[field\]], absent fields being [undefined]. *)
Definition same_price (a b : option num) : bool :=
  match a, b with
  | Some x, Some y => n_eqb x y
  | None, None => true
  | _, _ => false
  end.

Definition same_row (numberFields : list (jsstr * usage_field)) (row firstRow : task_matrix_row) : bool :=
  n_eqb (mr_constant row) (mr_constant firstRow) &&
  forallb (fun entry =>
    same_price (assoc_get str_eqb entry.1 (mr_unitPrices row))
      (assoc_get str_eqb entry.1 (mr_unitPrices firstRow))) numberFields.

Definition row_conditions (combination : list (jsstr * jsstr)) : list task_condition :=
  map (fun e => TaskCondition e.1 e.2) (sort_fields combination).

Definition row_prices (numberFields : list (jsstr * usage_field)) (prices : list (jsstr * num))
  : list (jsstr * num) := price_object numberFields (price_or_zero prices).

(** The tiers of the rows; the last row is the fallback. *)
Fixpoint rows_to_tiers (numberFields : list (jsstr * usage_field)) (rows : list task_matrix_row)
  : list task_visual_tier :=
  match rows with
  | [] => []
  | row :: rest =>
      TaskVisualTier (taskMatrixRowLabel (mr_combination row))
        (match rest with [] => [] | _ => row_conditions (mr_combination row) end)
        (mr_constant row) (row_prices numberFields (mr_unitPrices row))
        :: rows_to_tiers numberFields rest
  end.

Definition taskMatrixToTiers (rows : list task_matrix_row) (schema : usage_schema)
  : list task_visual_tier :=
  let numberFields := getTaskNumberFields (Some schema) in
  match numberFields, rows with
  | [], _ | _, [] => []
  | _, firstRow :: _ =>
      if forallb (fun row => same_row numberFields row firstRow) rows
      then [TaskVisualTier (js "base") [] (mr_constant firstRow)
              (row_prices numberFields (mr_unitPrices firstRow))]
      else rows_to_tiers numberFields rows
  end.

(** [combination\[field\] === value] *)
Definition combination_is (combination : list (jsstr * jsstr)) (c : task_condition) : bool :=
  match assoc_get str_eqb (kc_field c) combination with
  | Some v => str_eqb v (kc_value c)
  | None => false
  end.

Definition has_repeated_field (conditions : list task_condition) : bool :=
  negb (Nat.eqb
    (length (fold_left (fun acc c => set_add str_eqb (kc_field c) acc) conditions []))
    (length conditions)).

(** The row of a combination: the first tier that covers it. *)
Definition matrix_row (numberFields : list (jsstr * usage_field)) (tiers : list task_tier)
  (fallback : task_tier) (combination : list (jsstr * jsstr)) : task_matrix_row :=
  let tier :=
    default fallback
      (List.find (fun t => forallb (combination_is combination) (kt_conditions t)) tiers) in
  TaskMatrixRow combination (kt_constant tier) (row_prices numberFields (kt_unitPrices tier)).

(** The part of [tryParseTaskMatrixConfig] after the expression is parsed. *)
Definition tiers_to_matrix (tiers : list task_tier) (schema : usage_schema)
  : option (list task_matrix_row) :=
  match list.last tiers with
  | None => None
  | Some fallback =>
      match kt_conditions fallback with
      | _ :: _ => None
      | [] =>
          if existsb (fun t => has_repeated_field (kt_conditions t)) tiers then None
          else
            Some (map (matrix_row (getTaskNumberFields (Some schema)) tiers fallback)
                    (getTaskEnumCombinations (Some schema)))
      end
  end.
End editor.

Section parsing.
Context `{Host} {Col : Collation}.

Definition tryParseTaskMatrixConfig (expression : option jsstr) (schema : usage_schema)
  : result berr (option (list task_matrix_row)) :=
  match expression with
  | None | Some [] => Ok None
  | Some e =>
      let? tiers := parseTaskTiersFromExpr e (Some schema) false in
      match tiers with
      | [] => Ok None
      | _ => Ok (tiers_to_matrix tiers schema)
      end
  end.

(** ** Preview *)

(** [sample\[field\] === value] *)
Definition sample_is (sample : list (jsstr * jsval)) (c : task_condition) : bool :=
  match assoc_get str_eqb (kc_field c) sample with
  | Some (VStr s) => str_eqb s (kc_value c)
  | _ => false
  end.

Definition sample_matches (sample : list (jsstr * jsval)) (tier : task_visual_tier) : bool :=
  forallb (sample_is sample) (vt_conditions tier).

(** The tier of the sample: the first that matches, the last as fallback. *)
Definition matched_tier (tiers : list task_visual_tier) (sample : list (jsstr * jsval))
  : option task_visual_tier :=
  let! fallback := list.last tiers in
  Some (default fallback (List.find (sample_matches sample) (removelast tiers))).

Definition is_price (x : num) : bool := is_finite x && negb (n_ltb x n_zero).

Definition is_token_field (schema : option usage_schema) (field : jsstr) : bool :=
  match schema with
  | None => false
  | Some s =>
      match schema_get s field with
      | Some d => match uf_unit d with Some u => str_eqb u (js "token") | None => false end
      | None => false
      end
  end.

(** [Number(sample\[field\])]; the members objects inherit are not numbers. *)
Definition quantity_of (sample : list (jsstr * jsval)) (field : jsstr) : num :=
  match assoc_get str_eqb field sample with
  | Some v => number_of_value v
  | None => SpecFloat.S754_nan
  end.

(** One round of the loop over the unit prices. *)
Definition usage_part (schema : option usage_schema) (sample : list (jsstr * jsval))
  (parts : list preview_part) (entry : jsstr * num) : option (list preview_part) :=
  let '(field, unitPrice) := entry in
  if negb (is_price unitPrice) then None
  else if n_eqb unitPrice n_zero then Some parts
  else
    let quantity := quantity_of sample field in
    if negb (is_price quantity) then None
    else
      let amount :=
        if is_token_field schema field
        then n_div (n_mul quantity unitPrice) TASK_TOKEN_PRICE_SCALE
        else n_mul quantity unitPrice in
      if negb (is_finite amount) then None
      else Some (parts ++ [PartUsage field amount quantity unitPrice]).

(** A usage part with a name: its fact and its term. *)
Definition usage_of_part (part : preview_part) : option (jsstr * num * num) :=
  match part with
  | PartUsage field _ quantity unitPrice =>
      if truthy_str field then Some (field, quantity, unitPrice) else None
  | PartConstant _ => None
  end.

Definition usage_term (schema : option usage_schema) (field : jsstr) (unitPrice : num) : jsstr :=
  js "u(" ++ json_quote field ++ js ") * " ++ string_of_number unitPrice
    ++ (if is_token_field schema field then js " / 1000000" else []).

Definition preview_terms (schema : option usage_schema) (constant : num)
  (parts : list preview_part) : list jsstr :=
  string_of_number constant
    :: map (fun p => usage_term schema p.1.1 p.2) (omap usage_of_part parts).

Definition preview_usage (sample : list (jsstr * jsval)) (parts : list preview_part)
  : list (jsstr * jsval) :=
  fold_left (fun acc p => assoc_set str_eqb p.1.1 (VNum p.1.2) acc) (omap usage_of_part parts) sample.

Definition evaluateTaskVisualConfig (tiers : list task_visual_tier) (sample : list (jsstr * jsval))
  (schema : option usage_schema) : option task_preview :=
  let! tier := matched_tier tiers sample in
  let constant := vt_constant tier in
  if negb (is_price constant) then None
  else
    let first := if n_gtb constant n_zero then [PartConstant constant] else [] in
    let! parts := fold_option (usage_part schema sample) (vt_unitPrices tier) first in
    match
      evaluateBillingExpression
        (js "tier(" ++ json_quote (vt_label tier) ++ js ", "
           ++ join (js " + ") (preview_terms schema constant parts) ++ js ")")
        (Context None None None (Some (preview_usage sample parts)) None)
    with
    | Success v => Some (TaskPreview tier (cost v) parts)
    | Failed _ => None
    end.

(** ** Generated expressions *)

Definition nonnegative_or_zero (x : num) : num := if is_price x then x else n_zero.

Definition tier_label (label : jsstr) (index : nat) : jsstr :=
  if truthy_str label then label
  else if Nat.eqb index 0 then js "base" else js "tier_" ++ str_of_nat (index + 1).

Definition is_declared_condition (enumFields : list (jsstr * usage_field)) (c : task_condition) : bool :=
  match assoc_get str_eqb (kc_field c) enumFields with
  | Some d => str_mem (kc_value c) (default [] (uf_enum d))
  | None => false
  end.

Definition normalize_tier (schema : usage_schema) (index : nat) (tier : task_visual_tier)
  : task_visual_tier :=
  TaskVisualTier (tier_label (vt_label tier) index)
    (List.filter (is_declared_condition (getTaskEnumFields (Some schema))) (vt_conditions tier))
    (nonnegative_or_zero (vt_constant tier))
    (price_object (getTaskNumberFields (Some schema)) (fun field =>
       nonnegative_or_zero (default SpecFloat.S754_nan (assoc_get str_eqb field (vt_unitPrices tier))))).

Definition normalizeTaskVisualConfig (config : option (list task_visual_tier)) (schema : usage_schema)
  : list task_visual_tier :=
  match config with
  | None | Some [] => createDefaultTaskVisualConfig schema
  | Some tiers => imap (normalize_tier schema) tiers
  end.

Definition generateTaskTierBody (tier : task_visual_tier) (numberFields : list (jsstr * usage_field))
  : jsstr :=
  join (js " + ")
    ((if n_gtb (vt_constant tier) n_zero then [string_of_number (vt_constant tier)] else [])
     ++ map (fun entry =>
          js "u(" ++ json_quote entry.1 ++ js ") * "
            ++ string_of_number (price_or_zero (vt_unitPrices tier) entry.1)
            ++ (match uf_unit entry.2 with
                | Some u =>
                    if str_eqb u (js "token")
                    then js " / " ++ string_of_number TASK_TOKEN_PRICE_SCALE else []
                | None => []
                end)) numberFields).

Definition generateTaskTierCall (tier : task_visual_tier) (numberFields : list (jsstr * usage_field))
  : jsstr :=
  js "tier(" ++ json_quote (vt_label tier) ++ js ", " ++ generateTaskTierBody tier numberFields ++ js ")".

Definition generateTaskCondition (conditions : list task_condition) : jsstr :=
  join (js " && ")
    (map (fun c => js "u(" ++ json_quote (kc_field c) ++ js ") == " ++ json_quote (kc_value c))
       conditions).

(** The loop over the tiers; [None] where it returns the empty expression. *)
Fixpoint generate_parts (numberFields : list (jsstr * usage_field)) (tiers : list task_visual_tier)
  : option (list jsstr) :=
  match tiers with
  | [] => Some []
  | [tier] => Some [generateTaskTierCall tier numberFields]
  | tier :: rest =>
      let condition := generateTaskCondition (vt_conditions tier) in
      if negb (truthy_str condition) then None
      else
        let! parts := generate_parts numberFields rest in
        Some ((condition ++ js " ? " ++ generateTaskTierCall tier numberFields) :: parts)
  end.

Definition generateTaskExprFromConfig (config : option (list task_visual_tier)) (schema : usage_schema)
  : jsstr :=
  let numberFields := getTaskNumberFields (Some schema) in
  match numberFields with
  | [] => []
  | _ =>
      match generate_parts numberFields (normalizeTaskVisualConfig config schema) with
      | Some parts => join (js " : ") parts
      | None => []
      end
  end.

Definition visual_of_tier (t : task_tier) : task_visual_tier :=
  TaskVisualTier (kt_label t) (kt_conditions t) (kt_constant t) (kt_unitPrices t).

Definition tryParseTaskVisualConfig (expression : option jsstr) (schema : usage_schema)
  : result berr (option (list task_visual_tier)) :=
  match expression with
  | None | Some [] => Ok None
  | Some e =>
      let? tiers := parseTaskTiersFromExpr e (Some schema) false in
      match tiers with
      | [] => Ok None
      | _ => Ok (Some (normalizeTaskVisualConfig (Some (map visual_of_tier tiers)) schema))
      end
  end.

(** The totals of the examples the preview can price. *)
Definition evaluateTaskUsageExamples (expression : option jsstr) (schema : option usage_schema)
  (examples : option (list usage_example)) : result berr (list (jsstr * num)) :=
  match expression, schema, examples with
  | Some (c :: e), Some s, Some (x :: xs) =>
      let? (billingExpr, _) := splitBillingExprAndRequestRules (c :: e) in
      let? config := tryParseTaskVisualConfig (Some billingExpr) s in
      Ok (match config with
          | None => []
          | Some tiers =>
              omap (fun example =>
                let! p := evaluateTaskVisualConfig tiers (ex_facts example) (Some s) in
                Some (ex_label example, pv_total p)) (x :: xs)
          end)
  | _, _, _ => Ok []
  end.
End parsing.
