(* ===== verification/TaskExprSpec.v ===== *)
(** * Properties of the task pricing editor *)

From S2P Require Import Prelude JsString JsNumber JsRegex JsValue ExprTypes ExprParser ExprCompile ExprRuntime ExprRuntimeSpec ExprStructure ExprDisplay ExprDisplaySpec BillingExpr TaskExpr JsIntSpec.

(** ** Sorting and price objects *)

Section editor.
Context {Col : Collation}.

Lemma insert_field_perm {A} (x : jsstr * A) l : insert_field x l ≡ₚ x :: l.
Proof.
  induction l as [|y l IH]; simpl; [done|]. destruct (locale_leb _ _); [|done].
  rewrite IH. by constructor.
Qed.

Lemma sort_fields_perm {A} (l : list (jsstr * A)) : sort_fields l ≡ₚ l.
Proof.
  unfold sort_fields. enough (forall acc, fold_left (fun acc x => insert_field x acc) l acc ≡ₚ l ++ acc) as Hp.
  { rewrite Hp. by rewrite app_nil_r. }
  induction l as [|x l IH]; intros acc; simpl; [done|]. rewrite IH, insert_field_perm.
  symmetry. apply Permutation_middle.
Qed.

Lemma price_object_get fields (f : jsstr -> num) field :
  In field (map fst fields) -> assoc_get str_eqb field (price_object fields f) = Some (f field).
Proof.
  unfold price_object.
  enough (forall acc, In field (map fst fields) \/ assoc_get str_eqb field acc = Some (f field) ->
    assoc_get str_eqb field (fold_left (fun acc e => assoc_set str_eqb e.1 (f e.1) acc) fields acc) =
    Some (f field)) by auto.
  induction fields as [|[k d] fields IH]; intros acc; simpl; [by intros [[]|]|].
  intros Hk. apply IH. destruct (decide (k = field)) as [->|Hn].
  - right. by apply assoc_get_set_eq, str_eqb_eq.
  - destruct Hk as [[?|Hk]|Hk]; [done|by left|right].
    rewrite (assoc_get_set_ne _ str_eqb_eq) by congruence. done.
Qed.

(** ** Combinations *)

Lemma assoc_set_keys k v (c : list (jsstr * jsstr)) :
  ~ In k (map fst c) -> assoc_set str_eqb k v c = c ++ [(k, v)].
Proof.
  intros Hk. induction c as [|[k' v'] c IH]; simpl; [done|]. simpl in Hk.
  replace (str_eqb k k') with false; [|symmetry; apply str_eqb_neq; intros ->; auto].
  rewrite IH by auto. done.
Qed.

Lemma combinations_keys fields : forall acc keys,
  List.NoDup (keys ++ map fst fields) -> (forall c, In c acc -> map fst c = keys) ->
  forall c, In c (fold_left extend_combinations fields acc) -> map fst c = keys ++ map fst fields.
Proof.
  induction fields as [|[k d] fields IH]; intros acc keys Hn Ha c Hc; simpl in *.
  { rewrite app_nil_r. by apply Ha. }
  replace (keys ++ k :: map fst fields) with ((keys ++ [k]) ++ map fst fields) in * by (by rewrite <- app_assoc).
  eapply IH; [exact Hn| |exact Hc]. intros c' Hc'. unfold extend_combinations in Hc'.
  apply in_flat_map in Hc' as (c0 & Hc0 & Hv). apply in_map_iff in Hv as (v & <- & _). cbn [fst].
  rewrite assoc_set_keys, map_app, (Ha c0 Hc0); [done|]. rewrite (Ha c0 Hc0).
  rewrite <- app_assoc in Hn. by apply NoDup_remove_2 in Hn as Hk; intros Hin; apply Hk, in_app_iff; left.
Qed.

Definition distinct_fields (schema : usage_schema) : Prop := List.NoDup (map fst schema).

Lemma enum_fields_distinct schema :
  distinct_fields schema -> List.NoDup (map fst (getTaskEnumFields (Some schema))).
Proof.
  unfold distinct_fields, getTaskEnumFields. intros Hd.
  apply (Permutation.Permutation_NoDup (l := map fst (List.filter (fun e => is_enumerated e.2) schema))).
  { apply Permutation.Permutation_map. symmetry. apply sort_fields_perm. }
  induction schema as [|[k d] s IH]; simpl in *; [constructor|]. inversion Hd as [|? ? Hk Hd']; subst.
  destruct (is_enumerated d); [|auto]. simpl. constructor; [|auto].
  intros Hin. apply Hk. apply in_map_iff in Hin as (e & <- & [He _]%filter_In). by apply in_map.
Qed.

Lemma combination_keys schema c :
  distinct_fields schema -> In c (getTaskEnumCombinations (Some schema)) ->
  map fst c = map fst (getTaskEnumFields (Some schema)).
Proof.
  intros Hd Hc. eapply (combinations_keys _ [[]] []); [|by intros c' [<-|[]]|exact Hc].
  by apply enum_fields_distinct.
Qed.

Lemma assoc_get_own (c : list (jsstr * jsstr)) k v :
  List.NoDup (map fst c) -> In (k, v) c -> assoc_get str_eqb k c = Some v.
Proof.
  induction c as [|[k' v'] c IH]; [done|]. simpl. intros Hd Hin. inversion Hd as [|? ? Hk Hd']; subst.
  destruct Hin as [[= -> ->]|Hin]; [by rewrite str_eqb_refl|].
  replace (str_eqb k k') with false; [by apply IH|]. symmetry. apply str_eqb_neq. intros ->.
  apply Hk. by apply (in_map fst) in Hin.
Qed.

(** A row's conditions hold exactly for its own combination. *)
Lemma row_conditions_iff c c' :
  List.NoDup (map fst c) -> map fst c' = map fst c ->
  forallb (combination_is c) (row_conditions c') = true <-> c' = c.
Proof.
  intros Hd Hk. split.
  - intros Hf. rewrite forallb_forall in Hf.
    assert (Hget : forall k v, In (k, v) c' -> assoc_get str_eqb k c = Some v).
    { intros k v Hin. specialize (Hf (TaskCondition k v)). unfold combination_is in Hf. cbn [kc_field kc_value] in Hf.
      destruct (assoc_get str_eqb k c) as [w|].
      - rewrite (proj1 (str_eqb_eq w v)); [done|]. apply Hf. unfold row_conditions.
        apply (in_map (fun e => TaskCondition e.1 e.2) _ (k, v)).
        eapply Permutation.Permutation_in; [symmetry; apply sort_fields_perm|done].
      - discriminate Hf. unfold row_conditions. apply (in_map (fun e => TaskCondition e.1 e.2) _ (k, v)).
        eapply Permutation.Permutation_in; [symmetry; apply sort_fields_perm|done]. }
    clear Hf. revert c Hd Hk Hget. induction c' as [|[k v] c' IH]; intros [|[k0 v0] c] Hd Hk Hget; try done.
    simpl in Hk. injection Hk as -> Hk. simpl in Hd. inversion Hd as [|? ? Hn Hd']; subst.
    pose proof (Hget k0 v (or_introl eq_refl)) as Hv. simpl in Hv. rewrite str_eqb_refl in Hv. injection Hv as ->.
    f_equal. apply IH; [done|done|]. intros k v' Hin. specialize (Hget k v' (or_intror Hin)). simpl in Hget.
    replace (str_eqb k k0) with false in Hget; [done|]. symmetry. apply str_eqb_neq. intros ->.
    apply Hn. rewrite <- Hk. by apply (in_map fst) in Hin.
  - intros ->. apply forallb_forall. intros x Hx. unfold row_conditions in Hx.
    apply in_map_iff in Hx as ([k v] & <- & Hin). cbn [fst snd].
    eapply Permutation.Permutation_in in Hin; [|apply sort_fields_perm].
    unfold combination_is. cbn [kc_field kc_value]. rewrite (assoc_get_own c k v Hd Hin). apply str_eqb_refl.
Qed.

(** ** The matrix *)

Definition covers (c : list (jsstr * jsstr)) (t : task_tier) : bool :=
  forallb (combination_is c) (kt_conditions t).
Definition visual_covers (c : list (jsstr * jsstr)) (t : task_visual_tier) : bool :=
  forallb (combination_is c) (vt_conditions t).

(** Equal as prices: identical, or equal as numbers ([0] and [-0]). *)
Definition same_num (x y : num) : Prop := x = y \/ n_eqb x y = true.

Lemma rows_to_tiers_find fields c rows :
  List.NoDup (map fst c) -> Forall (fun r => map fst (mr_combination r) = map fst c) rows ->
  In c (map mr_combination rows) ->
  exists r t, In r rows /\ mr_combination r = c /\
    List.find (visual_covers c) (rows_to_tiers fields rows) = Some t /\
    vt_constant t = mr_constant r /\ vt_unitPrices t = row_prices fields (mr_unitPrices r).
Proof.
  intros Hd. induction rows as [|r rest IH]; [done|]. intros Hk Hin. inversion Hk as [|? ? Hkr Hkrest]; subst.
  cbn [rows_to_tiers List.find].
  set (t := TaskVisualTier _ _ _ _). destruct (visual_covers c t) eqn:Ev.
  - exists r, t. split; [by left|]. split; [|done].
    destruct rest as [|r' rest]; [by destruct Hin as [|[]]|]. by apply row_conditions_iff in Ev.
  - destruct rest as [|r' rest]; [done|]. destruct Hin as [Hc|Hin].
    + exfalso. assert (visual_covers c t = true); [|congruence]. by apply row_conditions_iff.
    + destruct (IH Hkrest Hin) as (r0 & t0 & Hr0 & Hrest). exists r0, t0. split; [by right|done].
Qed.

Lemma same_row_price fields row first field :
  same_row fields row first = true -> In field (map fst fields) ->
  same_num (price_or_zero (mr_unitPrices first) field) (price_or_zero (mr_unitPrices row) field).
Proof.
  unfold same_row. intros [_ Hf]%andb_true_iff Hin. rewrite forallb_forall in Hf.
  apply in_map_iff in Hin as (e & <- & He). specialize (Hf e He). unfold price_or_zero.
  destruct (assoc_get _ _ _), (assoc_get _ _ _); try done; [|by left].
  right. simpl. rewrite n_eqb_comm. exact Hf.
Qed.

Lemma find_fallback tiers fallback c :
  list.last tiers = Some fallback -> kt_conditions fallback = [] ->
  exists t, List.find (covers c) tiers = Some t.
Proof.
  intros (l & ->)%last_Some Hc. destruct (List.find (covers c) (l ++ [fallback])) eqn:Hf; [eauto|].
  exfalso. pose proof (find_none _ _ Hf fallback) as Hn. unfold covers in Hn. rewrite Hc in Hn.
  discriminate Hn. apply in_app_iff. right. by left.
Qed.

Lemma taskMatrixToTiers_eq schema first rest :
  let fields := getTaskNumberFields (Some schema) in
  fields <> [] ->
  taskMatrixToTiers (first :: rest) schema =
  if forallb (fun row => same_row fields row first) (first :: rest)
  then [TaskVisualTier (js "base") [] (mr_constant first) (row_prices fields (mr_unitPrices first))]
  else rows_to_tiers fields (first :: rest).
Proof. unfold taskMatrixToTiers. by destruct (getTaskNumberFields (Some schema)). Qed.

(** C31: opening a chain of task tiers in the matrix editor and writing the matrix
    back keeps every price: for each combination of the enumerated facts, the
    first written tier that covers it has the constant and the unit prices of the
    first original tier that covers it. *)
Theorem matrix_prices_kept tiers schema rows c :
  distinct_fields schema -> getTaskNumberFields (Some schema) <> [] ->
  tiers_to_matrix tiers schema = Some rows ->
  In c (getTaskEnumCombinations (Some schema)) ->
  exists t t', List.find (covers c) tiers = Some t /\
    List.find (visual_covers c) (taskMatrixToTiers rows schema) = Some t' /\
    same_num (vt_constant t') (kt_constant t) /\
    forall field, In field (map fst (getTaskNumberFields (Some schema))) ->
      same_num (price_or_zero (vt_unitPrices t') field) (price_or_zero (kt_unitPrices t) field).
Proof.
  intros Hd Hnf Ht Hc. unfold tiers_to_matrix in Ht.
  destruct (list.last tiers) as [fallback|] eqn:Hl; [|done].
  destruct (kt_conditions fallback) eqn:Hfc; [|done]. destruct (existsb _ _); [done|].
  assert (rows = map (matrix_row (getTaskNumberFields (Some schema)) tiers fallback)
    (getTaskEnumCombinations (Some schema))) as -> by congruence. clear Ht.
  set (fields := getTaskNumberFields (Some schema)) in *.
  set (rows := map (matrix_row fields tiers fallback) (getTaskEnumCombinations (Some schema))).
  destruct (find_fallback tiers fallback c Hl Hfc) as [t Hft]. exists t.
  assert (Hprice : forall r, mr_combination r = c -> In r rows ->
    mr_constant r = kt_constant t /\ forall field, In field (map fst fields) ->
      price_or_zero (mr_unitPrices r) field = price_or_zero (kt_unitPrices t) field).
  { intros r Hrc Hin. apply in_map_iff in Hin as (c0 & <- & _). cbn [matrix_row mr_combination] in Hrc. subst c0.
    unfold matrix_row. cbn [mr_constant mr_unitPrices].
    change (fun t => forallb (combination_is c) (kt_conditions t)) with (covers c). rewrite Hft. simpl. split; [done|].
    intros field Hin. unfold price_or_zero at 1, row_prices. by rewrite price_object_get. }
  assert (Hkeys : Forall (fun r => map fst (mr_combination r) = map fst c) rows).
  { apply List.Forall_forall. intros r (c0 & <- & Hc0)%in_map_iff. cbn [matrix_row mr_combination].
    by rewrite (combination_keys schema c0), (combination_keys schema c). }
  assert (Hnd : List.NoDup (map fst c)).
  { rewrite (combination_keys schema c) by done. by apply enum_fields_distinct. }
  assert (Hown : In (matrix_row fields tiers fallback c) rows) by by apply in_map.
  clearbody rows. destruct rows as [|first rest]; [done|].
  rewrite (taskMatrixToTiers_eq schema first rest Hnf). fold fields. set (rows := first :: rest) in *.
  destruct (forallb (fun row => same_row fields row first) rows) eqn:Eu.
  - exists (TaskVisualTier (js "base") [] (mr_constant first) (row_prices fields (mr_unitPrices first))).
    rewrite forallb_forall in Eu. specialize (Eu _ Hown). destruct (Hprice (matrix_row fields tiers fallback c) eq_refl Hown) as [H1 H2].
    split; [done|]. split; [done|]. split.
    + right. cbn [vt_constant]. rewrite <- H1. unfold same_row in Eu. apply andb_true_iff in Eu as [Eu _].
      by rewrite n_eqb_comm.
    + intros field Hin. cbn [vt_unitPrices]. unfold price_or_zero at 1, row_prices.
      rewrite price_object_get by done. rewrite <- (H2 field Hin). by eapply same_row_price.
  - destruct (rows_to_tiers_find fields c rows Hnd Hkeys) as (r & t' & Hr & Hrc & Hf & Hk & Hu).
    { apply in_map_iff. eexists. split; [|exact Hown]. done. }
    exists t'. split; [done|]. split; [done|]. destruct (Hprice r Hrc Hr) as [H1 H2]. split; [left; congruence|].
    intros field Hin. left. rewrite <- (H2 field Hin), Hu. unfold price_or_zero at 1, row_prices.
    by rewrite price_object_get.
Qed.
End editor.

Definition plain_collation : Collation := {| locale_leb := str_leb |}.

(** A chain of two tiers over a schema of one enumerated and one priced field. *)
Definition matrix_tiers : list task_tier :=
  [TaskTier None (js "pro") [TaskCondition (js "mode") (js "pro")] (n_of_Z 0) [(js "n", n_of_Z 2)];
   TaskTier None (js "std") [] (n_of_Z 1) [(js "n", n_of_Z 3)]].

Lemma matrix_prices_kept_witness :
  match tiers_to_matrix (Col := plain_collation) matrix_tiers task_schema with
  | Some rows =>
      length rows = 2 /\
      exists t t', List.find (covers [(js "mode", js "pro")]) matrix_tiers = Some t /\
        List.find (visual_covers [(js "mode", js "pro")])
          (taskMatrixToTiers (Col := plain_collation) rows task_schema) = Some t' /\
        same_num (vt_constant t') (kt_constant t)
  | None => False
  end.
Proof.
  destruct (tiers_to_matrix (Col := plain_collation) matrix_tiers task_schema) as [rows|] eqn:Hr.
  2:{ vm_compute in Hr. discriminate Hr. }
  split; [vm_compute in Hr; injection Hr as <-; reflexivity|].
  destruct (matrix_prices_kept (Col := plain_collation) matrix_tiers task_schema rows [(js "mode", js "pro")])
    as (t & t' & H1 & H2 & H3 & _).
  - repeat constructor; simpl; intros Hin; repeat (destruct Hin as [Hin|Hin]; try discriminate Hin); exact Hin.
  - discriminate.
  - exact Hr.
  - left. reflexivity.
  - exists t, t'. split; [exact H1|]. split; [exact H2|exact H3].
Defined.
