(* ===== verification/TaskWriteSpec.v ===== *)
(** * Written task prices read back

    The expression the task pricing editor writes for a configuration is cut into
    lexemes, parsed, compiled and read as the same configuration. *)

From S2P Require Import Prelude JsString JsNumber JsRegex JsValue ExprTypes ExprParser ExprParserSpec ExprSpelling ExprGrammar ExprLexing ExprWriting ExprCompile ExprCompileSpec ExprRuntime ExprStructure ExprDisplay ExprSplitSpec BillingExpr TaskExpr TaskExprSpec.

Local Open Scope Z_scope.

(** ** The lexemes and the tree of a configuration *)
Definition number_token (x : num) : token := TNum x (integer_text (string_of_number x)).
Definition number_node (x : num) : expr := ELit (LNum x) (integer_text (string_of_number x)) no_span.
Definition text_node (s : jsstr) : expr := ELit (LStr s) false no_span.

Definition usage_tokens (field : jsstr) : list token := [word "u"; word "("; TStr field; word ")"].
Definition usage_node (field : jsstr) : expr := ECall (js "u") [text_node field] no_span.

Definition is_token_unit (d : usage_field) : bool :=
  match uf_unit d with Some u => str_eqb u (js "token") | None => false end.

Definition term_text (entry : jsstr * usage_field) (price : num) : jsstr :=
  js "u(" ++ json_quote entry.1 ++ js ") * " ++ string_of_number price
    ++ (if is_token_unit entry.2 then js " / " ++ string_of_number TASK_TOKEN_PRICE_SCALE else []).
Definition term_tokens (entry : jsstr * usage_field) (price : num) : list token :=
  usage_tokens entry.1 ++ word "*" :: number_token price
    :: (if is_token_unit entry.2 then [word "/"; number_token TASK_TOKEN_PRICE_SCALE] else []).
Definition term_node (entry : jsstr * usage_field) (price : num) : expr :=
  let product := EBinary (js "*") (usage_node entry.1) (number_node price) no_span in
  if is_token_unit entry.2 then EBinary (js "/") product (number_node TASK_TOKEN_PRICE_SCALE) no_span else product.

Definition condition_text (c : task_condition) : jsstr :=
  js "u(" ++ json_quote (kc_field c) ++ js ") == " ++ json_quote (kc_value c).
Definition condition_tokens (c : task_condition) : list token :=
  usage_tokens (kc_field c) ++ [word "=="; TStr (kc_value c)].
Definition condition_node (c : task_condition) : expr :=
  EBinary (js "==") (usage_node (kc_field c)) (text_node (kc_value c)) no_span.

(** The summands of a tier: the constant unless it is zero, then the fields. *)
Definition priced (tier : task_visual_tier) (entry : jsstr * usage_field) : num :=
  price_or_zero (vt_unitPrices tier) entry.1.
Definition has_constant (tier : task_visual_tier) : bool := n_gtb (vt_constant tier) n_zero.

Definition body_tokens (tier : task_visual_tier) (fields : list (jsstr * usage_field)) : list token :=
  join_tokens (js "+")
    ((if has_constant tier then [[number_token (vt_constant tier)]] else [])
     ++ map (fun e => term_tokens e (priced tier e)) fields).
Definition body_nodes (tier : task_visual_tier) (fields : list (jsstr * usage_field)) : list expr :=
  (if has_constant tier then [number_node (vt_constant tier)] else [])
  ++ map (fun e => term_node e (priced tier e)) fields.
Definition sequence_node (op : jsstr) (es : list expr) : expr :=
  match es with [] => text_node [] | e :: es' => join_nodes op e es' end.

Definition call_tokens (tier : task_visual_tier) (fields : list (jsstr * usage_field)) : list token :=
  word "tier" :: word "(" :: [TStr (vt_label tier)] ++ word "," :: body_tokens tier fields ++ [word ")"].
Definition call_node (tier : task_visual_tier) (fields : list (jsstr * usage_field)) : expr :=
  ECall (js "tier") [text_node (vt_label tier); sequence_node (js "+") (body_nodes tier fields)] no_span.

Definition guard_tokens (cs : list task_condition) : list token := join_tokens (js "&&") (map condition_tokens cs).
Definition guard_node (cs : list task_condition) : expr := sequence_node (js "&&") (map condition_node cs).

Fixpoint chain_tokens (fields : list (jsstr * usage_field)) (tiers : list task_visual_tier) : list token :=
  match tiers with
  | [] => []
  | [tier] => call_tokens tier fields
  | tier :: rest =>
      guard_tokens (vt_conditions tier) ++ word "?" :: call_tokens tier fields ++ word ":" :: chain_tokens fields rest
  end.
Fixpoint chain_node (fields : list (jsstr * usage_field)) (tiers : list task_visual_tier) : expr :=
  match tiers with
  | [] => text_node []
  | [tier] => call_node tier fields
  | tier :: rest => ECond (guard_node (vt_conditions tier)) (call_node tier fields) (chain_node fields rest) no_span
  end.

(** ** What can be written *)
Definition units_ok (s : jsstr) : bool := forallb (fun c => (c <? 65536)%N) s.

Definition tier_ok (fields : list (jsstr * usage_field)) (tier : task_visual_tier) : bool :=
  units_ok (vt_label tier)
  && forallb (fun c => units_ok (kc_field c) && units_ok (kc_value c)) (vt_conditions tier)
  && writable (vt_constant tier) && forallb (fun e => writable (priced tier e)) fields.

(** Every tier but the last is conditional. *)
Fixpoint guarded (tiers : list task_visual_tier) : bool :=
  match tiers with
  | [] => false
  | [tier] => match vt_conditions tier with [] => true | _ => false end
  | tier :: rest => match vt_conditions tier with [] => false | _ => true end && guarded rest
  end.

Lemma units_forall s : units_ok s = true -> Forall (fun c => (c < 65536)%N) s.
Proof. intros H. apply List.Forall_forall. intros c Hc. eapply forallb_forall in H; [|exact Hc]. by apply N.ltb_lt. Qed.

(** ** Lexemes of the written text *)
Section text.
Context {Col : Collation}.

Lemma usage_piece field s ts f : units_ok field = true -> piece s ts f ->
  piece (js "u(" ++ json_quote field ++ 41%N :: s) (usage_tokens field ++ ts) f.
Proof.
  intros Hf Hs. unfold usage_tokens. cbn [app].
  change (js "u(" ++ json_quote field ++ 41%N :: s) with ([117%N] ++ 40%N :: json_quote field ++ 41%N :: s).
  apply (name_then 117%N []); [done|done|done|]. apply (sign_then 40%N); [done|].
  apply quoted_then; [by apply units_forall|]. by apply (sign_then 41%N).
Qed.

Lemma scale_writable : writable TASK_TOKEN_PRICE_SCALE = true.
Proof. vm_compute. reflexivity. Qed.

Lemma term_piece entry price : units_ok entry.1 = true -> writable price = true ->
  piece (term_text entry price) (term_tokens entry price) ends_number.
Proof.
  intros Hu Hp. unfold term_text, term_tokens.
  change (js ") * " ++ ?x) with (41%N :: 32%N :: 42%N :: 32%N :: x).
  apply usage_piece; [done|]. apply space_then, (sign_then 42%N); [done|]. apply space_then.
  destruct (is_token_unit entry.2).
  - change (js " / " ++ ?x) with (32%N :: 47%N :: 32%N :: x). apply number_then; [done|done|].
    apply space_then, (sign_then 47%N); [done|]. apply space_then, piece_number, scale_writable.
  - rewrite app_nil_r. by apply piece_number.
Qed.

Lemma condition_piece c : units_ok (kc_field c) && units_ok (kc_value c) = true ->
  piece (condition_text c) (condition_tokens c) ends_number.
Proof.
  intros [Hf Hv]%andb_true_iff. unfold condition_text, condition_tokens.
  change (js ") == " ++ ?x) with (41%N :: 32%N :: js "==" ++ 32%N :: x).
  apply usage_piece; [done|]. apply space_then. apply (pair_then "=="); [simpl; tauto|]. apply space_then.
  eapply piece_weaken; [|by apply piece_quoted, units_forall]. done.
Qed.

Lemma body_text tier fields : generateTaskTierBody tier fields =
  join (js " + ") ((if has_constant tier then [string_of_number (vt_constant tier)] else [])
    ++ map (fun e => term_text e (priced tier e)) fields).
Proof.
  unfold generateTaskTierBody, has_constant. do 2 f_equal. apply map_ext. intros [field d].
  unfold term_text, priced, is_token_unit. cbn [fst snd].
  destruct (uf_unit d) as [u|]; [|done]. by destruct (str_eqb u (js "token")).
Qed.

Lemma body_piece tier fields : tier_ok fields tier = true -> forallb (fun e => units_ok e.1) fields = true ->
  piece (generateTaskTierBody tier fields) (body_tokens tier fields) ends_number.
Proof.
  unfold tier_ok. rewrite !andb_true_iff. intros (((_ & _) & Hc) & Hp) Hu. rewrite body_text. unfold body_tokens.
  apply (piece_join (js "+ ") (word "+")); [done| |].
  { apply space_then, (sign_then 43%N); [done|]. apply space_then, piece_nil. }
  apply Forall2_app.
  - destruct (has_constant tier); [|constructor]. constructor; [|constructor]. by apply piece_number.
  - induction fields as [|e fields IH]; cbn [map]; [constructor|]. cbn [forallb] in Hp, Hu.
    apply andb_true_iff in Hp as [Hp Hps], Hu as [Hu Hus]. constructor; [by apply term_piece|by apply IH].
Qed.

Lemma call_piece tier fields s ts f : tier_ok fields tier = true -> forallb (fun e => units_ok e.1) fields = true ->
  piece s ts f -> piece (generateTaskTierCall tier fields ++ s) (call_tokens tier fields ++ ts) f.
Proof.
  intros Ht Hu Hs. pose proof (body_piece tier fields Ht Hu) as Hb. unfold generateTaskTierCall, call_tokens.
  rewrite <- !app_assoc. cbn [app]. rewrite <- app_assoc. cbn [app].
  change (js "tier(" ++ ?x) with (js "tier" ++ 40%N :: x).
  apply (name_then 116%N (js "ier")); [done|done|done|]. apply (sign_then 40%N); [done|].
  apply quoted_then. { apply units_forall. unfold tier_ok in Ht. rewrite !andb_true_iff in Ht. apply Ht. }
  change (js ", " ++ ?x) with (44%N :: 32%N :: x). apply (sign_then 44%N); [done|]. apply space_then.
  change (js ")" ++ s) with (41%N :: s). eapply (piece_cons _ 41%N s _ (word ")" :: ts) ends_number f); [done| |done].
  by apply (sign_then 41%N).
Qed.

Lemma guard_piece cs : forallb (fun c => units_ok (kc_field c) && units_ok (kc_value c)) cs = true ->
  piece (generateTaskCondition cs) (guard_tokens cs) ends_number.
Proof.
  intros H. unfold generateTaskCondition, guard_tokens.
  apply (piece_join (js "&& ") (word "&&")); [done| |].
  { apply space_then. apply (pair_then "&&"); [simpl; tauto|]. apply space_then, piece_nil. }
  induction cs as [|c cs IH]; cbn [map]; [constructor|]. cbn [forallb] in H. apply andb_true_iff in H as [Hc Hcs].
  constructor; [by apply condition_piece|by apply IH].
Qed.

Definition fields_ok (fields : list (jsstr * usage_field)) : bool := forallb (fun e => units_ok e.1) fields.

Lemma chain_piece fields tiers : guarded tiers = true -> forallb (tier_ok fields) tiers = true ->
  fields_ok fields = true ->
  exists parts, generate_parts fields tiers = Some parts /\ parts <> [] /\
    piece (join (js " : ") parts) (chain_tokens fields tiers) anything.
Proof.
  intros Hg Ht Hu. induction tiers as [|tier rest IH]; [done|]. cbn [forallb] in Ht.
  apply andb_true_iff in Ht as [Ht Hts]. destruct rest as [|tier2 rest].
  { exists [generateTaskTierCall tier fields]. split; [done|]. split; [done|]. cbn [join chain_tokens].
    rewrite <- (app_nil_r (generateTaskTierCall tier fields)), <- (app_nil_r (call_tokens tier fields)).
    apply call_piece; [done|done|apply piece_nil]. }
  cbn [guarded] in Hg. apply andb_true_iff in Hg as [Hg Hgs].
  destruct (IH Hgs Hts) as (parts & Hp & Hne & Hpiece). clear IH.
  destruct (vt_conditions tier) as [|c cs] eqn:Hcs; [done|].
  exists ((generateTaskCondition (c :: cs) ++ js " ? " ++ generateTaskTierCall tier fields) :: parts).
  split.
  { cbn [generate_parts]. rewrite Hcs.
    assert (Hc : truthy_str (generateTaskCondition (c :: cs)) = true) by (by destruct cs).
    rewrite Hc. cbn [negb]. cbn [generate_parts] in Hp. by rewrite Hp. }
  split; [done|]. destruct parts as [|part parts]; [done|]. set (tail := join (js " : ") (part :: parts)) in *.
  change (join (js " : ") ((generateTaskCondition (c :: cs) ++ js " ? " ++ generateTaskTierCall tier fields) :: part :: parts))
    with ((generateTaskCondition (c :: cs) ++ js " ? " ++ generateTaskTierCall tier fields) ++ js " : " ++ tail).
  rewrite <- !app_assoc. change (js " ? " ++ ?x) with (32%N :: 63%N :: 32%N :: x).
  change (js " : " ++ tail) with (32%N :: 58%N :: 32%N :: tail).
  change (chain_tokens fields (tier :: tier2 :: rest)) with (guard_tokens (vt_conditions tier) ++ word "?" ::
    call_tokens tier fields ++ word ":" :: chain_tokens fields (tier2 :: rest)). rewrite Hcs.
  eapply (piece_cons _ 32%N _ _ _ ends_number anything); [apply guard_piece| |done].
  { unfold tier_ok in Ht. rewrite !andb_true_iff, Hcs in Ht. apply Ht. }
  apply space_then, (sign_then 63%N); [done|]. apply space_then, call_piece; [done|done|].
  apply space_then, (sign_then 58%N); [done|]. by apply space_then.
Qed.
End text.

(** ** The tree is derived *)
Lemma number_whole min x : min <= 100 -> whole 1 min [number_token x] (number_node x).
Proof. intros H. apply (operand_whole 0 100); [done|apply operand_number]. Qed.

Lemma text_whole min s : min <= 100 -> whole 1 min [TStr s] (text_node s).
Proof. intros H. apply (operand_whole 0 100); [done|apply operand_string]. Qed.

Lemma usage_call_operand q field : operand 1 q (usage_tokens field) (usage_node field).
Proof. apply (operand_call1 1 q (js "u") [TStr field]); [done|]. by apply text_whole. Qed.

Lemma term_operand entry price : operand 1 6 (term_tokens entry price) (term_node entry price).
Proof.
  assert (Hp : operand 1 6 (usage_tokens entry.1 ++ [word "*"; number_token price])
    (EBinary (js "*") (usage_node entry.1) (number_node price) no_span)).
  { apply (operand_binary 1 (js "*") 6 6 _ _ [number_token price]); [done|done|done|apply usage_call_operand|by apply number_whole]. }
  unfold term_tokens, term_node. destruct (is_token_unit entry.2); [|exact Hp].
  change (usage_tokens entry.1 ++ word "*" :: number_token price :: [word "/"; number_token TASK_TOKEN_PRICE_SCALE])
    with ((usage_tokens entry.1 ++ [word "*"; number_token price]) ++ TWord (js "/") :: [number_token TASK_TOKEN_PRICE_SCALE]).
  apply (operand_binary 1 (js "/") 6 6); [done|done|done|exact Hp|by apply number_whole].
Qed.

Lemma condition_operand c : operand 1 3 (condition_tokens c) (condition_node c).
Proof. apply (operand_binary 1 (js "==") 3 3 _ _ [TStr (kc_value c)]); [done|done|done|apply usage_call_operand|by apply text_whole]. Qed.

(** A sequence whose members bind more strongly than its operator. *)
Lemma sequence_operand op p q tss es : precedence op = Some p -> p < q -> op <> js "(" -> es <> [] ->
  Forall2 (operand 1 q) tss es -> operand 2 p (join_tokens op tss) (sequence_node op es).
Proof.
  intros Hp Hq Ho Hne H. destruct H as [|ta a tss es Ha H]; [done|].
  assert (Hs : operand 2 (match es with [] => q | _ => p end) (join_tokens op (ta :: tss)) (join_nodes op a es)).
  { apply (operand_sequence 2 op p q); [done|lia|done|by eapply (operand_mono 1 2)|].
    induction H as [|tb b tss es Hb H IH]; constructor; [|by apply IH]. apply (operand_whole 1 q); [lia|done]. }
  destruct es; [|exact Hs]. destruct Hs as (H0 & Hsp & Hd). split; [done|]. split; [done|].
  intros d rest Hdep [Hf1 Hf2] min e2 rest2 Hm. apply Hd; [done| |lia]. split; [done|].
  intros w r Hw Hr. specialize (Hf2 w r Hw Hr). lia.
Qed.

Lemma body_operand tier fields : fields <> [] ->
  operand 2 5 (body_tokens tier fields) (sequence_node (js "+") (body_nodes tier fields)).
Proof.
  intros Hf. apply (sequence_operand (js "+") 5 6); [done|done|done| |].
  - unfold body_nodes. destruct fields; [done|]. by destruct (has_constant tier).
  - unfold body_tokens, body_nodes. apply Forall2_app.
    + destruct (has_constant tier); [|constructor]. constructor; [|constructor].
      apply (operand_mono 0 1); [done|apply operand_number].
    + induction fields as [|e fields IH]; [done|]. destruct fields; cbn [map]; constructor; try apply term_operand; [constructor|].
      by apply IH.
Qed.

Lemma call_whole tier fields : fields <> [] -> whole 4 0 (call_tokens tier fields) (call_node tier fields).
Proof.
  intros Hf. apply (operand_whole 3 100); [done|]. unfold call_tokens, call_node.
  apply (operand_call2 3 100 (js "tier") [TStr (vt_label tier)]); [done| |].
  - apply (whole_mono 1 3); [done|]. by apply text_whole.
  - apply (operand_whole 2 5); [done|]. by apply body_operand.
Qed.

Lemma guard_operand cs : cs <> [] -> operand 2 2 (guard_tokens cs) (guard_node cs).
Proof.
  intros Hc. apply (sequence_operand (js "&&") 2 3); [done|done|done|by destruct cs|].
  clear Hc. induction cs as [|c cs IH]; cbn [map]; constructor; [apply condition_operand|apply IH].
Qed.

Lemma chain_whole fields tiers : fields <> [] -> guarded tiers = true ->
  whole (3 + Z.of_nat (length tiers)) 0 (chain_tokens fields tiers) (chain_node fields tiers).
Proof.
  intros Hf Hg. induction tiers as [|tier rest IH]; [done|]. destruct rest as [|tier2 rest].
  { by apply call_whole. }
  cbn [guarded] in Hg. apply andb_true_iff in Hg as [Hg Hgs]. specialize (IH Hgs).
  replace (3 + Z.of_nat (length (tier :: tier2 :: rest))) with (3 + Z.of_nat (length (tier2 :: rest)) + 1)
    by (cbn [length]; lia).
  change (chain_node fields (tier :: tier2 :: rest)) with
    (ECond (guard_node (vt_conditions tier)) (call_node tier fields) (chain_node fields (tier2 :: rest)) no_span).
  apply (whole_cond _ 2); [done| | |exact IH].
  - apply (operand_mono 2); [cbn [length]; lia|]. apply guard_operand. by destruct (vt_conditions tier).
  - apply (whole_mono 4); [cbn [length]; lia|]. by apply call_whole.
Qed.

(** ** The tree is typed, not too high, and has no fixed prices *)
Record meant (t : ty) (h : Z) (e : expr) : Prop := {
  meant_type : has_type e t;
  meant_height : height e <= h;
  meant_fixed : existsb (calls (js "fixed")) (postorder e) = false;
}.

Lemma meant_mono t h h' e : h <= h' -> meant t h e -> meant t h' e.
Proof. intros Hh [H1 H2 H3]. split; [done|lia|done]. Qed.

Lemma meant_node t h e ts : node_ty e ts = Some t -> calls (js "fixed") e = false -> 0 <= h ->
  Forall2 (fun x tx => meant tx h x) (children e) ts -> meant t (h + 1) e.
Proof.
  intros Ht Hc Hh H. split.
  - econstructor; [|exact Ht]. clear -H. induction H as [|x tx xs txs Hx _ IH]; constructor; [apply Hx|done].
  - rewrite height_children. unfold max_height. clear -H Hh. induction H as [|x tx xs txs Hx _ IH]; cbn [fold_right]; [lia|].
    pose proof (meant_height _ _ _ Hx). lia.
  - rewrite postorder_children, existsb_app. cbn [existsb]. rewrite Hc, !orb_false_r.
    clear -H. induction H as [|x tx xs txs Hx _ IH]; [done|]. cbn [flat_map]. by rewrite existsb_app, (meant_fixed _ _ _ Hx), IH.
Qed.

Lemma meant_number x : meant Tnumber 0 (number_node x).
Proof. split; [by econstructor; [constructor|]|done|done]. Qed.
Lemma meant_text s : meant Tstring 0 (text_node s).
Proof. split; [by econstructor; [constructor|]|done|done]. Qed.

Lemma meant_usage field : meant Tdynamic 1 (usage_node field).
Proof. apply (meant_node _ 0 _ [Tstring]); [done|done|done|]. constructor; [apply meant_text|constructor]. Qed.

Lemma meant_term entry price : meant Tnumber 3 (term_node entry price).
Proof.
  assert (Hp : meant Tnumber 2 (EBinary (js "*") (usage_node entry.1) (number_node price) no_span)).
  { apply (meant_node _ 1 _ [Tdynamic; Tnumber]); [done|done|done|]. constructor; [apply meant_usage|].
    constructor; [|constructor]. apply (meant_mono _ 0); [done|apply meant_number]. }
  unfold term_node. destruct (is_token_unit entry.2); [|by apply (meant_mono _ 2)].
  apply (meant_node _ 2 _ [Tnumber; Tnumber]); [done|done|done|]. constructor; [exact Hp|].
  constructor; [|constructor]. apply (meant_mono _ 0); [done|apply meant_number].
Qed.

Lemma meant_condition c : meant Tboolean 2 (condition_node c).
Proof.
  apply (meant_node _ 1 _ [Tdynamic; Tstring]); [done|done|done|]. constructor; [apply meant_usage|].
  constructor; [|constructor]. apply (meant_mono _ 0); [done|apply meant_text].
Qed.

Lemma meant_sequence op t h es : (forall a b, node_ty (EBinary op a b no_span) [t; t] = Some t) -> 0 <= h ->
  es <> [] -> Forall (meant t h) es -> meant t (h + Z.of_nat (length es)) (sequence_node op es).
Proof.
  intros Ht Hh Hne H. destruct H as [|a es Ha H]; [done|]. cbn [sequence_node]. unfold join_nodes.
  assert (Hgo : forall k a, 0 <= k -> meant t (h + k) a ->
    meant t (h + k + Z.of_nat (length es)) (fold_left (fun e x => EBinary op e x no_span) es a)).
  { clear -H Ht Hh. induction H as [|b es Hb H IH]; intros k a Hk Ha; cbn [fold_left length].
    - by replace (h + k + Z.of_nat 0) with (h + k) by lia.
    - replace (h + k + Z.of_nat (S (length es))) with (h + (k + 1) + Z.of_nat (length es)) by lia.
      apply IH; [lia|]. replace (h + (k + 1)) with (h + k + 1) by lia.
      apply (meant_node _ _ _ [t; t]); [apply Ht|done|lia|]. constructor; [exact Ha|]. constructor; [|constructor].
      by apply (meant_mono _ h); [lia|]. }
  specialize (Hgo 0 a ltac:(lia)). rewrite Z.add_0_r in Hgo. eapply meant_mono; [|by apply Hgo].
  cbn [length]. lia.
Qed.

Lemma meant_call tier fields : fields <> [] ->
  meant Tnumber (6 + Z.of_nat (length fields)) (call_node tier fields).
Proof.
  intros Hf. assert (Hb : meant Tnumber (3 + Z.of_nat (length (body_nodes tier fields)))
    (sequence_node (js "+") (body_nodes tier fields))).
  { apply meant_sequence; [done|done| |].
    - unfold body_nodes. destruct fields; [done|]. by destruct (has_constant tier).
    - unfold body_nodes. apply Forall_app. split.
      + destruct (has_constant tier); [|constructor]. constructor; [|constructor].
        apply (meant_mono _ 0); [done|apply meant_number].
      + apply Forall_map, List.Forall_forall. intros e _. apply meant_term. }
  assert (Hl : (length (body_nodes tier fields) <= 1 + length fields)%nat).
  { unfold body_nodes. rewrite length_app, length_map. destruct (has_constant tier); simpl; lia. }
  apply (meant_mono _ (5 + Z.of_nat (length fields) + 1)); [lia|].
  apply (meant_node _ _ _ [Tstring; Tnumber]); [done|done|lia|].
  constructor; [apply (meant_mono _ 0); [lia|apply meant_text]|]. constructor; [|constructor].
  eapply meant_mono; [|exact Hb]. lia.
Qed.

Lemma meant_guard cs : cs <> [] -> meant Tboolean (2 + Z.of_nat (length cs)) (guard_node cs).
Proof.
  intros Hc. unfold guard_node. rewrite <- (length_map condition_node). apply meant_sequence; [done|done|by destruct cs|].
  apply Forall_map, List.Forall_forall. intros c _. apply meant_condition.
Qed.

Lemma meant_chain fields tiers k : fields <> [] -> guarded tiers = true ->
  6 + Z.of_nat (length fields) <= k -> forallb (fun t => 2 + Z.of_nat (length (vt_conditions t)) <=? k) tiers = true ->
  meant Tnumber (k + Z.of_nat (length tiers)) (chain_node fields tiers).
Proof.
  intros Hf Hg Hk Hcs. induction tiers as [|tier rest IH]; [done|]. cbn [forallb] in Hcs.
  apply andb_true_iff in Hcs as [Hc%Z.leb_le Hcs]. destruct rest as [|tier2 rest].
  { cbn [chain_node length]. eapply meant_mono; [|by apply meant_call]. lia. }
  cbn [guarded] in Hg. apply andb_true_iff in Hg as [Hg Hgs]. specialize (IH Hgs Hcs).
  change (chain_node fields (tier :: tier2 :: rest)) with
    (ECond (guard_node (vt_conditions tier)) (call_node tier fields) (chain_node fields (tier2 :: rest)) no_span).
  set (n := Z.of_nat (length (tier2 :: rest))) in *.
  replace (k + Z.of_nat (length (tier :: tier2 :: rest))) with (k + n + 1) by (subst n; cbn [length]; lia).
  apply (meant_node _ (k + n) _ [Tboolean; Tnumber; Tnumber]); [done|done|lia|].
  constructor; [eapply meant_mono; [|apply meant_guard; by destruct (vt_conditions tier)]; lia|].
  constructor; [eapply meant_mono; [|by apply meant_call]; lia|]. constructor; [exact IH|constructor].
Qed.
