(* ===== verification/TaskRoundTrip.v ===== *)
(** * Task prices survive writing and reading

    The tree of a written configuration displays as the configuration it was written
    from, and the expression text read by the editor gives it back. *)

From S2P Require Import Prelude JsString JsNumber JsRegex JsValue ExprTypes ExprParser ExprParserSpec ExprSpelling ExprGrammar ExprLexing ExprWriting ExprCompile ExprCompileSpec ExprRuntime ExprStructure ExprDisplay ExprDisplaySpec ExprSplitSpec BillingExpr TaskExpr TaskExprSpec TaskWriteSpec.

Local Open Scope Z_scope.

(** ** Sequences *)

(** A node no sum or conjunction of [op] starts at. *)
Definition apart (op : jsstr) (e : expr) : Prop := flattenBinary e op = [e].

Lemma flatten_sequence op es : es <> [] -> Forall (apart op) es -> flattenBinary (sequence_node op es) op = es.
Proof.
  intros Hne H. destruct H as [|a es Ha H]; [done|]. cbn [sequence_node]. unfold join_nodes.
  assert (Hgo : forall l e, flattenBinary e op = l ->
    flattenBinary (fold_left (fun e x => EBinary op e x no_span) es e) op = l ++ es).
  { clear -H. induction H as [|b es Hb H IH]; intros l e He; cbn [fold_left]; [by rewrite app_nil_r|].
    rewrite (IH (l ++ [b])); [by rewrite <- app_assoc|]. cbn [flattenBinary]. rewrite str_eqb_refl. cbn [negb].
    by rewrite He, Hb. }
  by apply (Hgo [a]).
Qed.

Lemma term_apart entry price : apart (js "+") (term_node entry price).
Proof. unfold apart, term_node. by destruct (is_token_unit entry.2). Qed.

(** ** Unit prices *)

Lemma writable_price x : writable x = true -> is_price x = true /\ n_geb x n_zero = true /\ is_neg_zero x = false.
Proof.
  unfold writable, is_price. intros H. bprop.
  destruct x as [[]|[]| |[] m e]; try done.
Qed.

Lemma price_literal x : writable x = true -> nonnegativePriceLiteral (number_node x) = Some x.
Proof. intros (_ & H & _)%writable_price. cbn. by rewrite H. Qed.

Lemma schema_own schema k d : distinct_fields schema -> In (k, d) schema -> schema_get schema k = Some d.
Proof.
  intros Hd Hin. unfold schema_get. replace (assoc_get str_eqb k schema) with (Some d); [done|].
  symmetry. revert Hd Hin. unfold distinct_fields. induction schema as [|[k' d'] s IH]; [done|]. simpl. intros Hd Hin.
  inversion Hd as [|? ? Hk Hd']; subst. destruct Hin as [[= -> ->]|Hin]; [by rewrite str_eqb_refl|].
  replace (str_eqb k k') with false; [by apply IH|]. symmetry. apply str_eqb_neq. intros ->.
  apply Hk. by apply (in_map fst) in Hin.
Qed.

Lemma fresh_price k (x : num) l : ~ In k (map fst l) -> assoc_mem str_eqb k l = false /\ assoc_set str_eqb k x l = l ++ [(k, x)].
Proof.
  intros Hk. induction l as [|[k' x'] l IH]; [done|]. simpl in Hk. unfold assoc_mem in *. simpl.
  replace (str_eqb k k') with false; [|symmetry; apply str_eqb_neq; intros ->; auto].
  destruct IH as [-> ->]; auto.
Qed.

Section fields.
Context (schema : usage_schema).

Lemma term_read entry price acc : schema_get schema entry.1 = Some entry.2 -> is_priced entry.2 = true ->
  writable price = true -> ~ In entry.1 (map fst (ts_unitPrices acc)) ->
  task_term schema acc (term_node entry price) =
    Some (TaskSum (ts_constant acc) (ts_hasConstant acc) (ts_unitPrices acc ++ [(entry.1, price)])).
Proof.
  intros Hs Hp Hw Hf. destruct (fresh_price entry.1 price _ Hf) as [Hm Ha].
  assert (Hn : nonnegativePriceLiteral (term_node entry price) = None) by (unfold term_node; by destruct (is_token_unit entry.2)).
  assert (Hu : unscale (term_node entry price) =
    Some (EBinary (js "*") (usage_node entry.1) (number_node price) no_span, is_token_unit entry.2)).
  { unfold term_node. destruct (is_token_unit entry.2); [|done]. cbn [unscale].
    change (str_eqb (js "/") (js "/")) with true. by replace (literal_is _ _) with true by (by vm_compute). }
  unfold task_term. rewrite Hn, Hu. change (str_eqb (js "*") (js "*")) with true. cbn [negb].
  change (usage_name (usage_node entry.1)) with (Some entry.1). cbv iota. rewrite (price_literal _ Hw). cbv iota.
  rewrite Hs. unfold is_priced in Hp. unfold is_token_unit.
  destruct (uf_type entry.2) as [[]|]; try done. destruct (uf_unit entry.2) as [u|]; [|done].
  by rewrite Hp, Hm, Bool.eqb_reflx, Ha.
Qed.

Lemma terms_read tier fields : forall acc,
  Forall (fun e => schema_get schema e.1 = Some e.2 /\ is_priced e.2 = true /\ writable (priced tier e) = true) fields ->
  List.NoDup (map fst (ts_unitPrices acc) ++ map fst fields) ->
  fold_option (task_term schema) (map (fun e => term_node e (priced tier e)) fields) acc =
    Some (TaskSum (ts_constant acc) (ts_hasConstant acc) (ts_unitPrices acc ++ map (fun e => (e.1, priced tier e)) fields)).
Proof.
  induction fields as [|e fields IH]; intros acc Hf Hd; cbn [map fold_option].
  { rewrite app_nil_r. by destruct acc. }
  inversion Hf as [|? ? (Hs & Hp & Hw) Hf']; subst. cbn [map] in Hd. rewrite term_read; [|done|done|done|].
  2: { intros Hin. eapply NoDup_remove_2; [exact Hd|]. apply in_app_iff. by left. }
  cbv iota. rewrite IH; [|done|].
  - cbn [ts_constant ts_hasConstant ts_unitPrices]. by rewrite <- app_assoc.
  - cbn [ts_unitPrices]. rewrite map_app, <- app_assoc. exact Hd.
Qed.

(** The task tier a visual tier is read as. *)
Definition tier_of (tier : task_visual_tier) : task_tier :=
  TaskTier None (vt_label tier) (vt_conditions tier) (vt_constant tier) (vt_unitPrices tier).

Definition readable_fields (tier : task_visual_tier) (fields : list (jsstr * usage_field)) : Prop :=
  Forall (fun e => schema_get schema e.1 = Some e.2 /\ is_priced e.2 = true /\ writable (priced tier e) = true) fields
  /\ List.NoDup (map fst fields)
  /\ vt_unitPrices tier = map (fun e => (e.1, priced tier e)) fields
  /\ writable (vt_constant tier) = true.

Lemma no_constant x : writable x = true -> n_gtb x n_zero = false -> x = n_zero.
Proof. intros (H1 & H2 & H3)%writable_price. by destruct x as [[]|[]| |[]]. Qed.

Lemma call_read tier fields conditions : fields <> [] -> readable_fields tier fields ->
  taskTier (call_node tier fields) conditions schema =
    Some (TaskTier None (vt_label tier) conditions (vt_constant tier) (vt_unitPrices tier)).
Proof.
  intros Hne (Hf & Hd & Hu & Hc). unfold call_node, text_node, taskTier.
  change (str_eqb (js "tier") (js "tier")) with true. cbn [negb]. rewrite flatten_sequence.
  - unfold body_nodes. rewrite fold_option_app.
    assert (Hfirst : exists b, fold_option (task_term schema)
      (if has_constant tier then [number_node (vt_constant tier)] else []) (TaskSum n_zero false []) =
      Some (TaskSum (vt_constant tier) b [])).
    { unfold has_constant. destruct (n_gtb (vt_constant tier) n_zero) eqn:Eg.
      - exists true. cbn [fold_option]. unfold task_term. by rewrite (price_literal _ Hc).
      - exists false. by rewrite (no_constant _ Hc Eg). }
    destruct Hfirst as [b ->]. cbv iota. rewrite terms_read; [|done|exact Hd].
    cbn [ts_unitPrices ts_constant app]. rewrite Hu. by destruct fields.
  - unfold body_nodes. destruct fields; [done|]. by destruct (has_constant tier).
  - unfold body_nodes. apply Forall_app. split.
    + destruct (has_constant tier); by repeat constructor.
    + apply Forall_map, List.Forall_forall. intros e _. apply term_apart.
Qed.

(** ** Conditions *)
Definition declared (c : task_condition) : bool :=
  match schema_get schema (kc_field c) with
  | Some d =>
      match uf_type d with Some UTboolean => false | _ => true end
      && match uf_enum d with Some values => str_mem (kc_value c) values | None => false end
  | None => false
  end.

Lemma condition_read c acc : declared c = true ->
  task_condition_step schema false acc (condition_node c) = Some (acc.1 ++ [c], acc.2).
Proof.
  unfold declared. intros H. unfold condition_node, text_node, task_condition_step.
  change (str_eqb (js "==") (js "==")) with true. cbn [negb].
  change (usage_name (usage_node (kc_field c))) with (Some (kc_field c)). cbv iota.
  destruct (schema_get schema (kc_field c)) as [d|]; [|done]. apply andb_true_iff in H as [Ht He].
  destruct (uf_enum d) as [values|]; [|done]. rewrite He, andb_true_r.
  destruct c as [field value]. by destruct (uf_type d) as [[]|].
Qed.

Lemma guard_read cs : cs <> [] -> forallb declared cs = true ->
  taskConditions (guard_node cs) schema false = Some (Some cs).
Proof.
  intros Hne Hd. unfold taskConditions, guard_node. rewrite flatten_sequence; [|by destruct cs|].
  2: { apply Forall_map, List.Forall_forall. by intros c _. }
  enough (Hgo : forall acc, fold_option (task_condition_step schema false) (map condition_node cs) acc =
    Some (acc.1 ++ cs, acc.2)) by (by rewrite Hgo).
  clear Hne. induction cs as [|c cs IH]; intros acc; cbn [map fold_option]; [rewrite app_nil_r; by destruct acc|].
  cbn [forallb] in Hd. apply andb_true_iff in Hd as [Hc Hd]. rewrite condition_read by done. cbv iota.
  rewrite (IH Hd). cbn [fst snd]. by rewrite <- app_assoc.
Qed.

(** ** Chains *)

(** No tier is covered by an earlier one. *)
Fixpoint unshadowed (earlier : list task_tier) (tiers : list task_visual_tier) : bool :=
  match tiers with
  | [] | [_] => true
  | tier :: rest => negb (shadowed earlier (vt_conditions tier)) && unshadowed (earlier ++ [tier_of tier]) rest
  end.

Lemma chain_read fields tiers : fields <> [] -> forall earlier, guarded tiers = true ->
  Forall (fun t => readable_fields t fields) tiers -> forallb (fun t => forallb declared (vt_conditions t)) tiers = true ->
  unshadowed earlier tiers = true ->
  task_chain_loop schema false (chain_node fields tiers) earlier = Some (earlier ++ map tier_of tiers).
Proof.
  intros Hne. induction tiers as [|tier rest IH]; [done|]. intros earlier Hg Hr Hd Hs.
  inversion Hr as [|? ? Hr1 Hrs]; subst. cbn [forallb] in Hd. apply andb_true_iff in Hd as [Hd Hds].
  destruct rest as [|tier2 rest].
  { cbn [chain_node]. unfold call_node. cbn [task_chain_loop]. fold (call_node tier fields).
    rewrite (call_read tier fields [] Hne Hr1). cbv iota. cbn [guarded] in Hg. unfold tier_of. cbn [map].
    by destruct (vt_conditions tier). }
  cbn [guarded] in Hg. apply andb_true_iff in Hg as [Hg Hgs]. cbn [unshadowed] in Hs.
  apply andb_true_iff in Hs as [Hs Hss]. apply negb_true_iff in Hs.
  change (chain_node fields (tier :: tier2 :: rest)) with
    (ECond (guard_node (vt_conditions tier)) (call_node tier fields) (chain_node fields (tier2 :: rest)) no_span).
  cbn [task_chain_loop]. rewrite guard_read; [|by destruct (vt_conditions tier)|done]. cbv iota.
  rewrite Hs, (call_read tier fields (vt_conditions tier) Hne Hr1). cbv iota.
  specialize (IH (earlier ++ [tier_of tier]) Hgs Hrs Hds Hss). rewrite <- app_assoc in IH. cbn [app] in IH.
  fold (tier_of tier). rewrite IH. by destruct (vt_conditions tier).
Qed.
End fields.

(** ** The text is one factor *)

(** Lexemes the splitting passes from nesting [low] on. *)
Definition calm (low : Z) (ts : list token) : Prop :=
  forall d rest, low <= d -> single_factor (ts ++ rest) d = single_factor rest d.

Lemma calm_nil low : calm low [].
Proof. by intros d rest _. Qed.

Lemma calm_app low a b : calm low a -> calm low b -> calm low (a ++ b).
Proof. intros Ha Hb d rest Hd. by rewrite <- app_assoc, Ha, Hb. Qed.

Lemma calm_mono low low' ts : low <= low' -> calm low ts -> calm low' ts.
Proof. intros Hl H d rest Hd. apply H. lia. Qed.

(** A lexeme that is no bracket and, at the top level, no [*] or [?]. *)
Lemma calm_lexeme low t : (forall d, depth_after t d = d) ->
  0 < low \/ 0 <= low /\ match t with TWord w => negb (str_eqb w (js "?") || str_eqb w (js "*")) | _ => true end = true ->
  calm low [t].
Proof.
  intros Hd Ht d rest Hl. cbn [app single_factor]. rewrite Hd. destruct Ht as [Hlow|[Hlow Ht]].
  - by replace (d =? 0) with false by (symmetry; apply Z.eqb_neq; lia).
  - destruct t as [| |w]; rewrite ?andb_false_r; [done|done|].
    apply negb_true_iff, orb_false_iff in Ht as [-> ->]. by rewrite !andb_false_r.
Qed.

Lemma calm_bracket low ts : 0 <= low -> calm (low + 1) ts -> calm low (word "(" :: ts ++ [word ")"]).
Proof.
  intros Hl H d rest Hd. cbn [app single_factor]. change (depth_after (word "(") d) with (d + 1).
  replace (d + 1 =? 0) with false by (symmetry; apply Z.eqb_neq; lia). cbn [andb].
  rewrite <- app_assoc, H by lia. cbn [app single_factor]. change (depth_after (word ")") (d + 1)) with (d + 1 - 1).
  replace (d + 1 - 1) with d by lia. change (str_eqb (js ")") (js "?")) with false.
  change (str_eqb (js ")") (js "*")) with false. by rewrite !andb_false_r.
Qed.

Lemma calm_usage low field : 0 <= low -> calm low (usage_tokens field).
Proof.
  intros Hl. apply (calm_app low [word "u"]); [by apply calm_lexeme; [|right]|].
  apply (calm_bracket low [TStr field]); [done|]. apply calm_lexeme; [done|]. left. lia.
Qed.

Lemma calm_join low op tss : calm low [TWord op] -> Forall (calm low) tss -> calm low (join_tokens op tss).
Proof.
  intros Ho H. destruct H as [|ts tss Ht H]; [apply calm_nil|]. cbn [join_tokens]. apply calm_app; [done|].
  induction H as [|a tss Ha H IH]; [apply calm_nil|]. cbn [flat_map].
  apply (calm_app low (TWord op :: a)); [|done]. by apply (calm_app low [TWord op]).
Qed.

Lemma calm_inside ts : Forall (fun t => forall d, depth_after t d = d) ts -> calm 1 ts.
Proof.
  induction 1 as [|t ts Ht H IH]; [apply calm_nil|]. apply (calm_app 1 [t]); [|done].
  apply calm_lexeme; [done|]. by left.
Qed.

Lemma calm_call tier fields : calm 0 (call_tokens tier fields).
Proof.
  unfold call_tokens. apply (calm_app 0 [word "tier"]); [by apply calm_lexeme; [|right]|].
  change ([TStr (vt_label tier)] ++ word "," :: body_tokens tier fields ++ [word ")"])
    with ((TStr (vt_label tier) :: word "," :: body_tokens tier fields) ++ [word ")"]).
  apply calm_bracket; [done|]. apply (calm_app 1 [TStr (vt_label tier); word ","]); [by apply calm_inside; repeat constructor|].
  unfold body_tokens. apply calm_join; [by apply calm_inside; repeat constructor|]. apply Forall_app. split.
  - destruct (has_constant tier); [|constructor]. constructor; [|constructor]. by apply calm_inside; repeat constructor.
  - apply Forall_map, List.Forall_forall. intros e _. unfold term_tokens. apply calm_app; [by apply calm_usage|].
    apply calm_inside. by destruct (is_token_unit e.2); repeat constructor.
Qed.

Lemma calm_guard cs : calm 0 (guard_tokens cs).
Proof.
  unfold guard_tokens. apply calm_join; [by apply calm_lexeme; [|right]|].
  apply Forall_map, List.Forall_forall. intros c _. unfold condition_tokens. apply calm_app; [by apply calm_usage|].
  apply (calm_app 0 [word "=="] [TStr _]); by apply calm_lexeme; [|right].
Qed.

Lemma chain_one_factor fields tiers : single_factor (chain_tokens fields tiers) 0 = true.
Proof.
  destruct tiers as [|tier [|tier2 rest]]; [done| |].
  - cbn [chain_tokens]. rewrite <- (app_nil_r (call_tokens _ _)). by rewrite calm_call.
  - change (chain_tokens fields (tier :: tier2 :: rest)) with (guard_tokens (vt_conditions tier) ++ word "?" ::
      call_tokens tier fields ++ word ":" :: chain_tokens fields (tier2 :: rest)).
    by rewrite calm_guard.
Qed.

(** ** The ends of the text *)
Section ends.
Context {Col : Collation}.

Lemma call_text_ends tier fields : exists r, generateTaskTierCall tier fields = 116%N :: r ++ [41%N].
Proof. unfold generateTaskTierCall. rewrite !app_assoc. eexists. reflexivity. Qed.

Lemma guard_text_starts cs : cs <> [] -> exists r, generateTaskCondition cs = 117%N :: r.
Proof. destruct cs as [|c [|c2 cs]]; [done|by eexists|by eexists]. Qed.

Lemma chain_text_ends fields tiers parts : guarded tiers = true -> generate_parts fields tiers = Some parts ->
  exists c r, (c = 116 \/ c = 117)%N /\ join (js " : ") parts = c :: r ++ [41%N].
Proof.
  revert parts. induction tiers as [|tier rest IH]; [done|]. intros parts Hg Hp. destruct rest as [|tier2 rest].
  { injection Hp as <-. destruct (call_text_ends tier fields) as [r Hr]. exists 116%N, r. cbn [join]. auto. }
  cbn [guarded] in Hg. apply andb_true_iff in Hg as [Hg Hgs].
  destruct (guard_text_starts (vt_conditions tier)) as [r Hr]; [by destruct (vt_conditions tier)|].
  change (generate_parts fields (tier :: tier2 :: rest)) with
    (if negb (truthy_str (generateTaskCondition (vt_conditions tier))) then None
     else let! parts := generate_parts fields (tier2 :: rest) in
          Some ((generateTaskCondition (vt_conditions tier) ++ js " ? " ++ generateTaskTierCall tier fields) :: parts)) in Hp.
  rewrite Hr in Hp. cbn [truthy_str negb] in Hp.
  destruct (generate_parts fields (tier2 :: rest)) as [parts'|]; [|done].
  injection Hp as <-. destruct (IH parts' Hgs eq_refl) as (c & r' & _ & Hj).
  destruct parts' as [|part parts']; [done|].
  exists 117%N, ((r ++ js " ? " ++ generateTaskTierCall tier fields) ++ js " : " ++ c :: r'). split; [auto|].
  change (join (js " : ") (?a :: part :: parts')) with (a ++ js " : " ++ join (js " : ") (part :: parts')).
  rewrite Hj, <- !app_assoc. cbn [app]. by rewrite <- !app_assoc.
Qed.
End ends.

(** ** Normalised configurations *)
Section normal.
Context {Col : Collation} (schema : usage_schema).
Abbreviation fields := (getTaskNumberFields (Some schema)).

Lemma number_field e : In e fields <-> In e schema /\ is_priced e.2 = true.
Proof.
  transitivity (In e (List.filter (fun e => is_priced e.2) schema)); [|apply filter_In].
  split; apply Permutation.Permutation_in; [apply sort_fields_perm|symmetry; apply sort_fields_perm].
Qed.

Lemma number_fields_distinct : distinct_fields schema -> List.NoDup (map fst fields).
Proof.
  unfold distinct_fields, getTaskNumberFields. intros Hd.
  apply (Permutation.Permutation_NoDup (l := map fst (List.filter (fun e => is_priced e.2) schema))).
  { apply Permutation.Permutation_map. symmetry. apply sort_fields_perm. }
  induction schema as [|[k d] s IH]; simpl in *; [constructor|]. inversion Hd as [|? ? Hk Hd']; subst.
  destruct (is_priced d); [|auto]. simpl. constructor; [|auto].
  intros Hin. apply Hk. apply in_map_iff in Hin as (e & <- & [He _]%filter_In). by apply in_map.
Qed.

Lemma price_object_map (f : jsstr -> num) l : List.NoDup (map fst l) ->
  price_object l f = map (fun e => (e.1, f e.1)) l.
Proof.
  unfold price_object. intros Hd.
  enough (Hgo : forall acc, List.NoDup (map fst acc ++ map fst l) ->
    fold_left (fun acc entry => assoc_set str_eqb entry.1 (f entry.1) acc) l acc = acc ++ map (fun e => (e.1, f e.1)) l)
    by (by apply (Hgo [])).
  clear Hd. induction l as [|e l IH]; intros acc Hd; cbn [fold_left map]; [by rewrite app_nil_r|]. cbn [map] in Hd.
  destruct (fresh_price e.1 (f e.1) acc) as [_ ->].
  { intros Hin. eapply NoDup_remove_2; [exact Hd|]. apply in_app_iff. by left. }
  rewrite IH; [by rewrite <- app_assoc|]. by rewrite map_app, <- app_assoc.
Qed.

Lemma nonnegative_idem x : nonnegative_or_zero (nonnegative_or_zero x) = nonnegative_or_zero x.
Proof. unfold nonnegative_or_zero. destruct (is_price x) eqn:E; [by rewrite E|done]. Qed.

Lemma tier_label_idem label i : tier_label (tier_label label i) i = tier_label label i.
Proof.
  unfold tier_label. destruct (truthy_str label) eqn:E; [by rewrite E|].
  by destruct (Nat.eqb i 0).
Qed.

Lemma normalize_tier_idem i tier : distinct_fields schema ->
  normalize_tier schema i (normalize_tier schema i tier) = normalize_tier schema i tier.
Proof.
  intros Hd%number_fields_distinct. unfold normalize_tier at 1 3. cbn [vt_label vt_conditions vt_constant vt_unitPrices normalize_tier].
  rewrite tier_label_idem, nonnegative_idem. f_equal.
  - induction (vt_conditions tier) as [|c cs IH]; [done|]. cbn [List.filter].
    destruct (is_declared_condition _ c) eqn:E; [|done]. cbn [List.filter]. by rewrite E, IH.
  - rewrite !price_object_map by done. apply map_ext_in. intros e He. f_equal.
    rewrite <- (price_object_map (fun field => nonnegative_or_zero (default SpecFloat.S754_nan (assoc_get str_eqb field (vt_unitPrices tier))))) by done.
    rewrite price_object_get by (by apply in_map). cbn [default]. apply nonnegative_idem.
Qed.

Lemma default_config_normal : distinct_fields schema ->
  imap (normalize_tier schema) (createDefaultTaskVisualConfig schema) = createDefaultTaskVisualConfig schema.
Proof.
  intros Hd%number_fields_distinct. unfold createDefaultTaskVisualConfig. rewrite imap_cons, imap_nil. f_equal.
  unfold normalize_tier. cbn [vt_label vt_conditions vt_constant vt_unitPrices].
  f_equal. rewrite !price_object_map by done. apply map_ext_in. intros e He. f_equal.
  rewrite <- (price_object_map (fun _ => n_zero)) by done. by rewrite price_object_get by (by apply in_map).
Qed.

(** Normalising twice is normalising once. *)
Lemma normalize_idem config : distinct_fields schema ->
  normalizeTaskVisualConfig (Some (normalizeTaskVisualConfig config schema)) schema = normalizeTaskVisualConfig config schema.
Proof.
  intros Hd. pose proof (default_config_normal Hd) as Hdef.
  destruct config as [[|tier tiers]|]; try exact Hdef. cbn [normalizeTaskVisualConfig].
  enough (Hi : forall (f : nat -> task_visual_tier -> task_visual_tier) l, (forall i t, f i (f i t) = f i t) -> imap f (imap f l) = imap f l)
    by (apply Hi; intros; by apply normalize_tier_idem).
  intros f l. revert f. induction l as [|t l IH]; intros f Hf; [done|]. rewrite !imap_cons, Hf. f_equal.
  apply IH. intros i x. apply Hf.
Qed.

(** The prices of a normalised tier are those of the fields, in their order. *)
Lemma normal_prices config tier : distinct_fields schema -> In tier (normalizeTaskVisualConfig config schema) ->
  vt_unitPrices tier = map (fun e => (e.1, priced tier e)) fields.
Proof.
  intros Hd%number_fields_distinct Hin.
  assert (Hp : exists f, vt_unitPrices tier = price_object fields f).
  { assert (Hdef : In tier (createDefaultTaskVisualConfig schema) -> exists f, vt_unitPrices tier = price_object fields f)
      by (intros [<-|[]]; by eexists).
    destruct config as [[|t tiers]|]; [by apply Hdef| |by apply Hdef]. cbn [normalizeTaskVisualConfig] in Hin.
    apply list_elem_of_In, elem_of_lookup_imap in Hin as (i & x & -> & _). by eexists. }
  destruct Hp as [f Hp]. rewrite Hp, price_object_map by done. apply map_ext_in. intros e He. f_equal.
  unfold priced, price_or_zero. by rewrite Hp, price_object_get by (by apply in_map).
Qed.

(** ** Reading what was written *)

(** What the editor can write so that it is read back: every tier but the last has
    conditions, on enumerated facts and not those of an earlier tier; names are
    16-bit texts and prices are written exactly; the text is within the limits of
    the parser. *)
Definition publishable (tiers : list task_visual_tier) : bool :=
  guarded tiers && forallb (tier_ok fields) tiers && fields_ok fields
  && forallb (fun t => forallb (declared schema) (vt_conditions t)) tiers && unshadowed [] tiers
  && (Z.of_nat (length fields) <=? 100) && (Z.of_nat (length tiers) <=? 100)
  && forallb (fun t => Z.of_nat (length (vt_conditions t)) <=? 100) tiers
  && (Z.of_nat (length (chain_tokens fields tiers)) <? 10000).
End normal.

Section reading.
Context `{Host} {Col : Collation} (schema : usage_schema).
Abbreviation fields := (getTaskNumberFields (Some schema)).

Lemma no_version c r : (c = 116 \/ c = 117)%N -> re_exec version_re (c :: r) = None.
Proof. by intros [-> | ->]. Qed.

Lemma trim_written c r : (c = 116 \/ c = 117)%N -> trim (c :: r ++ [41%N]) = c :: r ++ [41%N].
Proof.
  intros Hc. apply trim_id. unfold trimmed. change (c :: r ++ [41%N]) with ((c :: r) ++ [41%N]).
  rewrite rev_app_distr. by destruct Hc as [-> | ->].
Qed.

(** The tree of the written text. *)
Lemma written_chain tiers : fields <> [] -> publishable schema tiers = true -> exists parts,
  generate_parts fields tiers = Some parts /\
  forall text, join (js " : ") parts = text -> Z.of_nat (length text) <= 65536 ->
  splitBillingExprAndRequestRules text = Ok (text, []) /\ truthy_str text = true /\
  exists c, compile_source text = Ready c /\ strip (c_ast c) = strip (chain_node fields tiers).
Proof.
  unfold publishable. rewrite !andb_true_iff. intros Hne ((((((((Hg & Ht) & Hf) & Hd) & Hs) & Hn) & Hk) & Hc) & Hts).
  destruct (chain_piece fields tiers Hg Ht Hf) as (parts & Hp & _ & Hpiece). exists parts. split; [done|].
  intros text Ht' Hl. pose proof (piece_scans _ _ _ Hpiece) as Hsc.
  destruct (chain_text_ends fields tiers parts Hg Hp) as (c & r & Hc0 & Hj). rewrite Ht' in Hsc, Hj.
  assert (Htrim : trim text = text) by (rewrite Hj; by apply trim_written).
  assert (Htr : truthy_str text = true) by (by rewrite Hj).
  split; [|split; [done|]].
  { unfold splitBillingExprAndRequestRules. cbv zeta. rewrite Htrim, Htr. cbn [negb].
    pose proof (split_one_part _ _ Hsc (chain_one_factor fields tiers)) as H1.
    unfold splitTopLevelMultiply. apply Nat.leb_le in H1. by rewrite H1. }
  apply Z.leb_le in Hn, Hk. apply Z.ltb_lt in Hts.
  destruct (chain_whole fields tiers Hne Hg) as (_ & _ & Hw). specialize (Hw 0 []). rewrite app_nil_r in Hw.
  destruct (written_parses text (chain_tokens fields tiers) (chain_node fields tiers)) as (e' & He' & Hstrip);
    [done| |done|done| |].
  { rewrite Hj. by apply no_version. }
  { apply Hw; [lia|]. by repeat split. }
  destruct (meant_chain fields tiers 120 Hne Hg) as [M1 M2 M3]; [lia| |].
  { apply forallb_forall. intros t Hin. rewrite forallb_forall in Hc. specialize (Hc t Hin).
    apply Z.leb_le in Hc. apply Z.leb_le. lia. }
  destruct (compile_meant text e' (chain_node fields tiers) Tnumber He' Hstrip M1) as (cm & Hcm & <- & _); [lia|done|].
  exists cm. split; [|done]. unfold compile_source. by rewrite Hcm.
Qed.

Lemma chain_readable config : distinct_fields schema ->
  forallb (tier_ok fields) (normalizeTaskVisualConfig config schema) = true ->
  Forall (fun t => readable_fields schema t fields) (normalizeTaskVisualConfig config schema).
Proof.
  intros Hd Ht. apply List.Forall_forall. intros tier Hin. rewrite forallb_forall in Ht. specialize (Ht tier Hin).
  unfold tier_ok in Ht. rewrite !andb_true_iff in Ht. destruct Ht as ((_ & Hc) & Hp). repeat split.
  - apply List.Forall_forall. intros e He. pose proof He as [Hs Hpr]%number_field. destruct e as [k d].
    split; [by apply schema_own|]. split; [done|]. rewrite forallb_forall in Hp. by apply Hp.
  - by apply number_fields_distinct.
  - by eapply normal_prices.
  - done.
Qed.

(** C6: the expression the task pricing editor writes for a configuration is read back
    by the editor as that configuration, normalised: every tier with its label, its
    conditions in order, its constant and the unit price of every priced field, token
    prices scaled on the way out and unscaled on the way in. *)
Theorem task_config_reopened config :
  distinct_fields schema -> fields <> [] ->
  publishable schema (normalizeTaskVisualConfig config schema) = true ->
  Z.of_nat (length (generateTaskExprFromConfig config schema)) <= 65536 ->
  tryParseTaskVisualConfig (Some (generateTaskExprFromConfig config schema)) schema =
    Ok (Some (normalizeTaskVisualConfig config schema)).
Proof.
  intros Hd Hne Hp. set (tiers := normalizeTaskVisualConfig config schema) in *.
  destruct (written_chain tiers Hne Hp) as (parts & Hgen & Hread).
  assert (Htext : generateTaskExprFromConfig config schema = join (js " : ") parts).
  { unfold generateTaskExprFromConfig. fold tiers. rewrite Hgen. by destruct fields. }
  rewrite Htext. intros Hl. destruct (Hread _ eq_refl Hl) as (Hsplit & Htr & c & Hc & Hstrip).
  unfold publishable in Hp. rewrite !andb_true_iff in Hp. destruct Hp as ((((((((Hg & Ht) & Hf) & Hdec) & Hs) & _) & _) & _) & _).
  pose proof (chain_readable config Hd Ht) as Hr. pose proof (normalize_idem schema config Hd) as Hn. fold tiers in Hr, Hn.
  unfold tryParseTaskVisualConfig. destruct (join (js " : ") parts) as [|u us] eqn:Ej; [done|].
  unfold parseTaskTiersFromExpr. destruct schema as [|f s] eqn:Esc; [done|]. rewrite <- Esc in *. cbn [truthy_str negb].
  rewrite Hsplit. cbv iota. rewrite Hc. cbv iota.
  replace (readTaskTierChain (c_ast c) schema false) with (Some (map tier_of tiers)).
  2: { symmetry. rewrite <- readTaskTierChain_strip, Hstrip, readTaskTierChain_strip. unfold readTaskTierChain.
       rewrite chain_read; [done|done|done|done|done|done]. }
  cbn [default]. destruct (map tier_of tiers) as [|t ts] eqn:Em.
  { by destruct tiers. }
  unfold id. cbv iota. rewrite <- Em, map_map. replace (map (fun x => visual_of_tier (tier_of x)) tiers) with tiers.
  { by rewrite Hn. }
  clear. induction tiers as [|[] l IH]; [done|]. cbn [map]. by rewrite <- IH.
Qed.
End reading.

(** A schema of one enumerated fact, a counted and a token field, and a configuration of
    two tiers without the price of the token field in the second. *)
Definition clip_schema : usage_schema :=
  [(js "mode", UsageField None None None (Some [js "pro"; js "std"]) [] None);
   (js "seconds", UsageField (Some UTnumber) (Some (js "second")) None None [] None);
   (js "tokens", UsageField (Some UTnumber) (Some (js "token")) None None [] None)].
Definition clip_config : list task_visual_tier :=
  [TaskVisualTier (js "pro") [TaskCondition (js "mode") (js "pro")] (n_div (n_of_Z 1) (n_of_Z 10))
     [(js "seconds", n_div (n_of_Z 1) (n_of_Z 4)); (js "tokens", n_of_Z 15)];
   TaskVisualTier [] [] n_zero [(js "seconds", n_of_Z 2)]].

Lemma task_config_reopened_witness :
  tryParseTaskVisualConfig (H := plain_host) (Col := plain_collation)
    (Some (generateTaskExprFromConfig (Col := plain_collation) (Some clip_config) clip_schema)) clip_schema =
    Ok (Some (normalizeTaskVisualConfig (Col := plain_collation) (Some clip_config) clip_schema)).
Proof.
  apply (task_config_reopened (Col := plain_collation) clip_schema (Some clip_config)).
  - repeat constructor; simpl; intros Hin; repeat (destruct Hin as [Hin|Hin]; try discriminate Hin); exact Hin.
  - discriminate.
  - vm_compute. reflexivity.
  - vm_compute. discriminate.
Defined.
