(* ===== verification/TierExpr.v ===== *)
(** * Tier editor and cost estimator

    Models [lib/tier-expr.ts]: the visual configuration of token tiers, the
    expression generated from it and read back, and the estimator that prices
    given token counts locally.

    A [Partial<VisualTier>] has the listed members, each possibly absent, and its
    unit costs by field name. *)

From S2P Require Import Prelude JsString JsNumber JsRegex JsValue ExprTypes ExprParser ExprCompile ExprRuntime ExprStructure ExprDisplay BillingExpr.

Definition CACHE_MODE_TIMED : jsstr := js "timed".
Definition CACHE_MODE_GENERIC : jsstr := js "generic".

Record tier_condition_input := TierConditionInput {
  ci_var : jsstr;
  ci_op : jsstr;
  ci_value : jsval;
}.

Record visual_tier := VisualTier {
  vx_billing_unit : option jsstr;
  vx_fixed_price : option jsstr;
  vx_label : option jsstr;
  vx_conditions : option (list tier_condition_input);
  vx_cache_mode : option jsstr;
  vx_costs : list (jsstr * jsval);
}.

Definition cost_of (tier : visual_tier) (field : jsstr) : jsval :=
  default VUndef (assoc_get str_eqb field (vx_costs tier)).

(** [Number(x) || 0] *)
Definition number_or_zero (v : jsval) : num :=
  let x := number_of_value v in
  if is_nan x || n_eqb x n_zero then n_zero else x.

Definition getTierCacheMode (tier : visual_tier) : jsstr :=
  match vx_cache_mode tier with
  | Some m =>
      if str_eqb m CACHE_MODE_TIMED then CACHE_MODE_TIMED
      else if str_eqb m CACHE_MODE_GENERIC then CACHE_MODE_GENERIC
      else if n_gtb (number_of_value (cost_of tier (js "cache_create_1h_unit_cost"))) n_zero
      then CACHE_MODE_TIMED else CACHE_MODE_GENERIC
  | None =>
      if n_gtb (number_of_value (cost_of tier (js "cache_create_1h_unit_cost"))) n_zero
      then CACHE_MODE_TIMED else CACHE_MODE_GENERIC
  end.

(** The fields [...tier] overwrites and those written after it. *)
Definition BASE_COSTS : list jsstr := map js ["input_unit_cost"; "output_unit_cost"]%string.
Definition NORMALIZED_COSTS : list jsstr :=
  map js ["cache_read_unit_cost"; "cache_create_unit_cost"; "cache_create_1h_unit_cost";
          "cache_create_12h_unit_cost"; "image_unit_cost"; "image_output_unit_cost";
          "audio_input_unit_cost"; "audio_output_unit_cost"]%string.

Definition normalized_costs (tier : visual_tier) : list (jsstr * jsval) :=
  let based :=
    fold_left (fun acc f =>
      if assoc_mem str_eqb f acc then acc
      else assoc_set str_eqb f (VNum (number_or_zero (cost_of tier f))) acc)
      BASE_COSTS (vx_costs tier) in
  fold_left (fun acc f => assoc_set str_eqb f (VNum (number_or_zero (cost_of tier f))) acc)
    NORMALIZED_COSTS based.

Definition normalizeVisualTier (tier : visual_tier) : visual_tier :=
  VisualTier (vx_billing_unit tier) (vx_fixed_price tier)
    (Some (default [] (vx_label tier)))
    (Some (default [] (vx_conditions tier)))
    (Some (match vx_cache_mode tier with Some m => m | None => getTierCacheMode tier end))
    (normalized_costs tier).

(** [VisualConfig] is its [tiers]. *)
Definition createDefaultVisualConfig : list visual_tier :=
  [normalizeVisualTier
     (VisualTier None None (Some (js "base")) (Some []) (Some CACHE_MODE_GENERIC)
        [(js "input_unit_cost", VNum n_zero); (js "output_unit_cost", VNum n_zero)])].

Definition normalizeVisualConfig (config : option (list visual_tier)) : list visual_tier :=
  match config with
  | None | Some [] => createDefaultVisualConfig
  | Some tiers => map normalizeVisualTier tiers
  end.

(** A condition with all its parts. *)
Definition is_complete (c : tier_condition_input) : bool :=
  truthy_str (ci_var c) && truthy_str (ci_op c) && negb (is_nullish (ci_value c))
  && match ci_value c with VStr s => truthy_str s | _ => true end.

Definition buildConditionStr (conditions : option (list tier_condition_input)) : jsstr :=
  match conditions with
  | None => []
  | Some cs =>
      join (js " && ")
        (map (fun c => ci_var c ++ js " " ++ ci_op c ++ js " " ++ string_of_value (ci_value c))
           (List.filter is_complete cs))
  end.

Definition buildTierBodyExpr (tier : visual_tier) : jsstr :=
  let request := match vx_billing_unit tier with Some u => str_eqb u (js "request") | None => false end in
  if request then js "fixed(" ++ default [] (vx_fixed_price tier) ++ js ")"
  else
    let ic := number_or_zero (cost_of tier (js "input_unit_cost")) in
    let oc := number_or_zero (cost_of tier (js "output_unit_cost")) in
    join (js " + ")
      ([js "p * " ++ string_of_number ic; js "c * " ++ string_of_number oc]
       ++ omap (fun cv =>
            let v := number_or_zero (cost_of tier cv.1) in
            if n_eqb v n_zero then None else Some (cv.2 ++ js " * " ++ string_of_number v))
            BILLING_CACHE_VAR_MAP).

(** The call of [tier]; the label is put between quotes as it is. *)
Definition tier_call (label : jsstr) (tier : visual_tier) : jsstr :=
  js "tier(" ++ jq "'" ++ label ++ jq "'" ++ js ", " ++ buildTierBodyExpr tier ++ js ")".

Fixpoint generate_tiers (index : nat) (tiers : list visual_tier) : list jsstr :=
  match tiers with
  | [] => []
  | tier :: rest =>
      let body := tier_call (or_default (vx_label tier) (js "tier_" ++ str_of_nat (index + 1))) tier in
      let cond := buildConditionStr (vx_conditions tier) in
      (match rest with
       | [] => body
       | _ => if truthy_str cond then cond ++ js " ? " ++ body else body
       end) :: generate_tiers (index + 1) rest
  end.

Definition generateExprFromVisualConfig (config : option (list visual_tier)) : jsstr :=
  match config with
  | None | Some [] => js "p * 0 + c * 0"
  | Some [tier] =>
      let body := tier_call (or_default (vx_label tier) (js "default")) tier in
      let cond := buildConditionStr (vx_conditions tier) in
      if truthy_str cond then cond ++ js " ? " ++ body ++ js " : p * 0 + c * 0" else body
  | Some tiers => join (js " : ") (generate_tiers 0 tiers)
  end.

(** ** Reading a configuration back *)

Definition re_ws : re := RStar (RChar is_ws).
(** A variable, [*] and a number in group [n]. *)
Definition re_price (name : jsstr) (n : nat) : re :=
  RSeq [RStr name; re_ws; RLit "*"; re_ws; RGroup n re_number].

(** The optional terms of the other variables, their groups numbered from [n]. *)
Fixpoint re_extras (vars : list jsstr) (n : nat) : list re :=
  match vars with
  | [] => []
  | v :: vs =>
      ROpt (RSeq [re_ws; RLit "+"; re_ws; re_price v n]) :: re_extras vs (S n)
  end.

(** [bodyPat], its groups numbered from [n]. *)
Definition body_re (n : nat) : re :=
  RSeq ([re_price (js "p") n; re_ws; RLit "+"; re_ws; re_price (js "c") (S n)]
        ++ re_extras (map snd BILLING_CACHE_VAR_MAP) (S (S n))).

(** The call of [tier] with a quoted label, group [n], and [bodyPat]. *)
Definition tier_re (n : nat) : re :=
  RSeq [RStr (jq "tier('"); RGroup n (RStar (RChar (fun c => negb (N.eqb c 34)))); RStr (jq "',");
        re_ws; body_re (S n); RLit ")"].

Definition version_prefix_re : re :=
  RSeq [RLit "v"; re_digits; RLit ":"; RGroup 1 (RStar (RChar (fun _ => true)))].

Definition re_cond_number : re :=
  RPlus (RChar (fun c => is_digit c || existsb (N.eqb c) (js ".eE+"))).
Definition re_cond_var : re := ROr [RLit "p"; RLit "c"; RLit "len"].
Definition re_cond_op : re := ROr [RLit "<"; RLit "<="; RLit ">"; RLit ">="].
Definition re_condition : re := RSeq [re_cond_var; re_ws; re_cond_op; re_ws; re_cond_number].
Definition re_and : re := RSeq [re_ws; RLit "&&"; re_ws].

(** [condGroup], group 1. *)
Definition cond_group_re : re :=
  RGroup 1 (RCat re_condition (RStar (RCat re_and re_condition))).

Definition conditional_tier_re : re :=
  RCat (ROpt (RSeq [cond_group_re; re_ws; RLit "?"; re_ws])) (tier_re 2).

Definition condition_parts_re : re :=
  RSeq [RGroup 1 re_cond_var; re_ws; RGroup 2 re_cond_op; re_ws; RGroup 3 re_cond_number].

(** The matches of [exec] with the [g] flag: leftmost, then from the end of each. *)
Fixpoint re_all (fuel : nat) (r : re) (s : jsstr) : list mstate :=
  match fuel, s with
  | O, _ | _, [] => []
  | S f, _ :: s' =>
      match re_exec r s with
      | Some m => m :: re_all f r (rest m)
      | None => re_all f r s'
      end
  end.

(** [s.split(r)] for a pattern that matches no empty string. *)
Fixpoint re_split (fuel : nat) (r : re) (current s : jsstr) : list jsstr :=
  match fuel, s with
  | O, _ | _, [] => [current ++ s]
  | S f, c :: s' =>
      match re_exec r s with
      | Some m => current :: re_split f r [] (rest m)
      | None => re_split f r (current ++ [c]) s'
      end
  end.

Definition read_condition_input (cp : jsstr) : option tier_condition_input :=
  let! m := full_match condition_parts_re (trim cp) in
  Some (TierConditionInput (cap 1 m) (cap 2 m) (VNum (number_of_string (cap 3 m)))).

Definition read_conditions (condStr : jsstr) : list tier_condition_input :=
  if truthy_str condStr
  then omap read_condition_input (re_split (length condStr) re_and [] condStr)
  else [].

(** The tier of a match whose label is group [n]. *)
Definition tier_of_match (n : nat) (conditions : list tier_condition_input) (m : mstate) : visual_tier :=
  VisualTier None None (Some (cap n m)) (Some conditions) None
    ([(js "input_unit_cost", VNum (number_of_string (cap (n + 1) m)));
      (js "output_unit_cost", VNum (number_of_string (cap (n + 2) m)))]
     ++ omap (fun p =>
          let! text := get_cap (n + 3 + p.1) m in
          Some (p.2.1, VNum (number_of_string text)))
          (imap (fun i cv => (i, cv)) BILLING_CACHE_VAR_MAP)).

Definition without_ws (s : jsstr) : jsstr := replace_all (RPlus (RChar is_ws)) [] s.

Definition tryParseVisualConfig (exprStr : option jsstr) : option (list visual_tier) :=
  match exprStr with
  | None | Some [] => None
  | Some source =>
      let body :=
        match full_match version_prefix_re source with Some m => cap 1 m | None => source end in
      match full_match (tier_re 1) body with
      | Some m => Some (normalizeVisualConfig (Some [normalizeVisualTier (tier_of_match 1 [] m)]))
      | None =>
          let tiers :=
            map (fun m => normalizeVisualTier (tier_of_match 2 (read_conditions (cap 1 m)) m))
              (re_all (length body) conditional_tier_re body) in
          match tiers with
          | [] => None
          | _ =>
              let cfg := normalizeVisualConfig (Some tiers) in
              if negb (str_eqb (without_ws (generateExprFromVisualConfig (Some cfg))) (without_ws body))
              then None else Some cfg
          end
      end
  end.

(** ** Estimator *)

Record extra_tokens := ExtraTokens {
  cacheReadTokens : num;
  cacheCreateTokens : num;
  cacheCreate1hTokens : num;
  cacheCreate12hTokens : num;
  imageTokens : num;
  imageCacheTokens : num;
  imageOutputTokens : num;
  audioInputTokens : num;
  audioOutputTokens : num;
}.

Definition ESTIMATOR_VARS : list (jsstr * (extra_tokens -> num)) :=
  [(js "cr", cacheReadTokens); (js "cc", cacheCreateTokens); (js "cc1h", cacheCreate1hTokens);
   (js "cc12h", cacheCreate12hTokens); (js "img", imageTokens); (js "img_cr", imageCacheTokens);
   (js "img_o", imageOutputTokens); (js "ai", audioInputTokens); (js "ao", audioOutputTokens)].

(** [EvalResult] *)
Record local_result := LocalResult {
  lr_cost : num;
  lr_matchedTier : jsstr;
  lr_error : option jsstr;
  lr_billingUnit : option billing_unit;
}.

Section estimator.
Context `{Host}.

Definition used_variables (exprStr : jsstr) : list jsstr :=
  match compile_source exprStr with Ready c => c_variables c | NotReady _ => [] end.

(** The [cc] tokens: long-lived cache writes without their own price join them. *)
Definition estimated_cc (extra : extra_tokens) (usedVars : list jsstr) : num :=
  let cc := cacheCreateTokens extra in
  let cc :=
    if str_mem (js "cc") usedVars && negb (str_mem (js "cc1h") usedVars)
    then n_add cc (n_mul (cacheCreate1hTokens extra) CLAUDE_CACHE_CREATION_1H_MULTIPLIER) else cc in
  if str_mem (js "cc") usedVars && negb (str_mem (js "cc12h") usedVars)
  then n_add cc (n_mul (cacheCreate12hTokens extra) OPENAI_CACHE_CREATION_12H_MULTIPLIER) else cc.

Definition estimated_length (promptTokens : num) (extra : extra_tokens) : num :=
  fold_left n_add
    [cacheReadTokens extra; imageCacheTokens extra; imageTokens extra; audioInputTokens extra;
     cacheCreateTokens extra; cacheCreate1hTokens extra; cacheCreate12hTokens extra] promptTokens.

Definition buildEstimatorTokens (promptTokens completionTokens : num) (extra : extra_tokens)
  (exprStr : jsstr) : list (jsstr * jsval) :=
  let fields :=
    [(js "p", promptTokens); (js "c", completionTokens);
     (js "len", estimated_length promptTokens extra)]
    ++ map (fun v => (v.1, v.2 extra)) ESTIMATOR_VARS in
  assoc_set str_eqb (js "cc") (VNum (estimated_cc extra (used_variables exprStr)))
    (map (fun kv => (kv.1, VNum kv.2)) fields).

(** [{ ...a, ...b }] *)
Definition object_spread (a b : list (jsstr * jsval)) : list (jsstr * jsval) :=
  fold_left (fun acc kv => assoc_set str_eqb kv.1 kv.2 acc) b a.

Definition estimator_context (ctx : option context) (estimated : list (jsstr * jsval)) : context :=
  match ctx with
  | None => Context None (Some estimated) None None None
  | Some c =>
      Context (imageCount c) (Some (object_spread estimated (default [] (tokens c))))
        (ctx_request c) (usage c) (now c)
  end.

Definition evalExprLocally (exprStr : jsstr) (promptTokens completionTokens : num)
  (extra : extra_tokens) (ctx : option context) : local_result :=
  if negb (truthy_str (trim exprStr)) then LocalResult n_zero [] None None
  else
    match
      evaluateBillingExpression exprStr
        (estimator_context ctx (buildEstimatorTokens promptTokens completionTokens extra exprStr))
    with
    | Failed f => LocalResult n_zero [] (Some (detail (diagnostic_of f))) None
    | Success v =>
        LocalResult (cost v) (matchedTier v) None
          (match billingUnit v with Urequest => Some Urequest | Utoken => None end)
    end.

Definition exprUsesExtraVars (exprStr : jsstr) : bool :=
  if negb (truthy_str exprStr) then false
  else
    match compile_source exprStr with
    | NotReady _ => false
    | Ready c => existsb (fun field => str_mem field.1 (c_variables c)) ESTIMATOR_VARS
    end.
End estimator.
