(* ===== verification/TierExprSpec.v ===== *)
(** * Properties of the estimator *)

From S2P Require Import Prelude JsString JsNumber JsIntSpec JsRegex JsValue ExprTypes ExprParser ExprCompile ExprCompileSpec ExprRuntime ExprRuntimeSpec ExprStructure ExprDisplay BillingExpr TierExpr.

Local Open Scope Z_scope.

(** Token counts as integers. *)
Record counts := Counts {
  z_cr : Z; z_cc : Z; z_cc1h : Z; z_cc12h : Z; z_img : Z; z_img_cr : Z; z_img_o : Z; z_ai : Z; z_ao : Z;
}.

Definition counted (extra : extra_tokens) (z : counts) : Prop :=
  safe_num (cacheReadTokens extra) (z_cr z) /\ safe_num (cacheCreateTokens extra) (z_cc z) /\
  safe_num (cacheCreate1hTokens extra) (z_cc1h z) /\ safe_num (cacheCreate12hTokens extra) (z_cc12h z) /\
  safe_num (imageTokens extra) (z_img z) /\ safe_num (imageCacheTokens extra) (z_img_cr z) /\
  safe_num (imageOutputTokens extra) (z_img_o z) /\ safe_num (audioInputTokens extra) (z_ai z) /\
  safe_num (audioOutputTokens extra) (z_ao z) /\
  0 <= z_cr z /\ 0 <= z_cc z /\ 0 <= z_cc1h z /\ 0 <= z_cc12h z /\ 0 <= z_img z /\ 0 <= z_img_cr z /\
  0 <= z_img_o z /\ 0 <= z_ai z /\ 0 <= z_ao z.

(** The whole input of the request. *)
Definition input_total (p : Z) (z : counts) : Z :=
  p + z_cr z + z_img_cr z + z_img z + z_ai z + z_cc z + z_cc1h z + z_cc12h z.

Section estimator.
Context `{Host}.

Definition token (tokens : list (jsstr * jsval)) (name : string) (z : Z) : Prop :=
  exists x, prop_get (js name) tokens = Some (VNum x) /\ int_value x = Some z.

(** The expression prices the variable. *)
Definition prices (source : jsstr) (name : string) : bool := str_mem (js name) (used_variables source).

(** C32: the estimator accounts for every token once: the length is exactly the
    prompt plus every kind of input token, each kind is passed on unchanged, and
    a long-lived cache write joins the plain cache writes only when the
    expression prices those and has no price of its own for it: at 1.6 times its
    count for the one-hour kind, in the arithmetic of numbers, and at exactly twice its
    count for the 12-hour kind.  The four cases of own prices are listed. *)
Theorem estimator_tokens_exact source prompt completion extra p c z :
  safe_num prompt p -> safe_num completion c -> 0 <= p -> counted extra z ->
  input_total p z + z_cc12h z <= max_safe ->
  let tokens := buildEstimatorTokens prompt completion extra source in
  token tokens "p" p /\ token tokens "c" c /\ token tokens "len" (input_total p z) /\
  token tokens "cr" (z_cr z) /\ token tokens "cc1h" (z_cc1h z) /\ token tokens "cc12h" (z_cc12h z) /\
  token tokens "img" (z_img z) /\ token tokens "img_cr" (z_img_cr z) /\
  token tokens "img_o" (z_img_o z) /\ token tokens "ai" (z_ai z) /\ token tokens "ao" (z_ao z) /\
  (prices source "cc" = false \/ (prices source "cc1h" = true /\ prices source "cc12h" = true) -> token tokens "cc" (z_cc z)) /\
  (prices source "cc" = true -> prices source "cc1h" = true -> prices source "cc12h" = false ->
     token tokens "cc" (z_cc z + 2 * z_cc12h z)) /\
  (prices source "cc" = true -> prices source "cc1h" = false ->
     let with_1h := n_add (cacheCreateTokens extra) (n_mul (cacheCreate1hTokens extra) (number_of_string (js "1.6"))) in
     prop_get (js "cc") tokens =
       Some (VNum (if prices source "cc12h" then with_1h
                   else n_add with_1h (n_mul (cacheCreate12hTokens extra) (n_of_Z 2))))).
Proof.
  intros Hp Hc Hp0 Hz Hs tokens.
  destruct Hz as (H1 & H2 & H3 & H4 & H5 & H6 & H7 & H8 & H9 & N1 & N2 & N3 & N4 & N5 & N6 & N7 & N8 & N9).
  unfold input_total in *.
  assert (Hint : forall x z0, safe_num x z0 -> int_value x = Some z0) by (intros x z0 [[_ ?] _]; done).
  assert (Hlen : safe_num (estimated_length prompt extra) (input_total p z)).
  { replace (input_total p z) with (p + fold_right Z.add 0
      [z_cr z; z_img_cr z; z_img z; z_ai z; z_cc z; z_cc1h z; z_cc12h z]) by (unfold input_total; simpl; lia).
    apply sum_safe; [|repeat constructor; done|done|done|simpl; lia].
    repeat first [apply List.Forall2_nil | apply List.Forall2_cons; [assumption|]]. }
  assert (Hcc : prop_get (js "cc") tokens = Some (VNum (estimated_cc extra (used_variables source)))) by done.
  do 11 (split; [eexists; split; [reflexivity|by apply Hint]|]).
  unfold token. rewrite Hcc. unfold estimated_cc, prices.
  split; [|split].
  - intros [->|[-> ->]]; [|rewrite andb_false_r]; eexists; (split; [reflexivity|by apply Hint]).
  - intros -> -> ->. eexists. split; [reflexivity|]. cbn [andb negb].
    assert (Hm : safe_num (n_mul (cacheCreate12hTokens extra) OPENAI_CACHE_CREATION_12H_MULTIPLIER) (z_cc12h z * 2)).
    { split; [|lia]. apply (mul_safe _ _ _ 2 H4); [|lia]. by apply of_Z_safe. }
    replace (2 * z_cc12h z) with (z_cc12h z * 2) by lia.
    apply (add_safe _ _ _ _ H2 Hm). lia.
  - intros -> ->. cbn [andb negb]. by destruct (str_mem (js "cc12h") (used_variables source)).
Qed.
End estimator.

Definition sample_extra : extra_tokens :=
  ExtraTokens (n_of_Z 10) (n_of_Z 20) (n_of_Z 30) (n_of_Z 40) (n_of_Z 50) (n_of_Z 60) (n_of_Z 70) (n_of_Z 80) (n_of_Z 90).
Definition sample_counts : counts := Counts 10 20 30 40 50 60 70 80 90.
Definition estimator_source : jsstr := jq "tier('a', p * 1 + c * 2 + cc * 3 + cc1h * 4)".

Lemma estimator_tokens_exact_witness :
  let tokens := buildEstimatorTokens (H := plain_host) (n_of_Z 1000) (n_of_Z 100) sample_extra estimator_source in
  token tokens "len" 1290 /\ token tokens "cc" 100.
Proof.
  assert (Hc : counted sample_extra sample_counts).
  { unfold counted, safe_num, int_num. repeat split; vm_compute; discriminate. }
  destruct (estimator_tokens_exact (H := plain_host) estimator_source (n_of_Z 1000) (n_of_Z 100)
    sample_extra 1000 100 sample_counts) as (_ & _ & Hl & _ & _ & _ & _ & _ & _ & _ & _ & _ & Hcc & _).
  - apply of_Z_safe. vm_compute. discriminate.
  - apply of_Z_safe. vm_compute. discriminate.
  - vm_compute. discriminate.
  - exact Hc.
  - vm_compute. discriminate.
  - split; [exact Hl|]. apply Hcc; vm_compute; reflexivity.
Defined.
