(* ===== verification/TaskDisplay.v ===== *)
(** * Conditional task pricing

    Models [billing-expression/task-display.ts]: a task expression becomes a table
    with one row per combination of declared facts and outcome of the time
    conditions, each row with the linear price the expression charges there.  The
    field [context.remaining], decremented by both walks, is passed along.

    Prices are kept in plain objects, so a price read under a name every object
    inherits is not a number, and one stored under [__proto__] is lost
    ([price_get], [price_set]).  Properties of prices and facts are kept in the order
    they are enumerated in ([prop_set]). *)

From S2P Require Import Prelude JsString JsNumber JsRegex JsValue ExprTypes ExprParser ExprCompile ExprRuntime ExprDisplay.

Definition MAX_DISPLAY_ROWS : nat := 128.

(** ** Data *)

(** [string | boolean] *)
Inductive fact : Type :=
| FStr (s : jsstr)
| FBool (b : bool).

Abbreviation facts_of := (list (jsstr * fact)).

(** What a condition is known to be: a truth value, or the text of the time
    condition it comes down to. *)
Inductive shown : Type :=
| Known (b : bool)
| Shown (text : jsstr).

Record price_branch := PriceBranch {
  pb_label : option jsstr;
  pb_constant : num;
  pb_prices : list (jsstr * num);
  pb_times : list (jsstr * bool);
}.

(** [prices\[field\] ?? 0], as a summand or factor. *)
Definition price_get (prices : list (jsstr * num)) (field : jsstr) : num :=
  match assoc_get str_eqb field prices with
  | Some x => x
  | None => if str_mem field OBJECT_MEMBERS then SpecFloat.S754_nan else n_zero
  end.

(** [prices\[field\] = x] *)
Definition price_set (prices : list (jsstr * num)) (field : jsstr) (x : num)
  : list (jsstr * num) :=
  if str_eqb field (js "__proto__") then prices else prop_set field x prices.

(** [new Map(entries)] *)
Definition map_of (entries : list (jsstr * bool)) : list (jsstr * bool) :=
  fold_left (fun m p => assoc_set str_eqb p.1 p.2 m) entries [].

(** The value of a condition on the time, and the opposite, are in conflict. *)
Definition conflicts (times : list (jsstr * bool)) (p : jsstr * bool) : bool :=
  match assoc_get str_eqb p.1 times with
  | Some b => negb (Bool.eqb b p.2)
  | None => false
  end.

(** ** Conditions *)

Definition not_shown (v : shown) : shown :=
  match v with
  | Known b => Known (negb b)
  | Shown t => Shown (js "!(" ++ t ++ js ")")
  end.

Definition is_known (v : shown) (b : bool) : bool :=
  match v with Known x => Bool.eqb x b | Shown _ => false end.

(** [&&] and [||] of two conditions. *)
Definition join_shown (op : jsstr) (lhs rhs : shown) : shown :=
  let shortCircuit := str_eqb op (js "||") in
  if is_known lhs shortCircuit || is_known rhs shortCircuit then Known shortCircuit
  else
    match lhs, rhs with
    | Known _, _ => rhs
    | _, Known _ => lhs
    | Shown a, Shown b => Shown (js "(" ++ a ++ js ") " ++ op ++ js " (" ++ b ++ js ")")
    end.

Definition fact_is_literal (f : fact) (v : literal) : bool :=
  match f, v with
  | FStr s, LStr t => str_eqb s t
  | FBool a, LBool b => Bool.eqb a b
  | _, _ => false
  end.

(** One side is a call [u("key")], the other a literal. *)
Definition fact_probe (probe other : expr) : option (jsstr * literal) :=
  match usage_name probe, other with
  | Some key, ELit v _ _ => Some (key, v)
  | _, _ => None
  end.

(** The body of the loop over the two sides, once a probe is found. *)
Definition compare_fact (schema : usage_schema) (facts : facts_of) (op key : jsstr)
  (v : literal) : option shown :=
  match assoc_get str_eqb key facts, schema_get schema key with
  | Some f, Some d =>
      let equal := fact_is_literal f v in
      let answer := Some (Known (if str_eqb op (js "==") then equal else negb equal)) in
      match uf_type d with
      | Some UTboolean => match v with LBool _ => answer | _ => None end
      | _ =>
          match v with
          | LStr s =>
              if negb (match uf_enum d with Some values => str_mem s values | None => false end)
              then Some (Known (str_eqb op (js "!=")))
              else answer
          | _ => None
          end
      end
  | _, _ => None
  end.

Definition is_call_node (e : expr) : bool := match e with ECall _ _ _ => true | _ => false end.

(** A number, or a call of a time function on a zone that is not the server's. *)
Definition time_operand (part : expr) : bool :=
  match part with
  | ELit (LNum _) _ _ => true
  | ECall name (ELit (LStr zone) _ _ :: _) _ =>
      is_time_function name && negb (str_eqb (trim zone) (js "Local"))
  | _ => false
  end.

Definition COMPARISON_OPERATORS : list jsstr :=
  [js "=="; js "!="; js "<"; js "<="; js ">"; js ">="].

Definition time_comparison (op : jsstr) (l r : expr) : bool :=
  str_mem op COMPARISON_OPERATORS && (is_call_node l || is_call_node r)
  && (time_operand l && time_operand r).

Section walk.
Variables (source : jsstr) (schema : usage_schema) (facts : facts_of).

(** The comparisons of [taskDisplayCondition]. *)
Definition display_comparison (op : jsstr) (l r : expr) (sp : span) : option shown :=
  let timed :=
    if time_comparison op l r then Some (Shown (slice source (start sp) (end_ sp))) else None in
  if str_eqb op (js "==") || str_eqb op (js "!=") then
    match fact_probe l r with
    | Some (key, v) => compare_fact schema facts op key v
    | None =>
        match fact_probe r l with
        | Some (key, v) => compare_fact schema facts op key v
        | None => timed
        end
    end
  else timed.

Fixpoint taskDisplayCondition (node : expr) (remaining : Z) : option shown * Z :=
  let remaining := (remaining - 1)%Z in
  if (remaining <? 0)%Z then (None, remaining)
  else
    match node with
    | ELit (LBool b) _ _ => (Some (Known b), remaining)
    | EUnary op x _ =>
        if str_eqb op (js "!") then
          let '(value, remaining) := taskDisplayCondition x remaining in
          (not_shown <$> value, remaining)
        else (None, remaining)
    | EBinary op l r sp =>
        if str_eqb op (js "&&") || str_eqb op (js "||") then
          let '(lhs, remaining) := taskDisplayCondition l remaining in
          let '(rhs, remaining) := taskDisplayCondition r remaining in
          (match lhs, rhs with
           | Some a, Some b => Some (join_shown op a b)
           | _, _ => None
           end, remaining)
        else (display_comparison op l r sp, remaining)
    | _ => (None, remaining)
    end.

(** ** Prices *)

Definition all_prices_ok (constant : num) (prices : list (jsstr * num)) : bool :=
  forallb (fun x => is_finite x && n_geb x n_zero) (constant :: map snd prices).

(** The prices of [a + b]. *)
Definition sum_prices (a b : list (jsstr * num)) : list (jsstr * num) :=
  fold_left (fun acc field => price_set acc field (n_add (price_get a field) (price_get b field)))
    (fold_left (fun s k => set_add str_eqb k s) (map fst a ++ map fst b) []) [].

(** The prices of [quantity * factor]. *)
Definition scale_prices (quantity : list (jsstr * num)) (factor : num) : list (jsstr * num) :=
  fold_left (fun acc p => price_set acc p.1 (n_mul p.2 factor)) quantity [].

Definition has_prices (b : price_branch) : bool :=
  match pb_prices b with [] => false | _ => true end.

(** Constant and prices of [a op b]: [None] when the price is not linear. *)
Definition combine_prices (op : jsstr) (a b : price_branch) : option (num * list (jsstr * num)) :=
  if str_eqb op (js "+") then
    Some (n_add (pb_constant a) (pb_constant b), sum_prices (pb_prices a) (pb_prices b))
  else
    let division := str_eqb op (js "/") in
    if (has_prices a && has_prices b)
       || (division && (has_prices b || n_leb (pb_constant b) n_zero))
    then None
    else
      let quantity := if has_prices a then a else b in
      let factor :=
        if division then n_div (n_of_Z 1) (pb_constant b)
        else if has_prices a then pb_constant b else pb_constant a in
      let constant :=
        if division then n_div (pb_constant a) (pb_constant b)
        else n_mul (pb_constant a) (pb_constant b) in
      Some (constant, scale_prices (pb_prices quantity) factor).

(** The inner round of the double loop: [None] returns [null], [Some None]
    continues. *)
Definition combine (op : jsstr) (a b : price_branch) : option (option price_branch) :=
  match pb_label a, pb_label b with
  | Some _, Some _ => None
  | _, _ =>
      if existsb (conflicts (pb_times b)) (pb_times a) then Some None
      else
        let! (constant, prices) := combine_prices op a b in
        if negb (all_prices_ok constant prices) then None
        else
          Some (Some (PriceBranch
            (match pb_label a with Some l => Some l | None => pb_label b end)
            constant prices (map_of (pb_times a ++ pb_times b))))
  end.

Definition push_combined (op : jsstr) (acc : list price_branch) (ab : price_branch * price_branch)
  : option (list price_branch) :=
  let! pushed := combine op ab.1 ab.2 in
  Some (acc ++ match pushed with Some b => [b] | None => [] end).

Definition with_label (label : jsstr) (b : price_branch) : price_branch :=
  PriceBranch (Some label) (pb_constant b) (pb_prices b) (pb_times b).
Definition with_time (condition : jsstr) (matches : bool) (b : price_branch) : price_branch :=
  PriceBranch (pb_label b) (pb_constant b) (pb_prices b)
    (map_of ((condition, matches) :: pb_times b)).

(** The children of a time condition that do not contradict it. *)
Definition under_time (condition : jsstr) (matches : bool) (children : list price_branch)
  : list price_branch :=
  map (with_time condition matches)
    (List.filter (fun b => negb (conflicts (pb_times b) (condition, matches))) children).

Definition is_labelled (b : price_branch) : bool :=
  match pb_label b with Some _ => true | None => false end.

Fixpoint taskPriceBranches (node : expr) (remaining : Z) : option (list price_branch) * Z :=
  let remaining := (remaining - 1)%Z in
  if (remaining <? 0)%Z then (None, remaining)
  else
    match node with
    | ELit (LNum x) _ _ =>
        (if n_geb x n_zero then Some [PriceBranch None x [] []] else None, remaining)
    | ECall name (ELit (LStr arg) _ _ :: more) _ =>
        if str_eqb name (js "u") then
          (match schema_get schema arg with
           | Some (UsageField (Some UTnumber) (Some unit) _ _ _ _) =>
               if truthy_str unit
               then Some [PriceBranch None n_zero [(arg, n_of_Z 1)] []] else None
           | _ => None
           end, remaining)
        else if str_eqb name (js "tier") then
          match more with
          | body :: _ =>
              let '(branches, remaining) := taskPriceBranches body remaining in
              (match branches with
               | Some bs =>
                   if existsb is_labelled bs then None else Some (map (with_label arg) bs)
               | None => None
               end, remaining)
          | [] => (None, remaining)
          end
        else (None, remaining)
    | ECond c yes no _ =>
        let '(condition, remaining) := taskDisplayCondition c remaining in
        match condition with
        | None => (None, remaining)
        | Some (Known true) => taskPriceBranches yes remaining
        | Some (Known false) => taskPriceBranches no remaining
        | Some (Shown text) =>
            let '(first, remaining) := taskPriceBranches yes remaining in
            match first with
            | None => (None, remaining)
            | Some first =>
                let '(second, remaining) := taskPriceBranches no remaining in
                (match second with
                 | None => None
                 | Some second =>
                     let branches := under_time text true first ++ under_time text false second in
                     if Nat.leb (length branches) MAX_DISPLAY_ROWS then Some branches else None
                 end, remaining)
            end
        end
    | EBinary op l r _ =>
        if negb (str_mem op [js "+"; js "*"; js "/"]) then (None, remaining)
        else
          let '(lhs, remaining) := taskPriceBranches l remaining in
          let '(rhs, remaining) := taskPriceBranches r remaining in
          (match lhs, rhs with
           | Some lhs, Some rhs =>
               if Nat.ltb MAX_DISPLAY_ROWS (length lhs * length rhs) then None
               else fold_option (push_combined op) (list_prod lhs rhs) []
           | _, _ => None
           end, remaining)
    | _ => (None, remaining)
    end.

End walk.

(** ** The table *)

(** The visitor that collects the usage fields: [valid] and [fields]. *)
Definition field_visitor (schema : usage_schema) (acc : bool * list jsstr) (node : expr)
  : result berr (bool * list jsstr) :=
  match node with
  | ECall name args _ =>
      if negb (str_eqb name (js "u")) then Ok acc
      else
        match args with
        | [] => Err EngineError
        | ELit (LStr key) _ _ :: _ =>
            Ok (if assoc_mem str_eqb key schema
                then (acc.1, set_add str_eqb key acc.2) else (false, acc.2))
        | _ => Ok (false, acc.2)
        end
  | _ => Ok acc
  end.

(** The values a declared field that is not a quantity can take. *)
Definition field_values (d : usage_field) : list fact :=
  match uf_type d with
  | Some UTboolean => [FBool false; FBool true]
  | _ => map FStr (default [] (uf_enum d))
  end.

(** One round of the loop over the fields. *)
Definition field_combinations (schema : usage_schema) (combinations : list facts_of)
  (field : jsstr) : option (list facts_of) :=
  match schema_get schema field with
  | None => None
  | Some d =>
      match uf_type d with
      | Some UTnumber => Some combinations
      | _ =>
          let values := field_values d in
          if Nat.eqb (length values) 0
             || Nat.ltb MAX_DISPLAY_ROWS (length combinations * length values)
          then None
          else
            Some (flat_map (fun facts =>
                    map (fun value => prop_set field value facts) values) combinations)
      end
  end.

Definition string_of_fact (f : fact) : jsstr :=
  match f with
  | FStr s => s
  | FBool b => if b then js "true" else js "false"
  end.

(** The prices of a row in display units. *)
Definition unit_prices (schema : usage_schema) (fields : list jsstr) (b : price_branch)
  : list (jsstr * num) :=
  fold_left (fun acc field =>
    match schema_get schema field with
    | Some (UsageField (Some UTnumber) (Some unit) _ _ _ _) =>
        if truthy_str unit then
          price_set acc field
            (n_mul (price_get (pb_prices b) field)
               (n_of_Z (if str_eqb unit (js "token") then 1000000 else 1)))
        else acc
    | _ => acc
    end) fields [].

Definition time_text (p : jsstr * bool) : jsstr :=
  if p.2 then js "(" ++ p.1 ++ js ")" else js "!(" ++ p.1 ++ js ")".

(** One row of the table: [None] when the function returns [null]. *)
Definition display_row (schema : usage_schema) (fields : list jsstr) (facts : facts_of)
  (b : price_branch) : option task_tier :=
  let! label := pb_label b in
  let prices := unit_prices schema fields b in
  if Nat.eqb (length prices) 0 || negb (forallb (fun p => is_finite p.2) prices) then None
  else
    let conditionText := join (js " && ") (map time_text (pb_times b)) in
    Some (TaskTier
      (if truthy_str conditionText then Some conditionText else None)
      label
      (map (fun p => TaskCondition p.1 (string_of_fact p.2)) facts)
      (pb_constant b) prices).

(** One round of the loop over the combinations. *)
Definition display_combination (source : jsstr) (schema : usage_schema) (fields : list jsstr)
  (ast : expr) (acc : list task_tier * Z) (facts : facts_of) : option (list task_tier * Z) :=
  let '(branches, remaining) := taskPriceBranches source schema facts ast acc.2 in
  let! branches := branches in
  if Nat.ltb MAX_DISPLAY_ROWS (length acc.1 + length branches) then None
  else
    let! rows := collect (display_row schema fields facts) branches in
    Some (acc.1 ++ rows, remaining).

Definition readConditionalTaskPricing `{Host} (source : jsstr) (schema : usage_schema)
  : result berr (option (list task_tier)) :=
  match compile_source source with
  | NotReady _ => Ok None
  | Ready c =>
      let? (valid, fields) := visitExpression (c_ast c) (field_visitor schema) (true, []) in
      if negb valid then Ok None
      else
        Ok (let! combinations := fold_option (field_combinations schema) fields [[]] in
            let! (tiers, _) :=
              fold_option (display_combination source schema fields (c_ast c)) combinations
                ([], 20000%Z) in
            Some tiers)
  end.
