(* ===== verification/TaskDisplaySpec.v ===== *)
(** * Conditional task pricing against evaluation

    The rows of the table of [TaskDisplay] cover every request, and a row that
    applies to a request carries the tier evaluation charges.  Time conditions are
    keyed by their text in the code; the proofs rest on [ExprSpelling]: conditions
    shown by the same text have the same truth value. *)

From S2P Require Import Prelude JsString JsNumber JsRegex JsValue ExprTypes ExprParser ExprParserSpec ExprSpelling ExprCompile ExprCompileSpec ExprRuntime ExprRuntimeSpec ExprDisplay ExprDisplaySpec TaskDisplay.

(** ** The truth value of a condition *)

Section truth.
Context `{Host}.
Variables (t : Z) (u : list (jsstr * jsval)).

(** The value of a call [u("field")], of a time function, of a literal. *)
Definition operand_value (e : expr) : jsval :=
  match e with
  | ELit l _ _ => literal_value l
  | ECall name (ELit (LStr arg) _ _ :: _) _ =>
      if str_eqb name (js "u") then default VNull (prop_get arg u)
      else
        match timeInBillingZone (Some t) (trim arg) with
        | Ok v => VNum (time_value name v)
        | Err _ => VUndef
        end
  | _ => VUndef
  end.

Definition compare_values (op : jsstr) (a b : jsval) : bool :=
  if str_eqb op (js "==") then strict_eqb a b
  else if str_eqb op (js "!=") then negb (strict_eqb a b)
  else default false (compare_op op a b).

(** What a condition the display accepts comes down to, for the facts [u] and the
    instant [t]. *)
Fixpoint truth (e : expr) : bool :=
  match e with
  | ELit (LBool b) _ _ => b
  | EUnary _ x _ => negb (truth x)
  | EBinary op l r _ =>
      if str_eqb op (js "&&") then truth l && truth r
      else if str_eqb op (js "||") then truth l || truth r
      else compare_values op (operand_value l) (operand_value r)
  | _ => false
  end.

(** ** The text of a condition determines its truth value *)

(** A comparison of clock readings and numbers, as [taskDisplayCondition] accepts. *)
Definition is_time_node (e : expr) : Prop :=
  exists op l r sp, e = EBinary op l r sp /\ time_comparison op l r = true.

(** What the lexemes of a shown text say. *)
Inductive says : list token -> bool -> Prop :=
| says_time ts n :
    is_time_node n -> Forall node_wf (postorder n) -> loud ts = spelling n ->
    says ts (truth n)
| says_not ts b : says ts b -> says (TWord (js "!") :: open_tok :: ts ++ [close_tok]) (negb b)
| says_join op ts1 b1 ts2 b2 :
    op = js "&&" \/ op = js "||" -> says ts1 b1 -> says ts2 b2 ->
    balanced ts1 -> balanced ts2 ->
    says (open_tok :: ts1 ++ close_tok :: TWord op :: open_tok :: ts2 ++ [close_tok])
      (if str_eqb op (js "&&") then b1 && b2 else b1 || b2).

(** A time function takes one argument, a string. *)
Inductive reading : expr -> list token -> jsval -> Prop :=
| reading_num x i sp : reading (ELit (LNum x) i sp) [TNum x i] (VNum x)
| reading_time name zone i sp sp' :
    is_time_function name = true ->
    reading (ECall name [ELit (LStr zone) i sp] sp') [TWord name; TStr zone]
      (operand_value (ECall name [ELit (LStr zone) i sp] sp')).

Lemma time_operand_reading e :
  time_operand e = true -> Forall node_wf (postorder e) ->
  reading e (spelling e) (operand_value e).
Proof.
  intros Ht Hw. rewrite postorder_children in Hw. apply Forall_app in Hw as [_ Hw].
  apply Forall_cons_1 in Hw as [Hw _].
  destruct e as [[x| | |] i sp| |name [|[[|zone| |] i sp| | | | |] more] sp'| | |]; try done.
  { constructor. }
  cbn [time_operand] in Ht. apply andb_true_iff in Ht as [Ht _].
  enough (more = []) as -> by by constructor.
  cbn [node_wf] in Hw. apply str_mem_In in Ht. unfold TIME_FUNCTIONS in Ht.
  repeat (destruct Ht as [<-|Ht]; [by injection Hw; destruct more|]). done.
Qed.

Lemma reading_functional e1 w1 v1 e2 w2 v2 ts1 ts2 :
  reading e1 w1 v1 -> reading e2 w2 v2 -> w1 ++ ts1 = w2 ++ ts2 -> v1 = v2 /\ ts1 = ts2.
Proof. intros H1 H2 E. destruct H1, H2; simpl in E; simplify_eq; done. Qed.

Lemma time_node_value n1 n2 :
  is_time_node n1 -> is_time_node n2 ->
  Forall node_wf (postorder n1) -> Forall node_wf (postorder n2) ->
  spelling n1 = spelling n2 -> truth n1 = truth n2.
Proof.
  intros (op & l & r & sp & -> & Ht) (op' & l' & r' & sp' & -> & Ht') Hw Hw' E.
  assert (Hsub : forall op l r sp, time_comparison op l r = true ->
    Forall node_wf (postorder (EBinary op l r sp)) ->
    reading l (spelling l) (operand_value l) /\ reading r (spelling r) (operand_value r) /\
    str_eqb op (js "&&") = false /\ str_eqb op (js "||") = false).
  { clear. intros op l r sp Ht Hw. unfold time_comparison in Ht.
    apply andb_true_iff in Ht as [[Ho _]%andb_true_iff [Hl Hr]%andb_true_iff].
    cbn [postorder] in Hw. rewrite !Forall_app in Hw. destruct Hw as (Hwl & Hwr & _).
    split; [by apply time_operand_reading|]. split; [by apply time_operand_reading|].
    apply str_mem_In in Ho. unfold COMPARISON_OPERATORS in Ho.
    repeat (destruct Ho as [<-|Ho]; [done|]). done. }
  destruct (Hsub op l r sp Ht Hw) as (Rl & Rr & Ea0 & Eo0).
  destruct (Hsub op' l' r' sp' Ht' Hw') as (Rl' & Rr' & Ea & Eo).
  cbn [spelling] in E.
  destruct (reading_functional _ _ _ _ _ _ _ _ Rl Rl' E) as [Hl E2]. injection E2 as Hop Er.
  rewrite <- (app_nil_r (spelling r)), <- (app_nil_r (spelling r')) in Er.
  destruct (reading_functional _ _ _ _ _ _ _ _ Rr Rr' Er) as [Hr _].
  cbn [truth]. rewrite Ea, Eo, Ea0, Eo0. by rewrite Hop, Hl, Hr.
Qed.

(** The words of a comparison of clock readings. *)
Lemma time_node_words n s :
  is_time_node n -> Forall node_wf (postorder n) -> In (TWord s) (spelling n) ->
  str_mem s (TIME_FUNCTIONS ++ COMPARISON_OPERATORS) = true.
Proof.
  intros (op & l & r & sp & -> & Ht) Hw Hs. unfold time_comparison in Ht.
  apply andb_true_iff in Ht as [[Ho _]%andb_true_iff [Hl Hr]%andb_true_iff].
  cbn [postorder] in Hw. rewrite !Forall_app in Hw. destruct Hw as (Hwl & Hwr & _).
  assert (Hop : forall e, reading e (spelling e) (operand_value e) -> In (TWord s) (spelling e) ->
    str_mem s (TIME_FUNCTIONS ++ COMPARISON_OPERATORS) = true).
  { clear. intros e Hr. destruct Hr as [|name zone i sp sp' Hn]; intros Hs.
    - by destruct Hs as [Hs|[]].
    - destruct Hs as [[= ->]|[Hs|[]]]; [|done]. unfold str_mem. rewrite existsb_app.
      fold (str_mem s TIME_FUNCTIONS). unfold is_time_function in Hn. by rewrite Hn. }
  cbn [spelling] in Hs. apply in_app_or in Hs as [Hs|[Hs|Hs]].
  - apply (Hop l); [by apply time_operand_reading|done].
  - injection Hs as ->. unfold str_mem. rewrite existsb_app.
    fold (str_mem s COMPARISON_OPERATORS). by rewrite Ho, orb_true_r.
  - apply (Hop r); [by apply time_operand_reading|done].
Qed.

Lemma balanced_split a b r1 r2 :
  balanced a -> balanced b -> a ++ close_tok :: r1 = b ++ close_tok :: r2 -> a = b /\ r1 = r2.
Proof.
  intros Ha Hb E. apply app_eq_app in E as (k & [[-> E]|[-> E]]).
  - destruct k as [|x k]; [rewrite app_nil_r; by injection E as ->|].
    injection E as <- _. specialize (Ha 0). rewrite nest_app, Hb in Ha. done.
  - destruct k as [|x k]; [rewrite app_nil_r; by injection E as ->|].
    injection E as <- _. specialize (Hb 0). rewrite nest_app, Ha in Hb. done.
Qed.
(** A comparison has no connective among its lexemes. *)
Lemma time_no_connective ts n s :
  is_time_node n -> Forall node_wf (postorder n) -> loud ts = spelling n ->
  In s [js "!"; js "&&"; js "||"] -> In (TWord s) ts -> False.
Proof.
  intros Hn Hw Hl Hs Hin.
  assert (Hloud : In (TWord s) (spelling n)).
  { rewrite <- Hl. apply filter_In. split; [done|].
    repeat (destruct Hs as [<-|Hs]; [done|]). done. }
  apply time_node_words in Hloud; [|done|done].
  repeat (destruct Hs as [<-|Hs]; [done|]). done.
Qed.

Lemma says_functional ts b1 : says ts b1 -> forall b2, says ts b2 -> b1 = b2.
Proof.
  induction 1 as [ts n Hn Hw Hl|ts b H1 IH|op ts1 b1 ts2 b2 Hop H1 IH1 H2 IH2 B1 B2];
    intros b' H'; inversion H' as [ts' n' Hn' Hw' Hl' E|ts' x' Hx' E|op' us1 x1 us2 x2 Ho' X1 X2 C1 C2 E];
    subst; try done.
  - apply time_node_value; try done. congruence.
  - exfalso. eapply time_no_connective; [done|done|exact Hl|by left|by left].
  - exfalso. eapply (time_no_connective _ n op'); [done|done|exact Hl| |].
    + by destruct Ho' as [-> | ->]; simpl; auto.
    + right. apply in_app_iff. right. right. by left.
  - exfalso. eapply time_no_connective; [done|done|exact Hl'|by left|by left].
  - f_equal. apply IH. apply app_inj_tail in E as [-> _]. done.
  - exfalso. eapply (time_no_connective _ n' op); [done|done|exact Hl'| |].
    + by destruct Hop as [-> | ->]; simpl; auto.
    + right. apply in_app_iff. right. right. by left.
  - apply balanced_split in E as [-> E]; [|done|done].
    injection E as Eop E. apply app_inj_tail in E as [-> _]. subst op'.
    by rewrite (IH1 x1), (IH2 x2).
Qed.
End truth.

(** ** Shown conditions *)

Definition fact_value (f : fact) : jsval :=
  match f with FStr s => VStr s | FBool b => VBool b end.

Section shown.
Context `{Host}.
Variables (t : Z) (u : list (jsstr * jsval)).
Variables (source : jsstr) (ast : expr) (schema : usage_schema) (facts : facts_of).
Abbreviation truth := (truth t u).
Abbreviation says := (says t u).

(** The facts of a row are those the task reports, and are declared values. *)
Definition facts_match : Prop := forall key f,
  assoc_get str_eqb key facts = Some f ->
  prop_get key u = Some (fact_value f) /\
  exists d, schema_get schema key = Some d /\ In f (field_values d).

(** [taskDisplayCondition] without its budget. *)
Fixpoint shown_of (node : expr) : option shown :=
  match node with
  | ELit (LBool b) _ _ => Some (Known b)
  | EUnary op x _ => if str_eqb op (js "!") then not_shown <$> shown_of x else None
  | EBinary op l r sp =>
      if str_eqb op (js "&&") || str_eqb op (js "||") then
        match shown_of l, shown_of r with
        | Some a, Some b => Some (join_shown op a b)
        | _, _ => None
        end
      else display_comparison source schema facts op l r sp
  | _ => None
  end.

Lemma taskDisplayCondition_shown n : forall k s k',
  taskDisplayCondition source schema facts n k = (Some s, k') -> shown_of n = Some s.
Proof.
  induction n as [[y|y|y|]| | |op x IHx sp|op l IHl r IHr sp|]; intros k s k'; simpl;
    destruct (k - 1 <? 0)%Z; try done.
  - by intros [= <-].
  - destruct (str_eqb op (js "!")); [|done].
    destruct (taskDisplayCondition source schema facts x _) as [[v|] k1] eqn:E; [|done].
    rewrite (IHx _ _ _ E). by intros [= <-].
  - destruct (str_eqb op (js "&&") || str_eqb op (js "||"))%bool; [|by intros [= ->]].
    destruct (taskDisplayCondition source schema facts l _) as [a k1] eqn:El.
    destruct (taskDisplayCondition source schema facts r _) as [b k2] eqn:Er.
    destruct a as [a|], b as [b|]; try done. rewrite (IHl _ _ _ El), (IHr _ _ _ Er).
    by intros [= <-].
Qed.

Hypothesis Hfacts : facts_match.

Lemma compare_fact_truth op key v s :
  op = js "==" \/ op = js "!=" ->
  compare_fact schema facts op key v = Some s ->
  forall x, x = default VNull (prop_get key u) ->
  s = Known (compare_values op x (literal_value v)) /\
  s = Known (compare_values op (literal_value v) x).
Proof.
  intros Hop Hc x ->. unfold compare_fact in Hc.
  destruct (assoc_get str_eqb key facts) as [f|] eqn:Ef; [|done].
  destruct (Hfacts key f Ef) as (Hu & d & Hd & Hin). rewrite Hd in Hc. rewrite Hu. simpl.
  assert (Hcmp : forall y, compare_values op (fact_value f) y =
    (if str_eqb op (js "==") then strict_eqb (fact_value f) y
     else negb (strict_eqb (fact_value f) y)) /\
    compare_values op y (fact_value f) =
    (if str_eqb op (js "==") then strict_eqb y (fact_value f)
     else negb (strict_eqb y (fact_value f)))).
  { intros y. unfold compare_values. by destruct Hop as [-> | ->]. }
  destruct (Hcmp (literal_value v)) as [-> ->].
  unfold field_values in Hin. destruct (uf_type d) as [[|]|].
  2: { destruct v as [| |b|]; try done. injection Hc as <-.
       destruct Hin as [<-|[<-|[]]]; simpl; by destruct b, (str_eqb op (js "==")). }
  all: apply in_map_iff in Hin as (w & <- & Hin).
  all: destruct v as [|y| |]; try done; simpl.
  all: destruct (uf_enum d) as [values|] eqn:Ev; simpl in *; [|done].
  all: rewrite (str_eqb_sym y w).
  all: destruct (str_mem y values) eqn:Ey; simpl in Hc; injection Hc as <-; [done|].
  all: assert (str_eqb w y = false) as -> by
    (apply str_eqb_neq; intros ->; apply not_true_iff_false in Ey; by apply Ey, str_mem_In).
  all: by destruct Hop as [-> | ->].
Qed.
Hypothesis Hparse : parse source = Ok ast.

(** A part of the parsed tree. *)
Definition inside (n : expr) : Prop := forall m, In m (postorder n) -> In m (postorder ast).

Lemma inside_child n x : inside n -> In x (children n) -> inside x.
Proof. intros Hn Hx m Hm. apply Hn. by eapply postorder_child. Qed.

Lemma inside_wf n : inside n -> Forall node_wf (postorder n).
Proof.
  intros Hn. pose proof (parse_ok source) as Hw. rewrite Hparse in Hw.
  destruct Hw as [(_ & Hw & _) _]. rewrite List.Forall_forall in *. auto.
Qed.

(** What is shown for a condition with the truth value [b]. *)
Definition means (s : shown) (b : bool) : Prop :=
  match s with
  | Known x => x = b
  | Shown text => exists ts, lexed text ts /\ balanced ts /\ says ts b
  end.

Lemma means_not s b : means s b -> means (not_shown s) (negb b).
Proof.
  destruct s as [x|text]; simpl; [by intros ->|].
  intros (ts & L & B & S). eexists. split; [by apply lexed_not|]. split; [|by constructor].
  apply (balanced_app [_]); [by apply balanced_single|by apply balanced_paren].
Qed.

Lemma means_join op s1 b1 s2 b2 :
  op = js "&&" \/ op = js "||" -> means s1 b1 -> means s2 b2 ->
  means (join_shown op s1 s2) (if str_eqb op (js "&&") then b1 && b2 else b1 || b2).
Proof.
  intros Hop H1 H2. unfold join_shown.
  destruct s1 as [x1|t1], s2 as [x2|t2]; simpl in H1, H2 |- *.
  - subst. destruct Hop as [-> | ->]; by destruct b1, b2.
  - subst. destruct Hop as [-> | ->]; by destruct b1, b2; simpl.
  - subst. destruct Hop as [-> | ->]; by destruct b2; simpl; rewrite ?andb_true_r, ?andb_false_r,
      ?orb_true_r, ?orb_false_r.
  - destruct H1 as (ts1 & L1 & B1 & S1), H2 as (ts2 & L2 & B2 & S2). eexists.
    split; [by apply lexed_join|]. split; [|by constructor].
    change (open_tok :: ts1 ++ close_tok :: TWord op :: open_tok :: ts2 ++ [close_tok])
      with ((open_tok :: ts1) ++ [close_tok] ++ [TWord op] ++ (open_tok :: ts2 ++ [close_tok])).
    rewrite app_assoc. apply balanced_app; [by apply balanced_paren|].
    apply balanced_app; [|by apply balanced_paren].
    apply balanced_single. by destruct Hop as [-> | ->].
Qed.

Lemma usage_operand l key : usage_name l = Some key -> operand_value t u l = default VNull (prop_get key u).
Proof.
  destruct l as [| |name [|[[|arg| |] i sp| | | | |] more] sp'| | |]; try done. simpl.
  destruct (str_eqb name (js "u")); [|done]. by intros [= ->].
Qed.

Lemma comparison_means op l r sp s :
  inside (EBinary op l r sp) ->
  str_eqb op (js "&&") || str_eqb op (js "||") = false ->
  display_comparison source schema facts op l r sp = Some s ->
  means s (truth (EBinary op l r sp)).
Proof.
  intros Hin Ho Hd. apply orb_false_iff in Ho as [Ho1 Ho2].
  cbn [TaskDisplaySpec.truth]. rewrite Ho1, Ho2. unfold display_comparison in Hd.
  assert (Htimed : (if time_comparison op l r then Some (Shown (slice source (start sp) (end_ sp)))
    else None) = Some s -> means s (compare_values op (operand_value t u l) (operand_value t u r))).
  { destruct (time_comparison op l r) eqn:Ht; [|done]. intros [= <-]. simpl.
    destruct (node_text_lexed source ast (EBinary op l r sp) Hparse) as (ts & L & S & B).
    { apply Hin, postorder_self. }
    exists ts. split; [exact L|]. split; [exact B|].
    pose proof (says_time t u ts (EBinary op l r sp)) as Hs. cbn [TaskDisplaySpec.truth] in Hs.
    rewrite Ho1, Ho2 in Hs. apply Hs; [by exists op, l, r, sp|by apply inside_wf|done]. }
  destruct (str_eqb op (js "==") || str_eqb op (js "!="))%bool eqn:He; [|by apply Htimed].
  assert (Hop : op = js "==" \/ op = js "!=").
  { apply orb_true_iff in He as [He|He]; apply str_eqb_eq in He; auto. }
  destruct (fact_probe l r) as [[key v]|] eqn:Hl.
  { unfold fact_probe in Hl. destruct (usage_name l) as [k|] eqn:Hk; [|done].
    destruct r as [v' i rsp| | | | |]; try done. injection Hl as -> ->.
    rewrite (usage_operand _ _ Hk).
    destruct (compare_fact_truth op key v s Hop Hd _ eq_refl) as [-> _]. done. }
  destruct (fact_probe r l) as [[key v]|] eqn:Hr; [|by apply Htimed].
  unfold fact_probe in Hr. destruct (usage_name r) as [k|] eqn:Hk; [|done].
  destruct l as [v' i lsp| | | | |]; try done. injection Hr as -> ->.
  rewrite (usage_operand _ _ Hk).
  destruct (compare_fact_truth op key v s Hop Hd _ eq_refl) as [_ ->]. done.
Qed.

Lemma shown_means n : forall s, inside n -> shown_of n = Some s -> means s (truth n).
Proof.
  induction n as [[y|y|y|]| | |op x IHx sp|op l IHl r IHr sp|]; intros s Hin; cbn [shown_of]; try done.
  - by intros [= <-].
  - destruct (str_eqb op (js "!")) eqn:Eo; [|done].
    destruct (shown_of x) as [v|]; [|done]. intros [= <-]. cbn [TaskDisplaySpec.truth].
    apply means_not, IHx; [|done]. eapply inside_child; [exact Hin|by left].
  - destruct (str_eqb op (js "&&") || str_eqb op (js "||"))%bool eqn:Eo;
      [|by apply comparison_means].
    destruct (shown_of l) as [a|]; [|done]. destruct (shown_of r) as [b|]; [|done].
    intros [= <-]. cbn [TaskDisplaySpec.truth].
    assert (Hop : op = js "&&" \/ op = js "||").
    { apply orb_true_iff in Eo as [Eo|Eo]; apply str_eqb_eq in Eo; auto. }
    assert (Hl : means a (truth l)) by (apply IHl; [eapply inside_child; [exact Hin|by left]|done]).
    assert (Hr : means b (truth r)) by (apply IHr; [eapply inside_child; [exact Hin|right; by left]|done]).
    pose proof (means_join op a _ b _ Hop Hl Hr) as Hm. by destruct Hop as [-> | ->].
Qed.

(** Conditions with the same text have the same truth value. *)
Lemma shown_text_truth n1 n2 text :
  inside n1 -> inside n2 -> shown_of n1 = Some (Shown text) -> shown_of n2 = Some (Shown text) ->
  truth n1 = truth n2.
Proof.
  intros H1 H2 S1 S2. apply shown_means in S1 as (ts1 & L1 & _ & X1); [|done].
  apply shown_means in S2 as (ts2 & L2 & _ & X2); [|done].
  rewrite (lexed_det _ _ _ L1 L2) in X1. exact (says_functional _ _ _ _ X1 _ X2).
Qed.
End shown.

(** ** Evaluation *)

Section evaluation.
Context `{Host}.
Variable c : compiled.
Variable ctx : context.
Variable hdrs : list (jsstr * jsstr).
Variable t : Z.
Variable u : list (jsstr * jsval).
Hypothesis Hu : usage ctx = Some u.
Abbreviation evaluate := (evaluate c ctx hdrs (Some t)).
Abbreviation evaluateNode := (evaluateNode c ctx hdrs (Some t) evaluate).

(** The clock readings the state holds are those of the instant. *)
Definition coherent (st : rstate) : Prop := forall z v,
  assoc_get str_eqb z (r_times st) = Some v -> timeInBillingZone (Some t) z = Ok v.

Lemma coherent_step : step_rel (Some t) (fun _ => True) (fun st st' => coherent st -> coherent st').
Proof.
  split; try done; [by auto|]. intros st z v Hz Hc z' v'. simpl.
  destruct (str_eqb z' z) eqn:E.
  - apply str_eqb_eq in E as ->. rewrite (assoc_get_set_eq _ str_eqb_eq). by intros [= <-].
  - rewrite (assoc_get_set_ne _ str_eqb_eq) by (by apply str_eqb_neq). apply Hc.
Qed.

Lemma evaluate_coherent e st v st' : evaluate e st = Ok (v, st') -> coherent st -> coherent st'.
Proof.
  intros He. by apply (evaluate_rel c ctx hdrs (Some t) _ _ e coherent_step) with (3 := He).
Qed.

(** States that differ in the depth and the matched rules only. *)
Definition quiet (st st' : rstate) : Prop := r_tier st' = r_tier st /\ r_times st' = r_times st.

Lemma quiet_coherent st st' : quiet st st' -> coherent st -> coherent st'.
Proof. intros [_ Ht] Hc z v. rewrite Ht. apply Hc. Qed.

(** One level of evaluation. *)
Lemma evaluate_node e st v st' :
  evaluate e st = Ok (v, st') ->
  exists st0 st1, quiet st st0 /\ evaluateNode e st0 = Ok (v, st1) /\ quiet st1 st'.
Proof.
  rewrite evaluate_unfold. destruct (256 <? _)%Z; [done|].
  destruct (ExprRuntime.evaluateNode _ _ _ _ _ _ _) as [[v1 st1]|] eqn:En; [|done].
  intros He. destruct (check_value e v1) as [v2|] eqn:Hc; [|done].
  apply check_value_same in Hc as ->. injection He as <- <-. eexists _, _. split; [|split; [exact En|]]; done.
Qed.

Lemma evaluate_binary op l r sp st v st' :
  str_eqb op (js "&&") = false -> str_eqb op (js "||") = false ->
  evaluate (EBinary op l r sp) st = Ok (v, st') ->
  exists st0 vl st1 vr st2, quiet st st0 /\ evaluate l st0 = Ok (vl, st1) /\
    evaluate r st1 = Ok (vr, st2) /\ binary_op op vl vr (EBinary op l r sp) = Ok v /\ quiet st2 st'.
Proof.
  intros H1 H2 (st0 & st1 & Hq & Hn & Hq')%evaluate_node. cbn [ExprRuntime.evaluateNode] in Hn.
  unfold binary in Hn. rewrite H1, H2 in Hn.
  destruct (evaluate l st0) as [[vl sl]|] eqn:El; [|done].
  destruct (evaluate r sl) as [[vr sr]|] eqn:Er; [|done].
  destruct (binary_op _ _ _ _) eqn:Eb; [|done]. injection Hn as <- <-.
  by eexists st0, vl, sl, vr, sr.
Qed.

(** The operands [truth] reads. *)
Definition read_operand (e : expr) : Prop :=
  (exists l i sp, e = ELit l i sp) \/ usage_name e <> None \/ time_operand e = true.

Lemma string_literal s i sp st x st' :
  string_arg evaluate (ELit (LStr s) i sp) st = Ok (x, st') -> x = s /\ quiet st st'.
Proof.
  unfold string_arg. intros Hs. destruct (evaluate _ st) as [[v st1]|] eqn:E; [|done].
  apply evaluate_node in E as (sa & sb & [Q1 Q2] & Hn & [Q3 Q4]). injection Hn as <- <-. simpl in Hs.
  injection Hs as <- <-. split; [done|]. split; congruence.
Qed.

Lemma time_call name a0 more e st :
  is_time_function name = true ->
  call ctx hdrs (Some t) evaluate name (a0 :: more) e st =
  let? (zone, st1) := string_arg evaluate a0 st in eval_time (Some t) name zone st1.
Proof.
  intros Ht. apply str_mem_In in Ht. unfold TIME_FUNCTIONS in Ht.
  repeat (destruct Ht as [<-|Ht]; [reflexivity|]). done.
Qed.

Lemma operand_eval e st v st' :
  read_operand e -> coherent st -> evaluate e st = Ok (v, st') -> rv v = operand_value t u e.
Proof.
  intros [(l & i & sp & ->)|[Hn|Ht]] Hc He.
  - by apply evaluate_literal in He as [-> _].
  - destruct (usage_name e) as [key|] eqn:Ek; [|done]. rewrite (usage_operand _ _ _ _ Ek).
    by eapply usage_eval.
  - destruct e as [[]| |name [|[[|zone| |] i sp| | | | |] more] sp'| | |]; try done.
    { by apply evaluate_literal in He as [-> _]. }
    apply andb_true_iff in Ht as [Ht _].
    apply evaluate_node in He as (st0 & st1 & Hq & He & _).
    pose proof (quiet_coherent _ _ Hq Hc) as Hc0. cbn [ExprRuntime.evaluateNode] in He.
    assert (Hcall : exists sta, string_arg evaluate (ELit (LStr zone) i sp) st0 = Ok (zone, sta) /\
      coherent sta /\ eval_time (Some t) name zone sta = Ok (v, st1)).
    { rewrite time_call in He by done.
      destruct (string_arg evaluate _ st0) as [[z sta]|] eqn:Es; [|done].
      pose proof (string_literal _ _ _ _ _ _ Es) as [-> Hqs].
      exists sta. split; [done|]. split; [by eapply quiet_coherent|exact He]. }
    destruct Hcall as (sta & _ & Hca & Hev). unfold eval_time in Hev. cbn [operand_value].
    assert (str_eqb name (js "u") = false) as ->.
    { apply str_mem_In in Ht. unfold TIME_FUNCTIONS in Ht.
      repeat (destruct Ht as [<-|Ht]; [done|]). done. }
    destruct (assoc_get str_eqb (trim zone) (r_times sta)) as [w|] eqn:Ew.
    + rewrite (Hca _ _ Ew). by injection Hev as <- <-.
    + destruct (timeInBillingZone (Some t) (trim zone)); [|done]. by injection Hev as <- <-.
Qed.
Lemma comparison_value op vl vr e v :
  str_mem op COMPARISON_OPERATORS = true -> binary_op op vl vr e = Ok v ->
  rv v = VBool (compare_values op (rv vl) (rv vr)).
Proof.
  intros Ho Hb. unfold binary_op in Hb. unfold compare_values.
  destruct (str_eqb op (js "==")) eqn:E1; cbn [orb] in Hb.
  { destruct (_ && _ && _); [done|]. by injection Hb as <-. }
  destruct (str_eqb op (js "!=")) eqn:E2; cbn [orb] in Hb.
  { destruct (_ && _ && _); [done|]. by injection Hb as <-. }
  assert (Hplus : str_eqb op (js "+") = false /\
    forall x y, compare_op op (VNum x) (VNum y) <> None).
  { apply str_mem_In in Ho. unfold COMPARISON_OPERATORS in Ho.
    repeat (destruct Ho as [<-|Ho]; [try done; split; done|]). done. }
  destruct Hplus as [Hplus Hnum].
  destruct (rv vl), (rv vr); try done.
  - destruct (compare_op op (VNum x) (VNum x0)) eqn:Ec; [by injection Hb as <-|by destruct (Hnum x x0)].
  - rewrite Hplus in Hb. destruct (compare_op op (VStr s) (VStr s0)); [by injection Hb as <-|done].
Qed.

Lemma operand_calls e :
  read_operand e -> Forall node_wf (postorder e) -> only_calls no_marker e.
Proof.
  intros Hr Hw. rewrite postorder_children in Hw. apply Forall_app in Hw as [_ Hw].
  apply Forall_cons_1 in Hw as [Hw _].
  assert (Hcall : forall name arg i sp more sp',
    node_wf (ECall name (ELit (LStr arg) i sp :: more) sp') ->
    str_mem name (js "u" :: TIME_FUNCTIONS) = true ->
    only_calls no_marker (ECall name (ELit (LStr arg) i sp :: more) sp')).
  { clear. intros name arg i sp more sp' Hw Hn. cbn [node_wf] in Hw.
    apply str_mem_In in Hn. unfold TIME_FUNCTIONS in Hn.
    assert (more = [] /\ no_marker name) as [-> Hm].
    { repeat (destruct Hn as [<-|Hn];
        [split; [by injection Hw; destruct more|by split]|]). done. }
    apply only_calls_node; [by intros ? <-|]. intros x [<-|[]]. by apply only_calls_leaf. }
  destruct Hr as [(l & i & sp & ->)|[Hn|Ht]]; [by apply only_calls_leaf| |].
  - destruct e as [| |name [|[[|arg| |] i sp| | | | |] more] sp'| | |]; try done. cbn [usage_name] in Hn.
    destruct (str_eqb name (js "u")) eqn:E; [|done]. apply Hcall; [done|].
    apply str_eqb_eq in E as ->. done.
  - destruct e as [[]| |name [|[[|arg| |] i sp| | | | |] more] sp'| | |]; try done.
    { by apply only_calls_leaf. }
    apply andb_true_iff in Ht as [Ht _]. apply Hcall; [done|]. unfold str_mem. cbn [existsb].
    fold (str_mem name TIME_FUNCTIONS). unfold is_time_function in Ht. by rewrite Ht, orb_true_r.
Qed.

(** The operands of a shown comparison. *)
Lemma display_operands source schema facts op l r sp s :
  display_comparison source schema facts op l r sp = Some s ->
  read_operand l /\ read_operand r /\ str_mem op COMPARISON_OPERATORS = true.
Proof.
  unfold display_comparison. intros Hd.
  assert (Htimed : (if time_comparison op l r then Some (Shown (slice source (start sp) (end_ sp)))
    else None) = Some s ->
    read_operand l /\ read_operand r /\ str_mem op COMPARISON_OPERATORS = true).
  { destruct (time_comparison op l r) eqn:Ht; [|done]. intros _. unfold time_comparison in Ht.
    apply andb_true_iff in Ht as [[Ho _]%andb_true_iff [Hl Hr]%andb_true_iff].
    split; [by right; right|]. split; [by right; right|done]. }
  destruct (str_eqb op (js "==") || str_eqb op (js "!="))%bool eqn:He; [|by apply Htimed].
  assert (Hop : str_mem op COMPARISON_OPERATORS = true).
  { apply orb_true_iff in He as [He|He]; apply str_eqb_eq in He; by subst op. }
  assert (Hprobe : forall a b key v, fact_probe a b = Some (key, v) -> read_operand a /\ read_operand b).
  { clear. intros a b key v. unfold fact_probe. destruct (usage_name a) eqn:Ea; [|done].
    destruct b; try done. intros _. split; [right; left; by rewrite Ea|left; eauto]. }
  destruct (fact_probe l r) as [[key v]|] eqn:Hl.
  { apply Hprobe in Hl as []. done. }
  destruct (fact_probe r l) as [[key v]|] eqn:Hr; [|by apply Htimed].
  apply Hprobe in Hr as []. done.
Qed.

Lemma shown_calls source schema facts n : forall s,
  shown_of source schema facts n = Some s -> Forall node_wf (postorder n) ->
  only_calls no_marker n.
Proof.
  induction n as [v i sp| | |op x IHx sp|op l IHl r IHr sp|]; intros s; cbn [shown_of]; try done.
  - intros _ _. by apply only_calls_leaf.
  - destruct (str_eqb op (js "!")); [|done]. destruct (shown_of _ _ _ x) as [v|]; [|done].
    cbn [postorder]. rewrite Forall_app. intros _ [Hw _]. apply only_calls_node; [done|].
    intros y [<-|[]]. by eapply IHx.
  - cbn [postorder]. rewrite !Forall_app. intros Hs (Hwl & Hwr & _).
    destruct (str_eqb op (js "&&") || str_eqb op (js "||"))%bool.
    + destruct (shown_of _ _ _ l) as [a|]; [|done]. destruct (shown_of _ _ _ r) as [b|]; [|done].
      apply only_calls_binary; eauto.
    + apply display_operands in Hs as (Hl & Hr & _).
      apply only_calls_binary; by apply operand_calls.
Qed.

(** A shown condition evaluates to its truth value. *)
Lemma condition_eval source schema facts n : forall s st v st',
  shown_of source schema facts n = Some s -> coherent st -> evaluate n st = Ok (v, st') ->
  rv v = VBool (truth t u n).
Proof.
  assert (Hbool : forall n st b st', boolean evaluate n st = Ok (b, st') ->
    (forall v st', evaluate n st = Ok (v, st') -> rv v = VBool (truth t u n)) ->
    b = truth t u n).
  { intros n' st b st' (v & He & Hv)%boolean_inv Hx. apply Hx in He. congruence. }
  induction n as [[y|y|y|] i sp| | |op x IHx sp|op l IHl r IHr sp|]; intros s st v st' Hs Hc He;
    cbn [shown_of] in Hs; try done.
  - by apply evaluate_literal in He as [-> _].
  - destruct (str_eqb op (js "!")) eqn:Eo; [|done].
    destruct (shown_of _ _ _ x) as [w|]; [|done].
    apply evaluate_node in He as (st0 & st1 & Hq & He & _). cbn [ExprRuntime.evaluateNode] in He.
    rewrite Eo in He. destruct (boolean evaluate x st0) as [[b sb]|] eqn:Eb; [|done].
    injection He as <- <-. cbn [rv plain truth]. rewrite (Hbool _ _ _ _ Eb); [done|].
    intros v st2. eapply IHx; [done|by eapply quiet_coherent].
  - destruct (str_eqb op (js "&&")) eqn:Ea; [|destruct (str_eqb op (js "||")) eqn:Eo]; cbn [orb] in Hs.
    3: { apply display_operands in Hs as (Hl & Hr & Hop).
         apply evaluate_binary in He as (st0 & vl & st1 & vr & st2 & Hq & El & Er & Hb & _); [|done|done].
         apply comparison_value in Hb as ->; [|done]. cbn [truth]. rewrite Ea, Eo.
         pose proof (quiet_coherent _ _ Hq Hc) as Hc0.
         pose proof (evaluate_coherent _ _ _ _ El Hc0) as Hc1.
         by rewrite (operand_eval _ _ _ _ Hl Hc0 El), (operand_eval _ _ _ _ Hr Hc1 Er). }
    all: destruct (shown_of _ _ _ l) as [a|]; [|done]; destruct (shown_of _ _ _ r) as [b|]; [|done].
    all: apply evaluate_node in He as (st0 & st1 & Hq & He & _); cbn [ExprRuntime.evaluateNode] in He.
    all: pose proof (quiet_coherent _ _ Hq Hc) as Hc0.
    all: unfold binary in He; rewrite Ea, ?Eo in He; cbn [truth]; rewrite Ea, ?Eo.
    all: destruct (boolean evaluate l st0) as [[x sb]|] eqn:El; [|done].
    all: assert (Hx : x = truth t u l) by (apply (Hbool _ _ _ _ El); intros; eapply IHl; done).
    all: assert (Hcb : coherent sb) by
      (apply boolean_inv in El as (vl & El & _); by eapply evaluate_coherent).
    all: rewrite <- Hx; destruct x; try (by injection He as <- <-).
    all: destruct (boolean evaluate r sb) as [[y sy]|] eqn:Er; [|done]; injection He as <- <-.
    all: cbn [rv plain]; f_equal; apply (Hbool _ _ _ _ Er); intros; eapply IHr; done.
Qed.
End evaluation.

(** ** Maps of time conditions *)

Definition consistent (l : list (jsstr * bool)) : Prop :=
  forall k b b', In (k, b) l -> In (k, b') l -> b = b'.

Lemma assoc_set_In (k : jsstr) (b : bool) l p :
  (forall b', In (k, b') l -> b' = b) ->
  In p (assoc_set str_eqb k b l) <-> p = (k, b) \/ In p l.
Proof.
  induction l as [|[k' b'] l IH]; intros Hc; simpl; [naive_solver|].
  destruct (str_eqb k k') eqn:E; simpl.
  - apply str_eqb_eq in E as ->. rewrite (Hc b') by by left. naive_solver.
  - rewrite IH by (intros; apply Hc; by right). naive_solver.
Qed.

Lemma map_of_In l p : consistent l -> In p (map_of l) <-> In p l.
Proof.
  intros Hc. unfold map_of.
  assert (Hg : forall l acc, consistent (acc ++ l) ->
    In p (fold_left (fun m q => assoc_set str_eqb q.1 q.2 m) l acc) <-> In p (acc ++ l)).
  { clear. induction l as [|[k b] l IH]; intros acc Hc; simpl; [by rewrite app_nil_r|].
    assert (Hs : forall q, In q (assoc_set str_eqb k b acc) <-> q = (k, b) \/ In q acc).
    { intros q. apply assoc_set_In. intros b' Hb. apply (Hc k); [by apply in_app_iff; left|].
      apply in_app_iff. right. by left. }
    assert (Hsub : forall q, In q (assoc_set str_eqb k b acc ++ l) <-> In q (acc ++ (k, b) :: l)).
    { intros q. rewrite !in_app_iff, Hs. simpl. naive_solver. }
    rewrite IH; [apply Hsub|]. intros k' x y Hx Hy. apply Hsub in Hx, Hy. by eapply Hc. }
  apply (Hg l []). exact Hc.
Qed.

Lemma map_of_consistent l : consistent l -> consistent (map_of l).
Proof. intros Hc k b b' H1 H2. rewrite map_of_In in H1, H2 by done. by eapply Hc. Qed.

Lemma forallb_same {A} (p : A -> bool) l l' :
  (forall x, In x l <-> In x l') -> forallb p l = forallb p l'.
Proof.
  intros H. apply eq_true_iff_eq. rewrite !forallb_forall. naive_solver.
Qed.

Lemma conflicts_none times k b :
  consistent times -> conflicts times (k, b) = false <-> forall b', In (k, b') times -> b' = b.
Proof.
  intros Hc. unfold conflicts. simpl. destruct (assoc_get str_eqb k times) as [x|] eqn:E.
  - apply assoc_get_In in E. split.
    + intros Hx%negb_false_iff%eqb_prop b' Hb. subst b. by eapply Hc.
    + intros Hx. rewrite (Hx x E). by rewrite Bool.eqb_reflx.
  - split; [|done]. intros _ b' Hb. exfalso.
    assert (Hn := assoc_get_None k times E). by eapply Hn, in_map_iff; exists (k, b').
Qed.

Lemma consistent_cons k b l :
  consistent l -> conflicts l (k, b) = false -> consistent ((k, b) :: l).
Proof.
  intros Hc Hn. rewrite conflicts_none in Hn by done.
  intros k' x y [[= <- <-]|Hx] [[= <-]|Hy]; [done|symmetry; eauto|subst; eauto|by eapply Hc].
Qed.

Lemma consistent_app a b :
  consistent a -> consistent b -> existsb (conflicts b) a = false -> consistent (a ++ b).
Proof.
  intros Ha Hb Hn. rewrite existsb_false_iff in Hn.
  assert (Hx : forall k x y, In (k, x) a -> In (k, y) b -> y = x).
  { intros k x y H1 H2. specialize (Hn _ H1). rewrite conflicts_none in Hn by done. eauto. }
  intros k x y H1 H2. apply in_app_iff in H1 as [H1|H1], H2 as [H2|H2];
    [by eapply Ha|symmetry; eauto|eauto|by eapply Hb].
Qed.

(** ** Branches *)

Definition branch_ok (b : price_branch) : Prop := consistent (pb_times b).

Section branches.
Variables (source : jsstr) (schema : usage_schema) (facts : facts_of).
(** The truth value of each time condition, by its text. *)
Variable tv : jsstr -> bool.

Definition time_holds (p : jsstr * bool) : bool := Bool.eqb (tv p.1) p.2.
Definition branch_applies (b : price_branch) : bool := forallb time_holds (pb_times b).

Lemma applies_value b k x :
  branch_applies b = true -> In (k, x) (pb_times b) -> tv k = x.
Proof.
  unfold branch_applies. rewrite forallb_forall. intros Ha Hin.
  apply Ha in Hin. by apply eqb_prop in Hin.
Qed.

Lemma with_time_applies text m b :
  branch_ok b -> conflicts (pb_times b) (text, m) = false ->
  branch_applies (with_time text m b) = Bool.eqb (tv text) m && branch_applies b /\
  branch_ok (with_time text m b).
Proof.
  intros Hb Hn. pose proof (consistent_cons _ _ _ Hb Hn) as Hc. split.
  - unfold branch_applies. cbn [with_time pb_times].
    rewrite (forallb_same _ _ ((text, m) :: pb_times b)) by (intros; by apply map_of_In). done.
  - by apply map_of_consistent.
Qed.

Lemma filter_under_time text m children :
  Forall branch_ok children ->
  List.filter branch_applies (under_time text m children) =
  (if Bool.eqb (tv text) m
   then map (with_time text m) (List.filter branch_applies children) else []) /\
  Forall branch_ok (under_time text m children).
Proof.
  unfold under_time. induction 1 as [|b bs Hb _ [IH IHo]]; cbn [List.filter map].
  { by destruct (Bool.eqb _ _). }
  destruct (conflicts (pb_times b) (text, m)) eqn:Ec; cbn [negb map List.filter].
  - split; [|done]. rewrite IH. destruct (Bool.eqb (tv text) m) eqn:Et; [|done].
    destruct (branch_applies b) eqn:Ea; [|done]. exfalso. apply eqb_prop in Et.
    enough (conflicts (pb_times b) (text, m) = false) by congruence.
    apply conflicts_none; [done|]. intros b' Hb'. by rewrite <- (applies_value _ _ _ Ea Hb').
  - destruct (with_time_applies _ _ _ Hb Ec) as [-> Ho]. split; [|by constructor].
    rewrite IH. by destruct (Bool.eqb (tv text) m), (branch_applies b).
Qed.

Lemma combine_applies op a b r :
  branch_ok a -> branch_ok b -> combine op a b = Some r ->
  match r with
  | Some z => branch_applies z = branch_applies a && branch_applies b /\ branch_ok z /\
      pb_label z = match pb_label a with Some l => Some l | None => pb_label b end /\
      (pb_label a = None \/ pb_label b = None)
  | None => branch_applies a && branch_applies b = false
  end.
Proof.
  intros Ha Hb Hc. unfold combine in Hc.
  assert (Hl : pb_label a = None \/ pb_label b = None).
  { destruct (pb_label a), (pb_label b); auto; done. }
  assert (Hc' : (if existsb (conflicts (pb_times b)) (pb_times a) then Some None
    else let! (constant, prices) := combine_prices op a b in
         if negb (all_prices_ok constant prices) then None
         else Some (Some (PriceBranch
           (match pb_label a with Some l => Some l | None => pb_label b end)
           constant prices (map_of (pb_times a ++ pb_times b))))) = Some r).
  { destruct (pb_label a), (pb_label b); done. }
  clear Hc. destruct (existsb _ _) eqn:Ex.
  - injection Hc' as <-. apply not_true_iff_false. intros [H1 H2]%andb_true_iff.
    apply existsb_exists in Ex as ([k x] & Hin & Hx).
    enough (conflicts (pb_times b) (k, x) = false) by congruence.
    apply conflicts_none; [done|]. intros y Hy.
    rewrite <- (applies_value _ _ _ H1 Hin). symmetry. by eapply applies_value.
  - pose proof (consistent_app _ _ Ha Hb Ex) as Hcon.
    destruct (combine_prices op a b) as [[constant prices]|]; [|done].
    destruct (negb _); [done|]. injection Hc' as <-. split_and!; try done.
    + unfold branch_applies. simpl.
      rewrite (forallb_same _ _ (pb_times a ++ pb_times b)) by (intros; by apply map_of_In).
      apply forallb_app.
    + by apply map_of_consistent.
Qed.

Lemma fold_combined op pairs : forall acc out,
  Forall (fun ab => branch_ok ab.1 /\ branch_ok ab.2) pairs -> Forall branch_ok acc ->
  fold_option (push_combined op) pairs acc = Some out ->
  Forall branch_ok out /\
  exists zs, List.filter branch_applies out = List.filter branch_applies acc ++ zs /\
    Forall2 (fun ab z => combine op ab.1 ab.2 = Some (Some z))
      (List.filter (fun ab => branch_applies ab.1 && branch_applies ab.2) pairs) zs.
Proof.
  induction pairs as [|[a b] pairs IH]; intros acc out Hp Hacc; simpl.
  { intros [= <-]. split; [done|]. exists []. rewrite app_nil_r. by split. }
  unfold push_combined at 1. simpl. destruct (combine op a b) as [r|] eqn:Ec; [|done].
  apply Forall_cons_1 in Hp as [[Ha Hb] Hp]. simpl in Ha, Hb.
  pose proof (combine_applies _ _ _ _ Ha Hb Ec) as Hr.
  intros Hf. apply IH in Hf as (Hout & zs & Hz & H2); [|done|].
  - split; [done|]. destruct r as [z|].
    + destruct Hr as (Hz1 & Hz2 & _). rewrite filter_app in Hz. simpl in Hz. rewrite Hz1 in Hz.
      destruct (branch_applies a && branch_applies b).
      * exists (z :: zs). rewrite Hz, <- app_assoc. split; [done|]. by constructor.
      * exists zs. by rewrite Hz, app_nil_r.
    + rewrite app_nil_r in Hz. rewrite Hr. by exists zs.
  - apply Forall_app. split; [done|]. destruct r as [z|]; [|done]. constructor; [by apply Hr|done].
Qed.

Lemma filter_prod {A B} (p : A -> bool) (q : B -> bool) l r :
  List.filter (fun ab => p ab.1 && q ab.2) (list_prod l r) =
  list_prod (List.filter p l) (List.filter q r).
Proof.
  induction l as [|a l IH]; simpl; [done|]. rewrite filter_app, IH.
  assert (Hm : List.filter (fun ab => p ab.1 && q ab.2) (map (fun y => (a, y)) r) =
    if p a then map (fun y => (a, y)) (List.filter q r) else []).
  { clear. induction r as [|b r IH]; simpl; [by destruct (p a)|]. rewrite IH.
    destruct (p a); simpl; [|done]. by destruct (q b). }
  rewrite Hm. by destruct (p a).
Qed.

Lemma filter_label label bs :
  List.filter branch_applies (map (with_label label) bs) =
  map (with_label label) (List.filter branch_applies bs).
Proof. induction bs as [|b bs IH]; simpl; [done|]. rewrite IH.
  change (branch_applies (with_label label b)) with (branch_applies b). by destruct (branch_applies b).
Qed.
End branches.

Lemma Forall_prod {A B} (P : A -> Prop) (Q : B -> Prop) l r :
  Forall P l -> Forall Q r -> Forall (fun ab => P ab.1 /\ Q ab.2) (list_prod l r).
Proof.
  rewrite !List.Forall_forall. intros Hl Hr [a b] [Ha Hb]%in_prod_iff. split; auto.
Qed.

Lemma branches_ok source schema facts n : forall k bs k',
  taskPriceBranches source schema facts n k = (Some bs, k') -> Forall branch_ok bs.
Proof.
  assert (Hone : forall label x ps, Forall branch_ok [PriceBranch label x ps []]).
  { intros. constructor; [by intros ? ? ? []|constructor]. }
  induction n as [n IH] using expr_rect_children. intros k bs k'.
  destruct n as [[y|y|y|] i sp|name sp|name args sp|op x sp|op l r sp|cn y n sp];
    cbn [taskPriceBranches]; destruct (k - 1 <? 0)%Z; try done.
  - destruct (n_geb y n_zero); [|done]. intros [= <- _]. apply Hone.
  - destruct args as [|[[|arg| |] i asp| | | | |] more]; try done.
    destruct (str_eqb name (js "u")).
    { destruct (schema_get schema arg) as [[[[|]|] [unit|] ?]|]; try done.
      destruct (truthy_str unit); [|done]. intros [= <- _]. apply Hone. }
    destruct (str_eqb name (js "tier")); [|done]. destruct more as [|body more]; [done|].
    destruct (taskPriceBranches source schema facts body _) as [[cs|] k1] eqn:E; [|done].
    destruct (existsb is_labelled cs); [done|]. intros [= <- _].
    apply IH in E; [|right; by left]. apply Forall_map. exact E.
  - destruct (negb _); [done|].
    destruct (taskPriceBranches source schema facts l _) as [a k1] eqn:El.
    destruct (taskPriceBranches source schema facts r _) as [b k2] eqn:Er.
    destruct a as [a|], b as [b|]; try done. destruct (Nat.ltb _ _); [done|]. intros [= Hf _].
    apply IH in El; [|by left]. apply IH in Er; [|right; by left].
    by apply (fold_combined (fun _ => true) op _ _ _ (Forall_prod _ _ _ _ El Er)) in Hf as [Ho _].
  - destruct (taskDisplayCondition source schema facts cn _) as [[[[|]|text]|] k1]; [| | |done].
    + apply IH. right; by left.
    + apply IH. do 2 right; by left.
    + destruct (taskPriceBranches source schema facts y k1) as [[a|] k2] eqn:Ey; [|done].
      destruct (taskPriceBranches source schema facts n k2) as [[b|] k3] eqn:En; [|done].
      destruct (Nat.leb _ _); [|done]. intros [= <- _].
      apply IH in Ey; [|right; by left]. apply IH in En; [|do 2 right; by left].
      apply Forall_app. split; by apply (filter_under_time (fun _ => true)).
Qed.

(** ** The row evaluation takes *)

Section selection.
Context `{Host}.
Variable c : compiled.
Variable ctx : context.
Variable hdrs : list (jsstr * jsstr).
Variable t : Z.
Variable u : list (jsstr * jsval).
Hypothesis Hu : usage ctx = Some u.
Variables (source : jsstr) (ast : expr) (schema : usage_schema) (facts : facts_of).
Hypothesis Hparse : parse source = Ok ast.
Hypothesis Hfacts : facts_match u schema facts.
Abbreviation evaluate := (evaluate c ctx hdrs (Some t)).
Abbreviation truth := (truth t u).
Abbreviation coherent := (coherent t).

(** The condition of the expression that is shown by a text. *)
Definition shown_as (text : jsstr) (n : expr) : bool :=
  match shown_of source schema facts n with Some (Shown s) => str_eqb s text | _ => false end.

(** The truth value of the condition a text shows. *)
Definition text_truth (text : jsstr) : bool :=
  match List.find (shown_as text) (postorder ast) with
  | Some n => truth n
  | None => false
  end.
Abbreviation applies := (branch_applies text_truth).

Lemma text_truth_shown n text :
  inside ast n -> shown_of source schema facts n = Some (Shown text) -> text_truth text = truth n.
Proof.
  intros Hin Hs. unfold text_truth.
  assert (Hn : In n (postorder ast)) by (apply Hin, postorder_self).
  destruct (List.find (shown_as text) (postorder ast)) as [m|] eqn:Ef.
  - apply find_some in Ef as [Hm Hs']. unfold shown_as in Hs'.
    destruct (shown_of source schema facts m) as [[|s]|] eqn:Es; try done.
    apply str_eqb_eq in Hs' as ->.
    eapply (shown_text_truth t u source ast schema facts Hfacts Hparse); [|exact Hin|exact Es|exact Hs].
    intros m' Hm'. by eapply postorder_trans.
  - apply (find_none _ _ Ef) in Hn. unfold shown_as in Hn. rewrite Hs, str_eqb_refl in Hn. done.
Qed.

Definition selects (bs : list price_branch) (st st' : rstate) : Prop :=
  exists b, List.filter applies bs = [b] /\ r_tier st' = default (r_tier st) (pb_label b).

Lemma tier_evaluate label i asp body more sp st v st' :
  evaluate (ECall (js "tier") (ELit (LStr label) i asp :: body :: more) sp) st = Ok (v, st') ->
  exists st0 vb stb, quiet st st0 /\ evaluate body st0 = Ok (vb, stb) /\ r_tier st' = label.
Proof.
  intros (st0 & st1 & [Q1 Q2] & Hn & [Q3 _])%evaluate_node. cbn [ExprRuntime.evaluateNode] in Hn.
  unfold call in Hn. change (negb (known_function (js "tier"))) with false in Hn.
  change (str_eqb (js "tier") (js "fixed")) with false in Hn.
  change (str_eqb (js "tier") (js "tier")) with true in Hn. cbv iota in Hn.
  destruct (string_arg evaluate _ st0) as [[s sta]|] eqn:Hs; [|done].
  apply string_literal in Hs as [-> [Q4 Q5]].
  destruct (numeric evaluate body sta) as [[[x ix] stb]|] eqn:Hx; [|done].
  injection Hn as <- <-. apply numeric_inv in Hx as (vx & Hx & _).
  exists sta, vx, stb. split; [split; congruence|]. split; [exact Hx|]. by rewrite Q3.
Qed.

Lemma cond_evaluate cn y n sp st v st' :
  evaluate (ECond cn y n sp) st = Ok (v, st') ->
  exists st0 b st1 st2 st3, quiet st st0 /\ boolean evaluate cn st0 = Ok (b, st1) /\
    quiet st1 st2 /\ evaluate (if b then y else n) st2 = Ok (v, st3) /\ quiet st3 st'.
Proof.
  intros (st0 & st3 & Hq & Hn & Hq')%evaluate_node. cbn [ExprRuntime.evaluateNode] in Hn.
  destruct (boolean _ cn _) as [[b st1]|] eqn:Eb; [|done].
  set (st2 := match rule_index c _ with Some i => _ | None => _ end) in Hn.
  exists st0, b, st1, st2, st3. split; [done|]. split; [exact Eb|].
  split; [subst st2; destruct (rule_index _ _), b; done|]. by destruct b.
Qed.

Lemma selects_shift bs st st1 st2 st' :
  r_tier st1 = r_tier st -> r_tier st' = r_tier st2 -> selects bs st1 st2 -> selects bs st st'.
Proof. intros H1 H2 (b & Hf & Ht). exists b. split; [done|]. congruence. Qed.
(** What [taskPriceBranches] promises of a part of the tree. *)
Definition select_spec (n : expr) : Prop := forall k bs k' st v st',
  inside ast n -> taskPriceBranches source schema facts n k = (Some bs, k') ->
  coherent st -> evaluate n st = Ok (v, st') -> selects bs st st'.

Lemma select_plain n bs st v st' label x ps :
  only_calls no_marker n -> bs = [PriceBranch label x ps []] -> label = None ->
  evaluate n st = Ok (v, st') -> selects bs st st'.
Proof.
  intros Ho -> -> He. apply evaluate_no_marker in He as (Ht & _ & _); [|done].
  by exists (PriceBranch None x ps []).
Qed.

Lemma select_cond cn y n sp :
  select_spec y -> select_spec n -> select_spec (ECond cn y n sp).
Proof.
  intros IHy IHn k bs k' st v st' Hin Hb Hc He.
  assert (Hcn : inside ast cn) by (eapply inside_child; [exact Hin|by left]).
  assert (Hy : inside ast y) by (eapply inside_child; [exact Hin|right; by left]).
  assert (Hn : inside ast n) by (eapply inside_child; [exact Hin|do 2 right; by left]).
  cbn [taskPriceBranches] in Hb. destruct (k - 1 <? 0)%Z; [done|].
  destruct (taskDisplayCondition source schema facts cn _) as [[s|] k1] eqn:Es; [|done].
  apply taskDisplayCondition_shown in Es.
  apply cond_evaluate in He as (st0 & b & st1 & st2 & st3 & Hq0 & Hbool & Hq1 & He & Hq3).
  apply boolean_inv in Hbool as (vb & Hbool & Hvb).
  pose proof (quiet_coherent _ _ _ Hq0 Hc) as Hc0.
  pose proof (evaluate_coherent _ _ _ _ _ _ _ _ Hbool Hc0) as Hc1.
  pose proof (quiet_coherent _ _ _ Hq1 Hc1) as Hc2.
  pose proof (condition_eval c ctx hdrs t u Hu _ _ _ _ _ _ _ _ Es Hc0 Hbool) as Htruth.
  rewrite Htruth in Hvb. injection Hvb as <-.
  pose proof (shown_calls _ _ _ _ _ Es (inside_wf _ _ Hparse _ Hcn)) as Hcalls.
  apply evaluate_no_marker in Hbool as (Ht1 & _ & _); [|done].
  assert (Hfirst : r_tier st2 = r_tier st) by (destruct Hq0, Hq1; congruence).
  assert (Hlast : r_tier st' = r_tier st3) by apply Hq3.
  destruct s as [x|text].
  { pose proof (shown_means t u source ast schema facts Hfacts Hparse cn _ Hcn Es) as Hx.
    simpl in Hx. rewrite <- Hx in He.
    destruct x; (eapply selects_shift; [exact Hfirst|exact Hlast|]);
      [by eapply IHy|by eapply IHn]. }
  destruct (taskPriceBranches source schema facts y k1) as [[ys|] k2] eqn:Ey; [|done].
  destruct (taskPriceBranches source schema facts n k2) as [[ns|] k3] eqn:En; [|done].
  destruct (Nat.leb _ _); [|done]. injection Hb as <- _.
  pose proof (branches_ok _ _ _ _ _ _ _ Ey) as Hoy. pose proof (branches_ok _ _ _ _ _ _ _ En) as Hon.
  assert (Hsub : selects (if truth cn then ys else ns) st2 st3).
  { destruct (truth cn); [by eapply IHy|by eapply IHn]. }
  destruct Hsub as (b & Hf & Htier). exists (with_time text (truth cn) b).
  split; [|cbn [with_time pb_label]; congruence].
  rewrite filter_app. destruct (filter_under_time text_truth text true ys Hoy) as [-> _].
  destruct (filter_under_time text_truth text false ns Hon) as [-> _].
  rewrite (text_truth_shown cn text Hcn Es).
  destruct (truth cn); simpl; rewrite Hf; [by rewrite app_nil_r|done].
Qed.

Lemma select_binary op l r sp : select_spec l -> select_spec r -> select_spec (EBinary op l r sp).
Proof.
  intros IHl IHr k bs k' st v st' Hin Hb Hc He.
  assert (Hl : inside ast l) by (eapply inside_child; [exact Hin|by left]).
  assert (Hr : inside ast r) by (eapply inside_child; [exact Hin|right; by left]).
  cbn [taskPriceBranches] in Hb. destruct (k - 1 <? 0)%Z; [done|].
  destruct (str_mem op [js "+"; js "*"; js "/"]) eqn:Eop; [|done]. cbn [negb] in Hb.
  destruct (taskPriceBranches source schema facts l _) as [x k1] eqn:El.
  destruct (taskPriceBranches source schema facts r _) as [y k2] eqn:Er.
  destruct x as [x|], y as [y|]; try done. destruct (Nat.ltb _ _); [done|].
  injection Hb as Hfold _.
  pose proof (branches_ok _ _ _ _ _ _ _ El) as Hol. pose proof (branches_ok _ _ _ _ _ _ _ Er) as Hor.
  assert (Hop : str_eqb op (js "&&") = false /\ str_eqb op (js "||") = false).
  { apply str_mem_In in Eop. repeat (destruct Eop as [<-|Eop]; [done|]). done. }
  apply evaluate_binary in He as (st0 & vl & st1 & vr & st2 & Hq & Hel & Her & _ & Hq'); [|apply Hop..].
  pose proof (quiet_coherent _ _ _ Hq Hc) as Hc0.
  pose proof (evaluate_coherent _ _ _ _ _ _ _ _ Hel Hc0) as Hc1.
  destruct (IHl _ _ _ _ _ _ Hl El Hc0 Hel) as (a & Ha & Hta).
  destruct (IHr _ _ _ _ _ _ Hr Er Hc1 Her) as (b & Hbb & Htb).
  apply (fold_combined text_truth op _ _ _ (Forall_prod _ _ _ _ Hol Hor)) in Hfold
    as (_ & zs & Hz & H2); [|done].
  rewrite filter_prod, Ha, Hbb in H2. simpl in H2.
  inversion H2 as [|? z ? zs' Hcomb Hnil]; subst. inversion Hnil; subst. simpl in Hcomb.
  exists z. split; [exact Hz|].
  assert (Hoa : branch_ok a).
  { rewrite List.Forall_forall in Hol. apply Hol. apply (filter_In (branch_applies text_truth)). rewrite Ha. by left. }
  assert (Hob : branch_ok b).
  { rewrite List.Forall_forall in Hor. apply Hor. apply (filter_In (branch_applies text_truth)). rewrite Hbb. by left. }
  pose proof (combine_applies text_truth _ _ _ _ Hoa Hob Hcomb) as (_ & _ & -> & Hlab).
  destruct Hq as [Q1 _], Hq' as [Q2 _]. rewrite Q2, Htb, Hta, Q1.
  destruct Hlab as [-> | ->]; by destruct (pb_label _).
Qed.

Lemma branches_select n : select_spec n.
Proof.
  induction n as [n IH] using expr_rect_children.
  destruct n as [[y|y|y|] i sp|name sp|name args sp|op x sp|op l r sp|cn y n sp].
  all: try (apply select_cond; apply IH; simpl; auto).
  all: try (apply select_binary; apply IH; simpl; auto).
  all: intros k bs k' st v st' Hin Hb Hc He; cbn [taskPriceBranches] in Hb;
    destruct (k - 1 <? 0)%Z; try done.
  - destruct (n_geb y n_zero); [|done]. injection Hb as <- _.
    eapply select_plain; [|done|done|exact He]. by apply only_calls_leaf.
  - destruct args as [|[[|arg| |] i asp| | | | |] more]; try done.
    destruct (str_eqb name (js "u")) eqn:Eu.
    { destruct (schema_get schema arg) as [[[[|]|] [unit|] ?]|]; try done.
      destruct (truthy_str unit); [|done]. injection Hb as <- _.
      eapply select_plain; [|done|done|exact He]. apply operand_calls; [|by eapply inside_wf].
      right. left. simpl. by rewrite Eu. }
    destruct (str_eqb name (js "tier")) eqn:Et; [|done]. apply str_eqb_eq in Et as ->.
    destruct more as [|body more]; [done|].
    destruct (taskPriceBranches source schema facts body _) as [[cs|] k1] eqn:E; [|done].
    destruct (existsb is_labelled cs); [done|]. injection Hb as <- _.
    apply tier_evaluate in He as (st0 & vb & stb & Hq & He & Ht).
    destruct (IH body ltac:(simpl; auto) _ _ _ _ _ _ (inside_child _ _ _ Hin ltac:(simpl; auto)) E
      (quiet_coherent _ _ _ Hq Hc) He) as (b & Hf & _).
    exists (with_label arg b). rewrite filter_label, Hf. done.
Qed.
End selection.

(** ** Combinations of facts *)

(** The facts of a combination are declared values of fields that are not
    quantities. *)
Definition facts_declared (schema : usage_schema) (facts : facts_of) : Prop :=
  forall key f, In (key, f) facts ->
  exists d, schema_get schema key = Some d /\ uf_type d <> Some UTnumber /\ In f (field_values d).

(** The facts of a combination are those the task reports. *)
Definition facts_reported (u : list (jsstr * jsval)) (facts : facts_of) : Prop :=
  forall key f, In (key, f) facts -> prop_get key u = Some (fact_value f).

Lemma prop_set_In_inv {V} (k : jsstr) (v : V) l p :
  In p (prop_set k v l) -> p = (k, v) \/ In p l.
Proof.
  induction l as [|[k' v'] l IH]; simpl; [naive_solver|].
  destruct (str_eqb k k') eqn:E; simpl; [apply str_eqb_eq in E as ->; naive_solver|].
  destruct (key_before k k'); simpl; naive_solver.
Qed.

Lemma fold_option_invariant {A B} (P : B -> Prop) (f : B -> A -> option B) l b b' :
  (forall b x b1, P b -> f b x = Some b1 -> P b1) -> P b -> fold_option f l b = Some b' -> P b'.
Proof.
  intros Hf. revert b. induction l as [|x l IH]; intros b Hb; simpl; [by intros [= <-]|].
  destruct (f b x) as [b1|] eqn:E; [|done]. apply IH. by eapply Hf.
Qed.

Section combinations.
Variables (schema : usage_schema) (u : list (jsstr * jsval)).
Hypothesis Hconf : usage_conforms schema u.

Lemma reported_value field d :
  schema_get schema field = Some d -> uf_type d <> Some UTnumber -> field_values d <> [] ->
  exists f, In f (field_values d) /\ prop_get field u = Some (fact_value f).
Proof.
  intros Hd Ht Hne. specialize (Hconf field d Hd). unfold field_values in *.
  destruct (uf_type d) as [[|]|]; [done| |].
  - destruct Hconf as [b Hb]. exists (FBool b). split; [by destruct b; simpl; auto|done].
  - destruct (uf_enum d) as [values|]; [|done]. simpl in *.
    destruct (Hconf values eq_refl) as (s & Hs & Hin). exists (FStr s). split; [by apply in_map|done].
Qed.

Lemma combinations_declared fields combos :
  fold_option (field_combinations schema) fields [[]] = Some combos ->
  Forall (facts_declared schema) combos.
Proof.
  apply fold_option_invariant; [|constructor; [by intros ? ? []|constructor]].
  intros cs field cs' Hcs. unfold field_combinations.
  destruct (schema_get schema field) as [d|] eqn:Hd; [|done].
  assert (Hset : forall facts value, facts_declared schema facts -> In value (field_values d) ->
    uf_type d <> Some UTnumber -> facts_declared schema (prop_set field value facts)).
  { intros facts value Hf Hv Ht key f [[= -> ->]|Hin]%prop_set_In_inv; [by exists d|by apply Hf]. }
  destruct (uf_type d) as [[|]|] eqn:Ht; [by intros [= <-]| |].
  all: destruct (_ || _); [done|]; intros [= <-]; apply List.Forall_forall.
  all: intros x (facts & Hf & Hx)%in_flat_map; apply in_map_iff in Hx as (value & <- & Hv).
  all: rewrite List.Forall_forall in Hcs; apply Hset; [by apply Hcs|done|done].
Qed.

Lemma combinations_reported fields combos :
  fold_option (field_combinations schema) fields [[]] = Some combos ->
  exists facts, In facts combos /\ facts_reported u facts.
Proof.
  apply (fold_option_invariant (fun cs => exists facts, In facts cs /\ facts_reported u facts)).
  2: { exists []. split; [by left|by intros ? ? []]. }
  intros cs field cs' (facts & Hin & Hr). unfold field_combinations.
  destruct (schema_get schema field) as [d|] eqn:Hd; [|done].
  destruct (uf_type d) as [[|]|] eqn:Ht; [intros [= <-]; eauto| |].
  all: destruct (Nat.eqb (length (field_values d)) 0) eqn:He; [done|]; cbn [orb].
  all: destruct (Nat.ltb _ _); [done|]; intros [= <-].
  all: destruct (reported_value field d Hd ltac:(congruence)) as (f & Hf & Hp);
    [by intros E; rewrite E in He|].
  all: exists (prop_set field f facts); split;
    [apply in_flat_map; exists facts; split; [done|apply in_map_iff; eauto]|].
  all: intros key g [[= -> ->]|Hg]%prop_set_In_inv; [done|by apply Hr].
Qed.

(** The displayed conditions of a row hold exactly for the facts reported. *)
Lemma reported_hold facts :
  facts_declared schema facts ->
  facts_hold u (map (fun p => TaskCondition p.1 (string_of_fact p.2)) facts) = true <->
  facts_reported u facts.
Proof.
  intros Hd. unfold facts_hold. rewrite forallb_forall. split.
  - intros Hh key f Hin. destruct (Hd _ _ Hin) as (d & Hs & Ht & Hf).
    assert (Hi : fact_is u (TaskCondition key (string_of_fact f)) = true).
    { apply Hh. apply in_map_iff. by exists (key, f). }
    unfold fact_is in Hi. simpl in Hi. specialize (Hconf key d Hs). unfold field_values in Hf.
    destruct (uf_type d) as [[|]|]; [done| |].
    + destruct Hconf as [b Hb]. rewrite Hb in Hi |- *.
      by destruct Hf as [<-|[<-|[]]]; destruct b.
    + apply in_map_iff in Hf as (s & <- & Hs'). destruct (uf_enum d) as [values|]; [|done].
      destruct (Hconf values eq_refl) as (w & Hw & _). rewrite Hw in Hi |- *.
      apply str_eqb_eq in Hi as ->. done.
  - intros Hr k (p & <- & Hin)%in_map_iff. destruct p as [key f]. unfold fact_is. simpl.
    rewrite (Hr _ _ Hin). destruct f as [s|b]; simpl; apply str_eqb_refl.
Qed.

Lemma reported_match facts :
  facts_declared schema facts -> facts_reported u facts -> facts_match u schema facts.
Proof.
  intros Hd Hr key f Hin%assoc_get_In. split; [by apply Hr|].
  destruct (Hd _ _ Hin) as (d & Hs & _ & Hf). eauto.
Qed.
End combinations.

(** ** The table *)

(** The combination of facts and the branch a row of the table was made of. *)
Abbreviation row_origin := (facts_of * price_branch)%type.

Definition makes_row (schema : usage_schema) (fields : list jsstr) (row : row_origin)
  (tier : task_tier) : Prop :=
  display_row schema fields row.1 row.2 = Some tier.

Lemma collect_rows schema fields facts branches rows :
  collect (display_row schema fields facts) branches = Some rows ->
  Forall2 (makes_row schema fields) (map (pair facts) branches) rows.
Proof.
  revert rows. induction branches as [|b bs IH]; intros rows; simpl; [intros [= <-]; constructor|].
  destruct (display_row schema fields facts b) as [y|] eqn:E; [|done].
  destruct (collect _ bs) as [ys|]; [|done]. intros [= <-]. constructor; [done|by apply IH].
Qed.

(** The rows come from the branches of each combination, in order. *)
Lemma table_rows source schema fields ast combos : forall acc k tiers k',
  length acc <= MAX_DISPLAY_ROWS ->
  fold_option (display_combination source schema fields ast) combos (acc, k) = Some (tiers, k') ->
  exists groups,
    Forall2 (fun facts g => exists k1 k2,
      taskPriceBranches source schema facts ast k1 = (Some g, k2)) combos groups /\
    length tiers <= MAX_DISPLAY_ROWS /\
    exists rows, tiers = acc ++ rows /\
      Forall2 (makes_row schema fields)
        (concat (zip_with (fun facts g => map (pair facts) g) combos groups)) rows.
Proof.
  induction combos as [|facts combos IH]; intros acc k tiers k' Hacc; simpl.
  { intros [= <- <-]. exists []. split; [constructor|]. split; [done|].
    exists []. rewrite app_nil_r. split; [done|constructor]. }
  unfold display_combination at 1. cbn [fst snd].
  destruct (taskPriceBranches source schema facts ast k) as [[g|] k1] eqn:Eg; [|done].
  destruct (Nat.ltb_spec MAX_DISPLAY_ROWS (length acc + length g)) as [|Hlen]; [done|].
  destruct (collect _ g) as [rows|] eqn:Er; [|done]. apply collect_rows in Er.
  intros Hf. apply IH in Hf as (groups & Hg & Hl & rows' & -> & H2).
  - exists (g :: groups). split; [by constructor; eauto|]. split; [done|].
    exists (rows ++ rows'). rewrite app_assoc. split; [done|]. simpl. by apply Forall2_app.
  - rewrite length_app. apply Forall2_length in Er. rewrite length_map in Er. lia.
Qed.

Section table.
Context `{Host}.
Variables (source : jsstr) (schema : usage_schema) (ctx : context).
Variables (t : Z) (u : list (jsstr * jsval)).

(** A row applies to a request when the facts it lists are those reported and its
    time conditions have, at the instant of the request, the outcomes it lists. *)
Definition row_applies (ast : expr) (row : row_origin) (tier : task_tier) : bool :=
  facts_hold u (kt_conditions tier) &&
  branch_applies (text_truth t u source ast schema row.1) row.2.
End table.

Lemma display_row_inv schema fields facts b tier :
  display_row schema fields facts b = Some tier ->
  pb_label b = Some (kt_label tier) /\
  kt_conditions tier = map (fun p => TaskCondition p.1 (string_of_fact p.2)) facts.
Proof.
  unfold display_row. intros Hd. destruct (pb_label b); [|done]. destruct (_ || _); [done|].
  by injection Hd as <-.
Qed.

Lemma in_groups {A B C} (P : A -> B -> Prop) (f : A -> B -> list C) la lb x :
  Forall2 P la lb -> In x (concat (zip_with f la lb)) ->
  exists a b, In a la /\ P a b /\ In x (f a b).
Proof.
  induction 1 as [|a b la lb Hp _ IH]; simpl; [done|].
  intros [Hx|Hx]%in_app_iff; [by eauto 6|]. destruct (IH Hx) as (a' & b' & ? & ? & ?). eauto 6.
Qed.

Lemma groups_in {A B C} (P : A -> B -> Prop) (f : A -> B -> list C) la lb a :
  Forall2 P la lb -> In a la -> exists b, P a b /\ incl (f a b) (concat (zip_with f la lb)).
Proof.
  induction 1 as [|a' b la lb Hp _ IH]; simpl; [done|]. intros [<-|Hin].
  - exists b. split; [done|]. apply incl_appl, incl_refl.
  - destruct (IH Hin) as (b' & Hb & Hi). exists b'. split; [done|]. by apply incl_appr.
Qed.

(** The branch an evaluation takes, for the facts it reads. *)
Lemma evaluated_branch `{Host} source schema ctx t u c v facts k1 g k2 :
  compile_source source = Ready c -> usage ctx = Some u -> context_now ctx = Some t ->
  run_compiled c ctx = Ok v -> facts_match u schema facts ->
  taskPriceBranches source schema facts (c_ast c) k1 = (Some g, k2) ->
  exists b, List.filter (branch_applies (text_truth t u source (c_ast c) schema facts)) g = [b] /\
    matchedTier v = default [] (pb_label b).
Proof.
  intros Hc Hu Ht Hev Hm Hb. unfold run_compiled in Hev.
  destruct (foldM check_token _ tt); [|done]. destruct (runtime_headers ctx) as [hdrs|]; [|done].
  rewrite Ht in Hev.
  destruct (evaluate c ctx hdrs (Some t) (c_ast c) (initial_state c)) as [[w st]|] eqn:Heval; [|done].
  assert (matchedTier v = r_tier st) as -> by (by inv_ok Hev).
  refine (branches_select c ctx hdrs t u Hu source (c_ast c) schema facts
    (compile_source_parse _ _ Hc) Hm (c_ast c) k1 g k2 _ _ _ _ Hb _ Heval).
  - by intros m Hin.
  - by intros z x.
Qed.

(** The table of a source, row by row. *)
Lemma table_inv `{Host} source schema tiers :
  readConditionalTaskPricing source schema = Ok (Some tiers) ->
  exists c fields combos groups,
    compile_source source = Ready c /\ length tiers <= MAX_DISPLAY_ROWS /\
    fold_option (field_combinations schema) fields [[]] = Some combos /\
    Forall2 (fun facts g => exists k1 k2,
      taskPriceBranches source schema facts (c_ast c) k1 = (Some g, k2)) combos groups /\
    Forall2 (makes_row schema fields)
      (concat (zip_with (fun facts g => map (pair facts) g) combos groups)) tiers.
Proof.
  intros Hr. unfold readConditionalTaskPricing in Hr.
  destruct (compile_source source) as [c|]; [|done].
  destruct (visitExpression _ _ _) as [[valid fields]|]; [|done].
  destruct valid; cbn [negb] in Hr; [|done]. injection Hr as Hr.
  destruct (fold_option (field_combinations schema) fields [[]]) as [combos|] eqn:Hcombos; [|done].
  destruct (fold_option (display_combination _ _ _ _) combos _) as [[rows k']|] eqn:Hrows; [|done].
  injection Hr as ->.
  apply table_rows in Hrows as (groups & Hg & Hlen & rows & E & H2); [|simpl; lia].
  simpl in E. subst rows. by exists c, fields, combos, groups.
Qed.

(** C34: the conditional price table of a task is right about which tier a request
    is charged.  For a request whose facts agree with the schema, at any instant,
    some row applies - the facts it lists are those reported and its time
    conditions have the outcomes it lists - and every row that applies carries the
    label of the tier evaluation matches.  The table has at most 128 rows. *)
Theorem conditional_rows_select `{Host} source schema ctx t u tiers v :
  readConditionalTaskPricing source schema = Ok (Some tiers) ->
  usage ctx = Some u -> usage_conforms schema u -> context_now ctx = Some t ->
  evaluateBillingExpression source ctx = Success v ->
  length tiers <= MAX_DISPLAY_ROWS /\
  exists ast fields table,
    parse source = Ok ast /\ Forall2 (makes_row schema fields) table tiers /\
    (exists i row tier, table !! i = Some row /\ tiers !! i = Some tier /\
       row_applies source schema t u ast row tier = true) /\
    (forall i row tier, table !! i = Some row -> tiers !! i = Some tier ->
       row_applies source schema t u ast row tier = true -> kt_label tier = matchedTier v).
Proof.
  intros Hr Hu Hconf Ht Hev.
  apply table_inv in Hr as (c & fields & combos & groups & Hc & Hlen & Hcombos & Hg & H2).
  unfold evaluateBillingExpression in Hev. rewrite Hc in Hev. simpl in Hev.
  destruct (run_compiled c ctx) as [v'|] eqn:Hrun; [|done]. injection Hev as ->.
  split; [done|]. eexists (c_ast c), fields, _.
  split; [by apply compile_source_parse|]. split; [exact H2|].
  pose proof (combinations_declared schema fields combos Hcombos) as Hdecl.
  rewrite List.Forall_forall in Hdecl. split.
  - destruct (combinations_reported schema u Hconf fields combos Hcombos) as (facts & Hin & Hrep).
    destruct (groups_in _ (fun facts g => map (pair facts) g) _ _ _ Hg Hin)
      as (g & (k1 & k2 & Hb) & Hincl).
    destruct (evaluated_branch _ _ _ t u _ v _ k1 g k2 Hc Hu Ht Hrun
      (reported_match schema u facts (Hdecl _ Hin) Hrep) Hb) as (b & Hf & _).
    assert (Hbg : In b g /\ branch_applies (text_truth t u source (c_ast c) schema facts) b = true).
    { apply filter_In. rewrite Hf. by left. }
    destruct Hbg as [Hbg Hba]. specialize (Hincl (facts, b) ltac:(apply in_map_iff; eauto)).
    apply list_elem_of_In, list_elem_of_lookup in Hincl as (i & Hi).
    destruct (Forall2_lookup_l _ _ _ _ _ H2 Hi) as (tier & Htl & Hmk).
    exists i, (facts, b), tier. split; [done|]. split; [done|].
    apply display_row_inv in Hmk as [_ Hcond].
    unfold row_applies. rewrite Hcond. simpl. rewrite Hba, andb_true_r.
    by apply (reported_hold schema u Hconf facts (Hdecl _ Hin)).
  - intros i [facts b] tier Hi Htl [Hfh Hba]%andb_true_iff. simpl in Hba.
    pose proof (Forall2_lookup_lr _ _ _ _ _ _ H2 Hi Htl) as Hmk.
    apply display_row_inv in Hmk as [Hlab Hcond]. simpl in Hlab, Hcond.
    apply list_elem_of_lookup_2, list_elem_of_In in Hi.
    destruct (in_groups _ _ _ _ _ Hg Hi) as (facts' & g & Hin & (k1 & k2 & Hb) & Hx).
    apply in_map_iff in Hx as (b' & [= -> ->] & Hbg). rewrite Hcond in Hfh.
    apply (reported_hold schema u Hconf facts (Hdecl _ Hin)) in Hfh.
    destruct (evaluated_branch _ _ _ t u _ v _ k1 g k2 Hc Hu Ht Hrun
      (reported_match schema u facts (Hdecl _ Hin) Hfh) Hb) as (b0 & Hf & ->).
    assert (Hb0 : In b [b0]) by (rewrite <- Hf; by apply filter_In).
    destruct Hb0 as [->|[]]. by rewrite Hlab.
Qed.

Definition table_source : jsstr :=
  jq "(u('mode') == 'pro' ? tier('pro', u('n') * 2) : hour('UTC') < 6 ? tier('night', u('n')) : tier('day', u('n') * 3)) * (hour('UTC') < 6 ? 0.5 : 1)".

Lemma conditional_rows_select_witness :
  match @readConditionalTaskPricing plain_host table_source task_schema,
        @evaluateBillingExpression plain_host table_source task_ctx with
  | Ok (Some tiers), Success v =>
      map kt_label tiers = [js "pro"; js "pro"; js "night"; js "day"] /\ matchedTier v = js "night" /\
      length tiers <= MAX_DISPLAY_ROWS /\
      exists ast fields table,
        parse table_source = Ok ast /\ Forall2 (makes_row task_schema fields) table tiers /\
        (exists i row tier, table !! i = Some row /\ tiers !! i = Some tier /\
           row_applies (H := plain_host) table_source task_schema 0 task_usage ast row tier = true) /\
        (forall i row tier, table !! i = Some row -> tiers !! i = Some tier ->
           row_applies (H := plain_host) table_source task_schema 0 task_usage ast row tier = true ->
           kt_label tier = matchedTier v)
  | _, _ => False
  end.
Proof.
  destruct (@readConditionalTaskPricing plain_host table_source task_schema) as [[tiers|]|] eqn:Hr;
    [|vm_compute in Hr; discriminate Hr..].
  destruct (@evaluateBillingExpression plain_host table_source task_ctx) as [v|] eqn:He;
    [|vm_compute in He; discriminate He].
  split; [vm_compute in Hr; injection Hr as <-; reflexivity|].
  split; [vm_compute in He; injection He as <-; reflexivity|].
  exact (@conditional_rows_select plain_host table_source task_schema task_ctx 0%Z task_usage tiers v
    Hr eq_refl task_usage_conforms eq_refl He).
Defined.
