(* ===== verification/TaskMatrixDisplay.v ===== *)
(** * The price table of a task model

    Models [lib/task-matrix-display.ts]: the rows shown for a task expression, one per
    combination of enumerated facts or one per tier, with the conditions of the
    fallback written out when they are unique. *)

From S2P Require Import Prelude JsString JsNumber JsValue ExprTypes ExprCompile ExprDisplay BillingExpr TaskExpr TaskDisplay.

(** [names.sort()]: by code units, each name once. *)
Fixpoint insert_name (x : jsstr) (l : list jsstr) : list jsstr :=
  match l with
  | [] => [x]
  | y :: l' => if str_leb y x then y :: insert_name x l' else x :: l
  end.
Definition sort_names (l : list jsstr) : list jsstr := fold_left (fun acc x => insert_name x acc) l [].

(** [\[...new Set(names)\]] *)
Definition unique_names (l : list jsstr) : list jsstr :=
  fold_left (fun acc x => set_add str_eqb x acc) l [].

Section display.
Context `{Host} {Col : Collation}.

Definition getTaskMatrixDisplayTiers (expression : option jsstr) (schema : option usage_schema)
  : result berr (option (list task_tier)) :=
  match schema with
  | None => Ok None
  | Some s =>
      match getTaskEnumFields schema with
      | [] => Ok None
      | _ =>
          let? matrix := tryParseTaskMatrixConfig expression s in
          Ok (let! rows := matrix in
              Some (map (fun row =>
                TaskTier None (taskMatrixRowLabel (mr_combination row))
                  (row_conditions (mr_combination row)) (mr_constant row) (mr_unitPrices row)) rows))
      end
  end.

(** The values a field of a condition can have, or [None] when they are not known. *)
Definition condition_values (schema : usage_schema) (field : jsstr) : option (list jsstr) :=
  let! d := schema_get schema field in
  match (match uf_type d with
         | Some UTboolean => Some [js "false"; js "true"]
         | _ => uf_enum d
         end) with
  | Some (v :: vs) => Some (v :: vs)
  | _ => None
  end.

(** One round of the loop that builds the combinations. *)
Definition extend_conditions (schema : usage_schema) (combinations : list (list task_condition))
  (field : jsstr) : option (list (list task_condition)) :=
  let! values := condition_values schema field in
  if (256 <? length combinations * length values)%nat then None
  else
    Some (flat_map (fun combination =>
            map (fun value => combination ++ [TaskCondition field value]) values) combinations).

(** [tier.conditions.every(condition => combination.some(...))] *)
Definition covers (combination conditions : list task_condition) : bool :=
  forallb (fun condition => existsb (fun value => condition_eqb value condition) combination)
    conditions.

Definition condition_fields (tiers : list task_tier) : list jsstr :=
  sort_names (unique_names (flat_map (fun tier => map kc_field (kt_conditions tier)) tiers)).

Definition with_conditions (conditions : list task_condition) (tier : task_tier) : task_tier :=
  TaskTier (kt_conditionText tier) (kt_label tier) conditions (kt_constant tier) (kt_unitPrices tier).

(** The tiers with the conditions of the fallback, when they are unique. *)
Definition name_fallback (schema : usage_schema) (tiers : list task_tier) : list task_tier :=
  match list.last tiers with
  | None => tiers
  | Some fallback =>
      if (length tiers <? 2)%nat then tiers
      else
        let previous := removelast tiers in
        match fold_option (extend_conditions schema) (condition_fields previous) [[]] with
        | None => tiers
        | Some combinations =>
            let remaining :=
              List.filter (fun combination =>
                negb (existsb (fun tier => covers combination (kt_conditions tier)) previous))
                combinations in
            match remaining with
            | [conditions] => previous ++ [with_conditions conditions fallback]
            | _ => tiers
            end
        end
  end.

Definition readTaskPricingTiers (expression : option jsstr) (schema : option usage_schema)
  : result berr (list task_tier) :=
  let source := default [] expression in
  let? tiers := parseTaskTiersFromExpr source schema true in
  match tiers, schema with
  | [], Some s =>
      if truthy_str source then
        let? (billingExpr, _) := splitBillingExprAndRequestRules source in
        let? rows := readConditionalTaskPricing billingExpr s in
        Ok (default [] rows)
      else Ok []
  | _, None => Ok tiers
  | _, Some s => Ok (name_fallback s tiers)
  end.

(** [Object.keys(prices).filter(field => prices\[field\] > 0)] *)
Definition positive_fields (tier : task_tier) : list jsstr :=
  map fst (List.filter (fun e => n_gtb e.2 n_zero) (kt_unitPrices tier)).

Definition keep_prices (pricedFields : list jsstr) (tier : task_tier) : task_tier :=
  TaskTier (kt_conditionText tier) (kt_label tier) (kt_conditions tier) (kt_constant tier)
    (List.filter (fun e => str_mem e.1 pricedFields) (kt_unitPrices tier)).

Definition drop_free_fields (tiers : list task_tier) : list task_tier :=
  match flat_map positive_fields tiers with
  | [] => tiers
  | pricedFields => map (keep_prices pricedFields) tiers
  end.

Definition getTaskPricingDisplayTiers (expression : option jsstr) (schema : option usage_schema)
  : result berr (list task_tier) :=
  let? tiers := readTaskPricingTiers expression schema in
  Ok (drop_free_fields tiers).
End display.
