(* ===== verification/TaskMatrixDisplaySpec.v ===== *)
(** * Properties of the price table of a task model

    [task_table_selects]: the table shown for a chain of task tiers, with its
    fallback named and its free fields left out, still selects the tier that
    evaluation charges, and its rows exclude each other where the fallback is named.

    [settled_task_row]: which of these rows the log detail marks as the settled one. *)

From S2P Require Import Prelude JsString JsNumber JsValue ExprTypes ExprParser ExprCompile ExprCompileSpec ExprRuntime ExprDisplay ExprDisplaySpec BillingExpr TaskExpr TaskDisplay TaskMatrixDisplay TierMatch.

(** ** Names *)

Lemma insert_name_In x y l : In x (insert_name y l) <-> x = y \/ In x l.
Proof.
  induction l as [|z l IH]; simpl; [intuition congruence|].
  destruct (str_leb z y); simpl; [rewrite IH|]; intuition congruence.
Qed.

Lemma sort_names_In x l : In x (sort_names l) <-> In x l.
Proof.
  unfold sort_names. enough (H : forall acc,
    In x (fold_left (fun acc x => insert_name x acc) l acc) <-> In x l \/ In x acc).
  { rewrite H. simpl. intuition. }
  induction l as [|y l IH]; simpl; intros acc; [intuition|].
  rewrite IH, insert_name_In. intuition congruence.
Qed.

Lemma unique_names_In x l : In x (unique_names l) <-> In x l.
Proof.
  unfold unique_names. enough (H : forall acc,
    In x (fold_left (fun acc x => set_add str_eqb x acc) l acc) <-> In x l \/ In x acc).
  { rewrite H. simpl. intuition. }
  induction l as [|y l IH]; simpl; intros acc; [intuition|].
  rewrite IH, set_add_elem by apply str_eqb_eq. intuition congruence.
Qed.

Lemma condition_fields_In tiers tier c :
  In tier tiers -> In c (kt_conditions tier) -> In (kc_field c) (condition_fields tiers).
Proof.
  intros Ht Hc. unfold condition_fields. apply sort_names_In, unique_names_In, in_flat_map.
  exists tier. split; [done|]. by apply in_map.
Qed.

Lemma existsb_ext_in {A} (p q : A -> bool) l :
  (forall x, In x l -> p x = q x) -> existsb p l = existsb q l.
Proof.
  induction l as [|x l IH]; simpl; intros H; [done|]. rewrite H, IH; auto.
Qed.

(** ** Combinations *)

Section request.
Variable schema : usage_schema.
Variable u : list (jsstr * jsval).
Hypothesis Hconf : usage_conforms schema u.

(** The reported value of a fact, as conditions write it. *)
Definition reported_text (field : jsstr) : option jsstr :=
  match prop_get field u with
  | Some (VStr s) => Some s
  | Some (VBool b) => Some (if b then js "true" else js "false")
  | _ => None
  end.

Lemma fact_is_reported k : fact_is u k = true <-> reported_text (kc_field k) = Some (kc_value k).
Proof.
  unfold fact_is, reported_text.
  destruct (prop_get (kc_field k) u) as [[| |b| |s| |]|]; try done; rewrite str_eqb_eq;
    (split; [by intros -> | by intros [= ->]]).
Qed.

Lemma fact_declared field values :
  condition_values schema field = Some values ->
  exists s, reported_text field = Some s /\ In s values.
Proof.
  unfold condition_values, reported_text. intros Hv.
  destruct (schema_get schema field) as [d|] eqn:Hd; [|done]. specialize (Hconf field d Hd).
  destruct (uf_type d) as [[|]|].
  2:{ destruct Hconf as [b ->]. injection Hv as <-. exists (if b then js "true" else js "false").
      split; [done|]. destruct b; simpl; auto. }
  all: destruct (uf_enum d) as [[|v vs]|]; try done; injection Hv as <-;
    destruct (Hconf (v :: vs) eq_refl) as (s & -> & Hs); eauto.
Qed.

(** The combination the request reports. *)
Definition reported (fields : list jsstr) : list task_condition :=
  map (fun f => TaskCondition f (default [] (reported_text f))) fields.

Lemma extend_fields fields : forall combos combos',
  fold_option (extend_conditions schema) fields combos = Some combos' ->
  (forall field, In field fields -> reported_text field <> None)
  /\ (forall c, In c combos' -> exists b rest, In b combos /\ c = b ++ rest /\ map kc_field rest = fields)
  /\ (forall b, In b combos -> In (b ++ reported fields) combos').
Proof.
  induction fields as [|field fields IH]; simpl; intros combos combos' H.
  { injection H as <-. split; [done|]. split; [intros c Hc|intros b Hb; by rewrite app_nil_r].
    exists c, []. by rewrite app_nil_r. }
  unfold extend_conditions at 1 in H.
  destruct (condition_values schema field) as [values|] eqn:Hv; [|done].
  destruct (_ <? _); [done|]. destruct (fact_declared field values Hv) as (s & Hs & Hin).
  apply IH in H as (Hf & Hall & Hrep). split; [|split].
  - intros f [<-|?]; [by rewrite Hs|auto].
  - intros c (b & rest & Hb & -> & <-)%Hall. apply in_flat_map in Hb as (b0 & Hb0 & Hb).
    apply in_map_iff in Hb as (v & <- & _). exists b0, (TaskCondition field v :: rest).
    by rewrite <- app_assoc.
  - intros b Hb. rewrite Hs. simpl. rewrite (cons_middle _ b).
    rewrite app_assoc. apply Hrep, in_flat_map. exists b. split; [done|].
    apply in_map_iff. eauto.
Qed.

(** Among the combinations of the same fields, the facts satisfy only the reported
    one. *)
Lemma holds_reported fields c :
  (forall field, In field fields -> reported_text field <> None) -> map kc_field c = fields ->
  facts_hold u c = true <-> c = reported fields.
Proof.
  intros Hf <-. induction c as [|[f v] c IH]; simpl; [done|].
  unfold facts_hold in *. simpl in *. rewrite andb_true_iff, fact_is_reported, IH by auto. simpl.
  destruct (reported_text f) eqn:E; [|by destruct (Hf f); auto]. simpl.
  split; [intros [[= <-] Hc]; by f_equal|]. intros [= <- Hc]. done.
Qed.

(** A tier over these fields covers the reported combination when its conditions
    hold. *)
Lemma covers_reported fields conditions :
  (forall field, In field fields -> reported_text field <> None) ->
  (forall c, In c conditions -> In (kc_field c) fields) ->
  covers (reported fields) conditions = facts_hold u conditions.
Proof.
  intros Hf Hc. unfold covers, facts_hold. apply eq_true_iff_eq. rewrite !forallb_forall.
  apply forall_proper. intros c. split; intros H Hin; specialize (H Hin); specialize (Hc c Hin).
  - apply existsb_exists in H as (x & Hx & He). apply in_map_iff in Hx as (f & <- & _).
    unfold condition_eqb in He. apply andb_true_iff in He as [E1 E2].
    apply str_eqb_eq in E1, E2. simpl in *. subst f. apply fact_is_reported.
    specialize (Hf _ Hc). destruct (reported_text (kc_field c)); [|done]. by rewrite <- E2.
  - apply fact_is_reported in H. apply existsb_exists.
    exists (TaskCondition (kc_field c) (default [] (reported_text (kc_field c)))).
    split; [by apply in_map_iff; eauto|]. unfold condition_eqb. rewrite H. simpl.
    by rewrite !(proj2 (str_eqb_eq _ _)).
Qed.

(** ** The fallback *)

(** The only combination the earlier tiers leave is the one reported, exactly when
    none of them applies. *)
Lemma remaining_exact previous combinations conditions :
  fold_option (extend_conditions schema) (condition_fields previous) [[]] = Some combinations ->
  List.filter (fun combination =>
    negb (existsb (fun tier => covers combination (kt_conditions tier)) previous)) combinations
  = [conditions] ->
  facts_hold u conditions = negb (existsb (task_applies u) previous).
Proof.
  intros Hc Hr. destruct (extend_fields _ _ _ Hc) as (Hf & Hall & Hrep).
  specialize (Hrep [] (or_introl eq_refl)). simpl in Hrep.
  assert (Hcov : existsb (fun tier => covers (reported (condition_fields previous)) (kt_conditions tier))
                   previous = existsb (task_applies u) previous).
  { apply existsb_ext_in. intros tier Ht. apply covers_reported; [done|].
    intros c. by apply condition_fields_In. }
  assert (Hin : In conditions combinations).
  { apply (filter_In (fun combination =>
      negb (existsb (fun tier => covers combination (kt_conditions tier)) previous))).
    rewrite Hr. by left. }
  destruct (Hall _ Hin) as (b & rest & [<-|[]] & -> & Hm). simpl in *.
  apply eq_true_iff_eq. rewrite (holds_reported _ _ Hf Hm), <- Hcov. split.
  - intros ->. assert (H : In (reported (condition_fields previous)) [reported (condition_fields previous)])
      by (by left). rewrite <- Hr in H at 1. by apply filter_In in H as [_ ?].
  - intros Hn. assert (H : In (reported (condition_fields previous)) [rest]).
    { rewrite <- Hr. by apply filter_In. } destruct H as [->|[]]. done.
Qed.
End request.

(** The last tier of a chain has no conditions. *)
Lemma chain_last schema ib e : forall tiers all,
  task_chain_loop schema ib e tiers = Some all ->
  exists previous fallback, all = previous ++ [fallback] /\ kt_conditions fallback = [].
Proof.
  assert (Hleaf : forall e tiers all,
    (let! fallback := taskTier e [] schema in Some (tiers ++ [fallback])) = Some all ->
    exists previous fallback, all = previous ++ [fallback] /\ kt_conditions fallback = []).
  { intros e' tiers all H. destruct (taskTier e' [] schema) as [t|] eqn:Et; [|done].
    injection H as <-. exists tiers, t. by erewrite taskTier_conditions by exact Et. }
  induction e as [x i sp|name sp|name args sp|op x IHx sp|op l IHl r IHr sp|cn IHc y IHy n IHn sp];
    intros tiers all H; try (by eapply Hleaf). cbn [task_chain_loop] in H.
  destruct (taskConditions cn schema ib) as [[ks|]|]; [|by eapply IHn|done].
  destruct (shadowed tiers ks); [by eapply IHn|].
  destruct (taskTier y ks schema) as [t|] eqn:Et; [|done].
  destruct ks; [|by eapply IHn]. injection H as <-. exists tiers, t.
  by erewrite taskTier_conditions by exact Et.
Qed.

(** What naming the fallback does to a chain. *)
Lemma name_fallback_cases schema previous fallback u :
  usage_conforms schema u -> kt_conditions fallback = [] ->
  exists conditions,
    name_fallback schema (previous ++ [fallback]) = previous ++ [with_conditions conditions fallback]
    /\ (conditions = [] \/ facts_hold u conditions = negb (existsb (task_applies u) previous)).
Proof.
  intros Hconf Hf. unfold name_fallback. rewrite last_snoc, removelast_last.
  assert (Hsame : previous ++ [fallback] = previous ++ [with_conditions [] fallback]).
  { unfold with_conditions. rewrite <- Hf. by destruct fallback. }
  destruct (_ <? 2); [rewrite Hsame; eauto|].
  destruct (fold_option _ _ _) as [combinations|] eqn:Hc; [|rewrite Hsame; eauto].
  destruct (List.filter _ combinations) as [|conditions [|]] eqn:Hr; rewrite ?Hsame; eauto.
  exists conditions. split; [done|]. right. by eapply remaining_exact.
Qed.

Lemma keep_prices_applies u fields t : task_applies u (keep_prices fields t) = task_applies u t.
Proof. done. Qed.

Lemma find_map {A B} (f : A -> B) (p : B -> bool) l :
  List.find p (map f l) = option_map f (List.find (fun x => p (f x)) l).
Proof. induction l as [|x l IH]; simpl; [done|]. by destruct (p (f x)). Qed.

Lemma existsb_map {A B} (f : A -> B) (p : B -> bool) l :
  existsb p (map f l) = existsb (fun x => p (f x)) l.
Proof. induction l as [|x l IH]; simpl; [done|]. by rewrite IH. Qed.

(** Some tier charges the field. *)
Definition charged (tiers : list task_tier) (field : jsstr) : Prop :=
  exists t price, In t tiers /\ In (field, price) (kt_unitPrices t) /\ n_gtb price n_zero = true.

Lemma charged_positive tiers field : charged tiers field <-> In field (flat_map positive_fields tiers).
Proof.
  rewrite in_flat_map. unfold charged, positive_fields. split.
  - intros (t & price & Ht & Hp & Hg). exists t. split; [done|]. apply in_map_iff.
    exists (field, price). split; [done|]. by apply filter_In.
  - intros (t & Ht & ([f price] & <- & [Hp Hg]%filter_In)%in_map_iff). by exists t, price.
Qed.

(** The prices a row shows of a tier: all of them where nothing is charged, and
    otherwise those of the fields some tier charges, in the order of the tier. *)
Definition shown_prices (tiers : list task_tier) (prices shown : list (jsstr * num)) : Prop :=
  sublist shown prices
  /\ forall entry, In entry shown <->
       In entry prices /\ ((exists field, charged tiers field) -> charged tiers entry.1).

Lemma filter_sublist {A} (p : A -> bool) l : sublist (List.filter p l) l.
Proof. induction l as [|x l IH]; simpl; [done|]. destruct (p x); by constructor. Qed.

(** Leaving out free fields changes prices only. *)
Lemma drop_free_fields_eq tiers :
  exists f : task_tier -> task_tier, drop_free_fields tiers = map f tiers
    /\ (forall t, kt_label (f t) = kt_label t /\ kt_conditions (f t) = kt_conditions t
          /\ kt_constant (f t) = kt_constant t /\ kt_conditionText (f t) = kt_conditionText t
          /\ shown_prices tiers (kt_unitPrices t) (kt_unitPrices (f t))).
Proof.
  unfold drop_free_fields, shown_prices. setoid_rewrite charged_positive.
  destruct (flat_map positive_fields tiers) as [|x xs].
  { exists (fun t => t). rewrite map_id. split; [done|]. intros t. repeat split; try done; [naive_solver..|].
    by intros [? _]. }
  exists (keep_prices (x :: xs)). split; [done|]. intros t. repeat split; simpl; [apply filter_sublist|..].
  - by apply filter_In in H as [? _].
  - intros _. apply filter_In in H as [_ H]. by apply (str_mem_In _ (x :: xs)) in H.
  - intros [Hp Hc]. apply filter_In. split; [done|]. apply (str_mem_In _ (x :: xs)), Hc. exists x. by left.
Qed.

(** The chain of a compiled expression selects as evaluation does. *)
Lemma chain_selects `{Host} source schema ctx u c v tiers :
  compile_source source = Ready c -> readTaskTierChain (c_ast c) schema true = Some tiers ->
  usage ctx = Some u -> usage_conforms schema u -> fields_declared schema (c_ast c) ->
  evaluateBillingExpression source ctx = Success v ->
  exists t, List.find (task_applies u) tiers = Some t /\ matchedTier v = kt_label t.
Proof.
  intros Hc Hr Hu Hconf Hd Hev. unfold evaluateBillingExpression in Hev. rewrite Hc in Hev.
  simpl in Hev. destruct (run_compiled c ctx) as [v'|] eqn:Hrun; [|done]. injection Hev as ->.
  unfold run_compiled in Hrun. destruct (foldM check_token _ tt); [|done].
  destruct (runtime_headers ctx) as [hdrs|]; [|done].
  destruct (evaluate c ctx hdrs _ (c_ast c) (initial_state c)) as [[w st]|] eqn:He; [|done].
  assert (matchedTier v = r_tier st) as -> by (by inv_ok Hrun).
  by eapply task_loop_eval.
Qed.

Lemma find_app_hit {A} (p : A -> bool) l1 l2 x :
  List.find p l1 = Some x -> List.find p (l1 ++ l2) = Some x.
Proof. induction l1 as [|y l1 IH]; simpl; [done|]. by destruct (p y). Qed.

(** Naming the fallback of a chain keeps the selection, and makes its rows exclude
    each other. *)
Lemma named_selects schema tiers u t :
  (exists previous fallback, tiers = previous ++ [fallback] /\ kt_conditions fallback = []) ->
  usage_conforms schema u -> List.find (task_applies u) tiers = Some t ->
  (exists t', List.find (task_applies u) (name_fallback schema tiers) = Some t'
     /\ kt_label t' = kt_label t)
  /\ (forall t', list.last (name_fallback schema tiers) = Some t' -> kt_conditions t' <> [] ->
        task_applies u t' = negb (existsb (task_applies u) (removelast (name_fallback schema tiers)))).
Proof.
  intros (previous & fallback & -> & Hf) Hconf Ht.
  destruct (name_fallback_cases schema previous fallback u Hconf Hf) as (conditions & -> & Hx).
  split.
  - destruct (existsb (task_applies u) previous) eqn:He.
    + assert (Hp : exists t0, List.find (task_applies u) previous = Some t0).
      { destruct (List.find (task_applies u) previous) eqn:E; [eauto|].
        apply existsb_exists in He as (x & Hin & Hx'). by rewrite (find_none _ _ E x Hin) in Hx'. }
      destruct Hp as (t0 & Hp). erewrite find_app_hit in Ht |- * by exact Hp. simplify_eq. eauto.
    + rewrite find_app_skip in Ht by done. rewrite find_app_skip by done.
      unfold task_applies in Ht at 1. simpl in Ht. rewrite Hf in Ht. simpl in Ht. injection Ht as <-.
      exists (with_conditions conditions fallback). split; [|done]. apply find_here.
      unfold task_applies. simpl. destruct Hx as [->| ->]; done.
  - intros t'. rewrite last_snoc, removelast_last. intros [= <-]. simpl. intros Hn.
    destruct Hx as [->|Hx]; [done|exact Hx].
Qed.

(** ** The table *)

(** The rows of a table against the tiers they show: same order, labels and constants,
    and the prices of the tiers without the fields that are free in every tier. *)
Definition shows (tiers shown : list task_tier) : Prop :=
  Forall2 (fun t t' => kt_label t' = kt_label t /\ kt_constant t' = kt_constant t
    /\ shown_prices tiers (kt_unitPrices t) (kt_unitPrices t')) tiers shown.

Lemma removelast_map {A B} (f : A -> B) l : removelast (map f l) = map f (removelast l).
Proof.
  induction l as [|x [|y l] IH]; [done|done|]. change (f x :: removelast (map f (y :: l)) =
    map f (x :: removelast (y :: l))). by rewrite IH.
Qed.

Lemma drop_free_selects u tiers t :
  List.find (task_applies u) tiers = Some t ->
  (exists t', List.find (task_applies u) (drop_free_fields tiers) = Some t'
     /\ kt_label t' = kt_label t)
  /\ (forall t', list.last (drop_free_fields tiers) = Some t' ->
        exists t0, list.last tiers = Some t0 /\ kt_conditions t' = kt_conditions t0)
  /\ existsb (task_applies u) (removelast (drop_free_fields tiers))
     = existsb (task_applies u) (removelast tiers).
Proof.
  intros Ht. unfold drop_free_fields.
  destruct (flat_map positive_fields tiers) as [|x xs].
  { split; [by exists t|]. split; [|done]. intros t' Ht'. by exists t'. }
  generalize (x :: xs). intros fields. rewrite find_map, removelast_map, existsb_map.
  split; [exists (keep_prices fields t)|split; [|done]].
  - split; [|done]. change (fun x0 => task_applies u (keep_prices fields x0)) with (task_applies u).
    by rewrite Ht.
  - intros t'. rewrite fmap_last. destruct (list.last tiers) as [t0|]; [|done].
    intros [= <-]. eauto.
Qed.

Lemma named_shows schema previous fallback u :
  usage_conforms schema u -> kt_conditions fallback = [] ->
  Forall2 (fun t t' => kt_label t' = kt_label t /\ kt_constant t' = kt_constant t
             /\ kt_unitPrices t' = kt_unitPrices t)
    (previous ++ [fallback]) (name_fallback schema (previous ++ [fallback])).
Proof.
  intros Hconf Hf. destruct (name_fallback_cases schema previous fallback u Hconf Hf) as (cs & -> & _).
  apply Forall2_app; [|by repeat constructor]. by apply Forall_Forall2_diag, Forall_true.
Qed.

Lemma same_prices_charged tiers named :
  Forall2 (fun t t' => kt_label t' = kt_label t /\ kt_constant t' = kt_constant t
             /\ kt_unitPrices t' = kt_unitPrices t) tiers named ->
  forall field, charged named field <-> charged tiers field.
Proof.
  intros H2 field. rewrite !charged_positive. unfold positive_fields.
  induction H2 as [|t t' tiers named (_ & _ & E) _ IH]; simpl; [done|]. by rewrite !in_app_iff, E, IH.
Qed.

Lemma drop_free_shows tiers named :
  Forall2 (fun t t' => kt_label t' = kt_label t /\ kt_constant t' = kt_constant t
             /\ kt_unitPrices t' = kt_unitPrices t) tiers named ->
  shows tiers (drop_free_fields named).
Proof.
  intros H2. destruct (drop_free_fields_eq named) as (f & -> & Hf). unfold shows.
  apply Forall2_fmap_r. eapply Forall2_impl; [|exact H2]. intros t t' (Hl & Hk & E). cbn beta.
  unfold compose. destruct (Hf t') as (-> & _ & -> & _ & [Hs Hp]). rewrite E in Hs, Hp. split_and!; [done..|].
  split; [done|]. intros entry. rewrite Hp. by setoid_rewrite (same_prices_charged tiers named H2).
Qed.

(** A table of a chain of tiers is made of the chain. *)
Lemma chain_of_table `{Host} expression schema billingExpr rules tiers shown :
  splitBillingExprAndRequestRules expression = Ok (billingExpr, rules) ->
  parseTaskTiersFromExpr expression (Some schema) true = Ok tiers -> tiers <> [] ->
  getTaskPricingDisplayTiers (Some expression) (Some schema) = Ok shown ->
  exists c, compile_source billingExpr = Ready c /\ readTaskTierChain (c_ast c) schema true = Some tiers
    /\ shown = drop_free_fields (name_fallback schema tiers).
Proof.
  intros Hs Ht Hn Hg.
  unfold getTaskPricingDisplayTiers, readTaskPricingTiers in Hg.
  change (default [] (Some expression)) with expression in Hg. rewrite Ht in Hg.
  unfold parseTaskTiersFromExpr in Ht. rewrite Hs in Ht.
  destruct schema as [|f0 schema']; [by simplify_eq|]. set (schema := f0 :: schema') in *.
  destruct (negb (truthy_str expression)); [by simplify_eq|].
  destruct (compile_source billingExpr) as [c|] eqn:Hc; [|by simplify_eq].
  destruct (readTaskTierChain (c_ast c) schema true) as [chain|] eqn:Hr; [|by simplify_eq].
  simpl in Ht. injection Ht as ->. exists c. split_and!; [done..|]. by destruct tiers; simplify_eq.
Qed.

(** ** Reported facts of conditions *)

Section known.
Variable schema : usage_schema.
Variable u : list (jsstr * jsval).
Hypothesis Hconf : usage_conforms schema u.








End known.

(** C39: the price table shown for a task expression that is a chain of tiers is
    exact.  It shows the constants and prices of the tiers, leaving out exactly the fields
    that are free in every tier, and none when nothing is charged; for a request whose facts agree with the schema, the
    first row whose conditions hold carries the tier evaluation matches; and where
    the conditions of the fallback are written out, they hold exactly when no other
    row applies. *)
Theorem task_table_selects `{Host} expression schema ctx u billingExpr rules ast tiers shown v :
  splitBillingExprAndRequestRules expression = Ok (billingExpr, rules) ->
  parse billingExpr = Ok ast -> fields_declared schema ast ->
  parseTaskTiersFromExpr expression (Some schema) true = Ok tiers -> tiers <> [] ->
  getTaskPricingDisplayTiers (Some expression) (Some schema) = Ok shown ->
  usage ctx = Some u -> usage_conforms schema u ->
  evaluateBillingExpression billingExpr ctx = Success v ->
  shows tiers shown
  /\ (exists t, List.find (task_applies u) shown = Some t /\ kt_label t = matchedTier v)
  /\ (forall t, list.last shown = Some t -> kt_conditions t <> [] ->
        task_applies u t = negb (existsb (task_applies u) (removelast shown))).
Proof.
  intros Hs Hp Hd Ht Hn Hg Hu Hconf Hev.
  destruct (chain_of_table _ _ _ _ _ _ Hs Ht Hn Hg) as (c & Hc & Hr & ->).
  assert (ast = c_ast c) as -> by (apply compile_source_parse in Hc; congruence).
  destruct (chain_selects _ _ _ _ _ _ _ Hc Hr Hu Hconf Hd Hev) as (t & Hfind & ->).
  apply chain_last in Hr as Hl.
  destruct (named_selects schema tiers u t Hl Hconf Hfind) as [(t1 & Hf1 & Hl1) Hx1].
  destruct (drop_free_selects u _ t1 Hf1) as ((t2 & Hf2 & Hl2) & Hlast & Hex).
  destruct Hl as (previous & fallback & -> & Hfb). split; [|split].
  - apply drop_free_shows. by eapply named_shows.
  - exists t2. split; [done|]. congruence.
  - intros t' Ht' Hne. destruct (Hlast t' Ht') as (t0 & H0 & Ec). rewrite Hex.
    unfold task_applies. rewrite Ec in Hne |- *. by apply Hx1.
Qed.


Lemma table_fields_declared ast : parse task_source = Ok ast -> fields_declared task_schema ast.
Proof.
  intros Hp. vm_compute in Hp. injection Hp as <-. intros n field Hn Hu. vm_compute in Hn.
  repeat (destruct Hn as [<-|Hn]; [try discriminate Hu; injection Hu as <-; discriminate|]).
  destruct Hn.
Qed.

(** The fallback [std] is shown under the condition that the mode is [std]. *)
Lemma task_table_selects_witness :
  match parse task_source, @parseTaskTiersFromExpr plain_host task_source (Some task_schema) true,
        @getTaskPricingDisplayTiers plain_host (Some task_source) (Some task_schema),
        @evaluateBillingExpression plain_host task_source task_ctx with
  | Ok _, Ok tiers, Ok shown, Success v =>
      map kt_conditions shown
      = [[TaskCondition (js "mode") (js "pro")]; [TaskCondition (js "mode") (js "std")]]
      /\ matchedTier v = js "std" /\ shows tiers shown
      /\ (exists t, List.find (task_applies task_usage) shown = Some t /\ kt_label t = matchedTier v)
      /\ (forall t, list.last shown = Some t -> kt_conditions t <> [] ->
            task_applies task_usage t
            = negb (existsb (task_applies task_usage) (removelast shown)))
  | _, _, _, _ => False
  end.
Proof.
  destruct (parse task_source) as [ast|] eqn:Hp; [|vm_compute in Hp; discriminate Hp].
  destruct (@parseTaskTiersFromExpr plain_host task_source (Some task_schema) true)
    as [tiers|] eqn:Ht; [|vm_compute in Ht; discriminate Ht].
  destruct (@getTaskPricingDisplayTiers plain_host (Some task_source) (Some task_schema))
    as [shown|] eqn:Hg; [|vm_compute in Hg; discriminate Hg].
  destruct (@evaluateBillingExpression plain_host task_source task_ctx) as [v|] eqn:He;
    [|vm_compute in He; discriminate He].
  split; [vm_compute in Hg; injection Hg as <-; reflexivity|].
  split; [vm_compute in He; injection He as <-; reflexivity|].
  apply (@task_table_selects plain_host task_source task_schema task_ctx task_usage task_source []
    ast tiers shown v); try assumption; try reflexivity.
  - exact (table_fields_declared ast Hp).
  - vm_compute in Ht. injection Ht as <-. discriminate.
  - exact task_usage_conforms.
Defined.


(** Where rows share a label, the facts tell the settled one. *)
Definition shared_source : jsstr :=
  jq "u('mode') == 'pro' ? tier('base', u('n') * 2) : tier('base', u('n') * 1)".

Lemma shared_label_marked :
  match @getTaskPricingDisplayTiers plain_host (Some shared_source) (Some task_schema) with
  | Ok shown =>
      map (fun t => @isBreakdownTierMatched plain_host (TaskRow t) (map TaskRow shown) (Some (js "base"))
        (Some task_usage) (Some Utoken) None) shown = [false; true]
  | Err _ => False
  end.
Proof. vm_compute. reflexivity. Qed.
