(* ===== verification/TaskPriceText.v ===== *)
(** * Texts of the task price table

    Models [lib/localized-text.ts] and [pricing/lib/task-price-display.ts]: the texts of a
    usage schema in a language, the conditions of a row in words, and which message
    stands for a table that cannot be shown. *)

From S2P Require Import Prelude JsString JsNumber JsValue ExprTypes ExprCompile ExprDisplay BillingExpr ConditionDisplay TaskExpr TaskMatrixDisplay.

(** [s.replaceAll('_', '-')] *)
Definition hyphenate (s : jsstr) : jsstr := map (fun c => if N.eqb c (ch "_") then ch "-" else c) s.

(** The part before the first hyphen, when there is one. *)
Fixpoint primary_subtag (s : jsstr) : option jsstr :=
  match s with
  | [] => None
  | c :: s' => if N.eqb c (ch "-") then Some [] else cons c <$> primary_subtag s'
  end.

Section texts.
Context `{Host} {Col : Collation}.

Definition normalize_tag (tag : jsstr) : jsstr := to_lower (hyphenate (trim tag)).

Definition add_tag (tag : jsstr) (keys : list jsstr) : list jsstr :=
  if truthy_str tag && negb (str_mem tag keys) then keys ++ [tag] else keys.

Definition localeFallbackKeys (language : jsstr) : list jsstr :=
  let normalized := normalize_tag language in
  let keys := add_tag normalized [] in
  let keys := if str_eqb normalized (js "zhcn") then add_tag (js "zh-cn") keys else keys in
  let keys := if str_eqb normalized (js "zhtw") then add_tag (js "zh-tw") keys else keys in
  let keys :=
    match primary_subtag normalized with
    | Some tag => add_tag tag keys
    | None =>
        if str_eqb normalized (js "zhcn") || str_eqb normalized (js "zhtw")
        then add_tag (js "zh") keys else keys
    end in
  add_tag (js "en") keys.

(** The texts by normalised tag; blank texts and tags are left out. *)
Definition locale_texts (entries : list (jsstr * jsstr)) : list (jsstr * jsstr) :=
  fold_left (fun texts entry =>
    if negb (truthy_str (trim entry.2)) then texts
    else
      let locale := normalize_tag entry.1 in
      if truthy_str locale then assoc_set str_eqb locale entry.2 texts else texts) entries [].

(** The text of the first candidate that has one. *)
Fixpoint first_text (candidates : list jsstr) (texts : list (jsstr * jsstr)) : option jsstr :=
  match candidates with
  | [] => None
  | c :: cs =>
      match assoc_get str_eqb c texts with Some s => Some s | None => first_text cs texts end
  end.

Definition resolveLocalizedText (value : option localized_text) (language : jsstr) : jsstr :=
  match value with
  | None => []
  | Some (PlainText s) => s
  | Some (TextPerLanguage entries) =>
      let texts := locale_texts entries in
      match first_text (localeFallbackKeys language) texts with
      | Some s => s
      | None => match sort_fields texts with (_, s) :: _ => s | [] => [] end
      end
  end.

(** [a || b] on strings. *)
Definition str_or (a b : jsstr) : jsstr := if truthy_str a then a else b.

Definition taskPriceLabel (description : option localized_text) (field language : jsstr) : jsstr :=
  let localized :=
    match description with
    | Some (TextPerLanguage texts) =>
        let en := str_or (trim (default [] (assoc_get str_eqb (js "en") texts))) field in
        Some (TextPerLanguage (assoc_set str_eqb (js "en") en texts))
    | _ => description
    end in
  str_or (resolveLocalizedText localized language) field.

Definition taskEnumLabel (definition : option usage_field) (value language : jsstr) : jsstr :=
  taskPriceLabel (let! d := definition in assoc_get str_eqb value (uf_enumLabels d)) value language.

Definition taskUsageUnitLabel (unit : option jsstr) (unitLabel : option localized_text)
  (language fallback : jsstr) : jsstr :=
  match unit with
  | Some u =>
      if str_eqb u (js "count") then str_or (resolveLocalizedText unitLabel language) fallback
      else fallback
  | None => fallback
  end.

(** The separator of conditions. *)
Definition MIDDLE_DOT : jsstr := [32; 183; 32]%N.
End texts.

Section conditions.
Context `{Host} {Col : Collation} {Loc : Locale}.

(** One condition of a row in words. *)
Definition condition_words (schema : option usage_schema) (language : jsstr) (c : task_condition)
  : jsstr :=
  let definition := let! s := schema in schema_get s (kc_field c) in
  let label := taskPriceLabel (let! d := definition in uf_description d) (kc_field c) language in
  match (let! d := definition in uf_type d) with
  | Some UTboolean =>
      label ++ js ": " ++ (if str_eqb (kc_value c) (js "true") then t_ (js "Yes") [] else t_ (js "No") [])
  | _ =>
      let optionLabel := taskEnumLabel definition (kc_value c) language in
      if str_eqb optionLabel (kc_value c) then label ++ js ": " ++ optionLabel else optionLabel
  end.

Definition taskPricingConditions (conditions : list task_condition) (schema : option usage_schema)
  (language : jsstr) : jsstr :=
  join MIDDLE_DOT (map (condition_words schema language) conditions).

Definition taskTierConditions (tier : task_tier) (schema : option usage_schema) (language : jsstr)
  : jsstr :=
  let usage := taskPricingConditions (kt_conditions tier) schema language in
  let time :=
    match kt_conditionText tier with
    | Some text =>
        if truthy_str text then default text (formatBillingCondition text language) else []
    | None => []
    end in
  join MIDDLE_DOT (List.filter truthy_str [usage; time]).

(** Whether a call of [u] names a fact the schema does not declare. *)
Definition undeclared_usage (schema : option usage_schema) (missing : bool) (node : expr) : bool :=
  match node with
  | ECall name args _ =>
      if str_eqb name (js "u") then
        match schema, args with
        | Some s, ELit (LStr key) _ _ :: _ => missing || negb (assoc_mem str_eqb key s)
        | _, _ => true
        end
      else missing
  | _ => missing
  end.

Definition METADATA_KEY : jsstr :=
  js "Task usage metadata is unavailable. Pricing details cannot be displayed.".
Definition EXPANSION_KEY : jsstr :=
  js "This expression cannot be expanded into a price table. View the original expression below.".

Definition pricingDisplayFallbackKey (expression : jsstr) (schema : option usage_schema)
  : result berr jsstr :=
  match compile_source expression with
  | NotReady _ => Ok EXPANSION_KEY
  | Ready c =>
      let? missing :=
        visitExpression (c_ast c) (fun missing node => Ok (undeclared_usage schema missing node)) false in
      Ok (if missing : bool then METADATA_KEY else EXPANSION_KEY)
  end.
End conditions.

(** ** Properties *)

Section properties.
Context `{Host} {Col : Collation}.

(** Every text kept is one of the given texts, and not blank. *)
Lemma locale_texts_given entries key text :
  assoc_get str_eqb key (locale_texts entries) = Some text ->
  truthy_str (trim text) = true /\ In text (map snd entries).
Proof.
  unfold locale_texts. set (keep := fun texts entry => _).
  enough (Hg : forall texts,
    (forall k s, assoc_get str_eqb k texts = Some s ->
       truthy_str (trim s) = true /\ In s (map snd entries)) ->
    forall l, incl l entries -> forall k s, assoc_get str_eqb k (fold_left keep l texts) = Some s ->
       truthy_str (trim s) = true /\ In s (map snd entries)).
  { apply (Hg []); [done|apply incl_refl]. }
  intros texts Ht l. revert texts Ht. induction l as [|[k0 s0] l IH]; simpl; [auto|].
  intros texts Ht Hl. apply IH; [|by apply incl_cons_inv in Hl as [_ ?]]. intros k s. unfold keep. simpl.
  destruct (truthy_str (trim s0)) eqn:Es; simpl; [|apply Ht].
  destruct (truthy_str (normalize_tag k0)); [|apply Ht].
  destruct (str_eqb k (normalize_tag k0)) eqn:Ek.
  - apply str_eqb_eq in Ek as ->. rewrite assoc_get_set_eq by apply str_eqb_eq.
    intros [= <-]. split; [done|]. apply in_map_iff. exists (k0, s0). split; [done|]. apply Hl. by left.
  - rewrite assoc_get_set_ne; [apply Ht|apply str_eqb_eq|]. intros ->.
    by rewrite (proj2 (str_eqb_eq _ _)) in Ek.
Qed.

Lemma first_text_given candidates texts s :
  first_text candidates texts = Some s -> exists c, In c candidates /\ assoc_get str_eqb c texts = Some s.
Proof.
  induction candidates as [|c cs IH]; simpl; [done|].
  destruct (assoc_get str_eqb c texts) eqn:E.
  - intros [= <-]. exists c. auto.
  - intros Hf. destruct (IH Hf) as (c' & ? & ?). eauto.
Qed.

Lemma add_tag_head tag key keys : head keys = Some key -> head (add_tag tag keys) = Some key.
Proof. unfold add_tag. destruct (_ && _), keys; done. Qed.

(** A text in the language of the reader wins over every other. *)
Lemma resolve_own_language entries language s :
  truthy_str (normalize_tag language) = true ->
  assoc_get str_eqb (normalize_tag language) (locale_texts entries) = Some s ->
  resolveLocalizedText (Some (TextPerLanguage entries)) language = s.
Proof.
  intros Ht Hs.
  assert (Hhd : head (localeFallbackKeys language) = Some (normalize_tag language)).
  { unfold localeFallbackKeys. apply add_tag_head.
    destruct (primary_subtag _); [apply add_tag_head|destruct (_ || _); [apply add_tag_head|]].
    all: destruct (str_eqb _ (js "zhtw")); [apply add_tag_head|].
    all: destruct (str_eqb _ (js "zhcn")); [apply add_tag_head|].
    all: unfold add_tag; by rewrite Ht. }
  unfold resolveLocalizedText. destruct (localeFallbackKeys language) as [|k ks]; [done|].
  injection Hhd as ->. simpl. by rewrite Hs.
Qed.
End properties.
