(* ===== verification/Currency.v ===== *)
(** * Amounts in the display currency

    Models [lib/currency.ts] with the currency part of [stores/system-config-store.ts]: the
    settings of the administrator, the conversion of an amount in USD, and the choice
    of digits.  [Intl.NumberFormat] is a parameter. *)

From S2P Require Import Prelude JsString JsNumber JsValue.

Local Open Scope Z_scope.

(** ** [toFixed] *)

(** The integer nearest to [p / q], the larger of two. *)
Definition round_ratio (p q : Z) : Z := (2 * p + q) / (2 * q).

(** The digits of [n] with [f] of them after the point. *)
Definition fixed_text (n : Z) (f : Z) : jsstr :=
  let ds := digits_of_Z n in
  let k := Z.of_nat (length ds) in
  let ds := if k <=? f then zeros (f + 1 - k) ++ ds else ds in
  let whole := Z.to_nat (Z.of_nat (length ds) - f) in
  if f =? 0 then ds else take whole ds ++ ch "." :: drop whole ds.

(** [x.toFixed(f)] *)
Definition to_fixed (f : Z) (x : num) : jsstr :=
  match x with
  | SpecFloat.S754_zero _ => fixed_text 0 f
  | SpecFloat.S754_finite s m e =>
      let '(p, q) := ratio m e in
      if 10 ^ 21 * q <=? p then string_of_number x
      else (if s then js "-" else []) ++ fixed_text (round_ratio (p * 10 ^ f) q) f
  | _ => string_of_number x
  end.

(** ** Settings *)

Inductive display_type : Type := DisplayUSD | DisplayCNY | DisplayTOKENS | DisplayCUSTOM.

Record currency_config := CurrencyConfig {
  displayInCurrency : bool;
  quotaDisplayType : display_type;
  quotaPerUnit : num;
  usdExchangeRate : num;
  customCurrencySymbol : jsstr;
  customCurrencyExchangeRate : num;
}.

Definition DEFAULT_CURRENCY_CONFIG : currency_config :=
  CurrencyConfig true DisplayUSD (n_of_Z 500000) (n_of_Z 1) [164%N] (n_of_Z 1).

Definition DISPLAY_TYPE_VALUES : list (jsstr * display_type) :=
  [(js "USD", DisplayUSD); (js "CNY", DisplayCNY); (js "TOKENS", DisplayTOKENS);
   (js "CUSTOM", DisplayCUSTOM)].

Definition parseCurrencyDisplayType (value : jsval) (fallback : display_type) : display_type :=
  match value with
  | VStr s => default fallback (assoc_get str_eqb s DISPLAY_TYPE_VALUES)
  | _ => fallback
  end.

(** [rate && rate > 0 ? rate : fallback] *)
Definition positive_or (rate fallback : num) : num := if n_gtb rate n_zero then rate else fallback.

(** [config?.currency], with every rate and the symbol made usable. *)
Definition getConfig (currency : option currency_config) : currency_config :=
  let c := default DEFAULT_CURRENCY_CONFIG currency in
  let symbol := trim (customCurrencySymbol c) in
  CurrencyConfig (displayInCurrency c) (quotaDisplayType c)
    (positive_or (quotaPerUnit c) (quotaPerUnit DEFAULT_CURRENCY_CONFIG))
    (positive_or (usdExchangeRate c) (usdExchangeRate DEFAULT_CURRENCY_CONFIG))
    (if truthy_str symbol then symbol else customCurrencySymbol DEFAULT_CURRENCY_CONFIG)
    (positive_or (customCurrencyExchangeRate c) (customCurrencyExchangeRate DEFAULT_CURRENCY_CONFIG)).

Inductive display_meta : Type :=
| MetaCurrency (symbol currencyCode : jsstr) (exchangeRate : num)
| MetaCustom (symbol : jsstr) (exchangeRate : num)
| MetaTokens (quotaPerUnit : num).

Definition USD_META : display_meta := MetaCurrency (js "$") (js "USD") (n_of_Z 1).

Definition getDisplayMeta (config : currency_config) : display_meta :=
  match quotaDisplayType config with
  | DisplayCNY => MetaCurrency [165%N] (js "CNY") (usdExchangeRate config)
  | DisplayCUSTOM => MetaCustom (customCurrencySymbol config) (customCurrencyExchangeRate config)
  | DisplayTOKENS => MetaTokens (quotaPerUnit config)
  | DisplayUSD => USD_META
  end.

Definition getBillingDisplayMeta (config : currency_config) : display_meta :=
  match getDisplayMeta config with
  | MetaTokens _ => USD_META
  | meta => meta
  end.

(** ** Formats *)

Record currency_options := CurrencyOptions {
  digitsLarge : option Z;
  digitsSmall : option Z;
  abbreviate : option bool;
  minimumNonZero : option num;
  compact : option bool;
  showSymbol : option bool;
  locale : option jsstr;
}.

Definition no_options : currency_options := CurrencyOptions None None None None None None None.

Record resolved_options := ResolvedOptions {
  o_digitsLarge : Z;
  o_digitsSmall : Z;
  o_abbreviate : bool;
  o_minimumNonZero : num;
  o_compact : bool;
  o_showSymbol : bool;
  o_locale : option jsstr;
}.

Definition DEFAULT_FORMAT_OPTIONS : resolved_options :=
  ResolvedOptions 2 4 true n_zero false true None.

Definition mergeOptions (options : currency_options) : resolved_options :=
  ResolvedOptions (default 2 (digitsLarge options)) (default 4 (digitsSmall options))
    (default true (abbreviate options)) (default n_zero (minimumNonZero options))
    (default false (compact options)) (default true (showSymbol options)) (locale options).

(** The options of [Intl.NumberFormat] the code uses; the currency is formatted with
    its narrow symbol. *)
Record intl_options := IntlOptions {
  i_currency : option jsstr;
  i_compact : bool;
  i_minimumFractionDigits : option Z;
  i_maximumFractionDigits : Z;
}.

(** [number_format locale options x] is [new Intl.NumberFormat(locale, options).format(x)];
    [pow10 n] is [Math.pow(10, n)]. *)
Class NumberFormat := {
  number_format : option jsstr -> intl_options -> num -> jsstr;
  pow10 : Z -> num;
}.

Definition getFractionDigits (value : num) (large small : Z) : Z :=
  if n_geb (n_abs value) (n_of_Z 1) then large else small.

Definition getCurrencyFractionDigits (value : num) (options : currency_options) : Z :=
  let merged := mergeOptions options in
  getFractionDigits value (o_digitsLarge merged) (o_digitsSmall merged).

Fixpoint skip_zeros (s : jsstr) : jsstr :=
  match s with
  | c :: s' => if N.eqb c (ch "0") then skip_zeros s' else s
  | [] => []
  end.

(** Drop the zeros at the end of a fraction, and a point that is left last. *)
Fixpoint strip_fraction (s : jsstr) : jsstr :=
  match s with
  | [] => []
  | c :: s' =>
      if N.eqb c (ch ".") && forallb is_digit s' then
        match rev (skip_zeros (rev s')) with
        | [] => []
        | fraction => c :: fraction
        end
      else c :: strip_fraction s'
  end.

Definition removeTrailingZeros (str : jsstr) : jsstr := strip_fraction str.

Definition formatNumberWithSuffix (value : num) (large small : Z) (abbreviate : bool) : jsstr :=
  if abbreviate && n_geb (n_abs value) (n_of_Z 1000)
  then removeTrailingZeros (to_fixed 1 (n_div value (n_of_Z 1000))) ++ js "k"
  else removeTrailingZeros (to_fixed (getFractionDigits value large small) value).

Section format.
Context {Fmt : NumberFormat}.

Definition adjustForMinimum (value : num) (digits : Z) (minimumNonZero : num) : num :=
  if n_eqb value n_zero then value
  else
    let threshold := if n_gtb minimumNonZero n_zero then minimumNonZero else pow10 (- digits) in
    if n_gtb (n_abs value) n_zero && n_ltb (n_abs value) threshold
    then if n_gtb value n_zero then threshold else n_neg threshold
    else value.

(** [notation] and the digits of the three formats. *)
Definition decimal_format (currency : option jsstr) (options : resolved_options) (digits : Z)
  : intl_options :=
  IntlOptions currency (o_compact options) (Some 0) (if o_compact options then 1 else digits).

Definition compact_format : intl_options := IntlOptions None true None 1.

Definition formatCurrencyValue (value : num) (options : resolved_options) (meta : display_meta)
  : jsstr :=
  let digits := getFractionDigits value (o_digitsLarge options) (o_digitsSmall options) in
  let adjustedValue := adjustForMinimum value digits (o_minimumNonZero options) in
  match meta with
  | MetaTokens _ =>
      if o_compact options then number_format (o_locale options) compact_format value
      else formatNumberWithSuffix value (o_digitsLarge options) (o_digitsSmall options)
             (o_abbreviate options)
  | MetaCurrency _ code _ =>
      if o_showSymbol options
      then number_format (o_locale options) (decimal_format (Some code) options digits) adjustedValue
      else number_format (o_locale options) (decimal_format None options digits) adjustedValue
  | MetaCustom symbol _ =>
      let decimal :=
        number_format (o_locale options) (decimal_format None options digits) adjustedValue in
      if o_showSymbol options then symbol ++ js " " ++ decimal else decimal
  end.

(** [amount == null || Number.isNaN(amount)] shows a dash. *)
Definition formatCurrencyFromUSD (currency : option currency_config) (amountUSD : option num)
  (options : currency_options) : jsstr :=
  match amountUSD with
  | None => js "-"
  | Some amount =>
      if is_nan amount then js "-"
      else
        let config := getConfig currency in
        let merged := mergeOptions options in
        match getDisplayMeta config with
        | MetaTokens _ =>
            let tokens := n_mul amount (quotaPerUnit config) in
            if o_compact merged then number_format (o_locale merged) compact_format tokens
            else formatNumberWithSuffix tokens 0 (o_digitsSmall merged) (o_abbreviate merged)
        | MetaCurrency _ _ rate as meta => formatCurrencyValue (n_mul amount rate) merged meta
        | MetaCustom _ rate as meta => formatCurrencyValue (n_mul amount rate) merged meta
        end
  end.

Definition formatBillingCurrencyFromUSD (currency : option currency_config) (amountUSD : option num)
  (options : currency_options) : jsstr :=
  match amountUSD with
  | None => js "-"
  | Some amount =>
      if is_nan amount then js "-"
      else
        let meta := getBillingDisplayMeta (getConfig currency) in
        let value :=
          match meta with
          | MetaCurrency _ _ rate | MetaCustom _ rate => n_mul amount rate
          | MetaTokens _ => amount
          end in
        formatCurrencyValue value (mergeOptions options) meta
  end.

Definition formatQuotaWithCurrency (currency : option currency_config) (quota : option num)
  (options : currency_options) : jsstr :=
  match quota with
  | None => js "-"
  | Some q =>
      if is_nan q then js "-"
      else formatCurrencyFromUSD currency (Some (n_div q (quotaPerUnit (getConfig currency)))) options
  end.

Definition formatLocalCurrencyAmount (currency : option currency_config) (amount : option num)
  (options : currency_options) : jsstr :=
  match amount with
  | None => js "-"
  | Some a =>
      if is_nan a then js "-"
      else
        formatCurrencyValue a (mergeOptions options) (getBillingDisplayMeta (getConfig currency))
  end.
End format.

Definition getCurrencyLabel (currency : option currency_config) : jsstr :=
  match getDisplayMeta (getConfig currency) with
  | MetaTokens _ => js "Tokens"
  | MetaCustom symbol _ => symbol
  | MetaCurrency _ code _ => code
  end.

Definition isCurrencyDisplayEnabled (currency : option currency_config) : bool :=
  match getDisplayMeta (getConfig currency) with MetaTokens _ => false | _ => true end.

(** ** Properties *)

Example to_fixed_half : to_fixed 2 (number_of_string (js "1.005")) = js "1.00".
Proof. vm_compute. reflexivity. Qed.
Example to_fixed_small : to_fixed 4 (number_of_string (js "-0.00002")) = js "-0.0000".
Proof. vm_compute. reflexivity. Qed.
Example strip_price : removeTrailingZeros (js "12.3400") = js "12.34".
Proof. reflexivity. Qed.

Lemma positive_or_gt rate fallback :
  n_gtb fallback n_zero = true -> n_gtb (positive_or rate fallback) n_zero = true.
Proof. intros Hf. unfold positive_or. by destruct (n_gtb rate n_zero) eqn:E. Qed.

(** The rates and the symbol in use are positive and not blank, whatever is
    configured: no conversion divides by zero or changes the sign of an amount. *)
Lemma getConfig_usable currency :
  n_gtb (quotaPerUnit (getConfig currency)) n_zero = true
  /\ n_gtb (usdExchangeRate (getConfig currency)) n_zero = true
  /\ n_gtb (customCurrencyExchangeRate (getConfig currency)) n_zero = true
  /\ truthy_str (customCurrencySymbol (getConfig currency)) = true.
Proof.
  unfold getConfig. simpl. repeat split; try (by apply positive_or_gt).
  by destruct (truthy_str (trim _)) eqn:E.
Qed.

(** Prices are never shown in tokens. *)
Lemma billing_meta_currency config : forall q, getBillingDisplayMeta config <> MetaTokens q.
Proof. intros q. unfold getBillingDisplayMeta, getDisplayMeta. by destruct (quotaDisplayType config). Qed.

(** A price that is not zero is not shown as zero: what is formatted is at least the
    smallest amount the digits can show. *)
Lemma adjust_not_below {Fmt : NumberFormat} value digits :
  n_gtb value n_zero = true -> n_gtb (pow10 (- digits)) n_zero = true ->
  n_gtb (adjustForMinimum value digits n_zero) n_zero = true
  /\ n_ltb (adjustForMinimum value digits n_zero) (pow10 (- digits)) = false.
Proof.
  intros Hv Hp. unfold adjustForMinimum.
  assert (Ha : n_abs value = value) by (by destruct value as [[]|[]| |[]]).
  assert (Hz : n_eqb value n_zero = false) by (by destruct value as [[]|[]| |[]]).
  rewrite Hz, Ha, Hv. simpl. destruct (n_ltb value (pow10 (- digits))) eqn:E; [|done].
  split; [done|]. unfold n_ltb, SpecFloat.SFltb. destruct (pow10 (- digits)) as [s|s| |s m e]; simpl; try done.
  - by destruct s.
  - destruct s; simpl; rewrite Z.compare_refl, Pos.compare_refl; done.
Qed.
