(* ===== verification/PricingModel.v ===== *)
(** * Models of the price catalogue

    Models the types of [pricing/types.ts] that the library reads, and
    [pricing/lib/model-helpers.ts], [plugin-pricing.ts] and [price.ts]: group ratios, provider
    variants, and the prices of models billed by ratio or per request. *)

From S2P Require Import Prelude JsString JsNumber JsRegex JsValue ExprTypes ExprCompile ExprDisplay TaskExpr Currency.

(** ** Data *)

Record plugin_variant := PluginVariant {
  pv_plugin_key : jsstr;
  pv_billing_expr : jsstr;
  pv_billing_mode : option jsstr;
  pv_billing_usage_schema : usage_schema;
  pv_billing_usage_examples : option (list usage_example);
}.

Record original_price := OriginalPrice {
  op_input : option num;
  op_output : option num;
  op_cache_read : option num;
  op_cache_write : option num;
}.

(** [PricingModel]; the ratios that may be null or missing are options. *)
Record pricing_model := PricingModel {
  billing_plugin_variants : list plugin_variant;
  model_name : jsstr;
  description : option jsstr;
  vendor_name : option jsstr;
  quota_type : num;
  model_ratio : num;
  original_model_price : option original_price;
  completion_ratio : num;
  model_price : option num;
  cache_ratio : option num;
  create_cache_ratio : option num;
  image_ratio : option num;
  audio_ratio : option num;
  audio_completion_ratio : option num;
  enable_groups : list jsstr;
  tags : option jsstr;
  supported_endpoint_types : option (list jsstr);
  group_ratio : list (jsstr * num);
  billing_mode : option jsstr;
  billing_expr : option jsstr;
  billing_usage_schema : option usage_schema;
  billing_usage_examples : option (list usage_example);
}.

Definition FILTER_ALL : jsstr := js "all".
Definition EXCLUDED_GROUPS : list jsstr := [[]; js "auto"].
Definition TOKEN : num := n_of_Z 0.
Definition REQUEST : num := n_of_Z 1.

Inductive token_unit : Type := UnitM | UnitK.
Definition TOKEN_UNIT_DIVISORS (u : token_unit) : num :=
  match u with UnitM => n_of_Z 1 | UnitK => n_of_Z 1000 end.

(** ** Helpers *)

Definition getAvailableGroups {A} (model : pricing_model) (usableGroup : list (jsstr * A))
  : list jsstr :=
  List.filter (fun g => str_mem g (enable_groups model))
    (List.filter (fun g => negb (str_mem g EXCLUDED_GROUPS)) (map fst usableGroup)).

Definition getConfiguredGroupRatio (groupRatio : list (jsstr * num)) (group : jsstr) : num :=
  match assoc_get str_eqb group groupRatio with
  | Some ratio => if is_finite ratio then ratio else n_of_Z 1
  | None => n_of_Z 1
  end.

(** One round of the loop that looks for the best ratio. *)
Definition best_ratio (groupRatio : list (jsstr * num)) (minRatio : num) (group : jsstr) : num :=
  match assoc_get str_eqb group groupRatio with
  | Some ratio => if is_finite ratio && n_ltb ratio minRatio then ratio else minRatio
  | None => minRatio
  end.

Definition getDisplayGroupRatio (model : pricing_model) (selectedGroup : option jsstr) : num :=
  match (let! g := selectedGroup in
         if truthy_str g && negb (str_eqb g FILTER_ALL) && str_mem g (enable_groups model)
         then Some g else None) with
  | Some g => getConfiguredGroupRatio (group_ratio model) g
  | None =>
      match enable_groups model with
      | [] => n_of_Z 1
      | groups =>
          match fold_left (best_ratio (group_ratio model)) groups (SpecFloat.S754_infinity false) with
          | SpecFloat.S754_infinity false => n_of_Z 1
          | ratio => ratio
          end
      end
  end.

(** [path.replaceAll('{model}', modelName)] *)
Definition replaceModelInPath (path modelName : jsstr) : jsstr :=
  replace_all (RLit "{model}") modelName path.

Definition isTokenBasedModel (model : pricing_model) : bool := n_eqb (quota_type model) TOKEN.

(** ** Provider variants *)

(** The position of the first [::]. *)
Fixpoint find_separator (key : jsstr) : option nat :=
  match key with
  | [] => None
  | c :: key' =>
      match key' with
      | d :: _ => if N.eqb c (ch ":") && N.eqb d (ch ":") then Some 0 else S <$> find_separator key'
      | [] => None
      end
  end.

Definition is_plugin_start (c : N) : bool := is_digit c || (N.leb 97 c && N.leb c 122).
Definition is_plugin_char (c : N) : bool :=
  is_plugin_start c || N.eqb c (ch "_") || N.eqb c (ch "-").

(** [/^\[a-z0-9\]\[a-z0-9_-\]{0,29}$/] *)
Definition is_plugin_key (s : jsstr) : bool :=
  match s with
  | [] => false
  | c :: s' => is_plugin_start c && forallb is_plugin_char s' && (length s' <=? 29)
  end.

Definition splitPluginBillingExprKey (key : jsstr) : option (jsstr * jsstr) :=
  match find_separator key with
  | None | Some 0 => None
  | Some separator =>
      let plugin := take separator key in
      let model := drop (separator + 2) key in
      if negb (is_plugin_key plugin) || negb (truthy_str (trim model)) then None
      else Some (plugin, model)
  end.

(** The visitor of [taskExpressionCompatible]. *)
Definition declared_usage (schema : usage_schema) (compatible : bool) (node : expr) : bool :=
  match node with
  | ECall name (ELit (LStr key) _ _ :: _) _ =>
      if str_eqb name (js "u") && negb (assoc_mem str_eqb key schema) then false else compatible
  | _ => compatible
  end.

(** [None] where the code answers [undefined]. *)
Definition taskExpressionCompatible `{Host} (expression : jsstr) (schema : usage_schema)
  : result berr (option bool) :=
  if negb (truthy_str (trim expression)) then Ok (Some false)
  else
    match compile_source expression with
    | NotReady _ => Ok None
    | Ready c =>
        let? compatible :=
          visitExpression (c_ast c) (fun acc node => Ok (declared_usage schema acc node))
            (negb (str_mem (js "fixed") (c_functions c))) in
        Ok (Some compatible)
    end.

Definition is_ratio_mode (mode : option jsstr) : bool :=
  match mode with Some s => str_eqb s (js "ratio") | None => false end.

Definition withPluginPricing (model : pricing_model) (variant : plugin_variant) : pricing_model :=
  PricingModel [] (model_name model) (description model) (vendor_name model)
    (if is_ratio_mode (pv_billing_mode variant) then quota_type model else n_of_Z 0)
    (model_ratio model) (original_model_price model) (completion_ratio model) (model_price model)
    (cache_ratio model) (create_cache_ratio model) (image_ratio model) (audio_ratio model)
    (audio_completion_ratio model) (enable_groups model) (tags model)
    (supported_endpoint_types model) (group_ratio model)
    (Some (default (js "tiered_expr") (pv_billing_mode variant)))
    (Some (pv_billing_expr variant)) (Some (pv_billing_usage_schema variant))
    (pv_billing_usage_examples variant).

Definition pluginExpressionsEqual (left_ right_ : list (jsstr * jsstr)) : bool :=
  Nat.eqb (length left_) (length right_) &&
  forallb (fun e =>
    match assoc_get str_eqb e.1 right_ with Some v => str_eqb e.2 v | None => false end) left_.

Definition pluginUsageSchema (model : option pricing_model) (pluginKey : option jsstr)
  : option usage_schema :=
  let! m := model in
  match List.find (fun v =>
          match pluginKey with Some k => str_eqb (pv_plugin_key v) k | None => false end)
          (billing_plugin_variants m) with
  | Some variant => Some (pv_billing_usage_schema variant)
  | None => billing_usage_schema m
  end.

(** ** Prices by ratio *)

Inductive price_type : Type :=
| Pinput | Poutput | Pcache | Pcreate_cache | Pimage | Paudio_input | Paudio_output.

(** [hasRatio(ratio) ? base * Number(ratio) : NaN] *)
Definition ratio_price (base : num) (ratio : option num) : num :=
  match ratio with
  | Some x => if is_finite x then n_mul base x else SpecFloat.S754_nan
  | None => SpecFloat.S754_nan
  end.

Definition calculateTokenPrice (model : pricing_model) (type : price_type) (ratio : num) : num :=
  let base := n_mul (n_mul (model_ratio model) (n_of_Z 2)) ratio in
  match type with
  | Pinput => base
  | Poutput => n_mul base (completion_ratio model)
  | Pcache => ratio_price base (cache_ratio model)
  | Pcreate_cache => ratio_price base (create_cache_ratio model)
  | Pimage => ratio_price base (image_ratio model)
  | Paudio_input => ratio_price base (audio_ratio model)
  | Paudio_output =>
      match audio_ratio model, audio_completion_ratio model with
      | Some x, Some y =>
          if is_finite x && is_finite y then n_mul (n_mul base x) y else SpecFloat.S754_nan
      | _, _ => SpecFloat.S754_nan
      end
  end.

Definition getOriginalPrice (model : pricing_model) (type : price_type) : option num :=
  let! original := original_model_price model in
  let! value :=
    match type with
    | Pinput => op_input original
    | Poutput => op_output original
    | Pcache => op_cache_read original
    | Pcreate_cache => op_cache_write original
    | _ => None
    end in
  if is_finite value && n_gtb value n_zero then Some value else None.

Definition applyRechargeRate (price : num) (showWithRecharge : bool) (priceRate usdExchangeRate : num)
  : num :=
  if showWithRecharge then n_div (n_mul price priceRate) usdExchangeRate else price.

Definition formatPriceDiscount (currentPrice originalPrice : num) : option jsstr :=
  if negb (is_finite currentPrice) || negb (is_finite originalPrice) || n_ltb currentPrice n_zero
     || n_leb originalPrice n_zero
  then None
  else
    Some (string_of_number
            (number_of_string
               (to_fixed 2 (n_mul (n_div currentPrice originalPrice) (n_of_Z 10))))).

(** The first kind of price with a discount. *)
Fixpoint first_discount (model : pricing_model) (groupRatio : num) (types : list price_type)
  : option jsstr :=
  match types with
  | [] => None
  | type :: types' =>
      match (let! original := getOriginalPrice model type in
             formatPriceDiscount (calculateTokenPrice model type groupRatio) original) with
      | Some discount => Some discount
      | None => first_discount model groupRatio types'
      end
  end.

Definition is_request_model (model : pricing_model) : bool := n_eqb (quota_type model) REQUEST.

Definition getModelPriceDiscount (model : pricing_model) : option jsstr :=
  if is_request_model model then None
  else
    first_discount model (getDisplayGroupRatio model None) [Pinput; Poutput; Pcache; Pcreate_cache].

(** ** Shown prices *)

(** The longest prefix of characters that [p] accepts, and the rest. *)
Fixpoint span (p : N -> bool) (s : jsstr) : jsstr * jsstr :=
  match s with
  | c :: s' => if p c then let '(a, b) := span p s' in (c :: a, b) else ([], s)
  | [] => ([], [])
  end.

(** [parseFloat] of a text of digits, minus signs and at most one point. *)
Definition parse_float (s : jsstr) : num :=
  let '(sign, s) := match s with c :: s' => if N.eqb c (ch "-") then ([c], s') else ([], s) | [] => ([], s) end in
  let '(whole, s) := span is_digit s in
  let fraction := match s with c :: s' => if N.eqb c (ch ".") then fst (span is_digit s') else [] | [] => [] end in
  match whole ++ fraction with
  | [] => SpecFloat.S754_nan
  | _ => number_of_string (sign ++ whole ++ js "." ++ fraction)
  end.

(** [s.replace(/\.?0+$/, '')] *)
Definition drop_zero_tail (s : jsstr) : jsstr :=
  match rev s with
  | c :: _ =>
      if N.eqb c (ch "0") then
        match skip_zeros (rev s) with
        | d :: t => if N.eqb d (ch ".") then rev t else rev (d :: t)
        | [] => []
        end
      else s
  | [] => s
  end.

(** A price as symbol, digits and suffix; [None] where the pattern does not match. *)
Definition price_parts (formatted : jsstr) : option (jsstr * jsstr * jsstr) :=
  let '(symbol, s) := span (fun c => negb (is_digit c) && negb (N.eqb c (ch "-"))) formatted in
  let '(whole, s) := span (fun c => is_digit c || N.eqb c (ch "-") || N.eqb c (ch ",")) s in
  let '(point, s) := match s with c :: s' => if N.eqb c (ch ".") then ([c], s') else ([], s) | [] => ([], s) end in
  let '(fraction, suffix) := span is_digit s in
  match whole with
  | [] => None
  | _ =>
      if str_eqb suffix [] || str_eqb suffix (js "k")
      then Some (symbol, whole ++ point ++ fraction, suffix) else None
  end.

Definition stripTrailingZeros (formatted : jsstr) : jsstr :=
  match price_parts formatted with
  | None => formatted
  | Some (symbol, number, suffix) =>
      let parsed := parse_float (List.filter (fun c => negb (N.eqb c (ch ","))) number) in
      if is_nan parsed then formatted
      else
        let result := string_of_number parsed in
        let result :=
          if includes (js "e") result then drop_zero_tail (to_fixed 20 parsed) else result in
        symbol ++ result ++ suffix
  end.

Example strip_price_zeros : stripTrailingZeros (js "$1,234.5000") = js "$1234.5".
Proof. vm_compute. reflexivity. Qed.
Example strip_price_small : stripTrailingZeros (js "0.0000001") = js "0.0000001".
Proof. vm_compute. reflexivity. Qed.

(** How prices are shown: the currency, and the recharge rates when they apply. *)
Record shown_in := ShownIn {
  si_currency : option currency_config;
  si_recharge : bool;
  si_priceRate : num;
  si_usdExchangeRate : num;
  si_symbol : option bool;
}.

Definition price_options (small : Z) (symbol : option bool) : currency_options :=
  CurrencyOptions (Some 4%Z) (Some small) (Some false) None None symbol None.

Section shown.
Context {Fmt : NumberFormat}.

Definition formatOriginalPrice (model : pricing_model) (type : price_type) (tokenUnit : token_unit)
  (how : shown_in) : option jsstr :=
  if is_request_model model then None
  else
    let! originalPrice := getOriginalPrice model type in
    let priceInUSD :=
      applyRechargeRate originalPrice (si_recharge how) (si_priceRate how) (si_usdExchangeRate how) in
    Some (formatBillingCurrencyFromUSD (si_currency how)
            (Some (n_div priceInUSD (TOKEN_UNIT_DIVISORS tokenUnit))) (price_options 6 None)).

(** A token price under a group ratio, in the unit shown. *)
Definition token_price_text (model : pricing_model) (type : price_type) (ratio : num)
  (tokenUnit : token_unit) (how : shown_in) (symbol : option bool) : jsstr :=
  let priceInUSD :=
    applyRechargeRate (calculateTokenPrice model type ratio) (si_recharge how) (si_priceRate how)
      (si_usdExchangeRate how) in
  formatBillingCurrencyFromUSD (si_currency how)
    (Some (n_div priceInUSD (TOKEN_UNIT_DIVISORS tokenUnit))) (price_options 6 symbol).

Definition formatPrice (model : pricing_model) (type : price_type) (tokenUnit : token_unit)
  (how : shown_in) (selectedGroup : option jsstr) : jsstr :=
  if is_request_model model then js "-"
  else
    token_price_text model type (getDisplayGroupRatio model selectedGroup) tokenUnit how
      (Some (default true (si_symbol how))).

Definition formatGroupPrice (model : pricing_model) (group : jsstr) (type : price_type)
  (tokenUnit : token_unit) (how : shown_in) (groupRatio : list (jsstr * num)) : jsstr :=
  if is_request_model model then js "-"
  else
    token_price_text model type (getConfiguredGroupRatio groupRatio group) tokenUnit how None.

(** [model.model_price || 0] *)
Definition price_or_free (price : option num) : num :=
  match price with
  | Some x => if negb (n_eqb x n_zero) && negb (is_nan x) then x else n_zero
  | None => n_zero
  end.

Definition request_price_text (model : pricing_model) (ratio : num) (how : shown_in)
  (symbol : option bool) : jsstr :=
  formatBillingCurrencyFromUSD (si_currency how)
    (Some (applyRechargeRate (n_mul (price_or_free (model_price model)) ratio) (si_recharge how)
             (si_priceRate how) (si_usdExchangeRate how))) (price_options 4 symbol).

Definition formatFixedPrice (model : pricing_model) (group : jsstr) (how : shown_in)
  (groupRatio : list (jsstr * num)) : jsstr :=
  if negb (is_request_model model) then js "-"
  else request_price_text model (getConfiguredGroupRatio groupRatio group) how None.

Definition formatRequestPrice (model : pricing_model) (how : shown_in)
  (selectedGroup : option jsstr) : jsstr :=
  if negb (is_request_model model) then js "-"
  else
    request_price_text model (getDisplayGroupRatio model selectedGroup) how
      (Some (default true (si_symbol how))).
End shown.
