(* ===== verification/DynamicPrice.v ===== *)
(** * Prices shown for models billed by expressions

    Models [pricing/lib/dynamic-price.ts] and [billing-mode.ts]: the tiers of a model or of its
    provider variants, the price entries of a tier, and the summary shown on a card.
    A model with provider variants is read through each variant, which itself has
    none ([withPluginPricing]), so the recursion of the code has two levels: a
    definition [x_one] is the function on a model without variants. *)

From S2P Require Import Prelude JsString JsNumber JsRegex JsValue JsArray ExprTypes ExprCompile ExprRuntime ExprDisplay BillingExpr TaskExpr TaskDisplay TaskMatrixDisplay Currency PricingModel.

(** ** Data *)

Record dynamic_options := DynamicOptions {
  do_currency : option currency_config;
  do_tokenUnit : token_unit;
  do_showCurrencySymbol : option bool;
  do_showRechargePrice : option bool;
  do_priceRate : option num;
  do_usdExchangeRate : option num;
  do_groupRatioMultiplier : option num;
  do_usageSchema : option usage_schema;
  do_now : option date;
}.

Record price_entry := PriceEntry {
  pe_key : jsstr;
  pe_field : jsstr;
  pe_label : jsstr;
  pe_shortLabel : jsstr;
  pe_schemaLabel : bool;
  pe_value : num;
  pe_formatted : jsstr;
  pe_formattedRange : option jsstr;
  pe_minValue : option num;
  pe_maxValue : option num;
  pe_unit : jsstr;
  pe_unitLabel : option localized_text;
  pe_variable : option billing_var;
  pe_description : option localized_text;
}.

(** [DynamicPricingTier]: a tier of a token expression or of a task expression. *)
Inductive pricing_tier : Type :=
| TokenTier (t : parsed_tier)
| UsageTier (t : task_tier).

Record pricing_summary := PricingSummary {
  sm_tiers : list pricing_tier;
  sm_tier : option pricing_tier;
  sm_tierCount : nat;
  sm_hasRequestRules : bool;
  sm_isSpecialExpression : bool;
  sm_rawExpression : jsstr;
  sm_entries : list price_entry;
  sm_primaryEntries : list price_entry;
  sm_secondaryEntries : list price_entry;
  sm_isTaskUsage : bool;
  sm_isTimePricing : option bool;
  sm_isMixedBilling : bool;
  sm_providerCount : option nat;
  sm_hasUnconfiguredProviders : option bool;
}.

(** ** Labels of units *)

Definition unit_is (s : string) (unit : option jsstr) : bool :=
  match unit with Some u => str_eqb u (js s) | None => false end.

Definition getTaskUsageQuantityUnitLabelKey (unit : option jsstr) : jsstr :=
  if unit_is "second" unit then js "s"
  else if unit_is "token" unit then js "token (unit)"
  else if unit_is "credit" unit then js "credit"
  else js "unit".

Definition getTaskUsagePriceUnitLabelKey (unit : option jsstr) : jsstr :=
  if unit_is "second" unit then js "second"
  else if unit_is "token" unit then js "1M token"
  else if unit_is "credit" unit then js "credit"
  else js "unit".

Definition getDynamicPriceUnitLabelKey (entry : price_entry) : option jsstr :=
  let unit := Some (pe_unit entry) in
  if unit_is "second" unit then Some (js "s")
  else if unit_is "count" unit then Some (js "unit")
  else if unit_is "credit" unit then Some (js "credit")
  else if unit_is "token" unit && match pe_variable entry with None => true | _ => false end
  then Some (js "1M token")
  else if unit_is "request" unit then Some (js "request")
  else if unit_is "image" unit then Some (js "image")
  else None.

Definition is_primary_field (field : jsstr) : bool :=
  str_mem field [js "inputPrice"; js "outputPrice"].

(** ** Kinds of models *)

Definition truthy_opt (s : option jsstr) : bool := match s with Some x => truthy_str x | None => false end.
Definition is_tiered (model : pricing_model) : bool := unit_is "tiered_expr" (billing_mode model).

Definition isDynamicPricingModel (model : pricing_model) : bool :=
  match billing_plugin_variants model with
  | [] => is_tiered model && truthy_opt (billing_expr model)
  | variants =>
      existsb (fun v => negb (is_ratio_mode (pv_billing_mode v)) && truthy_str (pv_billing_expr v))
        variants
  end.

Definition hasTaskUsageSchema (model : pricing_model) : bool :=
  match billing_usage_schema model with Some (_ :: _) => true | _ => false end.

Definition isTaskUsagePricingModel (model : pricing_model) : bool :=
  is_tiered model && hasTaskUsageSchema model.

Definition unconfigured_one (model : pricing_model) : bool :=
  negb (n_eqb (quota_type model) REQUEST) && hasTaskUsageSchema model
  && negb (isDynamicPricingModel model).

(** A provider without a price. *)
Definition unconfigured_variant (model : pricing_model) (variant : plugin_variant) : bool :=
  if is_ratio_mode (pv_billing_mode variant) then unconfigured_one (withPluginPricing model variant)
  else negb (truthy_str (pv_billing_expr variant)).

Definition isUnconfiguredTaskUsageModel (model : pricing_model) : bool :=
  match billing_plugin_variants model with
  | [] => unconfigured_one model
  | variants => forallb (unconfigured_variant model) variants
  end.

Inductive billing_mode_label : Type := Lrequest | Ldynamic | Ltoken | Ltask.

Definition getBillingModeLabelKey (model : pricing_model) : billing_mode_label :=
  if hasTaskUsageSchema model then Ltask
  else if isDynamicPricingModel model then Ldynamic
  else if isTokenBasedModel model then Ltoken
  else Lrequest.

Definition getDynamicDisplayGroupRatio (model : pricing_model) (selectedGroup : option jsstr) : num :=
  getDisplayGroupRatio model selectedGroup.

Section dynamic.
Context `{Host} {Col : Collation} {Fmt : NumberFormat}.

Definition getTaskPricingUnit (model : pricing_model) : option jsstr :=
  match getTaskNumberFields (billing_usage_schema model) with
  | (_, d) :: _ => uf_unit d
  | [] => None
  end.

(** ** Formats *)

(** An amount in USD with the recharge rates of the options applied. *)
Definition show_price (priceUSD : num) (options : dynamic_options) : jsstr :=
  let displayPrice :=
    applyRechargeRate priceUSD (default false (do_showRechargePrice options))
      (default (n_of_Z 1) (do_priceRate options)) (default (n_of_Z 1) (do_usdExchangeRate options)) in
  formatBillingCurrencyFromUSD (do_currency options) (Some displayPrice)
    (price_options 6 (Some (default true (do_showCurrencySymbol options)))).

Definition formatDynamicUnitPrice (valuePerMillionTokens : num) (options : dynamic_options) : jsstr :=
  let groupRatio := default (n_of_Z 1) (do_groupRatioMultiplier options) in
  show_price
    (n_div (n_mul valuePerMillionTokens groupRatio) (TOKEN_UNIT_DIVISORS (do_tokenUnit options)))
    options.

Definition formatTaskUsageUnitPrice (valuePerUnit : num) (options : dynamic_options) : jsstr :=
  let groupRatio := default (n_of_Z 1) (do_groupRatioMultiplier options) in
  show_price (n_mul valuePerUnit groupRatio) options.

(** The range of two prices; an en dash between them. *)
Definition range_of (min max : num) (options : dynamic_options) : option jsstr :=
  if n_eqb min max then None
  else
    Some (formatTaskUsageUnitPrice min options ++ [32; 8211; 32]%N
            ++ formatTaskUsageUnitPrice max options).

(** ** Tiers *)

Definition getDynamicPricingTiers_one (model : pricing_model) : result berr (list pricing_tier) :=
  if negb (isDynamicPricingModel model) then Ok []
  else
    let? (billingExpr, _) := splitBillingExprAndRequestRules (default [] (billing_expr model)) in
    if isTaskUsagePricingModel model then
      let? tiers := getTaskPricingDisplayTiers (Some billingExpr) (billing_usage_schema model) in
      Ok (map UsageTier tiers)
    else
      let? tiers := parseTiersFromExpr billingExpr in Ok (map TokenTier tiers).

(** [list.map(f)] for a function that may throw. *)
Fixpoint map_result {A B} (f : A -> result berr B) (l : list A) : result berr (list B) :=
  match l with
  | [] => Ok []
  | x :: l' => let? y := f x in let? ys := map_result f l' in Ok (y :: ys)
  end.

Definition getDynamicPricingTiers (model : pricing_model) : result berr (list pricing_tier) :=
  match billing_plugin_variants model with
  | [] => getDynamicPricingTiers_one model
  | variants =>
      let? all := map_result (fun v => getDynamicPricingTiers_one (withPluginPricing model v)) variants in
      Ok (concat all)
  end.

Definition has_rules_one (model : pricing_model) : result berr bool :=
  if negb (isDynamicPricingModel model) then Ok false
  else
    let? (_, requestRuleExpr) := splitBillingExprAndRequestRules (default [] (billing_expr model)) in
    let? groups := tryParseRequestRuleExpr requestRuleExpr in
    match groups with
    | Some (_ :: _) => Ok true
    | _ =>
        match compile_source (default [] (billing_expr model)) with
        | Ready c => Ok (match c_rules c with [] => false | _ => true end)
        | NotReady _ => Ok false
        end
    end.

(** [variants.some(f)]: stops at the first that holds. *)
Fixpoint some_result {A} (f : A -> result berr bool) (l : list A) : result berr bool :=
  match l with
  | [] => Ok false
  | x :: l' => let? b := f x in if b : bool then Ok true else some_result f l'
  end.

Definition hasDynamicRequestRules (model : pricing_model) : result berr bool :=
  match billing_plugin_variants model with
  | [] => has_rules_one model
  | variants => some_result (fun v => has_rules_one (withPluginPricing model v)) variants
  end.

(** ** Entries *)

Definition is_shown_price (x : num) : bool := is_finite x && negb (n_ltb x n_zero).

(** [Number(object\[field\])] *)
Definition number_field (fields : list (jsstr * num)) (field : jsstr) : num :=
  default SpecFloat.S754_nan (assoc_get str_eqb field fields).

Definition fixed_entry (tier : parsed_tier) (price : num) (options : dynamic_options) : price_entry :=
  let image := pt_imageCount tier in
  PriceEntry (js "fixed") (js "fixedPrice")
    (if image then js "Price per image" else js "Price per request")
    (if image then js "Per image" else js "Per-call") false price
    (formatTaskUsageUnitPrice price options) None None None
    (if image then js "image" else js "request") None None None.

Definition usage_entry (tier : task_tier) (options : dynamic_options) (e : jsstr * usage_field)
  : list price_entry :=
  let '(field, definition) := e in
  let value := number_field (kt_unitPrices tier) field in
  match uf_unit definition with
  | Some unit =>
      if is_shown_price value && truthy_str unit then
        [PriceEntry field field field field true value (formatTaskUsageUnitPrice value options)
           None None None unit (uf_unitLabel definition) None (uf_description definition)]
      else []
  | None => []
  end.

Definition constant_entry (tier : task_tier) (options : dynamic_options) : list price_entry :=
  if n_gtb (kt_constant tier) n_zero then
    [PriceEntry (js "constant") (js "constant") (js "Additional charge") (js "Additional charge")
       false (kt_constant tier) (formatTaskUsageUnitPrice (kt_constant tier) options) None None None
       (js "request") None None None]
  else [].

(** The labels of cache creation depend on the longer-lived caches priced beside. *)
Definition entry_labels (tier : parsed_tier) (v : billing_var) : jsstr * jsstr :=
  if str_eqb (bv_key v) (js "cc") then
    if assoc_mem str_eqb (js "cacheCreate1hPrice") (pt_fields tier)
    then (js "Cache Creation (5m)", js "Cache Write (5m)")
    else if assoc_mem str_eqb (js "cacheCreate12hPrice") (pt_fields tier)
    then (js "Cache Creation (30m)", js "Cache Write (30m)")
    else (bv_label v, bv_shortLabel v)
  else (bv_label v, bv_shortLabel v).

Definition token_entry (tier : parsed_tier) (options : dynamic_options) (v : billing_var)
  : list price_entry :=
  match bv_field v with
  | None => []
  | Some field =>
      let value := number_field (pt_fields tier) field in
      if negb (is_shown_price value) then []
      else if str_eqb (bv_key v) (js "cr") && negb (n_eqb value n_zero)
              && n_eqb value (number_field (pt_fields tier) (js "inputPrice"))
      then []
      else
        let '(label, shortLabel) := entry_labels tier v in
        [PriceEntry (bv_key v) field label shortLabel false value (formatDynamicUnitPrice value options)
           None None None (js "token") None (Some v) None]
  end.

(** The comparator puts primary fields first. *)
Definition secondary_after (a b : price_entry) : bool :=
  negb (is_primary_field (pe_field a)) && is_primary_field (pe_field b).

Definition getDynamicPriceEntries (tier : option pricing_tier) (options : dynamic_options)
  : list price_entry :=
  match tier with
  | None => []
  | Some (TokenTier t) =>
      match pt_fixed t with
      | Some (Some price) => [fixed_entry t price options]
      | _ => array_sort secondary_after (flat_map (token_entry t options) BILLING_PRICING_VARS)
      end
  | Some (UsageTier t) =>
      match do_usageSchema options with
      | Some schema =>
          flat_map (usage_entry t options) (getTaskNumberFields (Some schema))
          ++ constant_entry t options
      | None => []
      end
  end.

(** One row without conditions, and no request rules. *)
Definition hasSimpleTaskPricing (model : pricing_model) : result berr bool :=
  match billing_usage_schema model with
  | None => Ok false
  | Some schema =>
      if negb (is_tiered model) || negb (truthy_opt (billing_expr model)) then Ok false
      else
        let? (billingExpr, requestRuleExpr) :=
          splitBillingExprAndRequestRules (default [] (billing_expr model)) in
        if truthy_str (trim requestRuleExpr) then Ok false
        else
          let? tiers := getTaskPricingDisplayTiers (Some billingExpr) (Some schema) in
          Ok (match tiers with [t] => negb (truthy_opt (kt_conditionText t)) | _ => false end)
  end.

(** ** Summaries *)

Definition with_schema (schema : option usage_schema) (o : dynamic_options) : dynamic_options :=
  DynamicOptions (do_currency o) (do_tokenUnit o) (do_showCurrencySymbol o) (do_showRechargePrice o)
    (do_priceRate o) (do_usdExchangeRate o) (do_groupRatioMultiplier o) schema (do_now o).

Definition is_token_tier (t : pricing_tier) : bool :=
  match t with TokenTier x => match pt_fixed x with None => true | _ => false end | _ => false end.
Definition is_request_tier (t : pricing_tier) : bool :=
  match t with TokenTier x => match pt_fixed x with Some _ => true | _ => false end | _ => false end.

(** One round of the loop over the tiers of a field. *)
Definition widen (field : jsstr) (range : num * num) (t : pricing_tier) : num * num :=
  match t with
  | TokenTier _ => range
  | UsageTier tier =>
      let value := number_field (kt_unitPrices tier) field in
      if is_shown_price value then (n_min range.1 value, n_max range.2 value) else range
  end.

Definition field_range (tiers : list pricing_tier) (field : jsstr) : option (num * num) :=
  let '(min, max) :=
    fold_left (widen field) tiers (SpecFloat.S754_infinity false, SpecFloat.S754_infinity true) in
  if is_finite min && is_finite max then Some (min, max) else None.

Definition price_ranges (schema : option usage_schema) (tiers : list pricing_tier)
  : list (jsstr * (num * num)) :=
  omap (fun e => (fun r => (e.1, r)) <$> field_range tiers e.1) (getTaskNumberFields schema).

Definition with_range (options : dynamic_options) (ranges : list (jsstr * (num * num)))
  (e : price_entry) : price_entry :=
  match assoc_get str_eqb (pe_field e) ranges with
  | None => e
  | Some (min, max) =>
      PriceEntry (pe_key e) (pe_field e) (pe_label e) (pe_shortLabel e) (pe_schemaLabel e) (pe_value e)
        (pe_formatted e) (range_of min max options) (Some min) (Some max) (pe_unit e)
        (pe_unitLabel e) (pe_variable e) (pe_description e)
  end.

Definition is_per_call (e : price_entry) : bool :=
  unit_is "request" (Some (pe_unit e)) || unit_is "image" (Some (pe_unit e)).

(** The entries of the first token tier and of the first tier billed per request, when
    there are both. *)
Definition mixed_entries (tiers : list pricing_tier) (options : dynamic_options)
  : option (list price_entry) :=
  let! tokenTier := List.find is_token_tier tiers in
  let! requestTier := List.find is_request_tier tiers in
  Some (getDynamicPriceEntries (Some tokenTier) options
          ++ getDynamicPriceEntries (Some requestTier) options).

Definition getDynamicPricingSummary_one (model : pricing_model) (options : dynamic_options)
  : result berr (option pricing_summary) :=
  if negb (isDynamicPricingModel model) then Ok None
  else
    let rawExpression := default [] (billing_expr model) in
    let isTaskUsage := isTaskUsagePricingModel model in
    let? tiers := getDynamicPricingTiers_one model in
    let? (baseExpression, _) := splitBillingExprAndRequestRules rawExpression in
    let? timeTiers :=
      (if isTaskUsage then Ok None
       else getCurrentTimePricingTiers baseExpression (default (Some host_now) (do_now options))) in
    let summaryTiers := default tiers (map TokenTier <$> timeTiers) in
    let tier := if isTaskUsage then list.last summaryTiers else head summaryTiers in
    let schemaOptions := with_schema (billing_usage_schema model) options in
    let mixed := if isTaskUsage then None else mixed_entries summaryTiers options in
    let entries := default (getDynamicPriceEntries tier schemaOptions) mixed in
    let entries :=
      if isTaskUsage
      then map (with_range options (price_ranges (billing_usage_schema model) tiers)) entries
      else entries in
    let? hasRequestRules := has_rules_one model in
    let primary e :=
      if isTaskUsage then negb (is_per_call e) else is_per_call e || is_primary_field (pe_field e) in
    Ok (Some (PricingSummary tiers tier (length tiers) hasRequestRules
                (truthy_str (trim rawExpression) && match tiers with [] => true | _ => false end)
                rawExpression entries (List.filter primary entries)
                (List.filter (fun e => negb (primary e)) entries) isTaskUsage
                (Some match timeTiers with Some _ => true | None => false end)
                match mixed with Some _ => true | None => false end None None)).

(** ** Provider variants *)

Definition entry_key (e : price_entry) : jsstr := pe_field e ++ js ":" ++ pe_unit e.

Definition with_key_label (key : jsstr) (label : option localized_text) (e : price_entry) : price_entry :=
  PriceEntry key (pe_field e) (pe_label e) (pe_shortLabel e) (pe_schemaLabel e) (pe_value e)
    (pe_formatted e) (pe_formattedRange e) (pe_minValue e) (pe_maxValue e) (pe_unit e) label
    (pe_variable e) (pe_description e).

(** A unit label that says nothing. *)
Definition no_label (label : option localized_text) : bool :=
  match label with
  | None | Some (PlainText []) | Some (TextPerLanguage []) => true
  | _ => false
  end.

(** One round of the loop that merges the entries of the providers. *)
Definition merge_entry (ranges : list (jsstr * (price_entry * (num * num)))) (entry : price_entry)
  : list (jsstr * (price_entry * (num * num))) :=
  let key := entry_key entry in
  let range := assoc_get str_eqb key ranges in
  let merged := match range with Some (e, _) => e | None => with_key_label key (pe_unitLabel entry) entry end in
  let merged :=
    if no_label (pe_unitLabel merged) then with_key_label (pe_key merged) (pe_unitLabel entry) merged
    else merged in
  let min0 := match range with Some (_, (m, _)) => m | None => SpecFloat.S754_infinity false end in
  let max0 := match range with Some (_, (_, m)) => m | None => SpecFloat.S754_infinity true end in
  assoc_set str_eqb key
    (merged, (n_min min0 (default (pe_value entry) (pe_minValue entry)),
              n_max max0 (default (pe_value entry) (pe_maxValue entry)))) ranges.

Definition merged_entry (options : dynamic_options) (m : price_entry * (num * num)) : price_entry :=
  let '(e, (min, max)) := m in
  PriceEntry (pe_key e) (pe_field e) (pe_label e) (pe_shortLabel e) (pe_schemaLabel e) min
    (formatTaskUsageUnitPrice min options) (range_of min max options) (Some min) (Some max)
    (pe_unit e) (pe_unitLabel e) (pe_variable e) (pe_description e).

Definition merge_entries (options : dynamic_options) (entries : list price_entry) : list price_entry :=
  map (fun x => merged_entry options x.2) (fold_left merge_entry entries []).

(** The per-call price of the model, when a provider is billed by ratio. *)
Definition per_call_entries (model : pricing_model) (options : dynamic_options) : list price_entry :=
  match model_price model with
  | Some price =>
      if n_eqb (quota_type model) REQUEST
         && existsb (fun v => is_ratio_mode (pv_billing_mode v)) (billing_plugin_variants model)
      then
        [PriceEntry (js "modelPrice") (js "modelPrice") (js "Price per request") (js "Per-call") false
           price (formatTaskUsageUnitPrice price options) None None None (js "request") None None None]
      else []
  | None => []
  end.

Definition is_model_price (e : price_entry) : bool := str_eqb (pe_field e) (js "modelPrice").

(** The comparator puts the entries that lead a provider first. *)
Definition unlisted_after (primaryKeys : list jsstr) (a b : price_entry) : bool :=
  str_mem (pe_key b) primaryKeys && negb (str_mem (pe_key a) primaryKeys).

Definition getDynamicPricingSummary (model : pricing_model) (options : dynamic_options)
  : result berr (option pricing_summary) :=
  match billing_plugin_variants model with
  | [] => getDynamicPricingSummary_one model options
  | variants =>
      let? all :=
        map_result (fun v => getDynamicPricingSummary_one (withPluginPricing model v) options) variants in
      let summaries := omap id all in
      let perCall := per_call_entries model options in
      let entries := merge_entries options (flat_map sm_entries summaries ++ perCall) in
      let primaryKeys :=
        flat_map (fun s => map entry_key (take 1 (sm_primaryEntries s))) summaries in
      let shown e := negb (is_per_call e) || is_model_price e in
      let tiers := flat_map sm_tiers summaries in
      Ok (Some (PricingSummary tiers
                  (match summaries with s :: _ => sm_tier s | [] => None end) (length tiers)
                  (existsb sm_hasRequestRules summaries)
                  (match perCall, summaries with
                   | [], _ :: _ => forallb sm_isSpecialExpression summaries
                   | _, _ => false
                   end)
                  (match summaries with s :: _ => sm_rawExpression s | [] => [] end)
                  entries (array_sort (unlisted_after primaryKeys) (List.filter shown entries))
                  (List.filter (fun e => negb (shown e)) entries) true None false
                  (if (2 <=? length variants)%nat then Some (length variants) else None)
                  (Some (existsb (unconfigured_variant model) variants))))
  end.

Definition card_example_one (model : pricing_model) (options : dynamic_options)
  : result berr (option (jsstr * num * jsstr)) :=
  if negb (isTaskUsagePricingModel model) then Ok None
  else
    match billing_usage_schema model, billing_usage_examples model with
    | Some schema, Some (example :: _) =>
        let? (billingExpr, _) := splitBillingExprAndRequestRules (default [] (billing_expr model)) in
        let? config := tryParseTaskVisualConfig (Some billingExpr) schema in
        Ok (let! tiers := config in
            let! result := evaluateTaskVisualConfig tiers (ex_facts example) (Some schema) in
            Some (ex_label example, pv_total result, formatTaskUsageUnitPrice (pv_total result) options))
    | _, _ => Ok None
    end.

Definition getCardExamplePrice (model : pricing_model) (options : dynamic_options)
  : result berr (option (jsstr * num * jsstr)) :=
  match billing_plugin_variants model with
  | [] => card_example_one model options
  | variants =>
      match List.find (fun v => truthy_str (pv_billing_expr v)) variants with
      | Some v => card_example_one (withPluginPricing model v) options
      | None => Ok None
      end
  end.
End dynamic.
