(* ===== verification/DynamicPriceSpec.v ===== *)
(** * Properties of catalogue prices

    [merged_range_covers]: the range shown for a model with several providers covers the
    price of every provider; [display_ratio_best]: without a chosen group the best
    ratio of the groups of a model is used. *)

From Stdlib Require Import SpecFloat.
From S2P Require Import Prelude JsString JsNumber JsIntSpec JsOrderSpec JsValue JsArray ExprTypes ExprDisplay BillingExpr TaskExpr Currency PricingModel DynamicPrice.

Local Open Scope Z_scope.

(** ** Smallest and largest numbers *)

Lemma min_cases x y : real x -> real y ->
  n_min x y = (if n_ltb x y then x else y) \/ exists s, n_min x y = S754_zero s /\ value x = 0 /\ value y = 0.
Proof.
  intros Hx Hy. destruct x as [s1|s1| |s1 m1 e1]; [|by destruct Hx..|];
    (destruct y as [s2|s2| |s2 m2 e2]; [|by destruct Hy..|]); eauto.
Qed.

Lemma max_cases x y : real x -> real y ->
  n_max x y = (if n_ltb x y then y else x) \/ exists s, n_max x y = S754_zero s /\ value x = 0 /\ value y = 0.
Proof.
  intros Hx Hy. destruct x as [s1|s1| |s1 m1 e1]; [|by destruct Hx..|];
    (destruct y as [s2|s2| |s2 m2 e2]; [|by destruct Hy..|]); eauto.
Qed.

Lemma min_value x y :
  real x -> real y -> real (n_min x y) /\ value (n_min x y) = Z.min (value x) (value y).
Proof.
  intros Hx Hy. destruct (min_cases x y Hx Hy) as [->|(s & -> & -> & ->)]; [|done].
  rewrite ltb_value by done. destruct (Z.ltb_spec (value x) (value y)); split; done || lia.
Qed.

Lemma max_value x y :
  real x -> real y -> real (n_max x y) /\ value (n_max x y) = Z.max (value x) (value y).
Proof.
  intros Hx Hy. destruct (max_cases x y Hx Hy) as [->|(s & -> & -> & ->)]; [|done].
  rewrite ltb_value by done. destruct (Z.ltb_spec (value x) (value y)); split; done || lia.
Qed.

Lemma min_infinity x : real x -> n_min (S754_infinity false) x = x.
Proof. intros Hx. by destruct x as [s1|s1| |s1 m1 e1]; [|by destruct Hx..|]. Qed.
Lemma max_infinity x : real x -> n_max (S754_infinity true) x = x.
Proof. intros Hx. by destruct x as [s1|s1| |s1 m1 e1]; [|by destruct Hx..|]. Qed.

(** ** Providers *)

(** The range an entry stands for. *)
Definition low (e : price_entry) : num := default (pe_value e) (pe_minValue e).
Definition high (e : price_entry) : num := default (pe_value e) (pe_maxValue e).
Definition real_entry (e : price_entry) : Prop := real (low e) /\ real (high e).

(** A merged range of the key of [e] that covers [e]. *)
Definition covered (ranges : list (jsstr * (price_entry * (num * num)))) (e : price_entry) : Prop :=
  exists m mn mx, assoc_get str_eqb (entry_key e) ranges = Some (m, (mn, mx))
    /\ value mn <= value (low e) /\ value (high e) <= value mx.

(** Every range holds real numbers, and its entry has the key it is kept under. *)
Definition ranges_ok (ranges : list (jsstr * (price_entry * (num * num)))) : Prop :=
  forall key m mn mx, assoc_get str_eqb key ranges = Some (m, (mn, mx)) ->
    pe_key m = key /\ real mn /\ real mx.

(** The range an entry is merged into. *)
Lemma merge_entry_get ranges e :
  ranges_ok ranges -> real_entry e ->
  exists m mn mx,
    assoc_get str_eqb (entry_key e) (merge_entry ranges e) = Some (m, (mn, mx))
    /\ pe_key m = entry_key e /\ real mn /\ real mx
    /\ value mn <= value (low e) /\ value (high e) <= value mx
    /\ (forall m0 mn0 mx0, assoc_get str_eqb (entry_key e) ranges = Some (m0, (mn0, mx0)) ->
          value mn <= value mn0 /\ value mx0 <= value mx).
Proof.
  intros Hok [Hlo Hhi]. unfold merge_entry. rewrite assoc_get_set_eq by apply str_eqb_eq.
  fold (low e) (high e). do 3 eexists. split; [done|].
  destruct (assoc_get str_eqb (entry_key e) ranges) as [[m0 [mn0 mx0]]|] eqn:E.
  - destruct (Hok _ _ _ _ E) as (Hk & Hmn & Hmx).
    destruct (min_value mn0 (low e) Hmn Hlo) as [? ->]. destruct (max_value mx0 (high e) Hmx Hhi) as [? ->].
    split; [by destruct (no_label (pe_unitLabel m0))|].
    split_and!; [done|done|lia|lia|]. intros. simplify_eq. lia.
  - rewrite min_infinity, max_infinity by done.
    split; [by destruct (no_label _)|]. split_and!; done || lia.
Qed.

Lemma merge_entry_other ranges e key :
  key <> entry_key e -> assoc_get str_eqb key (merge_entry ranges e) = assoc_get str_eqb key ranges.
Proof. intros Hk. unfold merge_entry. apply assoc_get_set_ne; [apply str_eqb_eq|done]. Qed.

Lemma merge_entry_ok ranges e : ranges_ok ranges -> real_entry e -> ranges_ok (merge_entry ranges e).
Proof.
  intros Hok He key m mn mx Hg. destruct (decide (key = entry_key e)) as [->|Hne].
  - destruct (merge_entry_get ranges e Hok He) as (m' & mn' & mx' & Hg' & ? & ? & ? & _).
    rewrite Hg' in Hg. by simplify_eq.
  - rewrite merge_entry_other in Hg by done. by eapply Hok.
Qed.

Lemma merge_entry_covers ranges e e0 :
  ranges_ok ranges -> real_entry e -> covered ranges e0 -> covered (merge_entry ranges e) e0.
Proof.
  intros Hok He (m & mn & mx & Hg & Hl & Hh). unfold covered.
  destruct (decide (entry_key e0 = entry_key e)) as [Hk|Hne].
  - rewrite Hk in *. destruct (merge_entry_get ranges e Hok He)
      as (m' & mn' & mx' & Hg' & _ & _ & _ & _ & _ & Hw).
    destruct (Hw _ _ _ Hg). exists m', mn', mx'. split; [done|]. lia.
  - rewrite merge_entry_other by done. eauto 6.
Qed.

Lemma merge_all_covers entries : forall ranges,
  ranges_ok ranges -> Forall real_entry entries ->
  ranges_ok (fold_left merge_entry entries ranges)
  /\ (forall e, In e entries \/ covered ranges e -> covered (fold_left merge_entry entries ranges) e).
Proof.
  induction entries as [|e0 entries IH]; simpl; intros ranges Hok Hr.
  { split; [done|]. intros e [[]|?]; done. }
  inversion Hr as [|? ? H0 Hr']; subst.
  destruct (IH (merge_entry ranges e0) (merge_entry_ok _ _ Hok H0) Hr') as [Hok' Hc].
  split; [done|]. intros e [[<-|Hin]|Hcov]; [|by apply Hc; left|].
  - apply Hc. right. destruct (merge_entry_get ranges e0 Hok H0)
      as (m & mn & mx & Hg & _ & _ & _ & ? & ? & _). by exists m, mn, mx.
  - apply Hc. right. by apply merge_entry_covers.
Qed.

(** The price range a card shows for several providers covers the prices of each of
    them. *)
Lemma merged_range_covers {Fmt : NumberFormat} options entries e :
  Forall real_entry entries -> In e entries ->
  exists m mn mx, In m (merge_entries options entries)
    /\ pe_key m = entry_key e /\ pe_minValue m = Some mn /\ pe_maxValue m = Some mx
    /\ pe_value m = mn /\ n_leb mn (low e) = true /\ n_leb (high e) mx = true.
Proof.
  intros Hr Hin. destruct (merge_all_covers entries [] ltac:(done) Hr) as [Hok Hc].
  destruct (Hc e (or_introl Hin)) as (m & mn & mx & Hg & Hl & Hh).
  destruct (Hok _ _ _ _ Hg) as (Hk & Hmn & Hmx). rewrite List.Forall_forall in Hr.
  destruct (Hr e Hin) as [Hlo Hhi].
  exists (merged_entry options (m, (mn, mx))), mn, mx. split.
  - apply in_map_iff. exists (entry_key e, (m, (mn, mx))). split; [done|].
    revert Hg. clear. generalize (fold_left merge_entry entries []). intros l.
    induction l as [|[k v] l IH]; simpl; [done|].
    destruct (str_eqb (entry_key e) k) eqn:E; [|auto].
    apply str_eqb_eq in E as <-. intros [= ->]. by left.
  - simpl. rewrite !leb_value by done. split_and!; try done; by apply Z.leb_le.
Qed.

(** ** Group ratios *)

(** The best ratio found so far: none, or a real one among the groups seen. *)
Definition best_so_far (ratios : list (jsstr * num)) (seen : list jsstr) (r : num) : Prop :=
  (r = S754_infinity false
   /\ forall g x, In g seen -> assoc_get str_eqb g ratios = Some x -> is_finite x = false)
  \/ (real r /\ (exists g, In g seen /\ assoc_get str_eqb g ratios = Some r)
      /\ forall g x, In g seen -> assoc_get str_eqb g ratios = Some x -> is_finite x = true ->
           n_leb r x = true).

Section ratios.
Variable ratios : list (jsstr * num).
Hypothesis Hvalid : forall g x, assoc_get str_eqb g ratios = Some x -> valid_num x = true.

Lemma best_ratio_step seen r g :
  best_so_far ratios seen r -> best_so_far ratios (seen ++ [g]) (best_ratio ratios r g).
Proof.
  intros Hb. unfold best_ratio. destruct (assoc_get str_eqb g ratios) as [x|] eqn:Eg.
  2:{ destruct Hb as [[-> Hn]|(Hr & (g0 & Hg0 & E0) & Hle)]; [left|right].
      - split; [done|]. intros g' x [?|[<-|[]]]%in_app_iff; [by apply Hn|congruence].
      - split; [done|]. split; [exists g0; split; [apply in_app_iff; by left|done]|].
        intros g' x [?|[<-|[]]]%in_app_iff; [by apply Hle|congruence]. }
  destruct (is_finite x) eqn:Ef.
  2:{ simpl. destruct Hb as [[-> Hn]|(Hr & (g0 & Hg0 & E0) & Hle)]; [left|right].
      - split; [done|]. intros g' x' [?|[<-|[]]]%in_app_iff; [by apply Hn|congruence].
      - split; [done|]. split; [exists g0; split; [apply in_app_iff; by left|done]|].
        intros g' x' [?|[<-|[]]]%in_app_iff; [by apply Hle|congruence]. }
  assert (Hx : real x) by (split; [done|by eapply Hvalid]). simpl. right.
  destruct Hb as [[-> Hn]|(Hr & (g0 & Hg0 & E0) & Hle)].
  - assert (n_ltb x (S754_infinity false) = true) as -> by (by destruct x).
    split; [done|]. split; [exists g; split; [apply in_app_iff; right; by left|done]|].
    intros g' x' [?|[<-|[]]]%in_app_iff E' Ef'; [by rewrite (Hn g' x') in Ef'|].
    rewrite Eg in E'. simplify_eq. rewrite leb_value by done. apply Z.leb_refl.
  - rewrite ltb_value by done. destruct (Z.ltb_spec (value x) (value r)).
    + split; [done|]. split; [exists g; split; [apply in_app_iff; right; by left|done]|].
      intros g' x' [?|[<-|[]]]%in_app_iff E' Ef'.
      * assert (real x') by (split; [done|by eapply Hvalid]). specialize (Hle g' x').
        rewrite leb_value in Hle |- * by done. rewrite Z.leb_le in *. naive_solver lia.
      * rewrite Eg in E'. simplify_eq. rewrite leb_value by done. apply Z.leb_refl.
    + split; [done|]. split; [exists g0; split; [apply in_app_iff; by left|done]|].
      intros g' x' [?|[<-|[]]]%in_app_iff E' Ef'; [by apply (Hle g')|].
      rewrite Eg in E'. simplify_eq. rewrite leb_value by done. by apply Z.leb_le.
Qed.

Lemma best_ratio_all groups : forall seen r,
  best_so_far ratios seen r -> best_so_far ratios (seen ++ groups) (fold_left (best_ratio ratios) groups r).
Proof.
  induction groups as [|g groups IH]; simpl; intros seen r Hb; [by rewrite app_nil_r|].
  replace (seen ++ g :: groups) with ((seen ++ [g]) ++ groups) by (by rewrite <- app_assoc).
  apply IH. by apply best_ratio_step.
Qed.
End ratios.

(** Without a chosen group a model is shown at the best ratio of its groups: no
    configured ratio is lower, and it is the ratio of one of the groups, or 1 when
    none is configured. *)
Lemma display_ratio_best model :
  (forall g x, assoc_get str_eqb g (group_ratio model) = Some x -> valid_num x = true) ->
  (forall g x, In g (enable_groups model) -> assoc_get str_eqb g (group_ratio model) = Some x ->
     is_finite x = true -> n_leb (getDisplayGroupRatio model None) x = true)
  /\ (getDisplayGroupRatio model None = n_of_Z 1
      \/ exists g, In g (enable_groups model)
           /\ assoc_get str_eqb g (group_ratio model) = Some (getDisplayGroupRatio model None)).
Proof.
  intros Hv. unfold getDisplayGroupRatio. destruct (enable_groups model) as [|g0 groups]; [by split; auto|].
  assert (Hb := best_ratio_all (group_ratio model) Hv (g0 :: groups) [] (S754_infinity false)).
  simpl app in Hb. destruct Hb as [[-> Hn]|(Hr & (g & Hg & E) & Hle)].
  - left. split; [done|]. intros ? ? [].
  - split; [|by left]. intros g x Hin Hx Hf. by rewrite (Hn g x) in Hf.
  - set (r := fold_left _ _ _) in *. destruct r; [|by destruct Hr..|]; (split; [done|right; eauto]).
Qed.
