(* ===== verification/Catalogue.v ===== *)
(** * The catalogue of models: filters and order

    Models [pricing/lib/filters.ts]: the models of the catalogue that match what the user
    typed and chose, in the order the user chose. *)

From S2P Require Import Prelude JsString JsNumber JsValue JsArray ExprTypes ExprDisplay BillingExpr TaskExpr Currency PricingModel DynamicPrice.

(** ** Filters *)

Section filters.
Context `{Host}.

(** [text?.toLowerCase().includes(query)] *)
Definition mentions (query : jsstr) (text : option jsstr) : bool :=
  match text with Some s => includes query (to_lower s) | None => false end.

Definition filterBySearch (query : jsstr) (models : list pricing_model) : list pricing_model :=
  if negb (truthy_str query) then models
  else
    let lowerQuery := to_lower query in
    List.filter (fun m =>
      mentions lowerQuery (Some (model_name m)) || mentions lowerQuery (description m)
      || mentions lowerQuery (tags m) || mentions lowerQuery (vendor_name m)) models.

Definition filterByVendor (vendor : jsstr) (models : list pricing_model) : list pricing_model :=
  if str_eqb vendor FILTER_ALL then models
  else
    List.filter (fun m => match vendor_name m with Some v => str_eqb v vendor | None => false end) models.

Definition filterByGroup (group : jsstr) (models : list pricing_model) : list pricing_model :=
  if str_eqb group FILTER_ALL then models
  else List.filter (fun m => str_mem group (enable_groups m)) models.

Definition filterByQuotaType (quotaType : jsstr) (models : list pricing_model) : list pricing_model :=
  if str_eqb quotaType (js "all") then models
  else if str_eqb quotaType (js "task") then List.filter hasTaskUsageSchema models
  else
    let targetType := if str_eqb quotaType (js "token") then TOKEN else REQUEST in
    List.filter (fun m => n_eqb (quota_type m) targetType && negb (hasTaskUsageSchema m)) models.

Definition filterByEndpointType (endpointType : jsstr) (models : list pricing_model)
  : list pricing_model :=
  if str_eqb endpointType (js "all") then models
  else
    List.filter (fun m =>
      match supported_endpoint_types m with Some l => str_mem endpointType l | None => false end) models.

(** The separators of tags: comma, semicolon, bar and white space. *)
Definition is_tag_separator (c : N) : bool :=
  existsb (N.eqb c) [ch ","; ch ";"; ch "|"] || is_ws c.

(** The runs of characters between separators. *)
Fixpoint split_tags (s : jsstr) (tag : jsstr) : list jsstr :=
  match s with
  | [] => [tag]
  | c :: s' => if is_tag_separator c then tag :: split_tags s' [] else split_tags s' (tag ++ [c])
  end.

Definition parseTags (tagsString : option jsstr) : list jsstr :=
  match tagsString with
  | None => []
  | Some s => List.filter truthy_str (map trim (split_tags s []))
  end.

Definition filterByTag (tag : jsstr) (models : list pricing_model) : list pricing_model :=
  if str_eqb tag FILTER_ALL then models
  else
    let tagLower := to_lower tag in
    List.filter (fun m => str_mem tagLower (map to_lower (parseTags (tags m)))) models.
End filters.

(** Every tag of the models once, in the order of the collation. *)
Definition extractAllTags `{Host} {Col : Collation} (models : list pricing_model) : list jsstr :=
  let tagSet :=
    fold_left (fun acc tag => set_add str_eqb (to_lower tag) acc)
      (flat_map (fun m => parseTags (tags m)) models) [] in
  array_sort (fun a b => negb (locale_leb a b)) tagSet.

(** ** Order *)

Inductive sort_price_kind : Type := SortInput | SortOutput | SortRequest.

(** The kind of price and the direction, rising or falling, of a sort option. *)
Definition PRICE_SORTS : list (jsstr * (sort_price_kind * bool)) :=
  [(js "input-price-low", (SortInput, true)); (js "input-price-high", (SortInput, false));
   (js "output-price-low", (SortOutput, true)); (js "output-price-high", (SortOutput, false));
   (js "request-price-low", (SortRequest, true)); (js "request-price-high", (SortRequest, false))].

Record catalogue_filters := CatalogueFilters {
  f_search : jsstr;
  f_vendor : jsstr;
  f_group : jsstr;
  f_quotaType : jsstr;
  f_endpointType : jsstr;
  f_tag : jsstr;
  f_sortBy : jsstr;
}.

Section order.
Context `{Host} {Col : Collation} {Fmt : NumberFormat}.

(** [{ tokenUnit: 'M' }], with the currency settings the formats read. *)
Definition per_million (currency : option currency_config) : dynamic_options :=
  DynamicOptions currency UnitM None None None None None None None.

(** The value of the first entry that [p] accepts. *)
Definition entry_value (p : price_entry -> bool) (summary : pricing_summary) : option num :=
  pe_value <$> List.find p (sm_entries summary).

Definition is_request_entry (e : price_entry) : bool :=
  str_eqb (pe_field e) (js "fixedPrice") || str_eqb (pe_field e) (js "modelPrice").

Definition is_token_entry (field : jsstr) (e : price_entry) : bool :=
  str_eqb (pe_field e) field && str_eqb (pe_unit e) (js "token").

Definition getSortPrice (currency : option currency_config) (model : pricing_model)
  (kind : sort_price_kind) : result berr (option num) :=
  let? example :=
    match kind with
    | SortRequest => getCardExamplePrice model (per_million currency)
    | _ => Ok None
    end in
  match example with
  | Some (_, total, _) => Ok (Some total)
  | None =>
      let? summary := getDynamicPricingSummary model (per_million currency) in
      let token_price type field :=
        match summary with
        | Some s => entry_value (is_token_entry (js field)) s
        | None =>
            if negb (isTokenBasedModel model) || isUnconfiguredTaskUsageModel model then None
            else Some (calculateTokenPrice model type (n_of_Z 1))
        end in
      Ok (match kind with
          | SortRequest =>
              match summary with
              | Some s => entry_value is_request_entry s
              | None => if isTokenBasedModel model then None else model_price model
              end
          | SortInput => token_price Pinput "inputPrice"%string
          | SortOutput => token_price Poutput "outputPrice"%string
          end)
  end.

(** Whether the comparator of prices is positive: models without a price come last,
    the others in the direction [rising]. *)
Definition price_after (rising : bool) (a b : pricing_model * option num) : bool :=
  match a.2, b.2 with
  | Some x, Some y =>
      n_gtb (n_mul (n_of_Z (if rising then 1 else -1)) (n_sub x y)) n_zero
  | None, Some _ => true
  | _, None => false
  end.

Definition sortModels (currency : option currency_config) (sortBy : jsstr) (models : list pricing_model)
  : result berr (list pricing_model) :=
  match assoc_get str_eqb sortBy PRICE_SORTS with
  | Some (kind, rising) =>
      let? priced :=
        map_result (fun m => let? p := getSortPrice currency m kind in Ok (m, p)) models in
      Ok (map fst (array_sort (price_after rising) priced))
  | None =>
      if str_eqb sortBy (js "name")
      then Ok (array_sort (fun a b => negb (locale_leb (model_name a) (model_name b))) models)
      else Ok models
  end.

Definition filterAndSortModels (currency : option currency_config) (filters : catalogue_filters)
  (models : list pricing_model) : result berr (list pricing_model) :=
  let result := filterBySearch (f_search filters) models in
  let result := filterByVendor (f_vendor filters) result in
  let result := filterByGroup (f_group filters) result in
  let result := filterByQuotaType (f_quotaType filters) result in
  let result := filterByEndpointType (f_endpointType filters) result in
  let result := filterByTag (f_tag filters) result in
  sortModels currency (f_sortBy filters) result.
End order.
