(* ===== verification/CatalogueSpec.v ===== *)
(** * Properties of the catalogue

    [catalogue_exact]: the list shown holds exactly the models that match every
    criterion, and a sort by price puts them in order, models without a price last. *)

From Stdlib Require Import Sorting.Sorted Sorting.Permutation.
From S2P Require Import Prelude JsString JsNumber JsOrderSpec JsValue JsArray ExprTypes ExprDisplay BillingExpr TaskExpr Currency PricingModel DynamicPrice Catalogue.

(** ** Filters *)

Section filters.
Context `{Host}.

(** A criterion that is not set, or that the model meets. *)
Definition meets (unset : bool) (criterion : bool) : bool := unset || criterion.

(** What the user asked for. *)
Definition matches (filters : catalogue_filters) (m : pricing_model) : bool :=
  let q := to_lower (f_search filters) in
  meets (negb (truthy_str (f_search filters)))
    (existsb (mentions q) [Some (model_name m); description m; tags m; vendor_name m])
  && meets (str_eqb (f_vendor filters) FILTER_ALL)
       (match vendor_name m with Some v => str_eqb v (f_vendor filters) | None => false end)
  && meets (str_eqb (f_group filters) FILTER_ALL) (str_mem (f_group filters) (enable_groups m))
  && meets (str_eqb (f_quotaType filters) (js "all"))
       (if hasTaskUsageSchema m then str_eqb (f_quotaType filters) (js "task")
        else negb (str_eqb (f_quotaType filters) (js "task"))
             && n_eqb (quota_type m)
                  (if str_eqb (f_quotaType filters) (js "token") then TOKEN else REQUEST))
  && meets (str_eqb (f_endpointType filters) (js "all"))
       (match supported_endpoint_types m with
        | Some l => str_mem (f_endpointType filters) l
        | None => false
        end)
  && meets (str_eqb (f_tag filters) FILTER_ALL)
       (str_mem (to_lower (f_tag filters)) (map to_lower (parseTags (tags m)))).

Lemma filter_true {A} (l : list A) : List.filter (fun _ => true) l = l.
Proof. induction l as [|x l IH]; simpl; [done|]. by rewrite IH. Qed.

Lemma filter_filter {A} (p q : A -> bool) l :
  List.filter p (List.filter q l) = List.filter (fun x => q x && p x) l.
Proof.
  induction l as [|x l IH]; simpl; [done|]. destruct (q x); simpl; [|done]. by rewrite IH.
Qed.

(** A filter that is off or on is the filter of its criterion. *)
Lemma filter_meets {A} (unset : bool) (p : A -> bool) l :
  (if unset then l else List.filter p l) = List.filter (fun x => meets unset (p x)) l.
Proof. destruct unset; simpl; [by rewrite filter_true|done]. Qed.

Lemma search_meets query models :
  filterBySearch query models =
  List.filter (fun m => meets (negb (truthy_str query))
    (existsb (mentions (to_lower query)) [Some (model_name m); description m; tags m; vendor_name m])) models.
Proof.
  unfold filterBySearch. rewrite filter_meets. apply List.filter_ext. intros m. f_equal. simpl.
  by rewrite orb_false_r, !orb_assoc.
Qed.

Lemma quota_meets quotaType models :
  filterByQuotaType quotaType models =
  List.filter (fun m => meets (str_eqb quotaType (js "all"))
    (if hasTaskUsageSchema m then str_eqb quotaType (js "task")
     else negb (str_eqb quotaType (js "task"))
          && n_eqb (quota_type m) (if str_eqb quotaType (js "token") then TOKEN else REQUEST))) models.
Proof.
  unfold filterByQuotaType. rewrite <- filter_meets. destruct (str_eqb quotaType (js "all")); [done|].
  destruct (str_eqb quotaType (js "task")); apply List.filter_ext; intros m; simpl;
    destruct (hasTaskUsageSchema m); by rewrite ?andb_true_r, ?andb_false_r.
Qed.

Lemma filters_exact filters models :
  filterByTag (f_tag filters)
    (filterByEndpointType (f_endpointType filters)
       (filterByQuotaType (f_quotaType filters)
          (filterByGroup (f_group filters)
             (filterByVendor (f_vendor filters) (filterBySearch (f_search filters) models)))))
  = List.filter (matches filters) models.
Proof.
  unfold filterByTag, filterByEndpointType, filterByGroup, filterByVendor.
  rewrite !filter_meets, quota_meets, search_meets, !filter_filter.
  apply List.filter_ext. intros m. unfold matches. by rewrite !andb_assoc.
Qed.
End filters.

(** ** Order *)

(** [p] may stand before [q]: prices in the direction chosen, missing ones last. *)
Definition price_order (rising : bool) (p q : option num) : Prop :=
  match p, q with
  | Some x, Some y => (if rising then n_leb x y else n_leb y x) = true
  | None, Some _ => False
  | _, None => True
  end.

Definition real_price (a : pricing_model * option num) : Prop :=
  match a.2 with Some x => real x | None => True end.

(** The comparator of the code, on real prices. *)
Lemma price_after_order rising a b :
  real_price a -> real_price b ->
  price_after rising a b = false <-> price_order rising a.2 b.2.
Proof.
  unfold real_price, price_after, price_order.
  destruct a as [m [x|]], b as [m' [y|]]; simpl; intros Hx Hy; try done.
  change (n_of_Z (if rising then 1 else -1)) with (unit_sign rising).
  rewrite difference_gt, (leb_value x), (leb_value y) by done.
  destruct rising; rewrite Z.ltb_ge, Z.leb_le; done.
Qed.

Lemma price_order_trans rising a b c :
  real_price a -> real_price b -> real_price c ->
  price_order rising a.2 b.2 -> price_order rising b.2 c.2 -> price_order rising a.2 c.2.
Proof.
  unfold real_price, price_order.
  destruct a as [ma [x|]], b as [mb [y|]], c as [mc [z|]]; simpl; try done. intros Hx Hy Hz.
  destruct rising; rewrite !leb_value by done; rewrite !Z.leb_le; lia.
Qed.

Lemma price_order_total rising a b :
  real_price a -> real_price b -> ~ price_order rising a.2 b.2 -> price_order rising b.2 a.2.
Proof.
  unfold real_price, price_order.
  destruct a as [ma [x|]], b as [mb [y|]]; simpl; try done. intros Hx Hy.
  destruct rising; rewrite !leb_value by done; rewrite !Z.leb_le; lia.
Qed.

(** A sort with the comparator of the code is in order. *)
Lemma price_sort_sorted rising l :
  Forall real_price l ->
  StronglySorted (fun a b => price_order rising a.2 b.2) (array_sort (price_after rising) l).
Proof.
  intros Hl.
  assert (Hall : Forall real_price (array_sort (price_after rising) l)).
  { eapply Permutation_Forall; [symmetry; apply array_sort_perm|done]. }
  assert (Hs : StronglySorted (fun a b => price_after rising a b = false)
                 (array_sort (price_after rising) l)).
  { apply (array_sort_sorted _ real_price); [| |done].
    - intros a b Ha Hb Hab. apply price_after_order; [done..|]. apply price_order_total; [done..|].
      rewrite <- price_after_order by done. congruence.
    - intros a b c Ha Hb Hc Hba Hcb. apply price_after_order in Hba, Hcb; try done.
      apply price_after_order; [done..|]. by apply (price_order_trans _ c b a). }
  revert Hall. induction Hs as [|a l' Hs IH Hf]; intros Hall; [constructor|].
  inversion Hall as [|? ? Ha Hall']; subst. constructor; [auto|].
  rewrite List.Forall_forall in Hf, Hall' |- *. intros b Hb. apply price_after_order; auto.
Qed.

Lemma map_result_Forall2 {A B} (f : A -> result berr B) l : forall l',
  map_result f l = Ok l' -> Forall2 (fun x y => f x = Ok y) l l'.
Proof.
  induction l as [|x l IH]; simpl; intros l' Hm; [injection Hm as <-; constructor|].
  destruct (f x) as [y|] eqn:E; [|done]. destruct (map_result f l) as [ys|]; [|done].
  injection Hm as <-. constructor; auto.
Qed.

Section order.
Context `{Host} {Col : Collation} {Fmt : NumberFormat}.

(** The price a model is sorted by. *)
Definition has_price (currency : option currency_config) (kind : sort_price_kind)
  (m : pricing_model) (p : option num) : Prop := getSortPrice currency m kind = Ok p.

Lemma priced_pairs currency kind models priced :
  map_result (fun m => let? p := getSortPrice currency m kind in Ok (m, p)) models = Ok priced ->
  map fst priced = models /\ Forall (fun a => has_price currency kind a.1 a.2) priced.
Proof.
  intros Hm%map_result_Forall2. induction Hm as [|m [m' p] models priced Hp _ [IH1 IH2]]; [done|].
  unfold has_price. destruct (getSortPrice currency m kind) as [q|] eqn:E; [|done].
  injection Hp as <- <-. simpl. split; [by f_equal|]. by constructor.
Qed.

Lemma StronglySorted_map {A B} (f : A -> B) (R : B -> B -> Prop) l :
  StronglySorted (fun a b => R (f a) (f b)) l -> StronglySorted R (map f l).
Proof.
  induction 1 as [|a l Hs IH Hf]; simpl; constructor; [done|].
  apply List.Forall_map. exact Hf.
Qed.

(** Sorting by price keeps the models and puts them in order. *)
Lemma sortModels_price currency sortBy kind rising models shown :
  assoc_get str_eqb sortBy PRICE_SORTS = Some (kind, rising) ->
  (forall m x, In m models -> has_price currency kind m (Some x) -> real x) ->
  sortModels currency sortBy models = Ok shown ->
  StronglySorted (fun a b => forall p q,
    has_price currency kind a p -> has_price currency kind b q -> price_order rising p q) shown.
Proof.
  intros Hk Hreal Hs. unfold sortModels in Hs. rewrite Hk in Hs.
  destruct (map_result _ models) as [priced|] eqn:Hm; [|done]. injection Hs as <-.
  apply priced_pairs in Hm as [<- Hp]. apply StronglySorted_map.
  assert (Hr : Forall real_price priced).
  { rewrite List.Forall_forall in Hp |- *. intros [m p] Hin. specialize (Hp _ Hin). unfold real_price.
    destruct p as [x|]; simpl in *; [|done]. apply (Hreal m); [|done]. apply in_map_iff. by exists (m, Some x). }
  assert (Hp' : Forall (fun a => has_price currency kind a.1 a.2) (array_sort (price_after rising) priced)).
  { eapply Permutation_Forall; [symmetry; apply array_sort_perm|done]. }
  pose proof (price_sort_sorted rising priced Hr) as Hs. revert Hp'.
  induction Hs as [|a l Hs IH Hf]; intros Hp'; [constructor|]. inversion Hp' as [|? ? Ha Hl]; subst.
  constructor; [auto|]. rewrite List.Forall_forall in Hf, Hl |- *.
  intros b Hb p q Hpa Hqb. specialize (Hf b Hb). specialize (Hl b Hb). unfold has_price in *.
  rewrite Ha in Hpa. rewrite Hl in Hqb. by simplify_eq.
Qed.

Lemma sortModels_perm currency sortBy models shown :
  sortModels currency sortBy models = Ok shown -> Permutation shown models.
Proof.
  unfold sortModels. destruct (assoc_get str_eqb sortBy PRICE_SORTS) as [[kind rising]|].
  - destruct (map_result _ models) as [priced|] eqn:Hm; [|done]. intros [= <-].
    apply priced_pairs in Hm as [<- _]. by apply Permutation_map, array_sort_perm.
  - destruct (str_eqb sortBy (js "name")); intros [= <-]; [apply array_sort_perm|done].
Qed.

(** C40: the catalogue shows exactly the models that match every criterion the user
    set, each as often as it is listed; sorted by a kind of price, the prices follow
    the direction chosen, and models without such a price come last in both
    directions. *)
Theorem catalogue_exact currency filters models shown :
  filterAndSortModels currency filters models = Ok shown ->
  Permutation shown (List.filter (matches filters) models)
  /\ forall kind rising,
       assoc_get str_eqb (f_sortBy filters) PRICE_SORTS = Some (kind, rising) ->
       (forall m x, In m models -> has_price currency kind m (Some x) -> real x) ->
       StronglySorted (fun a b => forall p q,
         has_price currency kind a p -> has_price currency kind b q -> price_order rising p q) shown.
Proof.
  unfold filterAndSortModels. rewrite filters_exact. intros Hs. split; [by eapply sortModels_perm|].
  intros kind rising Hk Hreal. eapply sortModels_price; [exact Hk| |exact Hs].
  intros m x Hin. apply Hreal. by apply filter_In in Hin as [? _].
Qed.
End order.

(** ** Witness *)

Definition unit_collation : Collation := {| locale_leb := str_leb |}.
Definition unit_format : NumberFormat :=
  {| number_format := fun _ _ x => string_of_number x; pow10 := fun n => n_of_decimal 1 n |}.

(** A model billed by ratio, or per request when [price] is given. *)
Definition sample_model (name : string) (ratio : Z) (price : option Z) : pricing_model :=
  PricingModel [] (js name) None (Some (js "acme"))
    (match price with Some _ => REQUEST | None => TOKEN end) (n_of_Z ratio) None (n_of_Z 2)
    (option_map n_of_Z price) None None None None None [js "default"] None None [] None None None None.

Definition sample_models : list pricing_model :=
  [sample_model "per-call" 1 (Some 5%Z); sample_model "large" 3 None; sample_model "small" 1 None].

Definition sample_filters : catalogue_filters :=
  CatalogueFilters [] (js "acme") (js "all") (js "all") (js "all") (js "all") (js "input-price-low").

Lemma catalogue_exact_witness :
  match @filterAndSortModels plain_host unit_collation unit_format None sample_filters sample_models with
  | Ok shown =>
      map model_name shown = [js "small"; js "large"; js "per-call"]
      /\ Permutation shown (List.filter (@matches plain_host sample_filters) sample_models)
      /\ StronglySorted (fun a b => forall p q,
           @has_price plain_host unit_collation unit_format None SortInput a p ->
           @has_price plain_host unit_collation unit_format None SortInput b q ->
           price_order true p q) shown
  | Err _ => False
  end.
Proof.
  destruct (@filterAndSortModels plain_host unit_collation unit_format None sample_filters sample_models)
    as [shown|] eqn:Hs; [|vm_compute in Hs; discriminate Hs].
  split; [vm_compute in Hs; injection Hs as <-; reflexivity|].
  destruct (@catalogue_exact plain_host unit_collation unit_format None sample_filters sample_models
    shown Hs) as [Hp Ho].
  split; [exact Hp|]. apply (Ho SortInput true eq_refl).
  intros m x Hm Hx. unfold has_price in Hx.
  repeat (destruct Hm as [<-|Hm]; [vm_compute in Hx; (discriminate Hx || (injection Hx as <-; split; reflexivity))|]).
  destruct Hm.
Defined.
