(* ===== verification/AuthSession.v ===== *)
(** * The login session of a tab

    Models [stores/auth-store.ts], [lib/auth-session.ts], [lib/session-hint.ts] and
    [lib/auth-session-sync.ts] with its listener in [routes/__root.tsx]: the session
    a tab holds in memory, and the refresh of its access token, which several
    callers share, which the server may ask to repeat, and during which the user may
    sign in or out.

    JavaScript runs one event at a time and gives up control at each [await].  The
    state [tab] holds the store and the module variables; a refresh in progress is
    the place it waits at ([phase]).  [step] is what one event does: a call from the
    rest of the program, the grant of the browser lock, the answer of the server, the
    end of a delay, the callback of [finally].  Events that are not possible in a
    state have no step. *)

From S2P Require Import Prelude JsString JsNumber JsValue.

(** ** The store *)

(** [AuthUser]: an object; the code modelled here reads its [id] only. *)
Abbreviation auth_user := (list (jsstr * jsval)).

Record login_session := LoginSession {
  sid : jsstr;
  current : bool;
  login_method : jsstr;
  ip : jsstr;
  user_agent : jsstr;
  created_at : num;
  last_active_at : num;
  expires_at : num;
}.

Record auth_bundle := AuthBundle {
  access_token : jsstr;
  token_type : jsstr;
  access_expires_at : num;
  b_user : auth_user;
  b_session : login_session;
}.

Inductive bootstrap_state : Type := Bidle | Bchecking | Bcomplete.

#[export] Instance bootstrap_state_eq_dec : EqDecision bootstrap_state.
Proof. solve_decision. Defined.

Record auth_store := AuthStore {
  user : option auth_user;
  accessToken : option jsstr;
  accessExpiresAt : option num;
  session : option login_session;
  pendingLoginVerification : option jsval;
  bootstrapState : bootstrap_state;
}.

Definition initial_store : auth_store := AuthStore None None None None None Bidle.

Definition setBundle (b : auth_bundle) (_ : auth_store) : auth_store :=
  AuthStore (Some (b_user b)) (Some (access_token b)) (Some (access_expires_at b))
    (Some (b_session b)) None Bcomplete.

(** [user?.id] *)
Definition user_id (u : option auth_user) : jsval :=
  match u with Some o => default VUndef (prop_get (js "id") o) | None => VUndef end.

Definition setUser (u : option auth_user) (s : auth_store) : auth_store :=
  AuthStore u (accessToken s) (accessExpiresAt s) (session s)
    (if strict_eqb (user_id (user s)) (user_id u) then pendingLoginVerification s else None)
    (bootstrapState s).

Definition setPendingLoginVerification (p : option jsval) (s : auth_store) : auth_store :=
  AuthStore (user s) (accessToken s) (accessExpiresAt s) (session s) p (bootstrapState s).

Definition setBootstrapState (b : bootstrap_state) (s : auth_store) : auth_store :=
  AuthStore (user s) (accessToken s) (accessExpiresAt s) (session s)
    (pendingLoginVerification s) b.

Definition reset (b : bootstrap_state) (_ : auth_store) : auth_store :=
  AuthStore None None None None None b.

(** ** Answers of the server *)

Definition isRecord (v : jsval) : bool := is_object v.

(** [value.key] of a record. *)
Definition field (k : string) (v : jsval) : jsval :=
  match v with VObj o => default VUndef (prop_get (js k) o) | _ => VUndef end.

Definition is_string (v : jsval) : bool := match v with VStr _ => true | _ => false end.
Definition is_number (v : jsval) : bool := match v with VNum _ => true | _ => false end.
Definition is_boolean (v : jsval) : bool := match v with VBool _ => true | _ => false end.
(** [typeof v === 'string' && v.length > 0] *)
Definition is_text (v : jsval) : bool := match v with VStr s => truthy_str s | _ => false end.

Definition isAuthUser (v : jsval) : bool :=
  isRecord v &&
  (match field "id" v with VNum x => is_integer x && n_gtb x n_zero | _ => false end
   && is_string (field "username" v) && is_number (field "role" v)).

Definition isLoginSession (v : jsval) : bool :=
  isRecord v &&
  (is_text (field "sid" v) && is_boolean (field "current" v)
   && is_string (field "login_method" v) && is_string (field "ip" v)
   && is_string (field "user_agent" v) && is_number (field "created_at" v)
   && is_number (field "last_active_at" v) && is_number (field "expires_at" v)).

Definition hasValidTokenFields (v : jsval) : bool :=
  is_text (field "access_token" v) && is_text (field "token_type" v)
  && match field "access_expires_at" v with
     | VNum x => is_finite x && n_gtb x n_zero
     | _ => false
     end.

Definition isAuthBundle (v : jsval) : bool :=
  isRecord v &&
  (hasValidTokenFields v && isAuthUser (field "user" v) && isLoginSession (field "session" v)).

Definition as_string (v : jsval) : jsstr := match v with VStr s => s | _ => [] end.
Definition as_number (v : jsval) : num := match v with VNum x => x | _ => SpecFloat.S754_nan end.
Definition as_boolean (v : jsval) : bool := match v with VBool b => b | _ => false end.
Definition as_object (v : jsval) : list (jsstr * jsval) := match v with VObj o => o | _ => [] end.

(** The value a guard accepted, at its type. *)
Definition as_session (v : jsval) : login_session :=
  LoginSession (as_string (field "sid" v)) (as_boolean (field "current" v))
    (as_string (field "login_method" v)) (as_string (field "ip" v))
    (as_string (field "user_agent" v)) (as_number (field "created_at" v))
    (as_number (field "last_active_at" v)) (as_number (field "expires_at" v)).

Definition as_bundle (v : jsval) : auth_bundle :=
  AuthBundle (as_string (field "access_token" v)) (as_string (field "token_type" v))
    (as_number (field "access_expires_at" v)) (as_object (field "user" v))
    (as_session (field "session" v)).

(** [parseBundle] of [runRefresh] *)
Definition parseBundle (v : jsval) : option auth_bundle :=
  if isAuthBundle v then Some (as_bundle v) else None.

Definition isAuthTokenRotation (v : jsval) : bool :=
  isRecord v && hasValidTokenFields v
  && strict_eqb (field "token_type" v) (VStr (js "Bearer"))
  && isLoginSession (field "session" v)
  && as_boolean (field "current" (field "session" v)).

(** [AuthRefreshHTTPResponse]; a failed connection has status 0. *)
Record http_response := HttpResponse {
  status : Z;
  data : jsval;
  error : jsval;
}.

(** ** Refreshing *)

Inductive transient_cause : Type :=
| Superseded
| Reported (error : jsval).

(** [RefreshOutcome] *)
Inductive refresh_outcome : Type :=
| Authenticated (b : auth_bundle)
| Anonymous
| TransientError (c : transient_cause)
| OutOfSync (code : jsstr).

(** How the shared promise ends. *)
Inductive settlement : Type :=
| Fulfilled (o : refresh_outcome)
| Rejected.

(** Where a refresh waits: for the lock of the browser, for the answer to a request
    that named the session [expected], for the end of a delay, or for the callback
    that forgets it. *)
Inductive phase : Type :=
| Locking
| Requesting (raceAttempt : nat) (allowMismatchRetry : bool) (expected : option jsstr)
| Waiting (raceAttempt : nat) (allowMismatchRetry : bool) (delay : Z)
| Settled (s : settlement).

Record refresh := Refresh {
  refreshEpoch : Z;
  r_phase : phase;
}.

Inductive sync_kind : Type := Kauthenticated | Ksigned_out.

Record tab := Tab {
  store : auth_store;
  authEpoch : Z;
  refreshPromise : option refresh;
  published : list (sync_kind * jsstr);
}.

Definition initial_tab : tab := Tab initial_store 0 None [].

Definition set_store (s : auth_store) (t : tab) : tab :=
  Tab s (authEpoch t) (refreshPromise t) (published t).
Definition next_epoch (t : tab) : tab :=
  Tab (store t) (authEpoch t + 1) (refreshPromise t) (published t).
Definition set_refresh (r : option refresh) (t : tab) : tab :=
  Tab (store t) (authEpoch t) r (published t).

(** [publishAuthSessionEvent] *)
Definition publishAuthSessionEvent (k : sync_kind) (s : jsstr) (t : tab) : tab :=
  if truthy_str s
  then Tab (store t) (authEpoch t) (refreshPromise t) (published t ++ [(k, s)]) else t.

(** [useAuthStore.getState().auth.session?.sid] *)
Definition current_sid (t : tab) : option jsstr := sid <$> session (store t).

Definition opt_str_eqb (a b : option jsstr) : bool :=
  match a, b with
  | Some x, Some y => str_eqb x y
  | None, None => true
  | _, _ => false
  end.

Definition applyAuthBundle (b : auth_bundle) (synchronizeTabs : bool) (t : tab) : tab :=
  let previousSID := current_sid t in
  let t := next_epoch t in
  let t := set_store (setBundle b (store t)) t in
  if synchronizeTabs && negb (opt_str_eqb previousSID (Some (sid (b_session b))))
  then publishAuthSessionEvent Kauthenticated (sid (b_session b)) t else t.

Definition clearAuthentication (synchronizeTabs : bool) (b : bootstrap_state) (t : tab) : tab :=
  let sid := current_sid t in
  let t := next_epoch t in
  let t := set_store (reset b (store t)) t in
  match sid with
  | Some s =>
      if synchronizeTabs && truthy_str s then publishAuthSessionEvent Ksigned_out s t else t
  | None => t
  end.

(** The query cache it also empties belongs to a library. *)
Definition clearAuthenticatedClientState (synchronizeTabs : bool) (t : tab) : tab :=
  clearAuthentication synchronizeTabs Bcomplete t.

Inductive rotation_error : Type := Invalid_response | No_active_session | Session_mismatch.

Definition applyAuthRotation (v : jsval) (t : tab) : result rotation_error tab :=
  if negb (isAuthTokenRotation v) then Err Invalid_response
  else
    match user (store t), session (store t) with
    | Some u, Some s =>
        let new := as_session (field "session" v) in
        if negb (str_eqb (sid new) (sid s)) then Err Session_mismatch
        else
          Ok (applyAuthBundle
                (AuthBundle (as_string (field "access_token" v)) (as_string (field "token_type" v))
                   (as_number (field "access_expires_at" v)) u new) false t)
    | _, _ => Err No_active_session
    end.

(** [runtime.clear] of [runRefresh] *)
Definition runtime_clear (synchronizeTabs : bool) (b : option bootstrap_state) (t : tab) : tab :=
  if negb synchronizeTabs && match b with Some Bidle => true | _ => false end
  then set_store (reset Bidle (store t)) t
  else clearAuthentication synchronizeTabs (default Bcomplete b) t.

Definition refreshRaceDelays : list Z := [80; 200; 500]%Z.

Section refresh.
Variable epoch : Z.  (** [refreshEpoch] *)

Definition isCurrent (t : tab) : bool := Z.eqb (authEpoch t) epoch.

Definition settle (o : refresh_outcome) (t : tab) : tab :=
  set_refresh (Some (Refresh epoch (Settled (Fulfilled o)))) t.

(** [run(raceAttempt, allowMismatchRetry)], up to its request. *)
Definition run (raceAttempt : nat) (allowMismatchRetry : bool) (t : tab) : tab :=
  if negb (isCurrent t) then settle (TransientError Superseded) t
  else
    set_refresh
      (Some (Refresh epoch (Requesting raceAttempt allowMismatchRetry (current_sid t)))) t.

(** [response.data?.code] *)
Definition response_code (r : http_response) : option jsstr :=
  match (if isRecord (data r) then field "code" (data r) else VUndef) with
  | VStr s => Some s
  | _ => None
  end.

Definition code_is (r : http_response) (s : string) : bool :=
  match response_code r with Some c => str_eqb c (js s) | None => false end.

(** The bundle of a successful answer. *)
Definition response_bundle (r : http_response) : option auth_bundle :=
  let! b := parseBundle (if isRecord (data r) then field "data" (data r) else VUndef) in
  if strict_eqb (field "success" (data r)) (VBool true) then Some b else None.

(** The rest of [run], once the answer is there. *)
Definition respond (raceAttempt : nat) (allowMismatchRetry : bool) (r : http_response) (t : tab)
  : tab :=
  if negb (isCurrent t) then settle (TransientError Superseded) t
  else
    match response_bundle r with
    | Some b => settle (Authenticated b) (applyAuthBundle b false t)
    | None =>
        if Z.eqb (status r) 409 && code_is r "AUTH_REFRESH_RACE" then
          match refreshRaceDelays !! raceAttempt with
          | Some delay =>
              set_refresh (Some (Refresh epoch (Waiting raceAttempt allowMismatchRetry delay))) t
          | None => settle (OutOfSync (js "AUTH_REFRESH_RACE")) (runtime_clear false None t)
          end
        else if Z.eqb (status r) 409 && code_is r "AUTH_SESSION_MISMATCH" then
          if allowMismatchRetry then run 0 false (runtime_clear false (Some Bidle) t)
          else settle (OutOfSync (js "AUTH_SESSION_MISMATCH")) (runtime_clear false None t)
        else if Z.eqb (status r) 401 then settle Anonymous (runtime_clear true None t)
        else if Z.eqb (status r) 0 || Z.leb 500 (status r) || Z.eqb (status r) 429 then
          settle
            (TransientError (Reported (if is_nullish (error r) then data r else error r)))
            (set_store (setBootstrapState Bidle (store t)) t)
        else
          settle (OutOfSync (default (js "AUTH_INVALID_REFRESH_RESPONSE") (response_code r)))
            (runtime_clear false None t)
    end.
End refresh.

(** [performRefreshWithBrowserLock(refreshEpoch)], up to its first [await];
    [locks] tells whether the browser has [navigator.locks]. *)
Definition performRefreshWithBrowserLock (locks : bool) (epoch : Z) (t : tab) : tab :=
  if locks then set_refresh (Some (Refresh epoch Locking)) t else run epoch 0 true t.

Definition refreshAuthentication (locks : bool) (t : tab) : tab :=
  match refreshPromise t with
  | Some _ => t
  | None => performRefreshWithBrowserLock locks (authEpoch t) t
  end.

(** ** Resolving *)

(** [Math.floor(Date.now() / 1000)] *)
Definition seconds (now : Z) : num := n_floor (n_div (n_of_Z now) (n_of_Z 1000)).

(** A number that is neither zero nor NaN. *)
Definition truthy_num (x : num) : bool := negb (n_eqb x n_zero) && negb (is_nan x).

Definition currentValidAuthBundle (now : Z) (t : tab) : option auth_bundle :=
  match user (store t), accessToken (store t), accessExpiresAt (store t), session (store t) with
  | Some u, Some token, Some expires, Some s =>
      if negb (truthy_str token) || negb (truthy_num expires) || n_leb expires (seconds now)
      then None
      else Some (AuthBundle token (js "Bearer") expires u s)
  | _, _, _, _ => None
  end.

(** What an asynchronous call returns: an outcome, or the shared promise. *)
Inductive answer : Type :=
| Now (o : refresh_outcome)
| Later.

Definition resolveAuthentication (locks : bool) (now : Z) (t : tab) : answer * tab :=
  match currentValidAuthBundle now t with
  | Some b => (Now (Authenticated b), set_store (setBootstrapState Bcomplete (store t)) t)
  | None =>
      let hasStaleSession :=
        match user (store t), session (store t) with Some _, Some _ => true | _, _ => false end in
      if match bootstrapState (store t) with Bcomplete => true | _ => false end
         && negb hasStaleSession
      then (Now Anonymous, t)
      else
        (Later,
         refreshAuthentication locks (set_store (setBootstrapState Bchecking (store t)) t))
  end.

Definition SESSION_HINT_COOKIE_NAME : jsstr := js "new_api_has_session".

(** [cookieHeader.split(';')] *)
Fixpoint split_at (c : N) (s : jsstr) : list jsstr :=
  match s with
  | [] => [[]]
  | x :: s' =>
      if N.eqb x c then [] :: split_at c s'
      else match split_at c s' with p :: ps => (x :: p) :: ps | [] => [[x]] end
  end.

Fixpoint index_of (c : N) (s : jsstr) : option nat :=
  match s with
  | [] => None
  | x :: s' => if N.eqb x c then Some 0 else S <$> index_of c s'
  end.

Fixpoint read_parts (parts : list jsstr) (name : jsstr) : option jsstr :=
  match parts with
  | [] => None
  | part :: parts' =>
      match index_of (ch "=") part with
      | None => read_parts parts' name
      | Some i =>
          if str_eqb (trim (take i part)) name then Some (trim (drop (S i) part))
          else read_parts parts' name
      end
  end.

Definition readCookie (cookieHeader name : jsstr) : option jsstr :=
  read_parts (split_at (ch ";") cookieHeader) name.

(** [document.cookie], or nothing when there is no document. *)
Definition hasSessionHint (cookies : option jsstr) : bool :=
  match cookies with
  | None => true
  | Some header =>
      match readCookie header SESSION_HINT_COOKIE_NAME with Some _ => true | None => false end
  end.

Definition bootstrapAuthentication (locks : bool) (now : Z) (cookies : option jsstr) (t : tab)
  : answer * tab :=
  let no_session :=
    match user (store t), session (store t) with None, None => true | _, _ => false end in
  if match currentValidAuthBundle now t with None => true | _ => false end
     && negb (hasSessionHint cookies) && no_session
  then (Now Anonymous, t)
  else resolveAuthentication locks now t.

(** ** Headers *)

Definition getCommonHeaders (t : tab) : list (jsstr * jsstr) :=
  (js "Content-Type", js "application/json") ::
  match accessToken (store t) with
  | Some token =>
      if truthy_str token then [(js "Authorization", js "Bearer " ++ token)] else []
  | None => []
  end.

(** [accessToken && accessExpiresAt && accessExpiresAt > bound] *)
Definition token_after (bound : num) (t : tab) : bool :=
  match accessToken (store t), accessExpiresAt (store t) with
  | Some token, Some expires => truthy_str token && truthy_num expires && n_gtb expires bound
  | _, _ => false
  end.

Inductive headers_error : Type :=
| Request_failed (cause : transient_cause)
| Session_expired
| Refresh_rejected.

(** [getFreshAuthHeaders], up to its [await]: the headers, or the shared promise. *)
Definition getFreshAuthHeaders (locks : bool) (now : Z) (t : tab)
  : option (list (jsstr * jsstr)) * tab :=
  if token_after (n_add (seconds now) (n_of_Z 60)) t then (Some (getCommonHeaders t), t)
  else (None, refreshAuthentication locks t).

(** The rest of it, when the promise has ended as [s]. *)
Definition fresh_headers_resumed (now : Z) (s : settlement) (t : tab)
  : result headers_error (list (jsstr * jsstr)) :=
  match s with
  | Rejected => Err Refresh_rejected
  | Fulfilled (Authenticated _) => Ok (getCommonHeaders t)
  | Fulfilled outcome =>
      if token_after (seconds now) t then Ok (getCommonHeaders t)
      else
        match outcome with
        | TransientError c => Err (Request_failed c)
        | _ => Err Session_expired
        end
  end.

(** ** Messages of other tabs *)

Definition isAuthSessionSyncEvent (v : jsval) : bool :=
  isRecord v &&
  ((strict_eqb (field "kind" v) (VStr (js "authenticated"))
    || strict_eqb (field "kind" v) (VStr (js "signed_out")))
   && is_text (field "sid" v) && is_string (field "source" v)
   && is_string (field "nonce" v) && is_number (field "timestamp" v)).

(** What the listener asks of the page besides. *)
Inductive page_effect : Type := Reload_page | Go_to_sign_in.

(** The listener of the root route. *)
Definition root_listener (kind : sync_kind) (s : jsstr) (t : tab) : tab * option page_effect :=
  let currentSID := current_sid t in
  match kind with
  | Kauthenticated =>
      if opt_str_eqb (Some s) currentSID then (t, None)
      else
        (if truthy_str (default [] currentSID) then clearAuthentication false Bcomplete t else t,
         Some Reload_page)
  | Ksigned_out =>
      if truthy_str (default [] currentSID) && opt_str_eqb (Some s) currentSID
      then (clearAuthenticatedClientState false t, Some Go_to_sign_in)
      else (t, None)
  end.

(** [deliver] of [subscribeAuthSessionEvents]; [source] is [authSyncSource]. *)
Definition deliver (source : jsstr) (now : Z) (v : jsval) (t : tab) : tab * option page_effect :=
  if isAuthSessionSyncEvent v
     && negb (strict_eqb (field "source" v) (VStr source))
     && n_ltb (n_abs (n_sub (n_of_Z now) (as_number (field "timestamp" v)))) (n_of_Z 60000)
  then
    root_listener
      (if strict_eqb (field "kind" v) (VStr (js "authenticated")) then Kauthenticated
       else Ksigned_out)
      (as_string (field "sid" v)) t
  else (t, None).

(** ** Events *)

Inductive event : Type :=
| Login (answer : jsval)                      (* a login form got its answer *)
| Rotate (answer : jsval)                     (* an answer that changes the token *)
| Sign_out (synchronizeTabs : bool)           (* by the user, or after a repeated 401 *)
| Set_user (u : option auth_user)
| Set_pending (p : option jsval)
| Bootstrap (locks : bool) (now : Z) (cookies : option jsstr)
| Resolve (locks : bool) (now : Z)
| Fresh_headers (locks : bool) (now : Z)
| Refresh_now (locks : bool)                  (* [refreshAuthentication], after a 401 *)
| Message (source : jsstr) (now : Z) (v : jsval)
| Unload                                      (* the page is loaded again *)
| Lock_granted
| Lock_rejected
| Response (r : http_response)
| Timer
| Finally.

(** The events a refresh in progress waits for. *)
Definition runs (e : event) : bool :=
  match e with
  | Lock_granted | Lock_rejected | Response _ | Timer | Finally => true
  | _ => false
  end.

Definition settled (e : event) : bool := match e with Finally => true | _ => false end.
Definition unloads (e : event) : bool := match e with Unload => true | _ => false end.

(** The continuation of a refresh that waits at [r]. *)
Definition continue (r : refresh) (e : event) (t : tab) : option tab :=
  match r_phase r, e with
  | Locking, Lock_granted => Some (run (refreshEpoch r) 0 true t)
  | Locking, Lock_rejected => Some (set_refresh (Some (Refresh (refreshEpoch r) (Settled Rejected))) t)
  | Requesting a m _, Response x => Some (respond (refreshEpoch r) a m x t)
  | Waiting a m _, Timer => Some (run (refreshEpoch r) (S a) m t)
  | Settled _, Finally => Some (set_refresh None t)
  | _, _ => None
  end.

Definition step (e : event) (t : tab) : option tab :=
  match e with
  | Login v => if isAuthBundle v then Some (applyAuthBundle (as_bundle v) true t) else None
  | Rotate v => Some (default t (ok_option (applyAuthRotation v t)))
  | Sign_out b => Some (clearAuthenticatedClientState b t)
  | Set_user u => Some (set_store (setUser u (store t)) t)
  | Set_pending p => Some (set_store (setPendingLoginVerification p (store t)) t)
  | Bootstrap l now c => Some (snd (bootstrapAuthentication l now c t))
  | Resolve l now => Some (snd (resolveAuthentication l now t))
  | Fresh_headers l now => Some (snd (getFreshAuthHeaders l now t))
  | Refresh_now l => Some (refreshAuthentication l t)
  | Message source now v => Some (fst (deliver source now v t))
  | Unload => Some (Tab initial_store 0 None (published t))
  | Lock_granted | Lock_rejected | Response _ | Timer | Finally =>
      let! r := refreshPromise t in continue r e t
  end.

Fixpoint steps (es : list event) (t : tab) : option tab :=
  match es with
  | [] => Some t
  | e :: es' => let! t' := step e t in steps es' t'
  end.

Definition reachable (t : tab) : Prop := exists es, steps es initial_tab = Some t.
