(* ===== verification/AuthSessionSpec.v ===== *)
(** * Properties of the login session of a tab

    [session_invariant]: what holds of every state a tab can reach;
    [superseded_inert]: a refresh that was overtaken by a sign-in or sign-out has no
    effect; [refresh_ends]: every refresh ends after a bounded number of steps;
    [no_verdict_without_answer]: a visitor is not taken for signed out before the
    server, the user or another tab said so. *)

From S2P Require Import Prelude JsString JsNumber JsValue AuthSession.

Local Open Scope Z_scope.

(** ** The invariant *)

(** What the guards establish of a bundle. *)
Definition bundle_ok (b : auth_bundle) : Prop :=
  truthy_str (access_token b) = true /\ is_finite (access_expires_at b) = true
  /\ n_gtb (access_expires_at b) n_zero = true /\ truthy_str (sid (b_session b)) = true.

(** Token, expiry and session are present together, and usable. *)
Definition store_ok (s : auth_store) : Prop :=
  match accessToken s, accessExpiresAt s, session s with
  | Some token, Some expires, Some login =>
      truthy_str token = true /\ is_finite expires = true /\ n_gtb expires n_zero = true
      /\ truthy_str (sid login) = true
  | None, None, None => True
  | _, _, _ => False
  end.

(** A refresh was started in this or an earlier epoch; it stays within the table of
    delays; while it is current, the request it waits for named the session the tab
    holds. *)
Definition refresh_ok (t : tab) : Prop :=
  match refreshPromise t with
  | None => True
  | Some r =>
      refreshEpoch r <= authEpoch t
      /\ match r_phase r with
         | Requesting a _ expected =>
             (a <= length refreshRaceDelays)%nat
             /\ (refreshEpoch r = authEpoch t -> expected = current_sid t)
         | Waiting a _ delay => refreshRaceDelays !! a = Some delay
         | _ => True
         end
  end.

Definition published_ok (t : tab) : Prop :=
  Forall (fun m => truthy_str (snd m) = true) (published t).

Definition tab_ok (t : tab) : Prop :=
  store_ok (store t) /\ refresh_ok t /\ published_ok t.

Lemma field_text k v : is_text (field k v) = true -> truthy_str (as_string (field k v)) = true.
Proof. by destruct (field k v). Qed.

Lemma token_fields_ok v :
  hasValidTokenFields v = true ->
  truthy_str (as_string (field "access_token" v)) = true
  /\ is_finite (as_number (field "access_expires_at" v)) = true
  /\ n_gtb (as_number (field "access_expires_at" v)) n_zero = true.
Proof.
  unfold hasValidTokenFields. intros H. bprop.
  destruct (field "access_expires_at" v); try discriminate. bprop. auto using field_text.
Qed.

Lemma session_sid_ok v :
  isLoginSession v = true -> truthy_str (sid (as_session v)) = true.
Proof. unfold isLoginSession. intros H. bprop. simpl. by apply field_text. Qed.

Lemma isAuthBundle_ok v : isAuthBundle v = true -> bundle_ok (as_bundle v).
Proof.
  unfold isAuthBundle. intros H. bprop.
  destruct (token_fields_ok v) as (? & ? & ?); [done|].
  repeat split; try done. by apply session_sid_ok.
Qed.

Lemma response_bundle_ok r b : response_bundle r = Some b -> bundle_ok b.
Proof.
  unfold response_bundle, parseBundle. intros H. inv_ok H. by apply isAuthBundle_ok.
Qed.

(** An operation that opens a new epoch keeps the refresh in order. *)
Lemma refresh_ok_later t t' :
  refreshPromise t' = refreshPromise t -> authEpoch t < authEpoch t' ->
  refresh_ok t -> refresh_ok t'.
Proof.
  unfold refresh_ok. intros -> ?. destruct (refreshPromise t) as [[e p]|]; simpl; [|done].
  intros [? Hp]. split; [lia|]. destruct p; [done| |done|done].
  destruct Hp. split; [done|]. lia.
Qed.

(** One that leaves epoch and session alone, too. *)
Lemma refresh_ok_same t t' :
  refreshPromise t' = refreshPromise t -> authEpoch t' = authEpoch t ->
  session (store t') = session (store t) -> refresh_ok t -> refresh_ok t'.
Proof. unfold refresh_ok, current_sid. by intros -> -> ->. Qed.

Lemma publish_eq k s t :
  store (publishAuthSessionEvent k s t) = store t
  /\ authEpoch (publishAuthSessionEvent k s t) = authEpoch t
  /\ refreshPromise (publishAuthSessionEvent k s t) = refreshPromise t.
Proof. unfold publishAuthSessionEvent. by destruct (truthy_str s). Qed.

Lemma publish_ok k s t : published_ok t -> published_ok (publishAuthSessionEvent k s t).
Proof.
  unfold published_ok, publishAuthSessionEvent. intros H.
  destruct (truthy_str s) eqn:E; [|done]. simpl. apply Forall_app; auto.
Qed.

Lemma applyAuthBundle_eq b sync t :
  store (applyAuthBundle b sync t) = setBundle b (store t)
  /\ authEpoch (applyAuthBundle b sync t) = authEpoch t + 1
  /\ refreshPromise (applyAuthBundle b sync t) = refreshPromise t.
Proof.
  unfold applyAuthBundle. destruct (_ && _); [|done].
  destruct (publish_eq Kauthenticated (sid (b_session b))
              (set_store (setBundle b (store (next_epoch t))) (next_epoch t)))
    as (-> & -> & ->). done.
Qed.

Lemma clearAuthentication_eq sync b t :
  store (clearAuthentication sync b t) = reset b (store t)
  /\ authEpoch (clearAuthentication sync b t) = authEpoch t + 1
  /\ refreshPromise (clearAuthentication sync b t) = refreshPromise t.
Proof.
  unfold clearAuthentication. destruct (current_sid t) as [s|]; [|done].
  destruct (_ && _); [|done].
  destruct (publish_eq Ksigned_out s (set_store (reset b (store (next_epoch t))) (next_epoch t)))
    as (-> & -> & ->). done.
Qed.

Lemma applyAuthBundle_ok b sync t :
  bundle_ok b -> tab_ok t -> tab_ok (applyAuthBundle b sync t).
Proof.
  intros Hb (Hs & Hr & Hp). destruct (applyAuthBundle_eq b sync t) as (E1 & E2 & E3).
  split; [rewrite E1; exact Hb|split].
  - eapply refresh_ok_later; [exact E3|lia|done].
  - unfold applyAuthBundle. destruct (_ && _); [|done]. by apply publish_ok.
Qed.

Lemma clearAuthentication_ok sync b t : tab_ok t -> tab_ok (clearAuthentication sync b t).
Proof.
  intros (Hs & Hr & Hp). destruct (clearAuthentication_eq sync b t) as (E1 & E2 & E3).
  split; [by rewrite E1|split].
  - eapply refresh_ok_later; [exact E3|lia|done].
  - unfold clearAuthentication. destruct (current_sid t); [|done].
    destruct (_ && _); [|done]. by apply publish_ok.
Qed.

Lemma set_store_ok s t :
  store_ok s -> session s = session (store t) -> tab_ok t -> tab_ok (set_store s t).
Proof.
  intros Hs He (_ & Hr & Hp). split; [done|split; [|done]].
  by apply (refresh_ok_same t).
Qed.

Lemma set_refresh_ok epoch p t :
  tab_ok t -> epoch <= authEpoch t ->
  match p with
  | Requesting a _ expected => (a <= 3)%nat /\ expected = current_sid t
  | Waiting a _ delay => refreshRaceDelays !! a = Some delay
  | _ => True
  end -> tab_ok (set_refresh (Some (Refresh epoch p)) t).
Proof.
  intros (Hs & _ & Hp) He H. split; [done|split; [|done]]. split; [done|]. simpl.
  destruct p; try done. destruct H as [? ->]. by split.
Qed.

Lemma settle_ok epoch o t : tab_ok t -> epoch <= authEpoch t -> tab_ok (settle epoch o t).
Proof. intros. by apply set_refresh_ok. Qed.

Lemma run_ok epoch a m t :
  (a <= 3)%nat -> tab_ok t -> epoch <= authEpoch t -> tab_ok (run epoch a m t).
Proof.
  intros. unfold run. destruct (isCurrent epoch t); simpl; [by apply set_refresh_ok|].
  by apply settle_ok.
Qed.

(** The two ways a refresh empties the store. *)
Lemma runtime_clear_eq sync b t :
  runtime_clear sync b t = clearAuthentication sync (default Bcomplete b) t
  \/ runtime_clear sync b t = set_store (reset Bidle (store t)) t /\ sync = false.
Proof. unfold runtime_clear. destruct sync, b as [[]|]; auto. Qed.

Lemma clear_settled_ok epoch o sync t :
  tab_ok t -> epoch <= authEpoch t ->
  tab_ok (settle epoch o (runtime_clear sync None t)).
Proof.
  intros. unfold runtime_clear. rewrite andb_false_r. simpl.
  destruct (clearAuthentication_eq sync Bcomplete t) as (_ & ? & _).
  apply settle_ok; [by apply clearAuthentication_ok|lia].
Qed.

(** The retry after a mismatch: the store is emptied within the epoch, and the next
    request names no session. *)
Lemma mismatch_retry_ok epoch t :
  tab_ok t -> epoch <= authEpoch t ->
  tab_ok (run epoch 0 false (runtime_clear false (Some Bidle) t)).
Proof.
  intros (_ & _ & Hp) He. unfold run, runtime_clear, isCurrent. simpl.
  destruct (Z.eqb_spec (authEpoch t) epoch); simpl; repeat split; auto with lia.
Qed.

Lemma delay_attempt a d : refreshRaceDelays !! a = Some d -> (S a <= 3)%nat.
Proof. intros H. by apply lookup_lt_Some in H. Qed.

Lemma respond_ok epoch a m r t :
  (a <= 3)%nat -> tab_ok t -> epoch <= authEpoch t -> tab_ok (respond epoch a m r t).
Proof.
  intros Ha Ht He. unfold respond. destruct (isCurrent epoch t); simpl; [|by apply settle_ok].
  destruct (response_bundle r) as [b|] eqn:Hb.
  { apply response_bundle_ok in Hb. destruct (applyAuthBundle_eq b false t) as (_ & ? & _).
    apply settle_ok; [by apply applyAuthBundle_ok|lia]. }
  destruct (_ && _).
  { destruct (refreshRaceDelays !! a) eqn:?; [by apply set_refresh_ok|by apply clear_settled_ok]. }
  destruct (_ && _).
  { destruct m; [by apply mismatch_retry_ok|by apply clear_settled_ok]. }
  destruct (Z.eqb _ _); [by apply clear_settled_ok|].
  destruct (_ || _); [|by apply clear_settled_ok].
  apply settle_ok; [|done]. destruct Ht as (? & ? & ?). by apply set_store_ok.
Qed.

Lemma continue_ok r e t t' :
  tab_ok t -> refreshPromise t = Some r -> continue r e t = Some t' -> tab_ok t'.
Proof.
  intros Ht Hr. assert (Ht' := Ht). destruct Ht' as (? & Ho & ?). unfold refresh_ok in Ho.
  rewrite Hr in Ho. destruct Ho as [He Hp]. unfold continue.
  destruct (r_phase r), e; try done; intros [= <-].
  - apply run_ok; [lia|done|done].
  - by apply set_refresh_ok.
  - destruct Hp. by apply respond_ok.
  - apply run_ok; [by eapply delay_attempt|done|done].
  - by repeat split.
Qed.

Lemma refreshAuthentication_ok locks t : tab_ok t -> tab_ok (refreshAuthentication locks t).
Proof.
  intros Ht. unfold refreshAuthentication, performRefreshWithBrowserLock.
  destruct (refreshPromise t); [done|].
  destruct locks; [by apply set_refresh_ok|apply run_ok; [lia|done|done]].
Qed.

Lemma resolveAuthentication_ok locks now t :
  tab_ok t -> tab_ok (snd (resolveAuthentication locks now t)).
Proof.
  intros Ht. assert (Hs : forall b, tab_ok (set_store (setBootstrapState b (store t)) t)).
  { intros b. apply set_store_ok; [apply Ht|done|done]. }
  unfold resolveAuthentication. destruct (currentValidAuthBundle now t); [apply Hs|].
  destruct (_ && _); [done|]. by apply refreshAuthentication_ok.
Qed.

Lemma applyAuthRotation_ok v t t' :
  applyAuthRotation v t = Ok t' -> tab_ok t -> tab_ok t'.
Proof.
  unfold applyAuthRotation, isAuthTokenRotation. intros H Ht. inv_ok H. bprop.
  apply applyAuthBundle_ok; [|done]. destruct (token_fields_ok v) as (? & ? & ?); [done|].
  repeat split; try done. by apply session_sid_ok.
Qed.

Lemma deliver_cases source now v t :
  fst (deliver source now v t) = t
  \/ fst (deliver source now v t) = clearAuthentication false Bcomplete t.
Proof. unfold deliver, root_listener. repeat destr_match_goal; simpl; auto. Qed.

Lemma step_ok e t t' : step e t = Some t' -> tab_ok t -> tab_ok t'.
Proof.
  intros H Ht. destruct e; simpl in H; try (inv_ok H; by eapply continue_ok).
  - inv_ok H. apply applyAuthBundle_ok; [by apply isAuthBundle_ok|done].
  - injection H as <-. destruct (applyAuthRotation answer t) eqn:E; simpl; [|done].
    by eapply applyAuthRotation_ok.
  - injection H as <-. by apply clearAuthentication_ok.
  - injection H as <-. apply set_store_ok; [apply Ht|done|done].
  - injection H as <-. apply set_store_ok; [apply Ht|done|done].
  - injection H as <-. unfold bootstrapAuthentication.
    destruct (_ && _); [done|by apply resolveAuthentication_ok].
  - injection H as <-. by apply resolveAuthentication_ok.
  - injection H as <-. unfold getFreshAuthHeaders.
    destruct (token_after _ t); [done|by apply refreshAuthentication_ok].
  - injection H as <-. by apply refreshAuthentication_ok.
  - injection H as <-. destruct (deliver_cases source now v t) as [-> | ->]; [done|].
    by apply clearAuthentication_ok.
  - injection H as <-. split; [done|split; [done|apply Ht]].
Qed.

(** Induction over traces, from the front. *)
Lemma steps_ind (P : tab -> Prop) :
  (forall e t t', step e t = Some t' -> P t -> P t') ->
  forall es t t', steps es t = Some t' -> P t -> P t'.
Proof.
  intros Hstep es. induction es as [|e es IH]; simpl; intros t t' H Ht; [by simplify_eq|].
  destruct (step e t) as [t1|] eqn:E; [|done]. eauto.
Qed.

(** ** Superseded refreshes *)

(** What the rest of the program and the other tabs see of a tab. *)
Definition visible (t : tab) : auth_store * Z * list (sync_kind * jsstr) :=
  (store t, authEpoch t, published t).

(** The refresh in progress belongs to an earlier epoch and has told nobody that it
    succeeded. *)
Definition overtaken (t : tab) : Prop :=
  match refreshPromise t with
  | Some r =>
      refreshEpoch r < authEpoch t
      /\ match r_phase r with
         | Settled s => s = Rejected \/ s = Fulfilled (TransientError Superseded)
         | _ => True
         end
  | None => False
  end.

(** The events of the life of one refresh. *)
Definition during (e : event) : bool := negb (settled e) && negb (unloads e).

Lemma not_current epoch t : epoch < authEpoch t -> isCurrent epoch t = false.
Proof. intros. apply Z.eqb_neq. lia. Qed.

Lemma continue_overtaken r e t t' :
  overtaken t -> refreshPromise t = Some r -> settled e = false ->
  continue r e t = Some t' -> visible t' = visible t /\ overtaken t'.
Proof.
  unfold overtaken. intros Ho Hr Hs Hc. rewrite Hr in Ho. destruct Ho as [He Hp].
  apply not_current in He as Hn. unfold continue in Hc.
  destruct (r_phase r), e; try discriminate; simplify_eq/=;
    unfold run, respond; rewrite ?Hn; simpl; auto.
Qed.

Lemma step_run_overtaken e t t' :
  overtaken t -> runs e = true -> settled e = false -> step e t = Some t' ->
  visible t' = visible t /\ overtaken t'.
Proof.
  intros Ho Hr Hs H. destruct (refreshPromise t) as [r|] eqn:E; [|by unfold overtaken in Ho; rewrite E in Ho].
  destruct e; try discriminate; simpl in H; rewrite E in H; by eapply continue_overtaken.
Qed.

(** While a refresh is in progress, the other events neither look at where it is
    nor move it. *)
Lemma step_call_frame e t r r' :
  refreshPromise t = Some r -> runs e = false -> unloads e = false ->
  step e (set_refresh (Some r') t) = set_refresh (Some r') <$> step e t.
Proof.
  destruct t as [s n [r0|] ms]; intros Hr Hn Hu; simplify_eq/=.
  destruct e; try discriminate; simpl;
    unfold applyAuthRotation, applyAuthBundle, bootstrapAuthentication, resolveAuthentication,
      getFreshAuthHeaders, refreshAuthentication, deliver, root_listener, clearAuthenticatedClientState,
      clearAuthentication, publishAuthSessionEvent, currentValidAuthBundle, token_after, current_sid, set_refresh,
      set_store, next_epoch, ok_option; simpl;
    repeat (destr_match_goal; simplify_eq/=); try done.
Qed.

Lemma step_call_keeps e t t' r :
  refreshPromise t = Some r -> runs e = false -> unloads e = false ->
  step e t = Some t' -> refreshPromise t' = Some r.
Proof.
  intros Hr Hn Hu H. assert (E := step_call_frame e t r r Hr Hn Hu).
  replace (set_refresh (Some r) t) with t in E by (destruct t; by simplify_eq/=).
  rewrite H in E. simpl in E. injection E as ->. done.
Qed.

Lemma refreshAuthentication_busy locks r t :
  refreshPromise t = Some r -> refreshAuthentication locks t = t.
Proof. unfold refreshAuthentication. by intros ->. Qed.

Lemma resolve_busy_epoch locks now r t :
  refreshPromise t = Some r -> authEpoch (snd (resolveAuthentication locks now t)) = authEpoch t.
Proof.
  intros H. unfold resolveAuthentication. destruct (currentValidAuthBundle now t); [done|].
  destruct (_ && _); [done|]. simpl. by erewrite refreshAuthentication_busy.
Qed.

Lemma step_call_epoch e t t' r :
  refreshPromise t = Some r -> runs e = false -> unloads e = false ->
  step e t = Some t' -> authEpoch t <= authEpoch t'.
Proof.
  intros Hr Hn Hu H. destruct e; try discriminate; simpl in H;
    [destruct (isAuthBundle answer); [|discriminate]|..]; injection H as <-.
  - destruct (applyAuthBundle_eq (as_bundle answer) true t) as (_ & -> & _). lia.
  - unfold applyAuthRotation. repeat destr_match_goal; simpl; try lia.
    all: match goal with
         | |- context [applyAuthBundle ?b ?s ?t] =>
             destruct (applyAuthBundle_eq b s t) as (_ & -> & _); lia
         end.
  - unfold clearAuthenticatedClientState.
    destruct (clearAuthentication_eq synchronizeTabs Bcomplete t) as (_ & -> & _). lia.
  - simpl. lia.
  - simpl. lia.
  - unfold bootstrapAuthentication. destruct (_ && _); [simpl; lia|].
    by erewrite resolve_busy_epoch.
  - by erewrite resolve_busy_epoch.
  - unfold getFreshAuthHeaders. destruct (token_after _ t); [simpl; lia|].
    simpl. by erewrite refreshAuthentication_busy.
  - by erewrite refreshAuthentication_busy.
  - destruct (deliver_cases source now v t) as [-> | ->]; [lia|].
    destruct (clearAuthentication_eq false Bcomplete t) as (_ & -> & _). lia.
Qed.

Lemma step_call_overtaken e t t' :
  overtaken t -> runs e = false -> unloads e = false -> step e t = Some t' -> overtaken t'.
Proof.
  unfold overtaken. intros Ho Hn Hu H. destruct (refreshPromise t) as [r|] eqn:E; [|done].
  rewrite (step_call_keeps e t t' r); try done.
  assert (He := step_call_epoch e t t' r E Hn Hu H). split; [lia|apply Ho].
Qed.

(** A tab with its refresh at another place. *)
Lemma overtaken_shape t : overtaken t -> exists r, refreshPromise t = Some r.
Proof. unfold overtaken. destruct (refreshPromise t); eauto. done. Qed.

Lemma visible_frame t t' r' :
  visible t = visible t' -> refreshPromise t' = Some r' -> t' = set_refresh (Some r') t.
Proof. destruct t, t'. unfold visible. simpl. by intros ? ->; simplify_eq. Qed.

(** The calls alone lead to the same visible state as calls and refresh together. *)
Lemma calls_alone es t u t' :
  overtaken t -> overtaken u -> visible u = visible t ->
  forallb during es = true -> steps es t = Some t' ->
  exists u', steps (List.filter (fun e => negb (runs e)) es) u = Some u'
    /\ visible u' = visible t' /\ overtaken t'.
Proof.
  revert t u. induction es as [|e es IH]; intros t u Ht Hu Hv Hd H; simpl in *.
  { injection H as <-. exists u. auto. }
  apply andb_true_iff in Hd as [Hd Hds]. unfold during in Hd. bprop.
  destruct (step e t) as [t1|] eqn:E; [|done].
  destruct (runs e) eqn:Hr.
  - destruct (step_run_overtaken e t t1) as [Hv1 Ht1]; try done.
    simpl. apply (IH t1); try done. congruence.
  - simpl.
    destruct (overtaken_shape u) as [r' Hr']; [done|].
    destruct (overtaken_shape t) as [r Hrt]; [done|].
    assert (Eu := visible_frame t u r' (eq_sym Hv) Hr').
    assert (Es : step e u = Some (set_refresh (Some r') t1)).
    { by rewrite Eu, (step_call_frame e t r r'), E. }
    rewrite Es. apply (IH t1); try done; [by apply (step_call_overtaken e t)|].
    by apply (step_call_overtaken e u).
Qed.

(** ** Ends of refreshes *)

(** How many more events a refresh can wait for. *)
Definition patience (p : phase) : nat :=
  match p with
  | Locking => 16
  | Requesting a true _ => 9 + 2 * (3 - a)
  | Waiting a true _ => 10 + 2 * (3 - S a)
  | Requesting a false _ => 2 + 2 * (3 - a)
  | Waiting a false _ => 3 + 2 * (3 - S a)
  | Settled _ => 1
  end.

Definition budget (t : tab) : nat :=
  match refreshPromise t with Some r => patience (r_phase r) | None => 0 end.

Definition runner_count (es : list event) : nat := length (List.filter runs es).

Lemma patience_bounds p : (1 <= patience p <= 16)%nat.
Proof. destruct p as [|? []|? []|]; simpl; lia. Qed.

Lemma budget_settle epoch o t : budget (settle epoch o t) = 1%nat.
Proof. done. Qed.

Lemma budget_run epoch a m t :
  (budget (run epoch a m t) <= patience (Requesting a m None))%nat.
Proof.
  unfold run. destruct (negb _); [|by destruct m].
  rewrite budget_settle. apply patience_bounds.
Qed.

Lemma budget_respond epoch a m e r t :
  (budget (respond epoch a m r t) < patience (Requesting a m e))%nat.
Proof.
  assert (H1 : (1 < patience (Requesting a m e))%nat) by (destruct m; simpl; lia).
  unfold respond. destruct (negb _); [done|]. destruct (response_bundle r); [done|].
  destruct (_ && _).
  { destruct (refreshRaceDelays !! a) as [d|] eqn:E; [|done].
    apply delay_attempt in E. unfold budget. destruct m; cbn [set_refresh refreshPromise r_phase]; unfold patience; lia. }
  destruct (_ && _).
  { destruct m; [|done]. assert (H := budget_run epoch 0 false (runtime_clear false (Some Bidle) t)).
    simpl in *. lia. }
  destruct (Z.eqb _ _); [done|]. by destruct (_ || _).
Qed.

(** An event of the refresh uses up some of its patience. *)
Lemma continue_budget r e t t' :
  continue r e t = Some t' -> (budget t' < patience (r_phase r))%nat.
Proof.
  unfold continue. destruct (r_phase r) as [|a m x|a m d|s] eqn:Hp, e; try done; intros [= <-].
  - assert (H := budget_run (refreshEpoch r) 0 true t). simpl in *. lia.
  - unfold budget. simpl. lia.
  - apply budget_respond.
  - assert (H := budget_run (refreshEpoch r) (S a) m t). destruct m; unfold patience in *; lia.
  - unfold budget. simpl. lia.
Qed.

(** A prefix of the trace ends with no refresh in progress. *)
Definition ends_within (es : list event) (t : tab) : Prop :=
  exists es1 es2 t1, es = es1 ++ es2 /\ steps es1 t = Some t1 /\ refreshPromise t1 = None.

Lemma ends_now es t : refreshPromise t = None -> ends_within es t.
Proof. intros. by exists [], es, t. Qed.

Lemma ends_later e es t t1 : step e t = Some t1 -> ends_within es t1 -> ends_within (e :: es) t.
Proof.
  intros H (es1 & es2 & t2 & -> & H1 & H2). exists (e :: es1), es2, t2.
  split; [done|]. simpl. by rewrite H.
Qed.

Lemma budget_ends es t t' :
  steps es t = Some t' -> (budget t <= runner_count es)%nat -> ends_within es t.
Proof.
  revert t. induction es as [|e es IH]; intros t H Hb.
  - apply ends_now. unfold budget, runner_count in Hb.
    destruct (refreshPromise t) as [r|]; [|done]. assert (Hp := patience_bounds (r_phase r)).
    simpl in Hb. lia.
  - destruct (refreshPromise t) as [r|] eqn:Hr; [|by apply ends_now].
    simpl in H. destruct (step e t) as [t1|] eqn:E; [|done].
    eapply ends_later; [exact E|]. unfold runner_count in *. simpl in Hb.
    destruct (unloads e) eqn:Hu.
    { destruct e; try done. simpl in E. simplify_eq. by apply ends_now. }
    apply IH; [done|]. destruct (runs e) eqn:He.
    + assert (Hc : continue r e t = Some t1) by (destruct e; try done; simpl in E; by rewrite Hr in E).
      apply continue_budget in Hc. unfold budget in Hb. rewrite Hr in Hb. simpl in Hb. lia.
    + apply (step_call_keeps e t t1 r) in E; [|done|done|done].
      unfold budget in *. rewrite E. by rewrite Hr in Hb.
Qed.

(** The events a refresh waits for can happen, whatever the server answers. *)
Lemma runner_enabled r t answer :
  refreshPromise t = Some r ->
  exists e t', (e = Response answer \/ e = Lock_granted \/ e = Timer \/ e = Finally)
    /\ step e t = Some t'.
Proof.
  intros Hr. destruct (r_phase r) eqn:Hp;
    [exists Lock_granted|exists (Response answer)|exists Timer|exists Finally];
    simpl; rewrite Hr; unfold continue; rewrite Hp; eauto 6.
Qed.

(** ** Verdicts *)

(** An answer that says nothing of the session: no connection, a failing or busy
    server. *)
Definition transient (r : http_response) : bool :=
  match response_bundle r with
  | Some _ => false
  | None => Z.eqb (status r) 0 || Z.leb 500 (status r) || Z.eqb (status r) 429
  end.

(** Events that decide who the user is. *)
Definition decides (e : event) : bool :=
  match e with
  | Login _ | Sign_out _ => true
  | Response r => negb (transient r)
  | _ => false
  end.

(** Nobody signed in and nothing recorded. *)
Definition undecided (t : tab) : Prop :=
  accessToken (store t) = None /\ session (store t) = None
  /\ bootstrapState (store t) <> Bcomplete.

Lemma undecided_same t t' : store t' = store t -> undecided t -> undecided t'.
Proof. unfold undecided. by intros ->. Qed.

Lemma undecided_not_valid now t : undecided t -> currentValidAuthBundle now t = None.
Proof.
  intros (H & _ & _). unfold currentValidAuthBundle. rewrite H. by destruct (user (store t)).
Qed.

Lemma store_run epoch a m t : store (run epoch a m t) = store t.
Proof. unfold run. by destruct (negb _). Qed.

Lemma store_refreshAuthentication locks t : store (refreshAuthentication locks t) = store t.
Proof.
  unfold refreshAuthentication, performRefreshWithBrowserLock.
  destruct (refreshPromise t); [done|]. destruct locks; [done|]. apply store_run.
Qed.

(** Without a verdict, resolving always asks the server. *)
Lemma resolve_undecided locks now t :
  undecided t ->
  resolveAuthentication locks now t =
  (Later, refreshAuthentication locks (set_store (setBootstrapState Bchecking (store t)) t)).
Proof.
  intros Hu. unfold resolveAuthentication. rewrite undecided_not_valid by done.
  destruct Hu as (_ & Hs & Hb). rewrite Hs.
  by destruct (bootstrapState (store t)); [..|]; destruct (user (store t)).
Qed.

Lemma undecided_resolve locks now t :
  undecided t -> undecided (snd (resolveAuthentication locks now t)).
Proof.
  intros Hu. rewrite resolve_undecided by done. simpl.
  destruct Hu as (? & ? & _). by repeat split; rewrite store_refreshAuthentication.
Qed.

Lemma undecided_respond epoch a m r t :
  transient r = true -> undecided t -> undecided (respond epoch a m r t).
Proof.
  unfold transient. intros Hr Hu. unfold respond. destruct (negb _); [done|].
  destruct (response_bundle r); [done|].
  assert (H : Z.eqb (status r) 409 = false /\ Z.eqb (status r) 401 = false).
  { repeat (apply orb_true_iff in Hr as [Hr|Hr]); bprop; split; apply Z.eqb_neq; lia. }
  destruct H as [-> ->]. simpl. rewrite Hr. destruct Hu as (? & ? & _). by repeat split.
Qed.

Lemma undecided_deliver source now v t : undecided t -> fst (deliver source now v t) = t.
Proof.
  intros (_ & Hs & _). unfold deliver, root_listener, current_sid. rewrite Hs. simpl.
  by repeat destr_match_goal.
Qed.

Lemma undecided_step e t t' :
  decides e = false -> step e t = Some t' -> undecided t -> undecided t'.
Proof.
  intros Hd H Hu. destruct e; try discriminate; simpl in Hd, H;
    try (destruct (refreshPromise t) as [[n p]|]; [|discriminate]; unfold continue in H;
         destruct p; simpl in H; try discriminate); injection H as <-; try done.
  - unfold applyAuthRotation. destruct Hu as (? & Hs & ?). rewrite Hs.
    destruct (negb _); [done|]. by destruct (user (store t)).
  - unfold bootstrapAuthentication. destruct (_ && _); [done|by apply undecided_resolve].
  - by apply undecided_resolve.
  - unfold getFreshAuthHeaders. destruct (token_after _ t); [done|].
    eapply undecided_same, Hu. apply store_refreshAuthentication.
  - eapply undecided_same, Hu. apply store_refreshAuthentication.
  - by rewrite undecided_deliver.
  - eapply undecided_same, Hu. apply store_run.
  - apply undecided_respond; [|done]. by apply negb_false_iff in Hd.
  - eapply undecided_same, Hu. apply store_run.
Qed.

Lemma refreshAuthentication_busy_after locks t :
  exists r, refreshPromise (refreshAuthentication locks t) = Some r.
Proof.
  unfold refreshAuthentication, performRefreshWithBrowserLock, run.
  destruct (refreshPromise t) eqn:E; [eauto|]. destruct locks; [simpl; eauto|].
  destruct (negb _); simpl; eauto.
Qed.

(** ** Theorems *)

(** C35: in every state a tab can reach, its access token, the expiry of the token and
    its session are present together and usable (texts not empty, expiry finite and
    positive), every message to other tabs names a session, and the refresh in
    progress, if any, belongs to the present or a past epoch, keeps within its table
    of delays, and, unless it was superseded, waits for an answer to a request that
    named exactly the session the tab holds. *)
Theorem session_invariant t : reachable t -> tab_ok t.
Proof.
  intros [es H]. eapply (steps_ind tab_ok step_ok); [exact H|]. repeat split. constructor.
Qed.

(** C36: a refresh that a sign-in, sign-out or token rotation has overtaken is inert: 
    whatever the server still answers, and however these answers, its timers and the
    browser lock interleave with the calls of the program, the store, the epoch and
    the messages to other tabs are those the calls alone lead to; and the refresh
    never reports anything but that it was superseded or failed. *)
Theorem superseded_inert t es t' :
  overtaken t -> forallb during es = true -> steps es t = Some t' ->
  exists u, steps (List.filter (fun e => negb (runs e)) es) t = Some u
    /\ visible u = visible t' /\ overtaken t'.
Proof. intros. by apply (calls_alone es t). Qed.

(** C37: a refresh ends.  While one is in progress, an event it waits for can happen,
    whatever the server answers; and once sixteen such events have happened (the
    lock, at most eight answers, at most six delays and the callback), in any
    interleaving with calls, the shared promise has been forgotten, so that the next
    caller starts a new refresh. *)
Theorem refresh_ends t r :
  refreshPromise t = Some r ->
  (forall answer, exists e t',
     (e = Response answer \/ e = Lock_granted \/ e = Timer \/ e = Finally)
     /\ step e t = Some t')
  /\ (forall es t', steps es t = Some t' -> (16 <= runner_count es)%nat -> ends_within es t).
Proof.
  intros Hr. split; [intros answer; by apply (runner_enabled r)|].
  intros es t' H Hc. eapply budget_ends; [exact H|]. unfold budget. rewrite Hr.
  assert (Hp := patience_bounds (r_phase r)). lia.
Qed.

(** A missing session hint, an unreachable server or a message of another tab
    is no verdict.  As long as nobody signed in or out and the server gave no
    definite answer, the public boot path without a hint changes nothing, and the
    next call that needs to know still asks the server. *)
Theorem no_verdict_without_answer es t locks now :
  steps es initial_tab = Some t -> forallb (fun e => negb (decides e)) es = true ->
  fst (resolveAuthentication locks now t) = Later
  /\ (exists r, refreshPromise (snd (resolveAuthentication locks now t)) = Some r)
  /\ (forall cookies, hasSessionHint cookies = false -> user (store t) = None ->
        bootstrapAuthentication locks now cookies t = (Now Anonymous, t)).
Proof.
  intros H Hd. assert (Hu : undecided t).
  { assert (Hi : undecided initial_tab) by done. revert H Hi. generalize initial_tab.
    induction es as [|e es IH]; simpl in *; intros t0 H Hi; [by simplify_eq|]. bprop.
    destruct (step e t0) as [t1|] eqn:E; [|done].
    eapply IH; [done|exact H|]. by eapply undecided_step. }
  rewrite resolve_undecided by done. split; [done|split; [apply refreshAuthentication_busy_after|]].
  intros cookies Hc Hn. unfold bootstrapAuthentication.
  rewrite undecided_not_valid, Hc, Hn by done. by destruct Hu as (_ & -> & _).
Qed.

(** A lock request that fails: the shared promise is rejected, since [return] in the
    [try] block does not wait for it; the [catch] block, which would set the store
    back to idle and report a transient error, does not run. *)
Lemma lock_rejection_not_caught now :
  steps [Resolve true now; Lock_rejected] initial_tab =
  Some (Tab (setBootstrapState Bchecking initial_store) 0
          (Some (Refresh 0 (Settled Rejected))) []).
Proof. done. Qed.

(** ** Witnesses *)

Definition num_field (k : string) (z : Z) : jsstr * jsval := (js k, VNum (n_of_Z z)).
Definition text_field (k v : string) : jsstr * jsval := (js k, VStr (js v)).

Definition sample_bundle (s : string) : jsval :=
  VObj [text_field "access_token" "t0"; text_field "token_type" "Bearer";
        num_field "access_expires_at" 2000;
        (js "user", VObj [num_field "id" 7; text_field "username" "ada"; num_field "role" 1]);
        (js "session",
         VObj [text_field "sid" s; (js "current", VBool true); text_field "login_method" "password";
               text_field "ip" ""; text_field "user_agent" ""; num_field "created_at" 1;
               num_field "last_active_at" 1; num_field "expires_at" 9000])].

(** An answer with a bundle. *)
Definition sample_answer (s : string) : http_response :=
  HttpResponse 200 (VObj [(js "success", VBool true); (js "data", sample_bundle s)]) VUndef.

Definition race_answer : http_response :=
  HttpResponse 409 (VObj [text_field "code" "AUTH_REFRESH_RACE"]) VUndef.

Definition tab_after (es : list event) : tab := default initial_tab (steps es initial_tab).

Lemma session_invariant_witness :
  tab_ok (tab_after [Login (sample_bundle "s1"); Refresh_now true; Lock_granted]).
Proof.
  apply session_invariant.
  exists [Login (sample_bundle "s1"); Refresh_now true; Lock_granted]. vm_compute. reflexivity.
Defined.

(** A refresh asks, the user signs in, the answer of the old session comes late. *)
Lemma superseded_inert_witness :
  exists u,
    steps [Set_user None] (tab_after [Refresh_now false; Login (sample_bundle "s1")]) = Some u
    /\ visible u =
       visible (tab_after [Refresh_now false; Login (sample_bundle "s1");
                           Response (sample_answer "s0"); Set_user None])
    /\ overtaken (tab_after [Refresh_now false; Login (sample_bundle "s1");
                             Response (sample_answer "s0"); Set_user None]).
Proof.
  apply (superseded_inert (tab_after [Refresh_now false; Login (sample_bundle "s1")])
           [Response (sample_answer "s0"); Set_user None]).
  - vm_compute. auto.
  - reflexivity.
  - vm_compute. reflexivity.
Defined.

Definition mismatch_answer : http_response :=
  HttpResponse 409 (VObj [text_field "code" "AUTH_SESSION_MISMATCH"]) VUndef.

(** The longest life of a refresh: every answer asks for a repetition. *)
Definition longest : list event :=
  let race := [Response race_answer; Timer] in
  Lock_granted :: race ++ race ++ race ++ [Response mismatch_answer]
  ++ race ++ race ++ race ++ [Response race_answer; Finally].

Lemma refresh_ends_witness : ends_within longest (tab_after [Refresh_now true]).
Proof.
  apply (proj2 (refresh_ends (tab_after [Refresh_now true]) (Refresh 0 Locking)
                  ltac:(vm_compute; reflexivity)) longest
           (tab_after (Refresh_now true :: longest))).
  - vm_compute. reflexivity.
  - vm_compute. lia.
Defined.

Lemma no_verdict_without_answer_witness :
  fst (resolveAuthentication true 0
         (tab_after [Bootstrap true 0 (Some []); Refresh_now false;
                     Response (HttpResponse 503 VUndef VUndef); Finally])) = Later.
Proof.
  apply (no_verdict_without_answer
           [Bootstrap true 0 (Some []); Refresh_now false;
            Response (HttpResponse 503 VUndef VUndef); Finally]);
    vm_compute; reflexivity.
Defined.
