(* ===== verification/HttpClient.v ===== *)
(** * Requests of the console

    Models [lib/http-client.ts]: the interceptors of the HTTP client, which put the access
    token on a request, refresh the session when the server answers 401 and send the
    request once more, and the sharing of identical requests in flight.

    A call is followed from [api.request] to its end, beside the session of the tab
    ([AuthSession]), which the rest of the program moves at the same time.  The library
    [axios] is outside: what it does between the interceptors is the event [Answer_ok]
    or [Answer_error], its headers are the class [Headers], and it passes the fields of
    a configuration on to the next request, as it documents. *)

From S2P Require Import Prelude JsString JsNumber JsValue AuthSession.

(** ** Requests *)

(** [AxiosHeaders] *)
Class Headers := {
  headers : Type;
  has_header : jsstr -> headers -> bool;
  get_header : jsstr -> headers -> option jsstr;
  set_header : jsstr -> jsstr -> headers -> headers;
  get_set_header : forall name v h, get_header name (set_header name v h) = Some v;
}.

Section client.
Context {Hdr : Headers}.

Record request_config := RequestConfig {
  skipErrorHandler : bool;
  skipAuthRefresh : bool;
  authRetry : bool;
  acceptAuthRotation : bool;
  singleUseAuthorization : bool;
  rc_headers : headers;
}.

Definition with_headers (h : headers) (c : request_config) : request_config :=
  RequestConfig (skipErrorHandler c) (skipAuthRefresh c) (authRetry c) (acceptAuthRotation c)
    (singleUseAuthorization c) h.
Definition with_skipAuthRefresh (c : request_config) : request_config :=
  RequestConfig (skipErrorHandler c) true (authRetry c) (acceptAuthRotation c)
    (singleUseAuthorization c) (rc_headers c).
Definition with_authRetry (c : request_config) : request_config :=
  RequestConfig (skipErrorHandler c) (skipAuthRefresh c) true (acceptAuthRotation c)
    (singleUseAuthorization c) (rc_headers c).

(** A request that must not be sent twice. *)
Definition is_single_use (c : request_config) : bool :=
  singleUseAuthorization c || has_header (js "X-Security-Proof") (rc_headers c).

(** The shared refresh a call waits for. *)
Inductive awaited : Type :=
| Pending
| Ready (s : settlement).

(** Where a call is: before the request interceptor, waiting for fresh headers, on the
    way, waiting for a refresh, at its end. *)
Inductive call_phase : Type :=
| Queued
| Await_headers (w : awaited)
| Sent
| Await_refresh (w : awaited)
| Finished (ok : bool).

(** What a call did, in order. *)
Inductive action : Type :=
| Did_send (h : headers)
| Did_refresh (s : settlement)
| Did_clear
| Did_show_expired
| Did_redirect.

Record call := Call {
  cl_tab : tab;
  cl_config : request_config;
  cl_phase : call_phase;
  cl_log : list action;
}.

Definition start (config : request_config) (t : tab) : call := Call t config Queued [].

(** ** Interceptors *)

Definition bearer (token : jsstr) : jsstr := js "Bearer " ++ token.

(** [Authorization] from the token of the store, when there is one. *)
Definition authorize (t : tab) (h : headers) : headers :=
  match accessToken (store t) with
  | Some token =>
      if truthy_str token then set_header (js "Authorization") (bearer token) h else h
  | None => h
  end.

Definition set_all (entries : list (jsstr * jsstr)) (h : headers) : headers :=
  fold_left (fun h e => set_header e.1 e.2 h) entries h.

(** The request leaves with the headers [h]. *)
Definition send (config : request_config) (h : headers) (t : tab) (log : list action) : call :=
  Call t (with_headers h config) Sent (log ++ [Did_send h]).

(** The request interceptor, up to its [await]. *)
Definition intercept_request (locks : bool) (now : Z) (c : call) : call :=
  let config := cl_config c in
  if is_single_use config then
    let config := with_skipAuthRefresh config in
    match getFreshAuthHeaders locks now (cl_tab c) with
    | (Some entries, t) => send config (set_all entries (rc_headers config)) t (cl_log c)
    | (None, t) => Call t config (Await_headers Pending) (cl_log c)
    end
  else send config (authorize (cl_tab c) (rc_headers config)) (cl_tab c) (cl_log c).

(** The rest of it, when fresh headers are there or cannot be had. *)
Definition resume_headers (now : Z) (s : settlement) (c : call) : call :=
  match fresh_headers_resumed now s (cl_tab c) with
  | Ok entries =>
      send (cl_config c) (set_all entries (rc_headers (cl_config c))) (cl_tab c) (cl_log c)
  | Err _ => Call (cl_tab c) (cl_config c) (Finished false) (cl_log c)
  end.

(** The handler of answers. *)
Definition handle_response (data : jsval) (c : call) : call :=
  if acceptAuthRotation (cl_config c) && strict_eqb (field "success" data) (VBool true) then
    match applyAuthRotation (field "data" data) (cl_tab c) with
    | Ok t => Call t (cl_config c) (Finished true) (cl_log c)
    | Err _ => Call (cl_tab c) (cl_config c) (Finished false) (cl_log c)
    end
  else Call (cl_tab c) (cl_config c) (Finished true) (cl_log c).

(** [handleServerError] unless the caller handles errors. *)
Definition show_expired (config : request_config) : list action :=
  if skipErrorHandler config then [] else [Did_show_expired].

(** The handler of errors, up to its [await]; [status] is that of the answer, if there
    was one. *)
Definition handle_error (locks : bool) (status : option Z) (c : call) : call :=
  let config := cl_config c in
  let failed t log := Call t config (Finished false) (cl_log c ++ log) in
  match status with
  | Some 401%Z =>
      if negb (skipAuthRefresh config) && negb (authRetry config) then
        Call (refreshAuthentication locks (cl_tab c)) (with_authRetry config) (Await_refresh Pending)
          (cl_log c)
      else if authRetry config then
        failed (clearAuthentication false Bcomplete (cl_tab c))
          ([Did_clear] ++ show_expired config ++ [Did_redirect])
      else failed (cl_tab c) (show_expired config)
  | _ => failed (cl_tab c) []
  end.

(** The rest of it, when the refresh has ended: the request is sent again through
    [api.request], or the error is passed on. *)
Definition resume_refresh (s : settlement) (c : call) : call :=
  let config := cl_config c in
  let log := cl_log c ++ [Did_refresh s] in
  match s with
  | Fulfilled (Authenticated _) =>
      Call (cl_tab c) (with_headers (authorize (cl_tab c) (rc_headers config)) config) Queued log
  | Fulfilled Anonymous | Fulfilled (OutOfSync _) =>
      Call (cl_tab c) config (Finished false) (log ++ show_expired config ++ [Did_redirect])
  | Fulfilled (TransientError _) | Rejected => Call (cl_tab c) config (Finished false) log
  end.

(** ** Events *)

Inductive call_event : Type :=
| Elsewhere (e : event)                       (* an event of the session *)
| Intercept (locks : bool) (now : Z)
| Headers_settled (now : Z)
| Answer_ok (data : jsval)
| Answer_error (locks : bool) (status : option Z)
| Refresh_settled.

Definition is_elsewhere (e : call_event) : bool := match e with Elsewhere _ => true | _ => false end.

(** The settlement the callback of [finally] passes on to those who wait. *)
Definition settles (e : event) (t : tab) : option settlement :=
  match e, refreshPromise t with
  | Finally, Some (Refresh _ (Settled s)) => Some s
  | _, _ => None
  end.

Definition notify (s : settlement) (p : call_phase) : call_phase :=
  match p with
  | Await_headers Pending => Await_headers (Ready s)
  | Await_refresh Pending => Await_refresh (Ready s)
  | _ => p
  end.

Definition call_step (e : call_event) (c : call) : option call :=
  match e, cl_phase c with
  | Elsewhere e, p =>
      if unloads e then None
      else
        let! t := step e (cl_tab c) in
        Some (Call t (cl_config c)
                (match settles e (cl_tab c) with Some s => notify s p | None => p end) (cl_log c))
  | Intercept locks now, Queued => Some (intercept_request locks now c)
  | Headers_settled now, Await_headers (Ready s) => Some (resume_headers now s c)
  | Answer_ok data, Sent => Some (handle_response data c)
  | Answer_error locks status, Sent => Some (handle_error locks status c)
  | Refresh_settled, Await_refresh (Ready s) => Some (resume_refresh s c)
  | _, _ => None
  end.

Fixpoint call_steps (es : list call_event) (c : call) : option call :=
  match es with
  | [] => Some c
  | e :: es' => let! c' := call_step e c in call_steps es' c'
  end.
End client.

(** ** Shared requests *)

(** [inFlightGet]: the requests on the way by key; [A] is the type of promises. *)
Definition in_flight (A : Type) : Type := list (jsstr * A).

(** The key of a request: the session, the address and the parameters as JSON. *)
Definition get_key (t : tab) (url params : jsstr) : jsstr :=
  (match current_sid t with Some s => if truthy_str s then s else js "anonymous" | None => js "anonymous" end)
  ++ js ":" ++ url ++ js "?" ++ params.

(** [api.get]: the promise it returns, [fresh] being the one a new request has. *)
Definition api_get {A} (disableDuplicate : bool) (t : tab) (url : jsstr) (params : option jsstr)
  (fresh : A) (m : in_flight A) : A * in_flight A :=
  if disableDuplicate then (fresh, m)
  else
    let key := get_key t url (default (js "{}") params) in
    match assoc_get str_eqb key m with
    | Some p => (p, m)
    | None => (fresh, assoc_set str_eqb key fresh m)
    end.

(** The callback of [finally]. *)
Definition get_finished {A} (key : jsstr) (m : in_flight A) : in_flight A :=
  List.filter (fun e => negb (str_eqb e.1 key)) m.
