(* ===== verification/HttpClientSpec.v ===== *)
(** * Properties of the HTTP client

    [request_replay_bound]: a request is sent at most twice, the second time only after a
    refresh signed the user in again, and never if it may be used once only; it comes
    to an end. *)

From S2P Require Import Prelude JsString JsNumber JsValue AuthSession AuthSessionSpec HttpClient.

Section calls.
Context {Hdr : Headers}.

(** ** Logs *)

Definition is_send (a : action) : bool := match a with Did_send _ => true | _ => false end.
Definition sends (log : list action) : nat := length (List.filter is_send log).

(** The server may be asked again. *)
Definition may_replay (config : request_config) : bool :=
  negb (is_single_use config) && negb (skipAuthRefresh config) && negb (authRetry config).

(** Before the second sending: the request was refused and the session refreshed. *)
Definition replay (config : request_config) (log : list action) : Prop :=
  may_replay config = true
  /\ exists h b, log = [Did_send h; Did_refresh (Fulfilled (Authenticated b))].

(** One sending, or two around a refresh. *)
Definition sent_log (config : request_config) (log : list action) : Prop :=
  (exists h, log = [Did_send h]) \/ (exists l h, replay config l /\ log = l ++ [Did_send h]).

Definition log_ok (config : request_config) (log : list action) : Prop :=
  exists l rest, log = l ++ rest /\ forallb (fun a => negb (is_send a)) rest = true
    /\ (l = [] \/ sent_log config l).

Lemma sends_app l1 l2 : sends (l1 ++ l2) = sends l1 + sends l2.
Proof. unfold sends. by rewrite List.filter_app, length_app. Qed.

Lemma sends_none l : forallb (fun a => negb (is_send a)) l = true -> sends l = 0.
Proof.
  unfold sends. induction l as [|a l IH]; simpl; [done|]. intros [Ha Hl]%andb_true_iff.
  destruct (is_send a); [done|auto].
Qed.

Lemma log_ok_sends config log : log_ok config log ->
  sends log <= 2
  /\ (sends log = 2 -> may_replay config = true /\ exists h1 b h2 rest,
        log = Did_send h1 :: Did_refresh (Fulfilled (Authenticated b)) :: Did_send h2 :: rest).
Proof.
  intros (l & rest & -> & Hr & Hl). rewrite sends_app, (sends_none rest Hr).
  destruct Hl as [->|[(h & ->)|(l0 & h & (Hm & h1 & b & ->) & ->)]]; simpl; [cbn; split; lia..|].
  split; [cbn; lia|]. intros _. split; [done|]. by exists h1, b, h, rest.
Qed.

Lemma log_ok_sent config log rest :
  sent_log config log -> forallb (fun a => negb (is_send a)) rest = true -> log_ok config (log ++ rest).
Proof. intros Hs Hr. exists log, rest. auto. Qed.

Lemma log_ok_sent_nil config log : sent_log config log -> log_ok config log.
Proof. intros Hs. rewrite <- (app_nil_r log). by apply log_ok_sent. Qed.

Lemma replay_log_ok config log : replay config log -> log_ok config log.
Proof.
  intros (_ & h & b & ->). exists [Did_send h], [Did_refresh (Fulfilled (Authenticated b))].
  split; [done|]. split; [done|]. right. left. eauto.
Qed.

(** ** The invariant of a call *)

Definition waits (t : tab) (w : awaited) : Prop :=
  w = Pending -> exists r, refreshPromise t = Some r.

(** [config] is the configuration the call started with. *)
Definition call_ok (config : request_config) (c : call) : Prop :=
  let log := cl_log c in
  let now := cl_config c in
  match cl_phase c with
  | Queued => (log = [] /\ now = config) \/ (replay config log /\ authRetry now = true)
  | Await_headers w =>
      waits (cl_tab c) w /\ skipAuthRefresh now = true
      /\ ((log = [] /\ authRetry now = authRetry config) \/ (replay config log /\ authRetry now = true))
  | Sent =>
      ((exists h, log = [Did_send h]) /\ authRetry now = authRetry config
       /\ (skipAuthRefresh now = false -> is_single_use config = false /\ skipAuthRefresh config = false))
      \/ ((exists l h, replay config l /\ log = l ++ [Did_send h]) /\ authRetry now = true)
  | Await_refresh w =>
      waits (cl_tab c) w /\ authRetry now = true /\ may_replay config = true
      /\ exists h, log = [Did_send h]
  | Finished _ => log_ok config log
  end.

Lemma call_ok_log config c : call_ok config c -> log_ok config (cl_log c).
Proof.
  unfold call_ok. destruct (cl_phase c).
  - intros [[-> _]|[Hr _]]; [|by apply replay_log_ok]. exists [], []. auto.
  - intros (_ & _ & [[-> _]|[Hr _]]); [|by apply replay_log_ok]. exists [], []. auto.
  - intros [(Hs & _)|[Hs _]]; apply log_ok_sent_nil; [by left|by right].
  - intros (_ & _ & _ & Hs). apply log_ok_sent_nil. by left.
  - done.
Qed.

Lemma call_ok_sent config c :
  cl_phase c = Sent -> call_ok config c -> sent_log config (cl_log c).
Proof. unfold call_ok. intros ->. intros [(Hs & _)|[Hs _]]; [by left|by right]. Qed.

(** ** Steps *)

(** Between the callbacks of [finally] the awaited refresh stays in progress. *)
Lemma step_waits e t t' r :
  unloads e = false -> step e t = Some t' -> refreshPromise t = Some r ->
  (exists r', refreshPromise t' = Some r') \/ (exists s, settles e t = Some s).
Proof.
  intros Hu Hs Hr. destruct (runs e) eqn:He.
  2:{ left. exists r. by apply (step_call_keeps e t). }
  destruct r as [n p]. destruct e; try discriminate; simpl in Hs; rewrite Hr in Hs;
    unfold continue in Hs; simpl in Hs; destruct p; try discriminate; injection Hs as <-.
  - left. unfold run. destruct (negb _); simpl; eauto.
  - left. simpl. eauto.
  - left. unfold respond, run, settle, runtime_clear.
    repeat destr_match_goal; simpl; eauto.
  - left. unfold run. destruct (negb _); simpl; eauto.
  - right. unfold settles. rewrite Hr. eauto.
Qed.

Lemma elsewhere_ok config e c t :
  unloads e = false -> step e (cl_tab c) = Some t -> call_ok config c ->
  call_ok config (Call t (cl_config c)
    (match settles e (cl_tab c) with Some s => notify s (cl_phase c) | None => cl_phase c end) (cl_log c)).
Proof.
  intros Hu Hs Hok. assert (Hw : forall w, waits (cl_tab c) w ->
    waits t w \/ exists s, settles e (cl_tab c) = Some s).
  { intros [|s] Hw; [|left; intros [=]]. destruct (Hw eq_refl) as [r Hr].
    destruct (step_waits e _ _ r Hu Hs Hr) as [?|?]; [left; by intros _|by right]. }
  unfold call_ok in *. simpl. destruct (cl_phase c) as [|w| |w|ok] eqn:Hp; simpl.
  - by destruct (settles e (cl_tab c)).
  - destruct Hok as (Hwait & Hrest). destruct (settles e (cl_tab c)) eqn:E.
    + destruct w; simpl; (split; [intros [=]|done]).
    + destruct (Hw w Hwait) as [?|[s ?]]; [by split|done].
  - by destruct (settles e (cl_tab c)).
  - destruct Hok as (Hwait & Hrest). destruct (settles e (cl_tab c)) eqn:E.
    + destruct w; simpl; (split; [intros [=]|done]).
    + destruct (Hw w Hwait) as [?|[s ?]]; [by split|done].
  - by destruct (settles e (cl_tab c)).
Qed.

(** Sending takes a call that is ready to its next stage. *)
Lemma send_ok config now h t log :
  (log = [] /\ authRetry now = authRetry config
   /\ (skipAuthRefresh now = false -> is_single_use config = false /\ skipAuthRefresh config = false))
  \/ (replay config log /\ authRetry now = true) ->
  call_ok config (send now h t log).
Proof.
  unfold call_ok, send. simpl. intros [(-> & Ha & Hs)|[Hr Ha]]; [left|right].
  - split; [by exists h|done].
  - split; [by exists log, h|done].
Qed.

Lemma intercept_ok config locks now c :
  cl_phase c = Queued -> call_ok config c -> call_ok config (intercept_request locks now c).
Proof.
  unfold call_ok at 1. intros -> Hok. unfold intercept_request.
  destruct (is_single_use (cl_config c)) eqn:Hsu.
  - unfold getFreshAuthHeaders. destruct (token_after _ _).
    + apply send_ok. destruct Hok as [[Hl Hc]|[Hr Ha]]; [left|by right]. rewrite Hc. done.
    + simpl. unfold call_ok. simpl. split; [intros _; apply refreshAuthentication_busy_after|].
      split; [done|]. destruct Hok as [[Hl Hc]|[Hr Ha]]; [left|by right]. by rewrite Hc.
  - apply send_ok. destruct Hok as [[Hl Hc]|[Hr Ha]]; [left|by right]. subst config. done.
Qed.

Lemma resume_headers_ok config now s c :
  cl_phase c = Await_headers (Ready s) -> call_ok config c -> call_ok config (resume_headers now s c).
Proof.
  intros Hp Hok. unfold resume_headers. destruct (fresh_headers_resumed now s (cl_tab c)).
  - unfold call_ok in Hok. rewrite Hp in Hok. destruct Hok as (_ & Hs & Hok). apply send_ok.
    destruct Hok as [[Hl Ha]|?]; [left|by right]. split_and!; [done|done|congruence].
  - unfold call_ok at 1. simpl. by apply call_ok_log.
Qed.

Lemma handle_response_ok config data c :
  cl_phase c = Sent -> call_ok config c -> call_ok config (handle_response data c).
Proof.
  intros Hp Hok%call_ok_log. unfold handle_response.
  destruct (_ && _); [|done]. by destruct (applyAuthRotation _ _).
Qed.

Lemma handle_error_ok config locks status c :
  cl_phase c = Sent -> call_ok config c -> call_ok config (handle_error locks status c).
Proof.
  intros Hp Hok. assert (Hsent := call_ok_sent _ _ Hp Hok).
  assert (Hfail : forall t now rest, forallb (fun a => negb (is_send a)) rest = true ->
    call_ok config (Call t now (Finished false) (cl_log c ++ rest))).
  { intros t now rest Hr. unfold call_ok. simpl. by apply log_ok_sent. }
  assert (Hex : forallb (fun a => negb (is_send a)) (show_expired (cl_config c)) = true)
    by (unfold show_expired; by destruct (skipErrorHandler _)).
  unfold handle_error. destruct status as [z|]; [|by apply Hfail].
  destruct (decide (z = 401%Z)) as [->|Hne].
  2:{ replace (match z with 401%Z => _ | _ => _ end)
        with (Call (cl_tab c) (cl_config c) (Finished false) (cl_log c ++ []))
        by (repeat (case_match; try done)). by apply Hfail. }
  destruct (negb (skipAuthRefresh _) && negb (authRetry _)) eqn:Hn.
  - apply andb_true_iff in Hn as [Hs Ha]. apply negb_true_iff in Hs, Ha.
    unfold call_ok in *. rewrite Hp in Hok. simpl.
    destruct Hok as [(Hl & Hr & Hx)|[_ Hr]]; [|congruence]. destruct (Hx Hs) as [Hsu Hsk].
    split; [intros _; apply refreshAuthentication_busy_after|]. split; [done|]. split; [|done].
    unfold may_replay. rewrite Hsu, Hsk, <- Hr, Ha. done.
  - destruct (authRetry (cl_config c)); [|by apply Hfail]. apply Hfail.
    rewrite !forallb_app, Hex. done.
Qed.

Lemma resume_refresh_ok config s c :
  cl_phase c = Await_refresh (Ready s) -> call_ok config c -> call_ok config (resume_refresh s c).
Proof.
  intros Hp Hok. unfold call_ok in Hok. rewrite Hp in Hok. destruct Hok as (_ & Ha & Hm & h & Hl).
  assert (Hfail : forall rest, forallb (fun a => negb (is_send a)) rest = true ->
    call_ok config (Call (cl_tab c) (cl_config c) (Finished false) ((cl_log c ++ [Did_refresh s]) ++ rest))).
  { intros rest Hr. unfold call_ok. simpl. rewrite <- app_assoc. apply log_ok_sent; [|done].
    left. eauto. }
  assert (Hex : forallb (fun a => negb (is_send a)) (show_expired (cl_config c) ++ [Did_redirect]) = true)
    by (unfold show_expired; by destruct (skipErrorHandler _)).
  unfold resume_refresh. destruct s as [[b| |x|code]|]; try (by apply Hfail).
  - unfold call_ok. simpl. right. split; [|done]. split; [done|]. exists h, b. by rewrite Hl.
  - rewrite <- (app_nil_r (cl_log c ++ _)). by apply Hfail.
  - rewrite <- (app_nil_r (cl_log c ++ _)). by apply Hfail.
Qed.

Lemma call_step_ok config e c c' : call_step e c = Some c' -> call_ok config c -> call_ok config c'.
Proof.
  intros Hs Hok. destruct (is_elsewhere e) eqn:He.
  { destruct e as [e| | | | |]; try discriminate. simpl in Hs.
    destruct (unloads e) eqn:Hu; [discriminate|].
    destruct (step e (cl_tab c)) as [t|] eqn:Ht; [|discriminate]. injection Hs as <-.
    by apply elsewhere_ok. }
  unfold call_step in Hs. destruct (cl_phase c) as [|[|s]| |[|s]|ok] eqn:Hp;
    destruct e as [e|locks now|now|data|locks status|]; try discriminate; injection Hs as <-.
  - by apply intercept_ok.
  - by apply resume_headers_ok.
  - by apply handle_response_ok.
  - by apply handle_error_ok.
  - by apply resume_refresh_ok.
Qed.

Lemma call_steps_ok config es : forall c c',
  call_steps es c = Some c' -> call_ok config c -> call_ok config c'.
Proof.
  induction es as [|e es IH]; simpl; intros c c' Hs Hok; [by simplify_eq|].
  destruct (call_step e c) as [c1|] eqn:E; [|done]. eapply IH; [done|]. by eapply call_step_ok.
Qed.
(** ** Ends *)

(** How many events of its own a call still has. *)
Definition rank (c : call) : nat :=
  let first := if authRetry (cl_config c) then 0 else 4 in
  match cl_phase c with
  | Queued => 3 + first
  | Await_headers _ => 2 + first
  | Sent => 1 + first
  | Await_refresh _ => if authRetry (cl_config c) then 4 else 5
  | Finished _ => 0
  end.

Lemma notify_rank t config s p log : rank (Call t config (notify s p) log) = rank (Call t config p log).
Proof. by destruct p as [|[]| |[]|]. Qed.

Lemma elsewhere_rank e c c' : is_elsewhere e = true -> call_step e c = Some c' -> rank c' = rank c.
Proof.
  destruct e as [e| | | | |]; try discriminate. intros _ Hs. simpl in Hs.
  destruct (unloads e); [discriminate|]. destruct (step e (cl_tab c)) as [t|]; [|discriminate].
  injection Hs as <-. destruct (settles e (cl_tab c)); [rewrite notify_rank|]; by destruct c.
Qed.

(** A call waits for a refresh only after it has noted that it did. *)
Definition refresh_noted (c : call) : Prop :=
  match cl_phase c with Await_refresh _ => authRetry (cl_config c) = true | _ => True end.

Lemma own_rank e c c' :
  refresh_noted c -> is_elsewhere e = false -> call_step e c = Some c' -> rank c' < rank c.
Proof.
  intros Hn He Hs. unfold call_step in Hs. unfold refresh_noted in Hn. unfold rank at 2.
  destruct (cl_phase c) as [|[|s]| |[|s]|ok];
    destruct e as [e|locks now|now|data|locks status|]; try discriminate; injection Hs as <-.
  - unfold intercept_request, getFreshAuthHeaders.
    destruct (is_single_use _); [destruct (token_after _ _)|]; unfold rank; simpl; lia.
  - unfold resume_headers. destruct (fresh_headers_resumed _ _ _); unfold rank; simpl; lia.
  - unfold handle_response. destruct (_ && _); [destruct (applyAuthRotation _ _)|]; unfold rank; simpl; lia.
  - unfold handle_error. destruct (negb (skipAuthRefresh _) && negb (authRetry _)) eqn:E.
    + apply andb_true_iff in E as [_ E]. apply negb_true_iff in E. rewrite E.
      repeat case_match; unfold rank; simpl; lia.
    + repeat case_match; unfold rank; simpl; lia.
  - rewrite Hn. unfold resume_refresh. destruct s as [[]|]; unfold rank; simpl; rewrite ?Hn; lia.
Qed.

Definition own_count (es : list call_event) : nat :=
  length (List.filter (fun e => negb (is_elsewhere e)) es).

Lemma call_ok_noted config c : call_ok config c -> refresh_noted c.
Proof. unfold call_ok, refresh_noted. destruct (cl_phase c); try done. by intros (_ & ? & _). Qed.

Lemma own_bounded config es : forall c c',
  call_ok config c -> call_steps es c = Some c' -> own_count es + rank c' <= rank c.
Proof.
  induction es as [|e es IH]; simpl; intros c c' Hok Hs; [simplify_eq; cbn; lia|].
  destruct (call_step e c) as [c1|] eqn:E; [|done].
  specialize (IH c1 c' (call_step_ok _ _ _ _ E Hok) Hs). unfold own_count in *. simpl.
  destruct (is_elsewhere e) eqn:He; simpl.
  - rewrite <- (elsewhere_rank e c c1) by done. lia.
  - assert (rank c1 < rank c) by (eapply own_rank; [by eapply call_ok_noted|done|done]). lia.
Qed.

(** What a call does next: it is over, or an event of its own can happen, or it waits
    for a refresh in progress. *)
Lemma call_progress config c :
  call_ok config c ->
  (exists ok, cl_phase c = Finished ok)
  \/ (exists e c', is_elsewhere e = false /\ call_step e c = Some c')
  \/ (exists r, refreshPromise (cl_tab c) = Some r).
Proof.
  unfold call_ok. destruct (cl_phase c) as [|[|s]| |[|s]|ok] eqn:Hp; intros Hok; [| | | | | |eauto].
  - right. left. exists (Intercept false 0). eexists. split; [done|]. simpl. by rewrite Hp.
  - right. right. destruct Hok as [Hw _]. by apply Hw.
  - right. left. exists (Headers_settled 0). eexists. split; [done|]. simpl. by rewrite Hp.
  - right. left. exists (Answer_ok VUndef). eexists. split; [done|]. simpl. by rewrite Hp.
  - right. right. destruct Hok as [Hw _]. by apply Hw.
  - right. left. exists Refresh_settled. eexists. split; [done|]. simpl. by rewrite Hp.
Qed.

(** C24: whatever the server answers and whatever the rest of the program does with the
    session meanwhile, a request is sent at most twice; the second time only if it is
    no single-use request and its caller did not forbid it, after the first answer and
    a refresh that ended with the user signed in.  A call takes at most seven steps of
    its own, and until it is over it can take one or waits for a refresh in progress,
    which ends. *)
Theorem request_replay_bound config t es c :
  authRetry config = false ->
  call_steps es (start config t) = Some c ->
  sends (cl_log c) <= 2
  /\ (sends (cl_log c) = 2 -> may_replay config = true /\ exists h1 b h2 rest,
        cl_log c
        = Did_send h1 :: Did_refresh (Fulfilled (Authenticated b)) :: Did_send h2 :: rest)
  /\ own_count es <= 7
  /\ ((exists ok, cl_phase c = Finished ok)
      \/ (exists e c', is_elsewhere e = false /\ call_step e c = Some c')
      \/ (exists r, refreshPromise (cl_tab c) = Some r)).
Proof.
  intros Ha Hs. assert (H0 : call_ok config (start config t)) by (by left).
  assert (Hok := call_steps_ok config es _ _ Hs H0).
  destruct (log_ok_sends config (cl_log c) (call_ok_log _ _ Hok)) as [H1 H2].
  split_and!; [done|done| |by eapply call_progress].
  apply (own_bounded config) in Hs; [|done]. unfold rank at 2 in Hs. simpl in Hs. rewrite Ha in Hs. lia.
Qed.

(** A request refused a second time signs the user out of this tab. *)
Lemma refused_twice locks c :
  authRetry (cl_config c) = true ->
  cl_tab (handle_error locks (Some 401%Z) c) = clearAuthentication false Bcomplete (cl_tab c).
Proof. intros Ha. unfold handle_error. rewrite Ha, andb_false_r. done. Qed.
End calls.

(** ** Shared requests *)

Lemma api_get_shared {A} t url params (fresh1 fresh2 : A) m :
  let '(p1, m1) := api_get false t url params fresh1 m in
  api_get false t url params fresh2 m1 = (p1, m1).
Proof.
  unfold api_get. destruct (assoc_get str_eqb _ m) as [p|] eqn:E; [by rewrite E|].
  by rewrite assoc_get_set_eq by apply str_eqb_eq.
Qed.

Lemma get_finished_gone {A} key (m : in_flight A) : assoc_get str_eqb key (get_finished key m) = None.
Proof.
  unfold get_finished. induction m as [|[k v] m IH]; simpl; [done|].
  destruct (str_eqb k key) eqn:E; simpl; [done|]. rewrite str_eqb_sym in E. by rewrite E.
Qed.

(** ** Witness *)

Definition plain_headers : Headers.
Proof.
  refine {| headers := list (jsstr * jsstr);
            has_header := fun name h => assoc_mem str_eqb name h;
            get_header := fun name h => assoc_get str_eqb name h;
            set_header := fun name v h => assoc_set str_eqb name v h |}.
  intros name v h. apply assoc_get_set_eq, str_eqb_eq.
Defined.

Definition plain_config : @request_config plain_headers :=
  @RequestConfig plain_headers false false false false false [].

(** Refused, refreshed, sent again, refused again. *)
Definition refused_trace : list call_event :=
  [Intercept false 0; Answer_error false (Some 401%Z); Elsewhere (Response (sample_answer "s1"));
   Elsewhere Finally; Refresh_settled; Intercept false 0; Answer_error false (Some 401%Z)].

Lemma request_replay_bound_witness :
  match @call_steps plain_headers refused_trace (@start plain_headers plain_config initial_tab) with
  | Some c =>
      sends (cl_log c) = 2 /\ accessToken (store (cl_tab c)) = None
      /\ may_replay plain_config = true /\ own_count refused_trace <= 7
  | None => False
  end.
Proof.
  destruct (@call_steps plain_headers refused_trace (@start plain_headers plain_config initial_tab))
    as [c|] eqn:Hs; [|vm_compute in Hs; discriminate Hs].
  assert (Hn : sends (cl_log c) = 2 /\ accessToken (store (cl_tab c)) = None)
    by (vm_compute in Hs; injection Hs as <-; split; reflexivity).
  destruct (@request_replay_bound plain_headers plain_config initial_tab refused_trace c eq_refl Hs)
    as (_ & H2 & H3 & _).
  destruct Hn as [Hn Ht]. destruct (H2 Hn) as [Hm _]. repeat split; assumption.
Defined.
