(* ===== verification/PricingFormat.v ===== *)
(** * Amounts in the pricing settings

    Models [system-settings/models/pricing-format.ts] and [model-pricing/currency.ts]:
    numbers printed without the drift of binary arithmetic, and amounts in the currency
    the administrator works in. *)

From Stdlib Require Import SpecFloat.
From S2P Require Import Prelude JsString JsNumber JsValue Currency.

Local Open Scope Z_scope.

(** [Math.round]: the nearest integer, the larger of two; a zero keeps the sign. *)
Definition n_round (x : num) : num :=
  match x with
  | S754_finite s m e =>
      if 0 <=? e then x
      else
        let q := (2 * cond_Zopp s (Zpos m) + 2 ^ (- e)) / (2 * 2 ^ (- e)) in
        if q =? 0 then S754_zero s else n_of_Z q
  | _ => x
  end.

Definition DISPLAY_DECIMALS : Z := 12.
Definition SNAP_DECIMALS : nat := 8%nat.
Definition SNAP_EPSILON : num := n_of_decimal 1 (-12).
(** [Number.EPSILON] *)
Definition EPSILON : num := binary_normalize prec emax 1 (-52) false.

Definition format_toNumberOrNull (value : jsval) : option num :=
  match value with
  | VStr [] | VNull | VUndef | VBool false => None
  | _ => let num := number_of_value value in if is_finite num then Some num else None
  end.

(** [10 ** decimals] is exact for the decimals used. *)
Definition roundToDecimals (value : num) (decimals : nat) : num :=
  let factor := n_of_Z (10 ^ Z.of_nat decimals) in
  n_div (n_round (n_mul value factor)) factor.

(** The loop over [decimals], [count] of them left. *)
Fixpoint snap_from (value tolerance : num) (decimals count : nat) : num :=
  match count with
  | O => value
  | S count' =>
      let rounded := roundToDecimals value decimals in
      if n_leb (n_abs (n_sub value rounded)) tolerance then rounded
      else snap_from value tolerance (S decimals) count'
  end.

Definition snap_tolerance (value : num) : num :=
  n_max SNAP_EPSILON (n_mul (n_mul (n_abs value) EPSILON) (n_of_Z 8)).

Definition snapFloatDrift (value : num) : num :=
  snap_from value (snap_tolerance value) 0 (S SNAP_DECIMALS).

(** The text of [toFixed] is a whole decimal literal, so [parseFloat] reads it as
    [Number] does. *)
Definition formatPricingNumber (value : jsval) : jsstr :=
  match format_toNumberOrNull value with
  | None => []
  | Some num =>
      string_of_number (number_of_string (to_fixed DISPLAY_DECIMALS (snapFloatDrift num)))
  end.

Example format_drift :
  formatPricingNumber (VNum (n_add (n_of_decimal 1 (-1)) (n_of_decimal 2 (-1)))) = js "0.3".
Proof. vm_compute. reflexivity. Qed.
Example format_third : formatPricingNumber (VNum (n_div (n_of_Z 1) (n_of_Z 3))) = js "0.333333333333".
Proof. vm_compute. reflexivity. Qed.
Example round_half : map n_round [n_of_decimal 25 (-1); n_neg (n_of_decimal 25 (-1)); n_neg (n_of_decimal 4 (-1))]
  = [n_of_Z 3; n_of_Z (-2); S754_zero true].
Proof. vm_compute. reflexivity. Qed.

(** ** Currencies *)

Record pricing_currency := PricingCurrency {
  pc_label : jsstr;
  pc_symbol : jsstr;
  pc_exchangeRate : num;
}.

Definition USD_PRICING_CURRENCY : pricing_currency := PricingCurrency (js "USD") (js "$") (n_of_Z 1).

Definition getSitePricingCurrency (config : currency_config) : option pricing_currency :=
  match quotaDisplayType config with
  | DisplayCNY => Some (PricingCurrency (js "CNY") [165%N] (usdExchangeRate config))
  | DisplayCUSTOM =>
      let symbol := trim (customCurrencySymbol config) in
      let symbol := if truthy_str symbol then symbol else [164%N] in
      Some (PricingCurrency symbol symbol (customCurrencyExchangeRate config))
  | _ => None
  end.

Definition isValidPricingCurrency (currency : option pricing_currency) : bool :=
  match currency with
  | Some c => is_finite (pc_exchangeRate c) && n_gtb (pc_exchangeRate c) n_zero
  | None => false
  end.

Definition formatPricingAmount (value : jsval) (currency : pricing_currency) : jsstr :=
  match value with
  | VStr [] => []
  | _ =>
      let amount := n_mul (number_of_value value) (pc_exchangeRate currency) in
      if negb (is_finite amount) then [8212%N]
      else pc_symbol currency ++ formatPricingNumber (VNum amount)
  end.
