(* ===== verification/PricingSnapshots.v ===== *)
(** * Rows of the pricing settings

    Models [system-settings/models/model-pricing-snapshots.ts],
    [model-pricing-core.ts] and [safeJsonParse] of [system-settings/utils/json-parser.ts]:
    the stored options, one JSON object of model names per option, become one row per
    model; the editor's lanes and the preview are derived from a row. *)

From S2P Require Import Prelude JsString JsNumber JsRegex JsValue JsJson ExprTypes ExprCompile ExprDisplay ConditionDisplay BillingExpr TaskExpr Currency PricingModel PricingFormat.

(** What the functions of the settings throw.  [Untyped] stands for stored JSON that
    is not of the type the code declares for it (an option that is not an object, an
    expression that is not a string), which is outside the model. *)
Inductive pricing_error : Type :=
| InvalidJson
| NotAnObject
| InvalidValue
| InvalidPrice
| Evaluation (e : berr)
| Untyped.

Definition pricing_result (A : Type) : Type := result pricing_error A.

Definition evaluate {A} (r : result berr A) : pricing_result A :=
  match r with Ok a => Ok a | Err e => Err (Evaluation e) end.

(** The members every object inherits from [Object.prototype], as [String] prints
    them. *)
Class Prototype := { inherited_text : jsstr -> option jsstr }.

(** ** Reading the options *)

Definition safeJsonParse (value : jsstr) (fallback : jsval) : jsval :=
  if negb (truthy_str value) || negb (truthy_str (trim value)) then fallback
  else match json_parse (trim value) with Some v => v | None => fallback end.

(** [safeJsonParse(text, {fallback: {}})] as the record the code declares. *)
Definition option_map_of (text : jsstr) : pricing_result (list (jsstr * jsval)) :=
  match safeJsonParse text (VObj []) with VObj o => Ok o | _ => Err Untyped end.

(** ** Rows *)

Record snapshot_input := SnapshotInput {
  si_modelPrice : jsstr;
  si_modelRatio : jsstr;
  si_originalModelPrice : jsstr;
  si_cacheRatio : jsstr;
  si_createCacheRatio : jsstr;
  si_completionRatio : jsstr;
  si_imageRatio : jsstr;
  si_audioRatio : jsstr;
  si_audioCompletionRatio : jsstr;
  si_billingMode : jsstr;
  si_billingExpr : jsstr;
  si_pluginBillingExpr : jsstr;
}.

(** The code that reads a row treats an absent text as the empty one; both are the
    empty text here. *)
Record snapshot := Snapshot {
  sn_pluginBillingExpr : option (list (jsstr * jsstr));
  sn_name : jsstr;
  sn_price : jsstr;
  sn_ratio : jsstr;
  sn_originalInputPrice : jsstr;
  sn_originalOutputPrice : jsstr;
  sn_originalCacheReadPrice : jsstr;
  sn_originalCacheWritePrice : jsstr;
  sn_cacheRatio : jsstr;
  sn_createCacheRatio : jsstr;
  sn_completionRatio : jsstr;
  sn_imageRatio : jsstr;
  sn_audioRatio : jsstr;
  sn_audioCompletionRatio : jsstr;
  sn_billingMode : jsstr;
  sn_billingExpr : jsstr;
  sn_requestRuleExpr : jsstr;
  sn_hasConflict : bool;
}.

Definition hasPricingValue (value : jsstr) : bool := truthy_str value.

Definition isBasePricingUnset (row : option snapshot) : bool :=
  match row with
  | None => true
  | Some s =>
      negb (str_eqb (sn_billingMode s) (js "tiered_expr"))
      && negb (hasPricingValue (sn_price s)) && negb (hasPricingValue (sn_ratio s))
  end.

Definition snapshot_toNumberOrNull (value : jsstr) : option num :=
  if negb (hasPricingValue value) then None
  else let num := number_of_string value in if is_finite num then Some num else None.

Definition ratioToPrice (ratio denominator : jsstr) : jsstr :=
  let ratioNumber := snapshot_toNumberOrNull ratio in
  let denominatorNumber :=
    if truthy_str denominator then snapshot_toNumberOrNull denominator else Some (n_of_Z 2) in
  match ratioNumber, denominatorNumber with
  | Some r, Some d => formatPricingNumber (VNum (n_mul r d))
  | _, _ => []
  end.

Definition getModeLabel (mode : option jsstr) : jsstr :=
  match mode with
  | Some m =>
      if str_eqb m (js "per-request") then js "Per-request (deprecated)"
      else if str_eqb m (js "tiered_expr") then js "Expression" else js "Per-token (deprecated)"
  | None => js "Per-token (deprecated)"
  end.

Definition getModeVariant (mode : option jsstr) : jsstr :=
  match mode with
  | Some m =>
      if str_eqb m (js "per-request") then js "warning"
      else if str_eqb m (js "tiered_expr") then js "info" else js "success"
  | None => js "success"
  end.

(** [(s.match(/tier\(/g) || \[\]).length] *)
Fixpoint count_tiers (s : jsstr) : nat :=
  match s with
  | [] => 0
  | _ :: s' => (if starts_with (js "tier(") s then 1 else 0) + count_tiers s'
  end.

Section texts.
Variable t : jsstr -> jsstr.

Definition dot : jsstr := js " " ++ [183%N] ++ js " ".

Definition getExpressionSummary (row : snapshot) : jsstr :=
  let tierCount := count_tiers (sn_billingExpr row) in
  if Nat.ltb 0 tierCount
  then t (js "Tiered pricing") ++ dot ++ str_of_nat tierCount ++ js " " ++ t (js "tiers")
  else t (js "Expression pricing").

Definition getPriceSummary (row : snapshot) : jsstr :=
  if str_eqb (sn_billingMode row) (js "tiered_expr") then getExpressionSummary row
  else if str_eqb (sn_billingMode row) (js "per-request") then
    if truthy_str (sn_price row) then js "$" ++ sn_price row ++ js " / " ++ t (js "request")
    else t (js "Unset price")
  else
    let inputPrice := ratioToPrice (sn_ratio row) [] in
    if negb (truthy_str inputPrice) then t (js "Unset price")
    else t (js "Input") ++ js " $" ++ inputPrice.

Definition getPriceDetail (row : snapshot) : jsstr :=
  if str_eqb (sn_billingMode row) (js "tiered_expr") then
    if truthy_str (sn_requestRuleExpr row) then t (js "Includes request rules")
    else t (js "Expression based")
  else if str_eqb (sn_billingMode row) (js "per-request") then t (js "Fixed request price")
  else
    let inputPrice := ratioToPrice (sn_ratio row) [] in
    if negb (truthy_str inputPrice) then t (js "No base input price")
    else
      let detail label ratio :=
        if truthy_str ratio
        then [t (js label) ++ js " $" ++ ratioToPrice ratio inputPrice] else [] in
      let details :=
        take 2 (detail "Output"%string (sn_completionRatio row)
                ++ detail "Cache"%string (sn_cacheRatio row)
                ++ detail "Cache write"%string (sn_createCacheRatio row)) in
      match details with [] => t (js "Base input price only") | _ => join dot details end.
End texts.

(** ** From the options to the rows *)

Definition set_of (names : list jsstr) : list jsstr :=
  fold_left (fun acc name => set_add str_eqb name acc) names [].

(** [pluginExpressionsByModel]: the loop over the entries of the provider option. *)
Definition plugin_entry (by_model : list (jsstr * list (jsstr * jsstr))) (entry : jsstr * jsval)
  : pricing_result (list (jsstr * list (jsstr * jsstr))) :=
  match splitPluginBillingExprKey entry.1 with
  | None => Ok by_model
  | Some (plugin, model) =>
      match entry.2 with
      | VStr expression =>
          Ok (assoc_set str_eqb model
                (prop_set plugin expression (default [] (assoc_get str_eqb model by_model))) by_model)
      | _ => Err Untyped
      end
  end.

Fixpoint plugin_entries (entries : list (jsstr * jsval)) (by_model : list (jsstr * list (jsstr * jsstr)))
  : pricing_result (list (jsstr * list (jsstr * jsstr))) :=
  match entries with
  | [] => Ok by_model
  | entry :: entries' => let? by_model' := plugin_entry by_model entry in plugin_entries entries' by_model'
  end.

Fixpoint collect_results {E A B} (f : A -> result E B) (l : list A) : result E (list B) :=
  match l with
  | [] => Ok []
  | x :: l' => let? y := f x in let? ys := collect_results f l' in Ok (y :: ys)
  end.

Section rows.
Context `{Host} {Proto : Prototype}.

(** [map\[name\]?.toString() || ''] *)
Definition member_text_of (name : jsstr) (o : list (jsstr * jsval)) : jsstr :=
  match assoc_get str_eqb name o with
  | Some VUndef | Some VNull => []
  | Some v => string_of_value v
  | None => default [] (inherited_text name)
  end.

(** [(map\[name\] || {}).field?.toString() || ''], for names of fields that no object
    inherits. *)
Definition original_text (name : jsstr) (field : string) (o : list (jsstr * jsval)) : jsstr :=
  match assoc_get str_eqb name o with
  | Some (VObj original) =>
      match assoc_get str_eqb (js field) original with
      | Some VUndef | Some VNull | None => []
      | Some v => string_of_value v
      end
  | _ => []
  end.

(** [map\[name\] || ''], declared to be a string. *)
Definition expression_of (name : jsstr) (o : list (jsstr * jsval)) : pricing_result jsstr :=
  match assoc_get str_eqb name o with
  | Some (VStr s) => Ok s
  | Some VNull | Some VUndef | Some (VBool false) => Ok []
  | Some _ => Err Untyped
  | None => match inherited_text name with Some _ => Err Untyped | None => Ok [] end
  end.

Definition is_tiered (name : jsstr) (modes : list (jsstr * jsval)) : bool :=
  match assoc_get str_eqb name modes with
  | Some (VStr s) => str_eqb s (js "tiered_expr")
  | _ => false
  end.

(** The parsed options. *)
Record option_maps := OptionMaps {
  om_price : list (jsstr * jsval);
  om_ratio : list (jsstr * jsval);
  om_original : list (jsstr * jsval);
  om_cache : list (jsstr * jsval);
  om_createCache : list (jsstr * jsval);
  om_completion : list (jsstr * jsval);
  om_image : list (jsstr * jsval);
  om_audio : list (jsstr * jsval);
  om_audioCompletion : list (jsstr * jsval);
  om_billingMode : list (jsstr * jsval);
  om_billingExpr : list (jsstr * jsval);
  om_plugins : list (jsstr * list (jsstr * jsstr));
}.

Definition parse_options (input : snapshot_input) : pricing_result option_maps :=
  let? price := option_map_of (si_modelPrice input) in
  let? ratio := option_map_of (si_modelRatio input) in
  let? original := option_map_of (si_originalModelPrice input) in
  let? cache := option_map_of (si_cacheRatio input) in
  let? createCache := option_map_of (si_createCacheRatio input) in
  let? completion := option_map_of (si_completionRatio input) in
  let? image := option_map_of (si_imageRatio input) in
  let? audio := option_map_of (si_audioRatio input) in
  let? audioCompletion := option_map_of (si_audioCompletionRatio input) in
  let? billingMode := option_map_of (si_billingMode input) in
  let? billingExpr := option_map_of (si_billingExpr input) in
  let? pluginExpr := option_map_of (si_pluginBillingExpr input) in
  let? plugins := plugin_entries pluginExpr [] in
  Ok (OptionMaps price ratio original cache createCache completion image audio audioCompletion
        billingMode billingExpr plugins).

(** [modelNames] *)
Definition model_names (maps : option_maps) : list jsstr :=
  set_of (map fst (om_plugins maps) ++ map fst (om_price maps) ++ map fst (om_ratio maps)
          ++ map fst (om_original maps) ++ map fst (om_cache maps) ++ map fst (om_createCache maps)
          ++ map fst (om_completion maps) ++ map fst (om_image maps) ++ map fst (om_audio maps)
          ++ map fst (om_audioCompletion maps) ++ map fst (om_billingMode maps)
          ++ map fst (om_billingExpr maps)).

(** The row of one model. *)
Definition model_row (maps : option_maps) (name : jsstr) : pricing_result snapshot :=
  let price := member_text_of name (om_price maps) in
  let ratio := member_text_of name (om_ratio maps) in
  let cache := member_text_of name (om_cache maps) in
  let createCache := member_text_of name (om_createCache maps) in
  let completion := member_text_of name (om_completion maps) in
  let image := member_text_of name (om_image maps) in
  let audio := member_text_of name (om_audio maps) in
  let audioCompletion := member_text_of name (om_audioCompletion maps) in
  let original field := original_text name field (om_original maps) in
  let row mode expr rules conflict :=
    Snapshot (assoc_get str_eqb name (om_plugins maps)) name price ratio
      (original "input"%string) (original "output"%string) (original "cache_read"%string)
      (original "cache_write"%string) cache createCache completion image audio audioCompletion
      mode expr rules conflict in
  if is_tiered name (om_billingMode maps) then
    let? fullExpr := expression_of name (om_billingExpr maps) in
    let? (pureExpr, requestRuleExpr) := evaluate (splitBillingExprAndRequestRules fullExpr) in
    Ok (row (js "tiered_expr") pureExpr requestRuleExpr false)
  else
    Ok (row (if truthy_str price then js "per-request" else js "per-token") [] []
          (truthy_str price
           && (truthy_str ratio || truthy_str completion || truthy_str cache || truthy_str createCache
               || truthy_str image || truthy_str audio || truthy_str audioCompletion))).

Definition buildModelSnapshots (input : snapshot_input) : pricing_result (list snapshot) :=
  let? maps := parse_options input in
  collect_results (model_row maps) (model_names maps).
End rows.

(** ** Signatures *)

Definition field (name : string) (text : jsstr) : jsstr * jsval := (js name, VStr text).

Definition signature_value {Col : Collation} (row : snapshot) : jsval :=
  VObj
    [field "price" (sn_price row); field "ratio" (sn_ratio row);
     field "originalInputPrice" (sn_originalInputPrice row);
     field "originalOutputPrice" (sn_originalOutputPrice row);
     field "originalCacheReadPrice" (sn_originalCacheReadPrice row);
     field "originalCacheWritePrice" (sn_originalCacheWritePrice row);
     field "cacheRatio" (sn_cacheRatio row); field "createCacheRatio" (sn_createCacheRatio row);
     field "completionRatio" (sn_completionRatio row); field "imageRatio" (sn_imageRatio row);
     field "audioRatio" (sn_audioRatio row); field "audioCompletionRatio" (sn_audioCompletionRatio row);
     field "billingMode" (if truthy_str (sn_billingMode row) then sn_billingMode row else js "per-token");
     field "billingExpr" (sn_billingExpr row); field "requestRuleExpr" (sn_requestRuleExpr row);
     (js "pluginBillingExpr",
      VArr (map (fun e => VArr [VStr e.1; VStr e.2])
              (sort_fields (default [] (sn_pluginBillingExpr row)))))].

Definition getSnapshotSignature {Col : Collation} (row : option snapshot) : jsstr :=
  match row with None => [] | Some s => json_text (signature_value s) end.

(** ** The editor *)

Inductive pricing_mode : Type := PerToken | PerRequest | TieredExpr.

#[export] Instance pricing_mode_eq_dec : EqDecision pricing_mode.
Proof. solve_decision. Defined.

(** [ModelRatioData]; an absent text is the empty one. *)
Record ratio_data := RatioData {
  rd_pluginBillingExpr : option (list (jsstr * jsstr));
  rd_name : jsstr;
  rd_price : jsstr;
  rd_ratio : jsstr;
  rd_originalInputPrice : jsstr;
  rd_originalOutputPrice : jsstr;
  rd_originalCacheReadPrice : jsstr;
  rd_originalCacheWritePrice : jsstr;
  rd_cacheRatio : jsstr;
  rd_createCacheRatio : jsstr;
  rd_completionRatio : jsstr;
  rd_imageRatio : jsstr;
  rd_audioRatio : jsstr;
  rd_audioCompletionRatio : jsstr;
  rd_billingMode : option pricing_mode;
  rd_billingExpr : jsstr;
  rd_requestRuleExpr : jsstr;
}.

Definition hasValue (value : jsval) : bool :=
  match value with VStr [] | VNull | VUndef | VBool false => false | _ => true end.

(** [!hasValue(value) && value !== 0]: a number has a value, zero too. *)
Definition core_toNumberOrNull (value : jsval) : option num :=
  if negb (hasValue value) then None
  else let num := number_of_value value in if is_finite num then Some num else None.

(** A provider of the model's entry. *)
Record pricing_variant := PricingVariant {
  var_plugin_key : jsstr;
  var_stale : bool;
}.

Section core.
Context `{Host}.

Definition usesTaskModelPricing (data : option ratio_data) (schema : option usage_schema)
  (variants : list pricing_variant) : bool :=
  let text f := match data with Some d => f d | None => [] end in
  let tiered := match data with Some d => bool_decide (rd_billingMode d = Some TieredExpr) | None => false end in
  if negb tiered && (hasValue (VStr (text rd_price)) || hasValue (VStr (text rd_ratio))) then false
  else
    let compiled := compile_source (text rd_billingExpr) in
    let has f := match compiled with Ready c => str_mem (js f) (c_functions c) | NotReady _ => false end in
    if has "u"%string then true
    else
      match schema with
      | None => false
      | Some _ =>
          if negb (truthy_str (trim (text rd_billingExpr))) then true
          else if has "fixed"%string then false
          else
            let active := List.filter (fun v => negb (var_stale v)) variants in
            let configured :=
              match data with Some d => default [] (rd_pluginBillingExpr d) | None => [] end in
            Nat.eqb (length active) 0
            || existsb (fun v => negb (assoc_mem str_eqb (var_plugin_key v) configured)) active
      end.

(** One text per lane. *)
Record lanes (A : Type) := Lanes {
  lane_completion : A;
  lane_cache : A;
  lane_createCache : A;
  lane_image : A;
  lane_audioInput : A;
  lane_audioOutput : A;
}.

Definition EMPTY_LANE_PRICES : lanes jsstr := Lanes _ [] [] [] [] [] [].
Definition EMPTY_LANE_ENABLED : lanes bool := Lanes _ false false false false false false.

Definition ratioToBasePrice (ratio : jsval) : jsstr :=
  match core_toNumberOrNull ratio with
  | None => []
  | Some num => formatPricingNumber (VNum (n_mul num (n_of_Z 2)))
  end.

Definition deriveLanePrice (ratio denominator : jsval) : jsstr :=
  match core_toNumberOrNull ratio, core_toNumberOrNull denominator with
  | Some r, Some d => formatPricingNumber (VNum (n_mul r d))
  | _, _ => []
  end.

Definition createInitialLaneState (data : option ratio_data) : jsstr * lanes jsstr * lanes bool :=
  match data with
  | None => ([], EMPTY_LANE_PRICES, EMPTY_LANE_ENABLED)
  | Some d =>
      let promptPrice := ratioToBasePrice (VStr (rd_ratio d)) in
      let derive ratio := deriveLanePrice (VStr ratio) (VStr promptPrice) in
      let audioInputPrice := derive (rd_audioRatio d) in
      (promptPrice,
       Lanes _ (derive (rd_completionRatio d)) (derive (rd_cacheRatio d)) (derive (rd_createCacheRatio d))
         (derive (rd_imageRatio d)) audioInputPrice
         (deriveLanePrice (VStr (rd_audioCompletionRatio d)) (VStr audioInputPrice)),
       Lanes _ (hasValue (VStr (rd_completionRatio d))) (hasValue (VStr (rd_cacheRatio d)))
         (hasValue (VStr (rd_createCacheRatio d))) (hasValue (VStr (rd_imageRatio d)))
         (hasValue (VStr (rd_audioRatio d))) (hasValue (VStr (rd_audioCompletionRatio d))))
  end.
End core.
Arguments Lanes {A}.
Arguments lane_completion {A}.
Arguments lane_cache {A}.
Arguments lane_createCache {A}.
Arguments lane_image {A}.
Arguments lane_audioInput {A}.
Arguments lane_audioOutput {A}.

(** ** The preview *)

Record preview_row := PreviewRow {
  pr_unit : option jsstr;
  pr_key : jsstr;
  pr_label : jsstr;
  pr_value : jsstr;
  pr_multiline : bool;
}.

Record billing_details := BillingDetails {
  bd_audio_input_price : option num;
  bd_audio_output_price : option num;
  bd_audio_text_branches : bool;
  bd_image_count : bool;
  bd_request_rules : list (jsstr * num);
}.

Inductive cache_write_mode : Type := CWnone | CWstandard | CWclaude_ttl | CWopenai_ttl.

Section preview.
Context `{Host} `{Locale}.

Definition tr (key : string) : jsstr := t_ (js key) [].

Fixpoint adjustment_rules (index : nat) (rules : list (jsstr * num)) : list preview_row :=
  match rules with
  | [] => []
  | (condition, multiplier) :: rules' =>
      let label :=
        match formatBillingCondition condition (js "en") with
        | Some text => if truthy_str text then text else condition
        | None => condition
        end in
      PreviewRow (Some (js "none")) (js "adjustment-" ++ str_of_nat index) label
        ([215%N] ++ js " " ++ string_of_number multiplier) false
      :: adjustment_rules (S index) rules'
  end.

Definition pricingAdjustmentRows (details : option billing_details) : list preview_row :=
  match details with
  | None => []
  | Some d =>
      (if bd_audio_text_branches d
       then [PreviewRow (Some (js "none")) (js "audioTextBranches") (tr "Pricing")
               (tr "Audio and text-only requests keep their respective pricing.") false]
       else [])
      ++ (if bd_image_count d
          then [PreviewRow (Some (js "none")) (js "imageCount") (tr "Image count")
                  (tr "Reserve requested images; settle returned images.") false]
          else [])
      ++ adjustment_rules 0 (bd_request_rules d)
  end.

(** [enabled && price ? formatPricingAmount(price, currency) : t('Empty')] *)
Definition lane_value (currency : pricing_currency) (enabled : bool) (price : jsstr) : jsstr :=
  if enabled && truthy_str price then formatPricingAmount (VStr price) currency else tr "Empty".

(** The row of the longer cache lifetime, after that of the shorter one. *)
Definition cache_row (key label : string) (multiplier : num) (currency : pricing_currency)
  (createCache : jsstr) : preview_row :=
  PreviewRow None (js key) (tr label)
    (formatPricingAmount (VNum (n_mul (number_of_string createCache) multiplier)) currency) false.

Definition is_mode (m : cache_write_mode) (mode : option cache_write_mode) : bool :=
  match m, mode with
  | CWnone, Some CWnone | CWstandard, Some CWstandard | CWclaude_ttl, Some CWclaude_ttl
  | CWopenai_ttl, Some CWopenai_ttl => true
  | _, _ => false
  end.

(** The rows shown: image and cache prices that differ from the input price, and cache
    writes where they are charged. *)
Definition shown_row (imageRatio cacheRatio : num) (showCacheWrite : bool) (row : preview_row) : bool :=
  (negb (str_eqb (pr_key row) (js "image")) || negb (n_eqb imageRatio (n_of_Z 1)))
  && (negb (str_eqb (pr_key row) (js "cache")) || negb (n_eqb cacheRatio (n_of_Z 1)))
  && (negb (str_eqb (pr_key row) (js "createCache")) || showCacheWrite).

(** [buildPreviewRows] of per-token pricing. *)
Definition token_preview (values : ratio_data) (promptPrice : jsstr) (lanePrices : lanes jsstr)
  (laneEnabled : lanes bool) (currency : pricing_currency) (cacheWriteMode : option cache_write_mode)
  (billingDetails : option billing_details) : list preview_row :=
  let amount o fallback :=
    match o with Some x => formatPricingAmount (VNum x) currency | None => fallback end in
  let audioInputValue :=
    amount (let! d := billingDetails in bd_audio_input_price d)
      (lane_value currency (lane_audioInput laneEnabled) (lane_audioInput lanePrices)) in
  let audioOutputValue :=
    amount (let! d := billingDetails in bd_audio_output_price d)
      (lane_value currency (lane_audioOutput laneEnabled) (lane_audioOutput lanePrices)) in
  let createCacheLabel :=
    if is_mode CWclaude_ttl cacheWriteMode then tr "Cache Creation (5m)"
    else if is_mode CWopenai_ttl cacheWriteMode then tr "Cache Creation (30m)"
    else tr "Cache write price" in
  let charged := lane_createCache laneEnabled && truthy_str (lane_createCache lanePrices) in
  let row key label value := PreviewRow None (js key) label value false in
  let rows :=
    [row "inputPrice"%string (tr "Input price") (lane_value currency true promptPrice);
     row "completion"%string (tr "Completion price")
       (lane_value currency (lane_completion laneEnabled) (lane_completion lanePrices));
     row "cache"%string (tr "Cache read price")
       (lane_value currency (lane_cache laneEnabled) (lane_cache lanePrices));
     row "createCache"%string createCacheLabel
       (lane_value currency (lane_createCache laneEnabled) (lane_createCache lanePrices))]
    ++ (if is_mode CWopenai_ttl cacheWriteMode && charged
        then [cache_row "createCache12h" "Cache create (12h) price" OPENAI_CACHE_CREATION_12H_MULTIPLIER
                currency (lane_createCache lanePrices)] else [])
    ++ (if is_mode CWclaude_ttl cacheWriteMode && charged
        then [cache_row "createCache1h" "Cache create (1h) price" CLAUDE_CACHE_CREATION_1H_MULTIPLIER
                currency (lane_createCache lanePrices)] else [])
    ++ [row "image"%string (tr "Image input price")
          (lane_value currency (lane_image laneEnabled) (lane_image lanePrices));
        row "audio"%string (tr "Audio input price") audioInputValue;
        row "audioCompletion"%string (tr "Audio output price") audioOutputValue] in
  let showCacheWrite :=
    match cacheWriteMode with
    | Some CWnone => false
    | Some _ => true
    | None => hasValue (VStr (rd_createCacheRatio values))
    end in
  let imageRatio := default (n_of_Z 1) (core_toNumberOrNull (VStr (rd_imageRatio values))) in
  let cacheRatio := default (n_of_Z 1) (core_toNumberOrNull (VStr (rd_cacheRatio values))) in
  List.filter (shown_row imageRatio cacheRatio showCacheWrite) rows
  ++ pricingAdjustmentRows billingDetails.

Definition buildPreviewRows (values : ratio_data) (mode : pricing_mode) (billingExpr requestRuleExpr : jsstr)
  (promptPrice : jsstr) (lanePrices : lanes jsstr) (laneEnabled : lanes bool)
  (currency : pricing_currency) (cacheWriteMode : option cache_write_mode)
  (billingDetails : option billing_details) : list preview_row :=
  match mode with
  | TieredExpr =>
      let effectiveExpr := combineBillingExpr billingExpr requestRuleExpr in
      [PreviewRow None (js "mode") (tr "Pricing") (tr "Expression") false;
       PreviewRow None (js "expr") (tr "Expression" ++ js " (USD)")
         (if truthy_str effectiveExpr then effectiveExpr else tr "Empty") true]
  | PerRequest =>
      let images := match billingDetails with Some d => bd_image_count d | None => false end in
      PreviewRow (if images then Some (js "image") else None) (js "price")
        (if images then tr "Price per image" else tr "Fixed price")
        (if truthy_str (rd_price values) then formatPricingAmount (VStr (rd_price values)) currency
         else tr "Empty") false
      :: pricingAdjustmentRows billingDetails
  | PerToken =>
      token_preview values promptPrice lanePrices laneEnabled currency cacheWriteMode billingDetails
  end.
End preview.
