(* ===== verification/PricingDraft.v ===== *)
(** * Drafts of the pricing settings

    Models [model-pricing/pricing.ts] and [buildPricingChanges] of [model-pricing/api.ts]:
    the pricing of the models is stored in eleven options, each the JSON text of an object
    with one entry per model (one per provider and model for the provider expressions).
    A draft of the editor is written into the options, the values of each model are read
    back from them, and what changed is sent to the server. *)

From Stdlib Require Import SpecFloat.
From S2P Require Import Prelude JsString JsNumber JsRegex JsValue JsJson ExprTypes ExprCompile ExprDisplay BillingExpr TaskExpr Currency PricingModel PricingFormat PricingSnapshots.

(** ** Keys *)

Inductive pricing_key : Type :=
| KModelPrice | KModelRatio | KCompletionRatio | KCacheRatio | KCreateCacheRatio | KImageRatio
| KAudioRatio | KAudioCompletionRatio | KBillingMode | KBillingExpr | KPluginBillingExpr.

#[export] Instance pricing_key_eq_dec : EqDecision pricing_key.
Proof. solve_decision. Defined.

Definition pkey_eqb (a b : pricing_key) : bool := bool_decide (a = b).

Definition PRICING_KEYS : list pricing_key :=
  [KModelPrice; KModelRatio; KCompletionRatio; KCacheRatio; KCreateCacheRatio; KImageRatio;
   KAudioRatio; KAudioCompletionRatio; KBillingMode; KBillingExpr; KPluginBillingExpr].

Definition key_name (k : pricing_key) : jsstr :=
  match k with
  | KModelPrice => js "ModelPrice"
  | KModelRatio => js "ModelRatio"
  | KCompletionRatio => js "CompletionRatio"
  | KCacheRatio => js "CacheRatio"
  | KCreateCacheRatio => js "CreateCacheRatio"
  | KImageRatio => js "ImageRatio"
  | KAudioRatio => js "AudioRatio"
  | KAudioCompletionRatio => js "AudioCompletionRatio"
  | KBillingMode => js "billing_setting.billing_mode"
  | KBillingExpr => js "billing_setting.billing_expr"
  | KPluginBillingExpr => js "billing_setting.plugin_billing_expr"
  end.

(** ** Values of one model *)

(** [number | string] *)
Inductive scalar : Type := SNum (x : num) | SStr (s : jsstr).

Definition scalar_value (s : scalar) : jsval := match s with SNum x => VNum x | SStr t => VStr t end.

(** [a === b] on [number | string | undefined]. *)
Definition scalar_eqb (a b : option scalar) : bool :=
  match a, b with
  | Some x, Some y => strict_eqb (scalar_value x) (scalar_value y)
  | None, None => true
  | _, _ => false
  end.

(** [PricingValues]: the scalar keys that are set, and the provider expressions. *)
Record pricing_values := PricingValues {
  pv_scalars : list (pricing_key * scalar);
  pv_plugins : option (list (jsstr * jsstr));
}.

Definition no_values : pricing_values := PricingValues [] None.
Definition value_at (values : pricing_values) (k : pricing_key) : option scalar :=
  assoc_get pkey_eqb k (pv_scalars values).
Definition with_value (k : pricing_key) (s : scalar) (values : pricing_values) : pricing_values :=
  PricingValues (assoc_set pkey_eqb k s (pv_scalars values)) (pv_plugins values).
Definition without_value (k : pricing_key) (values : pricing_values) : pricing_values :=
  PricingValues (List.filter (fun p => negb (pkey_eqb k p.1)) (pv_scalars values)) (pv_plugins values).
Definition with_plugins (plugins : option (list (jsstr * jsstr))) (values : pricing_values) : pricing_values :=
  PricingValues (pv_scalars values) plugins.

(** [PricingOptions] *)
Abbreviation pricing_options := (list (pricing_key * jsstr)).
Definition option_text (options : pricing_options) (k : pricing_key) : jsstr :=
  default [] (assoc_get pkey_eqb k options).
(** [options\[key\] ?? '{}'] *)
Definition stored_text (options : pricing_options) (k : pricing_key) : jsstr :=
  default (js "{}") (assoc_get pkey_eqb k options).

(** The older name of an option. *)
Definition alias (k : pricing_key) : option jsstr :=
  match k with
  | KBillingMode => Some (js "BillingMode")
  | KBillingExpr => Some (js "BillingExpr")
  | KPluginBillingExpr => Some (js "PluginBillingExpr")
  | _ => None
  end.

Definition pricingOptions (values : list (jsstr * jsval)) : pricing_options :=
  map (fun key =>
         let value := default VUndef (prop_get (key_name key) values) in
         let value :=
           if is_nullish value then
             match alias key with Some name => default VUndef (prop_get name values) | None => value end
           else value in
         (key, match value with VStr s => s | _ => js "{}" end))
    PRICING_KEYS.

(** ** Rows *)

Section rows.
Context `{Host} {Proto : Prototype}.

Definition pricingRows (options : pricing_options) : pricing_result (list snapshot) :=
  buildModelSnapshots
    (SnapshotInput (option_text options KModelPrice) (option_text options KModelRatio) (js "{}")
       (option_text options KCacheRatio) (option_text options KCreateCacheRatio)
       (option_text options KCompletionRatio) (option_text options KImageRatio)
       (option_text options KAudioRatio) (option_text options KAudioCompletionRatio)
       (option_text options KBillingMode) (option_text options KBillingExpr)
       (option_text options KPluginBillingExpr)).

(** The options that hold the values of one model only. *)
Definition plugin_model_key (plugin name : jsstr) : jsstr := plugin ++ js "::" ++ name.

Definition single_option (name : jsstr) (values : pricing_values) (key : pricing_key) : jsstr :=
  match key with
  | KPluginBillingExpr =>
      json_text (VObj (fold_left (fun o e => prop_set (plugin_model_key e.1 name) (VStr e.2) o)
                         (default [] (pv_plugins values)) []))
  | _ =>
      json_text (VObj (match value_at values key with
                       | None => []
                       | Some s => [(name, scalar_value s)]
                       end))
  end.

Definition single_options (name : jsstr) (values : pricing_values) : pricing_options :=
  map (fun key => (key, single_option name values key)) PRICING_KEYS.

Definition row_mode (row : option snapshot) : pricing_mode :=
  match row with
  | Some r =>
      if str_eqb (sn_billingMode r) (js "tiered_expr") then TieredExpr
      else if truthy_str (sn_price r) then PerRequest else PerToken
  | None => PerToken
  end.

Definition pricingRow (name : jsstr) (values : pricing_values) : pricing_result ratio_data :=
  let? rows := pricingRows (single_options name values) in
  let row := List.find (fun entry => str_eqb (sn_name entry) name) rows in
  let text f := match row with Some r => f r | None => [] end in
  Ok (RatioData (pv_plugins values) name (text sn_price) (text sn_ratio)
        (text sn_originalInputPrice) (text sn_originalOutputPrice)
        (text sn_originalCacheReadPrice) (text sn_originalCacheWritePrice)
        (text sn_cacheRatio) (text sn_createCacheRatio) (text sn_completionRatio)
        (text sn_imageRatio) (text sn_audioRatio) (text sn_audioCompletionRatio)
        (Some (row_mode row)) (text sn_billingExpr) (text sn_requestRuleExpr)).
End rows.

(** ** Drafts *)

Definition pricingFieldMap : list ((ratio_data -> jsstr) * pricing_key) :=
  [(rd_price, KModelPrice); (rd_ratio, KModelRatio); (rd_completionRatio, KCompletionRatio);
   (rd_cacheRatio, KCacheRatio); (rd_createCacheRatio, KCreateCacheRatio); (rd_imageRatio, KImageRatio);
   (rd_audioRatio, KAudioRatio); (rd_audioCompletionRatio, KAudioCompletionRatio)].

Definition is_tiered_draft (data : ratio_data) : bool := bool_decide (rd_billingMode data = Some TieredExpr).

(** A field counts in its mode: all of them with an expression, the price alone per
    request, the ratios per token. *)
Definition field_counts (data : ratio_data) (key : pricing_key) : bool :=
  is_tiered_draft data ||
  (if bool_decide (rd_billingMode data = Some PerRequest) then pkey_eqb key KModelPrice
   else negb (pkey_eqb key KModelPrice)).

(** One round of the loop over the fields. *)
Definition draft_field (data : ratio_data) (values : pricing_values)
  (fk : (ratio_data -> jsstr) * pricing_key) : pricing_result pricing_values :=
  let value := fk.1 data in
  if negb (truthy_str value) then Ok values
  else
    let number := number_of_string value in
    if negb (is_finite number) || n_ltb number n_zero then Err InvalidPrice
    else if field_counts data fk.2 then Ok (with_value fk.2 (SNum number) values) else Ok values.

Fixpoint draft_fields (data : ratio_data) (fields : list ((ratio_data -> jsstr) * pricing_key))
  (values : pricing_values) : pricing_result pricing_values :=
  match fields with
  | [] => Ok values
  | fk :: fields' => let? values' := draft_field data values fk in draft_fields data fields' values'
  end.

Definition pricingFromDraft (data : ratio_data) : pricing_result pricing_values :=
  let mode := if is_tiered_draft data then js "tiered_expr" else js "ratio" in
  let? values :=
    draft_fields data pricingFieldMap
      (PricingValues [(KBillingMode, SStr mode)] (rd_pluginBillingExpr data)) in
  Ok (if is_tiered_draft data
      then with_value KBillingExpr (SStr (combineBillingExpr (rd_billingExpr data) (rd_requestRuleExpr data)))
             values
      else values).

(** ** Writing the options *)

(** [JSON.parse(options\[key\] ?? '{}')], declared to be an object. *)
Definition stored_map (options : pricing_options) (key : pricing_key) : pricing_result (list (jsstr * jsval)) :=
  match json_parse (stored_text options key) with
  | None => Err InvalidJson
  | Some (VObj o) => Ok o
  | Some _ => Err Untyped
  end.

(** The entry of one model in the map of a scalar key: removed, and defined anew when
    the draft has a value. *)
Definition write_scalar (value : option scalar) (m : list (jsstr * jsval)) (name : jsstr)
  : list (jsstr * jsval) :=
  let m := prop_delete name m in
  match value with None => m | Some s => prop_set name (scalar_value s) m end.

(** The provider expressions of one model. *)
Definition belongs_to (name variant : jsstr) : bool :=
  match splitPluginBillingExprKey variant with Some (_, model) => str_eqb model name | None => false end.

Definition write_plugins (plugins : list (jsstr * jsstr)) (m : list (jsstr * jsval)) (name : jsstr)
  : list (jsstr * jsval) :=
  let m := fold_left (fun m variant => if belongs_to name variant then prop_delete variant m else m)
             (map fst m) m in
  fold_left (fun m e => prop_set (plugin_model_key e.1 name) (VStr e.2) m) plugins m.

Definition applied_option (options : pricing_options) (values : pricing_values) (names : list jsstr)
  (key : pricing_key) : pricing_result (pricing_key * jsstr) :=
  let? m := stored_map options key in
  Ok (key, json_text (VObj
    match key with
    | KPluginBillingExpr =>
        match pv_plugins values with
        | None => m
        | Some plugins => fold_left (write_plugins plugins) names m
        end
    | _ => fold_left (write_scalar (value_at values key)) names m
    end)).

Definition applyPricingValues (options : pricing_options) (values : pricing_values) (names : list jsstr)
  : pricing_result pricing_options :=
  collect_results (applied_option options values names) PRICING_KEYS.

Definition applyPricingDraft (options : pricing_options) (data : ratio_data) (names : list jsstr)
  : pricing_result pricing_options :=
  let? values := pricingFromDraft data in
  let alone := match names with [name] => str_eqb name (rd_name data) | _ => false end in
  if alone then applyPricingValues options values names
  else
    let? next := applyPricingValues options (with_plugins None values) names in
    if str_mem (rd_name data) names then applyPricingValues next values [rd_name data] else Ok next.

(** ** Reading the options *)

Abbreviation models_map := (list (jsstr * pricing_values)).

Definition model_values (models : models_map) (name : jsstr) : pricing_values :=
  default no_values (assoc_get str_eqb name models).

Definition read_entry (key : pricing_key) (models : models_map) (entry : jsstr * jsval)
  : pricing_result models_map :=
  let '(name, value) := entry in
  let? s := match value with VNum x => Ok (SNum x) | VStr t => Ok (SStr t) | _ => Err InvalidValue end in
  match key with
  | KPluginBillingExpr =>
      match splitPluginBillingExprKey name, s with
      | Some (plugin, modelName), SStr text =>
          let model := model_values models modelName in
          Ok (assoc_set str_eqb modelName
                (with_plugins (Some (prop_set plugin text (default [] (pv_plugins model)))) model) models)
      | _, _ => Err InvalidValue
      end
  | _ => Ok (assoc_set str_eqb name (with_value key s (model_values models name)) models)
  end.

Fixpoint read_entries (key : pricing_key) (entries : list (jsstr * jsval)) (models : models_map)
  : pricing_result models_map :=
  match entries with
  | [] => Ok models
  | entry :: entries' => let? models' := read_entry key models entry in read_entries key entries' models'
  end.

Definition read_option (options : pricing_options) (models : models_map) (key : pricing_key)
  : pricing_result models_map :=
  match json_parse (stored_text options key) with
  | None => Err InvalidJson
  | Some (VObj o) => read_entries key o models
  | Some _ => Err NotAnObject
  end.

Fixpoint read_options (options : pricing_options) (keys : list pricing_key) (models : models_map)
  : pricing_result models_map :=
  match keys with
  | [] => Ok models
  | key :: keys' => let? models' := read_option options models key in read_options options keys' models'
  end.

Definition pricingValuesByModel (options : pricing_options) : pricing_result models_map :=
  read_options options PRICING_KEYS [].

(** ** Prices taken over from upstream *)

(** [toUpperCase] of one unit outside ASCII. *)
Class UpperCase := { upper_unicode : N -> jsstr }.

Section sync.
Context `{Host} {Proto : Prototype} {Upper : UpperCase}.

Definition upper_unit (c : N) : jsstr :=
  if is_lower c then [(c - 32)%N] else if is_ascii c then [c] else upper_unicode c.

(** [part.charAt(0).toUpperCase() + part.slice(1)] *)
Definition capitalize (part : jsstr) : jsstr :=
  match part with [] => [] | c :: rest => upper_unit c ++ rest end.

(** [field.split('_')] *)
Fixpoint split_underscore (s : jsstr) : list jsstr :=
  match s with
  | [] => [[]]
  | c :: s' =>
      if N.eqb c (ch "_") then [] :: split_underscore s'
      else match split_underscore s' with p :: ps => (c :: p) :: ps | [] => [[c]] end
  end.

Definition sync_key (field : jsstr) : option pricing_key :=
  let name := concat (map capitalize (split_underscore field)) in
  List.find (fun key => str_eqb (key_name key) name && negb (pkey_eqb key KPluginBillingExpr)) PRICING_KEYS.

Abbreviation sync_fields := (list (jsstr * scalar)).

(** [typeof fields.billing_expr === 'string' && fields.billing_expr.trim() !== ''] *)
Definition sync_expression (fields : sync_fields) : option jsstr :=
  match assoc_get str_eqb (js "billing_expr") fields with
  | Some (SStr s) => if truthy_str (trim s) then Some s else None
  | _ => None
  end.

Definition sync_field (fixed : bool) (next : pricing_values) (field : jsstr * scalar) : pricing_values :=
  if str_eqb field.1 (js "billing_mode") || str_eqb field.1 (js "billing_expr") then next
  else if fixed && negb (str_eqb field.1 (js "model_price")) then next
  else match sync_key field.1 with Some key => with_value key field.2 next | None => next end.

Definition sync_values (fields : sync_fields) : pricing_values :=
  match sync_expression fields with
  | Some expr => PricingValues [(KBillingMode, SStr (js "tiered_expr")); (KBillingExpr, SStr expr)] None
  | None =>
      fold_left (sync_field (assoc_mem str_eqb (js "model_price") fields)) fields
        (PricingValues [(KBillingMode, SStr (js "ratio"))] None)
  end.

(** The body of the loop over the selections. *)
Definition sync_selection (options : pricing_options) (selection : jsstr * sync_fields)
  : pricing_result pricing_options :=
  let '(name, fields) := selection in
  let? row := pricingRow name (sync_values fields) in
  let? validated := pricingFromDraft row in
  let validated :=
    match sync_expression fields with
    | Some expr => with_value KBillingExpr (SStr expr) validated
    | None => validated
    end in
  applyPricingValues options validated [name].

Fixpoint applyPriceSyncSelections (options : pricing_options) (selections : list (jsstr * sync_fields))
  : pricing_result pricing_options :=
  match selections with
  | [] => Ok options
  | selection :: selections' =>
      let? result := sync_selection options selection in
      applyPriceSyncSelections result selections'
  end.
End sync.

(** ** Changes sent to the server *)

Record pricing_entry := PricingEntry {
  pe_model_name : jsstr;
  pe_version : jsstr;
  pe_configured : pricing_values;
}.

Record pricing_change := PricingChange {
  ch_model_name : jsstr;
  ch_expected_version : jsstr;
  ch_pricing : pricing_values;
}.

Definition key_dirty (oldValues newValues : pricing_values) (key : pricing_key) : bool :=
  match key with
  | KPluginBillingExpr =>
      negb (pluginExpressionsEqual (default [] (pv_plugins oldValues)) (default [] (pv_plugins newValues)))
  | _ => negb (scalar_eqb (value_at oldValues key) (value_at newValues key))
  end.

(** The dirty key taken from the new values. *)
Definition take_dirty (newValues : pricing_values) (pricing : pricing_values) (key : pricing_key) : pricing_values :=
  match key with
  | KPluginBillingExpr => with_plugins (pv_plugins newValues) pricing
  | _ =>
      match value_at newValues key with
      | Some s => with_value key s (without_value key pricing)
      | None => without_value key pricing
      end
  end.

Definition is_tiered_value (values : pricing_values) : bool :=
  match value_at values KBillingMode with Some (SStr s) => str_eqb s (js "tiered_expr") | _ => false end.

(** A property that is undefined is not sent. *)
Definition changed_pricing (configured : option pricing_values) (newValues : pricing_values)
  (dirty : list pricing_key) : pricing_values :=
  let pricing := fold_left (take_dirty newValues) dirty (default no_values configured) in
  if is_tiered_value newValues then
    let pricing := with_value KBillingMode (SStr (js "tiered_expr")) pricing in
    match value_at newValues KBillingExpr with
    | Some s => with_value KBillingExpr s pricing
    | None => without_value KBillingExpr pricing
    end
  else pricing.

Definition model_change (entries : list (jsstr * pricing_entry)) (empty_version : jsstr)
  (previous next : models_map) (name : jsstr) : list pricing_change :=
  let oldValues := model_values previous name in
  let newValues := model_values next name in
  match List.filter (key_dirty oldValues newValues) PRICING_KEYS with
  | [] => []
  | dirty =>
      let entry := assoc_get str_eqb name entries in
      [PricingChange name (default empty_version (pe_version <$> entry))
         (changed_pricing (pe_configured <$> entry) newValues dirty)]
  end.

Definition buildPricingChanges (entries : list pricing_entry) (empty_version : jsstr)
  (before after : pricing_options) : pricing_result (list pricing_change) :=
  let? previous := pricingValuesByModel before in
  let? next := pricingValuesByModel after in
  let entries := fold_left (fun m e => assoc_set str_eqb (pe_model_name e) e m) entries [] in
  Ok (flat_map (model_change entries empty_version previous next)
        (set_of (map fst previous ++ map fst next))).

(** ** A model as the catalogue shows it *)

Section display.
Context `{Host} {Proto : Prototype}.

Definition scalar_number (s : option scalar) : num :=
  match s with Some v => number_of_value (scalar_value v) | None => S754_nan end.

(** [v === undefined || Number(v) === 1 ? undefined : Number(v)] *)
Definition ratio_unless_one (s : option scalar) : option num :=
  let! v := s in
  let x := number_of_value (scalar_value v) in
  if n_eqb x (n_of_Z 1) then None else Some x.

Definition scalar_string (s : option scalar) : option jsstr :=
  match s with Some (SStr t) => Some t | _ => None end.

Definition writes_cache (mode : option cache_write_mode) : bool :=
  match mode with Some CWstandard | Some CWclaude_ttl | Some CWopenai_ttl => true | _ => false end.

Definition modelPricingDisplay (name : jsstr) (effective : pricing_values) (schema : option usage_schema)
  (configured : option pricing_values) (cacheWriteMode : option cache_write_mode)
  (variants : list pricing_variant) : pricing_result pricing_model :=
  let number k := (fun v => number_of_value (scalar_value v)) <$> value_at effective k in
  let? row := pricingRow name effective in
  Ok (PricingModel [] name None None
        (if match value_at effective KModelPrice with Some _ => true | None => false end
            && negb (is_tiered_value effective) then n_of_Z 1 else n_of_Z 0)
        (scalar_number (value_at effective KModelRatio)) None
        (scalar_number (value_at effective KCompletionRatio))
        (number KModelPrice)
        (ratio_unless_one (value_at effective KCacheRatio))
        (if writes_cache cacheWriteMode
            || match configured with
               | Some c => match value_at c KCreateCacheRatio with Some _ => true | None => false end
               | None => false
               end
         then number KCreateCacheRatio else None)
        (ratio_unless_one (value_at effective KImageRatio))
        (number KAudioRatio) (number KAudioCompletionRatio)
        [] None None []
        (scalar_string (value_at effective KBillingMode)) (scalar_string (value_at effective KBillingExpr))
        (if usesTaskModelPricing (Some row) schema variants then schema else None) None).
End display.
