(* ===== verification/PricingDraftSpec.v ===== *)
(** * The pricing options are edited exactly

    What [PricingDraft] writes is read back by it: a draft changes the values of the models
    it names and of no other, the provider expressions of other models are kept, and the
    changes sent to the server are those of the models whose values differ. *)

From Stdlib Require Import SpecFloat.
From S2P Require Import Prelude JsString JsNumber JsPrintSpec JsRegex JsValue JsJson ExprTypes ExprCompile ExprDisplay BillingExpr TaskExpr Currency PricingModel PricingFormat PricingSnapshots PricingDraft.

Lemma pkey_eqb_eq a b : pkey_eqb a b = true <-> a = b.
Proof. apply bool_decide_eq_true. Qed.

Lemma pkey_eqb_refl a : pkey_eqb a a = true.
Proof. by apply pkey_eqb_eq. Qed.

Lemma pkey_eqb_neq a b : a <> b -> pkey_eqb a b = false.
Proof. intros. by apply bool_decide_eq_false. Qed.

Lemma all_keys k : In k PRICING_KEYS.
Proof. destruct k; simpl; tauto. Qed.

(** ** Results of lists *)

Lemma collect_results_Forall2 {E A B} (f : A -> result E B) l ys :
  collect_results f l = Ok ys <-> Forall2 (fun x y => f x = Ok y) l ys.
Proof.
  revert ys. induction l as [|x l IH]; intros ys; cbn [collect_results].
  - split; [intros [= <-]; constructor|]. by inversion 1.
  - destruct (f x) as [y|] eqn:Hx.
    + destruct (collect_results f l) as [zs|] eqn:Hl.
      * split; [intros [= <-]; constructor; [done|by apply IH]|].
        inversion 1 as [|? y' ? ys' H1 H2]; subst. apply IH in H2. congruence.
      * split; [done|]. inversion 1 as [|? y' ? ys' H1 H2]; subst. apply IH in H2. congruence.
    + split; [done|]. inversion 1; subst. congruence.
Qed.

Lemma forallb_map {A B} (g : A -> B) (p : B -> bool) l : forallb p (map g l) = forallb (fun x => p (g x)) l.
Proof. induction l as [|x l IH]; simpl; [done|]. by rewrite IH. Qed.

(** ** Values that JSON carries *)

(** Minus zero is printed as zero. *)
Definition settle_num (x : num) : num := if is_neg_zero x then n_zero else x.
Definition settle (s : scalar) : scalar := match s with SNum x => SNum (settle_num x) | SStr t => SStr t end.
Definition settle_value (v : jsval) : jsval := match v with VNum x => VNum (settle_num x) | _ => v end.
Definition settle_entries (o : list (jsstr * jsval)) : list (jsstr * jsval) :=
  map (fun p => (p.1, settle_value p.2)) o.

Lemma settle_text v : json_text (settle_value v) = json_text v.
Proof. destruct v as [| | |x| | |]; try done. by destruct x as [[]| | |]. Qed.

Lemma settle_entries_text o : json_text (VObj (settle_entries o)) = json_text (VObj o).
Proof.
  cbn [json_text]. do 3 f_equal. unfold settle_entries. induction o as [|[k v] o IH]; [done|].
  cbn [map flat_map fst snd]. rewrite IH. f_equal.
  destruct v as [| | |x| | |]; try done. by destruct x as [[]| | |].
Qed.

Lemma settle_entries_keys o : map fst (settle_entries o) = map fst o.
Proof. unfold settle_entries. rewrite map_map. done. Qed.

(** A number of a draft. *)
Definition scalar_ok (s : scalar) : bool :=
  match s with SNum x => valid_num x && is_finite x | SStr _ => true end.

Definition values_ok (values : pricing_values) : Prop :=
  forall k s, value_at values k = Some s -> scalar_ok s = true.

(** A stored value: a number or a text, and a text for the provider expressions, whose
    keys name the provider and the model. *)
Definition entry_ok (key : pricing_key) (entry : jsstr * jsval) : bool :=
  match key, entry.2 with
  | KPluginBillingExpr, VStr _ => match splitPluginBillingExprKey entry.1 with Some _ => true | None => false end
  | KPluginBillingExpr, _ => false
  | _, VNum x => valid_num x && is_finite x
  | _, VStr _ => true
  | _, _ => false
  end.

Definition map_ok (key : pricing_key) (o : list (jsstr * jsval)) : bool :=
  object_ok o && forallb (entry_ok key) o.

(** What an option holds. *)
Definition stored (options : pricing_options) (key : pricing_key) : option (list (jsstr * jsval)) :=
  match json_parse (stored_text options key) with Some (VObj o) => Some o | _ => None end.

(** Every option is an object of such values. *)
Definition options_ok (options : pricing_options) : Prop :=
  forall key, exists o, stored options key = Some o /\ map_ok key o = true.

Lemma map_ok_json key o : map_ok key o = true -> json_ok (VObj (settle_entries o)) = true.
Proof.
  intros [Ho Hf]%andb_true_iff. cbn [json_ok]. apply andb_true_iff. split.
  { unfold object_ok. by rewrite settle_entries_keys. }
  unfold settle_entries. rewrite forallb_map. rewrite forallb_forall in Hf |- *.
  intros [k v] Hin. specialize (Hf _ Hin). cbn [snd]. unfold entry_ok in Hf. cbn [fst snd] in Hf.
  destruct v as [| | |x|s| |]; try (destruct key; done). cbn [settle_value json_ok].
  assert (Hx : valid_num x && is_finite x = true) by (destruct key; done).
  unfold settle_num. destruct (is_neg_zero x) eqn:Hz; [done|]. by rewrite Hx, Hz.
Qed.

Lemma settle_map_ok key o : map_ok key o = true -> map_ok key (settle_entries o) = true.
Proof.
  intros [Ho Hf]%andb_true_iff. apply andb_true_iff. split; [unfold object_ok; by rewrite settle_entries_keys|].
  unfold settle_entries. rewrite forallb_map. rewrite forallb_forall in Hf |- *.
  intros [k v] Hin. specialize (Hf _ Hin). unfold entry_ok in *. cbn [fst snd] in *.
  destruct v as [| | |x|s| |]; try done. cbn [settle_value]. unfold settle_num.
  destruct (is_neg_zero x); [by destruct key|done].
Qed.

(** The text written for a map is read as the settled map. *)
Lemma written_map key o : map_ok key o = true -> json_parse (json_text (VObj o)) = Some (VObj (settle_entries o)).
Proof. intros Ho. rewrite <- settle_entries_text. apply json_round_trip. by eapply map_ok_json. Qed.

(** ** Changing a map *)

Lemma map_ok_delete key k o : map_ok key o = true -> map_ok key (prop_delete k o) = true.
Proof.
  intros [Ho Hf]%andb_true_iff. apply andb_true_iff. split; [by apply object_ok_delete|].
  rewrite forallb_forall in Hf |- *. intros x [Hx _]%filter_In. by apply Hf.
Qed.

Lemma map_ok_set key k v o : entry_ok key (k, v) = true -> map_ok key o = true -> map_ok key (prop_set k v o) = true.
Proof.
  intros Hv [Ho Hf]%andb_true_iff. apply andb_true_iff. split; [by apply object_ok_set|]. clear Ho.
  induction o as [|[k' v'] o IH]; cbn [prop_set forallb]; [by rewrite Hv|].
  cbn [forallb] in Hf. apply andb_true_iff in Hf as [Hf1 Hf2].
  destruct (str_eqb k k') eqn:E; [apply str_eqb_eq in E as ->|destruct (key_before k k')]; cbn [forallb];
    repeat (apply andb_true_iff; split); auto.
Qed.

Definition is_plugin_key_name (key : pricing_key) : bool := pkey_eqb key KPluginBillingExpr.

Lemma scalar_entry key name s : key <> KPluginBillingExpr -> scalar_ok s = true ->
  entry_ok key (name, scalar_value s) = true.
Proof. intros Hk Hs. destruct key, s; done. Qed.

Lemma write_scalar_ok key value o name : key <> KPluginBillingExpr ->
  (forall s, value = Some s -> scalar_ok s = true) ->
  map_ok key o = true -> map_ok key (write_scalar value o name) = true.
Proof.
  intros Hk Hs Ho. unfold write_scalar. destruct value as [s|]; [apply map_ok_set|]; try by apply map_ok_delete.
  by apply scalar_entry; auto.
Qed.

Lemma write_scalar_get value o name k :
  assoc_get str_eqb k (write_scalar value o name) =
  if str_eqb k name then scalar_value <$> value else assoc_get str_eqb k o.
Proof.
  unfold write_scalar. destruct value as [s|]; rewrite ?prop_get_set, prop_get_delete; by destruct (str_eqb k name).
Qed.

Lemma write_scalars_ok key value names o : key <> KPluginBillingExpr ->
  (forall s, value = Some s -> scalar_ok s = true) ->
  map_ok key o = true -> map_ok key (fold_left (write_scalar value) names o) = true.
Proof. intros Hk Hs. revert o. induction names as [|n ns IH]; intros o Ho; [done|]. by apply IH, write_scalar_ok. Qed.

Lemma write_scalars_get value names k : forall o,
  assoc_get str_eqb k (fold_left (write_scalar value) names o) =
  if str_mem k names then scalar_value <$> value else assoc_get str_eqb k o.
Proof.
  unfold str_mem. induction names as [|n ns IH]; intros o; cbn [fold_left existsb]; [done|].
  rewrite IH, write_scalar_get. by destruct (existsb (str_eqb k) ns), (str_eqb k n).
Qed.

(** ** Provider keys *)

Lemma plugin_char_not_colon c : is_plugin_char c = true -> N.eqb c (ch ":") = false.
Proof. intros H. apply N.eqb_neq. intros ->. done. Qed.

Lemma find_separator_plugin p n : forallb is_plugin_char p = true ->
  find_separator (p ++ js "::" ++ n) = Some (length p).
Proof.
  induction p as [|c p IH]; intros Hp; [done|]. cbn [forallb] in Hp. apply andb_true_iff in Hp as [Hc Hp].
  cbn [app find_separator length]. specialize (IH Hp).
  destruct (p ++ js "::" ++ n) as [|d r] eqn:E; [by destruct p|].
  rewrite (plugin_char_not_colon c Hc). cbn [andb]. by rewrite IH.
Qed.

Lemma plugin_key_chars p : is_plugin_key p = true -> forallb is_plugin_char p = true /\ p <> [].
Proof.
  destruct p as [|c p]; [done|]. cbn [is_plugin_key forallb]. intros [[Hc Hp]%andb_true_iff _]%andb_true_iff.
  rewrite Hp. split; [|done]. unfold is_plugin_char. by rewrite Hc.
Qed.

(** The key of a provider and a model splits into them. *)
Lemma split_plugin_key p n : is_plugin_key p = true -> truthy_str (trim n) = true ->
  splitPluginBillingExprKey (plugin_model_key p n) = Some (p, n).
Proof.
  intros Hp Hn. destruct (plugin_key_chars p Hp) as [Hc Hne]. unfold splitPluginBillingExprKey, plugin_model_key.
  rewrite find_separator_plugin by done. destruct (length p) as [|k] eqn:Hl; [by destruct p|].
  rewrite <- Hl. replace (drop (length p + 2) (p ++ js "::" ++ n)) with n.
  - rewrite take_app_length. rewrite Hp, Hn. done.
  - rewrite <- drop_drop, drop_app_length. done.
Qed.

Lemma find_separator_some k i : find_separator k = Some i ->
  take i k ++ js "::" ++ drop (i + 2) k = k.
Proof.
  revert i. induction k as [|c k IH]; intros i; cbn [find_separator]; [done|].
  destruct k as [|d k]; [done|]. destruct (N.eqb c (ch ":") && N.eqb d (ch ":"))%bool eqn:E.
  - intros [= <-]. apply andb_true_iff in E as [->%N.eqb_eq ->%N.eqb_eq]. done.
  - destruct (find_separator (d :: k)) as [j|] eqn:Hj; [|done]. intros [= <-].
    specialize (IH j eq_refl). cbn [take drop app Nat.add]. f_equal. exact IH.
Qed.

Lemma split_plugin_inv k p n : splitPluginBillingExprKey k = Some (p, n) ->
  k = plugin_model_key p n /\ is_plugin_key p = true /\ truthy_str (trim n) = true.
Proof.
  unfold splitPluginBillingExprKey. destruct (find_separator k) as [[|i]|] eqn:Hf; try done.
  destruct (negb _ || negb _) eqn:E; [done|]. intros [= <- <-]. bprop.
  split; [|done]. symmetry. by apply find_separator_some.
Qed.

Lemma belongs_plugin p n m : is_plugin_key p = true -> truthy_str (trim n) = true ->
  belongs_to m (plugin_model_key p n) = str_eqb n m.
Proof. intros Hp Hn. unfold belongs_to. by rewrite split_plugin_key. Qed.

Lemma plugin_model_key_inj p q n m :
  is_plugin_key p = true -> is_plugin_key q = true -> truthy_str (trim n) = true ->
  plugin_model_key p n = plugin_model_key q m -> p = q /\ n = m.
Proof.
  intros Hp Hq Hn He. pose proof (split_plugin_key p n Hp Hn) as Hs. rewrite He in Hs.
  apply split_plugin_inv in Hs as (He2 & _ & _). unfold plugin_model_key in He2.
  destruct (plugin_key_chars q Hq) as [Hqc _]. destruct (plugin_key_chars p Hp) as [Hpc _].
  pose proof (find_separator_plugin q m Hqc) as F1. pose proof (find_separator_plugin p n Hpc) as F2.
  rewrite He2, F2 in F1. injection F1 as Hl. apply app_inj_1 in He2 as [-> He2]; [|done].
  split; [done|]. by apply app_inj_1 in He2 as [_ ->].
Qed.

Lemma clear_plugins_get name k ks : forall m : list (jsstr * jsval),
  assoc_get str_eqb k
    (fold_left (fun m variant => if belongs_to name variant then prop_delete variant m else m) ks m) =
  if (str_mem k ks && belongs_to name k)%bool then None else assoc_get str_eqb k m.
Proof.
  unfold str_mem. induction ks as [|v ks IH]; intros m; cbn [fold_left existsb]; [done|]. rewrite IH.
  destruct (existsb (str_eqb k) ks && belongs_to name k)%bool eqn:E.
  { apply andb_true_iff in E as [E1 E2]. by rewrite E1, E2, orb_true_r. }
  destruct (str_eqb k v) eqn:Ek; cbn [orb].
  - apply str_eqb_eq in Ek as ->. destruct (belongs_to name v); [|done].
    by rewrite prop_get_delete, str_eqb_refl.
  - rewrite E. destruct (belongs_to name v); [|done]. by rewrite prop_get_delete, Ek.
Qed.

Lemma assoc_get_mem {V} k (o : list (jsstr * V)) v : assoc_get str_eqb k o = Some v -> In (k, v) o.
Proof.
  induction o as [|[k' v'] o IH]; cbn [assoc_get]; [done|]. destruct (str_eqb k k') eqn:E.
  - intros [= ->]. apply str_eqb_eq in E as ->. by left.
  - intros H. right. by apply IH.
Qed.

(** The providers a draft can hold. *)
Definition plugins_ok (plugins : list (jsstr * jsstr)) : bool :=
  object_ok plugins && forallb (fun e => is_plugin_key e.1) plugins.

Lemma set_plugins_get p n name plugins : is_plugin_key p = true -> truthy_str (trim n) = true ->
  plugins_ok plugins = true -> forall m,
  assoc_get str_eqb (plugin_model_key p n)
    (fold_left (fun m e => prop_set (plugin_model_key e.1 name) (VStr e.2) m) plugins m) =
  match (if str_eqb n name then assoc_get str_eqb p plugins else None) with
  | Some e => Some (VStr e)
  | None => assoc_get str_eqb (plugin_model_key p n) m
  end.
Proof.
  intros Hp Hn Hok. unfold plugins_ok in Hok. apply andb_true_iff in Hok as [Ho Hk]. unfold object_ok in Ho.
  induction plugins as [|[q e] plugins IH]; intros m; cbn [fold_left assoc_get fst snd].
  { by destruct (str_eqb n name). }
  cbn [map enumerated forallb fst] in Ho, Hk. apply andb_true_iff in Ho as [Hnew Ho], Hk as [Hq Hk].
  rewrite (IH Ho Hk), prop_get_set. destruct (str_eqb n name) eqn:En.
  - apply str_eqb_eq in En as ->. destruct (str_eqb p q) eqn:Epq.
    + apply str_eqb_eq in Epq as ->. rewrite str_eqb_refl.
      rewrite assoc_get_none_keys; [done|]. unfold str_mem. apply existsb_false_iff.
      intros k Hin. rewrite forallb_forall in Hnew. specialize (Hnew k Hin). by bprop.
    + destruct (str_eqb (plugin_model_key p name) _) eqn:E; [|done]. apply str_eqb_eq in E.
      apply plugin_model_key_inj in E as [-> _]; [|done..]. by rewrite str_eqb_refl in Epq.
  - destruct (str_eqb (plugin_model_key p n) _) eqn:E; [|done]. apply str_eqb_eq in E.
    apply plugin_model_key_inj in E as [_ ->]; [|done..]. by rewrite str_eqb_refl in En.
Qed.

Lemma write_plugins_get p n name plugins m : is_plugin_key p = true -> truthy_str (trim n) = true ->
  plugins_ok plugins = true ->
  assoc_get str_eqb (plugin_model_key p n) (write_plugins plugins m name) =
  if str_eqb n name then VStr <$> assoc_get str_eqb p plugins
  else assoc_get str_eqb (plugin_model_key p n) m.
Proof.
  intros Hp Hn Hok. unfold write_plugins. rewrite set_plugins_get by done.
  rewrite clear_plugins_get, belongs_plugin by done. destruct (str_eqb n name) eqn:En; cbn [andb].
  - destruct (assoc_get str_eqb p plugins); [done|]. rewrite andb_true_r.
    destruct (str_mem _ _) eqn:Em; [done|]. by rewrite assoc_get_none_keys.
  - by rewrite andb_false_r.
Qed.

(** ** What the options say of a model *)

Definition scalar_of (v : jsval) : option scalar :=
  match v with VNum x => Some (SNum x) | VStr s => Some (SStr s) | _ => None end.

(** The value of a scalar key; minus zero is not told from zero. *)
Definition option_value (options : pricing_options) (key : pricing_key) (name : jsstr) : option scalar :=
  let! o := stored options key in
  let! v := assoc_get str_eqb name o in
  settle <$> scalar_of v.

(** The expression of a provider. *)
Definition plugin_value (options : pricing_options) (plugin name : jsstr) : option jsstr :=
  let! o := stored options KPluginBillingExpr in
  match assoc_get str_eqb (plugin_model_key plugin name) o with Some (VStr e) => Some e | _ => None end.

(** ** Writing *)

Lemma by_key {A} (f : pricing_key -> A) key :
  assoc_get pkey_eqb key (map (fun k => (k, f k)) PRICING_KEYS) = Some (f key).
Proof. by destruct key. Qed.

(** What a draft may hold, for the models it is written to. *)
Definition draft_ok (values : pricing_values) (names : list jsstr) : Prop :=
  values_ok values /\
  match pv_plugins values with
  | None => True
  | Some plugins => plugins_ok plugins = true /\ forallb (fun n => truthy_str (trim n)) names = true
  end.

Lemma write_plugins_ok plugins o name : plugins_ok plugins = true -> truthy_str (trim name) = true ->
  map_ok KPluginBillingExpr o = true -> map_ok KPluginBillingExpr (write_plugins plugins o name) = true.
Proof.
  intros [_ Hp]%andb_true_iff Hn Ho. unfold write_plugins.
  assert (Hc : forall ks m, map_ok KPluginBillingExpr m = true ->
    map_ok KPluginBillingExpr
      (fold_left (fun m v => if belongs_to name v then prop_delete v m else m) ks m) = true).
  { induction ks as [|k ks IH]; intros m Hm; [done|]. cbn [fold_left]. apply IH.
    destruct (belongs_to name k); [by apply map_ok_delete|done]. }
  specialize (Hc (map fst o) o Ho). revert Hc. generalize (fold_left
    (fun m v => if belongs_to name v then prop_delete v m else m) (map fst o) o).
  induction plugins as [|[q e] plugins IH]; intros m Hm; [done|]. cbn [fold_left forallb fst snd] in *.
  apply andb_true_iff in Hp as [Hq Hp]. apply IH; [done|]. apply map_ok_set; [|done].
  unfold entry_ok. cbn [fst snd]. by rewrite split_plugin_key.
Qed.

(** The map an option holds after the draft. *)
Definition new_map (values : pricing_values) (names : list jsstr) (key : pricing_key)
  (m : list (jsstr * jsval)) : list (jsstr * jsval) :=
  match key with
  | KPluginBillingExpr =>
      match pv_plugins values with
      | None => m
      | Some plugins => fold_left (write_plugins plugins) names m
      end
  | _ => fold_left (write_scalar (value_at values key)) names m
  end.

Lemma new_map_ok values names key m : draft_ok values names -> map_ok key m = true ->
  map_ok key (new_map values names key m) = true.
Proof.
  intros [Hv Hp] Hm. destruct (decide (key = KPluginBillingExpr)) as [->|Hk].
  - cbn [new_map]. destruct (pv_plugins values) as [plugins|]; [|done]. destruct Hp as [Hp Hn].
    revert m Hm Hn. induction names as [|n ns IH]; intros m Hm Hn; [done|]. cbn [fold_left forallb] in *.
    apply andb_true_iff in Hn as [Hn1 Hn]. apply IH; [by apply write_plugins_ok|done].
  - replace (new_map values names key m) with (fold_left (write_scalar (value_at values key)) names m)
      by (by destruct key). apply write_scalars_ok; [done| |done]. intros s Hs. by eapply Hv.
Qed.

(** Writing the values of a draft into the options. *)
Record written (options options' : pricing_options) (values : pricing_values) (names : list jsstr) : Prop := {
  w_ok : options_ok options';
  w_scalars : forall key name, key <> KPluginBillingExpr ->
    option_value options' key name =
    if str_mem name names then settle <$> value_at values key else option_value options key name;
  w_plugins : forall p n, is_plugin_key p = true -> truthy_str (trim n) = true ->
    plugin_value options' p n =
    match pv_plugins values with
    | Some plugins => if str_mem n names then assoc_get str_eqb p plugins else plugin_value options p n
    | None => plugin_value options p n
    end;
}.

Lemma settle_scalar_of v : scalar_of (settle_value v) = settle <$> scalar_of v.
Proof. by destruct v. Qed.

Lemma settle_idem s : settle (settle s) = settle s.
Proof. destruct s as [x|]; [|done]. cbn. by destruct x as [[]| | |]. Qed.

Lemma settle_fmap_idem (o : option scalar) : settle <$> (settle <$> o) = settle <$> o.
Proof. destruct o; [|done]. cbn. by rewrite settle_idem. Qed.

Lemma scalar_of_value s : scalar_of (scalar_value s) = Some s.
Proof. by destruct s. Qed.

Lemma write_plugins_all p n plugins names : is_plugin_key p = true -> truthy_str (trim n) = true ->
  plugins_ok plugins = true -> forall m,
  assoc_get str_eqb (plugin_model_key p n) (fold_left (write_plugins plugins) names m) =
  if str_mem n names then VStr <$> assoc_get str_eqb p plugins
  else assoc_get str_eqb (plugin_model_key p n) m.
Proof.
  intros Hp Hn Hok. unfold str_mem. induction names as [|k ks IH]; intros m; cbn [fold_left existsb]; [done|].
  rewrite IH, write_plugins_get by done. by destruct (existsb (str_eqb n) ks), (str_eqb n k).
Qed.

Lemma applied options values names : options_ok options -> draft_ok values names ->
  exists options', applyPricingValues options values names = Ok options' /\ written options options' values names.
Proof.
  intros Hok Hd.
  set (m key := default [] (stored options key)).
  assert (Hst : forall key, stored options key = Some (m key) /\ map_ok key (m key) = true).
  { intros key. destruct (Hok key) as (o & Ho & Hm). unfold m. rewrite Ho. done. }
  set (text key := json_text (VObj (new_map values names key (m key)))).
  assert (Hap : applyPricingValues options values names = Ok (map (fun k => (k, text k)) PRICING_KEYS)).
  { unfold applyPricingValues. apply collect_results_Forall2. induction PRICING_KEYS as [|key keys IH]; constructor; [|done].
    unfold applied_option, stored_map. destruct (Hst key) as [Hs _]. unfold stored in Hs.
    destruct (json_parse (stored_text options key)) as [[| | | | | |o]|]; try done. injection Hs as ->. done. }
  set (options' := map (fun k => (k, text k)) PRICING_KEYS) in *. exists options'. split; [done|].
  assert (Hst' : forall key, stored options' key = Some (settle_entries (new_map values names key (m key)))).
  { intros key. unfold stored, stored_text, options'. rewrite by_key. cbn [from_option id]. unfold text.
    rewrite (written_map key); [done|]. apply new_map_ok; [done|apply Hst]. }
  split.
  - intros key. eexists. split; [apply Hst'|]. apply settle_map_ok, new_map_ok; [done|apply Hst].
  - intros key name Hk. unfold option_value. rewrite Hst', (proj1 (Hst key)). unfold settle_entries. rewrite assoc_get_map.
    replace (new_map values names key (m key)) with (fold_left (write_scalar (value_at values key)) names (m key))
      by (by destruct key). rewrite write_scalars_get. destruct (str_mem name names).
    + destruct (value_at values key) as [s|]; [|done]. cbn. by rewrite settle_scalar_of, scalar_of_value, settle_fmap_idem.
    + destruct (assoc_get str_eqb name (m key)) as [v|]; [|done]. cbn. by rewrite settle_scalar_of, settle_fmap_idem.
  - intros p n Hp Hn. unfold plugin_value. rewrite Hst', (proj1 (Hst KPluginBillingExpr)). unfold settle_entries.
    rewrite assoc_get_map. destruct Hd as [_ Hpl]. cbn [new_map].
    destruct (pv_plugins values) as [plugins|].
    + destruct Hpl as [Hpl _]. rewrite write_plugins_all by done. destruct (str_mem n names).
      * by destruct (assoc_get str_eqb p plugins).
      * by destruct (assoc_get str_eqb _ (m KPluginBillingExpr)) as [[]|].
    + by destruct (assoc_get str_eqb _ (m KPluginBillingExpr)) as [[]|].
Qed.

(** ** Reading *)

Lemma value_with values k k' s :
  value_at (with_value k s values) k' = if pkey_eqb k' k then Some s else value_at values k'.
Proof.
  unfold value_at, with_value. cbn [pv_scalars]. destruct (pkey_eqb k' k) eqn:E.
  - apply pkey_eqb_eq in E as ->. apply assoc_get_set_eq, pkey_eqb_eq.
  - apply assoc_get_set_ne; [apply pkey_eqb_eq|]. intros ->. by rewrite pkey_eqb_refl in E.
Qed.

Lemma model_values_set models n v n' :
  model_values (assoc_set str_eqb n v models) n' = if str_eqb n' n then v else model_values models n'.
Proof.
  unfold model_values. destruct (str_eqb n' n) eqn:E.
  - apply str_eqb_eq in E as ->. by rewrite assoc_get_set_eq by apply str_eqb_eq.
  - rewrite assoc_get_set_ne; [done|apply str_eqb_eq|]. intros ->. by rewrite str_eqb_refl in E.
Qed.

Lemma read_scalars key o : key <> KPluginBillingExpr -> map_ok key o = true -> forall models,
  exists models', read_entries key o models = Ok models' /\
  forall name,
    pv_plugins (model_values models' name) = pv_plugins (model_values models name) /\
    forall k, value_at (model_values models' name) k =
      if pkey_eqb k key then
        match assoc_get str_eqb name o with Some v => scalar_of v | None => value_at (model_values models name) k end
      else value_at (model_values models name) k.
Proof.
  intros Hk. induction o as [|[n v] o IH]; intros Hok models; cbn [read_entries].
  { exists models. split; [done|]. intros name. split; [done|]. intros k. by destruct (pkey_eqb k key). }
  unfold map_ok in Hok. apply andb_true_iff in Hok as [Ho Hf]. cbn [forallb] in Hf. apply andb_true_iff in Hf as [Hv Hf].
  apply enumerated_fresh in Ho as [Hfresh Ho].
  assert (exists s, scalar_of v = Some s /\
    read_entry key models (n, v) = Ok (assoc_set str_eqb n (with_value key s (model_values models n)) models))
    as (s & Hs & ->).
  { destruct key; try done; destruct v; try done; eexists; (split; [done|]); done. }
  edestruct IH as (models' & -> & H); [unfold map_ok; by rewrite Ho, Hf|]. exists models'. split; [done|].
  intros name. destruct (H name) as [H1 H2]. rewrite H1, model_values_set. split.
  { destruct (str_eqb name n) eqn:E; [|done]. by apply str_eqb_eq in E as ->. }
  intros k. rewrite H2, model_values_set. cbn [assoc_get]. destruct (str_eqb name n) eqn:E.
  - apply str_eqb_eq in E as ->. rewrite Hfresh, Hs, value_with. by destruct (pkey_eqb k key).
  - done.
Qed.

Lemma read_plugins o : map_ok KPluginBillingExpr o = true -> forall models,
  exists models', read_entries KPluginBillingExpr o models = Ok models' /\
  forall name,
    (forall k, value_at (model_values models' name) k = value_at (model_values models name) k) /\
    forall p, is_plugin_key p = true -> truthy_str (trim name) = true ->
      assoc_get str_eqb p (default [] (pv_plugins (model_values models' name))) =
      match assoc_get str_eqb (plugin_model_key p name) o with
      | Some (VStr e) => Some e
      | _ => assoc_get str_eqb p (default [] (pv_plugins (model_values models name)))
      end.
Proof.
  induction o as [|[k v] o IH]; intros Hok models; cbn [read_entries]; [by exists models|].
  unfold map_ok in Hok. apply andb_true_iff in Hok as [Ho Hf]. cbn [forallb] in Hf. apply andb_true_iff in Hf as [Hv Hf].
  apply enumerated_fresh in Ho as [Hfresh Ho]. unfold entry_ok in Hv. cbn [fst snd] in Hv.
  destruct v as [| | | |e| |]; try done.
  destruct (splitPluginBillingExprKey k) as [[q m]|] eqn:Hsp; [|done].
  cbn [read_entry]. rewrite Hsp. cbv beta iota zeta.
  edestruct IH as (models' & -> & H); [unfold map_ok; by rewrite Ho, Hf|]. exists models'. split; [done|].
  apply split_plugin_inv in Hsp as (-> & Hq & Hm).
  intros name. destruct (H name) as [H1 H2]. split.
  { intros k. rewrite H1, model_values_set. destruct (str_eqb name m) eqn:E; [|done]. by apply str_eqb_eq in E as ->. }
  intros p Hp Hn. rewrite (H2 p Hp Hn), model_values_set. cbn [assoc_get].
  destruct (str_eqb (plugin_model_key p name) (plugin_model_key q m)) eqn:E.
  - apply str_eqb_eq in E. rewrite E, Hfresh. apply plugin_model_key_inj in E as [-> ->]; [|done..].
    rewrite str_eqb_refl. cbn [with_plugins pv_plugins from_option id]. by rewrite prop_get_set, str_eqb_refl.
  - destruct (assoc_get str_eqb (plugin_model_key p name) o) as [[]|]; try done;
      (destruct (str_eqb name m) eqn:En; [|done]); apply str_eqb_eq in En as ->;
      cbn [with_plugins pv_plugins from_option id]; rewrite prop_get_set;
      (destruct (str_eqb p q) eqn:Epq; [|done]); apply str_eqb_eq in Epq as ->; by rewrite str_eqb_refl in E.
Qed.

(** The values read of each model are those the options hold. *)
Record reads (options : pricing_options) (models : models_map) : Prop := {
  r_scalars : forall name key, key <> KPluginBillingExpr ->
    settle <$> value_at (model_values models name) key = option_value options key name;
  r_plugins : forall p n, is_plugin_key p = true -> truthy_str (trim n) = true ->
    assoc_get str_eqb p (default [] (pv_plugins (model_values models n))) = plugin_value options p n;
}.

Lemma read_scalar_keys options keys : options_ok options -> Forall (fun k => k <> KPluginBillingExpr) keys ->
  forall models, exists models',
  (forall rest, read_options options (keys ++ rest) models = read_options options rest models') /\
  forall name,
    pv_plugins (model_values models' name) = pv_plugins (model_values models name) /\
    forall k, value_at (model_values models' name) k =
      if existsb (pkey_eqb k) keys then
        match (let! o := stored options k in assoc_get str_eqb name o) with
        | Some v => scalar_of v
        | None => value_at (model_values models name) k
        end
      else value_at (model_values models name) k.
Proof.
  intros Hok. induction 1 as [|key keys Hk _ IH]; intros models; [by exists models|].
  destruct (Hok key) as (o & Ho & Hm). pose proof Ho as Ho'. unfold stored in Ho'.
  destruct (read_scalars key o Hk Hm models) as (models1 & Hr & H1).
  destruct (IH models1) as (models' & Hrest & H'). exists models'. split.
  - intros rest. cbn [app read_options]. unfold read_option.
    destruct (json_parse (stored_text options key)) as [[| | | | | |o']|]; try done. injection Ho' as ->.
    rewrite Hr. apply Hrest.
  - intros name. destruct (H1 name) as [P1 V1]. destruct (H' name) as [P2 V2]. split; [congruence|].
    intros k. rewrite V2, V1. cbn [existsb]. destruct (pkey_eqb k key) eqn:E; cbn [orb].
    + apply pkey_eqb_eq in E as ->. rewrite Ho. cbn match.
      destruct (existsb _ keys); [|done]. by destruct (assoc_get str_eqb name o).
    + done.
Qed.

Lemma read_ok options : options_ok options ->
  exists models, pricingValuesByModel options = Ok models /\ reads options models.
Proof.
  intros Hok. unfold pricingValuesByModel.
  change PRICING_KEYS with ([KModelPrice; KModelRatio; KCompletionRatio; KCacheRatio; KCreateCacheRatio;
    KImageRatio; KAudioRatio; KAudioCompletionRatio; KBillingMode; KBillingExpr] ++ [KPluginBillingExpr]).
  edestruct (read_scalar_keys options) as (models1 & Hr & H1); [exact Hok| |rewrite (Hr [KPluginBillingExpr])].
  { repeat constructor; done. }
  destruct (Hok KPluginBillingExpr) as (o & Ho & Hm). pose proof Ho as Ho'. unfold stored in Ho'.
  destruct (read_plugins o Hm models1) as (models' & Hrp & H'). exists models'.
  cbn [read_options]. unfold read_option.
  destruct (json_parse (stored_text options KPluginBillingExpr)) as [[| | | | | |o']|]; try done. injection Ho' as ->.
  rewrite Hrp. split; [done|]. split.
  - intros name key Hk. destruct (H' name) as [V' _]. destruct (H1 name) as [_ V1]. rewrite V', V1.
    assert (existsb (pkey_eqb key) [KModelPrice; KModelRatio; KCompletionRatio; KCacheRatio; KCreateCacheRatio;
      KImageRatio; KAudioRatio; KAudioCompletionRatio; KBillingMode; KBillingExpr] = true) as -> by (by destruct key).
    unfold option_value. destruct (stored options key) as [m|]; [|done].
    by destruct (assoc_get str_eqb name m).
  - intros p n Hp Hn. destruct (H' n) as [_ P']. destruct (H1 n) as [P1 _]. rewrite (P' p Hp Hn), P1.
    unfold plugin_value. rewrite Ho. by destruct (assoc_get str_eqb (plugin_model_key p n) o) as [[]|].
Qed.

(** ** Drafts *)

(** The text of the editor a key is taken from. *)
Definition draft_text (data : ratio_data) (key : pricing_key) : jsstr :=
  match key with
  | KModelPrice => rd_price data
  | KModelRatio => rd_ratio data
  | KCompletionRatio => rd_completionRatio data
  | KCacheRatio => rd_cacheRatio data
  | KCreateCacheRatio => rd_createCacheRatio data
  | KImageRatio => rd_imageRatio data
  | KAudioRatio => rd_audioRatio data
  | KAudioCompletionRatio => rd_audioCompletionRatio data
  | _ => []
  end.

(** The values a draft stands for. *)
Definition draft_value (data : ratio_data) (key : pricing_key) : option scalar :=
  match key with
  | KBillingMode => Some (SStr (if is_tiered_draft data then js "tiered_expr" else js "ratio"))
  | KBillingExpr =>
      if is_tiered_draft data
      then Some (SStr (combineBillingExpr (rd_billingExpr data) (rd_requestRuleExpr data))) else None
  | _ =>
      if truthy_str (draft_text data key) && field_counts data key
      then Some (SNum (number_of_string (draft_text data key))) else None
  end.

Definition price_text_ok (text : jsstr) : bool :=
  negb (truthy_str text) || (is_finite (number_of_string text) && negb (n_ltb (number_of_string text) n_zero)).

(** Every field is checked, whether it counts or not. *)
Lemma draft_fields_ok data fields : NoDup (map snd fields) ->
  Forall (fun fk => fk.1 data = draft_text data fk.2 /\
    fk.2 <> KBillingMode /\ fk.2 <> KBillingExpr /\ fk.2 <> KPluginBillingExpr) fields ->
  forall values values', draft_fields data fields values = Ok values' ->
  pv_plugins values' = pv_plugins values /\
  forallb (fun fk => price_text_ok (fk.1 data)) fields = true /\
  forall k, value_at values' k =
    if existsb (pkey_eqb k) (map snd fields) && truthy_str (draft_text data k) && field_counts data k
    then Some (SNum (number_of_string (draft_text data k))) else value_at values k.
Proof.
  induction fields as [|[f key] fields IH]; intros Hnd Hall values values'; cbn [draft_fields].
  { by intros [= <-]. }
  inversion Hnd as [|? ? Hnew Hnd']; subst. inversion Hall as [|? ? [Hf Hkey] Hall']; subst. cbn [fst snd] in *.
  destruct (draft_field data values (f, key)) as [values1|] eqn:Hd; [|done].
  intros Hr. destruct (IH Hnd' Hall' _ _ Hr) as (P & C & V). cbn [map forallb existsb fst snd].
  assert (H1 : price_text_ok (f data) = true /\ pv_plugins values1 = pv_plugins values /\
    forall k, value_at values1 k =
      if pkey_eqb k key && truthy_str (draft_text data k) && field_counts data k
      then Some (SNum (number_of_string (draft_text data k))) else value_at values k).
  { unfold draft_field in Hd. cbn [fst snd] in Hd. unfold price_text_ok. rewrite Hf in *.
    destruct (truthy_str (draft_text data key)) eqn:Ht; cbn [negb] in Hd.
    - destruct (negb (is_finite _) || n_ltb _ n_zero) eqn:Hc; [done|]. apply orb_false_iff in Hc as [Hc1%negb_false_iff Hc2].
      rewrite Hc1, Hc2. split; [done|]. destruct (field_counts data key) eqn:Hfc; injection Hd as <-.
      + split; [done|]. intros k. rewrite value_with. destruct (pkey_eqb k key) eqn:E; [|done].
        apply pkey_eqb_eq in E as ->. by rewrite Ht, Hfc.
      + split; [done|]. intros k. destruct (pkey_eqb k key) eqn:E; [|done]. apply pkey_eqb_eq in E as ->.
        by rewrite Ht, Hfc.
    - injection Hd as <-. split; [done|]. split; [done|]. intros k.
      destruct (pkey_eqb k key) eqn:E; [|done]. apply pkey_eqb_eq in E as ->. by rewrite Ht. }
  destruct H1 as (C1 & P1 & V1). split; [congruence|]. split; [by rewrite C1, C|].
  intros k. rewrite V, V1. destruct (pkey_eqb k key); cbn [orb andb]; [|done].
  by destruct (existsb _ _), (truthy_str _), (field_counts data k).
Qed.

Lemma draft_values data values : pricingFromDraft data = Ok values ->
  pv_plugins values = rd_pluginBillingExpr data /\
  (forall key, key <> KPluginBillingExpr -> value_at values key = draft_value data key) /\
  (forall key, price_text_ok (draft_text data key) = true) /\ values_ok values.
Proof.
  unfold pricingFromDraft. intros H. destruct (draft_fields _ _ _) as [v|] eqn:Hd; [|done]. injection H as <-.
  apply draft_fields_ok in Hd as (P & C & V).
  2:{ apply (bool_decide_unpack _). vm_compute. exact I. }
  2:{ repeat constructor; done. }
  assert (HV : forall key, key <> KPluginBillingExpr -> value_at (if is_tiered_draft data
      then with_value KBillingExpr (SStr (combineBillingExpr (rd_billingExpr data) (rd_requestRuleExpr data))) v
      else v) key = draft_value data key).
  { intros key Hk. destruct (is_tiered_draft data) eqn:Ht; rewrite ?value_with, V;
      destruct key; try done; unfold draft_value; rewrite Ht; cbn; try done;
      by destruct (truthy_str _), (field_counts _ _). }
  assert (HC : forall key, price_text_ok (draft_text data key) = true).
  { intros key. cbn [forallb pricingFieldMap fst] in C. repeat (apply andb_true_iff in C as [? C]).
    by destruct key. }
  split; [by destruct (is_tiered_draft data)|]. split; [done|]. split; [done|].
  intros k s Hs. destruct (decide (k = KPluginBillingExpr)) as [->|Hk].
  - exfalso. destruct (is_tiered_draft data); rewrite ?value_with, V in Hs; cbn in Hs; done.
  - rewrite HV in Hs by done. unfold draft_value in Hs.
    assert (Hn : forall key, price_text_ok (draft_text data key) = true ->
      truthy_str (draft_text data key) = true -> scalar_ok (SNum (number_of_string (draft_text data key))) = true).
    { intros key Hok Ht. unfold price_text_ok in Hok. rewrite Ht in Hok. cbn [negb orb] in Hok.
      apply andb_true_iff in Hok as [Hf _]. cbn [scalar_ok]. by rewrite number_of_string_valid. }
    destruct k; try done; try (destruct (is_tiered_draft data); simplify_eq; done);
      (destruct (truthy_str _ && _)%bool eqn:E; [|done]); apply andb_true_iff in E as [E _]; simplify_eq; by apply Hn.
Qed.

(** ** The models read are well formed *)

Definition model_wf (name : jsstr) (values : pricing_values) : Prop :=
  values_ok values /\ plugins_ok (default [] (pv_plugins values)) = true /\
  (truthy_str (trim name) = false -> default [] (pv_plugins values) = []).

Definition models_wf (models : models_map) : Prop := forall name, model_wf name (model_values models name).

Lemma plugins_ok_set p e plugins : is_plugin_key p = true -> plugins_ok plugins = true ->
  plugins_ok (prop_set p e plugins) = true.
Proof.
  intros Hp [Ho Hf]%andb_true_iff. apply andb_true_iff. split; [by apply object_ok_set|].
  rewrite <- (forallb_map fst is_plugin_key) in Hf |- *. rewrite forallb_forall in Hf |- *.
  intros k [->|Hk]%prop_keys_set; auto.
Qed.

Lemma read_entry_wf key models entry models' : entry_ok key entry = true -> models_wf models ->
  read_entry key models entry = Ok models' -> models_wf models'.
Proof.
  intros He Hwf Hr name. destruct entry as [k v]. unfold entry_ok in He. cbn [fst snd] in He. cbn [read_entry] in Hr.
  assert (Hcase : (exists p m e, key = KPluginBillingExpr /\ splitPluginBillingExprKey k = Some (p, m) /\
      models' = assoc_set str_eqb m (with_plugins (Some (prop_set p e
        (default [] (pv_plugins (model_values models m))))) (model_values models m)) models) \/
    (exists s, scalar_ok s = true /\ models' = assoc_set str_eqb k (with_value key s (model_values models k)) models)).
  { destruct (decide (key = KPluginBillingExpr)) as [->|Hk].
    - left. destruct v; try done. destruct (splitPluginBillingExprKey k) as [[p m]|]; [|done].
      injection Hr as <-. eauto 10.
    - right. destruct v as [| | |x|s| |]; try (destruct key; done).
      + exists (SNum x). split; [cbn; by destruct key|]. destruct key; try done; by injection Hr as <-.
      + exists (SStr s). split; [done|]. destruct key; try done; by injection Hr as <-. }
  destruct Hcase as [(p & m & e & -> & Hs & ->)|(s & Hs & ->)]; rewrite model_values_set;
    (destruct (str_eqb name _) eqn:E; [|apply Hwf]); apply str_eqb_eq in E as ->.
  - destruct (Hwf m) as (H1 & H2 & H3). apply split_plugin_inv in Hs as (_ & Hp & Hm).
    split; [exact H1|]. cbn [with_plugins pv_plugins from_option id]. split; [by apply plugins_ok_set|].
    intros Hb. by rewrite Hb in Hm.
  - destruct (Hwf k) as (H1 & H2 & H3). split; [|done]. intros k' s'. rewrite value_with.
    destruct (pkey_eqb k' key); [by intros [= <-]|]. apply H1.
Qed.

Lemma read_entries_wf key o : forallb (entry_ok key) o = true -> forall models models',
  models_wf models -> read_entries key o models = Ok models' -> models_wf models'.
Proof.
  induction o as [|e o IH]; intros Hf models models' Hwf; cbn [read_entries]; [by intros [= <-]|].
  cbn [forallb] in Hf. apply andb_true_iff in Hf as [He Hf].
  destruct (read_entry key models e) as [m1|] eqn:Hr; [|done]. apply IH; [done|]. by eapply read_entry_wf.
Qed.

Lemma read_wf options models : options_ok options -> pricingValuesByModel options = Ok models -> models_wf models.
Proof.
  intros Hok. unfold pricingValuesByModel.
  assert (H0 : models_wf []) by (intros name; split; [intros k s; done|done]).
  revert H0. generalize (@nil (jsstr * pricing_values)). induction PRICING_KEYS as [|key keys IH]; intros m Hm;
    cbn [read_options]; [by intros [= <-]|].
  destruct (Hok key) as (o & Ho & Hmo). unfold read_option, stored in *.
  destruct (json_parse (stored_text options key)) as [[| | | | | |o']|]; try done. injection Ho as ->.
  destruct (read_entries key o m) as [m'|] eqn:Hr; [|done]. apply IH.
  unfold map_ok in Hmo. apply andb_true_iff in Hmo as [_ Hmo]. by eapply read_entries_wf.
Qed.

(** ** Applying a draft *)

(** What is known of a model from the values read. *)
Definition settled_at (models : models_map) (name : jsstr) (key : pricing_key) : option scalar :=
  settle <$> value_at (model_values models name) key.
Definition plugin_at (models : models_map) (name plugin : jsstr) : option jsstr :=
  assoc_get str_eqb plugin (default [] (pv_plugins (model_values models name))).

Definition draft_plugins_ok (data : ratio_data) : Prop :=
  match rd_pluginBillingExpr data with
  | None => True
  | Some plugins => plugins_ok plugins = true /\ truthy_str (trim (rd_name data)) = true
  end.

(** The effect of a draft on the options. *)
Record draft_written (options options' : pricing_options) (data : ratio_data) (names : list jsstr) : Prop := {
  dw_ok : options_ok options';
  dw_scalars : forall key name, key <> KPluginBillingExpr ->
    option_value options' key name =
    if str_mem name names then settle <$> draft_value data key else option_value options key name;
  dw_plugins : forall p n, is_plugin_key p = true -> truthy_str (trim n) = true ->
    plugin_value options' p n =
    match rd_pluginBillingExpr data with
    | Some plugins =>
        if str_mem n names && str_eqb n (rd_name data) then assoc_get str_eqb p plugins
        else plugin_value options p n
    | None => plugin_value options p n
    end;
}.

Lemma single_name names name : match names with [n] => str_eqb n name | _ => false end = true -> names = [name].
Proof. destruct names as [|n [|? ?]]; try done. by intros ->%str_eqb_eq. Qed.

Lemma draft_effect options data names values : options_ok options -> draft_plugins_ok data ->
  pricingFromDraft data = Ok values ->
  exists options', applyPricingDraft options data names = Ok options' /\ draft_written options options' data names.
Proof.
  intros Hok Hp Hd. destruct (draft_values data values Hd) as (HP & HV & _ & Hvok).
  assert (Hfull : draft_ok values [rd_name data]).
  { split; [done|]. rewrite HP. unfold draft_plugins_ok in Hp. destruct (rd_pluginBillingExpr data); [|done].
    destruct Hp as [-> Hn]. cbn [forallb]. by rewrite Hn. }
  unfold applyPricingDraft. rewrite Hd.
  destruct (match names with [name] => str_eqb name (rd_name data) | _ => false end) eqn:Halone.
  - apply single_name in Halone as ->. destruct (applied options values _ Hok Hfull) as (o' & -> & [W1 W2 W3]).
    exists o'. split; [done|]. split; [done| |].
    + intros key name Hk. by rewrite W2, HV.
    + intros p n Hpk Hn. rewrite W3, HP by done. destruct (rd_pluginBillingExpr data); [|done].
      unfold str_mem. cbn [existsb]. by destruct (str_eqb n (rd_name data)).
  - assert (Hcop : draft_ok (with_plugins None values) names) by (split; [exact Hvok|done]).
    destruct (applied options (with_plugins None values) names Hok Hcop) as (next & -> & [W1 W2 W3]).
    change (value_at (with_plugins None values)) with (value_at values) in W2. cbn [with_plugins pv_plugins] in W3.
    destruct (str_mem (rd_name data) names) eqn:Hm.
    + destruct (applied next values _ W1 Hfull) as (o' & -> & [X1 X2 X3]). exists o'. split; [done|]. split; [done| |].
      * intros key name Hk. rewrite X2, W2, HV by done. unfold str_mem at 1. cbn [existsb].
        destruct (str_eqb name (rd_name data)) eqn:E; [|done]. apply str_eqb_eq in E as ->. by rewrite Hm.
      * intros p n Hpk Hn. rewrite X3, HP, !W3 by done. destruct (rd_pluginBillingExpr data); [|done].
        unfold str_mem at 1. cbn [existsb]. destruct (str_eqb n (rd_name data)) eqn:E; cbn [orb].
        -- apply str_eqb_eq in E as ->. by rewrite Hm.
        -- by rewrite andb_false_r.
    + exists next. split; [done|]. split; [done| |].
      * intros key name Hk. by rewrite W2, HV.
      * intros p n Hpk Hn. rewrite W3 by done. destruct (rd_pluginBillingExpr data); [|done].
        destruct (str_eqb n (rd_name data)) eqn:E; [|by rewrite andb_false_r].
        apply str_eqb_eq in E as ->. by rewrite Hm.
Qed.

(** C20: a draft of the pricing editor is written exactly.  When the draft's prices are
    finite and not negative it is accepted, and the options it leaves are again objects of
    numbers and texts.  Read back, every model named has the values of the draft, every
    other model the values it had; the provider expressions of the draft go to the edited
    model alone, the other models keep theirs.  (A minus zero is read back as zero.) *)
Theorem draft_applied options data names values :
  options_ok options -> draft_plugins_ok data -> pricingFromDraft data = Ok values ->
  exists options' models models',
    applyPricingDraft options data names = Ok options' /\ options_ok options' /\
    pricingValuesByModel options = Ok models /\ pricingValuesByModel options' = Ok models' /\
    forall name,
      (forall key, key <> KPluginBillingExpr ->
         settled_at models' name key =
         if str_mem name names then settle <$> draft_value data key else settled_at models name key) /\
      (forall plugin, is_plugin_key plugin = true -> truthy_str (trim name) = true ->
         plugin_at models' name plugin =
         match rd_pluginBillingExpr data with
         | Some plugins =>
             if str_mem name names && str_eqb name (rd_name data) then assoc_get str_eqb plugin plugins
             else plugin_at models name plugin
         | None => plugin_at models name plugin
         end).
Proof.
  intros Hok Hp Hd. destruct (draft_effect options data names values Hok Hp Hd) as (o' & Ha & [W1 W2 W3]).
  destruct (read_ok options Hok) as (models & Hm & [R1 R2]).
  destruct (read_ok o' W1) as (models' & Hm' & [R1' R2']).
  exists o', models, models'. repeat (split; [done|]). intros name. split.
  - intros key Hk. unfold settled_at. by rewrite R1', W2, R1 by done.
  - intros plugin Hpk Hn. unfold plugin_at. by rewrite R2', W3, R2 by done.
Qed.

Definition sample_options : pricing_options :=
  [(KModelRatio, jq "{'gpt': 1.5, 'other': 2}");
   (KPluginBillingExpr, jq "{'p1::gpt': 'tier(1)', 'p1::other': 'x'}")].

Definition sample_draft : ratio_data :=
  RatioData (Some [(js "p2", js "y")]) (js "gpt") (js "0.25") [] [] [] [] [] [] [] (js "4") [] [] []
    (Some PerRequest) [] [].

Lemma draft_applied_witness :
  options_ok sample_options /\
  exists options' models models',
    applyPricingDraft sample_options sample_draft [js "gpt"; js "new"] = Ok options' /\
    pricingValuesByModel sample_options = Ok models /\ pricingValuesByModel options' = Ok models' /\
    settled_at models' (js "new") KModelPrice = Some (SNum (n_of_decimal 25 (-2))) /\
    settled_at models' (js "other") KModelRatio = settled_at models (js "other") KModelRatio /\
    plugin_at models' (js "gpt") (js "p1") = None.
Proof.
  assert (Hok : options_ok sample_options).
  { intros key. destruct key; eexists; (split; [vm_compute; reflexivity|vm_compute; reflexivity]). }
  split; [exact Hok|].
  destruct (pricingFromDraft sample_draft) as [values|] eqn:Hd; [|vm_compute in Hd; discriminate Hd].
  assert (Hp : draft_plugins_ok sample_draft) by (split; vm_compute; reflexivity).
  destruct (draft_applied sample_options sample_draft [js "gpt"; js "new"] values Hok Hp Hd)
    as (o' & m & m' & Ha & _ & Hm & Hm' & H).
  exists o', m, m'. repeat (split; [assumption|]). split; [|split].
  - rewrite (proj1 (H (js "new")) KModelPrice) by discriminate. vm_compute. reflexivity.
  - rewrite (proj1 (H (js "other")) KModelRatio) by discriminate. reflexivity.
  - rewrite (proj2 (H (js "gpt")) (js "p1")) by (vm_compute; reflexivity). vm_compute. reflexivity.
Defined.

(** ** Changes *)

Lemma set_of_spec names : NoDup (set_of names) /\ forall n, In n (set_of names) <-> In n names.
Proof.
  unfold set_of. assert (H : forall acc, NoDup acc ->
    NoDup (fold_left (fun acc name => set_add str_eqb name acc) names acc) /\
    forall n, In n (fold_left (fun acc name => set_add str_eqb name acc) names acc) <-> In n names \/ In n acc).
  { induction names as [|x names IH]; intros acc Hacc; cbn [fold_left In]; [split; [done|tauto]|].
    destruct (IH (set_add str_eqb x acc)) as [H1 H2].
    { unfold set_add. destruct (existsb (str_eqb x) acc) eqn:E; [done|].
      apply list.NoDup_app. split; [done|]. split; [|by apply list.NoDup_singleton].
      intros y Hy ->%list_elem_of_singleton. rewrite existsb_false_iff in E.
      apply list_elem_of_In in Hy. specialize (E x Hy). by rewrite str_eqb_refl in E. }
    split; [done|]. intros n. rewrite H2, set_add_elem by apply str_eqb_eq. intuition congruence. }
  destruct (H [] ltac:(constructor)) as [H1 H2]. split; [done|]. intros n. rewrite H2. simpl. tauto.
Qed.

Lemma model_values_absent models name : ~ In name (map fst models) -> model_values models name = no_values.
Proof.
  intros Hn. unfold model_values. rewrite assoc_get_none_keys; [done|].
  destruct (str_mem name (map fst models)) eqn:E; [|done]. by apply str_mem_In in E.
Qed.

Lemma model_change_name entries version previous next name c :
  In c (model_change entries version previous next name) ->
  ch_model_name c = name /\ exists key, key_dirty (model_values previous name) (model_values next name) key = true.
Proof.
  unfold model_change. destruct (List.filter _ PRICING_KEYS) as [|key dirty] eqn:Hf; [done|].
  intros [<-|[]]. split; [done|]. exists key.
  assert (H : In key (key :: dirty)) by (by left). rewrite <- Hf in H. by apply filter_In in H as [_ ?].
Qed.

Lemma model_change_dirty entries version previous next name key :
  key_dirty (model_values previous name) (model_values next name) key = true ->
  exists c, model_change entries version previous next name = [c].
Proof.
  intros Hk. unfold model_change. destruct (List.filter _ PRICING_KEYS) as [|k dirty] eqn:Hf; [|by eexists].
  assert (H : In key (List.filter (key_dirty (model_values previous name) (model_values next name)) PRICING_KEYS)).
  { apply filter_In. split; [apply all_keys|done]. }
  by rewrite Hf in H.
Qed.

(** Two numbers the options do not tell apart are strictly equal. *)
Lemma settled_strict a b : (forall s, a = Some s -> scalar_ok s = true) -> (forall s, b = Some s -> scalar_ok s = true) ->
  settle <$> a = settle <$> b -> scalar_eqb a b = true.
Proof.
  intros Ha Hb He. destruct a as [[x|s]|], b as [[y|u]|]; try done; cbn in He; simplify_eq; [|by apply str_eqb_refl].
  specialize (Ha _ eq_refl). specialize (Hb _ eq_refl). cbn in Ha, Hb.
  apply andb_true_iff in Ha as [_ Ha], Hb as [_ Hb].
  destruct x as [[]| | |s m e], y as [[]| | |s' m' e']; try done; cbn in He; simplify_eq.
  by apply (n_eqb_refl (S754_finite _ _ _)).
Qed.

Lemma plugins_equal a b : plugins_ok a = true -> plugins_ok b = true ->
  (forall p, is_plugin_key p = true -> assoc_get str_eqb p a = assoc_get str_eqb p b) ->
  pluginExpressionsEqual a b = true.
Proof.
  intros [Oa Ka]%andb_true_iff [Ob Kb]%andb_true_iff H.
  assert (Hget : forall (o : list (jsstr * jsstr)) k v, object_ok o = true -> In (k, v) o ->
    assoc_get str_eqb k o = Some v).
  { induction o as [|[k' v'] o IH]; intros k v Ho; [done|]. intros [[= -> ->]|Hin]; cbn [assoc_get].
    - by rewrite str_eqb_refl.
    - destruct (enumerated_fresh k' v' o Ho) as [Hf Ho']. rewrite (IH k v Ho' Hin).
      destruct (str_eqb k k') eqn:E; [|done]. apply str_eqb_eq in E as ->. by rewrite (IH k' v Ho' Hin) in Hf. }
  assert (Hnd : forall o : list (jsstr * jsstr), object_ok o = true -> List.NoDup (map fst o)).
  { induction o as [|[k v] o IH]; intros Ho; cbn [map fst]; constructor.
    - destruct (enumerated_fresh k v o Ho) as [Hf Ho']. intros ([k' w] & Hk & Hin)%in_map_iff.
      cbn [fst] in Hk. subst k'. by rewrite (Hget _ _ _ Ho' Hin) in Hf.
    - apply IH. by destruct (enumerated_fresh k v o Ho). }
  assert (Hincl : forall c d : list (jsstr * jsstr), object_ok c = true -> forallb (fun e => is_plugin_key e.1) c = true ->
    (forall p, is_plugin_key p = true -> assoc_get str_eqb p c = assoc_get str_eqb p d) ->
    incl (map fst c) (map fst d)).
  { intros c d Oc Kc Hcd k ([k' v] & <- & Hin)%in_map_iff. rewrite forallb_forall in Kc. specialize (Kc _ Hin).
    pose proof (Hcd _ Kc) as Hk. cbn [fst] in *. rewrite (Hget _ _ _ Oc Hin) in Hk. symmetry in Hk.
    by apply assoc_get_mem, (in_map fst) in Hk. }
  unfold pluginExpressionsEqual. apply andb_true_iff. split.
  - apply Nat.eqb_eq. rewrite <- (length_map fst a), <- (length_map fst b).
    apply Nat.le_antisymm; apply NoDup_incl_length; auto. apply Hincl; [done|done|]. intros p Hp. by rewrite H.
  - apply forallb_forall. intros [k v] Hin. rewrite forallb_forall in Ka. specialize (Ka _ Hin). cbn [fst snd] in *.
    rewrite <- (H k Ka), (Hget _ _ _ Oa Hin). apply str_eqb_refl.
Qed.

(** Models with the same values are not dirty. *)
Lemma same_not_dirty name before after :
  model_wf name before -> model_wf name after ->
  (forall key, key <> KPluginBillingExpr -> settle <$> value_at before key = settle <$> value_at after key) ->
  (truthy_str (trim name) = true -> forall p, is_plugin_key p = true ->
     assoc_get str_eqb p (default [] (pv_plugins before)) = assoc_get str_eqb p (default [] (pv_plugins after))) ->
  forall key, key_dirty before after key = false.
Proof.
  intros (B1 & B2 & B3) (A1 & A2 & A3) Hs Hp key. destruct (decide (key = KPluginBillingExpr)) as [->|Hk].
  - cbn [key_dirty]. apply negb_false_iff. apply plugins_equal; [done|done|].
    destruct (truthy_str (trim name)) eqn:E; [by apply Hp|]. by rewrite (B3 eq_refl), (A3 eq_refl).
  - replace (key_dirty before after key) with (negb (scalar_eqb (value_at before key) (value_at after key)))
      by (by destruct key). apply negb_false_iff, settled_strict; [intros s; apply B1|intros s; apply A1|by apply Hs].
Qed.

Section changes.
Variables (entries : list (jsstr * pricing_entry)) (version : jsstr) (previous next : models_map).
Let changes names := flat_map (model_change entries version previous next) names.
Abbreviation dirty name := (key_dirty (model_values previous name) (model_values next name)).

Lemma changes_in name :
  In name (map ch_model_name (changes (set_of (map fst previous ++ map fst next)))) <->
  exists key, dirty name key = true.
Proof.
  destruct (set_of_spec (map fst previous ++ map fst next)) as [_ Hin]. rewrite in_map_iff. split.
  - intros (c & <- & (n & Hn & Hc)%in_flat_map). by destruct (model_change_name _ _ _ _ _ _ Hc) as [-> ?].
  - intros [key Hk]. destruct (model_change_dirty entries version _ _ _ _ Hk) as [c Hc].
    exists c. assert (Hc' : In c (model_change entries version previous next name)) by (rewrite Hc; by left).
    split; [by apply model_change_name in Hc' as [? _]|]. apply in_flat_map. exists name. split; [|done].
    apply Hin. apply in_app_iff. destruct (in_dec (list_eq_dec N.eq_dec) name (map fst previous)) as [|H1]; [by left|].
    destruct (in_dec (list_eq_dec N.eq_dec) name (map fst next)) as [|H2]; [by right|]. exfalso.
    rewrite !model_values_absent in Hk by done. by destruct key.
Qed.

Lemma changes_nodup names : NoDup names -> NoDup (map ch_model_name (changes names)).
Proof.
  induction 1 as [|n ns Hn _ IH]; unfold changes in *; cbn [flat_map]; [constructor|].
  rewrite map_app. apply list.NoDup_app. split; [|split; [|done]].
  - unfold model_change. destruct (List.filter _ _); [constructor|apply list.NoDup_singleton].
  - intros x (c & -> & Hc)%list_elem_of_fmap (c' & Hcc & Hc')%list_elem_of_fmap.
    apply list_elem_of_In, model_change_name in Hc as [Hc _].
    apply list_elem_of_In, in_flat_map in Hc' as (m & Hm & Hc'). apply model_change_name in Hc' as [Hc' _].
    apply Hn. apply list_elem_of_In. congruence.
Qed.

Lemma value_without values k k' :
  value_at (without_value k values) k' = if pkey_eqb k' k then None else value_at values k'.
Proof.
  unfold value_at, without_value. cbn [pv_scalars]. induction (pv_scalars values) as [|[k2 s] l IH];
    cbn [List.filter assoc_get fst]; [by destruct (pkey_eqb k' k)|].
  destruct (pkey_eqb k k2) eqn:E; cbn [negb assoc_get].
  - rewrite IH. apply pkey_eqb_eq in E as ->. by destruct (pkey_eqb k' k2).
  - rewrite IH. destruct (pkey_eqb k' k2) eqn:E2; [|done]. apply pkey_eqb_eq in E2 as ->.
    destruct (pkey_eqb k2 k) eqn:E3; [|done]. apply pkey_eqb_eq in E3 as ->. by rewrite pkey_eqb_refl in E.
Qed.

Lemma take_dirty_value new keys k : k <> KPluginBillingExpr -> forall pricing,
  value_at (fold_left (take_dirty new) keys pricing) k =
  if existsb (pkey_eqb k) keys then value_at new k else value_at pricing k.
Proof.
  intros Hk. induction keys as [|key keys IH]; intros pricing; cbn [fold_left existsb]; [done|]. rewrite IH.
  assert (H : value_at (take_dirty new pricing key) k = if pkey_eqb k key then value_at new k else value_at pricing k).
  { destruct (decide (key = KPluginBillingExpr)) as [->|Hkey].
    - rewrite (pkey_eqb_neq _ _ Hk). done.
    - transitivity (value_at (match value_at new key with
        | Some s => with_value key s (without_value key pricing)
        | None => without_value key pricing end) k); [by destruct key|].
      destruct (value_at new key) as [s|] eqn:Hs; rewrite ?value_with, value_without;
        (destruct (pkey_eqb k key) eqn:E; [|done]); apply pkey_eqb_eq in E as ->; by rewrite Hs. }
  rewrite H. by destruct (pkey_eqb k key), (existsb (pkey_eqb k) keys).
Qed.

(** The value a change sends for a key. *)
Definition sent_value (configured new : pricing_values) (is_dirty : bool) (key : pricing_key) : option scalar :=
  if is_tiered_value new && pkey_eqb key KBillingMode then Some (SStr (js "tiered_expr"))
  else if (is_tiered_value new && pkey_eqb key KBillingExpr) || is_dirty then value_at new key
  else value_at configured key.

Lemma changed_pricing_value configured new keys k : k <> KPluginBillingExpr ->
  value_at (changed_pricing configured new keys) k =
  sent_value (default no_values configured) new (existsb (pkey_eqb k) keys) k.
Proof.
  intros Hk. unfold changed_pricing, sent_value. destruct (is_tiered_value new); cbn [andb orb].
  - destruct (value_at new KBillingExpr) as [s|] eqn:Hs; rewrite ?value_with, ?value_without, ?value_with, take_dirty_value by done;
      destruct (pkey_eqb k KBillingExpr) eqn:E1; try (apply pkey_eqb_eq in E1 as ->; by rewrite Hs);
      by destruct (pkey_eqb k KBillingMode).
  - by apply take_dirty_value.
Qed.

(** The provider expressions a change sends. *)
Lemma take_dirty_plugins new keys : forall pricing,
  pv_plugins (fold_left (take_dirty new) keys pricing) =
  if existsb (pkey_eqb KPluginBillingExpr) keys then pv_plugins new else pv_plugins pricing.
Proof.
  induction keys as [|key keys IH]; intros pricing; cbn [fold_left existsb]; [done|]. rewrite IH.
  assert (H : pv_plugins (take_dirty new pricing key) =
    if pkey_eqb KPluginBillingExpr key then pv_plugins new else pv_plugins pricing).
  { destruct key; cbn [take_dirty]; try (by destruct (value_at new _)); done. }
  rewrite H. by destruct (pkey_eqb KPluginBillingExpr key), (existsb (pkey_eqb KPluginBillingExpr) keys).
Qed.

Lemma changed_pricing_plugins configured new keys :
  pv_plugins (changed_pricing configured new keys) =
  if existsb (pkey_eqb KPluginBillingExpr) keys then pv_plugins new
  else pv_plugins (default no_values configured).
Proof.
  unfold changed_pricing. rewrite <- (take_dirty_plugins new keys (default no_values configured)).
  destruct (is_tiered_value new); [|done]. by destruct (value_at new KBillingExpr).
Qed.

Lemma change_content c names : In c (changes names) ->
  let entry := assoc_get str_eqb (ch_model_name c) entries in
  ch_expected_version c = default version (pe_version <$> entry) /\
  (forall key, key <> KPluginBillingExpr ->
    value_at (ch_pricing c) key =
    sent_value (default no_values (pe_configured <$> entry)) (model_values next (ch_model_name c))
      (dirty (ch_model_name c) key) key)
  /\ pv_plugins (ch_pricing c) =
     if dirty (ch_model_name c) KPluginBillingExpr then pv_plugins (model_values next (ch_model_name c))
     else pv_plugins (default no_values (pe_configured <$> entry)).
Proof.
  intros (n & _ & Hc)%in_flat_map entry. unfold entry. unfold model_change in Hc.
  destruct (List.filter _ PRICING_KEYS) as [|k ks] eqn:Hf; [done|]. destruct Hc as [<-|[]].
  cbn [ch_expected_version ch_model_name ch_pricing]. split; [done|].
  assert (Hd : forall key, existsb (pkey_eqb key) (k :: ks) = dirty n key).
  { intros key. rewrite <- Hf. destruct (dirty n key) eqn:E.
    - apply existsb_exists. exists key. split; [|apply pkey_eqb_refl]. apply filter_In. split; [apply all_keys|done].
    - apply existsb_false_iff. intros x [_ Hx]%filter_In. apply pkey_eqb_neq. intros ->. congruence. }
  split.
  - intros key Hk. by rewrite changed_pricing_value, Hd.
  - by rewrite changed_pricing_plugins, Hd.
Qed.
End changes.

(** The entry of a model; of two entries with one name, the later counts. *)
Definition entry_of (entries : list pricing_entry) (name : jsstr) : option pricing_entry :=
  List.find (fun e => str_eqb (pe_model_name e) name) (rev entries).

Lemma entries_get entries name :
  assoc_get str_eqb name (fold_left (fun m e => assoc_set str_eqb (pe_model_name e) e m) entries []) =
  entry_of entries name.
Proof.
  unfold entry_of. induction entries as [|e es IH] using rev_ind; [done|].
  rewrite fold_left_app, rev_app_distr. cbn [fold_left rev app List.find].
  destruct (str_eqb (pe_model_name e) name) eqn:E.
  - apply str_eqb_eq in E as <-. apply assoc_get_set_eq, str_eqb_eq.
  - rewrite assoc_get_set_ne; [done|apply str_eqb_eq|]. intros ->. by rewrite str_eqb_refl in E.
Qed.

(** A draft leaves the models it does not name as they are. *)
Lemma draft_keeps before after data names values previous next name :
  options_ok before -> draft_plugins_ok data -> pricingFromDraft data = Ok values ->
  applyPricingDraft before data names = Ok after ->
  pricingValuesByModel before = Ok previous -> pricingValuesByModel after = Ok next ->
  str_mem name names = false ->
  forall key, key_dirty (model_values previous name) (model_values next name) key = false.
Proof.
  intros Hok Hp Hd Hap Hb Ha Hm.
  destruct (draft_effect before data names values Hok Hp Hd) as (o' & Ho' & [W1 W2 W3]).
  rewrite Hap in Ho'. injection Ho' as <-.
  destruct (read_ok before Hok) as (m1 & Hm1 & [R1 R2]). rewrite Hb in Hm1. injection Hm1 as <-.
  destruct (read_ok after W1) as (m2 & Hm2 & [S1 S2]). rewrite Ha in Hm2. injection Hm2 as <-.
  apply (same_not_dirty name).
  - by apply (read_wf before).
  - by apply (read_wf after).
  - intros k Hk'. by rewrite R1, S1, W2, Hm by done.
  - intros Hn p Hpk. rewrite R2, S2, W3 by done. rewrite Hm. by destruct (rd_pluginBillingExpr data).
Qed.

(** C30: the changes sent to the server are those of the edited models.  Whenever the
    options can be read, a model has a change exactly when one of its values differs, and
    one change only; the change expects the version the model was loaded with and sends
    the new value of each key that differs, the stored value of the others, and with an
    expression always the mode and the expression; it sends the new provider expressions
    when one of them differs, and the stored ones otherwise.  After a draft, only the models the
    draft names are changed. *)
Theorem changes_exact entries empty_version before after changes :
  buildPricingChanges entries empty_version before after = Ok changes ->
  exists previous next,
    pricingValuesByModel before = Ok previous /\ pricingValuesByModel after = Ok next /\
    NoDup (map ch_model_name changes) /\
    (forall name, In name (map ch_model_name changes) <->
       exists key, key_dirty (model_values previous name) (model_values next name) key = true) /\
    (forall c, In c changes ->
       let entry := entry_of entries (ch_model_name c) in
       let new := model_values next (ch_model_name c) in
       ch_expected_version c = default empty_version (pe_version <$> entry) /\
       (forall key, key <> KPluginBillingExpr ->
         value_at (ch_pricing c) key =
         sent_value (default no_values (pe_configured <$> entry)) new
           (key_dirty (model_values previous (ch_model_name c)) new key) key) /\
       pv_plugins (ch_pricing c) =
         if key_dirty (model_values previous (ch_model_name c)) new KPluginBillingExpr then pv_plugins new
         else pv_plugins (default no_values (pe_configured <$> entry))) /\
    (forall data names values, options_ok before -> draft_plugins_ok data -> pricingFromDraft data = Ok values ->
       applyPricingDraft before data names = Ok after ->
       forall c, In c changes -> In (ch_model_name c) names).
Proof.
  unfold buildPricingChanges. destruct (pricingValuesByModel before) as [previous|] eqn:Hb; [|done].
  destruct (pricingValuesByModel after) as [next|] eqn:Ha; [|done]. intros [= <-].
  exists previous, next. split; [done|]. split; [done|]. split.
  { apply changes_nodup, set_of_spec. }
  split; [apply changes_in|]. split.
  - intros c Hc. apply change_content in Hc. cbv zeta in Hc. by rewrite entries_get in Hc.
  - intros data names values Hok Hp Hd Hap c Hc. apply (in_map ch_model_name), changes_in in Hc as [key Hk].
    destruct (str_mem (ch_model_name c) names) eqn:Hm; [by apply str_mem_In|].
    by erewrite draft_keeps in Hk.
Qed.

Lemma changes_exact_witness :
  exists after changes, applyPricingDraft sample_options sample_draft [js "gpt"] = Ok after /\
    buildPricingChanges [PricingEntry (js "gpt") (js "v7") no_values] (js "v0") sample_options after = Ok changes /\
    map ch_expected_version changes = [js "v7"] /\
    In (js "gpt") (map ch_model_name changes) /\ ~ In (js "other") (map ch_model_name changes).
Proof.
  destruct (applyPricingDraft sample_options sample_draft [js "gpt"]) as [after|] eqn:Ha;
    [|vm_compute in Ha; discriminate Ha].
  destruct (buildPricingChanges [PricingEntry (js "gpt") (js "v7") no_values] (js "v0") sample_options after)
    as [changes|] eqn:Hc.
  2:{ vm_compute in Ha. injection Ha as <-. vm_compute in Hc. discriminate Hc. }
  exists after, changes. split; [done|]. split; [done|].
  destruct (changes_exact _ _ _ _ _ Hc) as (previous & next & Hp & Hn & _ & Hin & _ & _).
  split.
  { vm_compute in Ha. injection Ha as <-. vm_compute in Hc. injection Hc as <-. reflexivity. }
  vm_compute in Ha. injection Ha as <-. vm_compute in Hp. injection Hp as <-. vm_compute in Hn. injection Hn as <-. split.
  - apply Hin. exists KModelPrice. vm_compute. reflexivity.
  - intros [key Hk]%Hin. destruct key; vm_compute in Hk; discriminate Hk.
Defined.
