(* ===== verification/PricingRowSpec.v ===== *)
(** * Rows of the settings and drafts

    The row of a model shows the values stored for it, and a draft that is saved and opened
    again is the same draft. *)

From Stdlib Require Import SpecFloat.
From S2P Require Import Prelude JsString JsNumber JsPrintSpec JsRegex JsValue JsJson ExprTypes ExprCompile ExprDisplay BillingExpr BillingExprSpec TaskExpr Currency PricingModel PricingFormat PricingSnapshots PricingDraft PricingDraftSpec.

(** ** The options of one model *)

Lemma json_object_trimmed o : trim (json_text (VObj o)) = json_text (VObj o).
Proof.
  apply trim_id. unfold trimmed. cbn [json_text]. rewrite app_comm_cons, rev_app_distr. done.
Qed.

Lemma option_map_written key o : map_ok key o = true ->
  option_map_of (json_text (VObj o)) = Ok (settle_entries o).
Proof.
  intros Ho. unfold option_map_of, safeJsonParse. rewrite json_object_trimmed.
  change (truthy_str (json_text (VObj o))) with true. cbn [negb orb]. by rewrite (written_map key).
Qed.

(** The map of one key. *)
Definition single_map (name : jsstr) (values : pricing_values) (key : pricing_key) : list (jsstr * jsval) :=
  match value_at values key with None => [] | Some s => [(name, scalar_value (settle s))] end.

Lemma single_scalar name values key : values_ok values -> key <> KPluginBillingExpr ->
  option_map_of (single_option name values key) = Ok (single_map name values key).
Proof.
  intros Hv Hk. replace (single_option name values key) with
    (json_text (VObj (match value_at values key with None => [] | Some s => [(name, scalar_value s)] end)))
    by (by destruct key).
  unfold single_map. destruct (value_at values key) as [s|] eqn:Hs.
  - rewrite (option_map_written key); [by destruct s|]. unfold map_ok, object_ok. cbn [map enumerated forallb].
    rewrite scalar_entry; [done|done|by eapply Hv].
  - by rewrite (option_map_written key).
Qed.

Lemma plugin_text_object (name : jsstr) plugins : let o := fold_left
    (fun o e => prop_set (plugin_model_key e.1 name) (VStr e.2) o) plugins [] in
  object_ok o = true /\ Forall (fun p => exists e, p.2 = VStr e) o.
Proof.
  assert (H : forall o : list (jsstr * jsval), object_ok o = true -> Forall (fun p => exists e, p.2 = VStr e) o ->
    object_ok (fold_left (fun o e => prop_set (plugin_model_key e.1 name) (VStr e.2) o) plugins o) = true /\
    Forall (fun p => exists e, p.2 = VStr e) (fold_left (fun o e => prop_set (plugin_model_key e.1 name) (VStr e.2) o) plugins o)).
  { induction plugins as [|[q e] plugins IH]; intros o Ho Hf; [done|]. cbn [fold_left fst snd].
    apply IH; [by apply object_ok_set|]. clear -Hf.
    induction Hf as [|[k v] o Hv Ho IH]; cbn [prop_set]; [by repeat constructor; eauto|].
    destruct (str_eqb _ k); [constructor; eauto|]. destruct (key_before _ k); repeat (constructor; eauto). }
  apply H; [done|constructor].
Qed.

Lemma single_plugins name values :
  exists o, option_map_of (single_option name values KPluginBillingExpr) = Ok o /\
    Forall (fun p => exists e, p.2 = VStr e) o.
Proof.
  cbn [single_option]. destruct (plugin_text_object name (default [] (pv_plugins values))) as [Ho Hf].
  set (o := fold_left _ _ _) in *. exists o. split; [|done].
  unfold option_map_of, safeJsonParse. rewrite json_object_trimmed.
  change (truthy_str (json_text (VObj o))) with true. cbn [negb orb].
  rewrite json_round_trip; [done|]. cbn [json_ok]. rewrite Ho. cbn [andb]. apply forallb_forall.
  intros p Hp. rewrite List.Forall_forall in Hf. destruct (Hf p Hp) as [e ->]. done.
Qed.

Lemma plugin_entries_ok o : Forall (fun p : jsstr * jsval => exists e, p.2 = VStr e) o -> forall acc,
  exists plugins, plugin_entries o acc = Ok plugins.
Proof.
  induction 1 as [|[k v] o [e He] _ IH]; intros acc; cbn [plugin_entries]; [by eexists|].
  cbn [snd] in He. subst v. unfold plugin_entry. cbn [fst snd].
  destruct (splitPluginBillingExprKey k) as [[p m]|]; apply IH.
Qed.

(** ** The row *)

(** The text of a stored value. *)
Definition value_text (values : pricing_values) (key : pricing_key) : jsstr :=
  match value_at values key with
  | Some (SNum x) => string_of_number x
  | Some (SStr s) => s
  | None => []
  end.

Lemma string_of_settled x : string_of_number (settle_num x) = string_of_number x.
Proof. by destruct x as [[]| | |]. Qed.

Section row.
Context `{Host} {Proto : Prototype}.
Variables (name : jsstr) (values : pricing_values).
Hypothesis Hvalues : values_ok values.
Hypothesis Hname : inherited_text name = None.

Lemma single_text key : member_text_of name (single_map name values key) = value_text values key.
Proof.
  unfold member_text_of, single_map, value_text. destruct (value_at values key) as [[x|s]|]; cbn [assoc_get];
    rewrite ?str_eqb_refl; cbn; [apply string_of_settled|done|by rewrite Hname].
Qed.

(** The names of the rows; the model's own is among them when it has a value. *)
Lemma collect_find (f : jsstr -> pricing_result snapshot) names rows :
  (forall n r, f n = Ok r -> sn_name r = n) -> collect_results f names = Ok rows ->
  if str_mem name names then exists r, f name = Ok r /\ List.find (fun e => str_eqb (sn_name e) name) rows = Some r
  else List.find (fun e => str_eqb (sn_name e) name) rows = None.
Proof.
  intros Hf. revert rows. induction names as [|n names IH]; intros rows; cbn [collect_results].
  { by intros [= <-]. }
  destruct (f n) as [r|] eqn:Hn; [|done]. destruct (collect_results f names) as [rs|]; [|done]. intros [= <-].
  specialize (IH _ eq_refl). unfold str_mem in *. cbn [existsb List.find]. rewrite (Hf _ _ Hn), (str_eqb_sym name n).
  destruct (str_eqb n name) eqn:E; cbn [orb].
  - apply str_eqb_eq in E as ->. eauto.
  - done.
Qed.

Lemma collect_ok (f : jsstr -> pricing_result snapshot) names :
  (forall n, In n names -> exists r, f n = Ok r) -> exists rows, collect_results f names = Ok rows.
Proof.
  induction names as [|n names IH]; intros Hf; cbn [collect_results]; [by eexists|].
  destruct (Hf n ltac:(by left)) as [r ->]. destruct IH as [rs ->]; [|by eexists]. intros m Hm. apply Hf. by right.
Qed.

Lemma model_row_name maps n r : model_row maps n = Ok r -> sn_name r = n.
Proof.
  unfold model_row. destruct (is_tiered _ _).
  - destruct (expression_of _ _) as [e|]; [|done]. destruct (evaluate _) as [[a b]|]; [|done]. by intros [= <-].
  - by intros [= <-].
Qed.

(** The maps that the options of one model parse to. *)
Definition single_maps (plugins : list (jsstr * list (jsstr * jsstr))) : option_maps :=
  let m := single_map name values in
  OptionMaps (m KModelPrice) (m KModelRatio) [] (m KCacheRatio) (m KCreateCacheRatio) (m KCompletionRatio)
    (m KImageRatio) (m KAudioRatio) (m KAudioCompletionRatio) (m KBillingMode) (m KBillingExpr) plugins.

Lemma single_rows : exists plugins,
  pricingRows (single_options name values) =
  collect_results (model_row (single_maps plugins)) (model_names (single_maps plugins)).
Proof.
  destruct (single_plugins name values) as (o & Ho & Hf). destruct (plugin_entries_ok o Hf []) as [plugins Hp].
  exists plugins. unfold pricingRows, buildModelSnapshots, parse_options. cbn [si_modelPrice si_modelRatio
    si_originalModelPrice si_cacheRatio si_createCacheRatio si_completionRatio si_imageRatio si_audioRatio
    si_audioCompletionRatio si_billingMode si_billingExpr si_pluginBillingExpr].
  unfold option_text, single_options. rewrite !by_key. cbn [from_option id].
  rewrite !single_scalar by done. rewrite Ho, Hp. done.
Qed.

(** Whether the values are priced by an expression, and the expression. *)
Definition tiered_values : bool :=
  match value_at values KBillingMode with Some (SStr s) => str_eqb s (js "tiered_expr") | _ => false end.

Lemma single_tiered n : is_tiered n (single_map name values KBillingMode) = str_eqb n name && tiered_values.
Proof.
  unfold is_tiered, single_map, tiered_values. destruct (value_at values KBillingMode) as [[x|s]|]; cbn [assoc_get];
    destruct (str_eqb n name); done.
Qed.

(** The texts a row shows. *)
Definition row_data (mode : pricing_mode) (expr rules : jsstr) : ratio_data :=
  let text := value_text values in
  RatioData (pv_plugins values) name (text KModelPrice) (text KModelRatio) [] [] [] []
    (text KCacheRatio) (text KCreateCacheRatio) (text KCompletionRatio) (text KImageRatio)
    (text KAudioRatio) (text KAudioCompletionRatio) (Some mode) expr rules.

Lemma row_absent maps : str_mem name (model_names maps) = false ->
  member_text_of name (om_price maps) = [] /\ member_text_of name (om_ratio maps) = [] /\
  member_text_of name (om_cache maps) = [] /\ member_text_of name (om_createCache maps) = [] /\
  member_text_of name (om_completion maps) = [] /\ member_text_of name (om_image maps) = [] /\
  member_text_of name (om_audio maps) = [] /\ member_text_of name (om_audioCompletion maps) = [] /\
  is_tiered name (om_billingMode maps) = false.
Proof.
  intros Hm. assert (Hnot : forall o : list (jsstr * jsval),
    incl (map fst o) (map fst (om_plugins maps) ++ map fst (om_price maps) ++ map fst (om_ratio maps)
          ++ map fst (om_original maps) ++ map fst (om_cache maps) ++ map fst (om_createCache maps)
          ++ map fst (om_completion maps) ++ map fst (om_image maps) ++ map fst (om_audio maps)
          ++ map fst (om_audioCompletion maps) ++ map fst (om_billingMode maps)
          ++ map fst (om_billingExpr maps)) -> assoc_get str_eqb name o = None).
  { intros o Hincl. apply assoc_get_none_keys. destruct (str_mem name (map fst o)) eqn:E; [|done].
    apply str_mem_In, Hincl in E. unfold model_names in Hm.
    destruct (set_of_spec (map fst (om_plugins maps) ++ map fst (om_price maps) ++ map fst (om_ratio maps)
          ++ map fst (om_original maps) ++ map fst (om_cache maps) ++ map fst (om_createCache maps)
          ++ map fst (om_completion maps) ++ map fst (om_image maps) ++ map fst (om_audio maps)
          ++ map fst (om_audioCompletion maps) ++ map fst (om_billingMode maps)
          ++ map fst (om_billingExpr maps))) as [_ Hs]. apply Hs, str_mem_In in E. congruence. }
  unfold member_text_of, is_tiered.
  repeat split; rewrite Hnot by (intros x Hx; rewrite !in_app_iff; tauto); by rewrite ?Hname.
Qed.

(** Rows of other models, which only provider keys can name, are never expressions. *)
Lemma other_rows plugins n : str_eqb n name && tiered_values = false ->
  exists r, model_row (single_maps plugins) n = Ok r.
Proof. intros Hn. unfold model_row. cbn [single_maps om_billingMode]. rewrite single_tiered, Hn. by eexists. Qed.

(** The row of a model without an expression. *)
Lemma pricingRow_plain : tiered_values = false ->
  pricingRow name values =
  Ok (row_data (if truthy_str (value_text values KModelPrice) then PerRequest else PerToken) [] []).
Proof.
  intros Ht. destruct single_rows as [plugins Hrows]. unfold pricingRow. rewrite Hrows.
  destruct (collect_ok (model_row (single_maps plugins)) (model_names (single_maps plugins))) as [rows Hr].
  { intros n _. apply other_rows. by rewrite Ht, andb_false_r. }
  pose proof (collect_find _ _ rows (model_row_name _) Hr) as Hf. rewrite Hr.
  destruct (str_mem name (model_names (single_maps plugins))) eqn:Hm.
  - destruct Hf as (r & Hrow & ->). f_equal. unfold model_row in Hrow. cbn [single_maps om_price om_ratio om_original
      om_cache om_createCache om_completion om_image om_audio om_audioCompletion om_billingMode om_billingExpr om_plugins] in Hrow.
    rewrite single_tiered, Ht, andb_false_r in Hrow. injection Hrow as <-. unfold row_data, row_mode.
    cbn [sn_price sn_ratio sn_originalInputPrice sn_originalOutputPrice sn_originalCacheReadPrice
      sn_originalCacheWritePrice sn_cacheRatio sn_createCacheRatio sn_completionRatio sn_imageRatio sn_audioRatio
      sn_audioCompletionRatio sn_billingMode sn_billingExpr sn_requestRuleExpr]. rewrite !single_text.
    by destruct (truthy_str (value_text values KModelPrice)).
  - rewrite Hf. f_equal. destruct (row_absent (single_maps plugins) Hm) as (E1 & E2 & E3 & E4 & E5 & E6 & E7 & E8 & _).
    cbn [single_maps om_price om_ratio om_cache om_createCache om_completion om_image om_audio om_audioCompletion] in *.
    rewrite !single_text in *. unfold row_data. by rewrite E1, E2, E3, E4, E5, E6, E7, E8.
Qed.

(** The row of a model priced by an expression. *)
Lemma pricingRow_tiered expr base rules : tiered_values = true ->
  value_at values KBillingExpr = Some (SStr expr) -> splitBillingExprAndRequestRules expr = Ok (base, rules) ->
  pricingRow name values = Ok (row_data TieredExpr base rules).
Proof.
  intros Ht He Hs. destruct single_rows as [plugins Hrows]. unfold pricingRow. rewrite Hrows.
  assert (Hexpr : expression_of name (single_map name values KBillingExpr) = Ok expr).
  { unfold expression_of, single_map. rewrite He. cbn [assoc_get]. by rewrite str_eqb_refl. }
  assert (Hrow : exists r, model_row (single_maps plugins) name = Ok r /\
    sn_billingMode r = js "tiered_expr" /\ sn_billingExpr r = base /\ sn_requestRuleExpr r = rules /\
    sn_price r = value_text values KModelPrice /\ sn_ratio r = value_text values KModelRatio /\
    sn_originalInputPrice r = [] /\ sn_originalOutputPrice r = [] /\ sn_originalCacheReadPrice r = [] /\
    sn_originalCacheWritePrice r = [] /\ sn_cacheRatio r = value_text values KCacheRatio /\
    sn_createCacheRatio r = value_text values KCreateCacheRatio /\
    sn_completionRatio r = value_text values KCompletionRatio /\ sn_imageRatio r = value_text values KImageRatio /\
    sn_audioRatio r = value_text values KAudioRatio /\
    sn_audioCompletionRatio r = value_text values KAudioCompletionRatio).
  { unfold model_row. cbn [single_maps om_price om_ratio om_original om_cache om_createCache om_completion om_image
      om_audio om_audioCompletion om_billingMode om_billingExpr om_plugins].
    rewrite single_tiered, Ht, str_eqb_refl. cbn [andb]. rewrite Hexpr, Hs. cbn [evaluate]. rewrite !single_text.
    eexists. split; [reflexivity|]. repeat split. }
  destruct Hrow as (r & Hrow & F1 & F2 & F3 & F4 & F5 & F6 & F7 & F8 & F9 & F10 & F11 & F12 & F13 & F14 & F15).
  destruct (collect_ok (model_row (single_maps plugins)) (model_names (single_maps plugins))) as [rows Hr].
  { intros n _. destruct (str_eqb n name) eqn:E; [apply str_eqb_eq in E as ->; eauto|].
    apply other_rows. by rewrite E. }
  pose proof (collect_find _ _ rows (model_row_name _) Hr) as Hf. rewrite Hr.
  destruct (str_mem name (model_names (single_maps plugins))) eqn:Hm.
  - destruct Hf as (r' & Hrow' & ->). rewrite Hrow in Hrow'. injection Hrow' as <-. f_equal.
    unfold row_data, row_mode. rewrite F1, F2, F3, F4, F5, F6, F7, F8, F9, F10, F11, F12, F13, F14, F15.
    by rewrite str_eqb_refl.
  - destruct (row_absent (single_maps plugins) Hm) as (_ & _ & _ & _ & _ & _ & _ & _ & Hno).
    cbn [single_maps om_billingMode] in Hno. by rewrite single_tiered, Ht, str_eqb_refl in Hno.
Qed.

(** An expression that cannot be split stops the row. *)
Lemma row_split_fails expr e data : tiered_values = true ->
  value_at values KBillingExpr = Some (SStr expr) -> splitBillingExprAndRequestRules expr = Err e ->
  pricingRow name values <> Ok data.
Proof.
  intros Ht He Hs Hrow. destruct single_rows as [plugins Hrows]. unfold pricingRow in Hrow. rewrite Hrows in Hrow.
  destruct (collect_results _ _) as [rows|] eqn:Hr; [|done].
  pose proof (collect_find _ _ rows (model_row_name _) Hr) as Hf.
  destruct (str_mem name (model_names (single_maps plugins))) eqn:Hm.
  - destruct Hf as (r & Hrow' & _). unfold model_row in Hrow'. cbn [single_maps om_billingMode om_billingExpr] in Hrow'.
    rewrite single_tiered, Ht, str_eqb_refl in Hrow'. cbn [andb] in Hrow'.
    replace (expression_of name (single_map name values KBillingExpr)) with (Ok (E := pricing_error) expr) in Hrow'.
    + by rewrite Hs in Hrow'.
    + unfold expression_of, single_map. rewrite He. cbn [assoc_get]. by rewrite str_eqb_refl.
  - destruct (row_absent (single_maps plugins) Hm) as (_ & _ & _ & _ & _ & _ & _ & _ & Hno).
    cbn [single_maps om_billingMode] in Hno. by rewrite single_tiered, Ht, str_eqb_refl in Hno.
Qed.
End row.

(** ** Saving and opening again *)

Lemma draft_fields_accept data fields : forallb (fun fk => price_text_ok (fk.1 data)) fields = true ->
  forall values, exists values', draft_fields data fields values = Ok values'.
Proof.
  induction fields as [|[f key] fields IH]; intros Hf values; cbn [draft_fields]; [by eexists|].
  cbn [forallb fst] in Hf. apply andb_true_iff in Hf as [H1 Hf]. unfold draft_field. cbn [fst snd].
  unfold price_text_ok in H1. destruct (truthy_str (f data)); cbn [negb orb] in *; [|by apply IH].
  apply andb_true_iff in H1 as [-> Hn%negb_true_iff]. rewrite Hn. cbn [negb orb].
  destruct (field_counts data key); by apply IH.
Qed.

(** A draft is accepted exactly when every price text is empty or a number that is
    finite and not negative. *)
Lemma draft_accepted data :
  (exists values, pricingFromDraft data = Ok values) <-> forall key, price_text_ok (draft_text data key) = true.
Proof.
  split.
  - intros [values Hv]. by apply draft_values in Hv as (_ & _ & H & _).
  - intros Hok. unfold pricingFromDraft. edestruct (draft_fields_accept data pricingFieldMap) as [v ->]; [|by eexists].
    cbn [pricingFieldMap forallb fst]. repeat (apply andb_true_iff; split); try done.
    all: first [apply (Hok KModelPrice)|apply (Hok KModelRatio)|apply (Hok KCompletionRatio)|apply (Hok KCacheRatio)
      |apply (Hok KCreateCacheRatio)|apply (Hok KImageRatio)|apply (Hok KAudioRatio)|apply (Hok KAudioCompletionRatio)].
Qed.

Lemma string_of_number_truthy x : valid_num x = true -> is_finite x = true -> truthy_str (string_of_number x) = true.
Proof. intros Hv Hf. by destruct (number_text_head x Hv Hf) as (c & t & -> & _). Qed.

(** The number of a price text, printed and read again. *)
Lemma reprinted text : truthy_str text = true -> price_text_ok text = true ->
  let x := number_of_string text in
  truthy_str (string_of_number x) = true /\ number_of_string (string_of_number x) = settle_num x /\
  price_text_ok (string_of_number x) = true.
Proof.
  intros Ht Hok x. unfold price_text_ok in Hok. rewrite Ht in Hok. cbn [negb orb] in Hok.
  apply andb_true_iff in Hok as [Hf Hn]. fold x in Hf, Hn. pose proof (number_of_string_valid text) as Hv. fold x in Hv.
  assert (Hr : number_of_string (string_of_number x) = settle_num x) by (by apply number_round_trip).
  split; [by apply string_of_number_truthy|]. split; [done|]. unfold price_text_ok. rewrite Hr.
  apply orb_true_iff. right. unfold settle_num. destruct (is_neg_zero x); [done|]. by rewrite Hf, Hn.
Qed.

(** The keys with a price. *)
Definition price_key (key : pricing_key) : bool :=
  negb (existsb (pkey_eqb key) [KBillingMode; KBillingExpr; KPluginBillingExpr]).

Lemma row_text name values mode expr rules key :
  draft_text (row_data name values mode expr rules) key = if price_key key then value_text values key else [].
Proof. by destruct key. Qed.

Section reopen.
Context `{Host} {Proto : Prototype}.
Variables (data : ratio_data) (values : pricing_values).
Hypothesis Hdraft : pricingFromDraft data = Ok values.

Lemma draft_price_value key : price_key key = true ->
  value_at values key =
  if truthy_str (draft_text data key) && field_counts data key
  then Some (SNum (number_of_string (draft_text data key))) else None.
Proof.
  intros Hk. destruct (draft_values data values Hdraft) as (_ & HV & _). rewrite HV by (by destruct key).
  by destruct key.
Qed.

Lemma draft_price_text key : price_key key = true ->
  value_text values key =
  if truthy_str (draft_text data key) && field_counts data key
  then string_of_number (number_of_string (draft_text data key)) else [].
Proof.
  intros Hk. unfold value_text. rewrite draft_price_value by done.
  by destruct (truthy_str (draft_text data key) && field_counts data key).
Qed.

(** The texts of the row are accepted. *)
Lemma reopened_accepted mode expr rules key :
  price_text_ok (draft_text (row_data (rd_name data) values mode expr rules) key) = true.
Proof.
  destruct (draft_values data values Hdraft) as (_ & _ & HC & _).
  rewrite row_text. destruct (price_key key) eqn:Hk; [|done]. rewrite draft_price_text by done.
  destruct (truthy_str (draft_text data key)) eqn:Ht; [|done]. destruct (field_counts data key); [|done].
  by apply (reprinted _ Ht (HC key)).
Qed.

(** The mode of the row, and that each price counts in it as it did in the draft. *)
Lemma reopened_counts mode expr rules key : price_key key = true ->
  mode = (if is_tiered_draft data then TieredExpr
          else if truthy_str (value_text values KModelPrice) then PerRequest else PerToken) ->
  let data' := row_data (rd_name data) values mode expr rules in
  truthy_str (draft_text data' key) && field_counts data' key =
  truthy_str (draft_text data key) && field_counts data key.
Proof.
  intros Hk Hmode. cbv zeta. rewrite row_text, Hk. rewrite draft_price_text by done.
  destruct (draft_values data values Hdraft) as (_ & _ & HC & _).
  destruct (truthy_str (draft_text data key)) eqn:Ht; [|done]. cbn [andb].
  destruct (field_counts data key) eqn:Hc; [|done].
  destruct (reprinted _ Ht (HC key)) as (-> & _). cbn [andb].
  rewrite draft_price_text in Hmode by done. unfold field_counts, is_tiered_draft in *. cbn [row_data rd_billingMode].
  destruct (bool_decide (rd_billingMode data = Some TieredExpr)) eqn:Hti.
  { rewrite Hmode. done. }
  cbn [orb] in Hc. destruct (bool_decide (rd_billingMode data = Some PerRequest)) eqn:Hre.
  - apply pkey_eqb_eq in Hc as ->. cbn [draft_text] in *. rewrite Ht in Hmode. change (pkey_eqb KModelPrice KModelPrice) with true in Hmode. cbn [andb orb] in Hmode. cbv iota in Hmode.
    destruct (reprinted _ Ht (HC KModelPrice)) as (Hr & _). cbn [draft_text] in Hr. rewrite Hr in Hmode. by rewrite Hmode.
  - change (pkey_eqb KModelPrice KModelPrice) with true in Hmode. cbn [andb orb negb] in Hmode. cbv iota in Hmode.
    rewrite andb_false_r in Hmode. cbn [truthy_str] in Hmode. cbv iota in Hmode.
    rewrite Hmode. cbn. done.
Qed.
End reopen.

(** A saved draft is found again, of the same kind and standing for the same values; with
    an expression the row shows the parts the stored expression splits into. *)
Lemma draft_row `{Host} {Proto : Prototype} data values base rules :
  pricingFromDraft data = Ok values -> inherited_text (rd_name data) = None ->
  (is_tiered_draft data = true -> splitBillingExprAndRequestRules
     (combineBillingExpr (rd_billingExpr data) (rd_requestRuleExpr data)) = Ok (base, rules)) ->
  exists data' values',
    pricingRow (rd_name data) values = Ok data' /\ pricingFromDraft data' = Ok values' /\
    rd_name data' = rd_name data /\ pv_plugins values' = pv_plugins values /\
    is_tiered_draft data' = is_tiered_draft data /\
    (forall key, key <> KBillingExpr -> key <> KPluginBillingExpr ->
       value_at values' key = settle <$> value_at values key) /\
    (rd_billingExpr data', rd_requestRuleExpr data')
      = if is_tiered_draft data then (base, rules) else ([], []).
Proof.
  intros Hd Hn Hsplit. destruct (draft_values data values Hd) as (HP & HV & HC & Hok).
  assert (Hmode : value_at values KBillingMode =
    Some (SStr (if is_tiered_draft data then js "tiered_expr" else js "ratio"))) by (by apply HV).
  assert (exists mode expr rules', pricingRow (rd_name data) values = Ok (row_data (rd_name data) values mode expr rules') /\
    mode = (if is_tiered_draft data then TieredExpr
            else if truthy_str (value_text values KModelPrice) then PerRequest else PerToken) /\
    (expr, rules') = if is_tiered_draft data then (base, rules) else ([], []))
    as (mode & expr & rules' & Hrow & Hm & Hs).
  { destruct (is_tiered_draft data) eqn:Ht.
    - exists TieredExpr, base, rules. split; [|done].
      eapply pricingRow_tiered; [done|done| | |by apply Hsplit].
      + unfold tiered_values. by rewrite Hmode.
      + rewrite HV by done. cbn [draft_value]. by rewrite Ht.
    - eexists _, [], []. split; [|split; [reflexivity|done]]. apply pricingRow_plain; [done|done|].
      unfold tiered_values. by rewrite Hmode. }
  set (data' := row_data (rd_name data) values mode expr rules') in *.
  assert (Ht' : is_tiered_draft data' = is_tiered_draft data).
  { unfold is_tiered_draft at 1. cbn [data' row_data rd_billingMode]. rewrite Hm.
    destruct (is_tiered_draft data); [done|]. by destruct (truthy_str _). }
  destruct (proj2 (draft_accepted data')) as [values' Hd']; [by apply reopened_accepted|].
  destruct (draft_values data' values' Hd') as (HP' & HV' & _ & _).
  exists data', values'. split; [done|]. split; [done|]. split; [done|]. split; [by rewrite HP'|].
  split; [done|]. split; [|done]. intros key Hk1 Hk2. rewrite HV', HV by done.
  destruct (decide (key = KBillingMode)) as [->|Hk3]; [cbn [draft_value]; by rewrite Ht'|].
  assert (Hk : price_key key = true) by (by destruct key).
  assert (Hval : forall d, draft_value d key = if truthy_str (draft_text d key) && field_counts d key
    then Some (SNum (number_of_string (draft_text d key))) else None) by (intros d; by destruct key).
  pose proof (reopened_counts data values Hd mode expr rules' key Hk Hm) as Hcnt. fold data' in Hcnt. cbv zeta in Hcnt.
  rewrite !Hval, Hcnt.
  destruct (truthy_str (draft_text data key) && field_counts data key) eqn:E; [|done].
  apply andb_true_iff in E as [Ht Hc]. cbn. do 2 f_equal. unfold data'.
  rewrite row_text, Hk, (draft_price_text data values Hd key Hk), Ht, Hc. cbn [andb].
  by apply (reprinted _ Ht (HC key)).
Qed.

(** C2: a saved draft opens as the same draft.  The row of the values a draft was saved
    with is found, is of the same kind, and, saved again, is accepted and stands for the
    same values, prices, expression and provider expressions alike: each price prints and
    reads back exactly (minus zero as zero), the fields that do not count in the mode stay
    out, and an expression draft shows its base and its request rules, trimmed.  The name
    must not be one that every object inherits, and the rules of an expression draft not
    run into its base: there are none, and the base has no rule among its factors, or
    the two are combinable. *)
Theorem draft_reopened `{Host} {Proto : Prototype} data values :
  pricingFromDraft data = Ok values -> inherited_text (rd_name data) = None ->
  (is_tiered_draft data = true -> separable (trim (rd_billingExpr data)) (trim (rd_requestRuleExpr data))) ->
  exists data' values',
    pricingRow (rd_name data) values = Ok data' /\ pricingFromDraft data' = Ok values' /\
    rd_name data' = rd_name data /\ is_tiered_draft data' = is_tiered_draft data /\
    (rd_billingExpr data', rd_requestRuleExpr data')
      = (if is_tiered_draft data then (trim (rd_billingExpr data), trim (rd_requestRuleExpr data)) else ([], [])) /\
    pv_plugins values' = pv_plugins values /\
    (forall key, key <> KPluginBillingExpr -> value_at values' key = settle <$> value_at values key).
Proof.
  intros Hd Hn Hsep.
  destruct (draft_row data values (trim (rd_billingExpr data)) (trim (rd_requestRuleExpr data)) Hd Hn)
    as (data' & values' & Hrow & Hd' & Hname & Hpl & Ht & Hval & Hparts).
  { intros Ht. by apply separable_split, Hsep. }
  exists data', values'. split_and!; try done. intros key Hk.
  destruct (decide (key = KBillingExpr)) as [->|Hne]; [|by apply Hval].
  destruct (draft_values data values Hd) as (_ & HV & _). destruct (draft_values data' values' Hd') as (_ & HV' & _).
  rewrite HV, HV' by done. cbn [draft_value]. rewrite Ht. destruct (is_tiered_draft data); [|done].
  injection Hparts as -> ->. cbn. do 2 f_equal. unfold combineBillingExpr. by rewrite !trim_idem.
Qed.

(** [Object.prototype] of the language. *)
Definition object_prototype : Prototype := {| inherited_text name :=
  if str_mem name (map js ["constructor"; "hasOwnProperty"; "isPrototypeOf"; "propertyIsEnumerable";
       "toLocaleString"; "toString"; "valueOf"; "__defineGetter__"; "__defineSetter__"; "__lookupGetter__";
       "__lookupSetter__"]%string)
  then Some (js "function () { [native code] }")
  else if str_eqb name (js "__proto__") then Some (js "[object Object]") else None |}.

Definition reopen_draft : ratio_data :=
  RatioData None (js "gpt-4") [] (js " 0.10") [] [] [] [] (js "1e-1") [] (js "4.0") [] [] [] (Some PerToken) [] [].

Definition expression_draft : ratio_data :=
  RatioData None (js "example") [] (js "1") [] [] [] [] [] [] [] [] [] [] (Some TieredExpr)
    (jq " len <= 200000 ? tier('short', p * 2 + cr * 0.2 + cc * 2.5) : tier('long', p * 4)")
    (jq "(hour('UTC') >= 9 ? 2 : 1)").

Lemma expression_draft_separable :
  separable (H := plain_host) (trim (rd_billingExpr expression_draft)) (trim (rd_requestRuleExpr expression_draft)).
Proof.
  left. split.
  - vm_compute. discriminate.
  - vm_compute. reflexivity.
  - vm_compute. discriminate.
  - vm_compute. reflexivity.
  - vm_compute. reflexivity.
  - vm_compute. reflexivity.
  - vm_compute. reflexivity.
  - vm_compute. reflexivity.
  - eexists _, _. vm_compute. reflexivity.
  - vm_compute. discriminate.
  - vm_compute. reflexivity.
  - replace (splitTopLevelMultiply _) with [jq "(hour('UTC') >= 9 ? 2 : 1)"] by (vm_compute; reflexivity).
    repeat constructor; vm_compute; reflexivity.
Qed.

(** A draft billed per token, and one with an expression and a request rule. *)
Lemma draft_reopened_witness :
  (exists data', pricingRow (H := plain_host) (Proto := object_prototype) (js "gpt-4")
      (PricingValues [(KBillingMode, SStr (js "ratio")); (KModelRatio, SNum (n_of_decimal 1 (-1)));
                      (KCompletionRatio, SNum (n_of_Z 4)); (KCacheRatio, SNum (n_of_decimal 1 (-1)))] None) = Ok data' /\
    rd_ratio data' = js "0.1" /\ rd_completionRatio data' = js "4") /\
  match pricingFromDraft expression_draft with
  | Ok values => exists data' values',
      pricingRow (H := plain_host) (Proto := object_prototype) (js "example") values = Ok data' /\
      rd_ratio data' = js "1" /\
      rd_billingExpr data' = trim (rd_billingExpr expression_draft) /\
      rd_requestRuleExpr data' = rd_requestRuleExpr expression_draft /\
      pricingFromDraft data' = Ok values' /\
      value_at values' KBillingExpr = value_at values KBillingExpr
  | Err _ => False
  end.
Proof.
  split.
  - destruct (pricingFromDraft reopen_draft) as [values|] eqn:Hd; [|vm_compute in Hd; discriminate Hd].
    destruct (draft_reopened (H := plain_host) (Proto := object_prototype) reopen_draft values Hd)
      as (data' & values' & Hrow & _); [vm_compute; reflexivity|intros Ht; vm_compute in Ht; discriminate Ht|].
    vm_compute in Hd. injection Hd as <-. exists data'. split; [exact Hrow|].
    vm_compute in Hrow. injection Hrow as <-. split; vm_compute; reflexivity.
  - destruct (pricingFromDraft expression_draft) as [values|] eqn:Hd; [|vm_compute in Hd; discriminate Hd].
    destruct (draft_reopened (H := plain_host) (Proto := object_prototype) expression_draft values Hd)
      as (data' & values' & Hrow & Hd' & _ & _ & Hparts & _ & Hval);
      [vm_compute; reflexivity|intros _; exact expression_draft_separable|].
    exists data', values'. split; [exact Hrow|]. split.
    + vm_compute in Hd. injection Hd as <-. vm_compute in Hrow. injection Hrow as <-. reflexivity.
    + change (is_tiered_draft expression_draft) with true in Hparts. cbv iota in Hparts.
      split; [exact (f_equal fst Hparts)|]. split; [exact (f_equal snd Hparts)|]. split; [exact Hd'|].
      rewrite Hval by discriminate. vm_compute in Hd. injection Hd as <-. reflexivity.
Defined.

(** A name every object inherits is not a model that can be edited: its row shows the
    inherited member as a price, and the draft is refused. *)
Lemma inherited_name_refused :
  match pricingRow (H := plain_host) (Proto := object_prototype) (js "constructor")
          (PricingValues [(KBillingMode, SStr (js "ratio")); (KModelRatio, SNum (n_of_Z 1))] None) with
  | Ok data => pricingFromDraft data = Err InvalidPrice
  | Err _ => False
  end.
Proof. vm_compute. reflexivity. Qed.
