(* ===== verification/PricingSyncSpec.v ===== *)
(** * Prices taken over from upstream are stored literally

    [applyPriceSyncSelections] writes the selected upstream price of each model and leaves
    the other models, and the provider expressions of all models, as they were. *)

From Stdlib Require Import SpecFloat.
From S2P Require Import Prelude JsString JsNumber JsPrintSpec JsRegex JsValue JsJson ExprTypes ExprCompile ExprDisplay BillingExpr TaskExpr Currency PricingModel PricingFormat PricingSnapshots PricingDraft PricingDraftSpec PricingRowSpec.

(** The upstream field of a price. *)
Definition field_name (key : pricing_key) : jsstr :=
  match key with
  | KModelPrice => js "model_price"
  | KModelRatio => js "model_ratio"
  | KCompletionRatio => js "completion_ratio"
  | KCacheRatio => js "cache_ratio"
  | KCreateCacheRatio => js "create_cache_ratio"
  | KImageRatio => js "image_ratio"
  | KAudioRatio => js "audio_ratio"
  | KAudioCompletionRatio => js "audio_completion_ratio"
  | KBillingMode => js "billing_mode"
  | KBillingExpr => js "billing_expr"
  | KPluginBillingExpr => []
  end.

Definition PRICE_KEYS : list pricing_key := List.filter price_key PRICING_KEYS.

(** The fields of [PricingSyncValues]. *)
Definition known_field (f : jsstr) : bool :=
  str_mem f (map field_name (PRICE_KEYS ++ [KBillingMode; KBillingExpr])).

Section sync_spec.
Context `{Host} {Proto : Prototype} {Upper : UpperCase}.

Abbreviation sync_fields := (list (jsstr * scalar)).

(** A quote: each field once, numbers finite. *)
Definition fields_ok (fields : sync_fields) : bool :=
  object_ok fields && forallb (fun f => known_field f.1 && scalar_ok f.2) fields.

Lemma known_field_key f : known_field f = true ->
  exists key, f = field_name key /\ key <> KPluginBillingExpr /\
    sync_key f = if price_key key then Some key else sync_key f.
Proof.
  intros Hf. apply str_mem_In in Hf. cbv [PRICE_KEYS List.filter PRICING_KEYS price_key negb existsb pkey_eqb bool_decide
    map app] in Hf. cbn in Hf.
  repeat (destruct Hf as [<-|Hf]; [first
    [by exists KModelPrice|by exists KModelRatio|by exists KCompletionRatio|by exists KCacheRatio
    |by exists KCreateCacheRatio|by exists KImageRatio|by exists KAudioRatio|by exists KAudioCompletionRatio
    |by exists KBillingMode|by exists KBillingExpr]|]). done.
Qed.

Lemma field_name_inj a b : a <> KPluginBillingExpr -> b <> KPluginBillingExpr -> field_name a = field_name b -> a = b.
Proof. intros Ha Hb. by destruct a, b. Qed.

(** What the fields of a quote set. *)
Definition quoted (fixed : bool) (fields : sync_fields) (key : pricing_key) : option scalar :=
  if price_key key && (negb fixed || pkey_eqb key KModelPrice) then assoc_get str_eqb (field_name key) fields
  else None.

Lemma sync_fold fixed (fields : sync_fields) : fields_ok fields = true -> forall values,
  pv_plugins (fold_left (sync_field fixed) fields values) = pv_plugins values /\
  forall key, key <> KPluginBillingExpr ->
    value_at (fold_left (sync_field fixed) fields values) key =
    match quoted fixed fields key with Some s => Some s | None => value_at values key end.
Proof.
  induction fields as [|[f s] fields IH]; intros Hf values.
  { split; [done|]. intros key _. unfold quoted. by destruct (price_key key && _). }
  unfold fields_ok in Hf. apply andb_true_iff in Hf as [Ho Hf]. cbn [forallb fst snd] in Hf.
  apply andb_true_iff in Hf as [[Hk Hs]%andb_true_iff Hf].
  apply enumerated_fresh in Ho as [Hfresh Ho]. cbn [fold_left].
  destruct (IH ltac:(unfold fields_ok; by rewrite Ho, Hf) (sync_field fixed values (f, s))) as [IH1 IH2].
  destruct (known_field_key f Hk) as (k0 & -> & Hk0 & Hsk).
  assert (Hstep : pv_plugins (sync_field fixed values (field_name k0, s)) = pv_plugins values /\
    forall key, value_at (sync_field fixed values (field_name k0, s)) key =
      if pkey_eqb key k0 && price_key k0 && (negb fixed || pkey_eqb k0 KModelPrice) then Some s else value_at values key).
  { unfold sync_field. cbn [fst snd]. destruct (price_key k0) eqn:Hp.
    - rewrite Hsk. assert (str_eqb (field_name k0) (js "billing_mode") || str_eqb (field_name k0) (js "billing_expr") = false)
        as -> by (by destruct k0).
      assert (str_eqb (field_name k0) (js "model_price") = pkey_eqb k0 KModelPrice) as -> by (by destruct k0).
      destruct (fixed && negb (pkey_eqb k0 KModelPrice)) eqn:E.
      + split; [done|]. intros key. apply andb_true_iff in E as [-> E%negb_true_iff]. rewrite E. cbn [negb orb].
        by rewrite andb_false_r.
      + split; [done|]. intros key. rewrite value_with. replace (negb fixed || pkey_eqb k0 KModelPrice) with true
          by (by destruct fixed, (pkey_eqb k0 KModelPrice)). by destruct (pkey_eqb key k0).
    - assert (str_eqb (field_name k0) (js "billing_mode") || str_eqb (field_name k0) (js "billing_expr") = true)
        as -> by (by destruct k0). split; [done|]. intros key. rewrite andb_false_r. done. }
  destruct Hstep as [S1 S2]. split; [congruence|]. intros key Hkey. rewrite IH2, S2 by done. unfold quoted. cbn [assoc_get].
  destruct (pkey_eqb key k0) eqn:E.
  - apply pkey_eqb_eq in E as ->. rewrite str_eqb_refl, Hfresh. cbn [andb].
    by destruct (price_key k0 && (negb fixed || pkey_eqb k0 KModelPrice)).
  - replace (str_eqb (field_name key) (field_name k0)) with false; [done|]. symmetry. apply str_eqb_neq.
    intros He. apply field_name_inj in He as ->; [|done|done]. by rewrite pkey_eqb_refl in E.
Qed.

Lemma quoted_ok fixed fields key s : fields_ok fields = true -> quoted fixed fields key = Some s -> scalar_ok s = true.
Proof.
  intros [_ Hf]%andb_true_iff Hq. unfold quoted in Hq. destruct (price_key key && _); [|done].
  apply assoc_get_mem in Hq. rewrite forallb_forall in Hf. specialize (Hf _ Hq). by apply andb_true_iff in Hf as [_ ?].
Qed.

Lemma sync_values_ok fields : fields_ok fields = true ->
  values_ok (sync_values fields) /\ pv_plugins (sync_values fields) = None.
Proof.
  intros Hf. unfold sync_values. destruct (sync_expression fields) as [e|].
  { split; [|done]. intros k s. by destruct k; intros [= <-]. }
  destruct (sync_fold (assoc_mem str_eqb (js "model_price") fields) fields Hf
    (PricingValues [(KBillingMode, SStr (js "ratio"))] None)) as [H1 H2]. split; [|done].
  intros k s Hs. destruct (decide (k = KPluginBillingExpr)) as [->|Hk].
  - exfalso. clear -Hs. revert Hs. assert (Hgen : forall values, value_at values KPluginBillingExpr = None ->
      value_at (fold_left (sync_field (assoc_mem str_eqb (js "model_price") fields)) fields values) KPluginBillingExpr = None).
    { generalize (assoc_mem str_eqb (js "model_price") fields). intros fixed.
      induction fields as [|[f s0] fields IH]; intros values Hv; [done|]. cbn [fold_left]. apply IH.
      unfold sync_field. destruct (_ || _); [done|]. destruct (_ && _); [done|].
      destruct (sync_key _) as [k|] eqn:Hk; [|done]. rewrite value_with.
      destruct (pkey_eqb KPluginBillingExpr k) eqn:E; [|done]. apply pkey_eqb_eq in E as <-.
      unfold sync_key in Hk. apply find_some in Hk as [_ Hk]. by rewrite andb_false_r in Hk. }
    by rewrite Hgen.
  - rewrite H2 in Hs by done. destruct (quoted _ fields k) as [q|] eqn:Hq.
    + injection Hs as ->. by eapply quoted_ok.
    + destruct k; try done. by injection Hs as <-.
Qed.

(** The value stored for a quote. *)
Definition imported (s : scalar) : option scalar :=
  match s with
  | SNum x => Some (SNum (settle_num x))
  | SStr t => if truthy_str t then Some (settle (SNum (number_of_string t))) else None
  end.

Definition synced_value (fields : sync_fields) (key : pricing_key) : option scalar :=
  match sync_expression fields with
  | Some expr =>
      match key with
      | KBillingMode => Some (SStr (js "tiered_expr"))
      | KBillingExpr => Some (SStr expr)
      | _ => None
      end
  | None =>
      match key with
      | KBillingMode => Some (SStr (js "ratio"))
      | _ => quoted (assoc_mem str_eqb (js "model_price") fields) fields key ≫= imported
      end
  end.

(** A price that was quoted, printed as a draft and read again. *)
Lemma quoted_text values key s : value_at values key = Some s -> scalar_ok s = true ->
  (if truthy_str (value_text values key) then Some (settle (SNum (number_of_string (value_text values key)))) else None)
  = imported s.
Proof.
  intros Hv Hs. unfold value_text. rewrite Hv. destruct s as [x|t]; [|done]. cbn [scalar_ok] in Hs.
  apply andb_true_iff in Hs as [Hx Hf]. rewrite string_of_number_truthy by done. rewrite number_round_trip by done.
  cbn [imported]. by destruct x as [[]| | |].
Qed.

Lemma plain_sync_values fields : fields_ok fields = true -> sync_expression fields = None ->
  forall key, price_key key = true ->
  value_at (sync_values fields) key = quoted (assoc_mem str_eqb (js "model_price") fields) fields key.
Proof.
  intros Hf He key Hk. unfold sync_values. rewrite He.
  destruct (sync_fold (assoc_mem str_eqb (js "model_price") fields) fields Hf
    (PricingValues [(KBillingMode, SStr (js "ratio"))] None)) as [_ ->]; [|by destruct key].
  by destruct (quoted _ fields key); destruct key.
Qed.

(** In the row of a quote every price that was taken over counts. *)
Lemma quote_counts name fields expr rules key : fields_ok fields = true -> sync_expression fields = None ->
  price_key key = true ->
  let values := sync_values fields in
  let data := row_data name values
    (if truthy_str (value_text values KModelPrice) then PerRequest else PerToken) expr rules in
  truthy_str (draft_text data key) && field_counts data key = truthy_str (value_text values key).
Proof.
  intros Hf He Hk. cbv zeta. rewrite row_text, Hk.
  destruct (truthy_str (value_text (sync_values fields) key)) eqn:Ht; [|done]. cbn [andb].
  pose proof (plain_sync_values fields Hf He) as Hv.
  assert (Hno : value_text (sync_values fields) key <> [] -> key <> KModelPrice ->
    value_text (sync_values fields) KModelPrice = []).
  { intros Hne Hkm. unfold value_text in *. rewrite Hv in * by done. unfold quoted in *.
    rewrite (pkey_eqb_neq key KModelPrice Hkm), Hk in Hne. cbn [andb] in Hne.
    destruct (assoc_mem str_eqb (js "model_price") fields) eqn:Hm; cbn [negb orb] in *; [done|].
    unfold assoc_mem in Hm. cbn [price_key field_name]. change (price_key KModelPrice) with true. cbn [andb].
    by destruct (assoc_get str_eqb (js "model_price") fields). }
  unfold field_counts, is_tiered_draft. cbn [row_data rd_billingMode].
  destruct (decide (key = KModelPrice)) as [->|Hkm].
  - rewrite Ht. done.
  - rewrite Hno by (done || (intros Hx; by rewrite Hx in Ht)). cbn. by destruct key.
Qed.

(** What the validated values of a quote are. *)
Definition validates (fields : sync_fields) (validated : pricing_values) : Prop :=
  values_ok validated /\ pv_plugins validated = None /\
  forall key, key <> KPluginBillingExpr -> settle <$> value_at validated key = synced_value fields key.

Lemma validated_expression name fields e row v : fields_ok fields = true -> inherited_text name = None ->
  sync_expression fields = Some e -> pricingRow name (sync_values fields) = Ok row -> pricingFromDraft row = Ok v ->
  validates fields (with_value KBillingExpr (SStr e) v).
Proof.
  intros Hf Hn He Hrow Hd. destruct (sync_values_ok fields Hf) as [Hvok Hpl].
  destruct (draft_values row v Hd) as (HP & HV & _ & Hvv).
  assert (Hsv : sync_values fields = PricingValues [(KBillingMode, SStr (js "tiered_expr")); (KBillingExpr, SStr e)] None)
    by (unfold sync_values; by rewrite He).
  assert (exists base rules, row = row_data name (sync_values fields) TieredExpr base rules) as (base & rules & ->).
  { destruct (splitBillingExprAndRequestRules e) as [[base rules]|x] eqn:Hsp.
    - exists base, rules. rewrite (pricingRow_tiered name (sync_values fields) Hvok Hn e base rules) in Hrow;
        [by injection Hrow as <-|by rewrite Hsv|by rewrite Hsv|done].
    - exfalso. apply (row_split_fails name (sync_values fields) Hvok Hn e x row); rewrite ?Hsv; try done.
      by rewrite Hsv in Hrow. }
  split; [|split; [exact (eq_trans HP Hpl)|]].
  - intros k s. rewrite value_with. destruct (pkey_eqb k KBillingExpr); [by intros [= <-]|apply Hvv].
  - intros key Hk. unfold synced_value. rewrite He, value_with. destruct (pkey_eqb key KBillingExpr) eqn:E.
    { apply pkey_eqb_eq in E as ->. done. }
    rewrite HV by done. destruct key; try done; unfold draft_value; rewrite row_text;
      unfold value_text; rewrite Hsv; done.
Qed.

(** The price of a quote in the row's draft. *)
Lemma plain_price name fields key : fields_ok fields = true -> sync_expression fields = None -> price_key key = true ->
  let values := sync_values fields in
  settle <$> draft_value (row_data name values
    (if truthy_str (value_text values KModelPrice) then PerRequest else PerToken) [] []) key =
  synced_value fields key.
Proof.
  intros Hf He Hpk values. unfold synced_value. rewrite He.
  transitivity (settle <$> (if truthy_str (value_text values key)
    then Some (SNum (number_of_string (value_text values key))) else None)).
  - unfold values. rewrite <- (quote_counts name fields [] [] key Hf He Hpk).
    destruct key; try done; unfold draft_value; by rewrite row_text.
  - pose proof (plain_sync_values fields Hf He key Hpk) as Hq. fold values in Hq.
    replace (match key with KBillingMode => _ | _ => _ end)
      with (quoted (assoc_mem str_eqb (js "model_price") fields) fields key ≫= imported) by (by destruct key).
    rewrite <- Hq. destruct (value_at values key) as [s|] eqn:Hs'.
    + cbn [mbind option_bind]. destruct (sync_values_ok fields Hf) as [Hvok _].
      rewrite <- (quoted_text values key s Hs' ltac:(by eapply Hvok)).
      by destruct (truthy_str (value_text values key)).
    + unfold value_text. rewrite Hs'. done.
Qed.

Lemma validated_plain name fields row v : fields_ok fields = true -> inherited_text name = None ->
  sync_expression fields = None -> pricingRow name (sync_values fields) = Ok row -> pricingFromDraft row = Ok v ->
  validates fields v.
Proof.
  intros Hf Hn He Hrow Hd. destruct (sync_values_ok fields Hf) as [Hvok Hpl].
  destruct (draft_values row v Hd) as (HP & HV & _ & Hvv).
  assert (Ht : tiered_values (sync_values fields) = false).
  { unfold tiered_values, sync_values. rewrite He.
    destruct (sync_fold (assoc_mem str_eqb (js "model_price") fields) fields Hf
      (PricingValues [(KBillingMode, SStr (js "ratio"))] None)) as [_ Hx]. by rewrite !Hx by done. }
  rewrite (pricingRow_plain name (sync_values fields) Hvok Hn Ht) in Hrow. injection Hrow as <-.
  split; [done|]. split; [exact (eq_trans HP Hpl)|]. intros key Hk. rewrite HV by done.
  destruct (price_key key) eqn:Hpk; [by apply plain_price|]. unfold synced_value. rewrite He.
  destruct key; try done; unfold draft_value, is_tiered_draft; cbn [row_data rd_billingMode];
    by destruct (truthy_str (value_text (sync_values fields) KModelPrice)).
Qed.

(** One selection. *)
Lemma sync_selection_spec options name fields options' : options_ok options -> fields_ok fields = true ->
  inherited_text name = None -> sync_selection options (name, fields) = Ok options' ->
  options_ok options' /\
  (forall key n, key <> KPluginBillingExpr ->
     option_value options' key n =
     if str_eqb n name then synced_value fields key else option_value options key n) /\
  (forall p n, is_plugin_key p = true -> truthy_str (trim n) = true ->
     plugin_value options' p n = plugin_value options p n).
Proof.
  intros Hok Hf Hn Hs. unfold sync_selection in Hs.
  destruct (pricingRow name (sync_values fields)) as [row|] eqn:Hrow; [|done].
  destruct (pricingFromDraft row) as [v|] eqn:Hd; [|done].
  set (validated := match sync_expression fields with Some _ => _ | None => v end) in Hs.
  assert (validates fields validated) as (V1 & V2 & V3).
  { unfold validated. destruct (sync_expression fields) as [e|] eqn:He; [by eapply validated_expression|by eapply validated_plain]. }
  destruct (applied options validated [name] Hok) as (o' & Ha & [W1 W2 W3]).
  { split; [done|]. by rewrite V2. }
  rewrite Ha in Hs. injection Hs as <-. split; [done|]. split.
  - intros key n Hk. rewrite W2 by done. unfold str_mem. cbn [existsb]. rewrite orb_false_r, V3 by done. done.
  - intros p n Hp Hnn. by rewrite W3, V2 by done.
Qed.

(** C17: taking over upstream prices is a literal import.  When it succeeds, every model
    that was selected has exactly the quoted price: an expression is stored letter for
    letter with its mode and no ratios beside it, a fixed price alone, and otherwise each
    quoted ratio as the number it was; the models that were not selected, and the provider
    expressions of all models, are unchanged, and the options can be read again. *)
Theorem sync_literal options selections options' :
  options_ok options ->
  forallb (fun s => fields_ok s.2) selections = true ->
  Forall (fun s => inherited_text s.1 = None) selections ->
  NoDup (map fst selections) ->
  applyPriceSyncSelections options selections = Ok options' ->
  options_ok options' /\
  (forall key name, key <> KPluginBillingExpr ->
     option_value options' key name =
     match assoc_get str_eqb name selections with
     | Some fields => synced_value fields key
     | None => option_value options key name
     end) /\
  (forall plugin name, is_plugin_key plugin = true -> truthy_str (trim name) = true ->
     plugin_value options' plugin name = plugin_value options plugin name).
Proof.
  revert options. induction selections as [|[name fields] selections IH]; intros options Hok Hf Hi Hnd Hs;
    cbn [applyPriceSyncSelections] in Hs; [by injection Hs as <-|].
  destruct (sync_selection options (name, fields)) as [o1|] eqn:H1; [|done].
  cbn [forallb snd] in Hf. apply andb_true_iff in Hf as [Hf1 Hf]. inversion Hi as [|? ? Hi1 Hi']; subst.
  inversion Hnd as [|? ? Hnew Hnd']; subst. cbn [fst] in *.
  destruct (sync_selection_spec options name fields o1 Hok Hf1 Hi1 H1) as (K1 & K2 & K3).
  destruct (IH o1 K1 Hf Hi' Hnd' Hs) as (L1 & L2 & L3). split; [done|]. split.
  - intros key n Hk. rewrite L2, K2 by done. cbn [assoc_get]. destruct (str_eqb n name) eqn:E; [|done].
    apply str_eqb_eq in E as ->. rewrite assoc_get_none_keys; [done|].
    destruct (str_mem name (map fst selections)) eqn:Em; [|done]. by apply str_mem_In, list_elem_of_In in Em.
  - intros p n Hp Hn. by rewrite L3, K3.
Qed.
End sync_spec.

Definition plain_upper : UpperCase := {| upper_unicode c := [c] |}.

Definition sample_selections : list (jsstr * list (jsstr * scalar)) :=
  [(js "gpt", [(js "model_ratio", SNum (n_of_decimal 25 (-2))); (js "completion_ratio", SNum (n_of_Z 4));
               (js "billing_mode", SStr (js "ratio"))]);
   (js "new", [(js "billing_expr", SStr (js "v1: ( tier('a', p * 2) )"))])].

Lemma sync_literal_witness :
  exists options', applyPriceSyncSelections (H := plain_host) (Proto := object_prototype) (Upper := plain_upper)
      sample_options sample_selections = Ok options' /\
    option_value options' KCompletionRatio (js "gpt") = Some (SNum (n_of_Z 4)) /\
    option_value options' KBillingExpr (js "new") = Some (SStr (js "v1: ( tier('a', p * 2) )")) /\
    option_value options' KModelRatio (js "other") = option_value sample_options KModelRatio (js "other").
Proof.
  destruct (applyPriceSyncSelections (H := plain_host) (Proto := object_prototype) (Upper := plain_upper)
      sample_options sample_selections) as [options'|] eqn:Hs; [|vm_compute in Hs; discriminate Hs].
  destruct (sync_literal (H := plain_host) (Proto := object_prototype) (Upper := plain_upper)
      sample_options sample_selections options') as (_ & H2 & _).
  - intros key. destruct key; eexists; (split; [vm_compute; reflexivity|vm_compute; reflexivity]).
  - vm_compute. reflexivity.
  - repeat constructor.
  - apply (bool_decide_unpack _). vm_compute. exact I.
  - exact Hs.
  - exists options'. split; [done|]. split; [|split]; rewrite H2 by discriminate; vm_compute; reflexivity.
Defined.
