(* ===== verification/PriceSync.v ===== *)
(** * Upstream prices

    Models [system-settings/models/upstream-ratio-sync-helpers.ts], how the prices an
    upstream quotes are classified, compared and described, and
    [upstream-price-adjustment.ts], how they are converted at the site's exchange rate.

    A quote is the list of its own properties. [t], [toLocaleString] and the currency are
    parameters; a thrown error is a value of [berr]. *)

From S2P Require Import Prelude JsString JsNumber JsRegex JsValue ExprTypes ExprParser ExprCompile ExprRuntime ExprStructure ExprDisplay ExprVisual BillingExpr TierExpr Currency PricingFormat PricingSnapshots PricingDraft.

(** ** Constants *)
Definition OFFICIAL_CHANNEL_ID : Z := (-100)%Z.
Definition OFFICIAL_CHANNEL_NAME : jsstr := [23448; 26041; 20493; 29575; 39044; 35774]%N.
Definition MODELS_DEV_PRESET_ID : Z := (-101)%Z.
Definition MODELS_DEV_PRESET_NAME : jsstr := js "models.dev " ++ [20215; 26684; 39044; 35774]%N.

(** ** Quotes *)

Abbreviation quote := (list (jsstr * scalar)).

(** [values\[field\]] *)
Definition quote_get (values : quote) (field : string) : option scalar :=
  assoc_get str_eqb (js field) values.
Definition quote_number (values : quote) (field : string) : option num :=
  match quote_get values field with Some (SNum x) => Some x | _ => None end.
Definition quote_is (values : quote) (field : string) (value : string) : bool :=
  match quote_get values field with Some (SStr s) => str_eqb s (js value) | _ => false end.

(** [`${name}(${id})`] *)
Definition channel_label (name : jsstr) (id : Z) : jsstr :=
  name ++ js "(" ++ string_of_number (n_of_Z id) ++ js ")".

Definition getUpstreamDisplayName (sourceName : jsstr) (t : jsstr -> jsstr) : jsstr :=
  if str_eqb sourceName OFFICIAL_CHANNEL_NAME
     || str_eqb sourceName (channel_label OFFICIAL_CHANNEL_NAME OFFICIAL_CHANNEL_ID)
  then t (js "Official pricing preset")
  else if str_eqb sourceName MODELS_DEV_PRESET_NAME
     || str_eqb sourceName (channel_label MODELS_DEV_PRESET_NAME MODELS_DEV_PRESET_ID)
  then t (js "models.dev pricing preset")
  else sourceName.

Inductive price_kind : Type := Kexpression | Krequest | Ktoken | Kunset.

Definition getSyncPriceKind (values : option quote) : price_kind :=
  match values with
  | None => Kunset
  | Some v =>
      if quote_is v "billing_mode" "tiered_expr"
         && match sync_expression v with Some _ => true | None => false end
      then Kexpression
      else match quote_number v "model_price" with
           | Some _ => Krequest
           | None => match quote_number v "model_ratio" with Some _ => Ktoken | None => Kunset end
           end
  end.

(** One field of [sameSyncPrice]. *)
Definition same_field (left right : quote) (field : jsstr) : bool :=
  let a := assoc_get str_eqb field left in
  let b := assoc_get str_eqb field right in
  match a, b with
  | Some (SNum x), Some (SNum y) => negb (n_geb (n_abs (n_sub x y)) (n_of_decimal 1 (-9)))
  | _, _ => scalar_eqb a b
  end.

Definition sameSyncPrice (left right : quote) : bool :=
  forallb (same_field left right)
    (fold_left (fun acc k => set_add str_eqb k acc) (map fst left ++ map fst right) []).

(** ** Descriptions *)
Section describe.
Context `{Host} (t : jsstr -> jsstr) (to_locale : num -> jsstr).

Definition formatSyncPriceAmount (value : num) (currency : pricing_currency) : jsstr :=
  let formatted := formatPricingAmount (VNum value) currency in
  let amount := n_mul value (pc_exchangeRate currency) in
  if n_gtb amount n_zero && str_eqb formatted (pc_symbol currency ++ js "0")
  then pc_symbol currency ++ string_of_number amount
  else formatted.

Record price_line := PriceLine { pl_label : jsstr; pl_value : jsstr }.

(** The em dash. *)
Definition DASH : jsstr := [8212%N].

Definition priced_line (label : string) (price : num) (currency : pricing_currency) : price_line :=
  PriceLine (t (js label))
    (if truthy_str (formatPricingNumber (VNum price)) then formatSyncPriceAmount price currency else DASH).

Definition SYNC_MULTIPLIERS : list (string * string) :=
  [("completion_ratio", "Output"); ("cache_ratio", "Cache Read"); ("create_cache_ratio", "Cache write");
   ("image_ratio", "Image input"); ("audio_ratio", "Audio input");
   ("audio_completion_ratio", "Audio output")]%string.

(** The body of the loop over the multipliers. *)
Definition multiplier_line (values : quote) (input : num) (currency : pricing_currency)
  (entry : string * string) : option price_line :=
  let! ratio := quote_number values entry.1 in
  let price := n_mul input ratio in
  if String.eqb entry.1 "audio_completion_ratio" then
    match quote_number values "audio_ratio" with
    | None => Some (PriceLine (t (js entry.2)) DASH)
    | Some audio => Some (priced_line entry.2 (n_mul price audio) currency)
    end
  else Some (priced_line entry.2 price currency).

Definition getSyncPriceLines (values : quote) (currency : pricing_currency) : list price_line :=
  match getSyncPriceKind (Some values) with
  | Krequest =>
      [PriceLine (t (js "Per-request"))
         (formatSyncPriceAmount (default n_zero (quote_number values "model_price")) currency)]
  | Ktoken =>
      let input := n_mul (default n_zero (quote_number values "model_ratio")) (n_of_Z 2) in
      priced_line "Input" input currency :: omap (multiplier_line values input currency) SYNC_MULTIPLIERS
  | _ => []
  end.

(** A double-quoted text with escapes. *)
Definition quoted_re : re :=
  RSeq [RStr [34%N];
        RStar (RAlt (RCat (RStr [92%N]) (RChar (fun c => negb (existsb (N.eqb c) [10; 13; 8232; 8233]%N))))
                    (RChar (fun c => negb (N.eqb c 34 || N.eqb c 92))));
        RStr [34%N]].

(** A star, then the characters of a number. *)
Definition factor_re : re :=
  RSeq [RLit "*"; RStar (RChar is_ws); RGroup 1 (RPlus (RChar (fun c => is_digit c || existsb (N.eqb c) (js "+-.eE"))))].

(** [new RegExp(`\\b${key}\\s*\\*`).test(body)]: [before] is the character in front. *)
Fixpoint has_factor (key : jsstr) (before : option N) (body : jsstr) : bool :=
  match body with
  | [] => false
  | c :: body' =>
      (negb (match before with Some b => is_word b | None => false end)
       && match re_exec (RSeq [RStr key; RStar (RChar is_ws); RLit "*"]) body with Some _ => true | None => false end)
      || has_factor key (Some c) body'
  end.

Definition bad_factor (m : mstate) : bool :=
  let x := number_of_string (default [] (get_cap 1 m)) in negb (is_finite x) || n_ltb x n_zero.

Record tier_lines := TierLines { tl_label : jsstr; tl_condition : jsstr; tl_lines : list price_line }.

Definition condition_label (var : jsstr) : jsstr :=
  if str_eqb var (js "p") then t (js "Input tokens")
  else if str_eqb var (js "c") then t (js "Output tokens")
  else if str_eqb var (js "len") then t (js "Length")
  else js "undefined".

Definition sync_condition_text (c : tier_condition_input) : jsstr :=
  condition_label (ci_var c) ++ js " " ++ ci_op c ++ js " " ++ to_locale (number_of_value (ci_value c)).

Definition field_line (tier : visual_tier) (currency : pricing_currency) (v : billing_var) : option price_line :=
  let! field := bv_tierField v in
  Some (PriceLine (t (bv_shortLabel v)) (formatSyncPriceAmount (number_of_value (cost_of tier field)) currency)).

(** The request rules and the tiers. *)
Definition getSyncExpressionPricing (expression : jsstr) (currency : pricing_currency)
  : result berr (option (jsstr * list tier_lines)) :=
  let? (billingExpr, requestRuleExpr) := splitBillingExprAndRequestRules expression in
  match tryParseVisualConfig (Some billingExpr) with
  | None => Ok None
  | Some tiers =>
      let body := replace_all quoted_re [] billingExpr in
      if existsb bad_factor (re_all (length body) factor_re body) then Ok None
      else
        let fields := List.filter (fun v =>
          match bv_tierField v with Some _ => has_factor (bv_key v) None body | None => false end)
          BILLING_PRICING_VARS in
        Ok (Some (requestRuleExpr,
          map (fun tier =>
            TierLines (default [] (vx_label tier))
              (join (js " " ++ [8743%N] ++ js " ") (map sync_condition_text (default [] (vx_conditions tier))))
              (omap (field_line tier currency) fields)) tiers))
  end.

Definition line_text (line : price_line) : jsstr := pl_label line ++ js ": " ++ pl_value line.

Definition newline : jsstr := [10%N].

(** [a || b] on texts *)
Definition or_text (a b : jsstr) : jsstr := if truthy_str a then a else b.

Definition describe_expression (parsed : jsstr * list tier_lines) (currency : pricing_currency) : jsstr :=
  let '(rules, tiers) := parsed in
  join newline
    ([t (js "Expression pricing"); pc_label currency ++ js " / " ++ t (js "1M token")]
     ++ flat_map (fun tier =>
          (if Nat.ltb 1 (length tiers)
           then [or_text (tl_condition tier) (or_text (tl_label tier) (t (js "Default")))] else [])
          ++ map line_text (tl_lines tier)) tiers
     ++ (if truthy_str rules then [t (js "Includes request rules") ++ js ": " ++ rules] else [])).

Definition describeSyncPrice (values : quote) (currency : pricing_currency) : result berr jsstr :=
  match getSyncPriceKind (Some values) with
  | Kexpression =>
      let expression := default [] (sync_expression values) in
      let? parsed := getSyncExpressionPricing expression currency in
      match parsed with
      | Some p => Ok (describe_expression p currency)
      | None => Ok (t (js "Expression pricing") ++ newline ++ expression)
      end
  | Kunset => Ok (t (js "Unset price"))
  | kind =>
      let unit := match kind with Krequest => t (js "request") | _ => t (js "1M token") end in
      Ok (join newline ((pc_label currency ++ js " / " ++ unit)
            :: map line_text (getSyncPriceLines values currency)))
  end.
End describe.

(** ** Conversion at the exchange rate *)

Inductive price_adjustment : Type := Keep | Divide | Multiply.

(** [AdjustedSyncPrice] *)
Inductive adjusted_price : Type :=
| Adjusted (values : quote)
| NotAdjusted (error : jsstr).

Definition adjustPriceAmount (amount : num) (mode : price_adjustment) (rate : num) : option num :=
  let price := match mode with Divide => n_div amount rate | _ => n_mul amount rate end in
  if negb (is_finite amount) || n_ltb amount n_zero || negb (is_finite price) || n_ltb price n_zero
     || (n_gtb amount n_zero && n_eqb price n_zero)
  then None else Some price.

Definition OUT_OF_RANGE : jsstr := js "The adjusted price is outside the supported range.".
Definition UNSUPPORTED : jsstr :=
  js "This expression cannot be adjusted automatically. Keep the source price or edit it manually.".

(** The amount written in a tier, converted. *)
Definition adjust_text (mode : price_adjustment) (rate : num) (value : jsstr) : option jsstr :=
  let! price := adjustPriceAmount (number_of_string value) mode rate in Some (string_of_number price).

Definition adjust_entry (mode : price_adjustment) (rate : num) (entry : visual_price) : option visual_price :=
  let! value := adjust_text mode rate (vp_value entry) in
  Some (VisualPrice (vp_variable entry) value (vp_origin entry)).

(** The prices of a tier, converted in place. *)
Definition adjust_tier (mode : price_adjustment) (rate : num) (tier : visual_pricing) : option visual_pricing :=
  match tier with
  | VTier id origin label prices Urequest fixedPrice =>
      let! price := adjust_text mode rate fixedPrice in
      Some (VTier id origin label prices Urequest price)
  | VTier id origin label prices Utoken fixedPrice =>
      let! prices := collect (adjust_entry mode rate) prices in
      Some (VTier id origin label prices Utoken fixedPrice)
  | VBranch _ _ _ _ _ => Some tier
  end.

Section adjust.
Context `{Host}.

(** The text of a [tier] call with its prices converted; the error otherwise. *)
Definition adjust_leaf (mode : price_adjustment) (rate : num) (text : jsstr) : jsstr + jsstr :=
  match parseVisualBillingDocument text with
  | None => inr UNSUPPORTED
  | Some document =>
      match vd_root document with
      | VBranch _ _ _ _ _ => inr UNSUPPORTED
      | tier =>
          match adjust_tier mode rate tier with
          | None => inr OUT_OF_RANGE
          | Some tier' =>
              match serializeVisualBillingDocument
                      (VisualDocument (vd_source document) tier' (vd_imageCount document)) with
              | Serialized source => inl source
              | Issues _ => inr OUT_OF_RANGE
              end
          end
      end
  end.

(** A factor that carries no price: the image count or a request rule. *)
Definition is_factor (rules : list request_rule) (candidate : expr) : bool :=
  is_image_count candidate || existsb (fun r => expr_eqb (rule_node r) candidate) rules.

(** The loop over the stack, its top first: the patches, or the error returned. *)
Fixpoint adjust_loop (fuel : nat) (mode : price_adjustment) (rate : num) (source : jsstr)
  (rules : list request_rule) (stack : list expr) (patches : list patch)
  : result berr (list patch + jsstr) :=
  match fuel, stack with
  | _, [] => Ok (inl patches)
  | O, _ => Err OutOfFuel
  | S f, node :: stack' =>
      match node with
      | ECond condition yes no _ =>
          let? (_, calls) := expressionDependencies condition in
          if str_mem (js "tier") calls || str_mem (js "fixed") calls then Ok (inr UNSUPPORTED)
          else adjust_loop f mode rate source rules (no :: yes :: stack') patches
      | _ =>
          match node with
          | EBinary op l r _ =>
              if negb (str_eqb op (js "*")) then Ok (inr UNSUPPORTED)
              else if is_factor rules l then adjust_loop f mode rate source rules (r :: stack') patches
              else if is_factor rules r then adjust_loop f mode rate source rules (l :: stack') patches
              else Ok (inr UNSUPPORTED)
          | ECall name _ _ =>
              if negb (str_eqb name (js "tier")) then Ok (inr UNSUPPORTED)
              else
                match adjust_leaf mode rate (slice source (estart node) (eend node)) with
                | inr error => Ok (inr error)
                | inl text => adjust_loop f mode rate source rules stack' (patches ++ [(node, text)])
                end
          | _ => Ok (inr UNSUPPORTED)
          end
      end
  end.

(** One patch of the source. *)
Definition splice_patch (expression : jsstr) (p : patch) : jsstr :=
  take (estart p.1) expression ++ p.2 ++ drop (eend p.1) expression.

Definition adjust_expression (mode : price_adjustment) (rate : num) (source : jsstr)
  : result berr (jsstr + jsstr) :=
  match compile_source source with
  | NotReady _ => Ok (inr UNSUPPORTED)
  | Ready compiled =>
      let? patches :=
        adjust_loop (S (expr_size (c_ast compiled))) mode rate source (c_rules compiled) [c_ast compiled] [] in
      match patches with
      | inr error => Ok (inr error)
      | inl patches =>
          let expression := fold_left splice_patch (sort_patches patches) source in
          match compile_source expression with
          | Ready _ => Ok (inl expression)
          | NotReady _ => Ok (inr UNSUPPORTED)
          end
      end
  end.

(** The branch of prices that are not expressions. *)
Definition adjust_ratio (values : quote) (mode : price_adjustment) (rate : num) : adjusted_price :=
  let field := match quote_number values "model_price" with Some _ => "model_price"%string | None => "model_ratio"%string end in
  match quote_number values field with
  | None => NotAdjusted (js "Unset price")
  | Some amount =>
      match adjustPriceAmount amount mode rate with
      | None => NotAdjusted OUT_OF_RANGE
      | Some price => Adjusted (assoc_set str_eqb (js field) (SNum price) values)
      end
  end.

(** The part after the checks for a kept price and a missing rate. *)
Definition adjust_quote (values : quote) (mode : price_adjustment) (rate : num) : result berr adjusted_price :=
  if negb (is_finite rate) || n_leb rate n_zero
  then Ok (NotAdjusted (js "A valid site exchange rate is required."))
  else if negb (quote_is values "billing_mode" "tiered_expr") then Ok (adjust_ratio values mode rate)
  else
    match quote_get values "billing_expr" with
    | Some (SStr source) =>
        let? expression := adjust_expression mode rate source in
        match expression with
        | inl text => Ok (Adjusted (assoc_set str_eqb (js "billing_expr") (SStr text) values))
        | inr error => Ok (NotAdjusted error)
        end
    | _ => Ok (NotAdjusted (js "Unset price"))
    end.

Definition adjustSyncPrice (values : quote) (mode : price_adjustment) (rate : option num)
  : result berr adjusted_price :=
  match mode with
  | Keep => Ok (Adjusted values)
  | _ =>
      match rate with
      | None => Ok (NotAdjusted (js "A valid site exchange rate is required."))
      | Some r => adjust_quote values mode r
      end
  end.
End adjust.

(** ** Examples *)
Definition sync_source : jsstr :=
  jq "v1:(len <= 2.00e2) ? tier('a',p*(1.50) + c * .5) * image_count : (param('x') == 1 ? 2 : 1) * tier('b', p*0+c*4)".

Example adjusted_source :
  adjust_expression (H := plain_host) Multiply (n_of_Z 7) sync_source =
  Ok (inl (jq "v1:(len <= 2.00e2) ? tier('a',p*10.5 + c * 3.5) * image_count : (param('x') == 1 ? 2 : 1) * tier('b', p*0+c*28)")).
Proof. vm_compute. reflexivity. Qed.
