(* ===== verification/PriceSyncSpec.v ===== *)
(** * Properties of the conversion of upstream prices *)

From S2P Require Import Prelude JsString JsNumber JsRegex JsValue ExprTypes ExprParser ExprParserSpec ExprCompile ExprCompileSpec ExprRuntime ExprRuntimeSpec ExprStructure ExprDisplay ExprSplitSpec BillingExpr ExprVisual ExprVisualSpec ExprPatching TierExpr Currency PricingFormat PricingSnapshots PricingDraft PriceSync.

(** ** Amounts *)

(** [y] is the amount [x] converted: the rounded quotient or product, finite, not
    negative, and nothing becomes free. *)
Definition converted (mode : price_adjustment) (rate x y : num) : Prop :=
  y = match mode with Divide => n_div x rate | _ => n_mul x rate end /\
  is_finite x = true /\ is_finite y = true /\ n_ltb x n_zero = false /\ n_ltb y n_zero = false /\
  (n_gtb x n_zero = true -> n_gtb y n_zero = true).

Lemma positive_or_zero y : is_finite y = true -> n_ltb y n_zero = false -> n_eqb y n_zero = false -> n_gtb y n_zero = true.
Proof. by destruct y as [[]|[]| |[] m e]. Qed.

Lemma amount_converted x mode rate y : adjustPriceAmount x mode rate = Some y <-> converted mode rate x y.
Proof.
  unfold adjustPriceAmount, converted. set (price := match mode with Divide => _ | _ => _ end).
  destruct (negb (is_finite x)) eqn:E1; cbn [orb]; [split; [done|]; intros (_ & H & _); by rewrite H in E1|].
  destruct (n_ltb x n_zero) eqn:E2; cbn [orb]; [by split; [|intros (_ & _ & _ & H & _)]|].
  apply negb_false_iff in E1.
  destruct (negb (is_finite price)) eqn:E3; cbn [orb]; [split; [done|]; intros (-> & _ & H & _); by rewrite H in E3|].
  apply negb_false_iff in E3.
  destruct (n_ltb price n_zero) eqn:E4; cbn [orb]; [split; [done|]; intros (-> & _ & _ & _ & H & _); congruence|].
  destruct (n_gtb x n_zero && n_eqb price n_zero) eqn:E5.
  - split; [done|]. intros (-> & _ & _ & _ & _ & H). apply andb_true_iff in E5 as [Hx Hz]. specialize (H Hx).
    clear -H Hz. exfalso. by destruct price as [[]|[]| |[] m e].
  - split.
    + intros [= <-]. repeat split; try done. intros Hx. rewrite Hx in E5. by apply positive_or_zero.
    + by intros (-> & _).
Qed.

(** ** One tier *)

Definition right_operand (term : expr) : option expr :=
  match term with EBinary _ _ r _ => Some r | _ => None end.

(** The price literals of a [tier] call. *)
Definition price_literals (call : expr) : list expr :=
  match call with
  | ECall _ (_ :: body :: _) _ =>
      match fixed_literal body, body with
      | Some _, ECall _ (amount :: _) _ => [amount]
      | _, _ => omap right_operand (flattenBinary body (js "+"))
      end
  | _ => []
  end.

(** The literal [lit] of [source] is replaced by the text of its converted value, or kept
    where the conversion does not change it. *)
Definition price_replaced (mode : price_adjustment) (rate : num) (source : jsstr) (lit : expr) (text : jsstr) : Prop :=
  exists x x' y i sp, lit = ELit (LNum x) i sp /\ n_eqb x' x = true /\ converted mode rate x' y /\
    (text = string_of_number y \/ exists y', number_of_string (string_of_number y) = y' /\ n_eqb y' x = true /\ text = source_of source lit).

Section leaf.
Context `{Host} (mode : price_adjustment) (rate : num).

Lemma price_written source x i sp y value : n_eqb (number_of_string (string_of_number x)) x = true ->
  converted mode rate (number_of_string (string_of_number x)) y ->
  parseNonNegativeNumber (string_of_number y) = Some value ->
  price_replaced mode rate source (ELit (LNum x) i sp)
    (if value_is (Some value) (ELit (LNum x) i sp) then source_of source (ELit (LNum x) i sp) else string_of_number y).
Proof.
  intros Hr Hc Hp. exists x, (number_of_string (string_of_number x)), y, i, sp. split; [done|]. split; [done|]. split; [done|].
  cbn [value_is]. destruct (n_eqb value x) eqn:E; [right|by left]. exists value. split; [|done].
  unfold parseNonNegativeNumber in Hp. destruct (negb _); [done|]. destruct (_ && _); [|done]. by injection Hp.
Qed.

(** The prices of a token tier and their literals. *)
Lemma entries_written source id es : forall ps ps',
  prices_of ps es -> Forall prints_back (omap right_operand es) ->
  collect (adjust_entry mode rate) ps = Some ps' ->
  flat_map snd (map (write_price source id) ps') = [] ->
  map vp_origin ps' = map Some es /\
  exists texts, flat_map (fun w => w.1.2) (map (write_price source id) ps') =
    combine (omap right_operand es) texts /\
  Forall2 (price_replaced mode rate source) (omap right_operand es) texts.
Proof.
  induction es as [|e es IH]; intros ps ps' Hp Hb Hc Hi.
  { inversion Hp; subst. injection Hc as <-. split; [done|]. by exists []. }
  inversion Hp as [|p ? ps0 ? (v & vsp & x & i & xsp & sp & -> & ->) Hp0]; subst. cbn [collect] in Hc.
  destruct (adjust_entry mode rate _) as [p'|] eqn:Ea; [|done]. destruct (collect (adjust_entry mode rate) ps0) as [ps1|] eqn:Ec; [|done].
  injection Hc as <-. cbn [omap list_omap] in Hb |- *. inversion Hb as [|? ? Hb1 Hb2]; subst.
  cbn [map flat_map] in Hi. apply app_eq_nil in Hi as [Hi1 Hi2].
  destruct (IH ps0 ps1 Hp0 Hb2 Ec Hi2) as (Ho & texts & Ht & Hf).
  unfold adjust_entry in Ea. cbn [vp_value vp_variable vp_origin] in Ea.
  destruct (adjust_text mode rate (string_of_number x)) as [text|] eqn:Et; [|done]. injection Ea as <-.
  unfold adjust_text in Et. destruct (adjustPriceAmount _ mode rate) as [y|] eqn:Ey; [|done]. injection Et as <-.
  apply amount_converted in Ey. split; [cbn [map vp_origin]; by rewrite Ho|].
  unfold write_price in Hi1. cbn [vp_value vp_variable vp_origin is_literal] in Hi1.
  destruct (parseNonNegativeNumber (string_of_number y)) as [value|] eqn:En; [|done].
  set (lit := ELit (LNum x) i xsp) in *.
  exists ((if value_is (Some value) lit then source_of source lit else string_of_number y) :: texts). split.
  - cbn [map flat_map combine]. unfold write_price at 1. cbn [vp_value vp_variable vp_origin is_literal fst snd]. fold lit.
    by rewrite En, Ht.
  - constructor; [|exact Hf]. by apply price_written.
Qed.

Lemma combine_fst {A B} (P : A -> B -> Prop) l k : Forall2 P l k -> map fst (combine l k) = l.
Proof. induction 1; cbn [combine map]; [done|]. by f_equal. Qed.

(** The literals of the terms lie in the terms. *)
Lemma term_literals ps es o : prices_of ps es -> node_ok o -> (forall e, In e es -> In e (postorder o)) ->
  Forall2 (fun e n => within e n /\ estart n < eend n) es (omap right_operand es) /\
  Forall prints_back (omap right_operand es).
Proof.
  intros Hp Hok. induction Hp as [|p e ps es (v & vsp & x & i & xsp & sp & -> & ->) _ IH]; intros Hes; [split; constructor|].
  destruct IH as [IH1 IH2]; [intros e He; apply Hes; by right|]. cbn [omap list_omap right_operand].
  set (e := EBinary (js "*") (EVar v vsp) (ELit (LNum x) i xsp) sp) in *.
  assert (He : node_ok e) by (eapply node_ok_sub; [exact Hok|apply Hes; by left]).
  assert (Hl : node_ok (ELit (LNum x) i xsp)) by (eapply node_ok_child; [exact He|right; by left]).
  split; constructor; try done; [|by apply self_prints]. split; [apply child_within; [done|right; by left]|].
  destruct Hl as [Hl _]. by inversion Hl.
Qed.

Definition leaf_rewritten (source : jsstr) (call : expr) (text : jsstr) : Prop :=
  exists texts, Forall2 (price_replaced mode rate source) (price_literals call) texts /\
    ordered (estart call) (eend call) (price_literals call) /\
    text = patched source (estart call) (eend call) (combine (price_literals call) texts).

Lemma label_ordered name label_node body rest sp ns : let call := ECall name (label_node :: body :: rest) sp in
  node_ok call -> ordered (estart body) (eend body) ns ->
  ordered (estart call) (eend call) (label_node :: ns) /\ ordered (estart call) (eend call) ns.
Proof.
  intros call [Hs _] Hn. inversion Hs as [? _ Ho _ _]; subst. cbn [children ordered] in Ho.
  destruct Ho as (H1 & H2 & H3 & H4 & H5). pose proof (ordered_le _ _ _ H5).
  cbn [ordered]. split; [split; [done|]; split; [done|]|]; eapply ordered_widen; try exact Hn; lia.
Qed.

Lemma token_tier_rewritten source id label_node body rest sp label ps ps' text :
  let call := ECall (js "tier") (label_node :: body :: rest) sp in
  node_ok call -> eend call <= length source ->
  match label_node with ELit (LStr l) _ _ => l = label | _ => False end ->
  fixed_literal body = None -> fold_option read_price (flattenBinary body (js "+")) [] = Some ps ->
  collect (adjust_entry mode rate) ps = Some ps' ->
  write_token_tier source id (Some call) label ps' = (text, []) -> leaf_rewritten source call text.
Proof.
  intros call Hok Hend Hl Hf Hp Hc Hw. unfold write_token_tier in Hw. injection Hw as Hw Hi.
  apply app_eq_nil in Hi as [_ Hi]. apply (read_prices _ [] []) in Hp; [|constructor]. cbn [app] in Hp.
  assert (Hin : forall e, In e (flattenBinary body (js "+")) -> In e (postorder call)).
  { intros e He. eapply postorder_child; [right; left; reflexivity|]. by eapply flatten_postorder. }
  destruct (term_literals ps _ call Hp Hok Hin) as [Hin2 Hpb].
  destruct (entries_written source id _ ps ps' Hp Hpb Hc Hi) as (Ho & texts & Ht & Hr).
  assert (Hlits : price_literals call = omap right_operand (flattenBinary body (js "+"))).
  { subst call. cbn [price_literals]. by rewrite Hf. }
  assert (Hb : node_ok body) by (eapply node_ok_child; [exact Hok|right; by left]).
  destruct (label_ordered (js "tier") label_node body rest sp (price_literals call) Hok) as [Ho1 Ho2].
  { rewrite Hlits. eapply ordered_inside; [exact Hin2|]. apply flatten_ordered, Hb. }
  exists texts. rewrite Hlits in *. split; [done|]. split; [done|]. subst call. change (str_eqb (js "tier") (js "tier")) with true in Hw.
  cbv iota in Hw. rewrite Ho, same_origins_some, Ht, (label_back source label_node label Hl) in Hw. rewrite <- Hw.
  rewrite patchSource_patched; [|done|].
  - apply patched_same. by rewrite (combine_fst _ _ _ Hr).
  - cbn [map fst]. by rewrite (combine_fst _ _ _ Hr).
Qed.

Lemma fixed_tier_rewritten source id label_node body rest sp label x price text :
  let call := ECall (js "tier") (label_node :: body :: rest) sp in
  node_ok call -> eend call <= length source ->
  match label_node with ELit (LStr l) _ _ => l = label | _ => False end ->
  fixed_literal body = Some (LNum x) -> adjust_text mode rate (string_of_number x) = Some price ->
  write_fixed_tier source id (Some call) label price = (text, []) -> leaf_rewritten source call text.
Proof.
  intros call Hok Hend Hl Hf Ha Hw. unfold adjust_text in Ha.
  destruct (adjustPriceAmount _ mode rate) as [y|] eqn:Ey; [|done]. injection Ha as <-. apply amount_converted in Ey.
  unfold write_fixed_tier in Hw. destruct (parseNonNegativeNumber (string_of_number y)) as [value|] eqn:En; [|done].
  injection Hw as Hw _. subst call. change (str_eqb (js "tier") (js "tier")) with true in Hw. cbv iota in Hw.
  destruct body as [| |fname fargs fsp| | |]; try done.
  destruct fargs as [|[w i asp| | | | |] more]; try done. cbn [fixed_literal] in Hf.
  destruct (str_eqb fname (js "fixed")) eqn:Efn; [|done]. injection Hf as ->.
  set (amount := ELit (LNum x) i asp) in *. set (body := ECall fname (amount :: more) fsp) in *.
  assert (Hb : node_ok body) by (eapply node_ok_child; [exact Hok|right; by left]).
  assert (Hat : node_ok amount) by (eapply node_ok_child; [exact Hb|by left]).
  set (t := if n_eqb value x then source_of source amount else string_of_number y) in *.
  assert (Hrep : price_replaced mode rate source amount t) by (apply (price_written source x i asp y value); [exact (self_prints amount Hat)|done|done]).
  assert (Hlits : price_literals (ECall (js "tier") (label_node :: body :: rest) sp) = [amount]).
  { subst body. cbn [price_literals fixed_literal]. fold amount. by rewrite Efn. }
  assert (Hoa : ordered (estart body) (eend body) [amount]).
  { destruct Hb as [Hb _]. inversion Hb as [? _ Ho _ _]; subst. cbn [children ordered] in Ho |- *.
    destruct Ho as (H1 & H2 & H3). pose proof (ordered_le _ _ _ H3). lia. }
  assert (Hbs : estart body < eend body) by (destruct Hb as [Hb _]; by inversion Hb).
  destruct (label_ordered (js "tier") label_node body rest sp [amount] Hok Hoa) as [Ho1 Ho2].
  destruct (label_ordered (js "tier") label_node body rest sp [body] Hok) as [Ho3 Ho4]; [cbn [ordered]; lia|].
  exists [t]. rewrite Hlits. split; [by constructor|]. split; [done|]. cbn [combine]. rewrite <- Hw.
  destruct Ho4 as (Hs1 & _ & Hs2).
  rewrite (patchSource_patched source body), (label_back source label_node label Hl); [|cbn [ordered] in Hs2; lia|done].
  rewrite patchSource_patched; [|done|exact Ho3]. rewrite patched_same; [|exact Ho3].
  apply patched_nested; [done|done|exact Hs2|exact Hoa].
Qed.
End leaf.

Definition is_tier_call (e : expr) : bool := calls (js "tier") e.

(** The text of a [tier] call with exactly its price literals converted. *)
Definition tier_converted `{Host} (mode : price_adjustment) (rate : num) (source text : jsstr) : Prop :=
  exists c call texts, compile_source source = Ready c /\ In call (postorder (c_ast c)) /\ is_tier_call call = true /\
    Forall2 (price_replaced mode rate source) (price_literals call) texts /\
    ordered 0 (length source) (price_literals call) /\
    text = patched source 0 (length source) (combine (price_literals call) texts).

Section adjusted.
Context `{Host} (mode : price_adjustment) (rate : num).

Lemma tier_rewritten source call tier tier' text :
  node_ok call -> typed call -> eend call <= length source ->
  readVisualPricing call = Some tier -> match tier with VTier _ _ _ _ _ _ => True | _ => False end ->
  adjust_tier mode rate tier = Some tier' -> writeVisualPricing source tier' = (text, []) ->
  is_tier_call call = true /\ is_new_branch tier' = false /\ leaf_rewritten mode rate source call text.
Proof.
  intros Hok Hty Hend Hr Ht Ha Hw. destruct call as [| |name args sp| | |cn yes no sp]; try done; cbn [readVisualPricing] in Hr.
  2: { destruct (readVisualCondition cn); [|done]. destruct (readVisualPricing yes); [|done].
       destruct (readVisualPricing no); [|done]. by injection Hr as <-. }
  destruct args as [|label_node [|body rest]]; try done.
  { by destruct label_node as [[]| | | | |]. }
  destruct label_node as [[|label| |] li lsp| | | | |]; try done.
  destruct (str_eqb name (js "tier")) eqn:En; [|done]. cbn [negb] in Hr. split; [exact En|].
  apply str_eqb_eq in En as ->. assert (Htb : typed body) by (eapply typed_child; [exact Hty|right; by left]).
  destruct (fixed_literal body) as [v|] eqn:Ef.
  - injection Hr as <-. destruct (fixed_is_number body v Htb Ef) as [x ->]. cbn [adjust_tier string_of_literal] in Ha.
    destruct (adjust_text mode rate (string_of_number x)) as [price|] eqn:Ep; [|done]. injection Ha as <-.
    split; [done|]. by eapply fixed_tier_rewritten.
  - destruct (fold_option read_price _ []) as [ps|] eqn:Ep; [|done]. injection Hr as <-. cbn [adjust_tier] in Ha.
    destruct (collect (adjust_entry mode rate) ps) as [ps'|] eqn:Ec; [|done]. injection Ha as <-.
    split; [done|]. by eapply token_tier_rewritten.
Qed.

Lemma leaf_adjusted source text : adjust_leaf mode rate source = inl text -> tier_converted mode rate source text.
Proof.
  unfold adjust_leaf. destruct (parseVisualBillingDocument source) as [doc|] eqn:Hdoc; [|done].
  unfold parseVisualBillingDocument in Hdoc. destruct (compile_source source) as [cm|] eqn:Hc; [|done].
  assert (Hce : compile_expr source = Ok cm).
  { unfold compile_source in Hc. destruct (compile_expr source) as [c'|]; [|done]. by injection Hc as ->. }
  pose proof (compile_expr_ok source cm Hce) as [Hsrc (Hparse & _ & Hty & _)]. rewrite Hsrc in Hparse.
  pose proof (parse_ok source) as Hw. rewrite Hparse in Hw. destruct Hw as [[Hspans _] Hend].
  assert (Hok : node_ok (c_ast cm)) by (split; [done|by eapply literals_print_back]).
  set (image := imageCountPricingRoot (c_ast cm)) in *. set (pricing := default (c_ast cm) image) in *.
  assert (Hin : In pricing (postorder (c_ast cm)) /\ typed pricing).
  { subst pricing. destruct image as [q|] eqn:Ei; [|split; [apply postorder_self|exact Hty]].
    apply image_root_child in Ei. split; [by eapply postorder_child; [|apply postorder_self]|by eapply typed_child]. }
  destruct Hin as [Hin Htyp]. pose proof (node_ok_within _ _ Hok Hin) as (Hw1 & Hw2 & Hw3).
  pose proof (node_ok_sub _ _ Hok Hin) as Hokp.
  destruct (readVisualPricing pricing) as [root|] eqn:Hread; [|done].
  destruct (serializeVisualBillingDocument _) as [s0|] eqn:Hs0; [|done]. injection Hdoc as <-. clear Hs0. cbn [vd_root vd_source vd_imageCount].
  destruct root as [i o l ps u fp|]; [|done]. set (tier := VTier i o l ps u fp) in *.
  destruct (adjust_tier mode rate tier) as [tier'|] eqn:Ha; [|done].
  unfold serializeVisualBillingDocument. cbn [vd_root vd_source vd_imageCount].
  destruct (writeVisualPricing source tier') as [text0 issues] eqn:Hwr. destruct issues; [|done].
  destruct (tier_rewritten source pricing tier tier' text0 Hokp Htyp ltac:(lia) Hread I Ha Hwr) as (Hcall & Hnew & texts & Hrep & Ho & Htext).
  rewrite Hnew, andb_false_r, Hc.
  assert (Hroot : (if match image with Some _ => true | None => false end then image else Some (c_ast cm)) = Some pricing)
    by (subst pricing; by destruct image).
  fold image. rewrite Hroot. destruct (compile_source (take (estart pricing) source ++ _)); [|done]. intros Heq. injection Heq as <-.
  exists cm, pricing, texts. split; [done|]. split; [done|]. split; [done|]. split; [done|].
  split; [eapply ordered_widen; [exact Ho|lia|lia]|].
  assert (Ho' : ordered (estart pricing) (eend pricing) (map fst (combine (price_literals pricing) texts))) by (by rewrite (combine_fst _ _ _ Hrep)).
  replace (take (estart pricing) source) with (slice source 0 (estart pricing)) by (unfold slice; by rewrite Nat.sub_0_r, drop_0).
  replace (drop (eend pricing) source) with (slice source (eend pricing) (length source))
    by (unfold slice; rewrite take_ge; [done|rewrite length_drop; lia]).
  rewrite Htext, app_assoc, patched_from; [|lia|exact Ho']. apply patched_until; [lia|]. eapply ordered_widen; [exact Ho'|lia|lia].
Qed.

(** ** The leaves of an expression *)

(** A condition without prices. *)
Definition unpriced (e : expr) : Prop :=
  forall n, In n (postorder e) -> calls (js "tier") n = false /\ calls (js "fixed") n = false.

(** [tier] calls under conditionals and beside factors, from left to right. *)
Inductive priced_leaves (rules : list request_rule) : expr -> list expr -> Prop :=
| leaves_cond c yes no sp l1 l2 : unpriced c -> priced_leaves rules yes l1 -> priced_leaves rules no l2 ->
    priced_leaves rules (ECond c yes no sp) (l1 ++ l2)
| leaves_left l r sp leaves : is_factor rules l = true -> priced_leaves rules r leaves ->
    priced_leaves rules (EBinary (js "*") l r sp) leaves
| leaves_right l r sp leaves : is_factor rules l = false -> is_factor rules r = true -> priced_leaves rules l leaves ->
    priced_leaves rules (EBinary (js "*") l r sp) leaves
| leaves_tier args sp : priced_leaves rules (ECall (js "tier") args sp) [ECall (js "tier") args sp].

Lemma leaves_ordered rules e leaves : priced_leaves rules e leaves -> spans_ok e -> ordered (estart e) (eend e) leaves.
Proof.
  induction 1 as [c yes no sp l1 l2 _ _ IH1 _ IH2|l r sp leaves _ _ IH|l r sp leaves _ _ _ IH|args sp];
    intros Hs; inversion Hs as [? He Ho Hc _]; subst; cbn [children ordered] in *.
  - destruct Ho as (H1 & H2 & H3 & H4 & H5 & H6 & H7). eapply ordered_append.
    + eapply ordered_widen; [apply IH1, Hc; simpl; auto|lia|apply Nat.le_refl].
    + eapply ordered_widen; [apply IH2, Hc; simpl; auto|lia|lia].
  - destruct Ho as (H1 & H2 & H3 & H4 & H5). eapply ordered_widen; [apply IH, Hc; simpl; auto|lia|lia].
  - destruct Ho as (H1 & H2 & H3 & H4 & H5). eapply ordered_widen; [apply IH, Hc; simpl; auto|lia|lia].
  - lia.
Qed.

(** Every [tier] call is in a leaf or in a factor. *)
Lemma leaves_complete rules e leaves n : priced_leaves rules e leaves -> In n (postorder e) -> is_tier_call n = true ->
  (exists leaf, In leaf leaves /\ In n (postorder leaf)) \/
  (exists factor, is_factor rules factor = true /\ In factor (postorder e) /\ In n (postorder factor)).
Proof.
  intros Hl Hn Ht. revert Hn. induction Hl as [c yes no sp l1 l2 Hu _ IH1 _ IH2|l r sp leaves Hf _ IH|l r sp leaves _ Hf _ IH|args sp].
  4: { intros Hn. left. eexists. split; [by left|done]. }
  all: intros Hn; rewrite postorder_children, in_app_iff, in_flat_map in Hn; destruct Hn as [(x & Hx & Hn)|[<-|[]]]; [|done].
  - destruct Hx as [<-|[<-|[<-|[]]]].
    + destruct (Hu n Hn) as [Hu1 _]. unfold is_tier_call in Ht. congruence.
    + destruct (IH1 Hn) as [(leaf & H1 & H2)|(f & H1 & H2 & H3)]; [left; exists leaf; rewrite in_app_iff; auto|].
      right. exists f. split; [done|]. split; [|done]. eapply postorder_child; [right; left; reflexivity|done].
    + destruct (IH2 Hn) as [(leaf & H1 & H2)|(f & H1 & H2 & H3)]; [left; exists leaf; rewrite in_app_iff; auto|].
      right. exists f. split; [done|]. split; [|done]. eapply postorder_child; [right; right; left; reflexivity|done].
  - destruct Hx as [<-|[<-|[]]].
    + right. exists l. split; [done|]. split; [|done]. eapply postorder_child; [left; reflexivity|apply postorder_self].
    + destruct (IH Hn) as [?|(f & H1 & H2 & H3)]; [by left|]. right. exists f. split; [done|]. split; [|done].
      eapply postorder_child; [right; left; reflexivity|done].
  - destruct Hx as [<-|[<-|[]]].
    + destruct (IH Hn) as [?|(f & H1 & H2 & H3)]; [by left|]. right. exists f. split; [done|]. split; [|done].
      eapply postorder_child; [left; reflexivity|done].
    + right. exists r. split; [done|]. split; [|done]. eapply postorder_child; [right; left; reflexivity|apply postorder_self].
Qed.

(** The patches of a node: its leaves with their converted texts. *)
Definition node_patches (source : jsstr) (rules : list request_rule) (e : expr) (ps : list patch) : Prop :=
  priced_leaves rules e (map fst ps) /\
  Forall (fun p => adjust_leaf mode rate (source_of source p.1) = inl p.2) ps.

Lemma no_price_calls c fs : (forall f, In f fs <-> exists n, In n (postorder c) /\ is_call f n) ->
  str_mem (js "tier") fs || str_mem (js "fixed") fs = false -> unpriced c.
Proof.
  intros Hf [Em1 Em2]%orb_false_iff. apply not_true_iff_false in Em1, Em2. rewrite str_mem_In, Hf in Em1, Em2.
  intros n Hin. split; apply not_true_iff_false; intros Hcall; destruct n as [| |name args nsp| | |]; try done;
    cbn [calls] in Hcall; apply str_eqb_eq in Hcall as ->.
  - apply Em1. by eexists.
  - apply Em2. by eexists.
Qed.

Lemma adjust_loop_spec source rules fuel : forall stack patches,
  Forall (fun e => (height e <= 256)%Z) stack -> sizes stack <= fuel ->
  exists result, adjust_loop fuel mode rate source rules stack patches = Ok result /\
  forall ps, result = inl ps -> exists groups, Forall2 (node_patches source rules) stack groups /\
    ps = patches ++ concat (map (@rev patch) groups).
Proof.
  induction fuel as [|f IH]; intros stack patches Hh Hs; destruct stack as [|node stack].
  1, 3: eexists; split; [reflexivity|]; intros ps [= <-]; exists []; split; [constructor|by rewrite app_nil_r].
  { cbn [sizes] in Hs. rewrite expr_size_children in Hs. lia. }
  inversion Hh as [|? ? Hn Hrest]; subst. cbn [sizes] in Hs. rewrite expr_size_children in Hs.
  assert (Hsz : forall x, In x (children node) -> (height x <= 256)%Z).
  { intros x Hx. rewrite height_children in Hn. pose proof (max_height_le x _ Hx). lia. }
  (* one node of the stack replaced by one of its children with the same patches *)
  assert (Hone : forall x, In x (children node) -> (forall g, node_patches source rules x g -> node_patches source rules node g) ->
    expr_size x <= sizes (children node) -> exists result,
    adjust_loop f mode rate source rules (x :: stack) patches = Ok result /\
    forall ps, result = inl ps -> exists groups, Forall2 (node_patches source rules) (node :: stack) groups /\
      ps = patches ++ concat (map (@rev patch) groups)).
  { intros x Hx Hg Hle. destruct (IH (x :: stack) patches) as (result & Hr & Hres); [constructor; auto|cbn [sizes]; lia|].
    exists result. split; [done|]. intros ps Hps. destruct (Hres ps Hps) as (groups & HF & Heq).
    inversion HF as [|? g ? gs Hx1 HF']; subst. exists (g :: gs). split; [constructor; auto|done]. }
  cbn [adjust_loop]. destruct node as [v i sp|v sp|name args sp|op x sp|op l r sp|c yes no sp];
    try (eexists; split; [reflexivity|done]).
  - destruct (str_eqb name (js "tier")) eqn:En; cbn [negb]; [|eexists; split; [reflexivity|done]].
    apply str_eqb_eq in En as ->. set (node := ECall (js "tier") args sp) in *.
    change (slice source (estart node) (eend node)) with (source_of source node).
    destruct (adjust_leaf mode rate (source_of source node)) as [text|error] eqn:Ea; [|eexists; split; [reflexivity|done]].
    destruct (IH stack (patches ++ [(node, text)])) as (result & Hr & Hres); [done|lia|].
    exists result. split; [done|]. intros ps Hps. destruct (Hres ps Hps) as (groups & HF & ->).
    exists ([(node, text)] :: groups). split; [|cbn [map rev concat app]; by rewrite <- app_assoc].
    constructor; [|done]. split; [apply leaves_tier|]. by repeat constructor.
  - destruct (str_eqb op (js "*")) eqn:En; cbn [negb]; [|eexists; split; [reflexivity|done]].
    apply str_eqb_eq in En as ->. destruct (is_factor rules l) eqn:El.
    { apply Hone; [simpl; auto| |cbn [children sizes]; lia]. intros g [Hg1 Hg2]. split; [by apply leaves_left|done]. }
    destruct (is_factor rules r) eqn:Er; [|eexists; split; [reflexivity|done]].
    apply Hone; [simpl; auto| |cbn [children sizes]; lia]. intros g [Hg1 Hg2]. split; [by apply leaves_right|done].
  - assert (Hc : (height c <= 256)%Z) by (apply Hsz; simpl; auto).
    destruct (expressionDependencies_shallow c Hc) as (vs & fs & -> & _ & Hf). cbv iota.
    destruct (str_mem (js "tier") fs || str_mem (js "fixed") fs) eqn:Em; [eexists; split; [reflexivity|done]|].
    pose proof (no_price_calls c fs Hf Em) as Hu.
    destruct (IH (no :: yes :: stack) patches) as (result & Hr & Hres).
    { repeat constructor; [apply Hsz; simpl; auto|apply Hsz; simpl; auto|done]. }
    { cbn [children sizes] in *. lia. }
    exists result. split; [done|]. intros ps Hps. destruct (Hres ps Hps) as (groups & HF & ->).
    inversion HF as [|? gn ? gs1 [Hn1 Hn2] HF1]; subst. inversion HF1 as [|? gy ? gs [Hy1 Hy2] HF2]; subst.
    exists ((gy ++ gn) :: gs). split.
    + constructor; [|done]. split; [|by apply Forall_app]. rewrite map_app. by apply leaves_cond.
    + cbn [map concat]. by rewrite rev_app_distr, <- app_assoc.
Qed.

(** ** Expressions *)

(** [text] is [source] with the texts of its [tier] calls converted and all else kept:
    the calls are the leaves of the price tree, and no [tier] call is left out but those
    inside request rules. *)
Definition expression_converted (source text : jsstr) : Prop :=
  exists c leaves texts, compile_source source = Ready c /\ priced_leaves (c_rules c) (c_ast c) leaves /\
    Forall2 (fun leaf t => tier_converted mode rate (source_of source leaf) t) leaves texts /\
    (forall n, In n (postorder (c_ast c)) -> is_tier_call n = true ->
      (exists leaf, In leaf leaves /\ In n (postorder leaf)) \/
      (exists factor, is_factor (c_rules c) factor = true /\ In factor (postorder (c_ast c)) /\ In n (postorder factor))) /\
    text = patched source 0 (length source) (combine leaves texts) /\
    exists c', compile_source text = Ready c'.

Lemma spliced source ps : ordered 0 (length source) (map fst ps) ->
  fold_left splice_patch (rev ps) source = patched source 0 (length source) ps.
Proof.
  intros Ho. set (whole := ELit LNull false (Span 0 (length source))).
  etransitivity; [|by apply (patches_applied source whole ps)].
  change (slice source (estart whole) (eend whole)) with (slice source 0 (length source)). rewrite slice_full by done.
  assert (Hstep : forall s p, splice_patch s p = apply_patch whole s p).
  { intros s p. unfold apply_patch, splice_patch. change (estart whole) with 0. by rewrite !Nat.sub_0_r. }
  clearbody whole. clear Ho. generalize (rev ps) as l, source as s. induction l as [|p l IH]; intros s; [done|].
  cbn [fold_left]. by rewrite IH, Hstep.
Qed.

Lemma expression_adjusted source : exists result, adjust_expression mode rate source = Ok result /\
  forall text, result = inl text -> expression_converted source text.
Proof.
  unfold adjust_expression. destruct (compile_source source) as [cm|] eqn:Hc; [|by eexists].
  assert (Hce : compile_expr source = Ok cm).
  { unfold compile_source in Hc. destruct (compile_expr source) as [c'|]; [|done]. by injection Hc as ->. }
  pose proof (compile_expr_ok source cm Hce) as [Hsrc (Hparse & Hh & _)]. rewrite Hsrc in Hparse.
  pose proof (parse_ok source) as Hw. rewrite Hparse in Hw. destruct Hw as [[Hspans _] Hend].
  destruct (adjust_loop_spec source (c_rules cm) (S (expr_size (c_ast cm))) [c_ast cm] []) as (result & -> & Hres).
  { by repeat constructor. }
  { cbn [sizes]. lia. }
  cbv iota. destruct result as [patches|error]; [|by eexists]. destruct (Hres _ eq_refl) as (groups & HF & ->). clear Hres.
  clear Hsrc. inversion HF as [|? ps ? gs [Hl Ht] HF']; subst. inversion HF'; subst. cbn [map concat app]. rewrite app_nil_r.
  pose proof (leaves_ordered _ _ _ Hl Hspans) as Ho. rewrite (sort_descending _ _ _ Ho).
  assert (Ho' : ordered 0 (length source) (map fst ps)) by (eapply ordered_widen; [exact Ho|lia|lia]).
  rewrite (spliced _ _ Ho'). destruct (compile_source (patched _ _ _ ps)) as [c'|] eqn:Hc'; [|by eexists].
  eexists. split; [reflexivity|]. intros text [= <-]. exists cm, (map fst ps), (map snd ps). split; [done|]. split; [done|].
  split; [|split; [|split]].
  - clear -Ht. induction Ht as [|p ps Hp _ IH]; constructor; [by apply leaf_adjusted|done].
  - intros n. by apply leaves_complete.
  - f_equal. clear. induction ps as [|[] ps IH]; [done|]. cbn [map combine fst snd]. by rewrite <- IH.
  - by exists c'.
Qed.
End adjusted.

(** The field that carries the price of a quote without expression. *)
Definition price_field (values : quote) : string :=
  match quote_number values "model_price" with Some _ => "model_price" | None => "model_ratio" end.

(** C16: converting a quote at the site's exchange rate never fails with an exception.
    Kept prices are the quote itself. Otherwise, when it succeeds, the rate is finite and
    positive and only the price changes: the amount of a fixed price or of the ratio, or
    in an expression the price literals of its tiers, every tier that is not inside a
    request rule, the rest of the text being kept. A converted amount is the rounded
    quotient or product, is finite and not negative, and nothing becomes free; a converted
    expression compiles. *)
Theorem quote_converted `{Host} values mode rate :
  exists outcome, adjustSyncPrice values mode rate = Ok outcome /\
  (mode = Keep -> outcome = Adjusted values) /\
  forall result, outcome = Adjusted result -> mode <> Keep ->
  exists r, rate = Some r /\ is_finite r = true /\ n_gtb r n_zero = true /\
    if quote_is values "billing_mode" "tiered_expr" then
      exists source text, quote_get values "billing_expr" = Some (SStr source) /\
        expression_converted mode r source text /\
        result = assoc_set str_eqb (js "billing_expr") (SStr text) values
    else
      exists x y, quote_number values (price_field values) = Some x /\ converted mode r x y /\
        result = assoc_set str_eqb (js (price_field values)) (SNum y) values.
Proof.
  assert (Hmode : mode = Keep \/ mode <> Keep) by (destruct mode; [by left|by right|by right]).
  destruct Hmode as [->|Hk]; [by eexists|].
  assert (Hrest : adjustSyncPrice values mode rate = match rate with
    | None => Ok (NotAdjusted (js "A valid site exchange rate is required.")) | Some r => adjust_quote values mode r end)
    by (by destruct mode).
  rewrite Hrest. destruct rate as [r|]; [|by eexists]. unfold adjust_quote.
  destruct (negb (is_finite r) || n_leb r n_zero) eqn:Hr; [by eexists|].
  apply orb_false_iff in Hr as [Hf%negb_false_iff Hp].
  assert (Hpos : n_gtb r n_zero = true) by (clear -Hf Hp; by destruct r as [[]|[]| |[] m e]).
  destruct (quote_is values "billing_mode" "tiered_expr"); cbn [negb].
  - destruct (quote_get values "billing_expr") as [[x|source]|]; [by eexists| |by eexists].
    destruct (expression_adjusted mode r source) as (res & -> & Hres). cbv iota.
    destruct res as [text|error]; [|by eexists]. eexists. split; [reflexivity|]. split; [done|].
    intros result [= <-] _. exists r. do 3 (split; [done|]). exists source, text. by split; [|split; [apply Hres|]].
  - unfold adjust_ratio. fold (price_field values). destruct (quote_number values (price_field values)) as [x|]; [|by eexists].
    destruct (adjustPriceAmount x mode r) as [y|] eqn:Ea; [|by eexists]. apply amount_converted in Ea.
    eexists. split; [reflexivity|]. split; [done|]. intros result [= <-] _. exists r. do 3 (split; [done|]). by exists x, y.
Qed.

(** A [tier] call in the condition of a request rule is compared with at its old price,
    although one in the condition of a price branch is refused. *)
Example rule_condition_unconverted :
  adjust_expression (H := plain_host) Multiply (n_of_Z 7)
    (jq "(param('x') == 1 && tier('a', p * 2) > 10 ? 2 : 1) * tier('b', p * 3)") =
    Ok (inl (jq "(param('x') == 1 && tier('a', p * 2) > 10 ? 2 : 1) * tier('b', p * 21)")) /\
  adjust_expression (H := plain_host) Multiply (n_of_Z 7)
    (jq "param('x') == 1 && tier('a', p * 2) > 10 ? tier('b', p * 3) : tier('c', p * 4)") = Ok (inr UNSUPPORTED).
Proof. split; vm_compute; reflexivity. Qed.
