(* ===== verification/PluginApi.v ===== *)
(** * Task plugins: the interface and the shared helpers

    The contexts and results of [docs/plugin-api/v1.d.ts] and the operations on request
    bodies the plugins under [plugins/tasks] are written with. A request body is any
    JSON value; a hook returns a value, throws, or does what the model leaves out.

    Property names the plugins write out are not names that arrays, strings or objects
    inherit; a name computed from a request can be, and then the hook goes on with a
    function, which is left out ([Unmodelled]), as is the property [__proto__].  The laws of
    the helpers are at the end. *)

From S2P Require Import Prelude JsString JsNumber JsIntSpec JsRegex JsValue JsJson ExprTypes ExprParser ExprCompile ExprRuntime ExprDisplay ExprDisplaySpec.

Inductive plugin_error : Type :=
| Thrown (message : jsstr)
| EngineTypeError
| Unmodelled.

Abbreviation hook A := (result plugin_error A).
Definition fail {A} (message : string) : hook A := Err (Thrown (js message)).

(** ** Contexts and results *)

Record file_reference := FileReference { fr_ref : jsstr; fr_field : jsstr; fr_filename : jsstr }.

(** [DecodedBody] *)
Inductive decoded_body : Type :=
| BodyJson (value : jsval)
| BodyForm (fields : list (jsstr * list jsstr))
| BodyMultipart (fields : list (jsstr * list jsstr)) (files : list file_reference)
| BodyNone.

(** [ProtocolDecodeContext] *)
Record decode_context := DecodeContext {
  dc_path : jsstr;
  dc_body : decoded_body;
  dc_model : jsstr;
  dc_upstreamModel : option jsstr;
}.

Inductive usage_purpose : Type := ForFacts | ForBillingRatios.

(** [DriverContext]; [via_new_api] is [upstream.kind === 'new_api']. *)
Record driver_context := DriverContext {
  dx_requestBody : jsval;
  dx_action : jsstr;
  dx_model : jsstr;
  dx_upstreamModel : jsstr;
  dx_baseUrl : jsstr;
  dx_apiKey : option jsstr;
  dx_via_new_api : bool;
  dx_files : list file_reference;
  dx_usagePurpose : option usage_purpose;
  dx_taskId : jsstr;
  dx_upstreamTaskId : jsstr;
  dx_artifactKey : jsstr;
  dx_data : jsval;
  dx_method : jsstr;
}.

(** [SubmitIntent] *)
Record submit_intent := SubmitIntent {
  si_model : jsval;
  si_action : jsval;
  si_requestBody : list (jsstr * jsval);
}.

(** [RequestDescriptor] *)
Record request_descriptor := RequestDescriptor {
  rd_url : jsstr;
  rd_method : jsstr;
  rd_headers : list (jsstr * jsstr);
  rd_body : option (list (jsstr * jsval));
  rd_action : option jsval;
  rd_credentialless : bool;
}.

(** [TaskView] *)
Record task_view := TaskView {
  tv_task_id : jsstr;
  tv_status : jsstr;
  tv_progress : option jsstr;
  tv_fail_reason : option jsstr;
  tv_created_at : option num;
  tv_updated_at : option num;
  tv_data : jsval;
}.

Record task_artifact := TaskArtifact { ta_key : jsstr; ta_type : jsstr }.

(** ** Values *)

(** [a || b], [a && b] *)
Definition js_or (a b : jsval) : jsval := if truthy a then a else b.
Definition js_and (a b : jsval) : jsval := if truthy a then b else a.

(** [v.k] *)
Definition member (v : jsval) (k : string) : hook jsval :=
  match v with
  | VUndef | VNull => Err EngineTypeError
  | VObj o => Ok (default VUndef (prop_get (js k) o))
  | VArr l => Ok (if String.eqb k "length" then VNum (n_of_nat (length l)) else VUndef)
  | VStr s => Ok (if String.eqb k "length" then VNum (n_of_nat (length s)) else VUndef)
  | VBool _ | VNum _ => Ok VUndef
  end.

(** [v && v.k] *)
Definition safe_member (v : jsval) (k : string) : hook jsval := if truthy v then member v k else Ok v.

(** [v\[0\]] *)
Definition first_item (v : jsval) : hook jsval :=
  match v with
  | VUndef | VNull => Err EngineTypeError
  | VObj o => Ok (default VUndef (prop_get (js "0") o))
  | VArr l => Ok (default VUndef (head l))
  | VStr s => Ok (match s with c :: _ => VStr [c] | [] => VUndef end)
  | VBool _ | VNum _ => Ok VUndef
  end.

Definition is_array (v : jsval) : bool := match v with VArr _ => true | _ => false end.
Definition is_string (v : jsval) : bool := match v with VStr _ => true | _ => false end.
Definition is_undefined (v : jsval) : bool := match v with VUndef => true | _ => false end.

(** [String(v)], [Number(v)] *)
Definition text_of (v : jsval) : hook jsstr :=
  if converts v then Ok (string_of_value v) else Err EngineTypeError.
Definition num_of (v : jsval) : hook num :=
  if converts v then Ok (number_of_value v) else Err EngineTypeError.

(** [trimmed]: [String(value || '').trim()] *)
Definition trimmed_text (v : jsval) : hook jsstr :=
  let? s := text_of (js_or v (VStr [])) in Ok (trim s).

(** [plainObject] *)
Definition plain_object (v : jsval) : option (list (jsstr * jsval)) :=
  match v with VObj o => Some o | _ => None end.

(** The own enumerable properties of a value [Object.assign] copies. *)
Definition own_properties (v : jsval) : list (jsstr * jsval) :=
  match v with
  | VObj o => o
  | VArr l => imap (fun i x => (str_of_nat i, x)) l
  | VStr s => imap (fun i c => (str_of_nat i, VStr [c])) s
  | _ => []
  end.

(** [Object.assign(target, source)] *)
Definition assign (target source : list (jsstr * jsval)) : hook (list (jsstr * jsval)) :=
  if existsb (fun p => str_eqb p.1 (js "__proto__")) source then Err Unmodelled
  else Ok (fold_left (fun acc p => prop_set p.1 p.2 acc) source target).

(** [table\[key\]] of a table written in the plugin. *)
Definition table_get {A} (table : list (jsstr * A)) (key : jsval) : hook (option A) :=
  let? k := text_of key in
  match assoc_get str_eqb k table with
  | Some v => Ok (Some v)
  | None => if str_mem k OBJECT_MEMBERS then Err Unmodelled else Ok None
  end.

(** ** Texts *)

(** [s.slice(s.lastIndexOf('/') + 1)] *)
Fixpoint after_last_slash (s : jsstr) : jsstr :=
  match s with
  | [] => []
  | c :: s' =>
      if existsb (N.eqb 47) s' then after_last_slash s'
      else if N.eqb c 47 then s' else s
  end.

(** [s.split(c)] *)
Fixpoint split_unit (c : N) (s : jsstr) : list jsstr :=
  match s with
  | [] => [[]]
  | d :: s' =>
      if N.eqb c d then [] :: split_unit c s'
      else match split_unit c s' with p :: ps => (d :: p) :: ps | [] => [[d]] end
  end.

(** [s.replace(a, b)] with one unit [a]: its first occurrence. *)
Fixpoint replace_first (a : N) (b s : jsstr) : jsstr :=
  match s with
  | [] => []
  | c :: s' => if N.eqb a c then b ++ s' else c :: replace_first a b s'
  end.

(** [s.replace(/a/g, b)] with one unit [a]. *)
Definition replace_unit (a : N) (b s : jsstr) : jsstr := flat_map (fun c => if N.eqb a c then b else [c]) s.

(** [toUpperCase] of a text with a unit outside ASCII. *)
Class UpperText := { upper_text_unicode : jsstr -> jsstr }.
Definition to_upper {U : UpperText} (s : jsstr) : jsstr :=
  if forallb is_ascii s then map (fun c => if is_lower c then (c - 32)%N else c) s else upper_text_unicode s.

(** ** Shared hooks *)

(** [responsesInput]: one part of a message, added to the texts and images so far. *)
Definition input_part (acc : list jsstr * list jsstr) (part : jsval) : hook (list jsstr * list jsstr) :=
  match part with
  | VStr s => Ok (acc.1 ++ [s], acc.2)
  | VObj o =>
      let type := default VUndef (prop_get (js "type") o) in
      let is_type := fun names => match type with VStr s => str_mem s (map js names) | _ => false end in
      let texts :=
        match prop_get (js "text") o with
        | Some (VStr s) => if is_type ["input_text"; "text"]%string then acc.1 ++ [s] else acc.1
        | _ => acc.1
        end in
      if is_type ["input_image"; "image_url"]%string then
        let url := default VUndef (prop_get (js "image_url") o) in
        let? image := if is_object url then member url "url" else Ok url in
        let? text := trimmed_text image in
        Ok (texts, if truthy_str text then acc.2 ++ [text] else acc.2)
      else Ok (texts, acc.2)
  | _ => Ok acc
  end.

Fixpoint fold_hook {A B} (f : B -> A -> hook B) (l : list A) (b : B) : hook B :=
  match l with
  | [] => Ok b
  | x :: l' => let? b' := f b x in fold_hook f l' b'
  end.

(** The parts of an item: its content, or the item itself. *)
Definition item_parts (o : list (jsstr * jsval)) : list jsval :=
  match default VUndef (prop_get (js "content") o) with
  | VUndef => [VObj o]
  | VArr l => l
  | v => [v]
  end.

Definition input_item (acc : list jsstr * list jsstr) (item : jsval) : hook (list jsstr * list jsstr) :=
  match item with
  | VStr s => Ok (acc.1 ++ [s], acc.2)
  | VObj o => fold_hook input_part (item_parts o) acc
  | _ => Ok acc
  end.

(** The prompt and the images of the [input] of a request. *)
Definition responsesInput (req : list (jsstr * jsval)) : hook (jsstr * list jsstr) :=
  let? (texts, images) :=
    match default VUndef (prop_get (js "input") req) with
    | VStr s => Ok ([s], [])
    | VArr l => fold_hook input_item l ([], [])
    | _ => Ok ([], [])
    end in
  Ok (join [10%N] (List.filter (fun text => truthy_str (trim text)) texts), images).

(** The text of an attribute: ampersands first. *)
Definition escape_attribute (url : jsstr) : jsstr :=
  replace_unit 62 (js "&gt;") (replace_unit 60 (js "&lt;")
    (replace_unit 34 (js "&quot;") (replace_unit 38 (js "&amp;") url))).

(** [responsesVideoText]; [url] is [ctx.artifacts.video.url]. *)
Definition responsesVideoText (url : option jsstr) : hook jsstr :=
  let url := trim (default [] url) in
  if negb (truthy_str url) then fail "video artifact is unavailable"
  else Ok (jq "<video controls src='" ++ escape_attribute url ++ jq "'></video>").

(** The events of a rendered task. *)
Inductive task_event : Type :=
| EvOutput (data : jsstr)
| EvError (code message : jsstr)
| EvProgress (message : jsstr) (progress : option num).

Record event_state := EventState { es_status : jsstr; es_progress : option num }.
Record rendered := Rendered { rn_events : list task_event; rn_state : event_state; rn_done : bool }.

Definition same_progress (a b : option num) : bool :=
  match a, b with
  | Some x, Some y => n_eqb x y
  | None, None => true
  | _, _ => false
  end.

(** The progress of a task as a percentage. *)
Definition progress_of (task : task_view) : option num :=
  let value := number_of_string (replace_first (ch "%") [] (default [] (tv_progress task))) in
  if is_finite value && n_geb value n_zero && n_leb value (n_of_Z 100) then Some value else None.

Definition renderEvents `{Host} {U : UpperText} (artifact : option jsstr) (task : task_view)
  (previousState : option event_state) : hook rendered :=
  let status := to_upper (if truthy_str (tv_status task) then tv_status task else js "UNKNOWN") in
  let progress := progress_of task in
  let state := EventState status progress in
  let same_status := match previousState with Some p => str_eqb (es_status p) status | None => false end in
  if str_eqb status (js "SUCCESS") then
    let? text := responsesVideoText artifact in
    Ok (Rendered (if same_status then [] else [EvOutput text]) state true)
  else if str_eqb status (js "FAILURE") then
    let reason := match tv_fail_reason task with Some r => if truthy_str r then r else js "task failed" | None => js "task failed" end in
    Ok (Rendered [EvError (js "task_failed") reason] state true)
  else if same_status && match previousState with Some p => same_progress (es_progress p) progress | None => false end then
    Ok (Rendered [] state false)
  else Ok (Rendered [EvProgress (to_lower status) progress] state false).

(** [first(name)]: the one value of a field. *)
Definition first_value (name : jsstr) (values : list jsstr) : hook jsval :=
  match values with
  | [] => Ok VUndef
  | [v] => Ok (VStr v)
  | _ => Err (Thrown (name ++ js " must be provided once"))
  end.

Definition multipart_field (req : list (jsstr * jsval)) (field : jsstr * list jsstr) : hook (list (jsstr * jsval)) :=
  let? v := first_value field.1 field.2 in
  if str_eqb field.1 (js "__proto__") then Err Unmodelled else Ok (prop_set field.1 v req).

(** The loop over the files: whether the input reference was given. *)
Definition multipart_file (seen : bool) (file : file_reference) : hook bool :=
  if negb (str_eqb (fr_field file) (js "input_reference"))
  then Err (Thrown (js "unexpected file field: " ++ fr_field file))
  else if seen then fail "input_reference must be provided once"
  else Ok true.

(** The metadata of a multipart request is the text of a JSON object. *)
Definition multipart_metadata (req : list (jsstr * jsval)) : hook (list (jsstr * jsval)) :=
  match default VUndef (prop_get (js "metadata") req) with
  | VUndef => Ok req
  | VStr s =>
      match json_parse s with
      | Some (VObj o) => Ok (prop_set (js "metadata") (VObj o) req)
      | _ => fail "metadata must be a JSON object string"
      end
  | _ => Ok req
  end.

(** [if (req.seconds !== undefined) req.seconds = Number(req.seconds); else ...] *)
Definition multipart_seconds (req : list (jsstr * jsval)) : hook (list (jsstr * jsval)) :=
  let set := fun v => let? x := num_of v in Ok (prop_set (js "seconds") (VNum x) req) in
  match default VUndef (prop_get (js "seconds") req) with
  | VUndef =>
      match default VUndef (prop_get (js "duration") req) with
      | VUndef => Ok req
      | v => set v
      end
  | v => set v
  end.

(** The fields of a multipart body, and whether it has the file. *)
Definition multipart_request (fields : list (jsstr * list jsstr)) (files : list file_reference)
  : hook (list (jsstr * jsval) * bool) :=
  let? req := fold_hook multipart_field fields [] in
  let? seen := fold_hook multipart_file files false in
  let? req := multipart_metadata req in
  let? req := multipart_seconds req in
  Ok (req, seen).

(** The parts of [protocols.openai_responses.decodeRequest] every plugin starts with: the
    object and its model, with the checks of [input], [images] and [metadata]; the plugins
    differ in the value that names the model. *)
Definition responses_request (named : list (jsstr * jsval) -> jsval) (body : decoded_body) : hook (list (jsstr * jsval) * jsstr) :=
  match body with
  | BodyJson (VObj req) =>
      let get := fun k => default VUndef (prop_get (js k) req) in
      let? model := trimmed_text (named req) in
      if negb (truthy_str model) then fail "model is required"
      else if negb (is_undefined (get "input"%string)) && negb (is_string (get "input"%string)) && negb (is_array (get "input"%string))
      then fail "input must be a string or array"
      else if negb (is_undefined (get "images"%string)) && negb (is_array (get "images"%string))
      then fail "images must be an array"
      else if negb (is_undefined (get "metadata"%string)) && match plain_object (get "metadata"%string) with Some _ => false | None => true end
      then fail "metadata must be an object"
      else Ok (req, model)
  | BodyJson _ => fail "request body must be an object"
  | _ => fail "JSON body required"
  end.

(** The images of a request, without repeats. *)
Definition add_image (images : list jsstr) (image : jsval) : hook (list jsstr) :=
  let? text := trimmed_text image in
  Ok (if truthy_str text && negb (str_mem text images) then images ++ [text] else images).

Definition request_images (req : list (jsstr * jsval)) (input : list jsstr) : hook (list jsstr) :=
  let get := fun k => default VUndef (prop_get (js k) req) in
  fold_hook add_image
    ([get "image"%string; get "input_reference"%string]
     ++ match get "images"%string with VArr l => l | _ => [] end ++ map VStr input) [].

(** The body of a JSON or multipart request, and whether it has the file. *)
Definition video_request (body : decoded_body) : hook (list (jsstr * jsval) * bool) :=
  match body with
  | BodyJson v =>
      if negb (truthy v) || is_array v then fail "JSON object required"
      else let? req := assign [] (own_properties v) in Ok (req, false)
  | BodyMultipart fields files => multipart_request fields files
  | _ => fail "JSON or multipart body required"
  end.

(** [req.seconds === undefined ? req.duration : req.seconds] *)
Definition stated_seconds (req : list (jsstr * jsval)) : jsval :=
  match default VUndef (prop_get (js "seconds") req) with
  | VUndef => default VUndef (prop_get (js "duration") req)
  | v => v
  end.

(** The own property [name], the own property [other], or nothing. *)
Definition own_or (req : list (jsstr * jsval)) (name other : string) : option jsval :=
  match prop_get (js name) req with Some v => Some v | None => prop_get (js other) req end.

Definition optional (k : string) (v : option jsval) : list (jsstr * jsval) :=
  match v with Some x => [(js k, x)] | None => [] end.

(** A file is sent as a reference. *)
Definition filePlaceholder (image : jsval) : jsval :=
  match image with
  | VObj o =>
      let get := fun k => default VUndef (prop_get (js k) o) in
      if truthy (get "__fileRef"%string) then
        let base := [(js "__fileRef", get "__fileRef"%string); (js "encoding", get "encoding"%string)] in
        let base := if truthy (get "mimeType"%string) then base ++ [(js "mimeType", get "mimeType"%string)] else base in
        VObj (if is_nullish (get "maxBytes"%string) then base else base ++ [(js "maxBytes", get "maxBytes"%string)])
      else image
  | _ => image
  end.

(** The answer of the vendor, inside the envelope of a stored task or bare. *)
Definition artifactData (data : jsval) : hook jsval :=
  let data := js_or data (VObj []) in
  let? inner := member data "data" in
  let? id := if is_object inner then member inner "task_id" else Ok VUndef in
  match inner with
  | VObj o =>
      if truthy id && match prop_get (js "data") o with Some _ => true | None => false end
      then Ok (js_or (default VUndef (prop_get (js "data") o)) (VObj []))
      else Ok data
  | _ => Ok data
  end.

Definition VIDEO_STATUSES : list (jsstr * jsstr) :=
  map (fun p => (js p.1, js p.2))
    [("NOT_START", "queued"); ("SUBMITTED", "queued"); ("QUEUED", "queued"); ("IN_PROGRESS", "in_progress");
     ("SUCCESS", "completed"); ("FAILURE", "failed")]%string.

Definition opt_num (x : option num) : jsval := match x with Some n => VNum n | None => VUndef end.

(** [protocols.openai_responses.renderFinal] *)
Definition renderFinal (vendor : jsstr) (artifact : option jsstr) : hook jsval :=
  let? text := responsesVideoText artifact in
  Ok (VObj
    [(js "output", VArr [VObj
       [(js "type", VStr (js "message")); (js "status", VStr (js "completed")); (js "role", VStr (js "assistant"));
        (js "content", VArr [VObj
          [(js "type", VStr (js "output_text")); (js "text", VStr text); (js "annotations", VArr []); (js "logprobs", VArr [])]])]]);
     (js "metadata", VObj [(js "vendor", VStr vendor)])]).

(** ** Properties of the helpers *)

(** ** Objects built by assignment *)

Lemma assigned_ok source : forall target, object_ok target = true ->
  object_ok (fold_left (fun acc (p : jsstr * jsval) => prop_set p.1 p.2 acc) source target) = true.
Proof. induction source as [|p source IH]; intros target Ht; [done|]. cbn [fold_left]. by apply IH, object_ok_set. Qed.

Lemma assign_ok target source o : object_ok target = true -> assign target source = Ok o -> object_ok o = true.
Proof. unfold assign. destruct (existsb _ _); [done|]. intros Ht [= <-]. by apply assigned_ok. Qed.

(** A copy of an object is the object. *)
Lemma assign_copy source o : object_ok source = true -> assign [] source = Ok o -> o = source.
Proof.
  unfold assign. destruct (existsb _ _); [done|]. intros Hs [= <-]. unfold object_ok in Hs.
  induction source as [|p l IH] using rev_ind; [done|]. rewrite map_app in Hs. apply enumerated_app in Hs as [Hl Hp].
  rewrite fold_left_app. cbn [fold_left]. rewrite (IH Hl). rewrite prop_set_last by done. by destruct p.
Qed.

(** The source of an assignment wins over its target. *)
Lemma assigned_get k source : object_ok source = true -> forall target,
  prop_get k (fold_left (fun acc (p : jsstr * jsval) => prop_set p.1 p.2 acc) source target) =
  match prop_get k source with Some v => Some v | None => prop_get k target end.
Proof.
  unfold prop_get. induction source as [|[k' v] source IH]; intros Hs target; [done|].
  destruct (enumerated_fresh k' v source Hs) as [Hf Hs']. cbn [fold_left assoc_get fst snd]. rewrite (IH Hs'), prop_get_set.
  destruct (str_eqb k k') eqn:E; [|done]. apply str_eqb_eq in E as ->. by rewrite Hf.
Qed.

Lemma assigned_absent k source : forall target, prop_get k source = None ->
  prop_get k (fold_left (fun acc (p : jsstr * jsval) => prop_set p.1 p.2 acc) source target) = prop_get k target.
Proof.
  unfold prop_get. induction source as [|[k' v] source IH]; intros target; [done|]. cbn [fold_left assoc_get fst snd].
  destruct (str_eqb k k') eqn:E; [done|]. intros Hs. rewrite (IH _ Hs), prop_get_set. by rewrite E.
Qed.

Lemma fold_hook_ok {A B} (P : B -> Prop) (f : B -> A -> hook B) l : (forall b a b', P b -> f b a = Ok b' -> P b') ->
  forall b b', P b -> fold_hook f l b = Ok b' -> P b'.
Proof.
  intros Hf. induction l as [|a l IH]; intros b b' Hb; cbn [fold_hook]; [by intros [= <-]|].
  destruct (f b a) as [b1|] eqn:E; [|done]. apply IH. by eapply Hf.
Qed.

(** The decoded request is an object with its properties in order. *)
Lemma video_request_ok body req file : video_request body = Ok (req, file) -> object_ok req = true.
Proof.
  destruct body as [v| |fields files|]; try done; cbn [video_request].
  - destruct (_ || _); [done|]. destruct (assign [] (own_properties v)) as [o|] eqn:E; [|done].
    intros [= <- <-]. by eapply assign_ok; [|exact E].
  - unfold multipart_request. destruct (fold_hook multipart_field fields []) as [r1|] eqn:E1; [|done].
    destruct (fold_hook multipart_file files false) as [seen|]; [|done].
    assert (H1 : object_ok r1 = true).
    { refine (fold_hook_ok (fun o => object_ok o = true) multipart_field fields _ [] r1 eq_refl E1). intros o [name values] o' Ho. unfold multipart_field.
      destruct (first_value _ _); [|done]. destruct (str_eqb _ _); [done|]. intros [= <-]. by apply object_ok_set. }
    destruct (multipart_metadata r1) as [r2|] eqn:E2; [|done].
    assert (H2 : object_ok r2 = true).
    { unfold multipart_metadata in E2. destruct (default VUndef _); try (injection E2 as <-; done).
      destruct (json_parse s) as [[]|]; try done. injection E2 as <-. by apply object_ok_set. }
    destruct (multipart_seconds r2) as [r3|] eqn:E3; [|done]. intros [= <- <-].
    assert (Hset : forall v, (let? x := num_of v in Ok (prop_set (js "seconds") (VNum x) r2)) = Ok r3 -> object_ok r3 = true).
    { intros v. destruct (num_of v); [|done]. intros [= <-]. by apply object_ok_set. }
    unfold multipart_seconds in E3. destruct (default VUndef (prop_get (js "seconds") r2)); try (by eapply Hset).
    destruct (default VUndef (prop_get (js "duration") r2)); try (by eapply Hset). by injection E3 as <-.
Qed.

(** ** Numbers in a range *)
Definition positive (x : num) : bool := is_finite x && n_gtb x n_zero.

(** Positive finite numbers are ordered totally. *)
Lemma not_above m1 e1 m2 e2 : let a := SpecFloat.S754_finite false m1 e1 in let b := SpecFloat.S754_finite false m2 e2 in
  n_ltb b a = false -> n_leb a b = true.
Proof.
  cbv zeta. unfold n_ltb, n_leb, SpecFloat.SFltb, SpecFloat.SFleb. cbn [SpecFloat.SFcompare].
  rewrite (Z.compare_antisym e1 e2). destruct (Z.compare e1 e2); cbn [CompOpp]; [|done..].
  change (Pos.compare_cont Eq m2 m1) with (m2 ?= m1)%positive. change (Pos.compare_cont Eq m1 m2) with (m1 ?= m2)%positive.
  rewrite (Pos.compare_antisym m1 m2). by destruct (m1 ?= m2)%positive.
Qed.

Lemma range_number n hi : is_integer n = true -> n_ltb n (n_of_Z 1) = false \/ n_leb n n_zero = false -> n_gtb n (n_of_Z hi) = false ->
  (exists m e, n_of_Z hi = SpecFloat.S754_finite false m e) ->
  positive n = true /\ n_leb n (n_of_Z hi) = true /\ (n_ltb n (n_of_Z 1) = false -> n_geb n (n_of_Z 1) = true).
Proof.
  intros Hi Hlo Hhi (m & e & Hm). rewrite Hm in *. assert (Hone : exists m1 e1, n_of_Z 1 = SpecFloat.S754_finite false m1 e1) by (by do 2 eexists).
  destruct Hone as (m1 & e1 & Ho). rewrite Ho in *. clear Ho Hm. destruct n as [[]|[]| |[] mn en]; try done; try (by destruct Hlo).
  split; [done|]. split; [by apply not_above|]. intros Hl. by apply (not_above m1 e1 mn en).
Qed.

(** Equal numbers other than zeros are the same datum. *)
Lemma equal_datum x y : n_eqb x y = true -> n_eqb x n_zero = false -> x = y.
Proof.
  unfold n_eqb, SpecFloat.SFeqb. destruct x as [[]|[]| |[] m1 e1], y as [[]|[]| |[] m2 e2]; try done; cbn [SpecFloat.SFcompare];
    destruct (Z.compare e1 e2) eqn:E; try done; apply Z.compare_eq in E as ->;
    change (Pos.compare_cont Eq m1 m2) with (m1 ?= m2)%positive; destruct (m1 ?= m2)%positive eqn:Em; try done;
    by apply Pos.compare_eq in Em as ->.
Qed.

(** A whole binary64 number from 1 to 3600 is one of the 3600 integers. *)
Lemma seconds_integer n : valid_num n = true -> is_integer n = true -> n_leb n n_zero = false -> n_gtb n (n_of_Z 3600) = false ->
  exists z, (1 <= z <= 3600)%Z /\ n = n_of_Z z.
Proof.
  intros Hv Hi Hlo Hhi. unfold is_integer in Hi. destruct (int_value n) as [z|] eqn:Hz; [|done].
  assert (Hs : safe_num n z).
  { split; [done|]. destruct n as [[]|[]| |[] m e]; try done. unfold valid_num, SpecFloat.valid_binary in Hv.
    apply andb_true_iff in Hv as [Hc _]. apply canonical_cases in Hc as (_ & Hd & _).
    pose proof (digits_bounds m) as Hm. assert (He : (e <= -41)%Z).
    { unfold n_gtb, n_ltb, SpecFloat.SFltb in Hhi. change (n_of_Z 3600) with (SpecFloat.S754_finite false 7916483719987200 (-41)) in Hhi.
      cbn [SpecFloat.SFcompare] in Hhi. destruct (Z.compare_spec (-41) e); done || lia. }
    cbn [int_value SpecFloat.cond_Zopp] in Hz. destruct (Z.leb_spec 0 e); [lia|]. destruct (_ =? 0)%Z; [|done]. injection Hz as <-.
    assert (Hpow : (2 ^ digits m <= 2 ^ 53)%Z) by (apply Z.pow_le_mono_r; lia).
    assert (Hq : (0 < 2 ^ (- e))%Z) by (apply Z.pow_pos_nonneg; lia).
    assert (0 <= Z.pos m / 2 ^ (- e) <= Z.pos m)%Z by (split; [apply Z.div_pos|apply Z.div_le_upper_bound]; nia).
    unfold max_safe. lia. }
  pose proof (leb_safe n n_zero z 0 Hs ltac:(done)) as H0. rewrite Hlo in H0. symmetry in H0. apply Z.leb_gt in H0.
  assert (H36 : safe_num (n_of_Z 3600) 3600) by (by apply of_Z_safe).
  pose proof (ltb_safe (n_of_Z 3600) n 3600 z H36 Hs) as H1. change (n_ltb (n_of_Z 3600) n = false) in Hhi. rewrite Hhi in H1. symmetry in H1. apply Z.ltb_ge in H1.
  exists z. split; [lia|]. apply equal_datum.
  - rewrite (eqb_safe n (n_of_Z z) z z Hs); [apply Z.eqb_refl|]. apply of_Z_safe. unfold max_safe. lia.
  - rewrite (eqb_safe n n_zero z 0 Hs); [|done]. apply Z.eqb_neq. lia.
Qed.
