(* ===== verification/PluginVidu.v ===== *)
(** * The Vidu plugin

    Models [plugins/tasks/vidu/plugin.js]: decoding requests of the native routes and of
    the two OpenAI protocols, the request sent upstream, the facts that are billed, and
    the rendering of results. *)

From S2P Require Import Prelude JsString JsNumber JsRegex JsValue ExprTypes ExprParser ExprCompile ExprRuntime ExprDisplay PluginApi.


(** ** Meta data *)
Definition RESOLUTIONS : list jsstr := map js ["360p"; "540p"; "720p"; "1080p"]%string.

Definition described (en : string) (zh : jsstr) : option localized_text :=
  Some (TextPerLanguage [(js "en", js en); (js "zh", zh)]).

Definition usageSchema : usage_schema :=
  [(js "credits", UsageField (Some UTnumber) (Some (js "credit")) None None []
      (described "Vidu credit unit price" (js "Vidu " ++ [31215; 20998; 21333; 20215]%N)));
   (js "duration", UsageField (Some UTnumber) (Some (js "second")) None None []
      (described "Video generation unit price" ([35270; 39057; 29983; 25104; 21333; 20215]%N)));
   (js "resolution", UsageField None None None (Some RESOLUTIONS)
      (map (fun r => (r, TextPerLanguage [(js "en", r); (js "zh", r)])) RESOLUTIONS)
      (described "Output video resolution" ([36755; 20986; 35270; 39057; 20998; 36776; 29575]%N)))].

(** [usageExamples]: the label, the duration and the resolution; the credits are zero. *)
Definition usageExamples : list (jsstr * list (jsstr * jsval)) :=
  map (fun e => (js e.1.1, [(js "credits", VNum n_zero); (js "duration", VNum (n_of_Z e.1.2)); (js "resolution", VStr (js e.2))]))
    [("q2 5s 720p", 5%Z, "720p"); ("q1 5s 1080p", 5%Z, "1080p"); ("2.0 4s 360p", 4%Z, "360p");
     ("2.0 4s 720p", 4%Z, "720p"); ("2.0 8s 720p", 8%Z, "720p")]%string.

Definition ROUTE_ACTIONS : list (jsstr * jsstr) :=
  map (fun p => (js p.1, js p.2))
    [("text2video", "text_to_video"); ("img2video", "image_to_video");
     ("start-end2video", "first_tail_to_video"); ("reference2video", "reference_to_video")]%string.

(** ** Upstream *)
Definition apiRoot (ctx : driver_context) : jsstr :=
  dx_baseUrl ctx ++ (if dx_via_new_api ctx then js "/vidu" else []) ++ js "/ent/v2".

Definition authorization (ctx : driver_context) : jsstr :=
  (if dx_via_new_api ctx then js "Bearer " else js "Token ") ++ default (js "undefined") (dx_apiKey ctx).

(** ** Duration and resolution *)

(** [model === name] *)
Definition model_is (model : jsval) (name : string) : bool := strict_eqb model (VStr (js name)).

Definition isQ2Model (model : jsval) : hook bool :=
  let? s := text_of (js_or model (VStr [])) in Ok (starts_with (js "viduq2") s).

Definition defaultDuration (model : jsval) : num := if model_is model "vidu2.0" then n_of_Z 4 else n_of_Z 5.

Definition defaultResolution (model : jsval) : hook jsstr :=
  let? q2 := isQ2Model model in
  Ok (if q2 : bool then js "720p" else if model_is model "vidu2.0" then js "360p" else js "1080p").

(** The resolution of a size, [width x height]. *)
Definition size_resolution (raw : jsstr) : option jsstr :=
  match split_unit (ch "x") (replace_first (ch "*") (js "x") raw) with
  | [a; b] =>
      let width := number_of_string a in
      let height := number_of_string b in
      if n_gtb width n_zero && n_gtb height n_zero then
        let max := n_max width height in
        Some (if n_geb max (n_of_Z 1920) then js "1080p"
              else if n_geb max (n_of_Z 1280) then js "720p"
              else if n_geb max (n_of_Z 960) then js "540p"
              else js "360p")
      else None
  | _ => None
  end.

Section hooks.
Context `{Host}.

Definition normalizeResolution (value model : jsval) : hook jsstr :=
  if model_is model "viduq1" then Ok (js "1080p")
  else
    let? text := trimmed_text value in
    let raw := to_lower text in
    if str_mem raw RESOLUTIONS then Ok raw
    else match size_resolution raw with Some r => Ok r | None => defaultResolution model end.

Definition outboundDuration (req model : jsval) : hook num :=
  let? d := safe_member req "duration" in
  let? n := num_of d in
  Ok (if is_finite n && n_gtb n n_zero then n else defaultDuration model).

Definition outboundResolution (req model : jsval) : hook jsstr :=
  let? r := safe_member req "resolution" in
  if truthy req && truthy r then normalizeResolution r model
  else
    let? m := safe_member req "metadata" in
    let? mr := member (js_or m (VObj [])) "resolution" in
    if truthy mr then normalizeResolution mr model
    else
      let? size := safe_member req "size" in
      if truthy req && truthy size then normalizeResolution size model else defaultResolution model.

Definition hasViduImages (req : jsval) (hasInputReferenceFile : bool) : hook bool :=
  if hasInputReferenceFile then Ok true
  else
    let? images := safe_member req "images" in
    match images with
    | VArr (_ :: _) => Ok true
    | _ =>
        let? reference := safe_member req "input_reference" in
        let? a := trimmed_text reference in
        if truthy_str a then Ok true
        else
          let? image := safe_member req "image" in
          let? b := trimmed_text image in
          Ok (truthy_str b)
    end.

(** The durations and resolutions a model has; [duration] may be undefined. *)
Definition validateViduCombo (model duration : jsval) (resolution : jsstr) (hasImages : bool) : hook unit :=
  if model_is model "vidu2.0" && negb hasImages then fail "vidu2.0 does not support text-to-video"
  else if model_is model "viduq1" then
    if is_undefined duration then Ok tt
    else
      let? n := num_of duration in
      if n_eqb n (n_of_Z 5) then Ok tt else fail "viduq1 duration must be 5"
  else if model_is model "vidu2.0" then
    let? n := if is_undefined duration then Ok (n_of_Z 4) else num_of duration in
    if n_eqb n (n_of_Z 4) then
      if str_mem resolution (map js ["360p"; "720p"; "1080p"]%string) then Ok tt
      else fail "vidu2.0 duration 4 only allows resolution 360p, 720p, or 1080p"
    else if n_eqb n (n_of_Z 8) then
      if str_eqb resolution (js "720p") then Ok tt else fail "vidu2.0 duration 8 only allows resolution 720p"
    else fail "vidu2.0 duration must be 4 or 8"
  else
    let? q2 := isQ2Model model in
    if q2 : bool then
      if is_undefined duration then Ok tt
      else
        let? n := num_of duration in
        if negb (is_integer n) || n_ltb n (n_of_Z 1) || n_gtb n (n_of_Z 10)
        then fail "viduq2 duration must be between 1 and 10" else Ok tt
    else if is_undefined duration then Ok tt
    else
      let? n := num_of duration in
      if negb (is_integer n) || n_leb n n_zero || n_gtb n (n_of_Z 3600)
      then fail "seconds must be between 1 and 3600" else Ok tt.

(** ** Actions *)

Definition ACTION_ALIASES : list (jsstr * jsstr) :=
  map (fun p => (js p.1, js p.2))
    [("generate", "image_to_video"); ("textGenerate", "text_to_video");
     ("firstTailGenerate", "first_tail_to_video"); ("referenceGenerate", "reference_to_video");
     ("remixGenerate", "remix")]%string.

Definition actionFor (req : jsval) : hook jsval :=
  let? metadata := member req "metadata" in
  let? named := safe_member metadata "action" in
  if truthy metadata && truthy named then
    let? alias := table_get ACTION_ALIASES named in
    Ok (match alias with Some a => VStr a | None => named end)
  else
    let? images := member req "images" in
    if negb (truthy images) then Ok (VStr (js "text_to_video"))
    else
      let? len := member images "length" in
      if strict_eqb len (VNum n_zero) then Ok (VStr (js "text_to_video"))
      else if strict_eqb len (VNum (n_of_Z 2)) then Ok (VStr (js "first_tail_to_video"))
      else
        let? n := num_of len in
        Ok (VStr (if n_gtb n (n_of_Z 2) then js "reference_to_video" else js "image_to_video")).

Definition pathFor (action : jsval) : jsstr :=
  if strict_eqb action (VStr (js "image_to_video")) then js "/img2video"
  else if strict_eqb action (VStr (js "first_tail_to_video")) then js "/start-end2video"
  else if strict_eqb action (VStr (js "reference_to_video")) then js "/reference2video"
  else js "/text2video".

(** ** Native routes *)

(** The duration of a request body as a number, if it has one. *)
Definition number_or_undefined (v : jsval) : hook jsval :=
  match v with VUndef => Ok VUndef | _ => let? n := num_of v in Ok (VNum n) end.

(** The fields of the body the host knows: the others stay in the metadata. *)
Definition HOST_FIELDS : list jsstr := map js ["images"; "prompt"; "duration"; "resolution"]%string.

Definition native_body (model : jsstr) (action : jsval) (body : list (jsstr * jsval)) : hook (list (jsstr * jsval)) :=
  let? metadata := assign [] body in
  let metadata := prop_set (js "action") action metadata in
  let metadata := fold_left (fun m k => prop_delete k m) (js "model" :: HOST_FIELDS) metadata in
  Ok ([(js "model", VStr model); (js "metadata", VObj metadata)]
      ++ omap (fun k => match prop_get k body with
                        | None | Some VUndef | Some VNull => None
                        | Some v => Some (k, v)
                        end) HOST_FIELDS).

Definition createTask (ctx : decode_context) : hook submit_intent :=
  match dc_body ctx with
  | BodyJson (VObj body) =>
      let? model := trimmed_text (default VUndef (prop_get (js "model") body)) in
      if negb (truthy_str model) then fail "model is required"
      else
        let? route := table_get ROUTE_ACTIONS (VStr (after_last_slash (dc_path ctx))) in
        let action := match route with Some a => VStr a | None => VUndef end in
        let? requestBody := native_body model action body in
        let? duration := number_or_undefined (default VUndef (prop_get (js "duration") requestBody)) in
        let? resolution := outboundResolution (VObj requestBody) (VStr model) in
        let? hasImages := hasViduImages (VObj requestBody) false in
        let? _ := validateViduCombo (VStr model) duration resolution hasImages in
        Ok (SubmitIntent (VStr model) action requestBody)
  | BodyJson _ => fail "request body must be an object"
  | _ => fail "JSON body required"
  end.

Definition taskCreated (task : task_view) : hook (list (jsstr * jsval)) :=
  let? output := assign [] (default [] (plain_object (tv_data task))) in
  Ok (prop_set (js "task_id") (VStr (tv_task_id task)) output).

Definition taskStatus (task : task_view) : hook (list (jsstr * jsval)) :=
  let? output := assign [] (default [] (plain_object (tv_data task))) in
  let output := prop_set (js "id") (VStr (tv_task_id task)) output in
  let get := fun k => default VUndef (prop_get (js k) output) in
  if str_eqb (tv_status task) (js "FAILURE") && negb (strict_eqb (get "state"%string) (VStr (js "failed"))) then
    let reason := match tv_fail_reason task with Some r => VStr r | None => VUndef end in
    let output' := prop_set (js "state") (VStr (js "failed")) output in
    Ok (prop_set (js "err_code") (js_or (get "err_code"%string) (js_or reason (VStr (js "task failed")))) output')
  else Ok output.

(** [native.error] *)
Definition native_error (code message : jsstr) : list (jsstr * jsval) :=
  [(js "code", VStr code); (js "message", VStr message)].

(** ** The driver *)

Definition submit_model (ctx : driver_context) (action : jsval) : jsstr :=
  let model := if truthy_str (dx_upstreamModel ctx) then dx_upstreamModel ctx else js "viduq1" in
  if strict_eqb action (VStr (js "reference_to_video")) && includes (js "viduq2") model then js "viduq2" else model.

(** The last steps on the body: no action, no empty prompt or music, files as references. *)
Definition cleaned_body (body : list (jsstr * jsval)) : list (jsstr * jsval) :=
  let get := fun k o => default VUndef (prop_get (js k) o) in
  let body := prop_delete (js "action") body in
  let body := if truthy (get "prompt"%string body) then body else prop_delete (js "prompt") body in
  let body := if truthy (get "bgm"%string body) then body else prop_delete (js "bgm") body in
  match get "images"%string body with
  | VArr images => prop_set (js "images") (VArr (map filePlaceholder images)) body
  | _ => body
  end.

Definition buildSubmitRequest (ctx : driver_context) : hook request_descriptor :=
  let req := dx_requestBody ctx in
  let? action := actionFor req in
  let? metadata := member req "metadata" in
  let model := submit_model ctx action in
  let? images := member req "images" in
  let images := match images with VArr l => VArr (map filePlaceholder l) | _ => VNull end in
  let? prompt := member req "prompt" in
  let? duration := outboundDuration req (VStr model) in
  let? resolution := outboundResolution req (VStr model) in
  let? body := assign [(js "images", images); (js "prompt", js_or prompt VNull); (js "movement_amplitude", VStr (js "auto"))]
                 (own_properties (js_or metadata (VObj []))) in
  let? body := assign body [(js "model", VStr model); (js "duration", VNum duration); (js "resolution", VStr resolution)] in
  Ok (RequestDescriptor (apiRoot ctx ++ pathFor action) (js "POST")
        [(js "Content-Type", js "application/json"); (js "Accept", js "application/json"); (js "Authorization", authorization ctx)]
        (Some (cleaned_body body)) (Some action) false).

(** The upstream id of the task and the data kept with it. *)
Definition parseSubmitResponse (body : jsval) : hook (jsval * jsval) :=
  let? state := safe_member body "state" in
  if negb (truthy body) || strict_eqb state (VStr (js "failed")) then fail "task failed"
  else
    let? id := member body "task_id" in
    if truthy id then Ok (id, body) else fail "missing task_id".

(** The facts that are billed. *)
Definition extractUsage (ctx : driver_context) : hook (option (list (jsstr * jsval))) :=
  match dx_usagePurpose ctx with
  | Some ForBillingRatios => Ok None
  | _ =>
      let req := js_or (dx_requestBody ctx) (VObj []) in
      let? named := member req "model" in
      let model := if truthy_str (dx_upstreamModel ctx) then VStr (dx_upstreamModel ctx) else named in
      let? duration := outboundDuration req model in
      let? resolution := outboundResolution req model in
      Ok (Some [(js "duration", VNum duration); (js "resolution", VStr resolution)])
  end.

Definition buildQueryRequest (ctx : driver_context) : request_descriptor :=
  RequestDescriptor (apiRoot ctx ++ js "/tasks/" ++ dx_taskId ctx ++ js "/creations") (js "GET")
    [(js "Accept", js "application/json"); (js "Authorization", authorization ctx)] None None false.

Definition STATUSES : list (jsstr * jsstr) :=
  map (fun p => (js p.1, js p.2))
    [("created", "SUBMITTED"); ("queueing", "SUBMITTED"); ("processing", "IN_PROGRESS");
     ("success", "SUCCESS"); ("failed", "FAILURE")]%string.

(** [NormalizedTaskResult] *)
Record task_result := TaskResult { tr_status : jsstr; tr_reason : jsval; tr_url : option jsval }.

Definition parseTaskResult (body : jsval) : hook task_result :=
  let? state := member body "state" in
  let? status := table_get STATUSES state in
  match status with
  | None =>
      let? text := text_of (js_or state (VStr [])) in
      Ok (TaskResult (js "UNKNOWN") (VStr (js "unknown task state: " ++ text)) None)
  | Some status =>
      let? creations := member body "creations" in
      let? len := safe_member creations "length" in
      let? url :=
        if truthy creations && truthy len then
          let? first := first_item creations in
          let? u := member first "url" in Ok (js_or u (VStr []))
        else Ok (VStr []) in
      let? err_code := member body "err_code" in
      let reason := if strict_eqb state (VStr (js "failed")) then js_or err_code (VStr []) else VStr [] in
      Ok (TaskResult status reason (if truthy url then Some url else None))
  end.

Definition artifactVideoURL (data : jsval) : hook jsstr :=
  let? data := artifactData data in
  let? creations := member data "creations" in
  match creations with
  | VArr (first :: _) => let? u := member first "url" in trimmed_text u
  | _ => Ok []
  end.

Definition listArtifacts (status : jsstr) (data : jsval) : hook (list task_artifact) :=
  if str_eqb status (js "SUCCESS") then
    let? url := artifactVideoURL data in
    Ok (if truthy_str url then [TaskArtifact (js "video") (js "video")] else [])
  else Ok [].

Definition buildContentRequest (ctx : driver_context) : hook request_descriptor :=
  if negb (str_eqb (dx_artifactKey ctx) (js "video")) then fail "artifact_not_found"
  else
    let? url := artifactVideoURL (dx_data ctx) in
    if truthy_str url then Ok (RequestDescriptor url (dx_method ctx) [] None None true)
    else fail "artifact_not_found".

Definition extractUsageOnComplete (body : jsval) : hook (option (list (jsstr * jsval))) :=
  match body with
  | VObj o =>
      match prop_get (js "credits") o with
      | None | Some VUndef | Some VNull => Ok None
      | Some v =>
          let? credits := num_of v in
          Ok (if is_finite credits then Some [(js "credits", VNum credits)] else None)
      end
  | _ => Ok None
  end.

(** ** The OpenAI protocols *)

Definition responses_decodeRequest (ctx : decode_context) : hook submit_intent :=
  let? (req, model) := responses_request (fun req => default VUndef (prop_get (js "model") req)) (dc_body ctx) in
  let? (input_prompt, input_images) := responsesInput req in
  let? prompt :=
    if truthy_str input_prompt then Ok input_prompt
    else trimmed_text (default VUndef (prop_get (js "prompt") req)) in
  let? images := request_images req input_images in
  if negb (truthy_str prompt) && match images with [] => true | _ => false end then fail "input is required"
  else
    let requestBody :=
      [(js "model", VStr model); (js "prompt", VStr prompt)]
      ++ (match images with [] => [] | _ => [(js "images", VArr (map VStr images))] end)
      ++ optional "duration" (own_or req "seconds" "duration")
      ++ optional "size" (prop_get (js "size") req)
      ++ optional "metadata" (prop_get (js "metadata") req) in
    let? duration := number_or_undefined (default VUndef (prop_get (js "duration") requestBody)) in
    let? resolution := outboundResolution (VObj requestBody) (VStr model) in
    let? _ := validateViduCombo (VStr model) duration resolution (match images with [] => false | _ => true end) in
    let? action := actionFor (VObj requestBody) in
    Ok (SubmitIntent (VStr model) action requestBody).

(** The file of a multipart request as an image. *)
Definition reference_file : jsval :=
  VObj [(js "__fileRef", VStr (js "request_file:input_reference")); (js "encoding", VStr (js "dataUrl"));
        (js "maxBytes", VNum (n_of_Z 15728640))].

(** [req.images] from the file or the reference, unless the request has images. *)
Definition with_reference (req : list (jsstr * jsval)) (file : bool) : hook (list (jsstr * jsval)) :=
  let get := fun k => default VUndef (prop_get (js k) req) in
  if file then Ok (prop_set (js "images") (VArr [reference_file]) req)
  else
    let? image := trimmed_text (js_or (get "input_reference"%string) (get "image"%string)) in
    if truthy_str image && match get "images"%string with VArr (_ :: _) => false | _ => true end
    then Ok (prop_set (js "images") (VArr [VStr image]) req)
    else Ok req.

Definition video_duration (seconds model : jsval) : hook num :=
  match seconds with VUndef => Ok (defaultDuration model) | v => num_of v end.

Definition video_decodeRequest (ctx : decode_context) : hook submit_intent :=
  let? (req, file) := video_request (dc_body ctx) in
  let get := fun k => default VUndef (prop_get (js k) req) in
  let model :=
    js_or (match dc_upstreamModel ctx with Some m => VStr m | None => VUndef end)
      (js_or (VStr (dc_model ctx)) (get "model"%string)) in
  let? duration := video_duration (stated_seconds req) model in
  let req := prop_set (js "duration") (VNum duration) req in
  let? req := with_reference req file in
  let? resolution := outboundResolution (VObj req) model in
  let req := prop_set (js "resolution") (VStr resolution) req in
  let? hasImages := hasViduImages (VObj req) file in
  let? _ := validateViduCombo model (VNum duration) resolution hasImages in
  let? action := actionFor (VObj req) in
  let? body := assign [] req in
  Ok (SubmitIntent (VStr (dc_model ctx)) action (prop_set (js "model") (VStr (dc_model ctx)) body)).

(** ** Rendering *)

(** [legacyRenderers.openai_video] *)
Definition render_video (task : task_view) : hook (list (jsstr * jsval)) :=
  let? status := table_get VIDEO_STATUSES (VStr (tv_status task)) in
  let progress := match tv_progress task with Some p => if truthy_str p then p else js "0" | None => js "0" end in
  let output :=
    [(js "id", VStr (tv_task_id task)); (js "object", VStr (js "video")); (js "model", VStr []);
     (js "status", VStr (default (js "unknown") status));
     (js "progress", VNum (number_of_string (replace_first (ch "%") [] progress)));
     (js "created_at", opt_num (tv_created_at task))] in
  let output :=
    if truthy (opt_num (tv_updated_at task)) then output ++ [(js "completed_at", opt_num (tv_updated_at task))] else output in
  let? state := safe_member (tv_data task) "state" in
  let? code := if truthy (tv_data task) then member (tv_data task) "err_code" else Ok VUndef in
  Ok (if truthy (tv_data task) && strict_eqb state (VStr (js "failed")) && truthy code
      then output ++ [(js "error", VObj [(js "message", code); (js "code", code)])] else output).

(** [protocols.openai_responses.renderFinal] *)
Definition vidu_renderFinal (artifact : option jsstr) : hook jsval := renderFinal (js "vidu") artifact.
End hooks.
