(* ===== verification/PluginViduSpec.v ===== *)
(** * Properties of the Vidu plugin *)

From S2P Require Import Prelude JsString JsNumber JsRegex JsValue JsJson ExprTypes ExprParser ExprCompile ExprRuntime ExprDisplay ExprDisplaySpec PluginApi PluginVidu.


Section vidu.
Context `{Host}.

(** ** Resolutions *)









(** ** The facts *)


(** ** The request sent *)






(** ** What is accepted *)

(** The combinations of duration and resolution a model has. *)
Definition allowed (model : jsstr) (d : num) (r : jsstr) : Prop :=
  In r RESOLUTIONS /\
  if str_eqb model (js "viduq1") then n_eqb d (n_of_Z 5) = true /\ r = js "1080p"
  else if str_eqb model (js "vidu2.0") then
    n_eqb d (n_of_Z 4) = true /\ r <> js "540p" \/ n_eqb d (n_of_Z 8) = true /\ r = js "720p"
  else if starts_with (js "viduq2") model then
    is_integer d = true /\ n_geb d (n_of_Z 1) = true /\ n_leb d (n_of_Z 10) = true
  else is_integer d = true /\ n_gtb d n_zero = true /\ n_leb d (n_of_Z 3600) = true.






(** ** Decoded requests *)











End vidu.



(** A native request for four seconds of a model of four or eight. *)
Definition native_request : decode_context :=
  DecodeContext (js "/ent/v2/img2video") (BodyJson (VObj
    [(js "model", VStr (js "vidu2.0")); (js "prompt", VStr (js "a cat")); (js "duration", VNum (n_of_Z 4));
     (js "images", VArr [VStr (js "https://example.com/cat.png")])]))
    (js "vidu2.0") (Some (js "viduq1")).

(** Mapped by the channel to a model of five seconds it is accepted, billed and sent. *)
Lemma mapped_combination_unchecked :
  match createTask (H := plain_host) native_request with
  | Ok intent =>
      let driver := DriverContext (VObj (si_requestBody intent)) [] (js "vidu2.0") (js "viduq1") (js "https://api.vidu.com")
        (Some (js "key")) false [] (Some ForFacts) [] [] [] VUndef [] in
      extractUsage (H := plain_host) driver
        = Ok (Some [(js "duration", VNum (n_of_Z 4)); (js "resolution", VStr (js "1080p"))]) /\
      ~ allowed (js "viduq1") (n_of_Z 4) (js "1080p") /\
      match buildSubmitRequest (H := plain_host) driver with
      | Ok request => (prop_get (js "duration") <$> rd_body request) = Some (Some (VNum (n_of_Z 4)))
      | Err _ => False
      end
  | Err _ => False
  end.
Proof.
  vm_compute. split; [reflexivity|]. split; [|reflexivity]. intros [_ [E _]]. discriminate E.
Qed.
