(* ===== verification/PluginKling.v ===== *)
(** * The Kling plugin

    Models [plugins/tasks/kling/plugin.js]: decoding of requests, the request sent
    upstream, the units that are billed on submission and on completion, and the
    rendering of results.  The clock and the signature of the host are parameters. *)

From S2P Require Import Prelude JsString JsNumber JsRegex JsValue ExprTypes ExprParser ExprCompile ExprRuntime ExprDisplay PluginApi.

(** What the plugin asks of [utils]. *)
Class PluginUtils := {
  unixNow : num;
  jwtSignHS256 : list (jsstr * jsval) -> jsstr -> jsstr;
}.

(** ** Meta data *)
Definition kling_usageSchema : usage_schema :=
  [(js "units", UsageField (Some UTnumber) (Some (js "credit")) None None []
      (Some (TextPerLanguage [(js "en", js "Kling credit unit price");
                              (js "zh", [21487; 28789; 36164; 28304; 21253; 21333; 20301; 21333; 20215]%N)])))].

(** A decimal constant, [m * 10 ^ -1]. *)
Definition tenths (m : Z) : num := n_of_decimal m (-1).

(** [usageExamples]: the label and the units. *)
Definition kling_usageExamples : list (jsstr * list (jsstr * jsval)) :=
  map (fun e => (js e.1, [(js "units", VNum (tenths e.2))]))
    [("v1 std 5s", 10%Z); ("v1 pro 5s", 35%Z); ("v1-6 std 5s", 20%Z); ("v1-6 pro 10s", 70%Z);
     ("v2-master pro 5s", 100%Z)]%string.

(** Units per second of the video, by model and mode. *)
Definition UNITS_PER_SECOND : list (jsstr * list (jsstr * num)) :=
  [(js "kling-v1", [(js "std", tenths 2); (js "pro", tenths 7)]);
   (js "kling-v1-6", [(js "std", tenths 4); (js "pro", tenths 7)]);
   (js "kling-v2-master", [(js "pro", tenths 20)])].

(** ** Upstream *)

Definition isRelay (apiKey : option jsstr) : hook bool :=
  match apiKey with Some key => Ok (starts_with (js "sk-") key) | None => Err EngineTypeError end.

Definition viaGateway (ctx : driver_context) : hook bool :=
  if dx_via_new_api ctx then Ok true else isRelay (dx_apiKey ctx).

(** The longest prefix that is a decimal literal, read as a number: [Number.parseFloat]. *)
Definition parse_exponent (s : jsstr) : jsstr :=
  match s with
  | c :: s1 =>
      if N.eqb c (ch "e") || N.eqb c (ch "E") then
        let '(sign, s2) :=
          match s1 with
          | d :: s2 => if N.eqb d (ch "-") || N.eqb d (ch "+") then ([d], s2) else ([], s1)
          | [] => ([], s1)
          end in
        match (span_digits s2).1 with [] => [] | ds => c :: sign ++ ds end
      else []
  | [] => []
  end.

Definition parseFloat (raw : jsstr) : num :=
  let s := trim_start raw in
  let '(sign, s) :=
    match s with
    | c :: s' => if N.eqb c (ch "-") || N.eqb c (ch "+") then ([c], s') else ([], s)
    | [] => ([], s)
    end in
  if starts_with (js "Infinity") s then number_of_string (sign ++ js "Infinity")
  else
    let '(whole, s) := span_digits s in
    let '(fraction, s) :=
      match s with c :: s' => if N.eqb c (ch ".") then span_digits s' else ([], s) | [] => ([], s) end in
    match whole ++ fraction with
    | [] => SpecFloat.S754_nan
    | _ => number_of_string (sign ++ whole ++ js "." ++ fraction ++ parse_exponent s)
    end.

Section hooks.
Context `{Host} {U : PluginUtils}.

Definition tokenFor (ctx : driver_context) : hook jsstr :=
  let apiKey := trim (default [] (dx_apiKey ctx)) in
  if negb (truthy_str apiKey) then fail "api_key is empty"
  else
    let? gateway := viaGateway ctx in
    if gateway : bool then Ok apiKey
    else match split_unit (ch "|") apiKey with
         | [_] => Ok apiKey
         | [access; secret] =>
             Ok (jwtSignHS256
                   [(js "iss", VStr (trim access)); (js "exp", VNum (n_add unixNow (n_of_Z 1800)));
                    (js "nbf", VNum (n_sub unixNow (n_of_Z 5)))] (trim secret))
         | _ => fail "invalid api_key, required format is accessKey|secretKey"
         end.

Definition kling_pathFor (action : jsstr) : jsstr :=
  if str_eqb action (js "image_to_video") then js "/v1/videos/image2video" else js "/v1/videos/text2video".

Definition urlFor (ctx : driver_context) (action : jsstr) : hook jsstr :=
  let? gateway := viaGateway ctx in
  Ok (dx_baseUrl ctx ++ (if gateway : bool then js "/kling" else []) ++ kling_pathFor action).

Definition RATIOS : list (jsstr * jsstr) :=
  map (fun p => (js p.1, js p.2))
    [("1024x1024", "1:1"); ("512x512", "1:1"); ("1280x720", "16:9"); ("1920x1080", "16:9");
     ("720x1280", "9:16"); ("1080x1920", "9:16")]%string.

Definition aspectRatio (size : jsval) : hook jsstr :=
  let? ratio := table_get RATIOS size in Ok (default (js "1:1") ratio).

(** ** Model, mode and duration *)

Definition submitModel (ctx : driver_context) (req : jsval) : hook jsval :=
  let? named := safe_member req "model" in
  Ok (js_or (VStr (dx_upstreamModel ctx)) (js_or (VStr (dx_model ctx)) (js_or named (VStr (js "kling-v1"))))).

Definition resolveKlingMode (model mode : jsval) : hook jsstr :=
  let? text := trimmed_text mode in
  let raw := to_lower text in
  if strict_eqb model (VStr (js "kling-v2-master")) then
    if str_eqb raw (js "std") then fail "kling-v2-master does not support mode std"
    else if truthy_str raw && negb (str_eqb raw (js "pro")) then fail "mode must be pro"
    else Ok (js "pro")
  else if negb (truthy_str raw) then Ok (js "std")
  else if negb (str_eqb raw (js "std")) && negb (str_eqb raw (js "pro")) then fail "mode must be std or pro"
  else Ok raw.

(** [mode] is a mode; the last fallback is [undefined], whose product is NaN. *)
Definition perSecondRate (model : jsval) (mode : jsstr) : hook num :=
  let? own := table_get UNITS_PER_SECOND model in
  let table := match own with Some t => t | None => default [] (assoc_get str_eqb (js "kling-v1") UNITS_PER_SECOND) end in
  Ok (match assoc_get str_eqb mode table with
      | Some rate => rate
      | None =>
          match assoc_get str_eqb (js "pro") table with
          | Some rate => rate
          | None => default SpecFloat.S754_nan (assoc_get str_eqb (js "std") table)
          end
      end).

Definition estimateUnits (model : jsval) (mode : jsstr) (durationSeconds : num) : hook num :=
  let? rate := perSecondRate model mode in Ok (n_mul rate durationSeconds).

Definition validateKlingDuration (value : jsval) : hook num :=
  let? n := num_of value in
  if negb (is_integer n) || n_leb n n_zero || n_gtb n (n_of_Z 3600)
  then fail "seconds must be a positive integer at most 3600" else Ok n.

(** [(req && req.metadata) || {}] *)
Definition metadata_of (req : jsval) : hook jsval :=
  let? metadata := safe_member req "metadata" in Ok (js_or metadata (VObj [])).

Definition kling_outboundDuration (req : jsval) : hook num :=
  let? metadata := metadata_of req in
  let? value := member metadata "duration" in
  let? value := if is_nullish value then safe_member req "duration" else Ok value in
  if is_nullish value then Ok (n_of_Z 5) else validateKlingDuration value.

Definition outboundMode (req model : jsval) : hook jsstr :=
  let? metadata := metadata_of req in
  let? stated := safe_member req "mode" in
  let? other := member metadata "mode" in
  resolveKlingMode model (js_or stated other).

Definition hasKlingImage (req : jsval) (hasInputReferenceFile : bool) : hook bool :=
  if hasInputReferenceFile then Ok true
  else
    let? metadata := metadata_of req in
    let? image := safe_member req "image" in
    let is_file := match image with VObj o => truthy (default VUndef (prop_get (js "__fileRef") o)) | _ => false end in
    if truthy req && is_file then Ok true
    else
      let? reference := safe_member req "input_reference" in
      let? a := trimmed_text reference in
      if truthy_str a then Ok true
      else
        let? b := trimmed_text image in
        if truthy_str b then Ok true
        else
          let? c := member metadata "image" in
          let? d := member metadata "image_tail" in
          Ok (truthy c || truthy d).

(** ** Native routes *)

Definition decodeNativeSubmit (ctx : decode_context) : hook submit_intent :=
  match dc_body ctx with
  | BodyJson (VObj body) =>
      let text := fun k => match prop_get (js k) body with Some (VStr s) => s | _ => [] end in
      let model := if truthy_str (text "model_name"%string) then text "model_name"%string else text "model"%string in
      if negb (truthy_str (trim model)) then fail "model is required"
      else Ok (SubmitIntent (VStr model) VUndef
                 [(js "model", VStr model); (js "prompt", VStr (text "prompt"%string)); (js "metadata", VObj body)])
  | BodyJson _ => fail "request body must be an object"
  | _ => fail "JSON body required"
  end.

(** [Object.assign({}, result, { data: Object.assign({}, data, { task_id }) })] *)
Definition with_task_id (result data : jsval) (id : jsstr) : hook (list (jsstr * jsval)) :=
  let? outer := assign [] (own_properties result) in
  let? inner := assign [] (own_properties data) in
  Ok (prop_set (js "data") (VObj (prop_set (js "task_id") (VStr id) inner)) outer).

Definition kling_taskCreated (task : task_view) : hook (list (jsstr * jsval)) :=
  let result := js_or (tv_data task) (VObj []) in
  let? data := member result "data" in
  with_task_id result (js_or data (VObj [])) (tv_task_id task).

Definition NATIVE_STATUSES : list (jsstr * jsstr) :=
  map (fun p => (js p.1, js p.2))
    [("NOT_START", "submitted"); ("SUBMITTED", "submitted"); ("QUEUED", "submitted"); ("IN_PROGRESS", "processing");
     ("SUCCESS", "succeed"); ("FAILURE", "failed")]%string.

Definition kling_taskStatus (task : task_view) : hook (list (jsstr * jsval)) :=
  match tv_data task with
  | VObj result =>
      let data := default VUndef (prop_get (js "data") result) in
      with_task_id (VObj result) (if is_object data then data else VObj []) (tv_task_id task)
  | _ =>
      let? status := table_get NATIVE_STATUSES (VStr (tv_status task)) in
      Ok [(js "code", VNum n_zero);
          (js "data", VObj [(js "task_id", VStr (tv_task_id task));
                            (js "task_status", VStr (default (js "submitted") status));
                            (js "task_status_msg", VStr (default [] (tv_fail_reason task)))])]
  end.

(** [native.error] *)
Definition kling_error (code message : jsstr) : list (jsstr * jsval) :=
  [(js "code", VStr code); (js "message", VStr message)].

(** ** The driver *)

(** The action of the route, or the one the request implies. *)
Definition submit_action (ctx : driver_context) (image metadata_image image_tail : jsval) : jsstr :=
  if str_eqb (dx_action ctx) (js "text_to_video") || str_eqb (dx_action ctx) (js "image_to_video") then dx_action ctx
  else if truthy (js_or image (js_or metadata_image image_tail)) then js "image_to_video" else js "text_to_video".

(** [if (body.k) body.k = filePlaceholder(body.k)] *)
Definition placed (k : string) (body : list (jsstr * jsval)) : list (jsstr * jsval) :=
  let v := default VUndef (prop_get (js k) body) in
  if truthy v then prop_set (js k) (filePlaceholder v) body else body.

(** [if (!body.k) delete body.k] *)
Definition dropped (k : string) (body : list (jsstr * jsval)) : list (jsstr * jsval) :=
  if truthy (default VUndef (prop_get (js k) body)) then body else prop_delete (js k) body.

(** The body before its mode and duration are settled: the metadata of the client over
    the values of the request. *)
Definition merged_body (req metadata : jsval) (model : jsstr) : hook (list (jsstr * jsval)) :=
  let? prompt := member req "prompt" in
  let? image := member req "image" in
  let? mode := outboundMode req (VStr model) in
  let? size := member req "size" in
  let? ratio := aspectRatio size in
  assign [(js "prompt", prompt); (js "image", image); (js "mode", VStr mode); (js "aspect_ratio", VStr ratio);
          (js "model_name", VStr model); (js "model", VStr model); (js "cfg_scale", VNum (tenths 5))]
    (own_properties metadata).

Definition kling_buildSubmitRequest (ctx : driver_context) : hook request_descriptor :=
  let req := dx_requestBody ctx in
  let? stated := member req "metadata" in
  let metadata := js_or stated (VObj []) in
  let? image := member req "image" in
  let? metadata_image := member metadata "image" in
  let? image_tail := member metadata "image_tail" in
  let action := submit_action ctx image metadata_image image_tail in
  let model := if truthy_str (dx_upstreamModel ctx) then dx_upstreamModel ctx else js "kling-v1" in
  let? body := merged_body req metadata model in
  let? mode := outboundMode (VObj [(js "mode", default VUndef (prop_get (js "mode") body)); (js "metadata", metadata)]) (VStr model) in
  let body := prop_set (js "mode") (VStr mode) body in
  let? duration := kling_outboundDuration req in
  let body := prop_set (js "duration") (VStr (string_of_number duration)) body in
  let body := placed "image_tail" (placed "image" body) in
  let body := dropped "image" (dropped "prompt" body) in
  let? url := urlFor ctx action in
  let? token := tokenFor ctx in
  Ok (RequestDescriptor url (js "POST")
        [(js "Content-Type", js "application/json"); (js "Accept", js "application/json");
         (js "Authorization", js "Bearer " ++ token); (js "User-Agent", js "kling-sdk/1.0")]
        (Some body) (Some (VStr action)) false).

(** The upstream id of the task and the data kept with it. *)
Definition kling_parseSubmitResponse (body : jsval) : hook (jsval * jsval) :=
  let result := js_or body (VObj []) in
  let? code := member result "code" in
  if negb (strict_eqb code (VNum n_zero)) then
    let? message := member result "message" in
    let? text := text_of (js_or message (VStr (js "kling submit failed"))) in
    Err (Thrown text)
  else
    let? data := member result "data" in
    let? id := safe_member data "task_id" in
    if negb (truthy data) || negb (truthy id) then fail "missing task_id" else Ok (id, result).

(** The units reserved for a request. *)
Definition kling_extractUsage (ctx : driver_context) : hook (option (list (jsstr * jsval))) :=
  match dx_usagePurpose ctx with
  | Some ForBillingRatios => Ok None
  | _ =>
      let req := js_or (dx_requestBody ctx) (VObj []) in
      let? model := submitModel ctx req in
      let? duration := kling_outboundDuration req in
      let? mode := outboundMode req model in
      let? units := estimateUnits model mode duration in
      Ok (Some [(js "units", VNum units)])
  end.

Definition kling_buildQueryRequest (ctx : driver_context) : hook request_descriptor :=
  let? url := urlFor ctx (dx_action ctx) in
  let? token := tokenFor ctx in
  Ok (RequestDescriptor (url ++ js "/" ++ dx_taskId ctx) (js "GET")
        [(js "Accept", js "application/json"); (js "Authorization", js "Bearer " ++ token);
         (js "User-Agent", js "kling-sdk/1.0")] None None false).

Definition KLING_STATUSES : list (jsstr * jsstr) :=
  map (fun p => (js p.1, js p.2))
    [("submitted", "SUBMITTED"); ("processing", "IN_PROGRESS"); ("succeed", "SUCCESS"); ("failed", "FAILURE")]%string.

(** [NormalizedTaskResult]: the code and the id of an answer with a known status, the
    address of the video, the tokens, which are counted twice. *)
Record kling_result := KlingResult {
  kr_known : option (jsval * jsval);
  kr_status : jsstr;
  kr_reason : jsval;
  kr_url : option jsval;
  kr_tokens : option num;
}.

(** [videos.length && videos\[0\].url] *)
Definition first_url (videos : jsval) : hook (option jsval) :=
  let? len := member videos "length" in
  if truthy len then
    let? first := first_item videos in
    let? url := member first "url" in
    Ok (if truthy url then Some url else None)
  else Ok None.

Definition kling_parseTaskResult (body : jsval) : hook kling_result :=
  let? data := member body "data" in
  let data := js_or data (VObj []) in
  let? state := member data "task_status" in
  let? status := table_get KLING_STATUSES state in
  match status with
  | None =>
      let? text := text_of (js_or state (VStr [])) in
      Ok (KlingResult None (js "UNKNOWN") (VStr (js "unknown task status: " ++ text)) None None)
  | Some status =>
      let? result := member data "task_result" in
      let? listed := safe_member result "videos" in
      let videos := if str_eqb status (js "SUCCESS") && truthy result && truthy listed then listed else VArr [] in
      let? code := member body "code" in
      let? id := member data "task_id" in
      let? reason := member data "task_status_msg" in
      let? url := first_url videos in
      let? deducted := member data "final_unit_deduction" in
      let? text := text_of (js_or deducted (VStr [])) in
      let units := parseFloat text in
      Ok (KlingResult (Some (js_or code (VNum n_zero), id)) status (js_or reason (VStr [])) url
            (if is_finite units && n_gtb units n_zero then Some (n_ceil units) else None))
  end.

Definition kling_artifactVideoURL (data : jsval) : hook jsstr :=
  let? answer := artifactData data in
  let? inner := member answer "data" in
  let? result := member (js_or inner (VObj [])) "task_result" in
  let? videos := member (js_or result (VObj [])) "videos" in
  match videos with
  | VArr (first :: _) => let? u := member first "url" in trimmed_text u
  | _ => Ok []
  end.

Definition kling_listArtifacts (status : jsstr) (data : jsval) : hook (list task_artifact) :=
  if str_eqb status (js "SUCCESS") then
    let? url := kling_artifactVideoURL data in
    Ok (if truthy_str url then [TaskArtifact (js "video") (js "video")] else [])
  else Ok [].

Definition kling_buildContentRequest (ctx : driver_context) : hook request_descriptor :=
  if negb (str_eqb (dx_artifactKey ctx) (js "video")) then fail "artifact_not_found"
  else
    let? url := kling_artifactVideoURL (dx_data ctx) in
    if truthy_str url then Ok (RequestDescriptor url (dx_method ctx) [] None None true)
    else fail "artifact_not_found".

(** The units Kling deducted, which settle the task. *)
Definition kling_extractUsageOnComplete (body : jsval) : hook (option (list (jsstr * jsval))) :=
  let? inner := safe_member body "data" in
  match js_or inner (VObj []) with
  | VObj data =>
      match prop_get (js "final_unit_deduction") data with
      | None | Some VUndef | Some VNull | Some (VStr []) => Ok None
      | Some v =>
          let? text := text_of v in
          let units := parseFloat text in
          Ok (if is_finite units then Some [(js "units", VNum units)] else None)
      end
  | _ => Ok None
  end.

(** ** The OpenAI protocols *)

Definition upstream_or (ctx : decode_context) (other : jsval) : jsval :=
  js_or (match dc_upstreamModel ctx with Some m => VStr m | None => VUndef end) other.

(** The metadata with the mode of the request, checked, and the second image as the tail. *)
Definition responses_metadata (ctx : decode_context) (req : list (jsstr * jsval)) (model : jsstr) (images : list jsstr)
  : hook (list (jsstr * jsval)) :=
  let? metadata := assign [] (own_properties (js_or (default VUndef (prop_get (js "metadata") req)) (VObj []))) in
  let metadata := match prop_get (js "mode") req with Some v => prop_set (js "mode") v metadata | None => metadata end in
  let? mode := resolveKlingMode (upstream_or ctx (VStr model)) (default VUndef (prop_get (js "mode") metadata)) in
  let metadata := prop_set (js "mode") (VStr mode) metadata in
  Ok (match images with
      | _ :: second :: _ =>
          if truthy (default VUndef (prop_get (js "image_tail") metadata)) then metadata
          else prop_set (js "image_tail") (VStr second) metadata
      | _ => metadata
      end).

Definition kling_responses_decodeRequest (ctx : decode_context) : hook submit_intent :=
  let? (req, model) := responses_request (fun _ => VStr (dc_model ctx)) (dc_body ctx) in
  let? (input_prompt, input_images) := responsesInput req in
  let? prompt :=
    if truthy_str input_prompt then Ok input_prompt
    else trimmed_text (default VUndef (prop_get (js "prompt") req)) in
  let? images := request_images req input_images in
  if negb (truthy_str prompt) && match images with [] => true | _ => false end then fail "input is required"
  else
    let? metadata := responses_metadata ctx req model images in
    Ok (SubmitIntent (VStr model) (VStr (match images with [] => js "text_to_video" | _ => js "image_to_video" end))
          ([(js "model", VStr model); (js "prompt", VStr prompt); (js "metadata", VObj metadata)]
           ++ optional "image" (VStr <$> head images)
           ++ optional "duration" (own_or req "seconds" "duration")
           ++ optional "size" (prop_get (js "size") req))).

(** The file of a multipart request as an image. *)
Definition kling_reference_file : jsval :=
  VObj [(js "__fileRef", VStr (js "request_file:input_reference")); (js "encoding", VStr (js "base64"));
        (js "maxBytes", VNum (n_of_Z 10485760))].

(** [req.image] from the file or the reference. *)
Definition with_image (req : list (jsstr * jsval)) (file : bool) : hook (list (jsstr * jsval)) :=
  let get := fun k => default VUndef (prop_get (js k) req) in
  if file then Ok (prop_set (js "image") kling_reference_file req)
  else
    let? image := trimmed_text (js_or (get "input_reference"%string) (get "image"%string)) in
    Ok (if truthy_str image then prop_set (js "image") (VStr image) req else req).

Definition kling_video_decodeRequest (ctx : decode_context) : hook submit_intent :=
  let? (req, file) := video_request (dc_body ctx) in
  let? duration := match stated_seconds req with VUndef => Ok (n_of_Z 5) | v => validateKlingDuration v end in
  let req := prop_set (js "duration") (VNum duration) req in
  let? req := with_image req file in
  let get := fun k => default VUndef (prop_get (js k) req) in
  let model := upstream_or ctx (js_or (VStr (dc_model ctx)) (js_or (get "model"%string) (VStr (js "kling-v1")))) in
  let? other := member (js_or (get "metadata"%string) (VObj [])) "mode" in
  let? mode := resolveKlingMode model (js_or (get "mode"%string) other) in
  let req := prop_set (js "mode") (VStr mode) req in
  let? hasImage := hasKlingImage (VObj req) file in
  let? body := assign [] req in
  Ok (SubmitIntent (VStr (dc_model ctx)) (VStr (if hasImage : bool then js "image_to_video" else js "text_to_video"))
        (prop_set (js "model") (VStr (dc_model ctx)) body)).

(** ** Rendering *)

(** [protocols.openai_video.render] *)
Definition kling_render (task : task_view) : hook (list (jsstr * jsval)) :=
  let response := js_or (tv_data task) (VObj []) in
  let? inner := member response "data" in
  let data := js_or inner (VObj []) in
  let? status := table_get VIDEO_STATUSES (VStr (tv_status task)) in
  let progress := match tv_progress task with Some p => if truthy_str p then p else js "0" | None => js "0" end in
  let? created := member data "created_at" in
  let output :=
    [(js "id", VStr (tv_task_id task)); (js "object", VStr (js "video")); (js "model", VStr []);
     (js "status", VStr (default (js "unknown") status));
     (js "progress", VNum (number_of_string (replace_first (ch "%") [] progress)));
     (js "created_at", js_or created (VNum n_zero))] in
  let? updated := member data "updated_at" in
  let output := if truthy updated then output ++ [(js "completed_at", updated)] else output in
  let? result := member data "task_result" in
  let? listed := safe_member result "videos" in
  let videos := if truthy result && truthy listed then listed else VArr [] in
  let? len := member videos "length" in
  let? seconds := if truthy len then let? first := first_item videos in member first "duration" else Ok VUndef in
  let output := if truthy seconds then output ++ [(js "seconds", seconds)] else output in
  let? code := member response "code" in
  let? message := member response "message" in
  let? output :=
    if negb (strict_eqb code (VNum n_zero)) && truthy message then
      let? text := text_of code in
      Ok (prop_set (js "error") (VObj [(js "message", message); (js "code", VStr text)]) output)
    else Ok output in
  let? state := member data "task_status" in
  let? reason := member data "task_status_msg" in
  Ok (if strict_eqb state (VStr (js "failed"))
      then prop_set (js "error") (VObj [(js "message", reason); (js "code", VStr [])]) output else output).

(** [protocols.openai_responses.renderFinal] *)
Definition kling_renderFinal (artifact : option jsstr) : hook jsval := renderFinal (js "kling") artifact.
End hooks.
