(* ===== verification/PluginKlingSpec.v ===== *)
(** * Properties of the Kling plugin *)

From S2P Require Import Prelude JsString JsNumber JsIntSpec JsPrintSpec JsRegex JsValue JsJson ExprTypes ExprParser ExprCompile ExprCompileSpec ExprRuntime ExprDisplay ExprDisplaySpec PluginApi PluginKling.

Section kling.
Context `{Host} {U : PluginUtils}.

(** ** Modes *)

Lemma mode_named model v mode : resolveKlingMode model v = Ok mode -> mode = js "std" \/ mode = js "pro".
Proof.
  unfold resolveKlingMode. destruct (trimmed_text v) as [text|]; [|done]. cbv zeta.
  destruct (strict_eqb _ _).
  - destruct (str_eqb _ _); [done|]. destruct (_ && _); [done|]. intros [= <-]. by right.
  - destruct (negb _); [intros [= <-]; by left|].
    destruct (str_eqb (to_lower text) (js "std")) eqn:E1; [apply str_eqb_eq in E1; intros [= <-]; by left|].
    destruct (str_eqb (to_lower text) (js "pro")) eqn:E2; [apply str_eqb_eq in E2; intros [= <-]; by right|done].
Qed.

(** A mode that was settled stays. *)
Lemma mode_settled model v mode : resolveKlingMode model v = Ok mode -> resolveKlingMode model (VStr mode) = Ok mode.
Proof.
  intros Hm. destruct (mode_named model v mode Hm) as [-> | ->]; unfold resolveKlingMode in *; cbn [trimmed_text].
  - destruct (strict_eqb model _); [|reflexivity]. exfalso. destruct (trimmed_text v) as [text|]; [|done].
    destruct (str_eqb _ _); [done|]. by destruct (_ && _).
  - by destruct (strict_eqb model _).
Qed.

(** ** Duration *)

Lemma number_valid v : json_ok v = true -> valid_num (number_of_value v) = true.
Proof.
  destruct v as [| |[]|x|s|l|o]; try done; cbn [json_ok number_of_value]; intros Hv; try apply number_of_string_valid.
  by apply andb_true_iff in Hv as [[? _]%andb_true_iff _].
Qed.

(** The duration that is sent is a whole number of seconds up to an hour. *)
Definition billable (d : num) : Prop := exists z, (1 <= z <= 3600)%Z /\ d = n_of_Z z.

Lemma validated_billable v d : json_ok v = true -> validateKlingDuration v = Ok d -> billable d.
Proof.
  intros Hv. unfold validateKlingDuration, num_of. destruct (converts v); [|done].
  destruct (is_integer _) eqn:Hi; [|done]. destruct (n_leb _ _) eqn:Hlo; [done|]. destruct (n_gtb _ _) eqn:Hhi; [done|].
  intros [= <-]. by apply seconds_integer; [apply number_valid|..].
Qed.

Lemma json_member o k v : json_ok (VObj o) = true -> prop_get k o = Some v -> json_ok v = true.
Proof.
  cbn [json_ok]. intros [_ Hf]%andb_true_iff. unfold prop_get. induction o as [|[k' w] o IH]; [done|]. cbn [assoc_get forallb snd] in *.
  apply andb_true_iff in Hf as [Hw Hf]. destruct (str_eqb k k'); [by intros [= <-]|by apply IH].
Qed.

Lemma json_got o k v : json_ok (VObj o) = true -> default VUndef (prop_get k o) = v -> is_nullish v = false -> json_ok v = true.
Proof. intros Ho <- Hn. destruct (prop_get k o) as [w|] eqn:E; [by eapply json_member|done]. Qed.

(** The metadata of a request body. *)
Definition metadata_in (o : list (jsstr * jsval)) : jsval := js_or (default VUndef (prop_get (js "metadata") o)) (VObj []).

Lemma metadata_json o : json_ok (VObj o) = true -> json_ok (metadata_in o) = true.
Proof.
  intros Ho. unfold metadata_in, js_or. destruct (truthy _) eqn:Et; [|done].
  eapply json_got; [exact Ho|reflexivity|]. by destruct (default VUndef (prop_get (js "metadata") o)).
Qed.

Lemma metadata_truthy o : truthy (metadata_in o) = true.
Proof. unfold metadata_in, js_or. by destruct (truthy (default VUndef _)) eqn:E. Qed.

Lemma metadata_member o k : exists v, member (metadata_in o) k = Ok v.
Proof. pose proof (metadata_truthy o). destruct (metadata_in o); try done; by eexists. Qed.

Lemma outbound_billable o d : json_ok (VObj o) = true -> kling_outboundDuration (VObj o) = Ok d -> billable d.
Proof.
  intros Ho. unfold kling_outboundDuration. change (metadata_of (VObj o)) with (Ok (metadata_in o) : hook jsval). cbv iota.
  destruct (member (metadata_in o) "duration") as [v|] eqn:Ev; [|done].
  assert (Hrest : forall w, (if is_nullish w then Ok (n_of_Z 5) else validateKlingDuration w) = Ok d ->
    (is_nullish w = false -> json_ok w = true) -> billable d).
  { intros w Hw Hj. destruct (is_nullish w); [injection Hw as <-; by exists 5%Z|]. eapply validated_billable; [by apply Hj|done]. }
  destruct (is_nullish v) eqn:En; intros Hd.
  - cbn [safe_member truthy member] in Hd. eapply Hrest; [exact Hd|]. intros Hn. by eapply json_got.
  - apply (Hrest v); [exact Hd|]. intros _. pose proof (metadata_json o Ho) as Hm.
    destruct (metadata_in o) as [| |b|x|s|l|m]; cbn [member] in Ev; try (injection Ev as <-; done); [done|done|].
    injection Ev as <-. exact (json_got m _ _ Hm eq_refl En).
Qed.

(** ** The body that is sent *)

Lemma placed_get k k' body : str_eqb k (js k') = false -> prop_get k (placed k' body) = prop_get k body.
Proof. intros Hk. unfold placed, prop_get. destruct (truthy _); [|done]. by rewrite prop_get_set, Hk. Qed.

Lemma dropped_get k k' body : str_eqb k (js k') = false -> prop_get k (dropped k' body) = prop_get k body.
Proof. intros Hk. unfold dropped, prop_get. destruct (truthy _); [done|]. by rewrite prop_get_delete, Hk. Qed.

(** What the client's metadata puts over the fields of the request that is sent. *)
Definition overrides (o : list (jsstr * jsval)) : list (jsstr * jsval) := own_properties (metadata_in o).

(** The request names its mode once: at its top level, or in its metadata. *)
Definition one_mode (o : list (jsstr * jsval)) : Prop :=
  prop_get (js "mode") (overrides o) = None \/
  truthy (default VUndef (prop_get (js "mode") o)) = false /\ exists m, metadata_in o = VObj m.

(** Only an object has properties that are not numbers of positions. *)
Lemma index_digits i : forallb is_digit (str_of_nat i) = true.
Proof.
  unfold str_of_nat, str_of_Z. destruct (Z.ltb_spec (Z.of_nat i) 0); [lia|].
  by apply (digits_of_Z_digits (Z.of_nat i)); lia.
Qed.

Lemma indexed_key {A} (g : A -> jsval) k v l : forallb is_digit k = false ->
  prop_get k (imap (fun i x => (str_of_nat i, g x)) l) <> Some v.
Proof.
  intros Hk Hg%assoc_get_In%list_elem_of_In%elem_of_lookup_imap. destruct Hg as (i & x & [= -> _] & _).
  by rewrite index_digits in Hk.
Qed.

Lemma named_override o k v : forallb is_digit k = false -> prop_get k (overrides o) = Some v ->
  exists m, metadata_in o = VObj m.
Proof.
  intros Hk. unfold overrides. destruct (metadata_in o) as [| | | |s|l|m]; try done; [| |by exists m]; intros Hg; exfalso.
  - by eapply (indexed_key (fun c => VStr [c])).
  - by eapply (indexed_key (fun x => x)).
Qed.

(** The mode that is settled again for the request that is sent. *)
Definition sent_mode (o : list (jsstr * jsval)) (m mode : jsstr) : hook jsstr :=
  match prop_get (js "mode") (overrides o) with
  | Some v => resolveKlingMode (VStr m) v
  | None => Ok mode
  end.

(** Merging the metadata over the body leaves the mode as it was settled, unless it has one. *)
Lemma merged_mode o m body sent : json_ok (VObj o) = true -> merged_body (VObj o) (metadata_in o) m = Ok body ->
  outboundMode (VObj [(js "mode", default VUndef (prop_get (js "mode") body)); (js "metadata", metadata_in o)]) (VStr m) = Ok sent ->
  exists mode, outboundMode (VObj o) (VStr m) = Ok mode /\ sent_mode o m mode = Ok sent /\ (one_mode o -> sent = mode).
Proof.
  intros Ho. unfold merged_body. cbn [member]. destruct (outboundMode (VObj o) (VStr m)) as [mode|] eqn:Em; [|done].
  destruct (aspectRatio _) as [ratio|]; [|done]. unfold assign. destruct (existsb _ _); [done|]. intros [= <-].
  intros Hsent. exists mode. split; [done|]. unfold outboundMode in *.
  change (metadata_of (VObj o)) with (Ok (metadata_in o) : hook jsval) in Em. cbv iota in Em.
  match type of Hsent with context [metadata_of ?r] => assert (Hmd : metadata_of r = Ok (metadata_in o)) end.
  { unfold metadata_of. cbn [safe_member truthy member]. change (prop_get (js "metadata") _) with (Some (metadata_in o)) at 1.
    unfold js_or. cbn [default]. unfold id. by rewrite metadata_truthy. }
  rewrite Hmd in Hsent. cbv iota in Hsent. clear Hmd. destruct (metadata_member o "mode") as [other Hother]. rewrite Hother in *. cbv iota in *.
  cbn [safe_member truthy member] in Em, Hsent.
  match type of Hsent with resolveKlingMode _ (js_or (default VUndef (prop_get (js "mode") [(_, ?v); _])) _) = _ =>
    change (resolveKlingMode (VStr m) (js_or v other) = Ok sent) in Hsent end.
  unfold sent_mode, one_mode. destruct (prop_get (js "mode") (overrides o)) as [v|] eqn:Eown.
  - destruct (named_override o (js "mode") v) as [mo Hmo]; [done..|].
    unfold overrides in *. rewrite Hmo in *. cbn [own_properties member] in *. injection Hother as <-.
    pose proof (metadata_json o Ho) as Hj. rewrite Hmo in Hj. cbn [json_ok] in Hj. apply andb_true_iff in Hj as [Hj _].
    rewrite (assigned_get _ _ Hj), Eown in *. cbn [default] in *. unfold id, js_or in *.
    assert (Hv : resolveKlingMode (VStr m) v = Ok sent) by (by destruct (truthy v)). split; [done|].
    intros [?|[Hf _]]; [done|]. rewrite Hf in Em. congruence.
  - unfold overrides in *. rewrite assigned_absent in Hsent by done. unfold js_or in Hsent.
    change (prop_get (js "mode") _) with (Some (VStr mode)) in Hsent. cbn [default] in Hsent. unfold id in Hsent.
    assert (Hs : resolveKlingMode (VStr m) (VStr mode) = Ok sent) by (by destruct (mode_named _ _ _ Em) as [-> | ->]).
    rewrite (mode_settled _ _ _ Em) in Hs. injection Hs as ->. done.
Qed.

(** The model that is sent: that of the channel, or that of the metadata. *)
Lemma merged_model o m body : json_ok (VObj o) = true -> merged_body (VObj o) (metadata_in o) m = Ok body ->
  prop_get (js "model_name") body = Some (default (VStr m) (prop_get (js "model_name") (overrides o))).
Proof.
  intros Ho. unfold merged_body. cbn [member]. destruct (outboundMode (VObj o) (VStr m)) as [mode|]; [|done].
  destruct (aspectRatio _) as [ratio|]; [|done]. unfold assign. destruct (existsb _ _); [done|]. intros [= <-].
  fold (overrides o). destruct (prop_get (js "model_name") (overrides o)) as [v|] eqn:E.
  - destruct (named_override o (js "model_name") v) as [mo Hmo]; [done..|]. unfold overrides in *. rewrite Hmo in *.
    cbn [own_properties] in *. pose proof (metadata_json o Ho) as Hj. rewrite Hmo in Hj. cbn [json_ok] in Hj.
    apply andb_true_iff in Hj as [Hj _]. by rewrite (assigned_get _ _ Hj), E.
  - by rewrite assigned_absent.
Qed.

(** What is sent is the duration that is billed, and the mode and the model that are billed
    unless the metadata has others. *)
Lemma kling_sent driver o request : dx_requestBody driver = VObj o -> json_ok (VObj o) = true ->
  truthy_str (dx_upstreamModel driver) = true -> kling_buildSubmitRequest driver = Ok request ->
  exists body d mode sent, rd_body request = Some body /\
    kling_outboundDuration (VObj o) = Ok d /\ prop_get (js "duration") body = Some (VStr (string_of_number d)) /\
    outboundMode (VObj o) (VStr (dx_upstreamModel driver)) = Ok mode /\ prop_get (js "mode") body = Some (VStr sent) /\
    sent_mode o (dx_upstreamModel driver) mode = Ok sent /\ (one_mode o -> sent = mode) /\
    prop_get (js "model_name") body = Some (default (VStr (dx_upstreamModel driver)) (prop_get (js "model_name") (overrides o))).
Proof.
  intros Hreq Ho Hm. unfold kling_buildSubmitRequest. rewrite Hreq, Hm. cbv zeta. cbn [member].
  change (js_or (default VUndef (prop_get (js "metadata") o)) (VObj [])) with (metadata_in o).
  destruct (metadata_member o "image") as [mi ->]. destruct (metadata_member o "image_tail") as [mt ->].
  destruct (merged_body _ _ _) as [body|] eqn:Eb; [|done].
  destruct (outboundMode (VObj [_; _]) _) as [sent|] eqn:Es; [|done].
  destruct (merged_mode o _ body sent Ho Eb Es) as (mode & Hm1 & Hm2 & Hone).
  destruct (kling_outboundDuration (VObj o)) as [d|]; [|done].
  destruct (urlFor _ _) as [url|]; [|done]. destruct (tokenFor driver) as [token|]; [|done]. intros [= <-].
  eexists _, d, mode, sent. split; [reflexivity|]. split; [done|]. rewrite !dropped_get, !placed_get by done.
  pose proof (merged_model o _ body Ho Eb) as Hmodel. unfold prop_get in *. rewrite !prop_get_set. done.
Qed.

(** ** Units *)

(** The rates of the price list, for the modes a model has; other models are charged as the first. *)
Inductive listed_rate : jsstr -> jsstr -> Z -> Prop :=
| rate_std m : m <> js "kling-v1-6" -> m <> js "kling-v2-master" -> listed_rate m (js "std") 2
| rate_pro m : m <> js "kling-v2-master" -> listed_rate m (js "pro") 7
| rate_16_std : listed_rate (js "kling-v1-6") (js "std") 4
| rate_master : listed_rate (js "kling-v2-master") (js "pro") 20.

(** A model name is no name that every object has. *)
Definition rated_name (m : jsstr) : bool := truthy_str m && negb (str_mem m OBJECT_MEMBERS).

Lemma rate_listed m v mode : rated_name m = true -> resolveKlingMode (VStr m) v = Ok mode ->
  exists r, listed_rate m mode r /\ perSecondRate (VStr m) mode = Ok (tenths r).
Proof.
  intros [_ Hn%negb_true_iff]%andb_true_iff Hm. pose proof (mode_named _ _ _ Hm) as Hmode.
  assert (Hmaster : m = js "kling-v2-master" -> mode = js "pro").
  { intros ->. destruct Hmode as [-> | ->]; [|done]. apply mode_settled in Hm. by vm_compute in Hm. }
  clear Hm. unfold perSecondRate, table_get, text_of. cbn [converts string_of_value UNITS_PER_SECOND assoc_get].
  destruct (str_eqb m (js "kling-v1")) eqn:E1.
  { apply str_eqb_eq in E1 as ->. destruct Hmode as [-> | ->]; eexists; (split; [by constructor|reflexivity]). }
  destruct (str_eqb m (js "kling-v1-6")) eqn:E2.
  { apply str_eqb_eq in E2 as ->. destruct Hmode as [-> | ->]; eexists; (split; [by constructor|reflexivity]). }
  destruct (str_eqb m (js "kling-v2-master")) eqn:E3.
  { apply str_eqb_eq in E3 as ->. rewrite Hmaster by done. eexists. split; [by constructor|reflexivity]. }
  rewrite Hn. assert (m <> js "kling-v1-6") by (by intros ->). assert (m <> js "kling-v2-master") by (by intros ->).
  destruct Hmode as [-> | ->]; eexists; (split; [by constructor|reflexivity]).
Qed.

(** The units of every rate and duration, by computation. *)
Definition units_fit (r : Z) : bool :=
  forallb (fun n => let u := n_mul (tenths r) (n_of_nat (S n)) in n_gtb u n_zero && n_leb u (n_of_Z 7200)) (List.seq 0 3600).

Lemma units_bounded m mode r d : listed_rate m mode r -> billable d ->
  n_gtb (n_mul (tenths r) d) n_zero = true /\ n_leb (n_mul (tenths r) d) (n_of_Z 7200) = true.
Proof.
  intros Hr (z & Hz & ->). assert (Hfit : units_fit r = true) by (destruct Hr; vm_compute; reflexivity).
  unfold units_fit in Hfit. rewrite forallb_forall in Hfit. specialize (Hfit (Z.to_nat (z - 1))).
  replace (n_of_nat (S (Z.to_nat (z - 1)))) with (n_of_Z z) in Hfit by (unfold n_of_nat; f_equal; lia).
  apply andb_true_iff, Hfit, in_seq. lia.
Qed.

(** ** Accepted requests *)

(** A request a decoder accepts. *)
Inductive kling_accepted (ctx : decode_context) (intent : submit_intent) : Prop :=
| kling_native : decodeNativeSubmit ctx = Ok intent -> kling_accepted ctx intent
| kling_responses : kling_responses_decodeRequest ctx = Ok intent -> kling_accepted ctx intent
| kling_video : kling_video_decodeRequest ctx = Ok intent -> kling_accepted ctx intent.

(** Native requests and Responses have their mode in the metadata alone. *)
Lemma decoded_one_mode ctx intent :
  decodeNativeSubmit ctx = Ok intent \/ kling_responses_decodeRequest ctx = Ok intent -> one_mode (si_requestBody intent).
Proof.
  intros [Hd|Hd]; right.
  - unfold decodeNativeSubmit in Hd. destruct (dc_body ctx) as [[| | | | | |body]| | |]; try done.
    destruct (negb _); [done|]. injection Hd as <-. split; [done|by exists body].
  - unfold kling_responses_decodeRequest in Hd. destruct (responses_request _ _) as [[req model]|]; [|done].
    destruct (responsesInput req) as [[ip ii]|]; [|done]. destruct (if truthy_str ip then _ else _) as [prompt|]; [|done].
    destruct (request_images req ii) as [images|]; [|done]. destruct (_ && _); [done|].
    destruct (responses_metadata _ _ _ _) as [metadata|]; [|done]. injection Hd as <-. split; [|by exists metadata].
    cbn [si_requestBody]. by destruct (head images), (own_or req _ _), (prop_get (js "size") req).
Qed.

(** C23: the units reserved for a request the Kling plugin accepts are the listed rate of
    the upstream model for the mode the request states, times the duration that is sent,
    whatever the metadata of the client says: a whole number of seconds from 1 to 3600;
    and they are at most 7200.  The mode and the model that are sent are those billed,
    except that the metadata of the client, merged over the request, replaces them where it
    has its own: a [mode] is settled again and sent, which cannot differ on the native and
    the Responses routes, where it is the mode that is billed; a [model_name] is sent as it
    is. *)
Theorem kling_billed_as_sent ctx intent driver request :
  kling_accepted ctx intent -> let o := si_requestBody intent in let model := dx_upstreamModel driver in
  json_ok (VObj o) = true -> dx_requestBody driver = VObj o -> rated_name model = true ->
  dx_usagePurpose driver <> Some ForBillingRatios -> kling_buildSubmitRequest driver = Ok request ->
  exists body seconds mode sent rate,
    rd_body request = Some body /\
    prop_get (js "duration") body = Some (VStr (string_of_number (n_of_Z seconds))) /\ (1 <= seconds <= 3600)%Z /\
    (let units := n_mul (tenths rate) (n_of_Z seconds) in
     kling_extractUsage driver = Ok (Some [(js "units", VNum units)]) /\
     n_gtb units n_zero = true /\ n_leb units (n_of_Z 7200) = true) /\
    outboundMode (VObj o) (VStr model) = Ok mode /\ listed_rate model mode rate /\
    prop_get (js "mode") body = Some (VStr sent) /\
    match prop_get (js "mode") (overrides o) with None => sent = mode | Some v => resolveKlingMode (VStr model) v = Ok sent end /\
    (decodeNativeSubmit ctx = Ok intent \/ kling_responses_decodeRequest ctx = Ok intent -> sent = mode) /\
    prop_get (js "model_name") body = Some (default (VStr model) (prop_get (js "model_name") (overrides o))).
Proof.
  intros Ha o model Hj Hbody Hname Hp Hs.
  assert (Ht : truthy_str model = true) by (by apply andb_true_iff in Hname as [? _]).
  destruct (kling_sent driver o request Hbody Hj Ht Hs) as (body & d & mode & sent & Hb & Hd & Hgd & Hm & Hgm & Hsent & Hone & Hgn).
  destruct (outbound_billable o d Hj Hd) as (z & Hz & ->).
  assert (Hres : exists v, resolveKlingMode (VStr model) v = Ok mode).
  { unfold outboundMode in Hm. destruct (metadata_of _); [|done]. destruct (safe_member _ _); [|done]. destruct (member _ _); [|done]. by eexists. }
  destruct Hres as [v Hv]. destruct (rate_listed _ v mode Hname Hv) as (r & Hl & Hr).
  exists body, z, mode, sent, r. do 3 (split; [done|]). split; [split; [|by eapply units_bounded; [|exists z]]|split_and!; try done].
  - assert (Hmodel : submitModel driver (VObj o) = Ok (VStr model)).
    { unfold submitModel, js_or. cbn [safe_member truthy member]. fold model. by rewrite Ht. }
    unfold kling_extractUsage. rewrite Hbody. change (js_or (VObj o) (VObj [])) with (VObj o). rewrite Hmodel, Hd.
    cbv iota. fold model in Hm. rewrite ?Hm. cbv iota. unfold estimateUnits. rewrite Hr. by destruct (dx_usagePurpose driver) as [[]|].
  - unfold sent_mode in Hsent. fold model in Hsent.
    destruct (prop_get (js "mode") (overrides o)); [done|]. by injection Hsent.
  - intros Hdec. by apply Hone, (decoded_one_mode ctx).
Qed.

(** A result of a native route has the id of the host, not the id of the vendor. *)
Lemma native_task_id task out : kling_taskCreated task = Ok out \/ kling_taskStatus task = Ok out ->
  exists data, prop_get (js "data") out = Some (VObj data) /\ prop_get (js "task_id") data = Some (VStr (tv_task_id task)).
Proof.
  assert (Hw : forall result data id, with_task_id result data id = Ok out ->
    exists data, prop_get (js "data") out = Some (VObj data) /\ prop_get (js "task_id") data = Some (VStr id)).
  { intros result data id. unfold with_task_id. destruct (assign [] (own_properties result)) as [outer|]; [|done].
    destruct (assign [] (own_properties data)) as [inner|]; [|done]. intros [= <-].
    exists (prop_set (js "task_id") (VStr id) inner). unfold prop_get. rewrite !prop_get_set, !str_eqb_refl. split; reflexivity. }
  intros [Ht|Ht].
  - unfold kling_taskCreated in Ht. destruct (member _ _); [|done]. by eapply Hw.
  - unfold kling_taskStatus in Ht. destruct (tv_data task).
    7: by eapply Hw.
    all: destruct (table_get _ _); [|done]; injection Ht as <-; eexists; split; reflexivity.
Qed.
End kling.

(** ** Concrete requests *)

#[local] Instance plain_utils : PluginUtils := {| unixNow := n_zero; jwtSignHS256 := fun _ secret => secret |}.

(** A request of eight seconds whose metadata asks for ten. *)
Definition kling_request : decode_context :=
  DecodeContext (js "/v1/videos") (BodyJson (VObj
    [(js "model", VStr (js "kling-v1")); (js "prompt", VStr (js "a cat")); (js "seconds", VStr (js "8")); (js "mode", VStr (js "pro"));
     (js "metadata", VObj [(js "duration", VNum (n_of_Z 10)); (js "cfg_scale", VNum (n_of_Z 1))])]))
    (js "kling-v1") None.

Definition kling_body (ctx : decode_context) : list (jsstr * jsval) :=
  match kling_video_decodeRequest (H := plain_host) ctx with Ok i => si_requestBody i | Err _ => [] end.

Definition kling_driver (ctx : decode_context) : driver_context :=
  DriverContext (VObj (kling_body ctx)) [] (js "kling-v1") (js "kling-v1") (js "https://api.klingai.com") (Some (js "ak|sk"))
    false [] (Some ForFacts) [] [] [] VUndef [].

Lemma kling_billed_as_sent_witness : exists intent request body,
  kling_video_decodeRequest (H := plain_host) kling_request = Ok intent /\
  kling_buildSubmitRequest (H := plain_host) (kling_driver kling_request) = Ok request /\ rd_body request = Some body /\
  kling_extractUsage (H := plain_host) (kling_driver kling_request) = Ok (Some [(js "units", VNum (n_mul (tenths 7) (n_of_Z 10)))]) /\
  prop_get (js "duration") body = Some (VStr (js "10")) /\ prop_get (js "mode") body = Some (VStr (js "pro")) /\
  prop_get (js "model_name") body = Some (VStr (js "kling-v1")).
Proof.
  destruct (kling_video_decodeRequest (H := plain_host) kling_request) as [intent|] eqn:Ei; [|vm_compute in Ei; discriminate Ei].
  destruct (kling_buildSubmitRequest (H := plain_host) (kling_driver kling_request)) as [request|] eqn:Er; [|vm_compute in Er; discriminate Er].
  assert (Hb : si_requestBody intent = kling_body kling_request) by (unfold kling_body; rewrite Ei; reflexivity).
  destruct (kling_billed_as_sent (H := plain_host) kling_request intent (kling_driver kling_request) request)
    as (body & z & mode & sent & r & H1 & _ & _ & _ & _ & _ & _ & _ & _ & H2).
  - apply kling_video. exact Ei.
  - rewrite Hb. vm_compute. reflexivity.
  - rewrite Hb. reflexivity.
  - vm_compute. reflexivity.
  - discriminate.
  - exact Er.
  - exists intent, request, body. split; [reflexivity|]. split; [reflexivity|]. split; [exact H1|].
    rewrite Hb in H2. vm_compute in Er. injection Er as <-. injection H1 as <-.
    split; [vm_compute; reflexivity|]. split; [vm_compute; reflexivity|]. split; [vm_compute; reflexivity|exact H2].
Defined.

(** A request that states one mode and puts another in its metadata. *)
Definition two_modes : decode_context :=
  DecodeContext (js "/v1/videos") (BodyJson (VObj
    [(js "prompt", VStr (js "a cat")); (js "mode", VStr (js "std")); (js "metadata", VObj [(js "mode", VStr (js "pro"))])]))
    (js "kling-v1") None.

Definition sent_property (k : string) (driver : driver_context) : option jsval :=
  match kling_buildSubmitRequest (H := plain_host) driver with
  | Ok request => match rd_body request with Some body => prop_get (js k) body | None => None end
  | Err _ => None
  end.

(** Five seconds are billed in the mode [std], one unit, and are sent in the mode [pro],
    of three and a half units. *)
Lemma metadata_mode_unbilled :
  kling_extractUsage (H := plain_host) (kling_driver two_modes) = Ok (Some [(js "units", VNum (n_of_Z 1))]) /\
  sent_property "mode" (kling_driver two_modes) = Some (VStr (js "pro")).
Proof. vm_compute. done. Qed.

(** A request that names another model in its metadata. *)
Definition other_model : decode_context :=
  DecodeContext (js "/v1/videos") (BodyJson (VObj
    [(js "prompt", VStr (js "a cat")); (js "mode", VStr (js "pro"));
     (js "metadata", VObj [(js "model_name", VStr (js "kling-v2-master"))])]))
    (js "kling-v1") None.

(** It is billed as the model of the channel, three and a half units, and sent to the
    model of the metadata, of ten units. *)
Lemma metadata_model_unbilled :
  kling_extractUsage (H := plain_host) (kling_driver other_model) = Ok (Some [(js "units", VNum (tenths 35))]) /\
  sent_property "model_name" (kling_driver other_model) = Some (VStr (js "kling-v2-master")).
Proof. vm_compute. done. Qed.

Example units_read : parseFloat (js " 3.50 units") = tenths 35.
Proof. reflexivity. Qed.
Example units_exponent : parseFloat (js "1e2x") = n_of_Z 100 /\ parseFloat (js "1ex") = n_of_Z 1.
Proof. split; reflexivity. Qed.
