(* ===== verification/ChatMessage.v ===== *)
(** * Messages of the playground

    Models [features/playground/types.ts] (messages), [constants.ts] and the message
    helpers under [features/playground/lib/message]: versions of a message, reasoning in
    [<think>] tags, timing, chunks of a streamed answer, errors, and edits of the
    conversation.

    A call that reads the clock more than once takes a [clock], its readings in order.
    Fresh ids ([nanoid]) are arguments. *)

From S2P Require Import Prelude JsString JsNumber JsValue JsArray.

(** ** Types *)

Inductive message_role : Type := RUser | RAssistant | RSystem.
Inductive message_status : Type := SLoading | SStreaming | SComplete | SError.

#[global] Instance message_role_eq_dec : EqDecision message_role.
Proof. solve_decision. Defined.
#[global] Instance message_status_eq_dec : EqDecision message_status.
Proof. solve_decision. Defined.

Record message_version := MessageVersion { mv_id : jsstr; mv_content : jsstr }.

Record reasoning := Reasoning {
  rs_content : jsstr;
  rs_duration : num;
  rs_startedAt : option num;
  rs_completedAt : option num;
  rs_durationMs : option num;
}.

(** [errorCode] is undefined, null or what the server sent. *)
Record message := Message {
  m_key : jsstr;
  m_from : message_role;
  m_versions : list message_version;
  m_createdAt : option num;
  m_startedAt : option num;
  m_completedAt : option num;
  m_durationMs : option num;
  m_sources : option (list (jsstr * jsstr));
  m_reasoning : option reasoning;
  m_isReasoningStreaming : option bool;
  m_isReasoningComplete : option bool;
  m_isContentComplete : option bool;
  m_status : option message_status;
  m_errorCode : jsval;
}.

Definition clock := nat -> num.

Definition has_role (r : message_role) (m : message) : bool := bool_decide (m_from m = r).
Definition has_status (s : message_status) (m : message) : bool := bool_decide (m_status m = Some s).

(** Object spreads that replace some fields. *)
Definition with_versions (vs : list message_version) (m : message) : message :=
  Message (m_key m) (m_from m) vs (m_createdAt m) (m_startedAt m) (m_completedAt m) (m_durationMs m) (m_sources m)
    (m_reasoning m) (m_isReasoningStreaming m) (m_isReasoningComplete m) (m_isContentComplete m) (m_status m) (m_errorCode m).
Definition with_createdAt (t : option num) (m : message) : message :=
  Message (m_key m) (m_from m) (m_versions m) t (m_startedAt m) (m_completedAt m) (m_durationMs m) (m_sources m)
    (m_reasoning m) (m_isReasoningStreaming m) (m_isReasoningComplete m) (m_isContentComplete m) (m_status m) (m_errorCode m).
Definition with_timing (started completed duration : num) (m : message) : message :=
  Message (m_key m) (m_from m) (m_versions m) (m_createdAt m) (Some started) (Some completed) (Some duration) (m_sources m)
    (m_reasoning m) (m_isReasoningStreaming m) (m_isReasoningComplete m) (m_isContentComplete m) (m_status m) (m_errorCode m).
Definition with_reasoning (r : option reasoning) (m : message) : message :=
  Message (m_key m) (m_from m) (m_versions m) (m_createdAt m) (m_startedAt m) (m_completedAt m) (m_durationMs m) (m_sources m)
    r (m_isReasoningStreaming m) (m_isReasoningComplete m) (m_isContentComplete m) (m_status m) (m_errorCode m).
Definition with_streaming (b : bool) (m : message) : message :=
  Message (m_key m) (m_from m) (m_versions m) (m_createdAt m) (m_startedAt m) (m_completedAt m) (m_durationMs m) (m_sources m)
    (m_reasoning m) (Some b) (m_isReasoningComplete m) (m_isContentComplete m) (m_status m) (m_errorCode m).
Definition with_status (s : message_status) (m : message) : message :=
  Message (m_key m) (m_from m) (m_versions m) (m_createdAt m) (m_startedAt m) (m_completedAt m) (m_durationMs m) (m_sources m)
    (m_reasoning m) (m_isReasoningStreaming m) (m_isReasoningComplete m) (m_isContentComplete m) (Some s) (m_errorCode m).
Definition with_errorCode (c : jsval) (m : message) : message :=
  Message (m_key m) (m_from m) (m_versions m) (m_createdAt m) (m_startedAt m) (m_completedAt m) (m_durationMs m) (m_sources m)
    (m_reasoning m) (m_isReasoningStreaming m) (m_isReasoningComplete m) (m_isContentComplete m) (m_status m) c.
Definition with_content (content : jsstr) (r : reasoning) : reasoning :=
  Reasoning content (rs_duration r) (rs_startedAt r) (rs_completedAt r) (rs_durationMs r).

(** ** message-utils.ts *)

Definition createMessageVersion (id content : jsstr) : message_version := MessageVersion id content.

Definition getCurrentVersion (m : message) : message_version :=
  match m_versions m with v :: _ => v | [] => MessageVersion (js "default") [] end.

Definition getMessageContent (m : message) : jsstr := mv_content (getCurrentVersion m).

Definition hasMessageContent (m : message) : bool := truthy_str (trim (getMessageContent m)).

Definition updateCurrentVersionContent (m : message) (content : jsstr) : message :=
  with_versions [MessageVersion (mv_id (getCurrentVersion m)) content] m.

Definition createUserMessage (key id content : jsstr) (createdAt : num) : message :=
  Message key RUser [createMessageVersion id content] (Some createdAt) None None None None None None None None None VUndef.

Definition createLoadingAssistantMessage (key id : jsstr) (startedAt : num) : message :=
  Message key RAssistant [createMessageVersion id []] (Some startedAt) (Some startedAt) None None None None
    (Some false) (Some false) (Some false) (Some SLoading) VUndef.

(** The content of a message sent to the API. *)
Inductive content_part : Type :=
| PartText (text : jsstr)
| PartImage (url : jsstr).

Inductive message_content : Type :=
| ContentText (text : jsstr)
| ContentParts (parts : list content_part).

Definition buildMessageContent (text : jsstr) (imageUrls : list jsstr) : message_content :=
  match List.filter (fun url => truthy_str (trim url)) imageUrls with
  | [] => ContentText text
  | validImages => ContentParts (PartText text :: map (fun url => PartImage (trim url)) validImages)
  end.

Definition getTextContent (content : message_content) : jsstr :=
  match content with
  | ContentText text => text
  | ContentParts parts =>
      match List.find (fun p => match p with PartText _ => true | _ => false end) parts with
      | Some (PartText text) => text
      | _ => []
      end
  end.

Record api_message := ApiMessage { am_role : message_role; am_content : message_content }.

Definition formatMessageForAPI (m : message) : api_message :=
  ApiMessage (m_from m) (ContentText (mv_content (getCurrentVersion m))).

Definition isValidMessage (m : message) : bool :=
  match m_versions m with
  | [] => false
  | _ => negb (has_role RAssistant m && negb (hasMessageContent m))
  end.

(** ** message-timing-utils.ts *)

(** [a ?? b] *)
Definition or_else {A} (a b : option A) : option A := match a with Some _ => a | None => b end.

Definition completeAssistantTiming (m : message) (completedAt : num) : message :=
  if negb (has_role RAssistant m) then m
  else
    let startedAt := default completedAt (or_else (m_startedAt m) (m_createdAt m)) in
    with_timing startedAt completedAt (n_max n_zero (n_sub completedAt startedAt)) m.

Definition startReasoningTiming (m : message) (startedAt : num) : reasoning :=
  match m_reasoning m with
  | Some r => Reasoning (rs_content r) (rs_duration r) (or_else (rs_startedAt r) (Some startedAt)) (rs_completedAt r) (rs_durationMs r)
  | None => Reasoning [] n_zero (Some startedAt) None None
  end.

Definition completeReasoningTiming (m : message) (completedAt : num) : message :=
  match m_reasoning m with
  | Some r =>
      match rs_durationMs r with
      | Some _ => m
      | None =>
          let startedAt := default completedAt (or_else (rs_startedAt r) (m_startedAt m)) in
          let durationMs := n_max n_zero (n_sub completedAt startedAt) in
          with_reasoning (Some (Reasoning (rs_content r) (n_ceil (n_div durationMs (n_of_Z 1000))) (Some startedAt)
                                  (Some completedAt) (Some durationMs))) m
      end
  | None => m
  end.

(** ** message-reasoning-utils.ts *)

Definition OPEN_TAG : jsstr := js "<think>".
Definition CLOSE_TAG : jsstr := js "</think>".

Record think_tags := ThinkTags { th_visible : jsstr; th_reasoning : jsstr; th_unclosed : bool }.

(** [s.indexOf(p)]: the text before the first occurrence of [p] and the text after it;
    [None] where JavaScript returns [-1]. *)
Fixpoint split_at (p s : jsstr) : option (jsstr * jsstr) :=
  if starts_with p s then Some ([], drop (length p) s)
  else match s with
       | [] => None
       | c :: s' => let! (a, b) := split_at p s' in Some (c :: a, b)
       end.

(** The loop of [parseThinkTags]: [rest] is the content from [currentPos] on.  Each turn
    consumes a tag, so the length of the content is enough fuel. *)
Fixpoint think_loop (fuel : nat) (rest : jsstr) (visible thoughts : list jsstr) : list jsstr * list jsstr * bool :=
  match split_at OPEN_TAG rest with
  | None => (match rest with [] => visible | _ => visible ++ [rest] end, thoughts, false)
  | Some (before, inside) =>
      let visible := match before with [] => visible | _ => visible ++ [before] end in
      match split_at CLOSE_TAG inside with
      | None => (visible, thoughts ++ [inside], true)
      | Some (thought, after) =>
          match fuel with
          | O => (visible, thoughts ++ [thought], false)
          | S fuel => think_loop fuel after visible (thoughts ++ [thought])
          end
      end
  end.

Definition parseThinkTags (content : jsstr) : think_tags :=
  if negb (includes OPEN_TAG content) then ThinkTags content [] false
  else
    let '(visible, thoughts, unclosed) := think_loop (length content) content [] [] in
    ThinkTags (trim (concat visible)) (trim (join [10; 10]%N thoughts)) unclosed.

(** ** message-streaming-utils.ts *)

Definition processStreamingContent (now : num) (m : message) (contentChunk : jsstr) : message :=
  let fullContent := getMessageContent m ++ contentChunk in
  match m_reasoning m, includes OPEN_TAG fullContent with
  | None, false => with_streaming false (updateCurrentVersionContent m fullContent)
  | _, _ =>
      let parsed := parseThinkTags fullContent in
      let finalReasoning :=
        if truthy_str (th_reasoning parsed) then Some (with_content (th_reasoning parsed) (startReasoningTiming m now))
        else m_reasoning m in
      with_streaming (th_unclosed parsed) (with_reasoning finalReasoning (updateCurrentVersionContent m fullContent))
  end.

Inductive chunk_type : Type := CReasoning | CContent.

Definition getAppendableChunk (currentContent chunk : jsstr) : jsstr :=
  if negb (truthy_str currentContent) || negb (starts_with currentContent chunk) then chunk
  else drop (length currentContent) chunk.

Definition applyStreamingChunk (now : clock) (m : message) (type : chunk_type) (chunk : jsstr) : message :=
  if has_status SError m then m
  else
    match type with
    | CReasoning =>
        let reasoning := startReasoningTiming m (now 0) in
        let appendableChunk := getAppendableChunk (rs_content reasoning) chunk in
        with_status SStreaming (with_streaming true
          (with_reasoning (Some (with_content (rs_content reasoning ++ appendableChunk) reasoning)) m))
    | CContent =>
        let appendableChunk := getAppendableChunk (getMessageContent m) chunk in
        let contentMessage := processStreamingContent (now 0) m appendableChunk in
        with_status SStreaming
          (match m_isReasoningStreaming contentMessage with
           | Some true => contentMessage
           | _ => completeReasoningTiming contentMessage (now 1)
           end)
    end.

Definition finalizeMessage (now : clock) (m : message) (apiReasoningContent : option jsstr) : message :=
  let content := getMessageContent m in
  let parsedThinkTags := if includes OPEN_TAG content then Some (parseThinkTags content) else None in
  let visibleContent := match parsedThinkTags with Some p => th_visible p | None => content end in
  let finalReasoning :=
    let api := default [] apiReasoningContent in
    let own := match m_reasoning m with Some r => rs_content r | None => [] end in
    let parsed := match parsedThinkTags with Some p => th_reasoning p | None => [] end in
    if truthy_str api then api else if truthy_str own then own else parsed in
  let finalized :=
    with_streaming false (with_reasoning
      (if truthy_str finalReasoning then Some (with_content finalReasoning (startReasoningTiming m (now 0))) else None)
      (updateCurrentVersionContent m visibleContent)) in
  completeReasoningTiming finalized (now 1).

Definition completeAssistantMessage (now : clock) (m : message) : message :=
  completeAssistantTiming (with_status SComplete (finalizeMessage now m None)) (now 2).

Definition isAssistantMessageFinal (m : message) : bool := has_status SComplete m || has_status SError m.

Definition isAssistantMessagePending (m : message) : bool := has_status SLoading m || has_status SStreaming m.

Definition isPendingAssistantMessage (m : message) : bool := has_role RAssistant m && isAssistantMessagePending m.

(** An answer that is not streamed: [null] and a missing field are both [None]. *)
Record chat_answer := ChatAnswer {
  ca_content : option jsstr;
  ca_reasoning_content : option jsstr;
  ca_reasoning : option jsstr;
}.

(** A choice has its message; a response has a list of choices, or none. *)
Record chat_choice := ChatChoice { cc_message : option chat_answer }.
Definition chat_response := option (list chat_choice).

Definition first_choice (response : chat_response) : option chat_choice :=
  match response with Some (choice :: _) => Some choice | _ => None end.

Definition hasChatCompletionChoice (response : chat_response) : bool :=
  match first_choice response with Some _ => true | None => false end.

Definition applyChatCompletionChoice (now : clock) (m : message) (choice : chat_choice) : message :=
  let content := match cc_message choice with Some a => default [] (ca_content a) | None => [] end in
  let api := match cc_message choice with Some a => or_else (ca_reasoning_content a) (ca_reasoning a) | None => None end in
  completeAssistantTiming (with_status SComplete (finalizeMessage now (updateCurrentVersionContent m content) api)) (now 2).

Definition applyChatCompletionResponse (now : clock) (m : message) (response : chat_response) : option message :=
  let! choice := first_choice response in Some (applyChatCompletionChoice now m choice).

(** The error texts of [constants.ts] and their translation. *)
Class ChatTexts := { chat_t : jsstr -> jsstr }.

Definition API_REQUEST_ERROR : jsstr := js "Request error occurred".
Definition NETWORK_ERROR : jsstr := js "Network connection failed or server not responding".
Definition PARSE_ERROR : jsstr := js "Error parsing response data".
Definition STREAM_START_ERROR : jsstr := js "Error establishing connection".
Definition CONNECTION_CLOSED : jsstr := js "Connection closed".
Definition INTERRUPTED : jsstr := js "Generation was interrupted".

(** The index of the last element that satisfies [p]. *)
Fixpoint find_last_index {A} (p : A -> bool) (l : list A) : option nat :=
  match l with
  | [] => None
  | x :: l' => match find_last_index p l' with Some i => Some (S i) | None => if p x then Some 0 else None end
  end.

Section texts.
Context {T : ChatTexts}.

Definition sanitized_message (now : clock) (m : message) : message :=
  let finalized := finalizeMessage now m None in
  let hasReasoning := match m_reasoning finalized with Some r => truthy_str (trim (rs_content r)) | None => false end in
  if hasMessageContent finalized || hasReasoning
  then completeAssistantTiming (with_streaming false (with_status SComplete finalized)) (now 2)
  else completeAssistantTiming (with_streaming false (with_status SError
         (updateCurrentVersionContent finalized (chat_t API_REQUEST_ERROR ++ js ": " ++ chat_t INTERRUPTED)))) (now 2).

Definition sanitizeMessagesOnLoad (now : clock) (messages : list message) : list message :=
  match find_last_index isPendingAssistantMessage messages with
  | None => messages
  | Some i =>
      match messages !! i with
      | Some m => <[i := sanitized_message now m]> messages
      | None => messages
      end
  end.
End texts.

(** ** message-update-utils.ts *)

Definition updateLastAssistantMessage (messages : list message) (updater : message -> message) : list message :=
  match rev messages with
  | m :: before => if has_role RAssistant m then rev before ++ [updater m] else messages
  | [] => messages
  end.

Definition updateAssistantMessageWithError (now : num) (messages : list message) (errorMessage : jsstr) (errorCode : jsval)
  (title : jsstr) : list message :=
  updateLastAssistantMessage messages (fun m =>
    completeAssistantTiming
      (with_errorCode (if truthy errorCode then errorCode else VNull)
         (with_streaming false (with_status SError (updateCurrentVersionContent m (title ++ js ": " ++ errorMessage))))) now).

(** ** message-error-utils.ts *)

Definition MODEL_PRICE_ERROR_CODE : jsstr := js "model_price_error".
Definition FALLBACK_ERROR_CONTENT : jsstr := js "An unknown error occurred".

Definition isAdminRole (role : option num) : bool := match role with Some r => n_geb r (n_of_Z 10) | None => false end.

Definition isErrorMessage (m : message) : bool := has_status SError m.

(** The content, whether the error is about the price of the model, and whether the link
    to the settings is shown. *)
Definition getMessageErrorState (m : message) (isAdmin : bool) : option (jsstr * bool * bool) :=
  if negb (isErrorMessage m) then None
  else
    let content := getMessageContent m in
    let isModelPriceError := strict_eqb (m_errorCode m) (VStr MODEL_PRICE_ERROR_CODE) in
    Some (if truthy_str content then content else FALLBACK_ERROR_CONTENT, isModelPriceError, isModelPriceError && isAdmin).

(** ** conversation-message-utils.ts *)

(** The ids of a new message: its key and that of its version. *)
Definition fresh_ids := (jsstr * jsstr)%type.

Definition appendUserMessagePair (now : num) (user assistant : fresh_ids) (messages : list message) (content : jsstr) : list message :=
  messages ++ [createUserMessage user.1 user.2 content now; createLoadingAssistantMessage assistant.1 assistant.2 now].

Definition createRegeneratedMessages (now : num) (ids : fresh_ids) (messages : list message) (messageKey : jsstr) : option (list message) :=
  let! i := find_index (fun m => str_eqb (m_key m) messageKey) messages in
  let! m := messages !! i in
  Some ((if has_role RUser m then take (S i) messages else take i messages) ++ [createLoadingAssistantMessage ids.1 ids.2 now]).

Definition removeMessageByKey (messages : list message) (messageKey : jsstr) : list message :=
  List.filter (fun m => negb (str_eqb (m_key m) messageKey)) messages.

(** The last message of the user before [beforeIndex]. *)
Definition getPreviousUserMessage (messages : list message) (beforeIndex : nat) : option message :=
  let! i := find_last_index (has_role RUser) (take beforeIndex messages) in messages !! i.

Definition applyMessageEdit (now : num) (ids : fresh_ids) (messages : list message) (messageKey content : jsstr) (shouldSubmit : bool)
  : option (list message * bool) :=
  let! i := find_index (fun m => str_eqb (m_key m) messageKey) messages in
  let updatedMessages :=
    map (fun m => if str_eqb (m_key m) messageKey
                  then with_createdAt (if shouldSubmit then Some now else m_createdAt m) (updateCurrentVersionContent m content)
                  else m) messages in
  let! m := updatedMessages !! i in
  Some (if negb shouldSubmit || negb (has_role RUser m) then (updatedMessages, false)
        else (take (S i) updatedMessages ++ [createLoadingAssistantMessage ids.1 ids.2 now], true)).

Definition getEditingMessageContent (messages : list message) (editingKey : option jsstr) : jsstr :=
  match editingKey with
  | Some (_ :: _ as key) =>
      match List.find (fun m => str_eqb (m_key m) key) messages with Some m => getMessageContent m | None => [] end
  | _ => []
  end.

(** Whether the actions are always shown, the content, whether the message is edited. *)
Definition getChatMessageRenderState (messages : list message) (m : message) (messageIndex : nat) (editingKey : option jsstr)
  : bool * jsstr * bool :=
  ((messageIndex =? length messages - 1)%nat && negb (length messages =? 0)%nat && has_role RAssistant m, getMessageContent m,
   match editingKey with Some key => str_eqb key (m_key m) | None => false end).

(** ** message-content-utils.ts, message-action-utils.ts, message-editor-utils.ts, message-layout-utils.ts *)

Definition is_reasoning_streaming (m : message) : bool := match m_isReasoningStreaming m with Some true => true | _ => false end.

Definition shouldShowMessageLoader (m : message) (isAssistant : bool) (versionContent : jsstr) : bool :=
  isAssistant && negb (is_reasoning_streaming m) &&
  (has_status SLoading m || (has_status SStreaming m && negb (truthy_str versionContent))).

Definition shouldShowMessageContent (m : message) (versionContent : jsstr) : bool :=
  (has_role RUser m || negb (is_reasoning_streaming m)) && truthy_str versionContent.

Definition getDisplayContent (m : message) (versionContent : jsstr) : jsstr :=
  if negb (has_role RAssistant m) then versionContent
  else if negb (includes OPEN_TAG versionContent) then versionContent
  else th_visible (parseThinkTags versionContent).

Record content_state := ContentState {
  cs_displayContent : jsstr;
  cs_sources : list (jsstr * jsstr);
  cs_isAssistant : bool;
  cs_showLoader : bool;
  cs_showMessageContent : bool;
  cs_reasoningContent : option jsstr;
}.

(** [hasSources] and [hasReasoning] say whether the sources and the reasoning are there. *)
Definition getMessageContentState (m : message) (versionContent : jsstr) : content_state :=
  let isAssistant := has_role RAssistant m in
  ContentState (getDisplayContent m versionContent) (default [] (m_sources m)) isAssistant
    (shouldShowMessageLoader m isAssistant versionContent) (shouldShowMessageContent m versionContent)
    (if isAssistant then
       match m_reasoning m with Some r => if truthy_str (rs_content r) then Some (rs_content r) else None | None => None end
     else None).

(** The content, whether there is any, and whether the message is the assistant's, the
    user's, or pending. *)
Definition getMessageActionState (m : message) : jsstr * bool * bool * bool * bool :=
  (getMessageContent m, hasMessageContent m, has_role RAssistant m, has_role RUser m, has_status SLoading m || has_status SStreaming m).

(** Whether an edit can be saved, whether it changed the text, whether it can be sent. *)
Definition getMessageEditorState (m : message) (editText originalText : jsstr) : bool * bool * bool :=
  let hasText := truthy_str (trim editText) in
  let hasChanged := negb (str_eqb editText originalText) in
  (hasText && hasChanged, hasChanged, has_role RUser m).

Inductive layout_mode : Type := Alternating | LeftOnly.

(** Whether a message is aligned to the right. *)
Definition getMessageAlignment (m : message) (mode : layout_mode) : bool :=
  match mode with LeftOnly => false | Alternating => has_role RUser m end.
