(* ===== verification/ChatMessageSpec.v ===== *)
(** * Properties of the playground messages

    Reasoning tags are read as their grammar says, and what the chunks of an answer make
    of a message. *)

From S2P Require Import Prelude JsString JsNumber JsValue JsArray ChatMessage.

(** ** Splitting at a tag *)

Lemma starts_with_self p s : starts_with p (p ++ s) = true.
Proof. induction p as [|c p IH]; [done|]. cbn [app starts_with]. by rewrite N.eqb_refl. Qed.

Lemma split_none p s : p <> [] -> split_at p s = None <-> includes p s = false.
Proof.
  intros Hp. induction s as [|c s IH]; cbn [split_at includes].
  - destruct p; done.
  - destruct (starts_with p (c :: s)); [done|]. cbn [orb]. rewrite <- IH. destruct (split_at p s) as [[]|]; done.
Qed.

(** The text before the first occurrence does not hold the tag. *)
Lemma split_some p s a b : p <> [] -> split_at p s = Some (a, b) -> s = a ++ p ++ b /\ includes p a = false.
Proof.
  intros Hp. revert a. induction s as [|c s IH]; intros a; cbn [split_at]; destruct (starts_with p _) eqn:E.
  - by destruct p.
  - done.
  - intros [= <- <-]. split; [|by destruct p]. cbn [app]. symmetry. apply starts_with_inv in E as [t Ht]. rewrite Ht.
    by rewrite drop_app_length.
  - destruct (split_at p s) as [[a' b']|]; [|done]. intros [= <- <-]. destruct (IH a' eq_refl) as [-> Hi]. split; [done|].
    cbn [includes]. rewrite Hi, orb_false_r. destruct (starts_with p (c :: a')) eqn:E'; [|done].
    apply starts_with_inv in E' as [t Ht]. change ((c :: a' ++ p ++ b')) with ((c :: a') ++ p ++ b') in E.
    rewrite Ht, <- app_assoc in E. by rewrite starts_with_self in E.
Qed.

(** A tag whose first unit occurs nowhere else in it overlaps no copy of itself. *)
Definition border_free (p : jsstr) : bool :=
  match p with c :: p' => negb (existsb (N.eqb c) p') | [] => false end.

Lemma prefix_before c q a r : existsb (N.eqb c) q = false -> starts_with q (a ++ c :: r) = true -> starts_with q a = true.
Proof.
  revert a. induction q as [|x q IH]; intros a; [done|]. cbn [existsb]. intros [Hx Hq]%orb_false_iff.
  destruct a as [|y a]; cbn [app starts_with].
  - intros [Hc _]%andb_true_iff. apply N.eqb_eq in Hc as ->. by rewrite N.eqb_refl in Hx.
  - intros [-> Hs]%andb_true_iff. by apply IH.
Qed.

Lemma split_before p a b : border_free p = true -> includes p a = false -> split_at p (a ++ p ++ b) = Some (a, b).
Proof.
  destruct p as [|c p]; [done|]. intros Hb%negb_true_iff. induction a as [|x a IH]; cbn [app].
  - intros _. pose proof (starts_with_self (c :: p) b) as Hs. cbn [app] in Hs. cbn [split_at]. rewrite Hs.
    cbn [length drop]. by rewrite drop_app_length.
  - cbn [includes]. intros [Hs Ha]%orb_false_iff. cbn [split_at].
    destruct (starts_with (c :: p) (x :: a ++ c :: p ++ b)) eqn:E.
    + exfalso. cbn [starts_with] in E, Hs. destruct (N.eqb c x); [|done]. cbn [andb] in E, Hs.
      by rewrite (prefix_before c p a (p ++ b)) in Hs.
    + specialize (IH Ha). cbn [app] in IH. by rewrite IH.
Qed.

(** ** Reasoning tags *)

(** How a text divides into visible pieces and thoughts; the last thought may be open. *)
Inductive thinks : jsstr -> list jsstr -> list jsstr -> bool -> Prop :=
| thinks_end s : includes OPEN_TAG s = false -> thinks s [s] [] false
| thinks_open v r : includes OPEN_TAG v = false -> includes CLOSE_TAG r = false ->
    thinks (v ++ OPEN_TAG ++ r) [v] [r] true
| thinks_closed v r s vs rs u : includes OPEN_TAG v = false -> includes CLOSE_TAG r = false -> thinks s vs rs u ->
    thinks (v ++ OPEN_TAG ++ r ++ CLOSE_TAG ++ s) (v :: vs) (r :: rs) u.

Lemma open_free : border_free OPEN_TAG = true. Proof. reflexivity. Qed.
Lemma close_free : border_free CLOSE_TAG = true. Proof. reflexivity. Qed.

(** Pieces that are pushed: the empty ones are left out. *)
Definition pushed (v : jsstr) : list jsstr := match v with [] => [] | _ => [v] end.

Lemma pushed_concat v : concat (pushed v) = v.
Proof. destruct v; [done|]. cbn [pushed concat]. by rewrite app_nil_r. Qed.

Lemma think_push (v : jsstr) visible : match v with [] => visible | _ => visible ++ [v] end = visible ++ pushed v.
Proof. destruct v; [by rewrite app_nil_r|done]. Qed.

Lemma think_loop_spec rest vs rs u : thinks rest vs rs u -> forall fuel visible thoughts, length rest <= fuel ->
  think_loop fuel rest visible thoughts = (visible ++ flat_map pushed vs, thoughts ++ rs, u).
Proof.
  induction 1 as [s Hs|v r Hv Hr|v r s vs rs u Hv Hr Hs IH]; intros fuel visible thoughts Hf.
  - apply (split_none OPEN_TAG s) in Hs; [|done]. destruct fuel; cbn [think_loop]; rewrite Hs, think_push; cbn [flat_map]; by rewrite !app_nil_r.
  - assert (Hn : split_at CLOSE_TAG r = None) by (by apply split_none).
    destruct fuel; cbn [think_loop]; rewrite (split_before _ v r open_free Hv), think_push, Hn; cbn [flat_map]; by rewrite app_nil_r.
  - rewrite !length_app in Hf. change (length OPEN_TAG) with 7 in Hf. change (length CLOSE_TAG) with 8 in Hf.
    destruct fuel as [|fuel]; [lia|]. cbn [think_loop].
    rewrite (split_before OPEN_TAG v _ open_free Hv), think_push, (split_before CLOSE_TAG r s close_free Hr), IH by lia.
    cbn [flat_map]. by rewrite <- !app_assoc.
Qed.

Lemma pushed_visible vs : concat (flat_map pushed vs) = concat vs.
Proof. induction vs as [|v vs IH]; [done|]. cbn [flat_map concat]. by rewrite concat_app, pushed_concat, IH. Qed.

(** Every text divides in one way. *)
Lemma thinks_exists s : exists vs rs u, thinks s vs rs u.
Proof.
  induction s as [s IH] using (induction_ltof1 _ (@length N)). unfold ltof in IH.
  destruct (split_at OPEN_TAG s) as [[v rest]|] eqn:E; [|apply split_none in E; [|done]; by exists [s], [], false; constructor].
  apply split_some in E as [-> Hv]; [|done]. destruct (split_at CLOSE_TAG rest) as [[r t]|] eqn:Ec.
  - apply split_some in Ec as [-> Hr]; [|done]. destruct (IH t) as (vs & rs & u & Ht); [rewrite !length_app; change (length OPEN_TAG) with 7; lia|].
    eexists _, _, _. by apply thinks_closed.
  - apply split_none in Ec; [|done]. eexists _, _, _. by apply thinks_open.
Qed.

Lemma thinks_unique s vs rs u vs' rs' u' : thinks s vs rs u -> thinks s vs' rs' u' ->
  flat_map pushed vs = flat_map pushed vs' /\ rs = rs' /\ u = u'.
Proof.
  intros H1 H2. pose proof (think_loop_spec s vs rs u H1 (length s) [] [] (le_n _)) as E1.
  rewrite (think_loop_spec s vs' rs' u' H2 (length s) [] [] (le_n _)) in E1. cbn [app] in E1. by injection E1 as -> -> ->.
Qed.

Lemma parse_plain s : includes OPEN_TAG s = false -> parseThinkTags s = ThinkTags s [] false.
Proof. intros Hs. unfold parseThinkTags. by rewrite Hs. Qed.

(** Reading the tags of a text that has any. *)
Lemma parse_thinks s vs rs u : thinks s vs rs u -> includes OPEN_TAG s = true ->
  parseThinkTags s = ThinkTags (trim (concat vs)) (trim (join [10; 10]%N rs)) u.
Proof.
  intros Ht Hi. unfold parseThinkTags. rewrite Hi. cbn [negb].
  rewrite (think_loop_spec s vs rs u Ht (length s) [] [] (le_n _)). cbn [app]. by rewrite pushed_visible.
Qed.

(** ** What a chunk does to a message *)

Definition reasoning_text (m : message) : option jsstr := rs_content <$> m_reasoning m.

Lemma content_updated m c : getMessageContent (updateCurrentVersionContent m c) = c.
Proof. done. Qed.

Lemma completed_reasoning m now : reasoning_text (completeReasoningTiming m now) = reasoning_text m /\
  getMessageContent (completeReasoningTiming m now) = getMessageContent m /\
  m_status (completeReasoningTiming m now) = m_status m /\ m_from (completeReasoningTiming m now) = m_from m.
Proof.
  unfold completeReasoningTiming, reasoning_text. destruct (m_reasoning m) as [r|] eqn:E; [|by rewrite E].
  destruct (rs_durationMs r); [by rewrite E|]. done.
Qed.

Lemma started_content m now : rs_content (startReasoningTiming m now) = default [] (reasoning_text m).
Proof. unfold startReasoningTiming, reasoning_text. by destruct (m_reasoning m). Qed.

Lemma not_error m s : m_status m = Some s -> s <> SError -> has_status SError m = false.
Proof. unfold has_status. intros -> Hs. apply bool_decide_eq_false. congruence. Qed.

(** The reasoning shown after a content chunk: that of the tags, or what was there. *)
Definition tagged (content : jsstr) (before : option jsstr) : option jsstr :=
  if truthy_str (th_reasoning (parseThinkTags content)) then Some (th_reasoning (parseThinkTags content)) else before.

Lemma tagged_plain content before : includes OPEN_TAG content = false -> tagged content before = before.
Proof. intros Hi. unfold tagged. by rewrite parse_plain. Qed.

Lemma content_chunk now m chunk : has_status SError m = false ->
  let m' := applyStreamingChunk now m CContent chunk in
  let content := getMessageContent m ++ getAppendableChunk (getMessageContent m) chunk in
  getMessageContent m' = content /\ reasoning_text m' = tagged content (reasoning_text m) /\
  m_status m' = Some SStreaming /\ m_from m' = m_from m.
Proof.
  intros Hs. cbv zeta. unfold applyStreamingChunk. rewrite Hs. set (content := _ ++ getAppendableChunk _ chunk).
  set (p := processStreamingContent (now 0) m _).
  assert (Hp : getMessageContent p = content /\ reasoning_text p = tagged content (reasoning_text m) /\ m_from p = m_from m).
  { unfold p, processStreamingContent. fold content. destruct (m_reasoning m) as [r|] eqn:Er.
    - split; [done|]. split; [|done]. unfold reasoning_text, tagged. cbn. rewrite Er. by destruct (truthy_str _).
    - destruct (includes OPEN_TAG content) eqn:Ei.
      + split; [done|]. split; [|done]. unfold reasoning_text, tagged. cbn. rewrite Er. by destruct (truthy_str _).
      + split; [done|]. split; [|done]. rewrite tagged_plain by done. done. }
  destruct Hp as (H1 & H2 & H3). destruct (completed_reasoning p (now 1)) as (C1 & C2 & _ & C3).
  assert (Hend : forall q, getMessageContent q = content -> reasoning_text q = tagged content (reasoning_text m) -> m_from q = m_from m ->
    getMessageContent (with_status SStreaming q) = content /\ reasoning_text (with_status SStreaming q) = tagged content (reasoning_text m) /\
    m_status (with_status SStreaming q) = Some SStreaming /\ m_from (with_status SStreaming q) = m_from m) by (by intros q Hq1 Hq2 Hq3).
  destruct (m_isReasoningStreaming p) as [[]|]; apply Hend; try done; congruence.
Qed.

Lemma reasoning_chunk now m chunk : has_status SError m = false ->
  let m' := applyStreamingChunk now m CReasoning chunk in
  let before := default [] (reasoning_text m) in
  getMessageContent m' = getMessageContent m /\ reasoning_text m' = Some (before ++ getAppendableChunk before chunk) /\
  m_status m' = Some SStreaming /\ m_from m' = m_from m.
Proof.
  intros Hs. cbv zeta. unfold applyStreamingChunk. rewrite Hs. split; [done|]. split; [|done].
  unfold reasoning_text at 1. cbn. by rewrite !started_content.
Qed.

(** A chunk that begins with the text shown replaces it; any other is appended. *)
Definition absorb (shown next : jsstr) : jsstr := if starts_with shown next then next else shown ++ next.

Lemma appended cur chunk : cur ++ getAppendableChunk cur chunk = absorb cur chunk.
Proof.
  unfold getAppendableChunk, absorb. destruct (starts_with cur chunk) eqn:Hs; [|by rewrite orb_true_r].
  rewrite orb_false_r. destruct cur as [|c cur]; [done|]. cbn [truthy_str negb].
  apply starts_with_inv in Hs as [t ->]. by rewrite drop_app_length.
Qed.

(** ** The end of an answer *)

Definition nonempty (s : jsstr) : option jsstr := if truthy_str s then Some s else None.

Lemma completed_timing m now : getMessageContent (completeAssistantTiming m now) = getMessageContent m /\
  reasoning_text (completeAssistantTiming m now) = reasoning_text m /\
  m_status (completeAssistantTiming m now) = m_status m /\ m_from (completeAssistantTiming m now) = m_from m.
Proof. unfold completeAssistantTiming. by destruct (negb _). Qed.

Lemma finalized now m api :
  let m' := finalizeMessage now m api in
  let parsed := parseThinkTags (getMessageContent m) in
  getMessageContent m' = th_visible parsed /\
  reasoning_text m' = nonempty (if truthy_str (default [] api) then default [] api
    else if truthy_str (default [] (reasoning_text m)) then default [] (reasoning_text m) else th_reasoning parsed) /\
  m_isReasoningStreaming m' = Some false /\ m_from m' = m_from m.
Proof.
  cbv zeta. unfold finalizeMessage. set (q := with_streaming false _).
  destruct (completed_reasoning q (now 1)) as (C1 & C2 & _ & C3). rewrite C1, C2, C3.
  assert (Hs : m_isReasoningStreaming (completeReasoningTiming q (now 1)) = Some false).
  { unfold completeReasoningTiming. destruct (m_reasoning q) as [r|]; [|done]. by destruct (rs_durationMs r). }
  rewrite Hs. unfold q. split; [|split; [|done]].
  - change (getMessageContent (with_streaming _ (with_reasoning _ ?x))) with (getMessageContent x). rewrite content_updated.
    destruct (includes OPEN_TAG (getMessageContent m)) eqn:Ei; [done|]. by rewrite parse_plain.
  - unfold reasoning_text at 1. cbn [with_streaming with_reasoning m_reasoning].
    replace (match m_reasoning m with Some r => rs_content r | None => [] end) with (default [] (reasoning_text m))
      by (unfold reasoning_text; by destruct (m_reasoning m)).
    replace (match (if includes OPEN_TAG (getMessageContent m) then Some (parseThinkTags (getMessageContent m)) else None) with
             | Some p => th_reasoning p | None => [] end) with (th_reasoning (parseThinkTags (getMessageContent m))).
    + unfold nonempty. set (t := if truthy_str (default [] api) then _ else _). by destruct (truthy_str t).
    + destruct (includes OPEN_TAG (getMessageContent m)) eqn:Ei; [done|]. by rewrite parse_plain.
Qed.

Lemma completed now m :
  let m' := completeAssistantMessage now m in
  let parsed := parseThinkTags (getMessageContent m) in
  getMessageContent m' = th_visible parsed /\
  reasoning_text m' = nonempty (if truthy_str (default [] (reasoning_text m)) then default [] (reasoning_text m) else th_reasoning parsed) /\
  m_status m' = Some SComplete /\ m_from m' = m_from m.
Proof.
  cbv zeta. unfold completeAssistantMessage. set (f := with_status SComplete _).
  destruct (completed_timing f (now 2)) as (T1 & T2 & T3 & T4). rewrite T1, T2, T3, T4. unfold f.
  destruct (finalized now m None) as (F1 & F2 & _ & F3). cbn [default from_option truthy_str] in F2. done.
Qed.
