(* ===== verification/ChatStream.v ===== *)
(** * Streamed answers of the playground

    Models [features/playground/lib/streaming], [hooks/use-stream-request.ts],
    [hooks/use-chat-handler.ts] and [hooks/use-playground-conversation.ts]: the connection
    of a streamed answer, the chunks collected until the next flush, requests that replace
    one another, and the list of messages.

    The state of the page is [chat]; [step] is what one event does: an action of the user,
    the headers of a request, an event of a connection (open or closed), the flush timer,
    the answer to a request that is not streamed, a rendering of the page.  Code that
    awaits is cut at the [await].  An update of the messages is a function React runs at
    once when none is waiting, or when it renders: an event carries the clock in the first
    case, and the update waits in the second. *)

From S2P Require Import Prelude JsString JsNumber JsValue JsArray ChatMessage.

(** ** types.ts, payload-builder.ts *)

Record playground_config := PlaygroundConfig {
  pc_model : jsstr;
  pc_group : jsstr;
  pc_temperature : num;
  pc_top_p : num;
  pc_max_tokens : num;
  pc_frequency_penalty : num;
  pc_presence_penalty : num;
  pc_seed : option num;
  pc_stream : bool;
}.

Record parameter_enabled := ParameterEnabled {
  pe_temperature : bool;
  pe_top_p : bool;
  pe_max_tokens : bool;
  pe_frequency_penalty : bool;
  pe_presence_penalty : bool;
  pe_seed : bool;
}.

Record chat_request := ChatRequest {
  cq_model : jsstr;
  cq_group : jsstr;
  cq_messages : list api_message;
  cq_stream : bool;
  cq_temperature : option num;
  cq_top_p : option num;
  cq_max_tokens : option num;
  cq_frequency_penalty : option num;
  cq_presence_penalty : option num;
  cq_seed : option num;
}.

Definition buildChatCompletionPayload (messages : list message) (config : playground_config) (enabled : parameter_enabled) : chat_request :=
  let given := fun (b : bool) (x : num) => if b then Some x else None in
  ChatRequest (pc_model config) (pc_group config) (map formatMessageForAPI (List.filter isValidMessage messages)) (pc_stream config)
    (given (pe_temperature enabled) (pc_temperature config)) (given (pe_top_p enabled) (pc_top_p config))
    (given (pe_max_tokens enabled) (pc_max_tokens config)) (given (pe_frequency_penalty enabled) (pc_frequency_penalty config))
    (given (pe_presence_penalty enabled) (pc_presence_penalty config)) (if pe_seed enabled then pc_seed config else None).

(** ** stream-utils.ts, request-error-utils.ts *)

(** [v?.k], for names nothing inherits. *)
Definition field (v : jsval) (k : string) : jsval :=
  match v with VObj o => default VUndef (prop_get (js k) o) | _ => VUndef end.

(** [v?.\[0\]] *)
Definition item0 (v : jsval) : jsval :=
  match v with
  | VArr (x :: _) => x
  | VStr (c :: _) => VStr [c]
  | VObj o => default VUndef (prop_get (js "0") o)
  | _ => VUndef
  end.

Definition STREAM_DONE_MESSAGE : jsstr := js "[DONE]".
Definition STREAM_CLOSED_READY_STATE : num := n_of_Z 2.

(** The code and the message of a failed stream. *)
Definition parseStreamErrorDetails (data : option jsstr) : jsval * jsval :=
  match data with
  | Some (_ :: _ as text) =>
      match json_parse text with
      | Some parsed =>
          let error := field parsed "error" in
          if negb (truthy error) then (VUndef, VStr text)
          else
            let code := field error "code" in
            let message := field error "message" in
            (if truthy code then code else VUndef, if truthy message then message else VStr text)
      | None => (VUndef, VStr text)
      end
  | _ => (VUndef, VStr API_REQUEST_ERROR)
  end.

(** The updates of a message; [None] where the code throws: a text that is no JSON, or [null]. *)
Definition parseStreamMessageUpdates (data : jsstr) : option (list (chunk_type * jsval)) :=
  match json_parse data with
  | None | Some VNull => None
  | Some chunk =>
      let delta := field (item0 (field chunk "choices")) "delta" in
      if negb (truthy delta) then Some []
      else
        let stated := field delta "reasoning_content" in
        let reasoning := if is_nullish stated then field delta "reasoning" else stated in
        let content := field delta "content" in
        Some ((if truthy reasoning then [(CReasoning, reasoning)] else []) ++ (if truthy content then [(CContent, content)] else []))
  end.

Definition isStreamDoneMessage (data : jsstr) : bool := str_eqb data STREAM_DONE_MESSAGE.

Definition isStreamClosedReadyState (readyState : option num) : bool :=
  match readyState with Some x => n_eqb x STREAM_CLOSED_READY_STATE | None => false end.

Definition getStreamReadyStateError (eventReadyState status : option num) : option jsstr :=
  match eventReadyState, status with
  | Some r, Some s =>
      if n_geb r STREAM_CLOSED_READY_STATE && negb (n_eqb s (n_of_Z 200))
      then Some (js "HTTP " ++ string_of_number s ++ js ": " ++ CONNECTION_CLOSED) else None
  | _, _ => None
  end.

(** The code and the message of a failed request. *)
Definition parseRequestErrorDetails (error : jsval) : jsval * jsval :=
  let data := field (field error "response") "data" in
  let code := field (field data "error") "code" in
  let stated := field data "message" in
  let own := field error "message" in
  (if truthy code then code else VUndef,
   if truthy stated then stated else if truthy own then own else VStr API_REQUEST_ERROR).

(** ** State *)

(** A connection: the generation of the controller that opened it, the generation of the
    handler its callbacks were made for, and whether it was completed and closed. *)
Record source := Source { src_generation : nat; src_for : nat; src_completed : bool; src_closed : bool }.

(** A request that waits for its headers. *)
Record waiting := Waiting { w_generation : nat; w_for : nat; w_payload : chat_request }.

(** [createStreamRequestController]: connections are named by their number. *)
Record controller := Controller {
  co_source : option nat;
  co_generation : nat;
  co_streaming : bool;
  co_sources : list source;
  co_waiting : list waiting;
}.

Record pending_chunks := PendingChunks { pd_generation : nat; pd_content : jsstr; pd_reasoning : jsstr }.

(** A request that is not streamed. *)
Record call := Call { cl_generation : nat; cl_payload : chat_request; cl_aborted : bool; cl_settled : bool }.

(** The functions given to [onMessageUpdate]. *)
Inductive update : Type :=
| USet (messages : list message)
| UDelete (key : jsstr)
| UFlush (generation : nat) (content reasoning : jsstr)
| UComplete (generation : nat)
| UFail (generation : nat) (text : jsstr) (code : jsval)
| UAnswer (generation : nat) (response : chat_response)
| UStop (generation : nat).

Record chat := Chat {
  ct_controller : controller;
  ct_generation : nat;
  ct_pending : pending_chunks;
  ct_timer : option nat;
  ct_requesting : bool;
  ct_calls : list call;
  ct_abort : option nat;
  ct_updates : list update;
  ct_messages : list message;
  ct_rendered : list message;
}.

Definition initial_chat (messages : list message) : chat :=
  Chat (Controller None 0 false [] []) 0 (PendingChunks 0 [] []) None false [] None [] messages messages.

Definition set_controller (c : controller) (s : chat) : chat :=
  Chat c (ct_generation s) (ct_pending s) (ct_timer s) (ct_requesting s) (ct_calls s) (ct_abort s) (ct_updates s) (ct_messages s) (ct_rendered s).
Definition set_generation (g : nat) (s : chat) : chat :=
  Chat (ct_controller s) g (ct_pending s) (ct_timer s) (ct_requesting s) (ct_calls s) (ct_abort s) (ct_updates s) (ct_messages s) (ct_rendered s).
Definition set_pending (p : pending_chunks) (s : chat) : chat :=
  Chat (ct_controller s) (ct_generation s) p (ct_timer s) (ct_requesting s) (ct_calls s) (ct_abort s) (ct_updates s) (ct_messages s) (ct_rendered s).
Definition set_timer (t : option nat) (s : chat) : chat :=
  Chat (ct_controller s) (ct_generation s) (ct_pending s) t (ct_requesting s) (ct_calls s) (ct_abort s) (ct_updates s) (ct_messages s) (ct_rendered s).
Definition setIsRequesting (b : bool) (s : chat) : chat :=
  Chat (ct_controller s) (ct_generation s) (ct_pending s) (ct_timer s) b (ct_calls s) (ct_abort s) (ct_updates s) (ct_messages s) (ct_rendered s).
Definition set_calls (l : list call) (a : option nat) (s : chat) : chat :=
  Chat (ct_controller s) (ct_generation s) (ct_pending s) (ct_timer s) (ct_requesting s) l a (ct_updates s) (ct_messages s) (ct_rendered s).
Definition set_messages (us : list update) (ms : list message) (s : chat) : chat :=
  Chat (ct_controller s) (ct_generation s) (ct_pending s) (ct_timer s) (ct_requesting s) (ct_calls s) (ct_abort s) us ms (ct_rendered s).
Definition set_rendered (ms : list message) (s : chat) : chat :=
  Chat (ct_controller s) (ct_generation s) (ct_pending s) (ct_timer s) (ct_requesting s) (ct_calls s) (ct_abort s) (ct_updates s) (ct_messages s) ms.

(** ** Updates of the messages *)

Section texts.
Context {T : ChatTexts}.

Definition after (now : clock) (n : nat) : clock := fun i => now (n + i).

(** The chunks of a flush: reasoning first. *)
Definition flushed_message (now : clock) (content reasoning : jsstr) (m : message) : message :=
  let m := if truthy_str reasoning then applyStreamingChunk now m CReasoning reasoning else m in
  if truthy_str content then applyStreamingChunk (after now 1) m CContent content else m.

(** What an update makes of the messages when it runs in the generation [current]. *)
Definition apply_update (now : clock) (current : nat) (u : update) (messages : list message) : list message :=
  match u with
  | USet messages' => messages'
  | UDelete key => removeMessageByKey messages key
  | UFlush g content reasoning =>
      if negb (g =? current)%nat then messages
      else updateLastAssistantMessage messages (flushed_message now content reasoning)
  | UComplete g =>
      if negb (g =? current)%nat then messages
      else updateLastAssistantMessage messages (fun m => if isAssistantMessageFinal m then m else completeAssistantMessage now m)
  | UFail g text code =>
      if negb (g =? current)%nat then messages
      else updateAssistantMessageWithError (now 0) messages text code (chat_t API_REQUEST_ERROR)
  | UAnswer g response =>
      if negb (g =? current)%nat then messages
      else updateLastAssistantMessage messages (fun m => default m (applyChatCompletionResponse now m response))
  | UStop g =>
      if negb (g =? current)%nat then messages
      else updateLastAssistantMessage messages (fun m => if isAssistantMessagePending m then completeAssistantMessage now m else m)
  end.

(** [onMessageUpdate]: React runs the update at once, by the clock [now], or keeps it. *)
Definition onMessageUpdate (now : option clock) (u : update) (s : chat) : chat :=
  match now, ct_updates s with
  | Some now, [] => set_messages [] (apply_update now (ct_generation s) u (ct_messages s)) s
  | _, us => set_messages (us ++ [u]) (ct_messages s) s
  end.

(** A rendering runs the updates that wait, in order. *)
Fixpoint run_updates (now : nat -> clock) (current : nat) (us : list update) (messages : list message) : list message :=
  match us with
  | [] => messages
  | u :: us' => run_updates (fun i => now (S i)) current us' (apply_update (now 0) current u messages)
  end.

Definition render (now : nat -> clock) (s : chat) : chat :=
  let messages := run_updates now (ct_generation s) (ct_updates s) (ct_messages s) in
  set_rendered messages (set_messages [] messages s).

(** ** use-chat-handler.ts: chunks *)

Definition mergePendingStreamChunk (currentChunk : jsstr) (nextChunk : jsval) : option jsstr :=
  match currentChunk, nextChunk with
  | [], v => if converts v then Some (string_of_value v) else None
  | _, VStr next => Some (if starts_with currentChunk next then next else currentChunk ++ next)
  | _, _ => None
  end.

Definition discardPendingStreamUpdates (g : nat) (s : chat) : chat := set_pending (PendingChunks g [] []) (set_timer None s).

Definition flushStreamUpdates (now : option clock) (g : nat) (s : chat) : chat :=
  if negb (g =? ct_generation s)%nat then s
  else
    let s := set_timer None s in
    let p := ct_pending s in
    if negb (pd_generation p =? g)%nat then s
    else if negb (truthy_str (pd_reasoning p)) && negb (truthy_str (pd_content p)) then s
    else onMessageUpdate now (UFlush g (pd_content p) (pd_reasoning p)) (set_pending (PendingChunks g [] []) s).

Definition scheduleStreamFlush (g : nat) (s : chat) : chat :=
  if negb (g =? ct_generation s)%nat then s
  else match ct_timer s with Some _ => s | None => set_timer (Some g) s end.

(** [None] where the code throws. *)
Definition handleStreamUpdate (g : nat) (type : chunk_type) (chunk : jsval) (s : chat) : option chat :=
  let p := ct_pending s in
  if negb (g =? ct_generation s)%nat then Some s
  else if negb (pd_generation p =? g)%nat then Some s
  else
    let! p :=
      match type with
      | CReasoning => let! text := mergePendingStreamChunk (pd_reasoning p) chunk in Some (PendingChunks (pd_generation p) (pd_content p) text)
      | CContent => let! text := mergePendingStreamChunk (pd_content p) chunk in Some (PendingChunks (pd_generation p) text (pd_reasoning p))
      end in
    Some (scheduleStreamFlush g (set_pending p s)).

Definition handleStreamComplete (now : option clock) (g : nat) (s : chat) : chat :=
  if negb (g =? ct_generation s)%nat then s
  else onMessageUpdate now (UComplete g) (setIsRequesting false (flushStreamUpdates now g s)).

Definition KNOWN_ERROR_MESSAGES : list jsstr :=
  [API_REQUEST_ERROR; NETWORK_ERROR; PARSE_ERROR; STREAM_START_ERROR; CONNECTION_CLOSED; INTERRUPTED].

Definition getDisplayError (error : jsstr) : jsstr :=
  if str_mem error KNOWN_ERROR_MESSAGES then chat_t error
  else if ends_with (js ": " ++ CONNECTION_CLOSED) error
  then take (length error - length CONNECTION_CLOSED) error ++ chat_t CONNECTION_CLOSED
  else error.

(** The state, and whether the code threw: [endsWith] of an error that is no text. *)
Definition handleStreamError (now : option clock) (g : nat) (error code : jsval) (s : chat) : chat * bool :=
  if negb (g =? ct_generation s)%nat then (s, false)
  else
    let s := setIsRequesting false (flushStreamUpdates now g s) in
    match error with
    | VStr text => (onMessageUpdate now (UFail g (getDisplayError text) code) s, false)
    | _ => (s, true)
    end.

(** ** use-stream-request.ts *)

Definition set_source (id : option nat) (c : controller) : controller :=
  Controller id (co_generation c) (co_streaming c) (co_sources c) (co_waiting c).
Definition next_generation (c : controller) : controller :=
  Controller (co_source c) (S (co_generation c)) (co_streaming c) (co_sources c) (co_waiting c).
Definition setStreaming (b : bool) (c : controller) : controller :=
  Controller (co_source c) (co_generation c) b (co_sources c) (co_waiting c).
Definition set_sources (l : list source) (c : controller) : controller :=
  Controller (co_source c) (co_generation c) (co_streaming c) l (co_waiting c).
Definition set_waiting (l : list waiting) (c : controller) : controller :=
  Controller (co_source c) (co_generation c) (co_streaming c) (co_sources c) l.

Definition closed_source (x : source) : source := Source (src_generation x) (src_for x) (src_completed x) true.
Definition completed_source (x : source) : source := Source (src_generation x) (src_for x) true (src_closed x).

(** [target.close()] *)
Definition close_source (id : nat) (c : controller) : controller := set_sources (alter closed_source id (co_sources c)) c.

(** [previousSource?.close()] *)
Definition close_previous (c : controller) : controller :=
  match co_source c with Some id => set_source None (close_source id c) | None => c end.

Definition closeActiveSource (id : nat) (c : controller) : controller :=
  let c := close_source id c in
  if bool_decide (co_source c = Some id) then setStreaming false (set_source None c) else c.

(** [send], up to the await of the headers. *)
Definition send (payload : chat_request) (for_ : nat) (c : controller) : controller :=
  let c := setStreaming false (close_previous (next_generation c)) in
  set_waiting (co_waiting c ++ [Waiting (co_generation c) for_ payload]) c.

(** [stop] and [dispose] *)
Definition cancel (notify : bool) (c : controller) : controller :=
  let c := close_previous (next_generation c) in
  if notify then setStreaming false c else c.

(** [isCurrent() && !completed] *)
Definition is_active (id : nat) (c : controller) : bool :=
  match co_sources c !! id with
  | Some x => (co_generation c =? src_generation x)%nat && bool_decide (co_source c = Some id) && negb (src_completed x)
  | None => false
  end.

Definition on_controller (f : controller -> controller) (s : chat) : chat := set_controller (f (ct_controller s)) s.

Definition complete_source (id : nat) (s : chat) : chat :=
  on_controller (fun c => set_sources (alter completed_source id (co_sources c)) c) s.

(** The generation of the handler a connection reports to. *)
Definition source_for (id : nat) (s : chat) : nat :=
  match co_sources (ct_controller s) !! id with Some x => src_for x | None => 0 end.

(** [handleError] of a connection. *)
Definition source_failed (now : option clock) (id : nat) (error code : jsval) (s : chat) : chat :=
  if negb (is_active id (ct_controller s)) then s
  else
    let '(s, thrown) := handleStreamError now (source_for id s) error code (complete_source id s) in
    if thrown : bool then s else on_controller (closeActiveSource id) s.

(** The updates of one message; the flag says whether one of them threw. *)
Fixpoint handle_updates (g : nat) (us : list (chunk_type * jsval)) (s : chat) : chat * bool :=
  match us with
  | [] => (s, false)
  | (type, chunk) :: us' =>
      match handleStreamUpdate g type chunk s with
      | Some s' => handle_updates g us' s'
      | None => (s, true)
      end
  end.

Definition source_message (now : option clock) (id : nat) (data : jsstr) (s : chat) : chat :=
  if negb (is_active id (ct_controller s)) then s
  else if isStreamDoneMessage data then
    handleStreamComplete now (source_for id s) (on_controller (closeActiveSource id) (complete_source id s))
  else
    match parseStreamMessageUpdates data with
    | None => source_failed now id (VStr PARSE_ERROR) VUndef s
    | Some us =>
        let '(s, thrown) := handle_updates (source_for id s) us s in
        if thrown : bool then source_failed now id (VStr PARSE_ERROR) VUndef s else s
    end.

Definition source_error (now : option clock) (id : nat) (data : option jsstr) (readyState : option num) (s : chat) : chat :=
  if negb (is_active id (ct_controller s)) then s
  else if isStreamClosedReadyState readyState then s
  else let '(code, error) := parseStreamErrorDetails data in source_failed now id error code s.

Definition source_state (now : option clock) (id : nat) (readyState status : option num) (s : chat) : chat :=
  if negb (is_active id (ct_controller s)) then s
  else match getStreamReadyStateError readyState status with
       | Some error => source_failed now id (VStr error) VUndef s
       | None => s
       end.

(** How the wait for the headers ends: with an error, which may be no [Error], or with the
    headers, and then the connection starts or throws. *)
Inductive headers_result : Type :=
| HeadersFailed (message : option jsstr)
| HeadersReady (starts : bool).

Definition open_source (w : waiting) (c : controller) : controller :=
  setStreaming true (set_source (Some (length (co_sources c)))
    (set_sources (co_sources c ++ [Source (w_generation w) (w_for w) false false]) c)).

(** The rest of [send], after the await. *)
Definition resume (now : option clock) (w : waiting) (r : headers_result) (s : chat) : chat :=
  if negb (co_generation (ct_controller s) =? w_generation w)%nat then s
  else
    match r with
    | HeadersFailed message => (handleStreamError now (w_for w) (VStr (default STREAM_START_ERROR message)) VUndef s).1
    | HeadersReady starts =>
        let id := length (co_sources (ct_controller s)) in
        let s := on_controller (open_source w) s in
        if starts : bool then s else source_failed now id (VStr STREAM_START_ERROR) VUndef s
    end.

(** ** use-chat-handler.ts: requests *)

Definition aborted_call (x : call) : call := Call (cl_generation x) (cl_payload x) true (cl_settled x).
Definition settled_call (x : call) : call := Call (cl_generation x) (cl_payload x) (cl_aborted x) true.

(** [abortControllerRef.current?.abort(); abortControllerRef.current = null] *)
Definition abort_call (s : chat) : chat :=
  match ct_abort s with Some i => set_calls (alter aborted_call i (ct_calls s)) None s | None => s end.

Definition sendStreamingChat (payload : chat_request) (s : chat) : chat :=
  let s := abort_call (set_generation (S (ct_generation s)) s) in
  let s := setIsRequesting true (discardPendingStreamUpdates (ct_generation s) s) in
  on_controller (send payload (ct_generation s)) s.

(** [sendNonStreamingChat], up to the await of the answer. *)
Definition sendNonStreamingChat (payload : chat_request) (s : chat) : chat :=
  let s := on_controller (cancel true) (set_generation (S (ct_generation s)) s) in
  let s := abort_call (discardPendingStreamUpdates (ct_generation s) s) in
  setIsRequesting true
    (set_calls (ct_calls s ++ [Call (ct_generation s) payload false false]) (Some (length (ct_calls s))) s).

Inductive call_result : Type :=
| CallAnswered (response : chat_response)
| CallFailed (error : jsval).

(** The rest of it, after the await, with its [finally]. *)
Definition call_settled (now : option clock) (x : call) (r : call_result) (s : chat) : chat :=
  let g := cl_generation x in
  let s :=
    if cl_aborted x || negb (ct_generation s =? g)%nat then s
    else
      match r with
      | CallAnswered response =>
          if negb (hasChatCompletionChoice response) then (handleStreamError now g (VStr API_REQUEST_ERROR) VUndef s).1
          else onMessageUpdate now (UAnswer g response) s
      | CallFailed error => let '(code, text) := parseRequestErrorDetails error in (handleStreamError now g text code s).1
      end in
  if (ct_generation s =? g)%nat then setIsRequesting false (set_calls (ct_calls s) None s) else s.

Definition sendChat (config : playground_config) (enabled : parameter_enabled) (messages : list message) (s : chat) : chat :=
  let payload := buildChatCompletionPayload messages config enabled in
  if pc_stream config then sendStreamingChat payload s else sendNonStreamingChat payload s.

Definition stopGeneration (now : option clock) (s : chat) : chat :=
  let s := flushStreamUpdates now (ct_generation s) s in
  let idle := S (ct_generation s) in
  let s := discardPendingStreamUpdates idle (set_generation idle s) in
  let s := abort_call (on_controller (cancel true) s) in
  onMessageUpdate now (UStop idle) (setIsRequesting false s).

(** The page is left: the clean-up of both hooks. *)
Definition unmount (s : chat) : chat :=
  on_controller (cancel false) (abort_call (set_timer None (set_generation (S (ct_generation s)) s))).

Definition isGenerating (s : chat) : bool := co_streaming (ct_controller s) || ct_requesting s.

(** ** use-playground-conversation.ts *)

(** New messages are built from those of the last rendering. *)
Definition replace_and_send (now : option clock) (config : playground_config) (enabled : parameter_enabled) (messages : list message)
  (s : chat) : chat :=
  sendChat config enabled messages (onMessageUpdate now (USet messages) s).

Definition handleSendMessage (now : option clock) (t : num) (user assistant : fresh_ids) (config : playground_config)
  (enabled : parameter_enabled) (text : jsstr) (s : chat) : chat :=
  replace_and_send now config enabled (appendUserMessagePair t user assistant (ct_rendered s) text) s.

Definition handleRegenerateMessage (now : option clock) (t : num) (ids : fresh_ids) (config : playground_config)
  (enabled : parameter_enabled) (key : jsstr) (s : chat) : chat :=
  match createRegeneratedMessages t ids (ct_rendered s) key with
  | Some messages => replace_and_send now config enabled messages s
  | None => s
  end.

(** [key] is that of the message under edit. *)
Definition applyEdit (now : option clock) (t : num) (ids : fresh_ids) (config : playground_config) (enabled : parameter_enabled)
  (key text : jsstr) (shouldSubmit : bool) (s : chat) : chat :=
  if negb (truthy_str key) then s
  else
    match applyMessageEdit t ids (ct_rendered s) key text shouldSubmit with
    | Some (messages, true) => replace_and_send now config enabled messages s
    | Some (messages, false) => onMessageUpdate now (USet messages) s
    | None => s
    end.

Definition handleDeleteMessage (now : option clock) (key : jsstr) (s : chat) : chat := onMessageUpdate now (UDelete key) s.

(** ** Events *)

Inductive event : Type :=
| ESend (t : num) (user assistant : fresh_ids) (config : playground_config) (enabled : parameter_enabled) (text : jsstr)
| ERegenerate (t : num) (ids : fresh_ids) (config : playground_config) (enabled : parameter_enabled) (key : jsstr)
| EEdit (t : num) (ids : fresh_ids) (config : playground_config) (enabled : parameter_enabled) (key text : jsstr) (submit : bool)
| EDelete (key : jsstr)
| EStop
| EUnmount
| EHeaders (i : nat) (r : headers_result)
| EMessage (id : nat) (data : jsstr)
| EError (id : nat) (data : option jsstr) (readyState : option num)
| EReadyState (id : nat) (readyState status : option num)
| ETimer
| ECall (i : nat) (r : call_result)
| ERender (now : nat -> clock).

(** One event; [now] is the clock where React runs an update at once. *)
Definition step (now : option clock) (e : event) (s : chat) : chat :=
  match e with
  | ESend t user assistant config enabled text => handleSendMessage now t user assistant config enabled text s
  | ERegenerate t ids config enabled key => handleRegenerateMessage now t ids config enabled key s
  | EEdit t ids config enabled key text submit => applyEdit now t ids config enabled key text submit s
  | EDelete key => handleDeleteMessage now key s
  | EStop => stopGeneration now s
  | EUnmount => unmount s
  | EHeaders i r =>
      match co_waiting (ct_controller s) !! i with
      | Some w => resume now w r (on_controller (fun c => set_waiting (take i (co_waiting c) ++ drop (S i) (co_waiting c)) c) s)
      | None => s
      end
  | EMessage id data => source_message now id data s
  | EError id data readyState => source_error now id data readyState s
  | EReadyState id readyState status => source_state now id readyState status s
  | ETimer =>
      match ct_timer s with Some g => flushStreamUpdates now g s | None => s end
  | ECall i r =>
      match ct_calls s !! i with
      | Some x => if cl_settled x then s else call_settled now x r (set_calls (alter settled_call i (ct_calls s)) (ct_abort s) s)
      | None => s
      end
  | ERender now => render now s
  end.

Fixpoint run (es : list (option clock * event)) (s : chat) : chat :=
  match es with [] => s | (now, e) :: es' => run es' (step now e s) end.
End texts.
