(* ===== verification/ChatStreamSpec.v ===== *)
(** * Properties of streamed answers

    Connections: at most one is open, and it serves the latest request.  Texts: whatever
    the timing of flushes and renderings, the answer is put together from its pieces, whole
    where none of them starts over. *)

From S2P Require Import Prelude JsString JsNumber JsValue JsArray ChatMessage ChatMessageSpec ChatStream.

Section chat.
Context {T : ChatTexts}.

(** ** Connections *)

(** The controller after the requests up to the generation [g] of the handler. *)
Record connected (g : nat) (c : controller) : Prop := Connected {
  cn_active : forall id, co_source c = Some id ->
    exists x, co_sources c !! id = Some x /\ src_generation x = co_generation c /\ src_for x = g /\ src_closed x = false;
  cn_open : forall id x, co_sources c !! id = Some x -> src_closed x = false -> co_source c = Some id;
  cn_waiting : Forall (fun w => w_generation w <= co_generation c /\
    (w_generation w = co_generation c -> w_for w = g /\ co_source c = None)) (co_waiting c);
  cn_distinct : NoDup (map w_generation (co_waiting c));
  cn_past : Forall (fun x => src_generation x <= co_generation c) (co_sources c);
}.

Lemma connected_initial : connected 0 (Controller None 0 false [] []).
Proof. split; try done; constructor. Qed.

Lemma connected_streaming g b c : connected g c -> connected g (setStreaming b c).
Proof. by destruct 1. Qed.

Lemma alter_source {f : source -> source} id l j x : alter f id l !! j = Some x ->
  exists y, (l : list source) !! j = Some y /\ (x = y /\ j <> id \/ x = f y /\ j = id).
Proof.
  rewrite list_lookup_alter. case_decide as Hj.
  - subst. intros (y & Hy & ->)%fmap_Some. exists y. auto.
  - intros Hy. exists x. split; [done|]. left. split; congruence.
Qed.

Lemma past_alter (f : source -> source) id n l : (forall x, src_generation (f x) = src_generation x) ->
  Forall (fun x => src_generation x <= n) l -> Forall (fun x => src_generation x <= n) (alter f id l).
Proof.
  intros Hf Hl. rewrite Forall_lookup in Hl |- *. intros j x Hx. destruct (alter_source id l j x Hx) as (y & Hy & [[-> _]|[-> _]]);
    rewrite ?Hf; by eapply Hl.
Qed.

(** Closing the active connection leaves none open. *)
Lemma connected_closed g c : connected g c -> connected g (close_previous c) /\ co_source (close_previous c) = None.
Proof.
  intros Hc. unfold close_previous. destruct (co_source c) as [id|] eqn:E; [|done]. destruct Hc as [Ha Ho Hw Hd Hp].
  split; [|done]. split; cbn; try done.
  - intros j x Hx Hc. destruct (alter_source id _ j x Hx) as (y & Hy & [[-> Hne]|[-> _]]); [|done].
    specialize (Ho j y Hy Hc). congruence.
  - eapply List.Forall_impl; [|exact Hw]. intros w [H1 H2]. split; [done|]. intros Hg. split; [by apply H2|done].
  - by apply past_alter.
Qed.

(** A new generation: nothing that waits belongs to it. *)
Lemma connected_next g g' c : connected g c -> co_source c = None -> connected g' (next_generation c).
Proof.
  intros [Ha Ho Hw Hd Hp] Hn. split; cbn; try done.
  - rewrite Hn. done.
  - eapply List.Forall_impl; [|exact Hw]. cbn. intros w [H1 _]. split; lia.
  - eapply List.Forall_impl; [|exact Hp]. cbn. lia.
Qed.

Lemma connected_send g g' payload c : connected g c -> connected g' (send payload g' c).
Proof.
  intros Hc. unfold send. destruct (connected_closed g c Hc) as [Hc1 Hn].
  assert (E : close_previous (next_generation c) = next_generation (close_previous c)).
  { unfold close_previous. cbn. by destruct (co_source c). }
  rewrite E. destruct (connected_next g g' _ Hc1 Hn) as [Ha Ho Hw Hd Hp]. clear E. set (c' := next_generation (close_previous c)) in *.
  assert (Hn' : co_source c' = None) by exact Hn. split; cbn; try done.
  - apply Forall_app. split; [done|]. constructor; [|constructor]. cbn. auto.
  - rewrite map_app. apply list.NoDup_app. split; [done|]. split; [|apply NoDup_singleton].
    intros x Hx Hin. apply list_elem_of_singleton in Hin as ->. apply list_elem_of_fmap in Hx as (w & Hwg & Hin).
    destruct Hc1 as [_ _ Hw1 _ _]. rewrite list.Forall_forall in Hw1. apply Hw1 in Hin as [Hle _]. cbn in Hwg. lia.
Qed.

Lemma connected_cancel g g' notify c : connected g c -> connected g' (cancel notify c) /\ co_source (cancel notify c) = None.
Proof.
  intros Hc. unfold cancel. destruct (connected_closed g c Hc) as [Hc1 Hn].
  assert (E : close_previous (next_generation c) = next_generation (close_previous c)).
  { unfold close_previous. cbn. by destruct (co_source c). }
  rewrite E. pose proof (connected_next g g' _ Hc1 Hn) as Hc2. destruct notify; [|done]. split; [by apply connected_streaming|done].
Qed.

Lemma cancelled_waiting g notify c : connected g c ->
  Forall (fun w => w_generation w <> co_generation (cancel notify c)) (co_waiting (cancel notify c)).
Proof.
  intros [_ _ Hw _ _]. assert (Hc : co_waiting (cancel notify c) = co_waiting c /\ co_generation (cancel notify c) = S (co_generation c)).
  { unfold cancel, close_previous. cbn. by destruct (co_source c), notify. }
  destruct Hc as [-> ->]. eapply List.Forall_impl; [|exact Hw]. cbn. intros w [Hle _]. lia.
Qed.

Lemma connected_completed g id c : connected g c -> connected g (set_sources (alter completed_source id (co_sources c)) c).
Proof.
  intros [Ha Ho Hw Hd Hp]. split; cbn; try done.
  - intros j Hj. destruct (Ha j Hj) as (x & Hx & H1 & H2 & H3). rewrite list_lookup_alter. case_decide.
    + subst. exists (completed_source x). by rewrite Hx.
    + exists x. done.
  - intros j x Hx Hc. destruct (alter_source id _ j x Hx) as (y & Hy & [[-> _]|[-> _]]); by eapply Ho.
  - by apply past_alter.
Qed.

Lemma connected_close_active g id c : connected g c -> connected g (closeActiveSource id c).
Proof.
  intros [Ha Ho Hw Hd Hp]. unfold closeActiveSource. case_bool_decide as Hid; cbn in Hid.
  - split; cbn; try done.
    + intros j x Hx Hc. destruct (alter_source id _ j x Hx) as (y & Hy & [[-> Hne]|[-> _]]); [|done].
      specialize (Ho j y Hy Hc). congruence.
    + eapply List.Forall_impl; [|exact Hw]. intros w [H1 H2]. split; [done|]. intros Hg. split; [by apply H2|done].
    + by apply past_alter.
  - split; cbn; try done.
    + intros j Hj. destruct (Ha j Hj) as (x & Hx & H1 & H2 & H3). rewrite list_lookup_alter. case_decide; [congruence|]. by exists x.
    + intros j x Hx Hc. destruct (alter_source id _ j x Hx) as (y & Hy & [[-> _]|[-> _]]); [by eapply Ho|done].
    + by apply past_alter.
Qed.

Lemma connected_forget g i c : connected g c -> connected g (set_waiting (take i (co_waiting c) ++ drop (S i) (co_waiting c)) c).
Proof.
  intros [Ha Ho Hw Hd Hp]. split; cbn; try done.
  - apply Forall_app. split; [by apply Forall_take|by apply Forall_drop].
  - destruct (co_waiting c !! i) as [w|] eqn:Ei.
    + rewrite <- (take_drop_middle (co_waiting c) i w Ei), map_app in Hd. rewrite map_app. cbn [map] in Hd.
      apply list.NoDup_app in Hd as (H1 & H2 & [_ H3]%list.NoDup_cons). apply list.NoDup_app. split; [done|]. split; [|done].
      intros x Hx Hin. apply (H2 x Hx). by right.
    + apply lookup_ge_None in Ei. rewrite take_ge, drop_ge, app_nil_r by lia. done.
Qed.

(** The request whose headers arrive in its own generation opens its connection. *)
Lemma connected_open g w i c : connected g c -> co_waiting c !! i = Some w -> co_generation c = w_generation w ->
  connected g (open_source w (set_waiting (take i (co_waiting c) ++ drop (S i) (co_waiting c)) c)) /\ w_for w = g.
Proof.
  intros Hc Hi Hg. destruct (connected_forget g i c Hc) as [Ha Ho Hw Hd Hp].
  destruct Hc as [_ _ Hw0 Hd0 _]. rewrite Forall_lookup in Hw0. destruct (Hw0 i w Hi) as [_ Hfor].
  destruct (Hfor (eq_sym Hg)) as [Hf Hn]. split; [|done].
  set (c1 := set_waiting _ c) in *. assert (Hn1 : co_source c1 = None) by done. split; cbn.
  - intros id [= <-]. eexists. rewrite lookup_app_r, Nat.sub_diag by lia. split; [reflexivity|]. done.
  - intros id x Hx Hopen. apply lookup_app_Some in Hx as [Hx|[Hlen Hx]].
    + specialize (Ho id x Hx Hopen). congruence.
    + destruct (id - length (co_sources c)) as [|k] eqn:Ek; [|by rewrite lookup_cons in Hx]. f_equal. lia.
  - rewrite <- (take_drop_middle (co_waiting c) i w Hi), map_app in Hd0. cbn [map] in Hd0.
    apply list.NoDup_app in Hd0 as (_ & H2 & [H3 _]%list.NoDup_cons). cbn in Hw. rewrite list.Forall_forall in Hw |- *. intros v Hv.
    specialize (Hw v Hv) as [Hle _]. split; [done|]. intros Hv'. exfalso. rewrite Hg in Hv'.
    apply elem_of_app in Hv as [Hv|Hv].
    + apply (H2 (w_generation w)); [|by left]. rewrite <- Hv'. by apply list_elem_of_fmap_2.
    + apply H3. rewrite <- Hv'. by apply list_elem_of_fmap_2.
  - done.
  - apply Forall_app. split; [done|]. constructor; [cbn; lia|constructor].
Qed.

(** ** The page *)

(** A request that is not streamed keeps the connections of the controller out. *)
Definition undisturbed (s : chat) : Prop :=
  (exists x, x ∈ ct_calls s /\ cl_generation x = ct_generation s) ->
  co_source (ct_controller s) = None /\
  Forall (fun w => w_generation w <> co_generation (ct_controller s)) (co_waiting (ct_controller s)).

Record chat_ok (s : chat) : Prop := ChatOk {
  ok_connected : connected (ct_generation s) (ct_controller s);
  ok_pending : pd_generation (ct_pending s) <= ct_generation s;
  ok_timer : forall g, ct_timer s = Some g -> g = ct_generation s;
  ok_calls : Forall (fun x => cl_generation x <= ct_generation s) (ct_calls s);
  ok_undisturbed : undisturbed s;
}.

(** What the callbacks of a request leave alone. *)
Record quiet (s s' : chat) : Prop := Quiet {
  q_controller : ct_controller s' = ct_controller s;
  q_generation : ct_generation s' = ct_generation s;
  q_calls : ct_calls s' = ct_calls s;
  q_pending : pd_generation (ct_pending s') = pd_generation (ct_pending s);
  q_timer : ct_timer s' = ct_timer s \/ ct_timer s' = None \/ ct_timer s' = Some (ct_generation s);
}.

Lemma quiet_refl s : quiet s s.
Proof. split; auto. Qed.

Lemma quiet_trans s1 s2 s3 : quiet s1 s2 -> quiet s2 s3 -> quiet s1 s3.
Proof.
  intros [a1 a2 a3 a4 a5] [b1 b2 b3 b4 b5]. split; try congruence.
  destruct b5 as [-> |[-> | ->]]; [done|by right; left|]. right. right. congruence.
Qed.

Lemma quiet_ok s s' : quiet s s' -> chat_ok s -> chat_ok s'.
Proof.
  intros [a1 a2 a3 a4 a5] [b1 b2 b3 b4 b5]. split; unfold undisturbed in *; rewrite ?a1, ?a2, ?a3, ?a4; try done.
  intros g Hg. destruct a5 as [E|[E|E]]; rewrite E in Hg; [by apply b3|done|]. by injection Hg as <-.
Qed.

Lemma quiet_update now u s : quiet s (onMessageUpdate now u s).
Proof. unfold onMessageUpdate. destruct now, (ct_updates s); split; auto. Qed.

Lemma quiet_requesting b s : quiet s (setIsRequesting b s).
Proof. split; auto. Qed.

Lemma quiet_flush now g s : quiet s (flushStreamUpdates now g s).
Proof.
  unfold flushStreamUpdates. destruct (negb (g =? _)) eqn:Eg; [apply quiet_refl|]. cbv zeta.
  destruct (negb (pd_generation _ =? g)) eqn:Ep; [split; auto|].
  destruct (_ && _); [split; auto|]. eapply quiet_trans; [|apply quiet_update].
  split; auto. cbn. cbn in Ep. by apply negb_false_iff, Nat.eqb_eq in Ep.
Qed.

Lemma quiet_complete now g s : quiet s (handleStreamComplete now g s).
Proof.
  unfold handleStreamComplete. destruct (negb _); [apply quiet_refl|].
  eapply quiet_trans; [apply (quiet_flush now g)|]. eapply quiet_trans; [apply (quiet_requesting false)|apply quiet_update].
Qed.

Lemma quiet_error now g error code s : quiet s (handleStreamError now g error code s).1.
Proof.
  unfold handleStreamError. destruct (negb _); [apply quiet_refl|]. cbv zeta.
  pose proof (quiet_trans _ _ _ (quiet_flush now g s) (quiet_requesting false _)) as Hq.
  destruct error; try exact Hq. eapply quiet_trans; [exact Hq|apply quiet_update].
Qed.

Lemma quiet_chunk g type chunk s s' : handleStreamUpdate g type chunk s = Some s' -> quiet s s'.
Proof.
  unfold handleStreamUpdate. destruct (negb (g =? _)) eqn:Eg; [intros [= <-]; apply quiet_refl|].
  destruct (negb (_ =? g)) eqn:Ep; [intros [= <-]; apply quiet_refl|].
  assert (Hs : forall p, pd_generation p = pd_generation (ct_pending s) -> quiet s (scheduleStreamFlush g (set_pending p s))).
  { intros p Hp. unfold scheduleStreamFlush. cbn. rewrite Eg. apply negb_false_iff, Nat.eqb_eq in Eg as ->.
    destruct (ct_timer s) eqn:Et; split; cbn; auto. }
  destruct type; destruct (mergePendingStreamChunk _ chunk); intros [= <-]; by apply Hs.
Qed.

Lemma quiet_chunks g us s : quiet s (handle_updates g us s).1.
Proof.
  revert s. induction us as [|[type chunk] us IH]; intros s; cbn [handle_updates]; [apply quiet_refl|].
  destruct (handleStreamUpdate g type chunk s) as [s'|] eqn:E; [|apply quiet_refl].
  eapply quiet_trans; [by eapply quiet_chunk|apply IH].
Qed.

(** Changes of the controller alone. *)
Lemma ok_on_controller f s : connected (ct_generation s) (f (ct_controller s)) ->
  (co_source (ct_controller s) = None -> co_source (f (ct_controller s)) = None) ->
  (Forall (fun w => w_generation w <> co_generation (ct_controller s)) (co_waiting (ct_controller s)) ->
   Forall (fun w => w_generation w <> co_generation (f (ct_controller s))) (co_waiting (f (ct_controller s)))) ->
  chat_ok s -> chat_ok (on_controller f s).
Proof. intros Hc Hs Hw [b1 b2 b3 b4 b5]. split; try done. intros Hx. destruct (b5 Hx) as [H1 H2]. split; [by apply Hs|by apply Hw]. Qed.

Lemma ok_completed id s : chat_ok s -> chat_ok (complete_source id s).
Proof. intros Hs. apply ok_on_controller; try done. apply connected_completed, Hs. Qed.

Lemma ok_close_active id s : chat_ok s -> chat_ok (on_controller (closeActiveSource id) s).
Proof.
  intros Hs. apply ok_on_controller; try done; [apply connected_close_active, Hs|..]; unfold closeActiveSource; by case_bool_decide.
Qed.

Lemma ok_failed now id error code s : chat_ok s -> chat_ok (source_failed now id error code s).
Proof.
  intros Hs. unfold source_failed. destruct (negb _); [done|].
  pose proof (quiet_error now (source_for id s) error code (complete_source id s)) as Hq.
  destruct (handleStreamError now (source_for id s) error code (complete_source id s)) as [s' thrown]. cbn in Hq.
  pose proof (quiet_ok _ _ Hq (ok_completed id s Hs)) as Hs'. destruct thrown; [done|by apply ok_close_active].
Qed.

Lemma ok_message now id data s : chat_ok s -> chat_ok (source_message now id data s).
Proof.
  intros Hs. unfold source_message. destruct (negb _); [done|]. destruct (isStreamDoneMessage data).
  - eapply quiet_ok; [apply quiet_complete|]. by apply ok_close_active, ok_completed.
  - destruct (parseStreamMessageUpdates data) as [us|]; [|by apply ok_failed].
    pose proof (quiet_chunks (source_for id s) us s) as Hq. destruct (handle_updates _ us s) as [s' thrown]. cbn in Hq.
    pose proof (quiet_ok _ _ Hq Hs). destruct thrown; [by apply ok_failed|done].
Qed.

Lemma ok_resume now i w r s : chat_ok s -> co_waiting (ct_controller s) !! i = Some w ->
  chat_ok (resume now w r (on_controller (fun c => set_waiting (take i (co_waiting c) ++ drop (S i) (co_waiting c)) c) s)).
Proof.
  intros Hs Hi. set (forget := fun c : controller => _). set (s1 := on_controller forget s).
  assert (Hs1 : chat_ok s1).
  { apply ok_on_controller; try done; [apply connected_forget, Hs|]. cbn. intros Hw. apply Forall_app.
    split; [by apply Forall_take|by apply Forall_drop]. }
  unfold resume. destruct (negb _) eqn:Eg; [done|]. apply negb_false_iff, Nat.eqb_eq in Eg.
  destruct r as [m|starts]; [by eapply quiet_ok; [apply quiet_error|]|].
  assert (Hs2 : chat_ok (on_controller (open_source w) s1)).
  { destruct Hs as [Hc Hp Ht Hcalls Hu]. destruct (connected_open _ w i _ Hc Hi Eg) as [Hc' _]. destruct Hs1 as [_ b2 b3 b4 _].
    split; try done. intros Hx. destruct (Hu Hx) as [_ Hw]. rewrite Forall_lookup in Hw. by apply Hw in Hi. }
  destruct starts; [done|by apply ok_failed].
Qed.

Lemma calls_bound (f : call -> call) n i l : (forall x, cl_generation (f x) = cl_generation x) ->
  Forall (fun x => cl_generation x <= n) l -> Forall (fun x => cl_generation x <= n) (alter f i l).
Proof.
  intros Hf Hl. rewrite Forall_lookup in Hl |- *. intros j x. rewrite list_lookup_alter. case_decide.
  - intros (y & Hy & ->)%fmap_Some. rewrite Hf. by eapply Hl.
  - by apply Hl.
Qed.

(** A new generation of the handler, with the controller moved on. *)
Lemma ok_next s s' : chat_ok s -> ct_generation s' = S (ct_generation s) ->
  connected (ct_generation s') (ct_controller s') -> pd_generation (ct_pending s') <= ct_generation s' ->
  ct_timer s' = None -> Forall (fun x => cl_generation x <= ct_generation s) (ct_calls s') -> chat_ok s'.
Proof.
  intros Hs Hg Hc Hp Ht Hcalls. split; [done|done|congruence| |].
  - eapply List.Forall_impl; [|exact Hcalls]. cbn. lia.
  - intros (x & Hx & Hxg). rewrite list.Forall_forall in Hcalls. apply Hcalls in Hx. lia.
Qed.

Lemma aborted_calls n s : Forall (fun x => cl_generation x <= n) (ct_calls s) ->
  Forall (fun x => cl_generation x <= n) (ct_calls (abort_call s)).
Proof. intros Hl. unfold abort_call. destruct (ct_abort s); [by apply calls_bound|done]. Qed.

Lemma abort_keeps s : ct_controller (abort_call s) = ct_controller s /\ ct_generation (abort_call s) = ct_generation s /\
  ct_pending (abort_call s) = ct_pending s /\ ct_timer (abort_call s) = ct_timer s.
Proof. unfold abort_call. by destruct (ct_abort s). Qed.

Lemma ok_streaming payload s : chat_ok s -> chat_ok (sendStreamingChat payload s).
Proof.
  intros Hs. unfold sendStreamingChat. set (s1 := abort_call _).
  destruct (abort_keeps (set_generation (S (ct_generation s)) s)) as (A1 & A2 & A3 & A4). fold s1 in A1, A2, A3, A4.
  apply (ok_next s); cbn; rewrite ?A2; cbn; try done.
  - rewrite A1. cbn. eapply connected_send, Hs.
  - apply (aborted_calls (ct_generation s)). apply Hs.
Qed.

Lemma ok_call payload s : chat_ok s -> chat_ok (sendNonStreamingChat payload s).
Proof.
  intros Hs. unfold sendNonStreamingChat. set (s1 := on_controller _ _). set (s2 := abort_call _).
  destruct (abort_keeps (discardPendingStreamUpdates (ct_generation s1) s1)) as (A1 & A2 & A3 & A4). fold s2 in A1, A2, A3, A4.
  destruct Hs as [Hc Hp Ht Hcalls Hu].
  destruct (connected_cancel _ (S (ct_generation s)) true _ Hc) as [Hc' Hn].
  assert (Hl : Forall (fun x => cl_generation x <= ct_generation s) (ct_calls s2)) by (by apply aborted_calls).
  assert (G : ct_generation s2 = S (ct_generation s)) by (by rewrite A2). assert (C : ct_controller s2 = cancel true (ct_controller s)) by (by rewrite A1).
  split; cbn; rewrite ?A3, ?A4, ?G, ?C; try done.
  - apply Forall_app. split; [|by repeat constructor]. eapply List.Forall_impl; [|exact Hl]. cbn. lia.
  - intros _. cbn. rewrite C. split; [done|]. by eapply cancelled_waiting.
Qed.

Lemma ok_stop now s : chat_ok s -> chat_ok (stopGeneration now s).
Proof.
  intros Hs. unfold stopGeneration. cbv zeta. set (s0 := flushStreamUpdates now (ct_generation s) s).
  assert (Hs0 : chat_ok s0) by (eapply quiet_ok; [apply quiet_flush|done]). clearbody s0. clear Hs.
  eapply quiet_ok; [apply quiet_update|]. set (s1 := on_controller (cancel true) _).
  destruct (abort_keeps s1) as (A1 & A2 & A3 & A4).
  apply (ok_next s0); cbn; rewrite ?A1, ?A2, ?A3, ?A4; cbn; try done.
  - exact (proj1 (connected_cancel _ (S (ct_generation s0)) true _ (ok_connected s0 Hs0))).
  - apply (aborted_calls (ct_generation s0)). apply Hs0.
Qed.

Lemma ok_unmount s : chat_ok s -> chat_ok (unmount s).
Proof.
  intros Hs. unfold unmount. set (s1 := abort_call _). destruct (abort_keeps (set_timer None (set_generation (S (ct_generation s)) s))) as (A1 & A2 & A3 & A4).
  fold s1 in A1, A2, A3, A4. apply (ok_next s); cbn; rewrite ?A1, ?A2, ?A3, ?A4; cbn; try done.
  - exact (proj1 (connected_cancel _ (S (ct_generation s)) false _ (ok_connected s Hs))).
  - pose proof (ok_pending s Hs). lia.
  - apply (aborted_calls (ct_generation s)). apply Hs.
Qed.

Lemma ok_send now config enabled ms s : chat_ok s -> chat_ok (replace_and_send now config enabled ms s).
Proof.
  intros Hs. unfold replace_and_send, sendChat. pose proof (quiet_ok _ _ (quiet_update now (USet ms) s) Hs).
  destruct (pc_stream config); [by apply ok_streaming|by apply ok_call].
Qed.

Lemma ok_settled now i x r s : chat_ok s -> ct_calls s !! i = Some x ->
  chat_ok (call_settled now x r (set_calls (alter settled_call i (ct_calls s)) (ct_abort s) s)).
Proof.
  intros Hs Hi. set (s1 := set_calls _ _ s). assert (Hs1 : chat_ok s1).
  { destruct Hs as [b1 b2 b3 b4 b5]. split; try done; [by apply calls_bound|]. intros (y & Hy & Hg). apply b5.
    apply list_elem_of_lookup in Hy as [j Hj]. cbn in Hj. rewrite list_lookup_alter in Hj. case_decide.
    - apply fmap_Some in Hj as (z & Hz & ->). exists z. split; [by eapply list_elem_of_lookup_2|done].
    - exists y. split; [by eapply list_elem_of_lookup_2|done]. }
  clearbody s1. unfold call_settled. cbv zeta.
  assert (Hend : forall t, chat_ok t -> chat_ok (if (ct_generation t =? cl_generation x)%nat then setIsRequesting false (set_calls (ct_calls t) None t) else t)).
  { intros t Ht. destruct (_ =? _)%nat; [|done]. eapply quiet_ok; [|exact Ht]. split; auto. }
  apply Hend. destruct (_ || _); [done|]. destruct r as [response|error].
  - destruct (negb _); (eapply quiet_ok; [|exact Hs1]); [apply quiet_error|apply quiet_update].
  - destruct (parseRequestErrorDetails error) as [code text]. eapply quiet_ok; [apply quiet_error|done].
Qed.

Lemma ok_step now e s : chat_ok s -> chat_ok (step now e s).
Proof.
  intros Hs. destruct e; cbn [step].
  - by apply ok_send.
  - unfold handleRegenerateMessage. destruct (createRegeneratedMessages _ _ _ _); [by apply ok_send|done].
  - unfold applyEdit. destruct (negb _); [done|]. destruct (applyMessageEdit _ _ _ _ _ _) as [[ms []]|]; [by apply ok_send| |done]. eapply quiet_ok; [apply quiet_update|done].
  - eapply quiet_ok; [apply quiet_update|done].
  - by apply ok_stop.
  - by apply ok_unmount.
  - destruct (co_waiting _ !! i) as [w|] eqn:Ei; [by apply ok_resume|done].
  - by apply ok_message.
  - unfold source_error. destruct (negb _); [done|]. destruct (isStreamClosedReadyState _); [done|].
    destruct (parseStreamErrorDetails data). by apply ok_failed.
  - unfold source_state. destruct (negb _); [done|]. destruct (getStreamReadyStateError _ _); [by apply ok_failed|done].
  - destruct (ct_timer s); [|done]. eapply quiet_ok; [apply quiet_flush|done].
  - destruct (ct_calls s !! i) as [x|] eqn:Ei; [|done]. destruct (cl_settled x); [done|by apply ok_settled].
  - eapply quiet_ok; [|exact Hs]. split; auto.
Qed.

Lemma ok_run ms es : chat_ok (run es (initial_chat ms)).
Proof.
  assert (H0 : chat_ok (initial_chat ms)).
  { split; try done. apply connected_initial. }
  revert H0. generalize (initial_chat ms). induction es as [|[now e] es IH]; intros s Hs; [done|]. by apply IH, ok_step.
Qed.

(** ** The latest request *)

(** The request an event belongs to, by its generation. *)
Definition belongs (e : event) (s : chat) : option nat :=
  match e with
  | EHeaders i _ => w_for <$> co_waiting (ct_controller s) !! i
  | EMessage id _ | EError id _ _ | EReadyState id _ _ => src_for <$> co_sources (ct_controller s) !! id
  | ECall i _ => cl_generation <$> ct_calls s !! i
  | _ => None
  end.

(** What the page shows and what decides about it. *)
Definition visible (s : chat) : option nat * nat * bool * nat * pending_chunks * option nat * bool * list update * list message * list message :=
  (co_source (ct_controller s), co_generation (ct_controller s), co_streaming (ct_controller s), ct_generation s, ct_pending s,
   ct_timer s, ct_requesting s, ct_updates s, ct_messages s, ct_rendered s).

Lemma inactive g id c x : connected g c -> co_sources c !! id = Some x -> src_for x <> g -> is_active id c = false.
Proof.
  intros [Ha _ _ _ _] Hx Hf. unfold is_active. rewrite Hx. destruct (_ =? _)%nat; [|done]. cbn [andb].
  case_bool_decide as Hs; [|done]. destruct (Ha id Hs) as (y & Hy & _ & Hfor & _). congruence.
Qed.

Lemma superseded_event now e s g : chat_ok s -> belongs e s = Some g -> g <> ct_generation s -> visible (step now e s) = visible s.
Proof.
  intros Hs Hb Hg. pose proof (ok_connected s Hs) as Hc.
  assert (Hin : forall id, src_for <$> co_sources (ct_controller s) !! id = Some g -> is_active id (ct_controller s) = false).
  { intros id (x & Hx & ->)%fmap_Some. by eapply inactive. }
  destruct e; try done; cbn [belongs step] in *.
  - apply fmap_Some in Hb as (w & Hw & ->). rewrite Hw. unfold resume. destruct (negb _) eqn:E; [done|].
    apply negb_false_iff, Nat.eqb_eq in E. cbn in E. destruct Hc as [_ _ Hwait _ _]. rewrite Forall_lookup in Hwait.
    by destruct (Hwait i w Hw) as [_ [Hf _]].
  - unfold source_message. by rewrite (Hin id Hb).
  - unfold source_error. by rewrite (Hin id Hb).
  - unfold source_state. by rewrite (Hin id Hb).
  - apply fmap_Some in Hb as (x & Hx & ->). rewrite Hx. destruct (cl_settled x); [done|]. unfold call_settled. cbv zeta.
    assert (E : (ct_generation s =? cl_generation x)%nat = false) by (apply Nat.eqb_neq; congruence).
    cbn [ct_generation set_calls]. rewrite E. cbn [negb]. rewrite orb_true_r. cbn [ct_generation set_calls]. by rewrite E.
Qed.

(** C14: in every interleaving of actions of the user, headers, events of connections,
    timers, answers and renderings, at most one connection is open, and it was opened for
    the latest request; and an event of an earlier request, late headers, messages and
    errors of a closed connection or a late answer, changes nothing of what the page shows
    or collects. *)
Theorem latest_request_only ms es : let s := run es (initial_chat ms) in
  (forall id id' x x', co_sources (ct_controller s) !! id = Some x -> src_closed x = false ->
     co_sources (ct_controller s) !! id' = Some x' -> src_closed x' = false -> id = id' /\ src_for x = ct_generation s) /\
  (forall now e g, belongs e s = Some g -> g <> ct_generation s -> visible (step now e s) = visible s).
Proof.
  cbv zeta. pose proof (ok_run ms es) as Hs. set (s := run es _) in *. clearbody s. split.
  - intros id id' x x' Hx Ho Hx' Ho'. destruct Hs as [[Ha Hopen _ _ _] _ _ _ _].
    pose proof (Hopen id x Hx Ho) as H1. pose proof (Hopen id' x' Hx' Ho') as H2.
    destruct (Ha id H1) as (y & Hy & _ & Hf & _). split; congruence.
  - intros now e g. by apply superseded_event.
Qed.

(** ** The text of an answer *)

(** Of consecutive pieces none starts over: no run of pieces begins with the text of the
    run before it. *)
Definition no_restarts (l : list jsstr) : bool :=
  forallb (fun k => forallb (fun i => forallb (fun j =>
    let b := concat (take i (drop k l)) in
    negb (truthy_str b) || negb (starts_with b (concat (take j (drop (k + i) l)))))
    (List.seq 0 (S (length l)))) (List.seq 0 (S (length l)))) (List.seq 0 (S (length l))).

Lemma no_restarts_runs l a b c d : no_restarts l = true -> l = a ++ b ++ c ++ d ->
  concat b = [] \/ starts_with (concat b) (concat c) = false.
Proof.
  intros Hl ->. unfold no_restarts in Hl. set (l := a ++ _) in Hl.
  assert (Hlen : length a + length b + length c <= length l) by (unfold l; rewrite !length_app; lia).
  rewrite forallb_forall in Hl. specialize (Hl (length a) ltac:(apply in_seq; lia)). cbv beta in Hl.
  rewrite forallb_forall in Hl. specialize (Hl (length b) ltac:(apply in_seq; lia)). cbv beta in Hl.
  rewrite forallb_forall in Hl. specialize (Hl (length c) ltac:(apply in_seq; lia)). cbv zeta in Hl.
  rewrite <- drop_drop in Hl. unfold l in Hl. rewrite drop_app_length, take_app_length, drop_app_length, take_app_length in Hl.
  destruct (concat b); [by left|]. right. cbn [truthy_str negb orb] in Hl. by apply negb_true_iff in Hl.
Qed.

Lemma absorb_nil t : absorb t [] = t.
Proof. unfold absorb. destruct t; [done|]. simpl. by rewrite app_nil_r. Qed.

Lemma absorb_appends a b : a = [] \/ starts_with a b = false -> absorb a b = a ++ b.
Proof. unfold absorb. intros [-> |Hs]; [by destruct (starts_with [] b)|]. by rewrite Hs. Qed.

(** The text of pieces collected for one flush, and that of flushes shown in turn. *)
Definition collected (pieces : list jsstr) : jsstr := fold_left absorb pieces [].
Definition replayed (batches : list (list jsstr)) : jsstr := fold_left absorb (map collected batches) [].

Lemma collected_snoc p t : collected (p ++ [t]) = absorb (collected p) t.
Proof. unfold collected. by rewrite fold_left_app. Qed.
Lemma replayed_snoc b p : replayed (b ++ [p]) = absorb (replayed b) (collected p).
Proof. unfold replayed. by rewrite map_app, fold_left_app. Qed.

(** Pieces of which none starts over: their texts in a row, whatever the batches. *)
Lemma collected_whole l a p d : no_restarts l = true -> l = a ++ p ++ d -> collected p = concat p.
Proof.
  intros Hl. revert d. induction p as [|t p IH] using rev_ind; intros d Hd; [done|].
  rewrite <- app_assoc in Hd. rewrite collected_snoc, (IH _ Hd), concat_app. cbn [concat]. rewrite app_nil_r.
  apply absorb_appends. replace t with (concat [t]) by apply app_nil_r. by eapply (no_restarts_runs l a p [t] d).
Qed.

Lemma replayed_whole l b d : no_restarts l = true -> l = concat b ++ d -> replayed b = concat (concat b).
Proof.
  intros Hl. revert d. induction b as [|p b IH] using rev_ind; intros d Hd; [done|].
  rewrite concat_app in Hd |- *. cbn [concat] in *. rewrite app_nil_r in *. rewrite <- app_assoc in Hd.
  rewrite replayed_snoc, (IH _ Hd), (collected_whole l (concat b) p d Hl Hd), concat_app. apply absorb_appends.
  by eapply (no_restarts_runs l [] (concat b) p d).
Qed.

(** Snapshots: every piece begins with the one before it. *)
Fixpoint snapshots (prev : jsstr) (l : list jsstr) : bool :=
  match l with [] => true | t :: l => starts_with prev t && snapshots t l end.

Lemma starts_with_trans a b c : starts_with a b = true -> starts_with b c = true -> starts_with a c = true.
Proof. intros [t ->]%starts_with_inv [u ->]%starts_with_inv. rewrite <- app_assoc. apply starts_with_app. Qed.

Lemma last_default {A} (l : list A) d d' : l <> [] -> List.last l d = List.last l d'.
Proof. induction l as [|x [|y l] IH]; intros Hne; [done|done|]. by apply IH. Qed.

Lemma last_app_r {A} (l l' : list A) d : l' <> [] -> List.last (l ++ l') d = List.last l' d.
Proof.
  intros Hne. induction l as [|x l IH]; [done|]. cbn [app]. rewrite <- IH.
  destruct (l ++ l') eqn:E; [|done]. by apply app_nil in E as [_ ->].
Qed.

Lemma snapshots_app prev l l' : snapshots prev (l ++ l') = snapshots prev l && snapshots (List.last l prev) l'.
Proof.
  revert prev. induction l as [|t l IH]; intros prev; [done|]. cbn [app snapshots]. rewrite IH, andb_assoc. do 2 f_equal.
  destruct l as [|t' l]; [done|]. change (List.last (t :: t' :: l) prev) with (List.last (t' :: l) prev). by apply last_default.
Qed.

Lemma collected_snapshots prev p : p <> [] -> snapshots prev p = true ->
  collected p = List.last p [] /\ starts_with prev (collected p) = true.
Proof.
  induction p as [|t p IH] using rev_ind; intros Hne Hs; [done|]. rewrite snapshots_app in Hs. apply andb_true_iff in Hs as [Hp Ht].
  cbn [snapshots] in Ht. rewrite andb_true_r in Ht. rewrite collected_snoc, last_last.
  destruct p as [|t0 p]; [by destruct t|]. destruct (IH ltac:(done) Hp) as [E H0]. rewrite (last_default _ prev []) in Ht by done.
  rewrite <- E in Ht. unfold absorb. rewrite Ht. split; [done|]. by eapply starts_with_trans.
Qed.

Lemma replayed_snapshots b : snapshots [] (concat b) = true -> replayed b = List.last (concat b) [].
Proof.
  induction b as [|p b IH] using rev_ind; intros Hs; [done|]. rewrite concat_app in Hs |- *. cbn [concat] in *. rewrite app_nil_r in *.
  rewrite snapshots_app in Hs. apply andb_true_iff in Hs as [Hb Hp]. rewrite replayed_snoc, (IH Hb).
  destruct p as [|t p]; [by rewrite absorb_nil, app_nil_r|].
  destruct (collected_snapshots _ (t :: p) ltac:(done) Hp) as [E H0]. unfold absorb. rewrite H0, E.
  symmetry. by apply last_app_r.
Qed.

(** A message that shows the content [c] and was given the reasoning [r]. *)
Record answered (c r : jsstr) (m : message) : Prop := Answered {
  an_role : has_role RAssistant m = true;
  an_status : m_status m = Some SLoading \/ m_status m = Some SStreaming;
  an_content : getMessageContent m = c;
  an_reasoning : includes OPEN_TAG c = false -> default [] (reasoning_text m) = r;
  an_thoughts : r = [] -> truthy_str (th_reasoning (parseThinkTags c)) = true ->
    reasoning_text m = Some (th_reasoning (parseThinkTags c));
}.

Lemma answered_alive c r m : answered c r m -> has_status SError m = false.
Proof. intros [_ [Hs|Hs] _ _ _]; by eapply not_error. Qed.

Lemma includes_prefix p s t : includes p (s ++ t) = false -> includes p s = false.
Proof.
  induction s as [|c s IH]; intros Hi.
  - destruct (includes p []) eqn:E; [|done]. cbn [includes] in E. rewrite orb_false_r in E. destruct p; [|done]. by destruct t.
  - cbn [app includes] in *. apply orb_false_iff in Hi as [H1 H2]. rewrite (IH H2), orb_false_r.
    destruct (starts_with p (c :: s)) eqn:E; [|done]. apply starts_with_inv in E as [u Hu].
    change (c :: s ++ t) with ((c :: s) ++ t) in H1. by rewrite Hu, <- app_assoc, starts_with_self in H1.
Qed.

Lemma same_role m m' r : m_from m' = m_from m -> has_role r m' = has_role r m.
Proof. unfold has_role. by intros ->. Qed.

(** The text shown so far stays at the front. *)
Lemma absorb_prefix a b : exists t, absorb a b = a ++ t.
Proof. unfold absorb. destruct (starts_with a b) eqn:E; [by apply starts_with_inv|by exists b]. Qed.

(** More reasoning. *)
Lemma answered_reasoning now c r x m : answered c r m -> x <> [] -> answered c (absorb r x) (applyStreamingChunk now m CReasoning x).
Proof.
  intros Ha Hne. destruct (reasoning_chunk now m x (answered_alive _ _ _ Ha)) as (H1 & H2 & H3 & H4).
  destruct Ha as [a1 a2 a3 a4 a5]. split.
  - by rewrite (same_role _ _ _ H4).
  - by right.
  - by rewrite H1.
  - intros Hi. rewrite H2. cbn. rewrite (a4 Hi). apply appended.
  - unfold absorb. destruct (starts_with r x); [done|]. by intros [_ ?]%app_nil.
Qed.

(** More content. *)
Lemma answered_content now c r x m : answered c r m -> answered (absorb c x) r (applyStreamingChunk now m CContent x).
Proof.
  intros Ha. destruct (content_chunk now m x (answered_alive _ _ _ Ha)) as (H1 & H2 & H3 & H4).
  destruct Ha as [a1 a2 a3 a4 a5]. rewrite a3, appended in H1, H2. split.
  - by rewrite (same_role _ _ _ H4).
  - by right.
  - exact H1.
  - intros Hi. rewrite H2, tagged_plain by done. apply a4. destruct (absorb_prefix c x) as [t Ht]. rewrite Ht in Hi. by eapply includes_prefix.
  - intros _ Ht. rewrite H2. unfold tagged. by rewrite Ht.
Qed.

Lemma answered_flush now c r x y m : answered c r m -> answered (absorb c x) (absorb r y) (flushed_message now x y m).
Proof.
  intros Ha. unfold flushed_message. cbv zeta. set (m1 := if truthy_str y then _ else m).
  assert (Ha1 : answered c (absorb r y) m1).
  { unfold m1. destruct y; cbn [truthy_str]; [by rewrite absorb_nil|by apply answered_reasoning]. }
  destruct x; cbn [truthy_str]; [by rewrite absorb_nil|by apply answered_content].
Qed.

Lemma update_last base m f : has_role RAssistant m = true -> updateLastAssistantMessage (base ++ [m]) f = base ++ [f m].
Proof. intros Hr. unfold updateLastAssistantMessage. rewrite rev_app_distr. cbn [rev app]. by rewrite Hr, rev_involutive. Qed.

(** The flushes that wait. *)
Definition flush_of (g : nat) (x : list jsstr * list jsstr) : update := UFlush g (collected x.1) (collected x.2).

Lemma apply_flush now g c r base m : has_role RAssistant m = true ->
  apply_update now g (flush_of g (c, r)) (base ++ [m]) = base ++ [flushed_message now (collected c) (collected r) m].
Proof. intros Hr. unfold flush_of. cbn [apply_update fst snd]. rewrite Nat.eqb_refl. cbn [negb]. by apply update_last. Qed.

(** The pieces of content and reasoning, cut into the batches they were shown in. *)
Definition shown_in (bc br : list (list jsstr)) (m : message) : Prop := answered (replayed bc) (replayed br) m.

Lemma shown_flush now bc br c r m : shown_in bc br m ->
  shown_in (bc ++ [c]) (br ++ [r]) (flushed_message now (collected c) (collected r) m).
Proof. unfold shown_in. rewrite !replayed_snoc. apply answered_flush. Qed.

Lemma run_flushes base g q : forall now bc br m, shown_in bc br m ->
  exists m' now', run_updates now g (map (flush_of g) q) (base ++ [m]) = base ++ [m'] /\
    shown_in (bc ++ map fst q) (br ++ map snd q) m' /\
    forall us, run_updates now g (map (flush_of g) q ++ us) (base ++ [m]) = run_updates now' g us (base ++ [m']).
Proof.
  induction q as [|[c r] q IH]; intros now bc br m Ha.
  - exists m, now. cbn [map]. by rewrite !app_nil_r.
  - cbn [map fst snd run_updates app].
    destruct (IH (fun i => now (S i)) _ _ _ (shown_flush (now 0) bc br c r m Ha)) as (m' & now' & H1 & H2 & H3).
    exists m', now'. rewrite (apply_flush (now 0) g c r base m) by apply Ha. rewrite <- !app_assoc in H2. split; [done|]. split; [done|]. intros us. apply H3.
Qed.

(** ** A stream in flow *)

Section flow.
Context (id g : nat) (base : list message).

(** The pieces received so far: those shown, those of flushes that wait, those collected. *)
Record parts (cs rs : list jsstr) (s : chat) : Prop := Parts {
  pt_active : is_active id (ct_controller s) = true;
  pt_for : source_for id s = g;
  pt_generation : ct_generation s = g;
  pt_split : exists bc br q pc pr m,
    cs = concat (bc ++ map fst q) ++ pc /\ rs = concat (br ++ map snd q) ++ pr /\ ct_updates s = map (flush_of g) q /\
    ct_pending s = PendingChunks g (collected pc) (collected pr) /\ ct_messages s = base ++ [m] /\ shown_in bc br m;
}.

Lemma parts_timer t cs rs s : parts cs rs s -> parts cs rs (set_timer t s).
Proof. by destruct 1. Qed.

Lemma parts_flush now cs rs s : parts cs rs s ->
  parts cs rs (flushStreamUpdates now g s) /\
  pd_content (ct_pending (flushStreamUpdates now g s)) = [] /\ pd_reasoning (ct_pending (flushStreamUpdates now g s)) = [].
Proof.
  intros Hp. unfold flushStreamUpdates. rewrite (pt_generation _ _ _ Hp), Nat.eqb_refl. cbn [negb]. cbv zeta.
  pose proof Hp as [p1 p2 p3 (bc & br & q & pc & pr & m & Hcs & Hrs & Hu & Hpd & Hm & Ha)].
  cbn [ct_pending set_timer]. rewrite Hpd. cbn [pd_generation pd_content pd_reasoning]. rewrite Nat.eqb_refl. cbn [negb].
  destruct (negb (truthy_str (collected pr)) && negb (truthy_str (collected pc))) eqn:Et.
  { split; [by apply parts_timer|]. cbn [ct_pending set_timer]. rewrite Hpd. cbn [pd_content pd_reasoning]. apply andb_true_iff in Et as [E1 E2].
    destruct (collected pc); [|done]. by destruct (collected pr). }
  assert (Hqueue : parts cs rs (set_messages (map (flush_of g) q ++ [UFlush g (collected pc) (collected pr)]) (base ++ [m])
    (set_pending (PendingChunks g [] []) (set_timer None s)))).
  { split; try done. exists bc, br, (q ++ [(pc, pr)]), [], [], m. rewrite !map_app, !app_assoc, !(concat_app (_ ++ _)). cbn [map concat fst snd].
    rewrite !app_nil_r. done. }
  unfold onMessageUpdate. cbn [ct_updates set_pending set_timer ct_generation ct_messages]. rewrite Hu, Hm.
  destruct now as [now|]; [destruct q as [|x q]|]; [|by split..].
  cbn [map] in Hcs, Hrs. rewrite app_nil_r in Hcs, Hrs. split; [|done]. split; try done. eexists (bc ++ [pc]), (br ++ [pr]), [], [], [], _.
  cbn [map ct_updates ct_messages set_messages]. rewrite !app_nil_r, !concat_app. cbn [concat]. rewrite !app_nil_r.
  split; [done|]. split; [done|]. split; [done|]. split; [done|]. split.
  - rewrite p3. apply (apply_flush now g pc pr base m). apply Ha.
  - by apply shown_flush.
Qed.

(** The messages after a rendering of a stream in flow, and after the updates [us] too. *)
Lemma parts_run now cs rs s : parts cs rs s -> exists bc br pc pr m now', run_updates now g (ct_updates s) (ct_messages s) = base ++ [m] /\
  shown_in bc br m /\ cs = concat bc ++ pc /\ rs = concat br ++ pr /\ ct_pending s = PendingChunks g (collected pc) (collected pr) /\
  forall us, run_updates now g (ct_updates s ++ us) (ct_messages s) = run_updates now' g us (base ++ [m]).
Proof.
  intros [p1 p2 p3 (bc & br & q & pc & pr & m & Hcs & Hrs & Hu & Hpd & Hm & Ha)]. rewrite Hu, Hm.
  destruct (run_flushes base g q now bc br m Ha) as (m' & now' & H1 & H2 & H3).
  exists (bc ++ map fst q), (br ++ map snd q), pc, pr, m', now'. done.
Qed.

Lemma parts_render now cs rs s : parts cs rs s -> parts cs rs (render now s).
Proof.
  intros Hp. destruct (parts_run now cs rs s Hp) as (bc & br & pc & pr & m & now' & H1 & H2 & Hcs & Hrs & Hpd & _).
  destruct Hp as [p1 p2 p3 _]. split; try done. exists bc, br, [], pc, pr, m. unfold render. cbn [ct_updates ct_messages ct_pending set_rendered set_messages map].
  rewrite p3, H1, !app_nil_r. done.
Qed.

(** A chunk is collected. *)
Definition content_of (u : chunk_type * jsstr) : list jsstr := match u.1 with CContent => [u.2] | CReasoning => [] end.
Definition reasoning_of (u : chunk_type * jsstr) : list jsstr := match u.1 with CReasoning => [u.2] | CContent => [] end.

Lemma merged (p : list jsstr) t : mergePendingStreamChunk (collected p) (VStr t) = Some (collected (p ++ [t])).
Proof. rewrite collected_snoc. unfold mergePendingStreamChunk. destruct (collected p); [|done]. by destruct t. Qed.

Lemma parts_chunk u cs rs s : parts cs rs s ->
  exists s', handleStreamUpdate g u.1 (VStr u.2) s = Some s' /\ parts (cs ++ content_of u) (rs ++ reasoning_of u) s'.
Proof.
  intros [p1 p2 p3 (bc & br & q & pc & pr & m & Hcs & Hrs & Hu & Hpd & Hm & Ha)].
  unfold handleStreamUpdate. rewrite p3, Nat.eqb_refl. cbn [negb]. cbv zeta. rewrite Hpd. cbn [pd_generation pd_content pd_reasoning].
  rewrite Nat.eqb_refl. cbn [negb].
  assert (Hset : forall pc' pr', cs ++ content_of u = concat (bc ++ map fst q) ++ pc' -> rs ++ reasoning_of u = concat (br ++ map snd q) ++ pr' ->
    parts (cs ++ content_of u) (rs ++ reasoning_of u) (scheduleStreamFlush g (set_pending (PendingChunks g (collected pc') (collected pr')) s))).
  { intros pc' pr' H1 H2. unfold scheduleStreamFlush. cbn [ct_generation set_pending ct_timer]. rewrite p3, Nat.eqb_refl. cbn [negb].
    destruct (ct_timer s); split; try done; by exists bc, br, q, pc', pr', m. }
  destruct u as [[] t]; cbn [fst snd content_of reasoning_of] in *; rewrite merged; eexists; (split; [done|]); apply Hset.
  - by rewrite app_nil_r.
  - by rewrite Hrs, <- app_assoc.
  - by rewrite Hcs, <- app_assoc.
  - by rewrite app_nil_r.
Qed.

Lemma parts_chunks us : forall cs rs s, parts cs rs s ->
  exists s', handle_updates g (map (fun u => (u.1, VStr u.2)) us) s = (s', false) /\
    parts (cs ++ flat_map content_of us) (rs ++ flat_map reasoning_of us) s'.
Proof.
  induction us as [|u us IH]; intros cs rs s Hp; cbn [flat_map map handle_updates] in *.
  - rewrite !app_nil_r. by exists s.
  - rewrite !app_assoc in *. destruct (parts_chunk u cs rs s Hp) as (s1 & H1 & Hp1). rewrite H1. by apply IH.
Qed.

(** The events of a stream in flow, with the pieces they bring: messages, timers, renderings,
    and events of other connections. *)
Definition elsewhere (e : event) : Prop :=
  match e with EMessage j _ | EError j _ _ | EReadyState j _ _ => j <> id | _ => False end.

Inductive received : list (option clock * event) -> list jsstr -> list jsstr -> Prop :=
| rc_nil : received [] [] []
| rc_message now data us es cs rs : isStreamDoneMessage data = false ->
    parseStreamMessageUpdates data = Some (map (fun u => (u.1, VStr u.2)) us) -> received es cs rs ->
    received ((now, EMessage id data) :: es) (flat_map content_of us ++ cs) (flat_map reasoning_of us ++ rs)
| rc_timer now es cs rs : received es cs rs -> received ((now, ETimer) :: es) cs rs
| rc_render now nows es cs rs : received es cs rs -> received ((now, ERender nows) :: es) cs rs
| rc_elsewhere now e es cs rs : elsewhere e -> received es cs rs -> received ((now, e) :: es) cs rs.

Lemma other_inactive j c : is_active id c = true -> j <> id -> is_active j c = false.
Proof.
  unfold is_active. destruct (co_sources c !! id); [|done]. intros [[_ Hid%bool_decide_eq_true]%andb_true_iff _]%andb_true_iff Hj.
  destruct (co_sources c !! j); [|done]. rewrite Hid, bool_decide_eq_false_2 by congruence. by rewrite andb_false_r.
Qed.

Lemma parts_timer_event now cs rs s : parts cs rs s -> (forall h, ct_timer s = Some h -> h = g) -> parts cs rs (step now ETimer s).
Proof. intros Hp Ht. cbn [step]. destruct (ct_timer s) as [h|]; [|done]. rewrite (Ht h eq_refl). by apply parts_flush. Qed.

Lemma parts_received es cs rs : received es cs rs -> forall cs0 rs0 s, chat_ok s -> parts cs0 rs0 s ->
  parts (cs0 ++ cs) (rs0 ++ rs) (run es s).
Proof.
  induction 1 as [|now data us es cs rs Hd Hpa Hr IH|now es cs rs Hr IH|now nows es cs rs Hr IH|now e es cs rs He Hr IH];
    intros cs0 rs0 s Hok Hp; cbn [run]; pose proof (fun n e => ok_step n e s Hok) as Hok'.
  - by rewrite !app_nil_r.
  - rewrite !app_assoc. destruct (parts_chunks us cs0 rs0 s Hp) as (s' & Hs' & Hp').
    assert (E : step now (EMessage id data) s = s').
    { cbn [step]. unfold source_message. rewrite (pt_active _ _ _ Hp), Hd, Hpa, (pt_for _ _ _ Hp). cbn [negb]. by rewrite Hs'. }
    rewrite <- E in Hp'. by apply IH.
  - apply IH; [apply Hok'|]. apply parts_timer_event; [done|]. intros h Hh. rewrite (ok_timer s Hok h Hh). apply Hp.
  - apply IH; [apply Hok'|]. by apply parts_render.
  - apply IH; [apply Hok'|]. pose proof (pt_active _ _ _ Hp) as Hact.
    destruct e; try done; cbn [step elsewhere] in *; unfold source_message, source_error, source_state;
      by rewrite (other_inactive _ _ Hact He).
Qed.

(** ** The end of a stream *)

Lemma flush_controller now f s : flushStreamUpdates now g (on_controller f s) = on_controller f (flushStreamUpdates now g s).
Proof.
  unfold flushStreamUpdates, on_controller. cbn [ct_generation set_controller]. destruct (negb _); [done|]. cbv zeta.
  cbn [ct_pending set_timer set_controller]. destruct (negb _); [done|]. destruct (_ && _); [done|].
  unfold onMessageUpdate. cbn [ct_updates set_pending set_timer set_controller]. by destruct now, (ct_updates s).
Qed.

Lemma answered_all cs rs now s : parts cs rs s -> pd_content (ct_pending s) = [] -> pd_reasoning (ct_pending s) = [] ->
  exists bc br m now', run_updates now g (ct_updates s) (ct_messages s) = base ++ [m] /\
    concat bc = cs /\ concat br = rs /\ shown_in bc br m /\
    forall us, run_updates now g (ct_updates s ++ us) (ct_messages s) = run_updates now' g us (base ++ [m]).
Proof.
  intros Hp Hc Hr. destruct (parts_run now cs rs s Hp) as (bc & br & pc & pr & m & now' & H1 & H2 & -> & -> & Hpd & H3).
  rewrite Hpd in Hc, Hr. cbn [pd_content pd_reasoning] in Hc, Hr. exists (bc ++ [pc]), (br ++ [pr]), m, now'.
  split; [done|]. rewrite !concat_app. cbn [concat]. rewrite !app_nil_r. split; [done|]. split; [done|]. split; [|done].
  unfold shown_in. by rewrite !replayed_snoc, Hc, Hr, !absorb_nil.
Qed.

Lemma completed_last now c r m : answered c r m -> apply_update now g (UComplete g) (base ++ [m]) = base ++ [completeAssistantMessage now m].
Proof.
  intros Ha. cbn [apply_update]. rewrite Nat.eqb_refl. cbn [negb]. rewrite update_last by apply Ha.
  assert (Hf : isAssistantMessageFinal m = false).
  { unfold isAssistantMessageFinal, has_status. destruct (an_status _ _ _ Ha) as [-> | ->]; by rewrite !bool_decide_eq_false_2. }
  by rewrite Hf.
Qed.

Lemma closed_not_streaming c : is_active id c = true -> co_streaming (closeActiveSource id (set_sources (alter completed_source id (co_sources c)) c)) = false.
Proof.
  unfold is_active. destruct (co_sources c !! id); [|done]. intros [[_ Hid%bool_decide_eq_true]%andb_true_iff _]%andb_true_iff.
  unfold closeActiveSource. cbn. by rewrite bool_decide_eq_true_2.
Qed.

(** When the stream is done and rendered the message is complete and holds every piece. *)
Lemma parts_done now now1 nows cs rs s : parts cs rs s ->
  let s' := step now1 (ERender nows) (step now (EMessage id STREAM_DONE_MESSAGE) s) in
  exists bc br m t, ct_messages s' = base ++ [completeAssistantMessage t m] /\ ct_rendered s' = ct_messages s' /\
    concat bc = cs /\ concat br = rs /\ shown_in bc br m /\ isGenerating s' = false.
Proof.
  intros Hp. cbv zeta. cbn [step]. unfold source_message. rewrite (pt_active _ _ _ Hp), (pt_for _ _ _ Hp). cbn [negb].
  change (isStreamDoneMessage STREAM_DONE_MESSAGE) with true. cbv iota.
  set (f := fun c => closeActiveSource id (set_sources (alter completed_source id (co_sources c)) c)).
  change (on_controller (closeActiveSource id) (complete_source id s)) with (on_controller f s).
  unfold handleStreamComplete. change (ct_generation (on_controller f s)) with (ct_generation s). rewrite (pt_generation _ _ _ Hp), Nat.eqb_refl.
  cbn [negb]. rewrite flush_controller. destruct (parts_flush now cs rs s Hp) as (Hp2 & Hc2 & Hr2).
  assert (Hst : co_streaming (f (ct_controller (flushStreamUpdates now g s))) = false) by (apply closed_not_streaming, Hp2).
  set (s2 := flushStreamUpdates now g s) in *. clearbody s2. destruct (answered_all cs rs nows s2 Hp2 Hc2 Hr2) as (bc & br & m & now' & H1 & Hbc & Hbr & Ha & H3).
  exists bc, br, m. pose proof (pt_generation _ _ _ Hp2) as Hg2. unfold onMessageUpdate, render, isGenerating.
  cbn [ct_updates ct_messages ct_generation ct_controller ct_requesting ct_rendered setIsRequesting set_messages set_rendered set_controller on_controller].
  destruct now as [t|]; [destruct (ct_updates s2) as [|u us] eqn:Eu|].
  - exists t. cbn [ct_updates ct_messages ct_generation ct_controller ct_requesting ct_rendered setIsRequesting set_messages set_rendered set_controller on_controller run_updates] in *.
    rewrite Hg2, H1, (completed_last _ _ _ _ Ha). by rewrite Hst.
  - exists (now' 0). cbn [ct_updates ct_messages ct_generation ct_controller ct_requesting ct_rendered setIsRequesting set_messages set_rendered set_controller on_controller] in *.
    rewrite Hg2, (H3 [UComplete g]). cbn [run_updates]. rewrite (completed_last _ _ _ _ Ha). by rewrite Hst.
  - exists (now' 0). cbn [ct_updates ct_messages ct_generation ct_controller ct_requesting ct_rendered setIsRequesting set_messages set_rendered set_controller on_controller] in *.
    rewrite Hg2, (H3 [UComplete g]). cbn [run_updates]. rewrite (completed_last _ _ _ _ Ha). by rewrite Hst.
Qed.
End flow.

(** C19: the answer to a streamed request is put together from its pieces, whatever the
    timing of the flush timer, of the renderings and of React's updates, and whatever other
    connections report meanwhile.  When the stream is done, the new message is complete and
    the page no longer generates; its content is the text of the pieces of content, without
    the thoughts in tags, and its reasoning the text of the pieces of reasoning where there
    are no tags, and the thoughts where that text is empty.  The text of pieces is that of
    the batches the timing cut them into: a piece that begins with the text collected, or a
    batch that begins with the text shown, replaces it, and any other is appended.  So
    increments end up whole if no run of them begins with the text of the run before it,
    and of snapshots, each beginning with the one before, the last one stays. *)
Theorem streamed_answer_whole ms es0 id base key vid t es cs rs now now1 nows : let s := run es0 (initial_chat ms) in
  is_active id (ct_controller s) = true -> ct_pending s = PendingChunks (ct_generation s) [] [] -> ct_updates s = [] ->
  ct_messages s = base ++ [createLoadingAssistantMessage key vid t] ->
  received id es cs rs ->
  let s' := step now1 (ERender nows) (step now (EMessage id STREAM_DONE_MESSAGE) (run es s)) in
  exists m bc br, let content := replayed bc in let reasoning := replayed br in
    let thoughts := th_reasoning (parseThinkTags content) in
    ct_messages s' = base ++ [m] /\ ct_rendered s' = ct_messages s' /\ m_status m = Some SComplete /\
    isGenerating s' = false /\ concat bc = cs /\ concat br = rs /\
    getMessageContent m = th_visible (parseThinkTags content) /\
    (includes OPEN_TAG content = false -> reasoning_text m = nonempty reasoning) /\
    (reasoning = [] -> truthy_str thoughts = true -> reasoning_text m = Some thoughts) /\
    (no_restarts cs = true -> content = concat cs) /\ (no_restarts rs = true -> reasoning = concat rs) /\
    (snapshots [] cs = true -> content = List.last cs []) /\ (snapshots [] rs = true -> reasoning = List.last rs []).
Proof.
  cbv zeta. pose proof (ok_run ms es0) as Hok. set (s := run es0 _) in *. clearbody s. intros Hact Hpd Hu Hm Hrc.
  assert (Hfor : source_for id s = ct_generation s).
  { unfold is_active in Hact. unfold source_for. destruct (co_sources _ !! id) as [x|] eqn:Ex; [|done].
    apply andb_true_iff in Hact as [[_ Hid%bool_decide_eq_true]%andb_true_iff _].
    destruct (cn_active _ _ (ok_connected s Hok) id Hid) as (y & Hy & _ & Hf & _). congruence. }
  assert (Hp : parts id (ct_generation s) base [] [] s).
  { split; [done|done|done|]. exists [], [], [], [], [], (createLoadingAssistantMessage key vid t).
    split; [done|]. split; [done|]. split; [done|]. split; [done|]. split; [done|]. split; try done. by left. }
  pose proof (parts_received id _ base es cs rs Hrc [] [] s Hok Hp) as Hp'.
  destruct (parts_done id _ base now now1 nows cs rs _ Hp') as (bc & br & m & u & H1 & H2 & <- & <- & Ha & H3).
  destruct (completed u m) as (C1 & C2 & C3 & _). rewrite (an_content _ _ _ Ha) in C1, C2.
  exists (completeAssistantMessage u m), bc, br. split_and!; try done.
  - intros Hi. rewrite C2, (an_reasoning _ _ _ Ha Hi), (parse_plain _ Hi). by destruct (replayed br).
  - intros He Ht. rewrite C2, (an_thoughts _ _ _ Ha He Ht). cbn [default from_option]. unfold Datatypes.id, nonempty. by rewrite !Ht.
  - intros Hn. apply (replayed_whole (concat bc) bc []); [done|]. by rewrite app_nil_r.
  - intros Hn. apply (replayed_whole (concat br) br []); [done|]. by rewrite app_nil_r.
  - apply replayed_snapshots.
  - apply replayed_snapshots.
Qed.
End chat.

(** ** Concrete streams *)

#[local] Instance plain_texts : ChatTexts := {| chat_t := fun s => s |}.
Definition still : clock := fun _ => n_zero.
Definition stills : nat -> clock := fun _ => still.

Definition plain_config : playground_config :=
  PlaygroundConfig (js "gpt-4o") (js "default") n_zero n_zero n_zero n_zero n_zero None true.
Definition nothing_enabled : parameter_enabled := ParameterEnabled false false false false false false.

(** A question, and the connection for its answer. *)
Definition asked : list (option clock * event) :=
  [(Some still, ESend n_zero (js "u", js "v") (js "a", js "w") plain_config nothing_enabled (js "hello")); (None, ERender stills);
   (None, EHeaders 0 (HeadersReady true))].
Definition question : message := createUserMessage (js "u") (js "v") (js "hello") n_zero.

Definition piece (text : jsstr) : option clock * event :=
  (None, EMessage 0 (jq "{'choices':[{'delta':{'content':'" ++ text ++ jq "'}}]}")).

Definition answer_pieces : list (option clock * event) :=
  [piece (js "<think>why"); (None, ETimer); piece (js "</think>Hel"); (None, ERender stills); piece (js "lo"); (Some still, ETimer)].

Lemma piece_received text es cs rs : parseStreamMessageUpdates (jq "{'choices':[{'delta':{'content':'" ++ text ++ jq "'}}]}") = Some [(CContent, VStr text)] ->
  isStreamDoneMessage (jq "{'choices':[{'delta':{'content':'" ++ text ++ jq "'}}]}") = false ->
  received 0 es cs rs -> received 0 (piece text :: es) (text :: cs) rs.
Proof. intros Hp Hd Hr. exact (rc_message 0 None _ [(CContent, text)] es cs rs Hd Hp Hr). Qed.

Lemma streamed_answer_whole_witness : exists m s',
  s' = step None (ERender stills) (step None (EMessage 0 STREAM_DONE_MESSAGE) (run answer_pieces (run asked (initial_chat [])))) /\
  ct_messages s' = [question; m] /\ m_status m = Some SComplete /\ getMessageContent m = js "Hello" /\ reasoning_text m = Some (js "why").
Proof.
  destruct (streamed_answer_whole [] asked 0 [question] (js "a") (js "w") n_zero answer_pieces
    [js "<think>why"; js "</think>Hel"; js "lo"] [] None None stills)
    as (m & bc & br & H1 & _ & H2 & _ & _ & _ & H3 & _ & H4 & Hc & Hr & _).
  - vm_compute. reflexivity.
  - vm_compute. reflexivity.
  - vm_compute. reflexivity.
  - vm_compute. reflexivity.
  - unfold answer_pieces. apply piece_received; [vm_compute; reflexivity|vm_compute; reflexivity|]. apply rc_timer.
    apply piece_received; [vm_compute; reflexivity|vm_compute; reflexivity|]. apply rc_render.
    apply piece_received; [vm_compute; reflexivity|vm_compute; reflexivity|]. apply rc_timer. apply rc_nil.
  - rewrite Hc in H3, H4 by (vm_compute; reflexivity). rewrite Hr in H4 by (vm_compute; reflexivity).
    eexists m, _. split; [reflexivity|]. split; [exact H1|]. split; [exact H2|]. split; [rewrite H3; vm_compute; reflexivity|].
    rewrite H4; vm_compute; reflexivity.
Defined.

(** The answer shown after a stream of pieces. *)
Definition shown_answer (es : list (option clock * event)) : option (jsstr * option jsstr) :=
  match ct_messages (run (es ++ [(None, EMessage 0 STREAM_DONE_MESSAGE); (None, ERender stills)]) (run asked (initial_chat []))) with
  | [_; m] => Some (getMessageContent m, reasoning_text m)
  | _ => None
  end.

(** Increments that repeat the text collected since the last flush are lost: [1] and [10]
    make [10]. *)
Lemma repeated_piece_lost : shown_answer [piece (js "1"); piece (js "10")] = Some (js "10", None).
Proof. vm_compute. reflexivity. Qed.

(** A closing tag cut in two is shown as reasoning of an answer that has none. *)
Lemma partial_tag_kept :
  shown_answer [piece (js "<think></th"); (None, ETimer); (None, ERender stills); piece (js "ink>Hi")] = Some (js "Hi", Some (js "</th")).
Proof. vm_compute. reflexivity. Qed.

(** Text that was collected when the user stops is lost unless React runs the update at once. *)
Lemma stopped_piece_lost : forall now, shown_answer [piece (js "Hel"); (now, EStop)] =
  Some (match now with Some _ => js "Hel" | None => [] end, None).
Proof. intros [now|]; vm_compute; reflexivity. Qed.
