(* ===== verification/DashboardFlow.v ===== *)
(** * The flow of the dashboard

    [web/src/features/dashboard/lib/flow.ts]: the usage records of the server become
    paths through the stages a role sees, the paths the nodes and links of a Sankey
    diagram, with display limits, masked labels, highlights, shares and colours.

    A [Map] is the list of its entries in insertion order; the objects the code updates
    in place are reached from one map only, so an update is a new entry at the same
    place.  [localeCompare] is [TaskExpr.Collation], [Intl.NumberFormat] is
    [Currency.NumberFormat], the colour scheme of the chart library [ChartScheme]. *)

From S2P Require Import Prelude JsString JsNumber JsValue JsArray TaskExpr Currency.

Inductive FlowNodeKind : Type := KUser | KNode | KToken | KGroup | KModel | KChannel.
Inductive FlowMetric : Type := MQuota | MTokens | MRequests.
Inductive FlowRole : Type := RUser | RAdmin | RRoot.
Inductive FlowOverflowMode : Type := OAggregate | OHide.

#[export] Instance FlowNodeKind_eq_dec : EqDecision FlowNodeKind.
Proof. solve_decision. Defined.

Definition kind_eqb (a b : FlowNodeKind) : bool := bool_decide (a = b).

Lemma kind_eqb_eq a b : kind_eqb a b = true <-> a = b.
Proof. apply bool_decide_eq_true. Qed.

(** The text of a kind. *)
Definition kind_text (k : FlowNodeKind) : jsstr :=
  match k with
  | KUser => js "user"
  | KNode => js "node"
  | KToken => js "token"
  | KGroup => js "group"
  | KModel => js "model"
  | KChannel => js "channel"
  end.

Record FlowQuotaDataItem := FlowRow {
  q_user_id : option num;
  q_username : option jsstr;
  q_node_name : option jsstr;
  q_use_group : option jsstr;
  q_token_id : option num;
  q_token_name : option jsstr;
  q_channel_id : option num;
  q_channel_name : option jsstr;
  q_model_name : option jsstr;
  q_token_used : option num;
  q_count : option num;
  q_quota : option num;
}.

Record FlowMetrics := Metrics { quota : num; tokens : num; requests : num }.

Record FlowPathNode := PathNode { id : jsstr; label : jsstr; kind : FlowNodeKind }.

Record PreparedFlowPath := Prepared { path : list FlowPathNode; metrics : FlowMetrics }.

Record FlowNodeFilter := NodeFilter { f_kind : FlowNodeKind; f_id : jsstr }.
Record FlowLinkSelection := LinkSelection { s_source : jsstr; s_target : jsstr }.

Record DashboardFlowNode := FlowNode {
  fn_id : jsstr;
  fn_label : jsstr;
  fn_kind : FlowNodeKind;
  fn_value : num;
  fn_requests : num;
  fn_quota : num;
  fn_tokens : num;
  fn_color : jsstr;
  fn_colorKey : jsstr;
  fn_highlighted : option bool;
  fn_dimmed : option bool;
}.

Record DashboardFlowLink := FlowLink {
  fl_source : jsstr;
  fl_target : jsstr;
  fl_value : num;
  fl_requests : num;
  fl_quota : num;
  fl_tokens : num;
  fl_sourceLabel : jsstr;
  fl_targetLabel : jsstr;
  fl_color : jsstr;
  fl_linkColor : jsstr;
  fl_linkAlpha : num;
  fl_hoverColor : jsstr;
  fl_colorKey : jsstr;
  fl_share : num;
  fl_highlighted : option bool;
  fl_dimmed : option bool;
}.

Record DashboardFlowGraph := FlowGraph {
  g_nodes : list DashboardFlowNode;
  g_links : list DashboardFlowLink;
}.

(** ** Constants *)

Definition DEFAULT_FLOW_CHART_COLOR : jsstr := js "#1664FF".

Definition FLOW_NODE_KINDS : list FlowNodeKind := [KUser; KNode; KToken; KGroup; KModel; KChannel].

Definition OTHER_FLOW_NODE_IDS (k : FlowNodeKind) : jsstr :=
  match k with
  | KUser => js "user:__other__"
  | KNode => js "node:__other__"
  | KToken => js "token:__other__"
  | KGroup => js "group:__other__"
  | KModel => js "model:__other__"
  | KChannel => js "channel:__other__"
  end.

Definition DEFAULT_OTHER_FLOW_NODE_LABELS (k : FlowNodeKind) : jsstr :=
  match k with
  | KUser => js "Other users"
  | KNode => js "Other nodes"
  | KToken => js "Other tokens"
  | KGroup => js "Other groups"
  | KModel => js "Other models"
  | KChannel => js "Other channels"
  end.

Definition SENSITIVE_FLOW_KINDS : list FlowNodeKind := [KUser; KNode; KToken; KGroup; KChannel].

Definition OTHER_FLOW_NODE_ID_SET : list jsstr := map OTHER_FLOW_NODE_IDS FLOW_NODE_KINDS.

(** ** Rows and nodes *)

Definition numberValue (value : jsval) : num :=
  let n := number_of_value value in if is_finite n then n else n_zero.

(** A field of a row that may be absent. *)
Definition number_field (o : option num) : num :=
  numberValue (match o with Some x => VNum x | None => VUndef end).

(** [text || fallback] *)
Definition or_text (o : option jsstr) (fallback : jsstr) : jsstr :=
  match o with
  | Some s => if truthy_str s then s else fallback
  | None => fallback
  end.

Definition isFlowNodeKind (value : jsval) : option FlowNodeKind :=
  match value with
  | VStr s => List.find (fun k => str_eqb (kind_text k) s) FLOW_NODE_KINDS
  | _ => None
  end.

Definition rowMetrics (row : FlowQuotaDataItem) : FlowMetrics :=
  Metrics (number_field (q_quota row)) (number_field (q_token_used row)) (number_field (q_count row)).

Definition metricValue (m : FlowMetrics) (metric : FlowMetric) : num :=
  match metric with MRequests => requests m | MTokens => tokens m | MQuota => quota m end.

Definition userNode (row : FlowQuotaDataItem) : FlowPathNode :=
  let userID := number_field (q_user_id row) in
  PathNode
    (js "user:" ++ (if n_gtb userID n_zero then string_of_number userID
                    else or_text (q_username row) (js "unknown")))
    (or_text (q_username row)
       (if n_gtb userID n_zero then js "user-" ++ string_of_number userID else js "Unknown User"))
    KUser.

Definition nodeNameNode (row : FlowQuotaDataItem) : FlowPathNode :=
  let nodeName := or_text (q_node_name row) (js "default-node") in
  PathNode (js "node:" ++ nodeName) nodeName KNode.

(** [FlowPathContext]: the label of a deleted token, when the caller gives one. *)
Definition FlowPathContext : Type := option (num -> jsstr).

Definition deletedTokenLabel (tokenID : num) (ctx : FlowPathContext) : jsstr :=
  if n_leb tokenID n_zero then js "Unknown Token"
  else match ctx with Some f => f tokenID | None => js "token-" ++ string_of_number tokenID end.

Definition tokenNode (row : FlowQuotaDataItem) (ctx : FlowPathContext) : FlowPathNode :=
  let tokenID := number_field (q_token_id row) in
  PathNode
    (js "token:" ++ (if n_gtb tokenID n_zero then string_of_number tokenID
                     else or_text (q_token_name row) (js "unknown")))
    (or_text (q_token_name row) (deletedTokenLabel tokenID ctx))
    KToken.

Definition groupNode (row : FlowQuotaDataItem) : FlowPathNode :=
  let useGroup := or_text (q_use_group row) (js "unknown") in
  PathNode (js "group:" ++ useGroup) useGroup KGroup.

Definition modelNode (row : FlowQuotaDataItem) : FlowPathNode :=
  PathNode (js "model:" ++ or_text (q_model_name row) (js "unknown"))
    (or_text (q_model_name row) (js "Unknown Model")) KModel.

Definition channelNode (row : FlowQuotaDataItem) : FlowPathNode :=
  let channelID := number_field (q_channel_id row) in
  PathNode
    (js "channel:" ++ (if n_gtb channelID n_zero then string_of_number channelID
                       else or_text (q_channel_name row) (js "unknown")))
    (or_text (q_channel_name row)
       (if n_gtb channelID n_zero then js "channel-" ++ string_of_number channelID else js "Unknown"))
    KChannel.

Definition NODE_BUILDERS (k : FlowNodeKind) (row : FlowQuotaDataItem) (ctx : FlowPathContext)
  : FlowPathNode :=
  match k with
  | KUser => userNode row
  | KNode => nodeNameNode row
  | KToken => tokenNode row ctx
  | KGroup => groupNode row
  | KModel => modelNode row
  | KChannel => channelNode row
  end.

(** ** Stages *)

Definition getFlowStages (role : FlowRole) : list FlowNodeKind :=
  match role with
  | RRoot => [KUser; KNode; KToken; KGroup; KModel; KChannel]
  | RAdmin => [KUser; KGroup; KModel; KChannel]
  | RUser => [KToken; KGroup; KModel]
  end.

Definition MIN_FLOW_STAGES : nat := 2.

Definition kind_mem (k : FlowNodeKind) (l : list FlowNodeKind) : bool := existsb (kind_eqb k) l.

Definition resolveVisibleStages (role : FlowRole) (visibleStages : option (list FlowNodeKind))
  : list FlowNodeKind :=
  let stages := getFlowStages role in
  match visibleStages with
  | None => stages
  | Some visible =>
      let filtered := List.filter (fun stage => kind_mem stage visible) stages in
      if Nat.leb MIN_FLOW_STAGES (length filtered) then filtered else stages
  end.

Definition flowPathForStages (row : FlowQuotaDataItem) (stages : list FlowNodeKind)
  (ctx : FlowPathContext) : list FlowPathNode :=
  map (fun stage => NODE_BUILDERS stage row ctx) stages.

(** The pairs [path\[i\]], [path\[i + 1\]]. *)
Definition path_steps (p : list FlowPathNode) : list (FlowPathNode * FlowPathNode) := zip p (tail p).

(** ** Colours *)

(** [dataScheme] of the chart library: the longest domain of a scheme, when it has one, and
    its colours. *)
Class ChartScheme := { dataScheme : list (option num * list jsval) }.

Definition getDashboardChartColors {S : ChartScheme} (domainLength : nat) : list jsstr :=
  let fits (item : option num * list jsval) :=
    match item.1 with
    | None => true
    | Some m => n_eqb m n_zero || is_nan m || n_leb (n_of_nat domainLength) m
    end in
  let scheme :=
    match List.find fits dataScheme with
    | Some item => Some item
    | None => list.last dataScheme
    end in
  let colors := match scheme with Some item => item.2 | None => [] end in
  omap (fun c => match c with VStr s => Some s | _ => None end) colors.

Definition nonempty_palette (palette : option (list jsstr)) : option (list jsstr) :=
  match palette with Some (c :: l) => Some (c :: l) | _ => None end.

Definition colorAt {S : ChartScheme} (index : nat) (palette : option (list jsstr)) : jsstr :=
  let colors := match nonempty_palette palette with
                | Some p => p
                | None => getDashboardChartColors (index + 1)
                end in
  default DEFAULT_FLOW_CHART_COLOR (colors !! (index mod length colors)%nat).

Definition colorPalette {S : ChartScheme} (colorCount : nat) (palette : option (list jsstr))
  : list jsstr :=
  match nonempty_palette palette with
  | Some p => p
  | None =>
      match getDashboardChartColors colorCount with
      | [] => [DEFAULT_FLOW_CHART_COLOR]
      | colors => colors
      end
  end.

(** The text of a decimal fraction of the source. *)
Definition n_dec (s : string) : num := number_of_string (js s).

Definition alphaColor (color : jsstr) (alpha : num) : jsstr * num :=
  let normalized := trim color in
  let hex := if starts_with (js "#") normalized then drop 1 normalized else normalized in
  if negb (Nat.eqb (length hex) 6 && forallb is_hex hex) then (normalized, alpha)
  else
    let value := Z.of_N (N_of_hex hex) in
    let red := Z.land (Z.shiftr value 16) 255 in
    let green := Z.land (Z.shiftr value 8) 255 in
    let blue := Z.land value 255 in
    (js "rgba(" ++ str_of_Z red ++ js ", " ++ str_of_Z green ++ js ", " ++ str_of_Z blue
       ++ js ", " ++ to_fixed 2 alpha ++ js ")", n_of_Z 1).

(** [\[...new Set(keys)\]] *)
Definition unique_keys (keys : list jsstr) : list jsstr :=
  fold_left (fun acc k => set_add str_eqb k acc) keys [].

Definition stableColorMap {S : ChartScheme} (keys : list jsstr) (palette : option (list jsstr))
  : list (jsstr * jsstr) :=
  let uniqueKeys := unique_keys keys in
  let colors := colorPalette (length uniqueKeys) palette in
  fold_left (fun m p => assoc_set str_eqb p.2 (colorAt p.1 (Some colors)) m)
    (imap (fun index key => (index, key)) uniqueKeys) [].

(** ** Filters *)

Definition filterRows (rows : list FlowQuotaDataItem) (selectedUsers : option (list jsstr))
  : list FlowQuotaDataItem :=
  match default [] selectedUsers with
  | [] => rows
  | selected => List.filter (fun row => str_mem (id (userNode row)) selected) rows
  end.

Definition nodeFilterKey (filter : FlowNodeFilter) : jsstr :=
  kind_text (f_kind filter) ++ [0%N] ++ f_id filter.

Definition normalizeSelectedNodeFilters (selectedNodes : option (list FlowNodeFilter))
  (stages : list FlowNodeKind) : list (FlowNodeKind * list jsstr) :=
  fold_left (fun filters filter =>
      if negb (kind_mem (f_kind filter) stages) then filters
      else
        let selected := default [] (assoc_get kind_eqb (f_kind filter) filters) in
        assoc_set kind_eqb (f_kind filter) (set_add str_eqb (f_id filter) selected) filters)
    (default [] selectedNodes) [].

(** [pathNodesByKind] *)
Definition path_ids_by_kind (p : list FlowPathNode) : list (FlowNodeKind * list jsstr) :=
  fold_left (fun m node =>
      let ids := default [] (assoc_get kind_eqb (kind node) m) in
      assoc_set kind_eqb (kind node) (set_add str_eqb (id node) ids) m) p [].

Definition pathMatchesNodeFilters (p : list FlowPathNode)
  (filters : list (FlowNodeKind * list jsstr)) : bool :=
  let pathNodesByKind := path_ids_by_kind p in
  forallb (fun entry =>
      match assoc_get kind_eqb entry.1 pathNodesByKind with
      | None => false
      | Some pathIds => existsb (fun selected => str_mem selected pathIds) entry.2
      end) filters.

Definition filterRowsByNodes (rows : list FlowQuotaDataItem)
  (selectedNodes : option (list FlowNodeFilter)) (stages : list FlowNodeKind)
  (ctx : FlowPathContext) : list FlowQuotaDataItem :=
  match normalizeSelectedNodeFilters selectedNodes stages with
  | [] => rows
  | filters =>
      List.filter (fun row => pathMatchesNodeFilters (flowPathForStages row stages ctx) filters) rows
  end.

Definition selectedNodeFiltersExceptKind (selectedNodes : option (list FlowNodeFilter))
  (k : FlowNodeKind) : option (list FlowNodeFilter) :=
  match List.filter (fun filter => negb (kind_eqb (f_kind filter) k)) (default [] selectedNodes) with
  | [] => None
  | filtered => Some filtered
  end.

(** ** Nodes and links *)

Definition addNode (m : list (jsstr * DashboardFlowNode)) (pathNode : FlowPathNode)
  (ms : FlowMetrics) (metric : FlowMetric) (color colorKey : jsstr)
  : list (jsstr * DashboardFlowNode) :=
  let previous :=
    default (FlowNode (id pathNode) (label pathNode) (kind pathNode) n_zero n_zero n_zero n_zero
               color colorKey None None)
      (assoc_get str_eqb (id pathNode) m) in
  assoc_set str_eqb (id pathNode)
    (FlowNode (fn_id previous) (fn_label previous) (fn_kind previous)
       (n_add (fn_value previous) (metricValue ms metric))
       (n_add (fn_requests previous) (requests ms))
       (n_add (fn_quota previous) (quota ms))
       (n_add (fn_tokens previous) (tokens ms))
       (fn_color previous) (fn_colorKey previous)
       (fn_highlighted previous) (fn_dimmed previous)) m.

Definition pathLinkKey (source target : FlowPathNode) : jsstr := id source ++ [0%N] ++ id target.

Definition addLink (m : list (jsstr * DashboardFlowLink)) (source target : FlowPathNode)
  (ms : FlowMetrics) (metric : FlowMetric) (color colorKey : jsstr)
  : list (jsstr * DashboardFlowLink) :=
  let key := id source ++ [0%N] ++ id target in
  let previous :=
    default (FlowLink (id source) (id target) n_zero n_zero n_zero n_zero (label source)
               (label target) color color (n_of_Z 1) color colorKey n_zero None None)
      (assoc_get str_eqb key m) in
  assoc_set str_eqb key
    (FlowLink (fl_source previous) (fl_target previous)
       (n_add (fl_value previous) (metricValue ms metric))
       (n_add (fl_requests previous) (requests ms))
       (n_add (fl_quota previous) (quota ms))
       (n_add (fl_tokens previous) (tokens ms))
       (fl_sourceLabel previous) (fl_targetLabel previous) (fl_color previous)
       (fl_linkColor previous) (fl_linkAlpha previous) (fl_hoverColor previous)
       (fl_colorKey previous) (fl_share previous)
       (fl_highlighted previous) (fl_dimmed previous)) m.

(** [d || rest > 0] of a comparator: a difference that is 0 or not a number leaves the
    decision to the rest. *)
Definition or_diff (d : num) (rest : bool) : bool :=
  if n_eqb d n_zero || is_nan d then rest else n_gtb d n_zero.

Definition linkStableKey (link : DashboardFlowLink) : jsstr :=
  fl_source link ++ [0%N] ++ fl_target link.

Section sorted.
Context {Col : Collation}.

(** [a.localeCompare(b) || rest > 0] *)
Definition or_locale (a b : jsstr) (rest : bool) : bool :=
  if locale_leb a b && locale_leb b a then rest else negb (locale_leb a b).

Definition by_link_value (a b : DashboardFlowLink) : bool :=
  or_diff (n_sub (fl_value b) (fl_value a)) (or_locale (linkStableKey a) (linkStableKey b) false).

Definition set_display (link : DashboardFlowLink) (color : jsstr * num) : DashboardFlowLink :=
  FlowLink (fl_source link) (fl_target link) (fl_value link) (fl_requests link) (fl_quota link)
    (fl_tokens link) (fl_sourceLabel link) (fl_targetLabel link) (fl_color link)
    color.1 color.2 (fl_color link) (fl_colorKey link) (fl_share link)
    (fl_highlighted link) (fl_dimmed link).

(** The opacity of the link at an index among the [n] links of its source. *)
Definition link_alpha (n index : nat) : num :=
  if Nat.eqb n 1 then n_dec "0.34"
  else
    let denominator := n_of_nat (Nat.max (n - 1) 1) in
    n_add (n_dec "0.24") (n_mul (n_div (n_of_nat index) denominator) (n_dec "0.2")).

(** The links are shared objects: the positions of those with one source are kept, and the
    links at these positions updated. *)
Definition assignLinkDisplayColors (links : list DashboardFlowLink) : list DashboardFlowLink :=
  let linksBySource :=
    fold_left (fun m entry =>
        let sourceLinks := default [] (assoc_get str_eqb (fl_source entry.2) m) in
        assoc_set str_eqb (fl_source entry.2) (sourceLinks ++ [entry]) m)
      (imap (fun i link => (i, link)) links) [] in
  fold_left (fun acc group =>
      let sortedLinks := array_sort (fun a b => by_link_value a.2 b.2) group.2 in
      fold_left (fun acc entry =>
          alter (fun link => set_display link
                   (alphaColor (fl_color link) (link_alpha (length sortedLinks) entry.1))) entry.2 acc)
        (imap (fun index entry => (index, entry.1)) sortedLinks) acc)
    linksBySource links.

Definition byValueThenLabel (a b : DashboardFlowNode) : bool :=
  or_diff (n_sub (fn_value b) (fn_value a)) (or_locale (fn_label a) (fn_label b) false).

(** [Number(flag)] of a flag that may be absent. *)
Definition number_of_flag (o : option bool) : num :=
  number_of_value (match o with Some b => VBool b | None => VUndef end).

Definition byLinkDrawPriority (a b : DashboardFlowLink) : bool :=
  or_diff (n_sub (number_of_flag (fl_dimmed a)) (number_of_flag (fl_dimmed b)))
    (or_diff (n_sub (number_of_flag (fl_highlighted b)) (number_of_flag (fl_highlighted a)))
       (or_diff (n_sub (fl_value b) (fl_value a))
          (or_locale (linkStableKey a) (linkStableKey b) false))).

(** [FlowSummary] has the fields of [FlowMetrics]. *)
Definition buildSummary (rows : list FlowQuotaDataItem) : FlowMetrics :=
  fold_left (fun summary row =>
      let m := rowMetrics row in
      Metrics (n_add (quota summary) (quota m)) (n_add (tokens summary) (tokens m))
        (n_add (requests summary) (requests m)))
    rows (Metrics n_zero n_zero n_zero).

(** ** The nodes shown *)

Definition normalizeTopNodeLimit (limit : option num) : option num :=
  match limit with
  | None => None
  | Some l =>
      let parsed := n_floor l in
      if is_finite parsed && n_gtb parsed n_zero then Some parsed else None
  end.

Definition otherFlowNode (k : FlowNodeKind) (labeler : option (FlowNodeKind -> jsstr))
  : FlowPathNode :=
  PathNode (OTHER_FLOW_NODE_IDS k)
    (match labeler with Some f => f k | None => DEFAULT_OTHER_FLOW_NODE_LABELS k end) k.

Record FlowNodeRank := NodeRank { r_node : FlowPathNode; r_value : num }.

(** [current.value += value] in the entry of a node. *)
Definition add_rank (stageTotals : list (jsstr * FlowNodeRank)) (node : FlowPathNode) (value : num)
  : list (jsstr * FlowNodeRank) :=
  let current := default (NodeRank node n_zero) (assoc_get str_eqb (id node) stageTotals) in
  assoc_set str_eqb (id node) (NodeRank (r_node current) (n_add (r_value current) value)) stageTotals.

Definition rank_after (a b : FlowNodeRank) : bool :=
  or_diff (n_sub (r_value b) (r_value a))
    (or_locale (label (r_node a)) (label (r_node b))
       (or_locale (id (r_node a)) (id (r_node b)) false)).

(** [slice(0, limit)] of a limit that is a positive integer. *)
Definition slice_to {A} (limit : num) (l : list A) : list A :=
  match int_value limit with
  | Some z => take (Z.to_nat (Z.min z (Z.of_nat (length l)))) l
  | None => []
  end.

(** The totals of the nodes of every stage. *)
Definition stage_totals (rows : list FlowQuotaDataItem) (metric : FlowMetric)
  (stages : list FlowNodeKind) (ctx : FlowPathContext)
  : list (FlowNodeKind * list (jsstr * FlowNodeRank)) :=
  let empty := fold_left (fun m stage => assoc_set kind_eqb stage [] m) stages [] in
  fold_left (fun totals row =>
      let value := metricValue (rowMetrics row) metric in
      fold_left (fun totals node =>
          match assoc_get kind_eqb (kind node) totals with
          | None => totals
          | Some stageTotals =>
              assoc_set kind_eqb (kind node) (add_rank stageTotals node value) totals
          end) (flowPathForStages row stages ctx) totals)
    rows empty.

Definition buildTopNodeSets (rows : list FlowQuotaDataItem) (metric : FlowMetric)
  (stages : list FlowNodeKind) (limit : option num) (ctx : FlowPathContext)
  : option (list (FlowNodeKind * list jsstr)) :=
  match limit with
  | None => None
  | Some limit =>
      if n_eqb limit n_zero || is_nan limit then None
      else
        Some (fold_left (fun topSets entry =>
            let topIds := map (fun rank => id (r_node rank))
                            (slice_to limit (array_sort rank_after (map snd entry.2))) in
            assoc_set kind_eqb entry.1 (unique_keys topIds) topSets)
          (stage_totals rows metric stages ctx) [])
  end.

Definition isTopFlowNode (node : FlowPathNode)
  (topNodeSets : option (list (FlowNodeKind * list jsstr))) : bool :=
  match topNodeSets with
  | None => true
  | Some sets =>
      match assoc_get kind_eqb (kind node) sets with
      | None => true
      | Some topNodes => str_mem (id node) topNodes
      end
  end.

Definition applyTopNodeLimit (p : list FlowPathNode)
  (topNodeSets : option (list (FlowNodeKind * list jsstr))) (mode : FlowOverflowMode)
  (labeler : option (FlowNodeKind -> jsstr)) : option (list FlowPathNode) :=
  match topNodeSets with
  | None => Some p
  | Some _ =>
      let containsOverflowNode := existsb (fun node => negb (isTopFlowNode node topNodeSets)) p in
      if negb containsOverflowNode then Some p
      else match mode with
           | OHide => None
           | OAggregate =>
               Some (map (fun node => if isTopFlowNode node topNodeSets then node
                                      else otherFlowNode (kind node) labeler) p)
           end
  end.

(** ** Highlights *)

Definition pathContainsFlowNode (p : list FlowPathNode) (filter : FlowNodeFilter) : bool :=
  existsb (fun node => kind_eqb (kind node) (f_kind filter) && str_eqb (id node) (f_id filter)) p.

Definition pathContainsFlowLink (p : list FlowPathNode) (link : FlowLinkSelection) : bool :=
  existsb (fun step => str_eqb (id step.1) (s_source link) && str_eqb (id step.2) (s_target link))
    (path_steps p).

(** [matchesPath] *)
Definition matches_path (activeNode : option FlowNodeFilter) (activeLink : option FlowLinkSelection)
  (p : list FlowPathNode) : bool :=
  match activeLink with
  | Some link => pathContainsFlowLink p link
  | None => match activeNode with Some node => pathContainsFlowNode p node | None => false end
  end.

(** [FlowHighlightSets]: the ids of the nodes and the keys of the links. *)
Definition buildFlowHighlightSets (preparedPaths : list PreparedFlowPath)
  (activeNode : option FlowNodeFilter) (activeLink : option FlowLinkSelection)
  (stages : list FlowNodeKind) : option (list jsstr * list jsstr) :=
  let nodeActive := match activeNode with Some n => kind_mem (f_kind n) stages | None => false end in
  if negb nodeActive && negb (bool_decide (is_Some activeLink)) then None
  else
    let sets :=
      fold_left (fun acc prepared =>
          if negb (matches_path activeNode activeLink (path prepared)) then acc
          else
            (fold_left (fun ns node => set_add str_eqb (id node) ns) (path prepared) acc.1,
             fold_left (fun ls step => set_add str_eqb (pathLinkKey step.1 step.2) ls)
               (path_steps (path prepared)) acc.2))
        preparedPaths ([], []) in
    match sets.1 with [] => None | _ => Some sets end.

Definition flag_node (highlighted : bool) (node : DashboardFlowNode) : DashboardFlowNode :=
  FlowNode (fn_id node) (fn_label node) (fn_kind node) (fn_value node) (fn_requests node)
    (fn_quota node) (fn_tokens node) (fn_color node) (fn_colorKey node)
    (Some highlighted) (Some (negb highlighted)).

Definition flag_link (highlighted : bool) (link : DashboardFlowLink) : DashboardFlowLink :=
  FlowLink (fl_source link) (fl_target link) (fl_value link) (fl_requests link) (fl_quota link)
    (fl_tokens link) (fl_sourceLabel link) (fl_targetLabel link) (fl_color link) (fl_linkColor link)
    (fl_linkAlpha link) (fl_hoverColor link) (fl_colorKey link) (fl_share link)
    (Some highlighted) (Some (negb highlighted)).

Definition applyFlowHighlights (nodes : list DashboardFlowNode) (links : list DashboardFlowLink)
  (highlightSets : option (list jsstr * list jsstr))
  : list DashboardFlowNode * list DashboardFlowLink :=
  match highlightSets with
  | None => (nodes, links)
  | Some sets =>
      (map (fun node => flag_node (str_mem (fn_id node) sets.1) node) nodes,
       map (fun link => flag_link (str_mem (linkStableKey link) sets.2) link) links)
  end.

(** ** Masking *)

(** Four bullets. *)
Definition FLOW_MASK_TEXT : jsstr := [8226; 8226; 8226; 8226]%N.

Definition maskFlowLabel (l : jsstr) : jsstr := if Nat.eqb (length l) 0 then l else FLOW_MASK_TEXT.

(** The masked label of a node that has to be masked. *)
Definition masked_label (node : DashboardFlowNode) : option jsstr :=
  if negb (kind_mem (fn_kind node) SENSITIVE_FLOW_KINDS) then None
  else if str_mem (fn_id node) OTHER_FLOW_NODE_ID_SET then None
  else Some (maskFlowLabel (fn_label node)).

Definition relabel_node (node : DashboardFlowNode) (l : jsstr) : DashboardFlowNode :=
  FlowNode (fn_id node) l (fn_kind node) (fn_value node) (fn_requests node)
    (fn_quota node) (fn_tokens node) (fn_color node) (fn_colorKey node)
    (fn_highlighted node) (fn_dimmed node).

Definition relabel_link (link : DashboardFlowLink) (source target : jsstr) : DashboardFlowLink :=
  FlowLink (fl_source link) (fl_target link) (fl_value link) (fl_requests link) (fl_quota link)
    (fl_tokens link) source target (fl_color link) (fl_linkColor link)
    (fl_linkAlpha link) (fl_hoverColor link) (fl_colorKey link) (fl_share link)
    (fl_highlighted link) (fl_dimmed link).

Definition maskFlowGraphLabels (nodes : list DashboardFlowNode) (links : list DashboardFlowLink)
  : list DashboardFlowNode * list DashboardFlowLink :=
  let maskedById :=
    fold_left (fun m node => match masked_label node with
                             | None => m
                             | Some l => assoc_set str_eqb (fn_id node) l m
                             end) nodes [] in
  (map (fun node => match masked_label node with Some l => relabel_node node l | None => node end) nodes,
   match maskedById with
   | [] => links
   | _ =>
       map (fun link =>
           relabel_link link
             (default (fl_sourceLabel link) (assoc_get str_eqb (fl_source link) maskedById))
             (default (fl_targetLabel link) (assoc_get str_eqb (fl_target link) maskedById))) links
   end).

(** ** The graph *)

Record FlowGraphOptions := GraphOptions {
  go_topNodeLimit : option num;
  go_overflowMode : option FlowOverflowMode;
  go_otherNodeLabel : option (FlowNodeKind -> jsstr);
  go_activeNode : option FlowNodeFilter;
  go_activeLink : option FlowLinkSelection;
  go_maskSensitive : bool;
}.

(** [preparedPaths] *)
Definition prepare_paths (rows : list FlowQuotaDataItem) (metric : FlowMetric)
  (stages : list FlowNodeKind) (ctx : FlowPathContext) (options : FlowGraphOptions)
  : list PreparedFlowPath :=
  let topNodeSets :=
    buildTopNodeSets rows metric stages (normalizeTopNodeLimit (go_topNodeLimit options)) ctx in
  let overflowMode := default OAggregate (go_overflowMode options) in
  omap (fun row =>
      let! p := applyTopNodeLimit (flowPathForStages row stages ctx) topNodeSets overflowMode
                  (go_otherNodeLabel options) in
      Some (Prepared p (rowMetrics row))) rows.

(** [prepared.path\[0\]?.id] of every path that has one that is not empty. *)
Definition first_ids (preparedPaths : list PreparedFlowPath) : list jsstr :=
  List.filter truthy_str (omap (fun prepared => id <$> head (path prepared)) preparedPaths).

Context {Scheme : ChartScheme}.

(** One turn of the loop that fills [nodes] and [links]. *)
Definition add_path (metric : FlowMetric) (color_of : jsstr -> jsstr)
  (acc : list (jsstr * DashboardFlowNode) * list (jsstr * DashboardFlowLink))
  (prepared : PreparedFlowPath) :=
  match path prepared with
  | [] => acc
  | root :: _ =>
      let color := color_of (id root) in
      (fold_left (fun m node => addNode m node (metrics prepared) metric color (id root))
         (path prepared) acc.1,
       fold_left (fun m step => addLink m step.1 step.2 (metrics prepared) metric color (id root))
         (path_steps (path prepared)) acc.2)
  end.

Definition collect (preparedPaths : list PreparedFlowPath) (metric : FlowMetric)
  (palette : option (list jsstr)) :=
  let colors := stableColorMap (array_sort (fun a b => or_locale a b false) (first_ids preparedPaths))
                  palette in
  fold_left (add_path metric (fun root => default (colorAt 0 palette) (assoc_get str_eqb root colors)))
    preparedPaths ([], []).

Definition set_share (total : num) (link : DashboardFlowLink) : DashboardFlowLink :=
  FlowLink (fl_source link) (fl_target link) (fl_value link) (fl_requests link) (fl_quota link)
    (fl_tokens link) (fl_sourceLabel link) (fl_targetLabel link) (fl_color link) (fl_linkColor link)
    (fl_linkAlpha link) (fl_hoverColor link) (fl_colorKey link)
    (if n_gtb total n_zero then n_div (fl_value link) total else n_zero)
    (fl_highlighted link) (fl_dimmed link).

(** The sum of the links that leave the first stage. *)
Definition first_step_total (preparedPaths : list PreparedFlowPath) (flowLinks : list DashboardFlowLink)
  : num :=
  fold_left (fun sum link => n_add sum (fl_value link))
    (List.filter (fun link => str_mem (fl_source link) (unique_keys (first_ids preparedPaths))) flowLinks)
    n_zero.

Definition by_link_ends (a b : DashboardFlowLink) : bool :=
  or_locale (fl_source a) (fl_source b) (or_locale (fl_target a) (fl_target b) false).

Definition buildFlowGraph (rows : list FlowQuotaDataItem) (metric : FlowMetric) (role : FlowRole)
  (palette : option (list jsstr)) (visibleStages : option (list FlowNodeKind))
  (ctx : FlowPathContext) (options : FlowGraphOptions) : DashboardFlowGraph :=
  let stages := resolveVisibleStages role visibleStages in
  let preparedPaths := prepare_paths rows metric stages ctx options in
  let (nodes, links) := collect preparedPaths metric palette in
  let (nodes, links) :=
    if go_maskSensitive options then maskFlowGraphLabels (map snd nodes) (map snd links)
    else (map snd nodes, map snd links) in
  let (nodes, links) :=
    applyFlowHighlights nodes links
      (buildFlowHighlightSets preparedPaths (go_activeNode options) (go_activeLink options) stages) in
  let flowLinks := array_sort by_link_ends links in
  let total := first_step_total preparedPaths flowLinks in
  FlowGraph (array_sort byValueThenLabel nodes)
    (assignLinkDisplayColors (map (set_share total) flowLinks)).

(** ** Filter options *)

Context {Fmt : NumberFormat}.

Definition formatNumber (value : num) : jsstr := number_format None (IntlOptions None false None 0) value.

Record FlowUserFilterOption := UserOption {
  uo_value : jsstr;
  uo_label : jsstr;
  uo_valueLabel : jsstr;
  uo_valueRaw : num;
  uo_color : jsstr;
}.

Record FlowNodeFilterOption := NodeOption {
  no_kind : FlowNodeKind;
  no_value : jsstr;
  no_label : jsstr;
  no_valueLabel : jsstr;
  no_valueRaw : num;
  no_color : jsstr;
}.

Record FlowFilterOptions := FilterOptions {
  fo_users : list FlowUserFilterOption;
  fo_nodes : list FlowNodeFilterOption;
}.

(** [!row.user_id && !row.username] *)
Definition anonymous (row : FlowQuotaDataItem) : bool :=
  match q_user_id row with Some x => n_eqb x n_zero || is_nan x | None => true end
  && match q_username row with Some s => negb (truthy_str s) | None => true end.

Definition user_after (a b : FlowUserFilterOption) : bool :=
  or_diff (n_sub (uo_valueRaw b) (uo_valueRaw a)) (or_locale (uo_label a) (uo_label b) false).

(** The entries of [users] are a label, a value and a colour. *)
Definition buildUserFilterOptions (rows : list FlowQuotaDataItem) (metric : FlowMetric)
  (palette : option (list jsstr)) : list FlowUserFilterOption :=
  let colors := stableColorMap
    (array_sort (fun a b => or_locale a b false) (map (fun row => id (userNode row)) rows)) palette in
  let users :=
    fold_left (fun users row =>
        if anonymous row then users
        else
          let user := userNode row in
          let value := metricValue (rowMetrics row) metric in
          let '(l, v, c) :=
            default (label user, n_zero,
                     default (colorAt 0 palette) (assoc_get str_eqb (id user) colors))
              (assoc_get str_eqb (id user) users) in
          assoc_set str_eqb (id user) (l, n_add v value, c) users)
      rows [] in
  array_sort user_after
    (map (fun entry => let '(value, (l, v, c)) := entry in UserOption value l (formatNumber v) v c)
       users).

(** The totals of the nodes of one stage, by the key of their filter. *)
Definition option_totals (rows : list FlowQuotaDataItem) (metric : FlowMetric) (stage : FlowNodeKind)
  (ctx : FlowPathContext) : list (jsstr * FlowNodeRank) :=
  fold_left (fun totals row =>
      let node := NODE_BUILDERS stage row ctx in
      let key := nodeFilterKey (NodeFilter (kind node) (id node)) in
      let current := default (NodeRank node n_zero) (assoc_get str_eqb key totals) in
      assoc_set str_eqb key
        (NodeRank (r_node current) (n_add (r_value current) (metricValue (rowMetrics row) metric)))
        totals)
    rows [].

(** [stageOrder.get(kind) ?? 0] *)
Definition stage_order (stages : list FlowNodeKind) (k : FlowNodeKind) : num :=
  n_of_nat (default 0 (assoc_get kind_eqb k
    (fold_left (fun m p => assoc_set kind_eqb p.2 p.1 m)
       (imap (fun index stage => (index, stage)) stages) []))).

Definition option_after (stages : list FlowNodeKind) (a b : FlowNodeFilterOption) : bool :=
  or_diff (n_sub (stage_order stages (no_kind a)) (stage_order stages (no_kind b)))
    (or_diff (n_sub (no_valueRaw b) (no_valueRaw a))
       (or_locale (no_label a) (no_label b) (or_locale (no_value a) (no_value b) false))).

Definition buildNodeFilterOptions (rows : list FlowQuotaDataItem) (metric : FlowMetric)
  (role : FlowRole) (visibleStages : option (list FlowNodeKind)) (palette : option (list jsstr))
  (ctx : FlowPathContext) (selectedNodes : option (list FlowNodeFilter))
  : list FlowNodeFilterOption :=
  let stages := resolveVisibleStages role visibleStages in
  let colorIds :=
    fold_left (fun ids row =>
        fold_left (fun ids node => set_add str_eqb (id node) ids) (flowPathForStages row stages ctx) ids)
      rows [] in
  let colors := stableColorMap (array_sort (fun a b => or_locale a b false) colorIds) palette in
  let options :=
    fold_left (fun options stage =>
        let candidateRows :=
          filterRowsByNodes rows (selectedNodeFiltersExceptKind selectedNodes stage) stages ctx in
        options ++ map (fun rank =>
            NodeOption (kind (r_node rank)) (id (r_node rank)) (label (r_node rank))
              (formatNumber (r_value rank)) (r_value rank)
              (default (colorAt 0 palette) (assoc_get str_eqb (id (r_node rank)) colors)))
          (map snd (option_totals candidateRows metric stage ctx)))
      stages [] in
  array_sort (option_after stages) options.

Definition buildFlowFilterOptions (rows : list FlowQuotaDataItem) (metric : FlowMetric)
  (palette : option (list jsstr)) (role : FlowRole) (visibleStages : option (list FlowNodeKind))
  (selectedNodes : option (list FlowNodeFilter)) : FlowFilterOptions :=
  FilterOptions (buildUserFilterOptions rows metric palette)
    (buildNodeFilterOptions rows metric role visibleStages palette None selectedNodes).

Record FlowBuildOptions := BuildOptions {
  bo_role : option FlowRole;
  bo_selectedUsers : option (list jsstr);
  bo_selectedNodes : option (list FlowNodeFilter);
  bo_activeNode : option FlowNodeFilter;
  bo_activeLink : option FlowLinkSelection;
  bo_colorPalette : option (list jsstr);
  bo_visibleStages : option (list FlowNodeKind);
  bo_topNodeLimit : option num;
  bo_overflowMode : option FlowOverflowMode;
  bo_maskSensitive : bool;
  bo_deletedTokenLabel : FlowPathContext;
  bo_otherNodeLabel : option (FlowNodeKind -> jsstr);
}.

Record ProcessedFlowData := FlowData {
  pd_summary : FlowMetrics;
  pd_flow : DashboardFlowGraph;
  pd_filterOptions : FlowFilterOptions;
}.

Definition buildDashboardFlowData (rows : list FlowQuotaDataItem) (metric : FlowMetric)
  (options : FlowBuildOptions) : ProcessedFlowData :=
  let role := default RUser (bo_role options) in
  let palette := bo_colorPalette options in
  let ctx := bo_deletedTokenLabel options in
  let stages := resolveVisibleStages role (bo_visibleStages options) in
  let userFilteredRows := filterRows rows (bo_selectedUsers options) in
  let filteredRows := filterRowsByNodes userFilteredRows (bo_selectedNodes options) stages ctx in
  FlowData (buildSummary filteredRows)
    (buildFlowGraph filteredRows metric role palette (bo_visibleStages options) ctx
       (GraphOptions (bo_topNodeLimit options) (bo_overflowMode options) (bo_otherNodeLabel options)
          (bo_activeNode options) (bo_activeLink options) (bo_maskSensitive options)))
    (FilterOptions (buildUserFilterOptions rows metric palette)
       (buildNodeFilterOptions userFilteredRows metric role (bo_visibleStages options) palette ctx
          (bo_selectedNodes options))).
End sorted.
