(* ===== verification/DashboardFlowSpec.v ===== *)
(** * What the flow diagram shows

    The diagram counts every path once: the value of a node is the sum of the rows through
    it, what flows into a node and what flows out of it are its value, and the links of the
    first stage carry the total.  Masking replaces the labels of sensitive nodes and nothing
    else. *)

From Stdlib Require Import Sorting.Permutation.
From S2P Require Import Prelude JsString JsNumber JsIntSpec JsValue JsArray JsGroup TaskExpr Currency DashboardFlow.

Local Open Scope Z_scope.

(** ** Sums of whole numbers *)

(** The integer a number is; the number is whole, not negative and safe. *)
Definition amount (x : num) : Z := default 0 (int_value x).
Definition whole (x : num) : Prop := safe_num x (amount x) /\ 0 <= amount x.

Lemma safe_amount x z : safe_num x z -> amount x = z.
Proof. intros [[_ H] _]. unfold amount. by rewrite H. Qed.

Lemma safe_zero : safe_num n_zero 0.
Proof. split; [apply int_num_zero|]. unfold max_safe. lia. Qed.

Lemma sum_whole xs x z : safe_num x z -> 0 <= z -> Forall whole xs ->
  z + zsum amount xs <= max_safe -> safe_num (fold_left n_add xs x) (z + zsum amount xs).
Proof.
  intros Hx Hz Hxs. replace (zsum amount xs) with (fold_right Z.add 0 (map amount xs))
    by (clear; induction xs; simpl; congruence).
  apply sum_safe; [| |done|done]; induction Hxs as [|y xs [Hy Hy0] _ IH]; by constructor.
Qed.

(** ** Nodes and links as totals *)

Section flow.
Context {Col : Collation} {Scheme : ChartScheme} {Fmt : NumberFormat}.

Definition root_id (p : PreparedFlowPath) : jsstr :=
  match path p with [] => [] | root :: _ => id root end.

Definition node_entries (ps : list PreparedFlowPath) : list (FlowPathNode * PreparedFlowPath) :=
  flat_map (fun p => map (fun n => (n, p)) (path p)) ps.
Definition link_entries (ps : list PreparedFlowPath)
  : list ((FlowPathNode * FlowPathNode) * PreparedFlowPath) :=
  flat_map (fun p => map (fun s => (s, p)) (path_steps (path p))) ps.

Section totals.
Variables (metric : FlowMetric) (color_of : jsstr -> jsstr).

Definition node_init (e : FlowPathNode * PreparedFlowPath) : DashboardFlowNode :=
  FlowNode (id e.1) (label e.1) (kind e.1) n_zero n_zero n_zero n_zero
    (color_of (root_id e.2)) (root_id e.2) None None.
Definition node_add (n : DashboardFlowNode) (e : FlowPathNode * PreparedFlowPath) : DashboardFlowNode :=
  let ms := metrics e.2 in
  FlowNode (fn_id n) (fn_label n) (fn_kind n) (n_add (fn_value n) (metricValue ms metric))
    (n_add (fn_requests n) (requests ms)) (n_add (fn_quota n) (quota ms))
    (n_add (fn_tokens n) (tokens ms)) (fn_color n) (fn_colorKey n) (fn_highlighted n) (fn_dimmed n).

Definition step_key (e : (FlowPathNode * FlowPathNode) * PreparedFlowPath) : jsstr :=
  pathLinkKey e.1.1 e.1.2.
Definition link_init (e : (FlowPathNode * FlowPathNode) * PreparedFlowPath) : DashboardFlowLink :=
  FlowLink (id e.1.1) (id e.1.2) n_zero n_zero n_zero n_zero (label e.1.1) (label e.1.2)
    (color_of (root_id e.2)) (color_of (root_id e.2)) (n_of_Z 1) (color_of (root_id e.2))
    (root_id e.2) n_zero None None.
Definition link_add (l : DashboardFlowLink) (e : (FlowPathNode * FlowPathNode) * PreparedFlowPath)
  : DashboardFlowLink :=
  let ms := metrics e.2 in
  FlowLink (fl_source l) (fl_target l) (n_add (fl_value l) (metricValue ms metric))
    (n_add (fl_requests l) (requests ms)) (n_add (fl_quota l) (quota ms))
    (n_add (fl_tokens l) (tokens ms)) (fl_sourceLabel l) (fl_targetLabel l) (fl_color l)
    (fl_linkColor l) (fl_linkAlpha l) (fl_hoverColor l) (fl_colorKey l) (fl_share l)
    (fl_highlighted l) (fl_dimmed l).

Definition node_map (ps : list PreparedFlowPath) :=
  group str_eqb (fun e => id e.1) node_init node_add (node_entries ps) [].
Definition link_map (ps : list PreparedFlowPath) :=
  group str_eqb step_key link_init link_add (link_entries ps) [].

(** The loop over the paths is one loop over their nodes and one over their steps. *)
Lemma collect_groups ps :
  fold_left (add_path metric color_of) ps ([], []) = (node_map ps, link_map ps).
Proof.
  unfold node_map, link_map. generalize (@nil (jsstr * DashboardFlowNode)) as m.
  generalize (@nil (jsstr * DashboardFlowLink)) as m'.
  induction ps as [|p ps IH]; intros m' m; [done|].
  unfold node_entries, link_entries in *. cbn [fold_left flat_map]. rewrite !group_app.
  rewrite <- IH. f_equal. unfold add_path. destruct (path p) as [|root rest] eqn:Hp; [done|].
  assert (Hr : root_id p = id root) by (unfold root_id; by rewrite Hp).
  f_equal; unfold group; rewrite fold_left_map; cbn [fst snd]; clear IH.
  - revert m. generalize (root :: rest) as l. induction l as [|n l IHl]; intros m; [done|].
    cbn [fold_left]. rewrite <- IHl. unfold addNode, node_add, node_init. simpl. by rewrite Hr.
  - revert m'. generalize (path_steps (root :: rest)) as l. induction l as [|s l IHl]; intros m'; [done|].
    cbn [fold_left]. rewrite <- IHl. unfold addLink, link_add, link_init, step_key, pathLinkKey.
    simpl. by rewrite Hr.
Qed.

(** What a row adds. *)
Definition adds (p : PreparedFlowPath) : num := metricValue (metrics p) metric.

Lemma node_fold es n :
  let n' := fold_left node_add es n in
  fn_id n' = fn_id n /\ fn_kind n' = fn_kind n /\ fn_label n' = fn_label n
  /\ fn_value n' = fold_left n_add (map (fun e => adds e.2) es) (fn_value n).
Proof.
  revert n. induction es as [|e es IH]; intros n; [done|]. cbn [fold_left map]. by apply (IH (node_add n e)).
Qed.

Lemma link_fold es l :
  let l' := fold_left link_add es l in
  fl_source l' = fl_source l /\ fl_target l' = fl_target l
  /\ fl_sourceLabel l' = fl_sourceLabel l /\ fl_targetLabel l' = fl_targetLabel l
  /\ fl_value l' = fold_left n_add (map (fun e => adds e.2) es) (fl_value l).
Proof.
  revert l. induction es as [|e es IH]; intros l; [done|]. cbn [fold_left map]. by apply (IH (link_add l e)).
Qed.
End totals.

(** ** The shape of the paths *)

(** The id of a node starts with its kind. *)
Definition prefixed (n : FlowPathNode) : Prop :=
  exists rest, id n = kind_text (kind n) ++ 58%N :: rest.

Lemma prefixed_kind n n' : prefixed n -> prefixed n' -> id n = id n' -> kind n = kind n'.
Proof.
  intros [r Hr] [r' Hr'] He. rewrite Hr, Hr' in He.
  by destruct (kind n), (kind n'); vm_compute in He.
Qed.

Lemma builder_kind stage row ctx : kind (NODE_BUILDERS stage row ctx) = stage.
Proof. by destruct stage. Qed.

Lemma builder_prefixed stage row ctx : prefixed (NODE_BUILDERS stage row ctx).
Proof. by destruct stage; eexists. Qed.

Lemma other_prefixed k labeler : prefixed (otherFlowNode k labeler).
Proof. exists (js "__other__"). by destruct k. Qed.

(** A path has one node for each stage. *)
Definition shaped (stages : list FlowNodeKind) (p : list FlowPathNode) : Prop :=
  map kind p = stages /\ Forall prefixed p.

Lemma shaped_nodup stages p : List.NoDup stages -> shaped stages p -> List.NoDup (map id p).
Proof.
  intros Hn [<- Hp]. induction Hp as [|n p Hn' Hp IH]; [constructor|]. simpl in *.
  inversion Hn as [|? ? Hk Hn'']; subst. constructor; [|by apply IH].
  intros (n' & He & Hin)%in_map_iff. apply Hk, in_map_iff. exists n'. split; [|done].
  symmetry. apply prefixed_kind; [done| |done]. by apply (proj1 (List.Forall_forall _ _) Hp).
Qed.

Lemma stages_ok role visible :
  List.NoDup (resolveVisibleStages role visible) /\ (2 <= length (resolveVisibleStages role visible))%nat.
Proof.
  assert (H : List.NoDup (getFlowStages role) /\ (2 <= length (getFlowStages role))%nat).
  { split; [|destruct role; simpl; lia]. destruct role; repeat (apply List.NoDup_cons; [intros Hin; repeat destruct Hin as [Hin|Hin]; done|]); apply List.NoDup_nil. }
  unfold resolveVisibleStages. destruct visible as [l|]; [|done].
  destruct (Nat.leb _ _) eqn:E; [|done]. split; [apply List.NoDup_filter, H|]. by apply Nat.leb_le in E.
Qed.

(** Where the nodes of a prepared path come from. *)
Definition made_from (row : FlowQuotaDataItem) (stages : list FlowNodeKind) (ctx : FlowPathContext)
  (options : FlowGraphOptions) (p : list FlowPathNode) : Prop :=
  Forall2 (fun n stage => n = NODE_BUILDERS stage row ctx
                          \/ n = otherFlowNode stage (go_otherNodeLabel options)) p stages.

Lemma limited_made row stages ctx sets mode options p :
  applyTopNodeLimit (flowPathForStages row stages ctx) sets mode (go_otherNodeLabel options) = Some p ->
  made_from row stages ctx options p.
Proof.
  unfold applyTopNodeLimit, flowPathForStages, made_from. intros H.
  assert (Hid : Forall2 (fun n stage => n = NODE_BUILDERS stage row ctx
      \/ n = otherFlowNode stage (go_otherNodeLabel options))
    (map (fun stage => NODE_BUILDERS stage row ctx) stages) stages)
    by (clear; induction stages; constructor; auto).
  destruct sets as [sets|]; [|by injection H as <-].
  destruct (negb _); [by injection H as <-|]. destruct mode; [injection H as <-|done].
  clear Hid. induction stages as [|s stages IH]; constructor; [|done].
  rewrite builder_kind. case_match; auto.
Qed.

Lemma made_shaped row stages ctx options p : made_from row stages ctx options p -> shaped stages p.
Proof.
  unfold shaped. induction 1 as [|n s p stages Hn _ [IH1 IH2]]; [done|]. simpl. split.
  - f_equal; [|done]. destruct Hn as [->| ->]; [apply builder_kind|done].
  - constructor; [|done]. destruct Hn as [->| ->]; [apply builder_prefixed|apply other_prefixed].
Qed.

Lemma prepared_from rows metric stages ctx options p :
  In p (prepare_paths rows metric stages ctx options) ->
  exists row, In row rows /\ metrics p = rowMetrics row /\ made_from row stages ctx options (path p).
Proof.
  unfold prepare_paths. intros Hp%list_elem_of_In. apply list_elem_of_omap in Hp as (row & Hrow & H).
  exists row. split; [by apply list_elem_of_In|]. destruct (applyTopNodeLimit _ _ _ _) eqn:E; [|done].
  injection H as <-. split; [done|]. by eapply limited_made.
Qed.

(** ** What flows through a node *)

Section conserved.
Variables (metric : FlowMetric) (color_of : jsstr -> jsstr).
Variables (stages : list FlowNodeKind) (ps : list PreparedFlowPath).

(** The whole amount a path carries. *)
Definition carries (p : PreparedFlowPath) : Z := amount (adds metric p).

(** The sum of the paths through a node. *)
Definition through (k : jsstr) : Z :=
  zsum (fun p => if existsb (str_eqb k) (map id (path p)) then carries p else 0) ps.

Hypothesis stages_distinct : List.NoDup stages.
Hypothesis paths_shaped : forall p, In p ps -> shaped stages (path p).
Hypothesis paths_whole : forall p, In p ps -> whole (adds metric p).
Hypothesis sum_is_safe : zsum carries ps <= max_safe.
Hypothesis no_nul : forall p n, In p ps -> In n (path p) -> ~ In 0%N (id n).

Lemma path_ids_nodup p : In p ps -> List.NoDup (map id (path p)).
Proof. intros Hp. eapply shaped_nodup; [apply stages_distinct|by apply paths_shaped]. Qed.

Lemma node_entry_in e : In e (node_entries ps) <-> In e.2 ps /\ In e.1 (path e.2).
Proof.
  unfold node_entries. rewrite in_flat_map. split.
  - intros (p & Hp & Hin). apply in_map_iff in Hin as (n & <- & Hn). done.
  - intros [Hp Hn]. exists e.2. split; [done|]. apply in_map_iff. exists e.1. by destruct e.
Qed.

Lemma link_entry_in e : In e (link_entries ps) <-> In e.2 ps /\ In e.1 (path_steps (path e.2)).
Proof.
  unfold link_entries. rewrite in_flat_map. split.
  - intros (p & Hp & Hin). apply in_map_iff in Hin as (n & <- & Hn). done.
  - intros [Hp Hn]. exists e.2. split; [done|]. apply in_map_iff. exists e.1. by destruct e.
Qed.

Lemma step_in (p : list FlowPathNode) a b : In (a, b) (path_steps p) -> In a p /\ In b p.
Proof.
  unfold path_steps. intros H. split.
  - by apply in_combine_l in H.
  - apply in_combine_r in H. destruct p as [|n p]; [done|]. by right.
Qed.

Lemma carries_nonneg p : In p ps -> 0 <= carries p.
Proof. intros Hp. by apply paths_whole in Hp as [_ ?]. Qed.

Lemma node_sum k : zsum (fun e => carries e.2) (having str_eqb (fun e => id e.1) k (node_entries ps)) = through k.
Proof.
  unfold having, node_entries, through. rewrite zsum_filter, zsum_flat_map. apply zsum_ext. intros p Hp.
  rewrite zsum_map. cbn [fst snd].
  rewrite <- (zsum_one str_eqb k (carries p) (map id (path p)) str_eqb_eq (path_ids_nodup p Hp)).
  rewrite zsum_map. apply zsum_ext. intros n _. by rewrite str_eqb_sym.
Qed.

(** Totals of elements that come from the paths are exact. *)
Lemma total_safe {A} (from : A -> PreparedFlowPath) (l : list A) :
  (forall e, In e l -> In (from e) ps) -> zsum (fun e => carries (from e)) l <= max_safe ->
  safe_num (fold_left n_add (map (fun e => adds metric (from e)) l) n_zero) (zsum (fun e => carries (from e)) l).
Proof.
  intros Hin Hle. replace (zsum _ l) with (0 + zsum amount (map (fun e => adds metric (from e)) l))
    by (rewrite zsum_map; done).
  apply sum_whole; [apply safe_zero|lia| |rewrite zsum_map; exact Hle].
  apply List.Forall_forall. intros x (e & <- & He)%in_map_iff. by apply paths_whole, Hin.
Qed.

Lemma through_le k : through k <= max_safe.
Proof.
  transitivity (zsum carries ps); [|done]. unfold through. apply zsum_le. intros p Hp.
  apply carries_nonneg in Hp. case_match; lia.
Qed.

Lemma node_origin k n : In (k, n) (node_map metric color_of ps) ->
  fn_id n = k /\ exists p pn, In p ps /\ In pn (path p) /\ id pn = k /\ kind pn = fn_kind n.
Proof.
  intros H. apply group_entry in H as (e & es & Hh & ->); [|apply str_eqb_eq].
  destruct (node_fold metric (e :: es) (node_init color_of e)) as (-> & -> & _ & _).
  assert (He : In e (having str_eqb (fun e => id e.1) k (node_entries ps))) by (rewrite Hh; by left).
  apply having_in in He as [He Hk]; [|apply str_eqb_eq]. apply node_entry_in in He as [Hp Hn].
  split; [done|]. by exists e.2, e.1.
Qed.

Lemma node_total k n : In (k, n) (node_map metric color_of ps) -> safe_num (fn_value n) (through k).
Proof.
  intros H. apply group_entry in H as (e & es & Hh & ->); [|apply str_eqb_eq].
  destruct (node_fold metric (e :: es) (node_init color_of e)) as (_ & _ & _ & ->).
  rewrite <- node_sum, Hh. apply (total_safe (fun e => e.2)).
  - intros e' He'. rewrite <- Hh in He'. apply having_in in He' as [He' _]; [|apply str_eqb_eq].
    by apply node_entry_in in He' as [? _].
  - rewrite <- Hh, node_sum. apply through_le.
Qed.

Lemma node_present k : In k (map fst (node_map metric color_of ps)) <->
  exists p, In p ps /\ In k (map id (path p)).
Proof.
  unfold node_map. rewrite group_key by apply str_eqb_eq. split.
  - intros (e & He & <-). apply node_entry_in in He as [Hp Hn]. exists e.2. split; [done|]. by apply in_map.
  - intros (p & Hp & Hk). apply in_map_iff in Hk as (n & <- & Hn). exists (n, p). split; [|done].
    by apply node_entry_in.
Qed.

(** A link is the total of the steps between its ends. *)
Lemma same_step e e' : In e (link_entries ps) -> In e' (link_entries ps) -> step_key e = step_key e' ->
  id e.1.1 = id e'.1.1 /\ id e.1.2 = id e'.1.2.
Proof.
  destruct e as [[a b] p], e' as [[a' b'] p'].
  intros [Hp Hs]%link_entry_in [Hp' Hs']%link_entry_in He. cbn [fst snd] in *.
  apply step_in in Hs as [Ha _], Hs' as [Ha' _]. apply split_at_separator in He; eauto.
Qed.

Lemma step_sources (p : list FlowPathNode) : map fst (path_steps p) = removelast p.
Proof.
  unfold path_steps. induction p as [|a [|b p] IH]; [done|done|].
  change (map fst (zip (a :: b :: p) (tail (a :: b :: p)))) with (a :: map fst (zip (b :: p) (tail (b :: p)))).
  by rewrite IH.
Qed.

Lemma step_targets (p : list FlowPathNode) : map snd (path_steps p) = tail p.
Proof.
  unfold path_steps. induction p as [|a [|b p] IH]; [done|done|].
  change (map snd (zip (a :: b :: p) (tail (a :: b :: p)))) with (b :: map snd (zip (b :: p) (tail (b :: p)))).
  by rewrite IH.
Qed.

Lemma step_once p k : In p ps ->
  zsum (fun s => if str_eqb (pathLinkKey s.1 s.2) k then carries p else 0) (path_steps (path p)) <= carries p.
Proof.
  intros Hp. pose proof (carries_nonneg p Hp).
  assert (Hn : List.NoDup (map (fun s => pathLinkKey s.1 s.2) (path_steps (path p)))).
  { apply (nodup_map_finer (fun s => id s.1)).
    - intros [a b] [a' b'] H1 H2 He.
      by apply (same_step ((a, b), p) ((a', b'), p)); [apply link_entry_in..|].
    - rewrite <- (map_map fst id), step_sources. pose proof (path_ids_nodup p Hp) as Hd.
      destruct (path p) as [|n l] using rev_ind; [done|]. rewrite removelast_last.
      rewrite map_app in Hd. by apply List.NoDup_app_remove_r in Hd. }
  pose proof (zsum_one str_eqb k (carries p) _ str_eqb_eq Hn) as Ho. rewrite zsum_map in Ho.
  rewrite (zsum_ext _ (fun s => if str_eqb k (pathLinkKey s.1 s.2) then carries p else 0))
    by (intros s _; by rewrite str_eqb_sym).
  rewrite Ho. case_match; lia.
Qed.

Lemma link_total k e es : having str_eqb step_key k (link_entries ps) = e :: es ->
  let l := fold_left (link_add metric) (e :: es) (link_init color_of e) in
  fl_source l = id e.1.1 /\ fl_target l = id e.1.2
  /\ safe_num (fl_value l) (zsum (fun e => carries e.2) (e :: es))
  /\ forall e', In e' (e :: es) -> In e' (link_entries ps) /\ step_key e' = k.
Proof.
  intros Hh. cbv zeta.
  destruct (link_fold metric (e :: es) (link_init color_of e)) as (-> & -> & _ & _ & ->).
  assert (Hin : forall e', In e' (e :: es) -> In e' (link_entries ps) /\ step_key e' = k).
  { intros e' He'. rewrite <- Hh in He'. by apply having_in in He'; [|apply str_eqb_eq]. }
  split; [done|]. split; [done|]. split; [|done]. apply (total_safe (fun e => e.2)).
  - intros e' He'. by apply Hin, proj1, link_entry_in, proj1 in He'.
  - rewrite <- Hh. unfold having. rewrite zsum_filter. unfold link_entries. rewrite zsum_flat_map.
    transitivity (zsum carries ps); [|done]. apply zsum_le. intros p Hp. rewrite zsum_map. exact (step_once p k Hp).
Qed.

Lemma link_whole l : In l (map snd (link_map metric color_of ps)) -> whole (fl_value l).
Proof.
  intros ([k l'] & <- & H)%in_map_iff. apply group_entry in H as (e & es & Hh & ->); [|apply str_eqb_eq].
  destruct (link_total k e es Hh) as (_ & _ & Hs & Hin). cbn [snd]. unfold whole.
  rewrite (safe_amount _ _ Hs). split; [done|]. apply zsum_nonneg. intros e' He'.
  by apply carries_nonneg, link_entry_in, Hin.
Qed.

Lemma link_sum (q : jsstr -> jsstr -> bool) :
  zsum (fun l => if q (fl_source l) (fl_target l) then amount (fl_value l) else 0)
    (map snd (link_map metric color_of ps)) =
  zsum (fun p => zsum (fun s => if q (id s.1) (id s.2) then carries p else 0) (path_steps (path p))) ps.
Proof.
  unfold link_map.
  rewrite (group_zsum str_eqb step_key _ _ str_eqb_eq _
             (fun e => if q (id e.1.1) (id e.1.2) then carries e.2 else 0)).
  { unfold link_entries. rewrite zsum_flat_map. apply zsum_ext. intros p _. by rewrite zsum_map. }
  intros k e es Hh. destruct (link_total k e es Hh) as (-> & -> & Hs & Hin). rewrite (safe_amount _ _ Hs).
  destruct (Hin e (or_introl eq_refl)) as [He Hk].
  transitivity (zsum (fun e' => if q (id e.1.1) (id e.1.2) then carries e'.2 else 0) (e :: es)).
  - destruct (q _ _); [done|by rewrite zsum_zero].
  - apply zsum_ext. intros e' He'. destruct (Hin e' He') as [He1 Hk'].
    destruct (same_step e e' He He1) as [-> ->]; [congruence|done].
Qed.

(** The sum over the steps of a path that end, or start, at one node. *)
Lemma steps_into p k : In p ps ->
  zsum (fun s => if str_eqb k (id s.2) then carries p else 0) (path_steps (path p)) =
  if existsb (str_eqb k) (map id (tail (path p))) then carries p else 0.
Proof.
  intros Hp. rewrite <- (zsum_one str_eqb k (carries p) (map id (tail (path p))) str_eqb_eq).
  - rewrite <- step_targets, !zsum_map. done.
  - pose proof (path_ids_nodup p Hp) as Hd. destruct (path p) as [|n l]; [done|]. by inversion Hd.
Qed.

Lemma steps_from p k : In p ps ->
  zsum (fun s => if str_eqb k (id s.1) then carries p else 0) (path_steps (path p)) =
  if existsb (str_eqb k) (map id (removelast (path p))) then carries p else 0.
Proof.
  intros Hp. rewrite <- (zsum_one str_eqb k (carries p) (map id (removelast (path p))) str_eqb_eq).
  - rewrite <- step_sources, !zsum_map. done.
  - pose proof (path_ids_nodup p Hp) as Hd. destruct (path p) as [|n l] using rev_ind; [done|].
    rewrite removelast_last. rewrite map_app in Hd. by apply List.NoDup_app_remove_r in Hd.
Qed.

(** A node of a path has the kind its id tells. *)
Lemma same_kind p n p' n' : In p ps -> In n (path p) -> In p' ps -> In n' (path p') -> id n = id n' ->
  kind n = kind n'.
Proof.
  intros Hp Hn Hp' Hn'. apply prefixed_kind.
  - by apply (proj1 (List.Forall_forall _ _) (proj2 (paths_shaped p Hp))).
  - by apply (proj1 (List.Forall_forall _ _) (proj2 (paths_shaped p' Hp'))).
Qed.

(** Only nodes of the first stage come first on a path, only those of the last one last. *)
Lemma not_first p n p' : In p ps -> In n (path p) -> head stages <> Some (kind n) -> In p' ps ->
  existsb (str_eqb (id n)) (map id (tail (path p'))) = existsb (str_eqb (id n)) (map id (path p')).
Proof.
  intros Hp Hn Hk Hp'. destruct (path p') as [|r l] eqn:Hl; [done|]. cbn [map existsb tail].
  destruct (str_eqb (id n) (id r)) eqn:E; [|done]. apply str_eqb_eq in E. exfalso. apply Hk.
  rewrite <- (proj1 (paths_shaped p' Hp')), Hl. simpl. f_equal. symmetry.
  eapply (same_kind p n p' r); [done..| |done]. rewrite Hl. by left.
Qed.

Lemma not_last p n p' : In p ps -> In n (path p) -> list.last stages <> Some (kind n) -> In p' ps ->
  existsb (str_eqb (id n)) (map id (removelast (path p'))) = existsb (str_eqb (id n)) (map id (path p')).
Proof.
  intros Hp Hn Hk Hp'. destruct (path p') as [|r l _] eqn:Hl using rev_ind; [done|].
  rewrite removelast_last, map_app, existsb_app. cbn [map existsb].
  destruct (str_eqb (id n) (id r)) eqn:E; [|by rewrite !orb_false_r].
  apply str_eqb_eq in E. exfalso. apply Hk.
  rewrite <- (proj1 (paths_shaped p' Hp')), Hl, map_app. cbn [map]. rewrite last_snoc. f_equal. symmetry.
  eapply (same_kind p n p' r); [done..| |done]. rewrite Hl. apply in_app_iff. right. by left.
Qed.

(** What flows into a node is what flows through it, unless it is of the first stage; what
    flows out of it likewise, unless it is of the last. *)
Lemma links_into p n : In p ps -> In n (path p) -> head stages <> Some (kind n) ->
  zsum (fun l => if str_eqb (id n) (fl_target l) then amount (fl_value l) else 0)
    (map snd (link_map metric color_of ps)) = through (id n).
Proof.
  intros Hp Hn Hk. rewrite (link_sum (fun _ t => str_eqb (id n) t)). apply zsum_ext. intros p' Hp'.
  rewrite steps_into by done. by rewrite (not_first p n p').
Qed.

Lemma links_from p n : In p ps -> In n (path p) -> list.last stages <> Some (kind n) ->
  zsum (fun l => if str_eqb (id n) (fl_source l) then amount (fl_value l) else 0)
    (map snd (link_map metric color_of ps)) = through (id n).
Proof.
  intros Hp Hn Hk. rewrite (link_sum (fun s _ => str_eqb (id n) s)). apply zsum_ext. intros p' Hp'.
  rewrite steps_from by done. by rewrite (not_last p n p').
Qed.

(** The links that leave the first stage carry everything. *)
Hypothesis enough_stages : (2 <= length stages)%nat.

Lemma first_id p : In p ps -> In (root_id p) (first_ids ps).
Proof.
  intros Hp. unfold first_ids, root_id. destruct (paths_shaped p Hp) as [Hm Hpre].
  destruct (path p) as [|r l] eqn:Hl; [rewrite <- Hm in enough_stages; simpl in enough_stages; lia|].
  apply filter_In. split.
  - apply list_elem_of_In, list_elem_of_omap. exists p. split; [by apply list_elem_of_In|]. by rewrite Hl.
  - inversion Hpre as [|? ? [rest Hr] _]; subst. rewrite Hr. by destruct (kind r).
Qed.

Lemma first_ids_from k : In k (first_ids ps) -> exists p r l, In p ps /\ path p = r :: l /\ id r = k.
Proof.
  unfold first_ids. intros [H _]%filter_In. apply list_elem_of_In, list_elem_of_omap in H as (p & Hp & H).
  destruct (path p) as [|r l] eqn:Hl; [done|]. injection H as <-. exists p, r, l. by apply list_elem_of_In in Hp.
Qed.

Lemma first_steps p firsts : In p ps -> (forall k, str_mem k firsts = true <-> In k (first_ids ps)) ->
  zsum (fun s => if str_mem (id s.1) firsts then carries p else 0) (path_steps (path p)) = carries p.
Proof.
  intros Hp Hf. pose proof (first_id p Hp) as Hin. unfold root_id in Hin.
  destruct (paths_shaped p Hp) as [Hm _]. pose proof enough_stages as Hlen. rewrite <- Hm, length_map in Hlen.
  destruct (path p) as [|r [|n l]] eqn:Hl; [by inversion Hlen|simpl in Hlen; lia|].
  change (path_steps (r :: n :: l)) with ((r, n) :: zip (n :: l) l).
  rewrite zsum_cons. cbn [fst]. apply Hf in Hin. rewrite Hin.
  enough (H : zsum (fun s => if str_mem (id s.1) firsts then carries p else 0) (zip (n :: l) l) = 0) by lia.
  etransitivity; [|apply (zsum_zero (zip (n :: l) l))]. apply zsum_ext. intros [a b] Hs.
  apply in_combine_l in Hs. cbn [fst]. destruct (str_mem (id a) firsts) eqn:E; [|done]. exfalso.
  apply Hf, first_ids_from in E as (p' & r' & l' & Hp' & Hl' & He).
  assert (Hk : kind r' = kind a).
  { eapply (same_kind p' r' p a); [done| |done| |done]; [rewrite Hl'|rewrite Hl]; [by left|by right]. }
  assert (Hr : kind r' = kind r).
  { pose proof (proj1 (paths_shaped p' Hp')) as Hm'. rewrite Hl', <- Hm in Hm'. by injection Hm'. }
  rewrite <- Hm in stages_distinct. cbn [map] in stages_distinct. inversion stages_distinct as [|? ? Hnot _]; subst.
  apply Hnot. rewrite <- Hr, Hk. change (kind n :: map kind l) with (map kind (n :: l)). by apply in_map.
Qed.

Lemma first_sum firsts : (forall k, str_mem k firsts = true <-> In k (first_ids ps)) ->
  zsum (fun l => if str_mem (fl_source l) firsts then amount (fl_value l) else 0)
    (map snd (link_map metric color_of ps)) = zsum carries ps.
Proof.
  intros Hf. rewrite (link_sum (fun s _ => str_mem s firsts)). apply zsum_ext. intros p Hp.
  by apply first_steps.
Qed.
End conserved.

(** ** The finished graph *)

Lemma map_alter {A B} (f : A -> B) (h : A -> A) i l :
  (forall x, f (h x) = f x) -> map f (alter h i l) = map f l.
Proof.
  intros Hh. revert i. induction l as [|x l IH]; intros [|i]; simpl; [done..|by rewrite Hh|].
  f_equal. apply IH.
Qed.

Lemma assign_view {B} (f : DashboardFlowLink -> B) links :
  (forall l c, f (set_display l c) = f l) -> map f (assignLinkDisplayColors links) = map f links.
Proof.
  intros Hf. unfold assignLinkDisplayColors.
  match goal with |- context [fold_left _ ?groups links] => generalize groups end.
  intros groups. generalize links.
  induction groups as [|gr groups IH]; intros acc; [done|]. cbn [fold_left]. rewrite IH.
  clear IH. match goal with |- context [fold_left _ ?es acc] => generalize es end.
  intros es. revert acc. induction es as [|e es IHes]; intros acc; [done|]. cbn [fold_left].
  rewrite IHes. apply map_alter. intros l. apply Hf.
Qed.

Lemma highlight_nodes_view {B} (f : DashboardFlowNode -> B) nodes links sets :
  (forall b n, f (flag_node b n) = f n) -> map f (applyFlowHighlights nodes links sets).1 = map f nodes.
Proof. intros Hf. destruct sets as [sets|]; [|done]. simpl. rewrite map_map. by apply map_ext. Qed.

Lemma highlight_links_view {B} (f : DashboardFlowLink -> B) nodes links sets :
  (forall b l, f (flag_link b l) = f l) -> map f (applyFlowHighlights nodes links sets).2 = map f links.
Proof. intros Hf. destruct sets as [sets|]; [|done]. simpl. rewrite map_map. by apply map_ext. Qed.

Lemma mask_nodes_view {B} (f : DashboardFlowNode -> B) nodes links :
  (forall n l, f (relabel_node n l) = f n) -> map f (maskFlowGraphLabels nodes links).1 = map f nodes.
Proof. intros Hf. simpl. rewrite map_map. apply map_ext. intros n. by case_match. Qed.

Lemma mask_links_view {B} (f : DashboardFlowLink -> B) nodes links :
  (forall l a b, f (relabel_link l a b) = f l) -> map f (maskFlowGraphLabels nodes links).2 = map f links.
Proof.
  intros Hf. unfold maskFlowGraphLabels. cbn [snd]. case_match; [done|]. rewrite map_map. by apply map_ext.
Qed.

(** What flows into and out of a node of a graph. *)
Definition inflow (g : DashboardFlowGraph) (k : jsstr) : Z :=
  zsum (fun l => if str_eqb k (fl_target l) then amount (fl_value l) else 0) (g_links g).
Definition outflow (g : DashboardFlowGraph) (k : jsstr) : Z :=
  zsum (fun l => if str_eqb k (fl_source l) then amount (fl_value l) else 0) (g_links g).

Section graph.
Variables (rows : list FlowQuotaDataItem) (metric : FlowMetric) (role : FlowRole).
Variables (palette : option (list jsstr)) (visibleStages : option (list FlowNodeKind)).
Variables (ctx : FlowPathContext) (options : FlowGraphOptions).

Definition drawn_stages : list FlowNodeKind := resolveVisibleStages role visibleStages.
Definition drawn_paths : list PreparedFlowPath := prepare_paths rows metric drawn_stages ctx options.
Definition drawn_graph : DashboardFlowGraph :=
  buildFlowGraph rows metric role palette visibleStages ctx options.
Definition drawn_color (root : jsstr) : jsstr :=
  default (colorAt 0 palette) (assoc_get str_eqb root
    (stableColorMap (array_sort (fun a b => or_locale a b false) (first_ids drawn_paths)) palette)).

Definition node_list := map snd (node_map metric drawn_color drawn_paths).
Definition link_list := map snd (link_map metric drawn_color drawn_paths).
Definition masked_lists :=
  if go_maskSensitive options then maskFlowGraphLabels node_list link_list else (node_list, link_list).
Definition drawn_highlights :=
  buildFlowHighlightSets drawn_paths (go_activeNode options) (go_activeLink options) drawn_stages.
Definition flagged_lists := applyFlowHighlights masked_lists.1 masked_lists.2 drawn_highlights.

Lemma graph_steps :
  drawn_graph =
  FlowGraph (array_sort byValueThenLabel flagged_lists.1)
    (assignLinkDisplayColors
       (map (set_share (first_step_total drawn_paths (array_sort by_link_ends flagged_lists.2)))
          (array_sort by_link_ends flagged_lists.2))).
Proof.
  unfold drawn_graph, buildFlowGraph, flagged_lists, masked_lists. fold drawn_stages drawn_paths drawn_highlights.
  unfold collect. fold drawn_color. rewrite collect_groups. fold node_list link_list.
  by destruct (go_maskSensitive options), drawn_highlights.
Qed.

(** What masking, highlighting, sharing and colouring leave alone is what the totals have. *)
Lemma graph_nodes_view {B} (f : DashboardFlowNode -> B) :
  (forall n l, f (relabel_node n l) = f n) -> (forall b n, f (flag_node b n) = f n) ->
  Permutation (map f (g_nodes drawn_graph)) (map f node_list).
Proof.
  intros Hm Hf. rewrite graph_steps. cbn [g_nodes]. rewrite array_sort_perm. unfold flagged_lists.
  rewrite highlight_nodes_view by done. unfold masked_lists.
  destruct (go_maskSensitive options); [by rewrite mask_nodes_view|done].
Qed.

Lemma graph_links_view {B} (f : DashboardFlowLink -> B) :
  (forall l a b, f (relabel_link l a b) = f l) -> (forall b l, f (flag_link b l) = f l) ->
  (forall t l, f (set_share t l) = f l) -> (forall l c, f (set_display l c) = f l) ->
  Permutation (map f (g_links drawn_graph)) (map f link_list).
Proof.
  intros Hm Hf Hs Hc. rewrite graph_steps. cbn [g_links]. rewrite assign_view by done.
  rewrite map_map, (map_ext _ f) by done. rewrite array_sort_perm. unfold flagged_lists.
  rewrite highlight_links_view by done. unfold masked_lists.
  destruct (go_maskSensitive options); [by rewrite mask_links_view|done].
Qed.

Lemma graph_links_sum (q : jsstr -> jsstr -> bool) :
  zsum (fun l => if q (fl_source l) (fl_target l) then amount (fl_value l) else 0) (g_links drawn_graph) =
  zsum (fun l => if q (fl_source l) (fl_target l) then amount (fl_value l) else 0) link_list.
Proof.
  pose proof (zsum_perm (fun v : jsstr * jsstr * num => if q v.1.1 v.1.2 then amount v.2 else 0) _ _
    (graph_links_view (fun l => (fl_source l, fl_target l, fl_value l))
       (fun _ _ _ => eq_refl) (fun _ _ => eq_refl) (fun _ _ => eq_refl) (fun _ _ => eq_refl))) as H.
  by rewrite !zsum_map in H.
Qed.

(** The rows and the paths drawn of them. *)
Hypothesis rows_whole : forall row, In row rows -> whole (metricValue (rowMetrics row) metric).
Hypothesis rows_safe : zsum (fun row => amount (metricValue (rowMetrics row) metric)) rows <= max_safe.
Hypothesis rows_no_nul : forall row stage, In row rows -> ~ In 0%N (id (NODE_BUILDERS stage row ctx)).

Lemma drawn_shaped p : In p drawn_paths -> shaped drawn_stages (path p).
Proof. intros (row & _ & _ & H)%prepared_from. by apply made_shaped in H. Qed.

Lemma drawn_whole p : In p drawn_paths -> whole (adds metric p).
Proof. intros (row & Hrow & Hm & _)%prepared_from. unfold adds. rewrite Hm. by apply rows_whole. Qed.

Lemma drawn_no_nul p n : In p drawn_paths -> In n (path p) -> ~ In 0%N (id n).
Proof.
  intros (row & Hrow & _ & H)%prepared_from Hn. unfold made_from in H.
  induction H as [|n' stage l stages' [-> | ->] _ IH]; [done|..]; destruct Hn as [<-|Hn]; eauto.
  destruct stage; vm_compute; intuition discriminate.
Qed.

Lemma drawn_sum : zsum (carries metric) drawn_paths <= max_safe.
Proof.
  refine (Z.le_trans _ _ _ _ rows_safe). unfold drawn_paths, prepare_paths.
  generalize (buildTopNodeSets rows metric drawn_stages (normalizeTopNodeLimit (go_topNodeLimit options)) ctx).
  intros sets. clear rows_safe rows_no_nul. revert rows_whole. induction rows as [|row l IH]; intros Hw; [done|].
  specialize (IH (fun r Hr => Hw r (or_intror Hr))). destruct (Hw row (or_introl eq_refl)) as [_ H0].
  cbn [omap list_omap]. case_match eqn:E; rewrite zsum_cons in *; [|lia].
  destruct (applyTopNodeLimit _ _ _ _); [|done]. injection E as <-. rewrite zsum_cons.
  unfold carries at 1, adds. cbn [metrics]. lia.
Qed.

Lemma aggregate_sum : go_overflowMode options <> Some OHide ->
  zsum (carries metric) drawn_paths = zsum (fun row => amount (metricValue (rowMetrics row) metric)) rows.
Proof.
  intros Hmode. unfold drawn_paths, prepare_paths.
  generalize (buildTopNodeSets rows metric drawn_stages (normalizeTopNodeLimit (go_topNodeLimit options)) ctx).
  intros sets. clear rows_whole rows_safe rows_no_nul. induction rows as [|row l IH]; [done|].
  cbn [omap list_omap]. rewrite zsum_cons, <- IH.
  assert (H : is_Some (applyTopNodeLimit (flowPathForStages row drawn_stages ctx) sets
    (default OAggregate (go_overflowMode options)) (go_otherNodeLabel options))).
  { unfold applyTopNodeLimit. destruct sets; [|done]. destruct (negb _); [done|].
    by destruct (go_overflowMode options) as [[]|]. }
  destruct H as [p ->]. done.
Qed.

Lemma summary_safe :
  safe_num (metricValue (buildSummary rows) metric)
    (zsum (fun row => amount (metricValue (rowMetrics row) metric)) rows).
Proof.
  assert (H : forall m, metricValue (fold_left (fun summary row =>
      let r := rowMetrics row in
      Metrics (n_add (quota summary) (quota r)) (n_add (tokens summary) (tokens r))
        (n_add (requests summary) (requests r))) rows m) metric =
    fold_left n_add (map (fun row => metricValue (rowMetrics row) metric) rows) (metricValue m metric)).
  { clear. induction rows as [|row l IH]; intros m; [done|]. cbn [fold_left map]. rewrite IH. by destruct metric. }
  unfold buildSummary. rewrite H.
  replace (zsum _ rows) with (0 + zsum amount (map (fun row => metricValue (rowMetrics row) metric) rows))
    by (rewrite zsum_map; lia).
  apply sum_whole; [|done| |rewrite zsum_map; exact rows_safe].
  - destruct metric; apply safe_zero.
  - apply List.Forall_forall. intros x (row & <- & Hrow)%in_map_iff. by apply rows_whole.
Qed.

Lemma unique_keys_in k l : In k (unique_keys l) <-> In k l.
Proof.
  unfold unique_keys. enough (H : forall acc,
    In k (fold_left (fun acc k => set_add str_eqb k acc) l acc) <-> In k acc \/ In k l).
  { rewrite H. simpl. tauto. }
  induction l as [|x l IH]; intros acc; simpl; [tauto|]. rewrite IH, set_add_elem by apply str_eqb_eq. intuition.
Qed.

Lemma total_links :
  safe_num (first_step_total drawn_paths (array_sort by_link_ends flagged_lists.2))
    (zsum (carries metric) drawn_paths).
Proof.
  set (f := fun l => (fl_source l, fl_value l)).
  set (firsts := unique_keys (first_ids drawn_paths)).
  assert (Hp : Permutation (map f (array_sort by_link_ends flagged_lists.2)) (map f link_list)).
  { rewrite array_sort_perm. unfold flagged_lists. rewrite highlight_links_view by done. unfold masked_lists.
    destruct (go_maskSensitive options); [by rewrite mask_links_view|done]. }
  assert (Hsum : zsum amount (map fl_value (List.filter (fun l => str_mem (fl_source l) firsts)
      (array_sort by_link_ends flagged_lists.2))) = zsum (carries metric) drawn_paths).
  { rewrite zsum_map, zsum_filter.
    rewrite <- (zsum_map (fun v : jsstr * num => if str_mem v.1 firsts then amount v.2 else 0) f).
    rewrite (zsum_perm _ _ _ Hp), zsum_map. unfold link_list.
    apply (first_sum metric drawn_color drawn_stages); [apply stages_ok|apply drawn_shaped|apply drawn_whole
      |apply drawn_sum|apply drawn_no_nul|apply stages_ok|].
    intros k. unfold firsts. rewrite <- unique_keys_in. apply str_mem_In. }
  unfold first_step_total. fold firsts. rewrite <- (fold_left_map n_add fl_value).
  rewrite <- Hsum, <- (Z.add_0_l (zsum _ _)). apply sum_whole; [apply safe_zero|done| |].
  - apply List.Forall_forall. intros x (l & <- & [Hl _]%filter_In)%in_map_iff.
    assert (Hin : In (f l) (map f link_list)) by (eapply Permutation_in; [exact Hp|by apply in_map]).
    apply in_map_iff in Hin as (l' & He & Hl'). injection He as _ <-.
    eapply (link_whole metric drawn_color drawn_stages); [apply stages_ok|apply drawn_shaped|apply drawn_whole
      |apply drawn_sum|apply drawn_no_nul|exact Hl'].
  - rewrite Hsum. apply drawn_sum.
Qed.

Lemma share_of l : In l (g_links drawn_graph) ->
  let total := first_step_total drawn_paths (array_sort by_link_ends flagged_lists.2) in
  fl_share l = if n_gtb total n_zero then n_div (fl_value l) total else n_zero.
Proof.
  intros Hl. cbv zeta. set (total := first_step_total _ _).
  assert (Hin : In (fl_share l, fl_value l) (map (fun l => (fl_share l, fl_value l)) (g_links drawn_graph)))
    by (by apply (in_map (fun l => (fl_share l, fl_value l)))).
  rewrite graph_steps in Hin. cbn [g_links] in Hin. rewrite assign_view in Hin by done. fold total in Hin.
  apply in_map_iff in Hin as (l' & He & (l'' & <- & _)%in_map_iff). by injection He as <- <-.
Qed.

Lemma node_list_keys : map fn_id node_list = map fst (node_map metric drawn_color drawn_paths).
Proof. unfold node_list. rewrite map_map. apply map_ext_in. intros [k n] Hin. by apply node_origin in Hin as [? _]. Qed.

Lemma graph_ids : Permutation (map fn_id (g_nodes drawn_graph)) (map fst (node_map metric drawn_color drawn_paths)).
Proof. rewrite <- node_list_keys. by apply graph_nodes_view. Qed.

Lemma graph_ids_nodup : List.NoDup (map fn_id (g_nodes drawn_graph)).
Proof. rewrite graph_ids. apply group_nodup; [apply str_eqb_eq|constructor]. Qed.

Lemma graph_ids_drawn k :
  In k (map fn_id (g_nodes drawn_graph)) <-> exists p, In p drawn_paths /\ In k (map id (path p)).
Proof. rewrite graph_ids. apply node_present. Qed.

Lemma graph_node n : In n (g_nodes drawn_graph) ->
  exists p pn, In p drawn_paths /\ In pn (path p) /\ id pn = fn_id n /\ kind pn = fn_kind n.
Proof.
  intros Hn. set (f := fun n => (fn_id n, fn_kind n)).
  assert (Hin : In (f n) (map f node_list)).
  { eapply Permutation_in; [by apply (graph_nodes_view f)|]. by apply in_map. }
  apply in_map_iff in Hin as (n' & He & Hn'). injection He as <- <-.
  apply in_map_iff in Hn' as ([k n''] & <- & Hn'). cbn [snd].
  by apply node_origin in Hn' as (-> & ?).
Qed.

Lemma graph_value n : In n (g_nodes drawn_graph) -> safe_num (fn_value n) (through metric drawn_paths (fn_id n)).
Proof.
  intros Hn. set (f := fun n => (fn_id n, fn_value n)).
  assert (Hin : In (f n) (map f node_list)).
  { eapply Permutation_in; [by apply (graph_nodes_view f)|]. by apply in_map. }
  apply in_map_iff in Hin as (n' & He & Hn'). injection He as Hid Hv. rewrite <- Hid, <- Hv.
  apply in_map_iff in Hn' as ([k n''] & <- & Hn'). cbn [snd].
  pose proof (node_origin _ _ _ _ _ Hn') as [-> _].
  apply (node_total metric drawn_color drawn_stages _ (proj1 (stages_ok role visibleStages)) drawn_shaped drawn_whole drawn_sum _ _ Hn').
Qed.

Lemma graph_flow n : In n (g_nodes drawn_graph) ->
  (head drawn_stages <> Some (fn_kind n) -> inflow drawn_graph (fn_id n) = through metric drawn_paths (fn_id n))
  /\ (list.last drawn_stages <> Some (fn_kind n) ->
      outflow drawn_graph (fn_id n) = through metric drawn_paths (fn_id n)).
Proof.
  intros (p & pn & Hp & Hpn & <- & <-)%graph_node. unfold inflow, outflow. split; intros Hk.
  - rewrite (graph_links_sum (fun _ t => str_eqb (id pn) t)).
    apply (links_into metric drawn_color drawn_stages) with (p := p); try done;
      [apply stages_ok|apply drawn_shaped|apply drawn_whole|apply drawn_sum|apply drawn_no_nul].
  - rewrite (graph_links_sum (fun s _ => str_eqb (id pn) s)).
    apply (links_from metric drawn_color drawn_stages) with (p := p); try done;
      [apply stages_ok|apply drawn_shaped|apply drawn_whole|apply drawn_sum|apply drawn_no_nul].
Qed.
End graph.

(** ** The diagram conserves what it shows *)

(** C4. For rows with whole, not negative amounts of a metric whose sum is a safe integer, and ids
    without the separator of link keys: the nodes drawn are those on a drawn path, each once,
    the value of a node is the exact sum of the paths through it, what flows into a node, unless it
    is in the first column, and what flows out of it, unless it is in the last one, is its value;
    every link's share is its value over the sum of all drawn paths; and when items beyond the
    display limit are merged, that sum is the metric of the summary, the sum of all rows. *)
Theorem flow_conserved rows metric role palette visibleStages ctx options :
  (forall row, In row rows -> whole (metricValue (rowMetrics row) metric)) ->
  zsum (fun row => amount (metricValue (rowMetrics row) metric)) rows <= max_safe ->
  (forall row stage, In row rows -> ~ In 0%N (id (NODE_BUILDERS stage row ctx))) ->
  let stages := resolveVisibleStages role visibleStages in
  let paths := prepare_paths rows metric stages ctx options in
  let g := buildFlowGraph rows metric role palette visibleStages ctx options in
  List.NoDup (map fn_id (g_nodes g))
  /\ (forall k, In k (map fn_id (g_nodes g)) <-> exists p, In p paths /\ In k (map id (path p)))
  /\ (forall n, In n (g_nodes g) ->
        safe_num (fn_value n) (through metric paths (fn_id n))
        /\ (head stages <> Some (fn_kind n) -> inflow g (fn_id n) = through metric paths (fn_id n))
        /\ (list.last stages <> Some (fn_kind n) -> outflow g (fn_id n) = through metric paths (fn_id n)))
  /\ (exists total, safe_num total (zsum (carries metric) paths)
        /\ forall l, In l (g_links g) ->
             fl_share l = if n_gtb total n_zero then n_div (fl_value l) total else n_zero)
  /\ (go_overflowMode options <> Some OHide ->
        safe_num (metricValue (buildSummary rows) metric) (zsum (carries metric) paths)).
Proof.
  intros Hw Hs Hnul stages paths g.
  split; [by apply (graph_ids_nodup rows metric role palette visibleStages ctx options)|].
  split; [by apply (graph_ids_drawn rows metric role palette visibleStages ctx options)|].
  split; [|split].
  - intros n Hn. split; [by apply (graph_value rows metric role palette visibleStages ctx options)|].
    by apply (graph_flow rows metric role palette visibleStages ctx options).
  - eexists. split; [by apply (total_links rows metric role palette visibleStages ctx options)|].
    apply share_of.
  - intros Hmode. change paths with (drawn_paths rows metric role visibleStages ctx options).
    rewrite aggregate_sum by done. by apply summary_safe.
Qed.
End flow.

(** ** A sample *)

Definition sample_collation : Collation := {| locale_leb := str_leb |}.
Definition sample_scheme : ChartScheme :=
  {| dataScheme := [(Some (n_of_Z 10), [VStr (js "#1664FF"); VStr (js "#1AC6FF")])] |}.

(** A row of a user, group, model and channel, with its quota. *)
Definition sample_row (user : Z) (group model : string) (channel : Z) (q : Z) : FlowQuotaDataItem :=
  FlowRow (Some (n_of_Z user)) (Some (js "name")) None (Some (js group)) None None (Some (n_of_Z channel))
    None (Some (js model)) None None (Some (n_of_Z q)).
Definition sample_rows : list FlowQuotaDataItem :=
  [sample_row 1 "vip" "gpt" 7 100; sample_row 1 "vip" "gpt" 8 50; sample_row 2 "default" "claude" 7 70].
Definition sample_options : FlowGraphOptions := GraphOptions (Some (n_of_Z 1)) None None None None false.

(** Three rows and a display limit of one: the other channel and the other user are merged. *)
Lemma flow_conserved_witness :
  let g := @buildFlowGraph sample_collation sample_scheme sample_rows MQuota RAdmin None None None sample_options in
  length (g_nodes g) = 8%nat
  /\ forall n, In n (g_nodes g) -> fn_kind n = KModel -> inflow g (fn_id n) = outflow g (fn_id n).
Proof.
  cbv zeta. split; [vm_compute; reflexivity|].
  assert (H1 : forall row, In row sample_rows -> whole (metricValue (rowMetrics row) MQuota)).
  { intros row [<-|[<-|[<-|[]]]]; vm_compute; repeat split; discriminate. }
  assert (H2 : zsum (fun row => amount (metricValue (rowMetrics row) MQuota)) sample_rows <= max_safe)
    by (vm_compute; discriminate).
  assert (H3 : forall row stage, In row sample_rows -> ~ In 0%N (id (NODE_BUILDERS stage row None))).
  { intros row stage [<-|[<-|[<-|[]]]]; destruct stage; vm_compute; intuition discriminate. }
  intros n Hn Hk.
  destruct (@flow_conserved sample_collation sample_scheme sample_rows MQuota RAdmin None None None sample_options
    H1 H2 H3) as (_ & _ & H & _).
  destruct (H n Hn) as (_ & Hi & Ho). rewrite Hi, Ho by (rewrite Hk; discriminate). reflexivity.
Defined.
