(* ===== verification/DashboardViewSpec.v ===== *)
(** * The display limit and masked labels

    A drawn graph has at most the limit of nodes of a kind and one for the rest.  Masking
    changes the labels of sensitive nodes and of the ends of links at them, and nothing
    else but the order of nodes of one value. *)

From Stdlib Require Import Sorting.Permutation.
From S2P Require Import Prelude JsString JsNumber JsIntSpec JsValue JsArray JsGroup TaskExpr Currency DashboardFlow DashboardFlowSpec.

Section view.
Context {Col : Collation} {Scheme : ChartScheme} {Fmt : NumberFormat}.

(** ** A change of labels goes through the drawing of the links *)

Lemma alter_map {A B} (h : A -> B) (f : A -> A) (g : B -> B) i l :
  (forall x, g (h x) = h (f x)) -> alter g i (map h l) = map h (alter f i l).
Proof.
  intros Hh. revert i. induction l as [|x l IH]; intros [|i]; simpl; [done..|by rewrite Hh|].
  f_equal. apply IH.
Qed.

Lemma assoc_set_map {K V W} (eqb : K -> K -> bool) (h : V -> W) k v (m : list (K * V)) :
  assoc_set eqb k (h v) (map (fun e => (e.1, h e.2)) m) = map (fun e => (e.1, h e.2)) (assoc_set eqb k v m).
Proof. induction m as [|[k' v'] m IH]; [done|]. simpl. destruct (eqb k k'); simpl; [done|]. by rewrite IH. Qed.

(** A change of a link that leaves what drawing looks at. *)
Record label_change (h : DashboardFlowLink -> DashboardFlowLink) : Prop := {
  keeps_source : forall l, fl_source (h l) = fl_source l;
  keeps_target : forall l, fl_target (h l) = fl_target l;
  keeps_value : forall l, fl_value (h l) = fl_value l;
  keeps_color : forall l, fl_color (h l) = fl_color l;
  keeps_display : forall l c, set_display (h l) c = h (set_display l c);
  keeps_share : forall t l, set_share t (h l) = h (set_share t l);
}.

Section change.
Variables (h : DashboardFlowLink -> DashboardFlowLink) (Hh : label_change h).

Lemma change_key l : linkStableKey (h l) = linkStableKey l.
Proof. unfold linkStableKey. by rewrite (keeps_source h Hh), (keeps_target h Hh). Qed.

Lemma change_sorted links : array_sort by_link_ends (map h links) = map h (array_sort by_link_ends links).
Proof.
  apply array_sort_map. intros a b. unfold by_link_ends.
  by rewrite !(keeps_source h Hh), !(keeps_target h Hh).
Qed.

Lemma change_assigned links : assignLinkDisplayColors (map h links) = map h (assignLinkDisplayColors links).
Proof.
  unfold assignLinkDisplayColors. set (hp := fun e : nat * DashboardFlowLink => (e.1, h e.2)).
  set (hg := fun e : jsstr * list (nat * DashboardFlowLink) => (e.1, map hp e.2)).
  match goal with |- fold_left _ ?a _ = map h (fold_left _ ?b _) => assert (Hg : a = map hg b) end.
  { replace (imap (fun i link => (i, link)) (map h links)) with (map hp (imap (fun i link => (i, link)) links)).
    2: { etransitivity; [apply (fmap_imap (fun i link => (i, link)) hp)|]. symmetry.
         apply (imap_fmap (fun i link => (i, link)) h). }
    change (@nil (jsstr * list (nat * DashboardFlowLink))) with (map hg []) at 1.
    generalize (@nil (jsstr * list (nat * DashboardFlowLink))).
    induction (imap (fun i link => (i, link)) links) as [|e es IH]; intros m; [done|].
    cbn [map fold_left]. rewrite <- IH. f_equal. cbn [hp fst snd]. rewrite (keeps_source h Hh).
    unfold hg. rewrite assoc_get_map, <- assoc_set_map. f_equal.
    destruct (assoc_get _ _ m); [|done]. simpl. by rewrite map_app. }
  rewrite Hg. match goal with |- context [map hg ?b] => generalize b end. intros groups. clear Hg.
  revert links. induction groups as [|gr groups IH]; intros acc; [done|]. cbn [map fold_left].
  rewrite <- IH. f_equal. unfold hg. cbn [fst snd]. clear IH groups.
  assert (Hs : array_sort (fun a b => by_link_value a.2 b.2) (map hp gr.2) =
               map hp (array_sort (fun a b => by_link_value a.2 b.2) gr.2)).
  { apply array_sort_map. intros a b. unfold by_link_value, hp. cbn [snd].
    by rewrite !(keeps_value h Hh), !change_key. }
  rewrite Hs, length_map. set (sorted := array_sort _ gr.2).
  replace (imap (fun index entry => (index, entry.1)) (map hp sorted))
    with (imap (fun (index : nat) (entry : nat * DashboardFlowLink) => (index, entry.1)) sorted).
  2: { symmetry. apply (imap_fmap (fun (index : nat) (entry : nat * DashboardFlowLink) => (index, entry.1)) hp). }
  generalize (length sorted) as n. intros n. revert acc.
  induction (imap _ sorted) as [|e es IHe]; intros acc; [done|]. cbn [fold_left]. rewrite <- IHe. f_equal.
  apply alter_map. intros l. by rewrite (keeps_color h Hh), (keeps_display h Hh).
Qed.

Lemma change_highlighted nodes links sets : (forall b l, flag_link b (h l) = h (flag_link b l)) ->
  (applyFlowHighlights nodes (map h links) sets).2 = map h (applyFlowHighlights nodes links sets).2.
Proof.
  intros Hf. destruct sets as [sets|]; [|done]. simpl. rewrite !map_map. apply map_ext. intros l.
  by rewrite change_key, Hf.
Qed.

Lemma change_total ps links : first_step_total ps (map h links) = first_step_total ps links.
Proof.
  unfold first_step_total. generalize n_zero. induction links as [|l links IH]; intros x; [done|].
  cbn [map List.filter]. rewrite (keeps_source h Hh). destruct (str_mem _ _); [|done].
  cbn [fold_left]. by rewrite (keeps_value h Hh), IH.
Qed.
End change.

(** ** Masking *)

Definition mask_node (n : DashboardFlowNode) : DashboardFlowNode :=
  match masked_label n with Some l => relabel_node n l | None => n end.

(** The labels a table has for the ends of a link. *)
Definition relink (m : list (jsstr * jsstr)) (l : DashboardFlowLink) : DashboardFlowLink :=
  relabel_link l (default (fl_sourceLabel l) (assoc_get str_eqb (fl_source l) m))
    (default (fl_targetLabel l) (assoc_get str_eqb (fl_target l) m)).

Lemma relink_change m : label_change (relink m).
Proof. done. Qed.

Definition masked_by_id (nodes : list DashboardFlowNode) : list (jsstr * jsstr) :=
  fold_left (fun m node => match masked_label node with
                           | None => m
                           | Some l => assoc_set str_eqb (fn_id node) l m
                           end) nodes [].

Lemma mask_maps nodes links :
  maskFlowGraphLabels nodes links = (map mask_node nodes, map (relink (masked_by_id nodes)) links).
Proof.
  unfold maskFlowGraphLabels. fold (masked_by_id nodes). f_equal.
  destruct (masked_by_id nodes); [|done]. rewrite <- (map_id links) at 1. apply map_ext. by intros [].
Qed.

Lemma masked_by_id_get nodes n : List.NoDup (map fn_id nodes) -> In n nodes ->
  assoc_get str_eqb (fn_id n) (masked_by_id nodes) = masked_label n.
Proof.
  intros Hn Hin. unfold masked_by_id.
  enough (H : forall m, assoc_get str_eqb (fn_id n) m = None ->
    assoc_get str_eqb (fn_id n) (fold_left (fun m node => match masked_label node with
        | None => m | Some l => assoc_set str_eqb (fn_id node) l m end) nodes m) = masked_label n) by by apply H.
  assert (Hkeep : forall nodes', ~ In (fn_id n) (map fn_id nodes') -> forall m,
    assoc_get str_eqb (fn_id n) (fold_left (fun m node => match masked_label node with
        | None => m | Some l => assoc_set str_eqb (fn_id node) l m end) nodes' m)
    = assoc_get str_eqb (fn_id n) m).
  { clear. induction nodes' as [|x l IH]; intros Hx m; [done|]. cbn [fold_left map] in *.
    rewrite IH by (intros ?; apply Hx; by right). destruct (masked_label x); [|done].
    rewrite assoc_get_set_ne; [done|apply str_eqb_eq|]. intros He. apply Hx. by left. }
  induction nodes as [|x l IH]; intros m Hm; [done|]. cbn [fold_left map] in *.
  inversion Hn as [|? ? Hx Hl]; subst. destruct Hin as [->|Hin].
  - rewrite Hkeep by done. destruct (masked_label n); [|done]. apply assoc_get_set_eq, str_eqb_eq.
  - apply IH; [done..|]. destruct (masked_label x); [|done]. rewrite assoc_get_set_ne; [done|apply str_eqb_eq|].
    intros He. apply Hx. rewrite <- He. by apply in_map.
Qed.

Lemma masked_by_id_none nodes i : (forall n, In n nodes -> fn_id n = i -> masked_label n = None) ->
  assoc_get str_eqb i (masked_by_id nodes) = None.
Proof.
  intros Hnone. unfold masked_by_id.
  enough (H : forall m, assoc_get str_eqb i m = None ->
    assoc_get str_eqb i (fold_left (fun m node => match masked_label node with
        | None => m | Some l => assoc_set str_eqb (fn_id node) l m end) nodes m) = None) by by apply H.
  induction nodes as [|x l IH]; intros m Hm; [done|]. cbn [fold_left].
  apply IH; [intros n Hn; apply Hnone; by right|]. destruct (masked_label x) eqn:E; [|done].
  rewrite assoc_get_set_ne; [done|apply str_eqb_eq|]. intros He.
  rewrite (Hnone x) in E; [done|by left|done].
Qed.

Definition with_mask (b : bool) (o : FlowGraphOptions) : FlowGraphOptions :=
  GraphOptions (go_topNodeLimit o) (go_overflowMode o) (go_otherNodeLabel o) (go_activeNode o)
    (go_activeLink o) b.

Section masked.
Variables (rows : list FlowQuotaDataItem) (metric : FlowMetric) (role : FlowRole).
Variables (palette : option (list jsstr)) (visibleStages : option (list FlowNodeKind)).
Variables (ctx : FlowPathContext) (options : FlowGraphOptions).

Definition graph_masked (b : bool) : DashboardFlowGraph :=
  buildFlowGraph rows metric role palette visibleStages ctx (with_mask b options).
Definition unmasked_nodes : list DashboardFlowNode :=
  node_list rows metric role palette visibleStages ctx (with_mask false options).

Lemma node_list_ids : List.NoDup (map fn_id unmasked_nodes).
Proof.
  unfold unmasked_nodes. rewrite node_list_keys. apply group_nodup; [apply str_eqb_eq|constructor].
Qed.

(** The two graphs differ by a change of labels. *)
Lemma masked_links :
  g_links (graph_masked true) = map (relink (masked_by_id unmasked_nodes)) (g_links (graph_masked false)).
Proof.
  unfold graph_masked. pose proof (graph_steps rows metric role palette visibleStages ctx) as Hg.
  unfold drawn_graph in Hg. rewrite !Hg. cbn [g_links]. unfold flagged_lists, masked_lists.
  cbn [go_maskSensitive with_mask]. fold unmasked_nodes. rewrite mask_maps. cbn [fst snd].
  set (h := relink (masked_by_id unmasked_nodes)).
  change (node_list rows metric role palette visibleStages ctx (with_mask true options)) with unmasked_nodes.
  change (drawn_highlights rows metric role visibleStages ctx (with_mask true options))
    with (drawn_highlights rows metric role visibleStages ctx (with_mask false options)).
  change (drawn_paths rows metric role visibleStages ctx (with_mask true options))
    with (drawn_paths rows metric role visibleStages ctx (with_mask false options)).
  change (link_list rows metric role palette visibleStages ctx (with_mask true options))
    with (link_list rows metric role palette visibleStages ctx (with_mask false options)).
  fold h. rewrite (change_highlighted h (relink_change _)) by done.
  assert (Hsame : forall nodes nodes' links sets,
    (applyFlowHighlights nodes links sets).2 = (applyFlowHighlights nodes' links sets).2) by (by intros ??? []).
  rewrite (Hsame (map mask_node unmasked_nodes) unmasked_nodes).
  rewrite (change_sorted h (relink_change _)), (change_total h (relink_change _)).
  rewrite <- (change_assigned h (relink_change _)). rewrite !map_map. done.
Qed.

Lemma masked_nodes :
  Permutation (g_nodes (graph_masked true)) (map mask_node (g_nodes (graph_masked false))).
Proof.
  unfold graph_masked. pose proof (graph_steps rows metric role palette visibleStages ctx) as Hg.
  unfold drawn_graph in Hg. rewrite !Hg. cbn [g_nodes]. rewrite !array_sort_perm. unfold flagged_lists, masked_lists.
  cbn [go_maskSensitive with_mask]. rewrite mask_maps. cbn [fst snd].
  change (node_list rows metric role palette visibleStages ctx (with_mask true options)) with unmasked_nodes.
  fold unmasked_nodes. change (drawn_highlights rows metric role visibleStages ctx (with_mask true options))
    with (drawn_highlights rows metric role visibleStages ctx (with_mask false options)).
  assert (Hflag : forall b n, flag_node b (mask_node n) = mask_node (flag_node b n)).
  { intros b n. unfold mask_node, masked_label. cbn [flag_node fn_kind fn_id fn_label].
    destruct (negb _); [done|]. by destruct (str_mem _ _). }
  destruct (drawn_highlights _ _ _ _ _ _) as [sets|]; [|done]. simpl. rewrite !map_map.
  erewrite map_ext; [reflexivity|]. intros n. cbn beta. rewrite Hflag. f_equal. f_equal. f_equal.
  unfold mask_node. by destruct (masked_label n).
Qed.

Lemma node_of_list n : In n (g_nodes (graph_masked false)) ->
  exists n', In n' unmasked_nodes /\ fn_id n' = fn_id n /\ masked_label n' = masked_label n.
Proof.
  intros Hn. pose proof (graph_steps rows metric role palette visibleStages ctx) as Hg.
  unfold graph_masked, drawn_graph in *. rewrite Hg in Hn. cbn [g_nodes] in Hn.
  apply (Permutation_in _ (array_sort_perm _ _)) in Hn. unfold flagged_lists, masked_lists in Hn.
  cbn [go_maskSensitive with_mask fst snd] in Hn. fold unmasked_nodes in Hn.
  destruct (drawn_highlights _ _ _ _ _ _) as [sets|]; [|by exists n].
  apply in_map_iff in Hn as (n' & <- & Hn). by exists n'.
Qed.

Lemma list_of_node n' : In n' unmasked_nodes ->
  exists n, In n (g_nodes (graph_masked false)) /\ fn_id n = fn_id n' /\ masked_label n = masked_label n'.
Proof.
  intros Hn. pose proof (graph_steps rows metric role palette visibleStages ctx) as Hg.
  unfold graph_masked, drawn_graph in *. rewrite Hg. cbn [g_nodes].
  setoid_rewrite <- list_elem_of_In. setoid_rewrite array_sort_perm. setoid_rewrite list_elem_of_In.
  unfold flagged_lists, masked_lists. cbn [go_maskSensitive with_mask fst snd]. fold unmasked_nodes.
  destruct (drawn_highlights _ _ _ _ _ _) as [sets|]; [|by exists n']. simpl.
  eexists. split; [apply in_map; exact Hn|done].
Qed.
End masked.

(** ** The display limit *)

Lemma set_add_length {A} (eqb : A -> A -> bool) x l : (length (set_add eqb x l) <= S (length l))%nat.
Proof. unfold set_add. destruct (existsb _ _); [lia|]. rewrite length_app. simpl. lia. Qed.

Lemma unique_keys_length l : (length (unique_keys l) <= length l)%nat.
Proof.
  unfold unique_keys. enough (H : forall acc,
    (length (fold_left (fun acc k => set_add str_eqb k acc) l acc) <= length acc + length l)%nat) by apply (H []).
  induction l as [|x l IH]; intros acc; simpl; [lia|]. rewrite IH. pose proof (set_add_length str_eqb x acc). lia.
Qed.

Lemma slice_to_length {A} limit z (l : list A) : int_value limit = Some z -> (0 <= z)%Z ->
  (Z.of_nat (length (slice_to limit l)) <= z)%Z.
Proof. intros Hz H0. unfold slice_to. rewrite Hz, length_take. lia. Qed.

(** Every stage has its totals. *)
Lemma stage_totals_kind rows metric stages ctx k : In k stages ->
  In k (map fst (stage_totals rows metric stages ctx)).
Proof.
  intros Hk. unfold stage_totals.
  assert (Hset : forall V (v : V) k' m, In k (map fst m) -> In k (map fst (assoc_set kind_eqb k' v m))).
  { intros V v k' m H. rewrite (assoc_set_map_fst kind_eqb). apply set_add_elem; [apply kind_eqb_eq|by right]. }
  assert (Hempty : forall m, In k (map fst m) \/ In k stages ->
    In k (map fst (fold_left (fun m stage => assoc_set kind_eqb stage (@nil (jsstr * FlowNodeRank)) m) stages m))).
  { clear Hk. induction stages as [|s l IH]; intros m [Hm|Hl]; cbn [fold_left]; [done|done|apply IH; left; by apply Hset|].
    destruct Hl as [->|Hl]; apply IH; [left|by right]. rewrite (assoc_set_map_fst kind_eqb).
    apply set_add_elem; [apply kind_eqb_eq|by left]. }
  specialize (Hempty [] (or_intror Hk)). revert Hempty.
  match goal with |- In k (map fst ?m) -> _ => generalize m end.
  induction rows as [|row rows' IH]; intros m Hm; [done|]. cbn [fold_left]. apply IH. revert m Hm.
  induction (flowPathForStages row stages ctx) as [|n ns IHn]; intros m Hm; [done|]. cbn [fold_left].
  apply IHn. destruct (assoc_get kind_eqb (kind n) m); [by apply Hset|done].
Qed.

Lemma fold_last {A B} (P : B -> Prop) (f : A -> B) es : forall e b,
  (forall e, P (f e)) -> P (fold_left (fun _ e => f e) (e :: es) b).
Proof. induction es as [|e' es IH]; intros e b Hf; [apply Hf|]. by apply (IH e' (f e)). Qed.

(** The nodes shown of a kind are at most as many as the limit. *)
Lemma top_sets_bounded rows metric stages limit z ctx sets k :
  buildTopNodeSets rows metric stages (Some limit) ctx = Some sets -> int_value limit = Some z -> (0 < z)%Z ->
  In k stages -> exists ids, assoc_get kind_eqb k sets = Some ids /\ (Z.of_nat (length ids) <= z)%Z.
Proof.
  intros Hs Hz H0 Hk. unfold buildTopNodeSets in Hs. destruct (_ || _); [done|]. injection Hs as <-.
  pose proof (stage_totals_kind rows metric stages ctx k Hk) as Hin.
  set (ids_of := fun e : FlowNodeKind * list (jsstr * FlowNodeRank) =>
    unique_keys (map (fun rank => id (r_node rank)) (slice_to limit (array_sort rank_after (map snd e.2))))).
  assert (Hids : forall e, (Z.of_nat (length (ids_of e)) <= z)%Z).
  { intros e. unfold ids_of. pose proof (unique_keys_length (map (fun rank => id (r_node rank))
      (slice_to limit (array_sort rank_after (map snd e.2))))) as H. rewrite length_map in H.
    pose proof (slice_to_length limit z (array_sort rank_after (map snd e.2)) Hz). lia. }
  pose proof (group_get kind_eqb fst (fun _ => []) (fun _ e => ids_of e) kind_eqb_eq k
    (stage_totals rows metric stages ctx) []) as Hg. unfold group in Hg.
  change (fold_left _ _ []) with (fold_left (fun m e => assoc_set kind_eqb (fst e) (ids_of e) m)
    (stage_totals rows metric stages ctx) []). rewrite Hg.
  destruct (having _ _ _ _) as [|e es] eqn:Eh.
  - apply in_map_iff in Hin as (e & <- & He).
    assert (H : In e (having kind_eqb fst e.1 (stage_totals rows metric stages ctx)))
      by (by apply having_in; [apply kind_eqb_eq|]). by rewrite Eh in H.
  - eexists. split; [reflexivity|]. apply (fold_last (fun ids => (Z.of_nat (length ids) <= z)%Z)); apply Hids.
Qed.

Lemma nodup_map_filter {A B} (f : A -> B) (q : A -> bool) l :
  List.NoDup (map f l) -> List.NoDup (map f (List.filter q l)).
Proof.
  induction l as [|x l IH]; intros Hn; [constructor|]. cbn [List.filter map] in *.
  inversion Hn as [|? ? Hx Hl]; subst. destruct (q x); [|by apply IH]. constructor; [|by apply IH].
  intros (y & He & [Hin _]%filter_In)%in_map_iff. apply Hx, in_map_iff. by exists y.
Qed.

(** The nodes of a drawn path are shown ones or the ones for the rest. *)
Lemma prepared_top rows metric role visibleStages ctx options p :
  In p (drawn_paths rows metric role visibleStages ctx options) ->
  forall limit sets a, normalizeTopNodeLimit (go_topNodeLimit options) = Some limit ->
  buildTopNodeSets rows metric (resolveVisibleStages role visibleStages) (Some limit) ctx = Some sets ->
  In a (path p) -> isTopFlowNode a (Some sets) = true \/ id a = OTHER_FLOW_NODE_IDS (kind a).
Proof.
  intros Hp limit sets a Hl Hs Ha. unfold drawn_paths, prepare_paths, drawn_stages in Hp. rewrite Hl, Hs in Hp.
  apply list_elem_of_In, list_elem_of_omap in Hp as (row & _ & H).
  destruct (applyTopNodeLimit _ _ _ _) as [q|] eqn:E; [|done]. injection H as <-. cbn [path] in Ha.
  unfold applyTopNodeLimit in E. destruct (existsb _ _) eqn:Ex; cbn [negb] in E.
  - destruct (default OAggregate _); [apply (inj Some) in E as <-|done].
    apply in_map_iff in Ha as (n & <- & _). destruct (isTopFlowNode n (Some sets)) eqn:Et; [left; exact Et|by right].
  - injection E as <-. left. rewrite existsb_false_iff in Ex. specialize (Ex a Ha). by apply negb_false_iff.
Qed.

(** A drawn graph has, of a kind, at most the nodes of the limit and the one for the rest. *)
Lemma display_limit rows metric role palette visibleStages ctx options limit z k :
  normalizeTopNodeLimit (go_topNodeLimit options) = Some limit -> int_value limit = Some z -> (0 < z)%Z ->
  let g := buildFlowGraph rows metric role palette visibleStages ctx options in
  (Z.of_nat (length (List.filter (fun n => kind_eqb (fn_kind n) k) (g_nodes g))) <= z + 1)%Z.
Proof.
  intros Hl Hz H0 g. change g with (drawn_graph rows metric role palette visibleStages ctx options).
  set (nodes := List.filter _ _). destruct nodes as [|n0 ns] eqn:En; [simpl; lia|]. rewrite <- En. subst nodes.
  assert (Hmem : forall n, In n (List.filter (fun n => kind_eqb (fn_kind n) k)
      (g_nodes (drawn_graph rows metric role palette visibleStages ctx options))) ->
      exists p a, In p (drawn_paths rows metric role visibleStages ctx options) /\ In a (path p)
        /\ id a = fn_id n /\ kind a = k).
  { intros n [Hn Hk%kind_eqb_eq]%filter_In. apply graph_node in Hn as (p & a & Hp & Ha & Hi & Hka).
    exists p, a. by rewrite Hka. }
  destruct (Hmem n0) as (p0 & a0 & Hp0 & Ha0 & _ & Hk0); [rewrite En; by left|].
  assert (Hstage : In k (resolveVisibleStages role visibleStages)).
  { apply drawn_shaped in Hp0 as [Hm _]. unfold drawn_stages in Hm. rewrite <- Hm, <- Hk0. by apply in_map. }
  destruct (buildTopNodeSets rows metric (resolveVisibleStages role visibleStages) (Some limit) ctx) as [sets|] eqn:Es.
  2: { unfold buildTopNodeSets in Es. destruct (_ || _) eqn:Eb; [|done]. exfalso.
       destruct limit as [| | |s m e]; [by injection Hz as <-|done..|]. by destruct s. }
  destruct (top_sets_bounded _ _ _ _ _ _ _ _ Es Hz H0 Hstage) as (ids & Hids & Hlen).
  enough (length (List.filter (fun n => kind_eqb (fn_kind n) k)
      (g_nodes (drawn_graph rows metric role palette visibleStages ctx options))) <= length (OTHER_FLOW_NODE_IDS k :: ids))%nat
    by (simpl in *; lia).
  rewrite <- (length_map fn_id). apply NoDup_incl_length.
  - apply nodup_map_filter, graph_ids_nodup.
  - intros i (n & <- & Hn)%in_map_iff. destruct (Hmem n Hn) as (p & a & Hp & Ha & <- & Hk).
    destruct (prepared_top _ _ _ _ _ _ p Hp limit sets a Hl Es Ha) as [Htop|Ho].
    + right. unfold isTopFlowNode in Htop. rewrite Hk, Hids in Htop. by apply str_mem_In.
    + left. by rewrite <- Hk, Ho.
Qed.

(** A label that tells nothing. *)
Definition covered (l : jsstr) : Prop := l = [] \/ l = FLOW_MASK_TEXT.

(** A node whose label has to be masked. *)
Definition secret (n : DashboardFlowNode) : Prop :=
  fn_kind n <> KModel /\ ~ In (fn_id n) OTHER_FLOW_NODE_ID_SET.

Lemma secret_masked n : secret n -> masked_label n = Some (maskFlowLabel (fn_label n)).
Proof.
  intros [Hk Ho]. unfold masked_label. destruct (str_mem _ _) eqn:E; [by apply str_mem_In in E|].
  by destruct (fn_kind n).
Qed.

Lemma mask_covered l : covered (maskFlowLabel l).
Proof. unfold covered, maskFlowLabel. destruct l; simpl; auto. Qed.

Lemma mask_node_id n : fn_id (mask_node n) = fn_id n /\ fn_kind (mask_node n) = fn_kind n.
Proof. unfold mask_node. by destruct (masked_label n). Qed.

Lemma open_unmasked n : ~ secret n -> masked_label n = None.
Proof.
  intros Hs. unfold masked_label. destruct (str_mem _ _) eqn:E; [by case_match|].
  destruct (decide (fn_kind n = KModel)) as [->|Hk']; [done|]. exfalso. apply Hs. split; [done|].
  intros H%str_mem_In. congruence.
Qed.

#[local] Instance secret_dec n : Decision (secret n).
Proof.
  unfold secret. destruct (decide (fn_kind n = KModel)); [right; by intros []|].
  destruct (str_mem (fn_id n) OTHER_FLOW_NODE_ID_SET) eqn:E.
  - right. intros [_ H]. apply H. by apply str_mem_In.
  - left. split; [done|]. intros H%str_mem_In. congruence.
Defined.

(** The label [l'] of the end [i] of a link whose label was [l]: covered where a secret
    node of the graph has this id, and the one it was elsewhere. *)
Definition end_label (nodes : list DashboardFlowNode) (i l l' : jsstr) : Prop :=
  (exists n, In n nodes /\ fn_id n = i /\ secret n /\ l' = maskFlowLabel (fn_label n))
  \/ ((forall n, In n nodes -> fn_id n = i -> ~ secret n) /\ l' = l).

Lemma masked_end rows metric role palette visibleStages ctx options i l :
  end_label (g_nodes (graph_masked rows metric role palette visibleStages ctx options false)) i l
    (default l (assoc_get str_eqb i (masked_by_id (unmasked_nodes rows metric role palette visibleStages ctx options)))).
Proof.
  pose proof (list_of_node rows metric role palette visibleStages ctx options) as Hto.
  pose proof (node_of_list rows metric role palette visibleStages ctx options) as Hfrom.
  pose proof (fun n => masked_by_id_get _ n (node_list_ids rows metric role palette visibleStages ctx options)) as Hget.
  set (nodes := g_nodes _) in *. set (un := unmasked_nodes _ _ _ _ _ _ _) in *.
  destruct (decide (Exists (fun n => fn_id n = i /\ secret n) nodes)) as [He|He].
  - left. apply List.Exists_exists in He as (n & Hn & <- & Hs). exists n. split_and!; [done..|].
    destruct (Hfrom n Hn) as (n1 & Hn1 & Hid & Hm). by rewrite <- Hid, Hget, Hm, secret_masked.
  - right. assert (Hno : forall n, In n nodes -> fn_id n = i -> ~ secret n).
    { intros n Hn Hi Hs. apply He, List.Exists_exists. by exists n. }
    split; [exact Hno|]. rewrite masked_by_id_none; [done|]. intros n1 Hn1 Hi.
    destruct (Hto n1 Hn1) as (n & Hn & Hid & Hm). rewrite <- Hm. apply open_unmasked, Hno; congruence.
Qed.

(** C15. Masking covers every secret and changes nothing else: of the nodes and links of the
    plain graph the masked one has the same, the links in the same order, except for labels.
    The label of a user, node, token, group or channel that is not the item for merged ones is
    masked, as that of every end of a link at such a node; a model or a merged item is kept as
    it is, as the label of every other end of a link. *)
Theorem masking_covers rows metric role palette visibleStages ctx options :
  let plain := buildFlowGraph rows metric role palette visibleStages ctx (with_mask false options) in
  let masked := buildFlowGraph rows metric role palette visibleStages ctx (with_mask true options) in
  Permutation (map (fun n => relabel_node n []) (g_nodes masked)) (map (fun n => relabel_node n []) (g_nodes plain))
  /\ (forall n, In n (g_nodes masked) -> (secret n -> covered (fn_label n)) /\ (~ secret n -> In n (g_nodes plain)))
  /\ Forall2 (fun l l' => relabel_link l' [] [] = relabel_link l [] []
       /\ end_label (g_nodes plain) (fl_source l) (fl_sourceLabel l) (fl_sourceLabel l')
       /\ end_label (g_nodes plain) (fl_target l) (fl_targetLabel l) (fl_targetLabel l'))
     (g_links plain) (g_links masked).
Proof.
  intros plain masked.
  pose proof (masked_nodes rows metric role palette visibleStages ctx options) as Hnodes.
  pose proof (masked_links rows metric role palette visibleStages ctx options) as Hlinks.
  pose proof (masked_end rows metric role palette visibleStages ctx options) as Hend.
  unfold graph_masked in Hnodes, Hlinks, Hend. fold plain masked in Hnodes, Hlinks, Hend.
  split; [|split].
  - rewrite Hnodes, map_map. erewrite map_ext; [reflexivity|]. intros n. cbn beta.
    unfold mask_node. by destruct (masked_label n).
  - intros n Hn. apply (Permutation_in _ Hnodes), in_map_iff in Hn as (n0 & <- & Hn0).
    destruct (mask_node_id n0) as [Hi Hk]. unfold secret at 1 2. rewrite Hi, Hk. fold (secret n0).
    unfold mask_node. split; intros Hs.
    + rewrite secret_masked by done. apply mask_covered.
    + by rewrite open_unmasked.
  - rewrite Hlinks. apply Forall2_fmap_r, Forall_Forall2_diag, list.Forall_forall. intros l _.
    split; [done|]. split; apply Hend.
Qed.
End view.

Definition sample_options_all : FlowGraphOptions := GraphOptions None None None None None false.

(** Nodes of one value are sorted by their labels, which masking makes equal: the order of the
    nodes is not that of the plain graph. *)
Lemma masking_reorders :
  let rows := [sample_row 2 "b" "m" 1 5; sample_row 2 "a" "m" 1 5] in
  let order b := map fn_id (g_nodes (@buildFlowGraph sample_collation sample_scheme rows MQuota RAdmin None
    (Some [KGroup; KModel]) None (with_mask b sample_options_all))) in
  order false = [js "model:m"; js "group:a"; js "group:b"]
  /\ order true = [js "model:m"; js "group:b"; js "group:a"].
Proof. split; vm_compute; reflexivity. Qed.
