(* ===== verification/FlowCharts.v ===== *)
(** * The flow chart and its controls

    The data of the Sankey chart ([buildFlowSankeySpec] of [flow.ts]) with the functions
    that read a datum of the chart, and the component [FlowCharts]
    ([components/flow/flow-charts.tsx]) as a state with one function for each control, the
    press on the chart and the effect that follows a change of the columns.

    An object of the chart library is a [jsval]; the members the code reads are not
    inherited.  The style functions of the chart are definitions of a datum. *)

From S2P Require Import Prelude JsString JsNumber JsValue JsArray TaskExpr Currency DashboardFlow.

(** ** Reading a datum *)

(** [recordValue(value)] and [chartRecordValue(value)]; an array has none of the members read. *)
Definition recordValue (value : jsval) : option (list (jsstr * jsval)) :=
  match value with
  | VObj o => Some o
  | VArr _ => Some []
  | _ => None
  end.

Definition member (o : list (jsstr * jsval)) (key : jsstr) : jsval := default VUndef (prop_get key o).

Definition is_undefined (v : jsval) : bool := match v with VUndef => true | _ => false end.

(** [list\[x\]] for a number [x]. *)
Definition element_at (l : list jsval) (x : num) : jsval :=
  match int_value x with
  | Some z => if Z.leb 0 z then nth (Z.to_nat (Z.min z (Z.of_nat (length l)))) l VUndef else VUndef
  | None => VUndef
  end.

Definition sankeyDatumSource (datum : list (jsstr * jsval)) : list (jsstr * jsval) :=
  match member datum (js "datum") with
  | VArr nested =>
      let depth := numberValue (member datum (js "depth")) in
      match recordValue (element_at nested depth) with
      | Some r => r
      | None => default datum (recordValue (nth 0 nested VUndef))
      end
  | nested => default datum (recordValue nested)
  end.

Definition sankeyDatumValue (datum : list (jsstr * jsval)) (key : jsstr) : jsval :=
  if negb (is_undefined (member datum key)) then member datum key
  else member (sankeyDatumSource datum) key.

Definition sankeyDatumFlag (datum : list (jsstr * jsval)) (key : jsstr) : bool :=
  strict_eqb (sankeyDatumValue datum key) (VBool true).

Definition flowSankeyDatumValue (datum : jsval) (key : jsstr) : jsval :=
  match recordValue datum with Some r => sankeyDatumValue r key | None => VUndef end.

Definition isSankeyLinkDatum (datum : list (jsstr * jsval)) : bool :=
  negb (is_undefined (sankeyDatumValue datum (js "source")))
  && negb (is_undefined (sankeyDatumValue datum (js "target"))).

Definition flowNodeFilterFromSankeyDatum (datum : jsval) : option FlowNodeFilter :=
  let! record := recordValue datum in
  if isSankeyLinkDatum record then None
  else
    let id := sankeyDatumValue record (js "key") in
    let! kind := isFlowNodeKind (sankeyDatumValue record (js "kind")) in
    match id with
    | VStr _ | VNum _ => Some (NodeFilter kind (string_of_value id))
    | _ => None
    end.

(** ** The data of the chart *)

Definition flag_value (o : option bool) : jsval := match o with Some b => VBool b | None => VUndef end.

Definition sankey_node (node : DashboardFlowNode) : jsval :=
  VObj [(js "key", VStr (fn_id node));
        (js "name", VStr (fn_label node));
        (js "rawLabel", VStr (fn_label node));
        (js "kind", VStr (kind_text (fn_kind node)));
        (js "value", VNum (fn_value node));
        (js "requests", VNum (fn_requests node));
        (js "quota", VNum (fn_quota node));
        (js "tokens", VNum (fn_tokens node));
        (js "color", VStr (fn_color node));
        (js "colorKey", VStr (fn_colorKey node));
        (js "highlighted", flag_value (fn_highlighted node));
        (js "dimmed", flag_value (fn_dimmed node))].

Definition is_flagged (o : option bool) : bool := match o with Some b => b | None => false end.

(** The drawing order of the link at an index of the sorted links. *)
Definition link_zIndex (index : nat) (link : DashboardFlowLink) : num :=
  if is_flagged (fl_highlighted link) then n_add (n_of_Z 1000000) (n_of_nat index)
  else if is_flagged (fl_dimmed link) then n_of_nat index
  else n_add (n_of_Z 100000) (n_of_nat index).

Definition sankey_link (index : nat) (link : DashboardFlowLink) : jsval :=
  VObj [(js "source", VStr (fl_source link));
        (js "target", VStr (fl_target link));
        (js "linkKey", VStr (linkStableKey link));
        (js "sourceLabel", VStr (fl_sourceLabel link));
        (js "targetLabel", VStr (fl_targetLabel link));
        (js "value", VNum (fl_value link));
        (js "requests", VNum (fl_requests link));
        (js "quota", VNum (fl_quota link));
        (js "tokens", VNum (fl_tokens link));
        (js "color", VStr (fl_color link));
        (js "linkColor", VStr (fl_linkColor link));
        (js "linkAlpha", VNum (fl_linkAlpha link));
        (js "hoverColor", VStr (fl_hoverColor link));
        (js "colorKey", VStr (fl_colorKey link));
        (js "share", VNum (fl_share link));
        (js "highlighted", flag_value (fl_highlighted link));
        (js "dimmed", flag_value (fl_dimmed link));
        (js "zIndex", VNum (link_zIndex index link))].

Section chart.
Context {Col : Collation} {Scheme : ChartScheme} {Fmt : NumberFormat}.

Definition sankey_nodes (flow : DashboardFlowGraph) : list jsval := map sankey_node (g_nodes flow).
Definition sankey_links (flow : DashboardFlowGraph) : list jsval :=
  imap sankey_link
    (array_sort byLinkDrawPriority
       (List.filter (fun link => n_gtb (fl_value link) n_zero) (g_links flow))).

(** [linkSortBy(a, b) > 0] *)
Definition linkSortBy (a b : list (jsstr * jsval)) : bool :=
  let text o k := match member o k with VUndef | VNull => [] | v => string_of_value v end in
  let ends o := text o (js "source") ++ [0%N] ++ text o (js "target") in
  or_diff (n_sub (numberValue (member b (js "value"))) (numberValue (member a (js "value"))))
    (or_locale (ends a) (ends b)
       (n_gtb (n_sub (numberValue (member a (js "index"))) (numberValue (member b (js "index")))) n_zero)).

(** [a ?? b] *)
Definition nullish_or (a b : jsval) : jsval := if is_nullish a then b else a.

Definition node_fill (datum : list (jsstr * jsval)) : jsstr :=
  string_of_value (nullish_or (sankeyDatumValue datum (js "color")) (VStr (colorAt 0 None))).

Definition node_fillOpacity (datum : list (jsstr * jsval)) : num :=
  if sankeyDatumFlag datum (js "dimmed") then n_dec "0.18"
  else if sankeyDatumFlag datum (js "highlighted") then n_of_Z 1
  else n_dec "0.92".

Definition link_fill (datum : list (jsstr * jsval)) : jsstr :=
  string_of_value (nullish_or (sankeyDatumValue datum (js "linkColor"))
    (nullish_or (sankeyDatumValue datum (js "color")) (VStr (colorAt 0 None)))).

Definition link_fillOpacity (datum : list (jsstr * jsval)) : num :=
  if sankeyDatumFlag datum (js "dimmed") then n_dec "0.08"
  else if sankeyDatumFlag datum (js "highlighted") then n_dec "0.86"
  else
    let alpha := numberValue (sankeyDatumValue datum (js "linkAlpha")) in
    if n_eqb alpha n_zero || is_nan alpha then n_of_Z 1 else alpha.

Definition link_zIndex_of (datum : list (jsstr * jsval)) : num :=
  let zIndex := sankeyDatumValue datum (js "zIndex") in
  if negb (is_undefined zIndex) then numberValue zIndex
  else n_sub (n_of_Z 1000000000) (numberValue (sankeyDatumValue datum (js "value"))).

Definition tooltip_visible (datum : list (jsstr * jsval)) : bool :=
  isSankeyLinkDatum datum || negb (is_undefined (sankeyDatumValue datum (js "key"))).

Definition tooltip_title (datum : list (jsstr * jsval)) : jsstr :=
  let source := sankeyDatumValue datum (js "source") in
  let target := sankeyDatumValue datum (js "target") in
  if truthy source && truthy target then
    string_of_value (nullish_or (sankeyDatumValue datum (js "sourceLabel")) source)
    ++ js " -> " ++ string_of_value (nullish_or (sankeyDatumValue datum (js "targetLabel")) target)
  else
    string_of_value (nullish_or (sankeyDatumValue datum (js "name"))
      (nullish_or (sankeyDatumValue datum (js "rawLabel")) (VStr []))).

(** The lines of the tooltip: the name, the text, and whether the line shows. *)
Definition tooltipMetricLines (valueFormatter : num -> jsstr) (labels : jsstr * jsstr * jsstr * jsstr)
  (datum : list (jsstr * jsval)) : list (jsstr * jsstr * bool) :=
  let '(quota_label, tokens_label, requests_label, share_label) := labels in
  let metricValue key := numberValue (sankeyDatumValue datum key) in
  [(quota_label, valueFormatter (metricValue (js "quota")), true);
   (tokens_label, formatNumber (metricValue (js "tokens")), true);
   (requests_label, formatNumber (metricValue (js "requests")), true);
   (share_label, to_fixed 1 (n_mul (metricValue (js "share")) (n_of_Z 100)) ++ js "%",
    n_gtb (metricValue (js "share")) n_zero)].

(** ** Pointer events *)

Definition looksLikeFlowDatum (value : jsval) : bool :=
  match recordValue value with
  | None => false
  | Some record =>
      (negb (is_undefined (member record (js "key"))) && negb (is_undefined (member record (js "kind"))))
      || (negb (is_undefined (member record (js "source")))
          && negb (is_undefined (member record (js "target"))))
  end.

(** [chartRecordValue(v)?.key] *)
Definition member_of (v : jsval) (key : jsstr) : jsval :=
  match recordValue v with Some r => member r key | None => VUndef end.

(** [Array.isArray(data) ? data\[0\] : data] *)
Definition first_of (data : jsval) : jsval := match data with VArr l => nth 0 l VUndef | _ => data end.

Definition chartGraphicDatum (value : jsval) : jsval :=
  first_of (member_of (member_of value (js "context")) (js "data")).

Definition flowChartEventDatum (event : jsval) : jsval :=
  match recordValue event with
  | None => VUndef
  | Some record =>
      let datum := member record (js "datum") in
      let item := member record (js "item") in
      let itemData := member_of item (js "data") in
      if negb (is_nullish datum) then datum
      else if negb (is_nullish (member_of item (js "datum"))) then member_of item (js "datum")
      else if negb (is_nullish (chartGraphicDatum item)) then chartGraphicDatum item
      else match itemData with
           | VArr l => nth 0 l VUndef
           | _ =>
               if negb (is_nullish itemData) then itemData
               else if looksLikeFlowDatum event then event else VUndef
           end
  end.

(** ** The component *)

Definition filter_eqb (a b : FlowNodeFilter) : bool :=
  kind_eqb (f_kind a) (f_kind b) && str_eqb (f_id a) (f_id b).

Definition isSameFlowNodeFilter (a : option FlowNodeFilter) (b : FlowNodeFilter) : bool :=
  match a with Some a => filter_eqb a b | None => false end.

Definition toggleSelectedValue (values : list jsstr) (value : jsstr) : list jsstr :=
  if str_mem value values then List.filter (fun item => negb (str_eqb item value)) values
  else values ++ [value].

Definition toggleSelectedNodeFilter (filters : list FlowNodeFilter) (filter : FlowNodeFilter)
  : list FlowNodeFilter :=
  let key := nodeFilterKey filter in
  if existsb (fun item => str_eqb (nodeFilterKey item) key) filters
  then List.filter (fun item => negb (str_eqb (nodeFilterKey item) key)) filters
  else filters ++ [filter].

(** [user?.role] and the thresholds of [lib/roles.ts]. *)
Definition ROLE_ADMIN : num := n_of_Z 10.
Definition ROLE_SUPER_ADMIN : num := n_of_Z 100.

Definition flow_role (role : option num) : FlowRole :=
  match role with
  | None => RUser
  | Some r =>
      if n_geb r ROLE_SUPER_ADMIN then RRoot
      else if n_geb r ROLE_ADMIN then RAdmin else RUser
  end.

(** The state, with the role of the user; [stages_changed] tells that the visible columns
    changed since the effect ran. *)
Record flow_view := FlowView {
  v_role : FlowRole;
  v_metric : FlowMetric;
  v_topNodeLimit : num;
  v_overflowMode : FlowOverflowMode;
  v_selectedUsers : list jsstr;
  v_selectedNodes : list FlowNodeFilter;
  v_activeNode : option FlowNodeFilter;
  v_activeLink : option FlowLinkSelection;
  v_hiddenStages : list FlowNodeKind;
  stages_changed : bool;
}.

Definition initial_view (role : FlowRole) : flow_view :=
  FlowView role MQuota (n_of_Z 50) OAggregate [] [] None None [] true.

Definition visible_stages (v : flow_view) : list FlowNodeKind :=
  List.filter (fun stage => negb (kind_mem stage (v_hiddenStages v))) (getFlowStages (v_role v)).

Definition with_active (node : option FlowNodeFilter) (link : option FlowLinkSelection) (v : flow_view)
  : flow_view :=
  FlowView (v_role v) (v_metric v) (v_topNodeLimit v) (v_overflowMode v) (v_selectedUsers v)
    (v_selectedNodes v) node link (v_hiddenStages v) (stages_changed v).

Definition with_selection (users : list jsstr) (nodes : list FlowNodeFilter) (v : flow_view) : flow_view :=
  FlowView (v_role v) (v_metric v) (v_topNodeLimit v) (v_overflowMode v) users nodes
    (v_activeNode v) (v_activeLink v) (v_hiddenStages v) (stages_changed v).

Definition with_columns (role : FlowRole) (hidden : list FlowNodeKind) (v : flow_view) : flow_view :=
  FlowView role (v_metric v) (v_topNodeLimit v) (v_overflowMode v) (v_selectedUsers v)
    (v_selectedNodes v) (v_activeNode v) (v_activeLink v) hidden true.

(** The effect on [visibleStages]. *)
Definition stages_effect (v : flow_view) : flow_view :=
  let visible k := kind_mem k (visible_stages v) in
  FlowView (v_role v) (v_metric v) (v_topNodeLimit v) (v_overflowMode v) (v_selectedUsers v)
    (List.filter (fun filter => visible (f_kind filter)) (v_selectedNodes v))
    (match v_activeNode v with
     | Some n => if visible (f_kind n) then Some n else None
     | None => None
     end) None (v_hiddenStages v) false.

Definition MIN_VISIBLE_STAGES : nat := 2.

Definition toggleStage (stage : FlowNodeKind) (v : flow_view) : flow_view :=
  let stages := getFlowStages (v_role v) in
  let hidden := v_hiddenStages v in
  if kind_mem stage hidden then
    with_columns (v_role v)
      (List.filter (fun item => kind_mem item hidden && negb (kind_eqb item stage)) stages) v
  else
    let remaining := length (List.filter (fun item => negb (kind_mem item hidden)) stages) in
    if Nat.leb remaining MIN_VISIBLE_STAGES then v
    else with_columns (v_role v)
           (List.filter (fun item => kind_mem item hidden || kind_eqb item stage) stages) v.

Definition toggleFlowNodeFilter (filter : FlowNodeFilter) (v : flow_view) : flow_view :=
  if kind_eqb (f_kind filter) KUser
  then with_selection (toggleSelectedValue (v_selectedUsers v) (f_id filter)) (v_selectedNodes v) v
  else with_selection (v_selectedUsers v) (toggleSelectedNodeFilter (v_selectedNodes v) filter) v.

Definition removeFlowNodeFilter (filter : FlowNodeFilter) (v : flow_view) : flow_view :=
  if kind_eqb (f_kind filter) KUser
  then with_selection
         (List.filter (fun item => negb (str_eqb item (f_id filter))) (v_selectedUsers v))
         (v_selectedNodes v) v
  else with_selection (v_selectedUsers v)
         (List.filter (fun item => negb (str_eqb (nodeFilterKey item) (nodeFilterKey filter)))
            (v_selectedNodes v)) v.

Definition clearFlowNodeFilters (v : flow_view) : flow_view := with_selection (v_selectedUsers v) [] v.

Definition handleChartPointerDown (event : jsval) (v : flow_view) : flow_view :=
  let datum := flowChartEventDatum event in
  match flowNodeFilterFromSankeyDatum datum with
  | Some filter =>
      with_active (if isSameFlowNodeFilter (v_activeNode v) filter then None else Some filter) None v
  | None =>
      match flowSankeyDatumValue datum (js "source"), flowSankeyDatumValue datum (js "target") with
      | VStr source, VStr target =>
          let same := match v_activeLink v with
                      | Some prev => str_eqb (s_source prev) source && str_eqb (s_target prev) target
                      | None => false
                      end in
          with_active None (if same then None else Some (LinkSelection source target)) v
      | _, _ => with_active None None v
      end
  end.

(** What the user does, and what React does on its own. *)
Inductive view_event : Type :=
| SetMetric (metric : FlowMetric)
| SetTopNodeLimit (limit : num)
| SetOverflowMode (mode : FlowOverflowMode)
| SetSelectedUsers (users : list jsstr)
| ToggleNodeFilter (filter : FlowNodeFilter)
| RemoveNodeFilter (filter : FlowNodeFilter)
| ClearNodeFilters
| PointerDown (event : jsval)
| ToggleStage (stage : FlowNodeKind)
| RoleChanges (role : option num)
| StagesEffect.

(** A role that stays the same leaves the memo of the columns as it is; the effect runs only
    after the columns changed. *)
Definition view_step (e : view_event) (v : flow_view) : flow_view :=
  match e with
  | SetMetric m =>
      FlowView (v_role v) m (v_topNodeLimit v) (v_overflowMode v) (v_selectedUsers v)
        (v_selectedNodes v) (v_activeNode v) (v_activeLink v) (v_hiddenStages v) (stages_changed v)
  | SetTopNodeLimit limit =>
      FlowView (v_role v) (v_metric v) limit (v_overflowMode v) (v_selectedUsers v)
        (v_selectedNodes v) (v_activeNode v) (v_activeLink v) (v_hiddenStages v) (stages_changed v)
  | SetOverflowMode mode =>
      FlowView (v_role v) (v_metric v) (v_topNodeLimit v) mode (v_selectedUsers v)
        (v_selectedNodes v) (v_activeNode v) (v_activeLink v) (v_hiddenStages v) (stages_changed v)
  | SetSelectedUsers users => with_selection users (v_selectedNodes v) v
  | ToggleNodeFilter filter => toggleFlowNodeFilter filter v
  | RemoveNodeFilter filter => removeFlowNodeFilter filter v
  | ClearNodeFilters => clearFlowNodeFilters v
  | PointerDown event => handleChartPointerDown event v
  | ToggleStage stage => toggleStage stage v
  | RoleChanges role =>
      if bool_decide (getFlowStages (flow_role role) = getFlowStages (v_role v)) then v
      else with_columns (flow_role role) (v_hiddenStages v) v
  | StagesEffect => if stages_changed v then stages_effect v else v
  end.

(** The options of a rendering; [deleted] and [other] are the translated labels. *)
Definition view_options (maskSensitive : bool) (deleted : num -> jsstr) (other : FlowNodeKind -> jsstr)
  (v : flow_view) : FlowBuildOptions :=
  BuildOptions (Some (v_role v)) (Some (v_selectedUsers v)) (Some (v_selectedNodes v)) (v_activeNode v)
    (v_activeLink v) None (Some (visible_stages v)) (Some (v_topNodeLimit v)) (Some (v_overflowMode v))
    maskSensitive (Some deleted) (Some other).

(** [flowData.flow] of the rows of the server. *)
Definition drawn (rows : list FlowQuotaDataItem) (maskSensitive : bool) (deleted : num -> jsstr)
  (other : FlowNodeKind -> jsstr) (v : flow_view) : DashboardFlowGraph :=
  pd_flow (buildDashboardFlowData rows (v_metric v) (view_options maskSensitive deleted other v)).
End chart.

(** ** [flow-selection.ts] *)

Inductive FlowDisplayState : Type := DisplayLoading | DisplayError | DisplayEmpty | DisplayChart.

Definition flowDisplayState (isLoading isError : bool) (linkCount : nat) (themeReady : bool)
  : FlowDisplayState :=
  if isLoading then DisplayLoading
  else if isError then DisplayError
  else if Nat.eqb linkCount 0 then DisplayEmpty
  else if negb themeReady then DisplayLoading
  else DisplayChart.

(** A response without success throws: the error is the fallback text handed to
    [createServerError]. *)
Definition requireSuccessfulFlowRows (success : bool) (data : option (list FlowQuotaDataItem))
  (message : option jsstr) (fallbackMessage : jsstr) : result jsstr (list FlowQuotaDataItem) :=
  if negb success then Err (or_text message fallbackMessage) else Ok (default [] data).

Definition compactFlowSelectionLabel (count : nat) : jsstr :=
  if Nat.ltb 0 count then str_of_nat count else js "*".

Definition visibleFlowUsers (users : list FlowUserFilterOption) (selectedUsers : list jsstr)
  : list FlowUserFilterOption :=
  match selectedUsers with
  | [] => users
  | _ => List.filter (fun user => str_mem (uo_value user) selectedUsers) users
  end.
