(* ===== verification/FlowChartsSpec.v ===== *)
(** * Pressing the flow chart

    What a press on the chart highlights, and the states the controls of the chart can
    reach. *)

From Stdlib Require Import Sorting.Permutation.
From S2P Require Import Prelude JsString JsNumber JsValue JsArray JsGroup TaskExpr Currency DashboardFlow DashboardFlowSpec DashboardViewSpec FlowCharts.

Section spec.
Context {Col : Collation} {Scheme : ChartScheme} {Fmt : NumberFormat}.

(** ** Highlighted sets *)

Lemma fold_set_add {A} (f : A -> jsstr) (l : list A) k : forall acc,
  In k (fold_left (fun s x => set_add str_eqb (f x) s) l acc) <-> In k acc \/ In k (map f l).
Proof.
  induction l as [|x l IH]; intros acc; simpl; [tauto|].
  rewrite IH, set_add_elem by apply str_eqb_eq. intuition.
Qed.

Lemma ex_cons {A} (P : A -> Prop) x l :
  (exists y, In y (x :: l) /\ P y) <-> P x \/ exists y, In y l /\ P y.
Proof.
  split.
  - intros (y & [<-|Hy] & HP); [by left|]. right. by exists y.
  - intros [HP|(y & Hy & HP)]; [exists x|exists y]; (split; [|done]); [by left|by right].
Qed.

Lemma ex_nil {A} (P : A -> Prop) : (exists y, In y [] /\ P y) <-> False.
Proof. split; [by intros (? & [] & _)|done]. Qed.

(** The nodes and the links of the matching paths. *)
Definition on_match (node : option FlowNodeFilter) (link : option FlowLinkSelection) (k : jsstr)
  (p : PreparedFlowPath) : Prop :=
  matches_path node link (path p) = true /\ In k (map id (path p)).
Definition step_on_match (node : option FlowNodeFilter) (link : option FlowLinkSelection) (k : jsstr)
  (p : PreparedFlowPath) : Prop :=
  matches_path node link (path p) = true
  /\ In k (map (fun s => pathLinkKey s.1 s.2) (path_steps (path p))).

Lemma highlight_sets ps node link stages sets :
  buildFlowHighlightSets ps node link stages = Some sets ->
  (forall k, In k sets.1 <-> exists p, In p ps /\ on_match node link k p)
  /\ (forall k, In k sets.2 <-> exists p, In p ps /\ step_on_match node link k p).
Proof.
  unfold buildFlowHighlightSets. destruct (negb _ && negb _); [done|].
  match goal with |- context [fold_left ?f ps ([], [])] => set (step := f) end.
  assert (H : forall l acc k,
    (In k (fold_left step l acc).1 <-> In k acc.1 \/ exists p, In p l /\ on_match node link k p)
    /\ (In k (fold_left step l acc).2 <-> In k acc.2 \/ exists p, In p l /\ step_on_match node link k p)).
  { induction l as [|p l IH]; intros acc k; [rewrite !ex_nil; cbn [fold_left]; tauto|].
    cbn [fold_left]. destruct (IH (step acc p) k) as [-> ->]. rewrite !ex_cons.
    unfold step, on_match at 2, step_on_match at 2. destruct (matches_path node link (path p)); cbn [negb fst snd].
    - rewrite !fold_set_add. tauto.
    - split; intuition discriminate. }
  destruct (fold_left step ps ([], [])) as [ns ls] eqn:Ef. cbn [fst].
  destruct ns as [|n0 ns0] eqn:En; [done|]. intros He. injection He as <-. cbn [fst snd].
  split; intros k; destruct (H ps ([], []) k) as [H1 H2]; rewrite Ef in H1, H2; cbn [fst snd] in *.
  - rewrite H1. simpl. tauto.
  - rewrite H2. simpl. tauto.
Qed.

(** A path that matches makes the sets. *)
Lemma highlight_some ps node link stages p n l :
  negb (match node with Some n => kind_mem (f_kind n) stages | None => false end)
    && negb (bool_decide (is_Some link)) = false ->
  In p ps -> matches_path node link (path p) = true -> path p = n :: l ->
  is_Some (buildFlowHighlightSets ps node link stages).
Proof.
  intros Hg Hp Hm Hl. destruct (buildFlowHighlightSets ps node link stages) as [sets|] eqn:E; [done|]. exfalso.
  unfold buildFlowHighlightSets in E. rewrite Hg in E.
  match type of E with context [fold_left ?f ps ([], [])] => set (step := f) in * end.
  assert (Hin : forall ps', In p ps' -> forall acc, In (id n) (fold_left step ps' acc).1).
  { assert (Hkeep : forall k ps' acc, In k acc.1 -> In k (fold_left step ps' acc).1).
    { intros k. induction ps' as [|q ps' IH]; intros acc Hk; [done|]. apply IH. unfold step.
      destruct (matches_path node link (path q)); cbn [negb]; [|done]. cbn [fst]. apply fold_set_add. by left. }
    induction ps' as [|q ps' IH]; [done|]. intros [Hq|Hq] acc; cbn [fold_left]; [|by apply IH]. subst q. apply Hkeep.
    unfold step. rewrite Hm. cbn [negb fst]. apply fold_set_add. right. rewrite Hl. by left. }
  specialize (Hin ps Hp ([], [])). destruct (fold_left step ps ([], [])) as [ns ls]. cbn [fst] in *.
  by destruct ns.
Qed.

(** ** What was pressed *)

Definition node_filter (n : DashboardFlowNode) : FlowNodeFilter := NodeFilter (fn_kind n) (fn_id n).

(** The forms in which the chart hands over a datum. *)
Inductive wraps (d : jsval) : jsval -> Prop :=
| wraps_plain : wraps d d
| wraps_datum : wraps d (VObj [(js "datum", d)])
| wraps_list : wraps d (VObj [(js "depth", VNum n_zero); (js "datum", VArr [d])]).

(** The events of a press: on a mark, or on an item. *)
Inductive presses (d : jsval) : jsval -> Prop :=
| presses_mark w : wraps d w -> presses d (VObj [(js "datum", w)])
| presses_item w : wraps d w -> presses d (VObj [(js "item", VObj [(js "datum", w)])]).

Lemma node_datum_filter n w : wraps (sankey_node n) w -> flowNodeFilterFromSankeyDatum w = Some (node_filter n).
Proof. destruct n as [i l k v r q t c ck h d]. by destruct 1, k. Qed.

Lemma link_datum_ends i l w : wraps (sankey_link i l) w ->
  flowNodeFilterFromSankeyDatum w = None
  /\ flowSankeyDatumValue w (js "source") = VStr (fl_source l)
  /\ flowSankeyDatumValue w (js "target") = VStr (fl_target l).
Proof. by destruct 1. Qed.

Lemma pressed_datum d event : presses d event -> recordValue d <> None ->
  exists w, wraps d w /\ flowChartEventDatum event = w.
Proof.
  intros [w Hw|w Hw] Hd; exists w; (split; [done|]).
  - destruct Hw; [destruct d; done|done|done].
  - destruct Hw; [destruct d; done|done|done].
Qed.

(** Pressing a node selects it, pressing it again clears the selection. *)
Lemma press_node n event v : presses (sankey_node n) event ->
  view_step (PointerDown event) v =
  with_active (if isSameFlowNodeFilter (v_activeNode v) (node_filter n) then None else Some (node_filter n)) None v.
Proof.
  intros Hp. destruct (pressed_datum _ _ Hp) as (w & Hw & He); [done|].
  cbn [view_step]. unfold handleChartPointerDown. by rewrite He, (node_datum_filter n w Hw).
Qed.

Lemma press_link i l event v : presses (sankey_link i l) event ->
  view_step (PointerDown event) v =
  with_active None
    (if match v_activeLink v with
        | Some prev => str_eqb (s_source prev) (fl_source l) && str_eqb (s_target prev) (fl_target l)
        | None => false end
     then None else Some (LinkSelection (fl_source l) (fl_target l))) v.
Proof.
  intros Hp. destruct (pressed_datum _ _ Hp) as (w & Hw & He); [done|].
  cbn [view_step]. unfold handleChartPointerDown. rewrite He.
  by destruct (link_datum_ends i l w Hw) as (-> & -> & ->).
Qed.

(** ** The graph of a view *)

Definition view_rows (rows : list FlowQuotaDataItem) (deleted : num -> jsstr) (v : flow_view)
  : list FlowQuotaDataItem :=
  filterRowsByNodes (filterRows rows (Some (v_selectedUsers v))) (Some (v_selectedNodes v))
    (resolveVisibleStages (v_role v) (Some (visible_stages v))) (Some deleted).

Definition view_graph_options (mask : bool) (other : FlowNodeKind -> jsstr) (v : flow_view)
  : FlowGraphOptions :=
  GraphOptions (Some (v_topNodeLimit v)) (Some (v_overflowMode v)) (Some other) (v_activeNode v)
    (v_activeLink v) mask.

(** The paths drawn; neither the selection nor masking matters. *)
Definition view_paths (rows : list FlowQuotaDataItem) (deleted : num -> jsstr)
  (other : FlowNodeKind -> jsstr) (v : flow_view) : list PreparedFlowPath :=
  drawn_paths (view_rows rows deleted v) (v_metric v) (v_role v) (Some (visible_stages v)) (Some deleted)
    (view_graph_options false other v).

Lemma drawn_is_graph rows mask deleted other v :
  drawn rows mask deleted other v =
  drawn_graph (view_rows rows deleted v) (v_metric v) (v_role v) None (Some (visible_stages v))
    (Some deleted) (view_graph_options mask other v).
Proof. done. Qed.

(** A mark is highlighted exactly when [P], and dimmed otherwise. *)
Definition shown_as (highlighted dimmed : option bool) (P : Prop) : Prop :=
  exists b, highlighted = Some b /\ dimmed = Some (negb b) /\ (b = true <-> P).

Section flags.
Variables (rows : list FlowQuotaDataItem) (metric : FlowMetric) (role : FlowRole).
Variables (visible : option (list FlowNodeKind)) (ctx : FlowPathContext) (options : FlowGraphOptions).
Abbreviation graph := (drawn_graph rows metric role None visible ctx options).
Abbreviation highlights := (drawn_highlights rows metric role visible ctx options).

Lemma node_flags sets m : highlights = Some sets -> In m (g_nodes graph) ->
  shown_as (fn_highlighted m) (fn_dimmed m) (In (fn_id m) sets.1).
Proof.
  intros Hs Hm. rewrite graph_steps in Hm. cbn [g_nodes] in Hm.
  apply (Permutation_in _ (array_sort_perm _ _)) in Hm. unfold flagged_lists in Hm. rewrite Hs in Hm.
  apply in_map_iff in Hm as (m0 & <- & _). eexists. split; [done|]. split; [done|]. apply str_mem_In.
Qed.

Lemma link_flags sets l : highlights = Some sets -> In l (g_links graph) ->
  shown_as (fl_highlighted l) (fl_dimmed l) (In (linkStableKey l) sets.2).
Proof.
  intros Hs Hl. set (f := fun l => (linkStableKey l, fl_highlighted l, fl_dimmed l)).
  assert (Hin : In (f l) (map f (g_links graph))) by (by apply in_map).
  rewrite graph_steps in Hin. cbn [g_links] in Hin. rewrite assign_view in Hin by done.
  rewrite map_map in Hin. apply in_map_iff in Hin as (l1 & He & Hl1).
  apply (Permutation_in _ (array_sort_perm _ _)) in Hl1. unfold flagged_lists in Hl1. rewrite Hs in Hl1.
  apply in_map_iff in Hl1 as (l0 & <- & _). injection He as <- <- <-.
  eexists. split; [done|]. split; [done|]. apply str_mem_In.
Qed.
End flags.

(** The graph is the same but for the flags, whatever is selected. *)
Definition with_selected (node : option FlowNodeFilter) (link : option FlowLinkSelection)
  (o : FlowGraphOptions) : FlowGraphOptions :=
  GraphOptions (go_topNodeLimit o) (go_overflowMode o) (go_otherNodeLabel o) node link (go_maskSensitive o).

Lemma unflag_change : label_change (flag_link false).
Proof. done. Qed.

Lemma same_but_flags rows metric role visible ctx options node link :
  let g := drawn_graph rows metric role None visible ctx options in
  let g' := drawn_graph rows metric role None visible ctx (with_selected node link options) in
  map (flag_node false) (g_nodes g') = map (flag_node false) (g_nodes g)
  /\ map (flag_link false) (g_links g') = map (flag_link false) (g_links g).
Proof.
  intros g g'. unfold g, g'. rewrite !graph_steps. cbn [g_nodes g_links]. unfold flagged_lists.
  change (masked_lists rows metric role None visible ctx (with_selected node link options))
    with (masked_lists rows metric role None visible ctx options).
  change (drawn_paths rows metric role visible ctx (with_selected node link options))
    with (drawn_paths rows metric role visible ctx options).
  generalize (drawn_highlights rows metric role visible ctx options) as sets.
  generalize (drawn_highlights rows metric role visible ctx (with_selected node link options)) as sets'.
  destruct (masked_lists rows metric role None visible ctx options) as [nodes links]. cbn [fst snd].
  intros sets' sets. split.
  - rewrite <- !(array_sort_map byValueThenLabel byValueThenLabel (flag_node false)) by done.
    by rewrite !highlight_nodes_view.
  - rewrite <- !(change_assigned _ unflag_change). rewrite !map_map.
    assert (H : forall s, map (fun l => flag_link false (set_share
        (first_step_total (drawn_paths rows metric role visible ctx options)
           (array_sort by_link_ends (applyFlowHighlights nodes links s).2)) l))
        (array_sort by_link_ends (applyFlowHighlights nodes links s).2)
      = map (set_share (first_step_total (drawn_paths rows metric role visible ctx options)
           (array_sort by_link_ends (map (flag_link false) links))))
          (array_sort by_link_ends (map (flag_link false) links))).
    { intros s. rewrite <- (highlight_links_view (flag_link false) nodes links s) by done.
      rewrite !(change_sorted _ unflag_change), (change_total _ unflag_change), map_map. done. }
    by rewrite !H.
Qed.

(** ** A press highlights the paths through what was pressed *)

Lemma same_filter a b : isSameFlowNodeFilter a b = true <-> a = Some b.
Proof.
  destruct a as [[k i]|]; [|done]. destruct b as [k' i']. cbn [isSameFlowNodeFilter]. unfold filter_eqb. simpl.
  rewrite andb_true_iff, kind_eqb_eq, str_eqb_eq. naive_solver.
Qed.

Lemma shown_iff h d P Q : shown_as h d P -> (P <-> Q) -> shown_as h d Q.
Proof. intros (b & ? & ? & ?) ?. exists b. tauto. Qed.

Section selected.
Variables (rows : list FlowQuotaDataItem) (metric : FlowMetric) (role : FlowRole).
Variables (visible : option (list FlowNodeKind)) (ctx : FlowPathContext) (options : FlowGraphOptions).
Abbreviation paths := (drawn_paths rows metric role visible ctx options).
Abbreviation graph o := (drawn_graph rows metric role None visible ctx o).

Lemma drawn_kinds p a p' a' : In p paths -> In a (path p) -> In p' paths -> In a' (path p') ->
  id a = id a' -> kind a = kind a'.
Proof.
  intros [_ Hp]%drawn_shaped Ha [_ Hp']%drawn_shaped Ha'.
  apply prefixed_kind; [by apply (proj1 (List.Forall_forall _ _) Hp)|by apply (proj1 (List.Forall_forall _ _) Hp')].
Qed.

(** Nodes of one id have one kind. *)
Lemma same_id_kind node link n' n :
  In n' (g_nodes (graph (with_selected node link options))) -> In n (g_nodes (graph options)) ->
  fn_id n' = fn_id n -> fn_kind n' = fn_kind n.
Proof.
  intros (p' & a' & Hp' & Ha' & Hi' & <-)%graph_node (p & a & Hp & Ha & Hi & <-)%graph_node He.
  change (drawn_paths rows metric role visible ctx (with_selected node link options)) with paths in Hp'.
  apply (drawn_kinds p' a' p a); [done..|congruence].
Qed.

Lemma matches_node n p : In n (g_nodes (graph options)) -> In p paths ->
  matches_path (Some (node_filter n)) None (path p) = true <-> In (fn_id n) (map id (path p)).
Proof.
  intros (p0 & a & Hp0 & Ha & Hi & Hk)%graph_node Hp. cbn [matches_path]. unfold pathContainsFlowNode, node_filter.
  cbn [f_kind f_id]. rewrite existsb_exists, in_map_iff. split.
  - intros (x & Hx & [_ H]%andb_true_iff). exists x. by apply str_eqb_eq in H.
  - intros (x & Hxi & Hx). exists x. split; [done|]. apply andb_true_iff.
    rewrite kind_eqb_eq, str_eqb_eq. split; [|done]. rewrite <- Hk.
    apply (drawn_kinds p x p0 a); [done..|congruence].
Qed.

Lemma drawn_kind n : In n (g_nodes (graph options)) -> kind_mem (fn_kind n) (resolveVisibleStages role visible) = true.
Proof.
  intros (p & a & Hp & Ha & _ & <-)%graph_node. apply drawn_shaped in Hp as [Hm _].
  apply existsb_exists. exists (kind a). rewrite kind_eqb_eq. split; [|done].
  change (resolveVisibleStages role visible) with (drawn_stages role visible). rewrite <- Hm. by apply in_map.
Qed.

(** Selecting a node of the graph highlights the nodes and links of the paths through it. *)
Lemma node_highlights n : In n (g_nodes (graph options)) ->
  exists sets,
    drawn_highlights rows metric role visible ctx (with_selected (Some (node_filter n)) None options) = Some sets
    /\ (forall k, In k sets.1 <-> exists p, (In p paths /\ In (fn_id n) (map id (path p))) /\ In k (map id (path p)))
    /\ (forall k, In k sets.2 <-> exists p, (In p paths /\ In (fn_id n) (map id (path p)))
                                   /\ In k (map (fun s => pathLinkKey s.1 s.2) (path_steps (path p)))).
Proof.
  intros Hn. pose proof Hn as (p0 & a & Hp0 & Ha & Hi & _)%graph_node.
  assert (Hm0 : matches_path (Some (node_filter n)) None (path p0) = true).
  { apply matches_node; [done..|]. rewrite <- Hi. by apply in_map. }
  unfold drawn_highlights. cbn [go_activeNode go_activeLink with_selected].
  change (drawn_paths rows metric role visible ctx (with_selected (Some (node_filter n)) None options)) with paths.
  destruct (path p0) as [|x l] eqn:Hl; [done|]. rewrite <- Hl in Hm0.
  destruct (highlight_some paths (Some (node_filter n)) None (drawn_stages role visible) p0 x l) as [sets Hs]; [|done..|].
  { cbn [f_kind node_filter]. unfold drawn_stages. by rewrite drawn_kind. }
  exists sets. split; [done|]. destruct (highlight_sets _ _ _ _ _ Hs) as [H1 H2].
  split; intros k; [rewrite H1|rewrite H2]; split; intros (p & Hp & Hx).
  - exists p. split; [split; [done|]|apply Hx]. apply matches_node; [done..|apply Hx].
  - exists p. destruct Hp as [Hp Hid]. split; [done|]. split; [by apply matches_node|done].
  - exists p. split; [split; [done|]|apply Hx]. apply matches_node; [done..|apply Hx].
  - exists p. destruct Hp as [Hp Hid]. split; [done|]. split; [by apply matches_node|done].
Qed.
End selected.

(** C38. A press on a node of the chart that is not selected highlights the nodes and the links of
    exactly the drawn paths through it and dims all others; nothing else of the graph changes,
    labels masked or not; and a press on the same node of the new graph clears the selection. *)
Theorem press_highlights rows mask deleted other v n event :
  In n (g_nodes (drawn rows mask deleted other v)) ->
  presses (sankey_node n) event -> v_activeNode v <> Some (node_filter n) ->
  let v' := view_step (PointerDown event) v in
  let g := drawn rows mask deleted other v' in
  let through_it p := In p (view_paths rows deleted other v) /\ In (fn_id n) (map id (path p)) in
  (forall m, In m (g_nodes g) ->
     shown_as (fn_highlighted m) (fn_dimmed m) (exists p, through_it p /\ In (fn_id m) (map id (path p))))
  /\ (forall l, In l (g_links g) ->
        shown_as (fl_highlighted l) (fl_dimmed l)
          (exists p, through_it p
             /\ In (linkStableKey l) (map (fun s => pathLinkKey s.1 s.2) (path_steps (path p)))))
  /\ map (flag_node false) (g_nodes g) = map (flag_node false) (g_nodes (drawn rows mask deleted other v))
  /\ map (flag_link false) (g_links g) = map (flag_link false) (g_links (drawn rows mask deleted other v))
  /\ (forall n' event', In n' (g_nodes g) -> fn_id n' = fn_id n -> presses (sankey_node n') event' ->
        let v'' := view_step (PointerDown event') v' in
        v_activeNode v'' = None /\ v_activeLink v'' = None).
Proof.
  intros Hn Hev Hnot v' g through_it.
  assert (Hv' : v' = with_active (Some (node_filter n)) None v).
  { unfold v'. rewrite (press_node n event v Hev). destruct (isSameFlowNodeFilter _ _) eqn:E; [|done].
    by apply same_filter in E. }
  set (R := view_rows rows deleted v). set (O := view_graph_options mask other v).
  set (visible := Some (visible_stages v)).
  assert (Hg : g = drawn_graph R (v_metric v) (v_role v) None visible (Some deleted)
                     (with_selected (Some (node_filter n)) None O)) by (unfold g; by rewrite Hv').
  change (drawn rows mask deleted other v) with
    (drawn_graph R (v_metric v) (v_role v) None visible (Some deleted) O) in *.
  destruct (node_highlights R (v_metric v) (v_role v) visible (Some deleted) O n Hn) as (sets & Hs & Hs1 & Hs2).
  pose proof (same_but_flags R (v_metric v) (v_role v) visible (Some deleted) O (Some (node_filter n)) None)
    as [Hsame1 Hsame2].
  rewrite <- Hg in Hsame1, Hsame2. split; [|split; [|split; [done|split; [done|]]]].
  - intros m Hm. rewrite Hg in Hm. eapply shown_iff; [by eapply node_flags|]. apply Hs1.
  - intros l Hl. rewrite Hg in Hl. eapply shown_iff; [by eapply link_flags|]. apply Hs2.
  - intros n' event' Hn' Hid Hev'. cbv zeta. rewrite (press_node n' event' v' Hev'), Hv'.
    assert (Hk : fn_kind n' = fn_kind n).
    { rewrite Hg in Hn'. eapply (same_id_kind R (v_metric v) (v_role v) visible (Some deleted)); [exact Hn'|exact Hn|done]. }
    unfold node_filter. rewrite Hk, Hid. cbn [v_activeNode with_active].
    destruct (isSameFlowNodeFilter _ _) eqn:E; [done|].
    assert (isSameFlowNodeFilter (Some (NodeFilter (fn_kind n) (fn_id n))) (NodeFilter (fn_kind n) (fn_id n)) = true)
      by (by apply same_filter). congruence.
Qed.
End spec.

(** ** The states of the controls *)

(** At most one of a node and a link is selected. *)
Definition one_selected (v : flow_view) : Prop := v_activeNode v = None \/ v_activeLink v = None.

Lemma one_selected_step e v : one_selected v -> one_selected (view_step e v).
Proof.
  intros H. destruct e; cbn [view_step]; try exact H.
  - unfold toggleFlowNodeFilter. by destruct (kind_eqb _ _).
  - unfold removeFlowNodeFilter. by destruct (kind_eqb _ _).
  - unfold handleChartPointerDown. repeat case_match; unfold one_selected; simpl; auto.
  - unfold toggleStage. repeat case_match; exact H.
  - case_match; exact H.
  - destruct (stages_changed v); [by right|exact H].
Qed.

Lemma one_selected_reached role events :
  one_selected (fold_left (fun v e => view_step e v) events (initial_view role)).
Proof.
  assert (H : one_selected (initial_view role)) by by left. revert H. generalize (initial_view role).
  induction events as [|e events IH]; intros v H; [done|]. by apply IH, one_selected_step.
Qed.

Lemma filter_shrinks {A} (f g : A -> bool) l : (forall x, f x = true -> g x = true) ->
  (length (List.filter f l) <= length (List.filter g l))%nat.
Proof.
  intros H. induction l as [|x l IH]; [done|]. simpl. specialize (H x).
  destruct (f x); [rewrite H by done; simpl; lia|]. destruct (g x); simpl; lia.
Qed.

Lemma filter_without f (k : FlowNodeKind) l : List.NoDup l ->
  (length (List.filter f l) <= S (length (List.filter (fun x => f x && negb (kind_eqb x k)) l)))%nat.
Proof.
  induction 1 as [|x l Hx _ IH]; [simpl; lia|]. simpl. destruct (f x); [|exact IH].
  destruct (kind_eqb x k) eqn:E; cbn [andb negb]; [|simpl; lia]. apply kind_eqb_eq in E as ->. simpl.
  apply le_n_S. rewrite (filter_ext_in f (fun x => f x && negb (kind_eqb x k))); [done|].
  intros y Hy. destruct (kind_eqb y k) eqn:E; [|by rewrite andb_true_r]. by apply kind_eqb_eq in E as ->.
Qed.

Lemma visible_after P v :
  visible_stages (with_columns (v_role v) (List.filter P (getFlowStages (v_role v))) v) =
  List.filter (fun s => negb (P s)) (getFlowStages (v_role v)).
Proof.
  unfold visible_stages. cbn [v_role v_hiddenStages with_columns]. apply filter_ext_in. intros s Hs. f_equal.
  apply eq_true_iff_eq. unfold kind_mem. rewrite existsb_exists. split.
  - by intros (y & [_ Hy]%filter_In & <-%kind_eqb_eq).
  - intros HP. exists s. rewrite filter_In, kind_eqb_eq. done.
Qed.

(** Hiding a column leaves at least two. *)
Lemma toggle_keeps_columns stage v : (2 <= length (visible_stages v))%nat ->
  (2 <= length (visible_stages (toggleStage stage v)))%nat.
Proof.
  intros H. unfold toggleStage. destruct (kind_mem stage (v_hiddenStages v)) eqn:Hs.
  - rewrite visible_after. refine (Nat.le_trans _ _ _ H _). apply filter_shrinks. intros x Hx.
    by destruct (kind_mem x (v_hiddenStages v)).
  - destruct (Nat.leb _ _) eqn:Hr; [exact H|]. apply Nat.leb_gt in Hr. unfold MIN_VISIBLE_STAGES in Hr.
    rewrite visible_after.
    pose proof (filter_without (fun item => negb (kind_mem item (v_hiddenStages v))) stage
      (getFlowStages (v_role v)) (proj1 (stages_ok (v_role v) None))) as Hw.
    rewrite (filter_ext _ (fun x => negb (kind_mem x (v_hiddenStages v)) && negb (kind_eqb x stage)))
      by (intros x; apply negb_orb). lia.
Qed.

(** A press on the group node of two users' rows. *)
Definition sample_view : flow_view := FlowView RAdmin MQuota (n_of_Z 50) OAggregate [] [] None None [] false.
Definition sample_graph : DashboardFlowGraph :=
  @drawn sample_collation sample_scheme {| number_format _ _ x := string_of_number x; pow10 _ := n_of_Z 1 |}
    sample_rows false (fun _ => []) (fun _ => []) sample_view.
Definition sample_node : DashboardFlowNode :=
  FlowNode (js "group:vip") (js "vip") KGroup (n_of_Z 150) n_zero (n_of_Z 150) n_zero (js "#1664FF") (js "user:1")
    None None.

Lemma press_highlights_witness :
  In sample_node (g_nodes sample_graph)
  /\ v_activeNode (view_step (PointerDown (VObj [(js "datum", sankey_node sample_node)])) sample_view)
     = Some (NodeFilter KGroup (js "group:vip"))
  /\ let v' := view_step (PointerDown (VObj [(js "datum", sankey_node sample_node)])) sample_view in
     map (flag_node false) (g_nodes (@drawn sample_collation sample_scheme
       {| number_format _ _ x := string_of_number x; pow10 _ := n_of_Z 1 |}
       sample_rows false (fun _ => []) (fun _ => []) v')) = map (flag_node false) (g_nodes sample_graph).
Proof.
  assert (Hin : In sample_node (g_nodes sample_graph)) by (vm_compute; tauto).
  split; [exact Hin|]. split; [vm_compute; reflexivity|].
  refine (proj1 (proj2 (proj2 (@press_highlights sample_collation sample_scheme
    {| number_format _ _ x := string_of_number x; pow10 _ := n_of_Z 1 |} sample_rows false (fun _ => []) (fun _ => [])
    sample_view sample_node _ Hin _ _)))).
  - apply presses_mark, wraps_plain.
  - discriminate.
Defined.
